(* ===== verification/_CoqProject ===== *)
-Q . S2P
Prelude.v
GoStrings.v
Base64.v
PortRanges.v
Table.v
Sessions.v
SessionsCorrect.v
Memory.v
Heap.v
DnsCache.v
Resources.v
Calendar.v
PortForwardTraffic.v
Stats.v
Journal.v
JournalCorrect.v
JournalLedger.v
StatsQuery.v
Uninstall.v
ProcessIdentity.v
Lifecycle.v
LifecycleCorrect.v
RuntimeDir.v
DownloadTasks.v
DownloadTasksCorrect.v
Scheduler.v
ProxyPaths.v
BodyRewrite.v
ResponseRewrite.v
LruTable.v
CertBalance.v
RuntimeTables.v
ConnTracking.v
ConnTrackingCorrect.v
UpstreamCache.v
Routing.v
Overview.v
OverviewCounter.v
OverviewCorrect.v
TrafficCap.v
NetIP.v
GeoParser.v
GeoGrammar.v
GeoParserCorrect.v
GeoBounds.v
