(* ===== verification/Prelude.v ===== *)
(** * kwor: a verified model of the panel's core logic

    kwor is a web panel that runs sing-box and mihomo.  Its Go code keeps
    users logged in, accounts for the traffic nftables counts, enforces
    quotas, expiry dates and monthly resets, forwards ports, filters countries
    by downloaded rule-sets, runs a reverse proxy with a DNS cache under a
    memory budget, schedules its background jobs, and stops them all before it
    is uninstalled.  This library
    translates the decision-making and state-keeping parts of that code into
    Rocq functions and proves that they do what the panel relies on.

    ** Parts of the program and where they are modelled

    - Login sessions, [src/api/session.go]: [Sessions] (data, every operation
      of the store and the request handlers), [SessionsCorrect] (invariant,
      refinement of an abstract map of valid sessions, the guarantees a login,
      a logout, a refresh and a restart give).
    - The traffic journal, [src/service/traffic_runtime_journal.go], and the
      history storage, [src/service/stats_storage.go]: [Stats] (samples,
      buckets, the history query), [Journal] (the operations on memory,
      SQLite tables and files), [JournalCorrect] (the invariant and what each
      operation does to it), [JournalLedger] (traces with crashes and faults,
      refinement of a ledger), [StatsQuery] (the query, alone and on top of
      the journal).
    - The reverse proxy's resources, [src/service/reverse_proxy_memory.go] and
      [reverse_proxy_resources.go]: [Memory] (memory pool, leases, limiter),
      [Heap] (the expiry heap on [container/heap]), [DnsCache] (the response
      cache on the pool and the heap), [Resources] (the stored policy with
      its revision, and the runtime controller).
    - Port ranges, in [src/service/nftables.go], [port_check.go],
      [firewall.go], [port_forward_validation.go], [mihomo_port_hop.go],
      [singbox_port_hop.go] and others: [PortRanges].
    - The reverse proxy's handling of a request, [src/service/reverse_proxy.go]
      and [reverse_proxy_dns.go]: [ProxyPaths] (normalising, matching and
      comparing paths), [BodyRewrite] and [ResponseRewrite] (the two bounded
      passes over a body, and the response around them with its memory
      reservation), [Routing] (the certificate of a handshake and the rule of
      a request).
    - The reverse proxy's tables, in the same file and in
      [reverse_proxy_certificate_balance.go]: [LruTable] (a map with its list),
      [RuntimeTables] (mismatching clients and pending certificate choices),
      [CertBalance] (the balance between certificates), [ConnTracking] and
      [ConnTrackingCorrect] (connections, their rules, slots and permits),
      [UpstreamCache] (the cached transports).
    - The traffic overview, [src/service/traffic_overview.go]: [Overview] (the
      counters merged from vnstat and the kernel, the baselines with their
      write-behind cache, pause and resume, the resets, the switch and the
      cap), [OverviewCounter] (the merged counter over time), [OverviewCorrect]
      (the cache, the resets, pause and resume), [TrafficCap] (the cap rules).
    - GeoIP rule-sets, [src/service/firewall_geoip_parser.go] and the merge of
      [firewall_geoip.go]: [NetIP] (the addresses and prefixes of [net/netip],
      with their parsers and printers), [GeoParser] (the four parsers and their
      budget), [GeoGrammar] (a reference grammar of the binary formats, and
      that the parsers accept it), [GeoParserCorrect] (what a result means),
      [GeoBounds] (limits and termination).
    - Calendar rules, [src/service/client_access_policy.go] and part of
      [traffic_overview.go]: [Calendar].
    - Traffic accounting of port forwarding,
      [src/service/port_forward_traffic.go]: [PortForwardTraffic], on
      [Calendar] and [Table].
    - The lifecycle of background work, [src/service/lifecycle.go] and
      [lifecycle_linux.go]: [Uninstall] (the state file an uninstall shares
      between the panel and its worker), [ProcessIdentity] (what the panel
      reads in [/proc] to recognise a process it started), [Lifecycle] (the
      registration, recording, termination and quiescing of operations, as
      concurrent threads over shared memory and files), [LifecycleCorrect]
      (their invariants under every interleaving), [RuntimeDir] (the runtime
      directory, its clean-up, and the lock that makes the file operations of
      the other files atomic).
    - Download tasks, [src/service/managed_download_task.go]: [DownloadTasks]
      (the manager, its timers and the workers' methods as events),
      [DownloadTasksCorrect].  A task owns one operation of [Lifecycle].
    - The runtime sampler, [src/cronjob/runtime_sampler.go]: [Scheduler] (the
      phase-locked schedule, the run loop, and starting, stopping and waking
      it).  Its jobs include the flush of the journal.

    [GoStrings] and [Base64] model what the code uses of Go's [strings],
    [strconv], [encoding/base64] and [encoding/hex].  [Table] is the interface
    to a gorm table: a class of operations that may fail, its laws, and an
    in-memory instance; [Sessions], [Resources] and [PortForwardTraffic] are
    proved against the interface.  The record [host] of [Uninstall] is the
    interface to processes and systemd; [procHost] of [ProcessIdentity]
    implements its process part.  This file holds what all share: 64-bit
    integers, results, sums over lists and maps, and the tactics.

    ** How the code is translated

    A struct is a record, a map a [gmap], an [int] or [int64] a [Z] with the
    wrap-around written where the code adds or multiplies values that are not
    bounded before ([+!], [wrap64]).  A function on shared state takes and
    returns that state; code under one mutex is one atomic step.  Where calls
    overlap ([Lifecycle], [Scheduler]) a call is a thread with a program
    point, a step executes one critical section or channel operation, and a
    reachable state is the result of any interleaving.  The journal
    uses a state and error monad over a world that includes a schedule of
    faults, one per SQL statement, transaction boundary and file operation.
    [time.Now], random bytes and what a command reports are inputs.

    Third-party code is a parameter: gorm through [Table]; DNS message packing
    in [DnsCache]; JSON, SHA-256 and HMAC in [Journal] through [Codec], with
    the round trip of JSON as its only law; time zones through [Location] in
    [Calendar]; media types, IP addresses, certificate verification and JSON
    lists in [ResponseRewrite] and [Routing]; JSON and [ParseFloat] in
    [Overview] through [OverviewCodec], whose floating-point limit is computed
    in binary64; the set builder of [netipx] in [GeoParser] through [IPSetLib]
    with the laws [IPSetLaws], and the decompressors, the JSON decoder, SHA-256
    and [url.Parse] through [GeoEnv].  What vnstat, the kernel and nft report
    is an input of [Overview].  Each has a concrete instance at which the
    theorems are applied.

    ** What the theorems show

    - Journal: through any faults, crashes and restarts every successfully
      staged sample is counted exactly once ([journal_exactly_once]); a
      successful flush delivers, a fault-free restart recovers everything; the
      query answers the ledger ([query_sees_ledger]).  Two deviations are
      proved: the composite resource [endpoint] misses unflushed traffic, and
      staging after a failed recovery loses traffic.
    - Sessions: the 25-session bound and disjointness invariant; every
      operation refines one abstract operation; authentication is exact.
    - Pool, cache, policy: counters equal the held leases; admission is exact;
      the cache's three indexes agree; entries are found, evicted least
      recently used first and expire exactly; the policy is saved by
      compare-and-set without lost updates.
    - Reverse proxy: a rule set without reported overlaps routes every request
      to one rule, whatever the order ([routing_unambiguous]); a request is
      served under a certificate its rule owns; the overlap check of paths is
      exact; rewriting a body is exact or leaves it alone, and loses no
      reservation.  Connections, slots, permits and transports are accounted
      exactly under every interleaving, and a transport is closed once, after
      its last request.  Proved deviations: a rule without names cannot be
      reached on a plain listener, an eviction and a late registration each
      leak a slot, and a late store revives an old target.
    - Traffic overview: the merged counter never falls and stays between the
      vnstat figure and the bytes carried; the cache is one register with a
      durable copy; resets, pause and resume keep the usage they promise; the
      cap is installed exactly when the host has expired or reached its limit.
      Proved deviations: a reset after a recent overview is undone by the
      staged state, and a cap that fails half way stays.
    - GeoIP: the SRS and MRS parsers accept exactly the grammar within the
      limits, and the printed prefixes cover exactly the ranges; merging is
      union, because every printed prefix parses to itself; every path stays
      within the budgets; parsing ends on every input.  Proved deviation: the
      SRS item types are one too high.
    - Port ranges: merging computes a unique canonical form, subtraction and
      exclusion are set operations, printing and parsing are inverse.
    - Calendar and quotas: reset boundaries are consecutive, a reset happens
      once per period, expiry dates round-trip; usage never overcounts, a sync
      is atomic, exact and idempotent.
    - Lifecycle: a successful quiesce leaves no operation running in the panel
      and lets none begin; the record of an operation that may still run is
      never lost; only a process proven to be the recorded one is signalled;
      an uninstall reservation is exclusive and blocks new work, and a stale
      one changes nothing; the clean-up removes only what it knows and no
      record; the metadata lock excludes until the clean-up unlinks it; the
      token and start time that identify a process are read exactly.
    - Download tasks: one unfinished task per manager; stopping and applying
      exclude each other; every operation is released once; a finished task
      frees the slot.
    - Sampler: the jobs run in distinct seconds, each within its interval; one
      goroutine at a time is in the loop, and the last flush runs alone.

    ** Fuel and bounds

    Loops that are not structural take fuel that the theorems show to be
    enough: the length of the string for scans, one unit per row for the
    session refill, the size of the heap for sifting, the number of entries
    for eviction and expiry, the number of valid samples for the chunked
    insert, the number of files for the free quarantine name, 20 digits for
    decimal numbers, one unit per byte for the copy loop of a download, one
    level per depth the SRS depth check admits and one unit per byte for the
    items of a rule, what the JSON decoder has left for its loops.  The
    polls of a wait and the looks at a process are lists of any length.
    Hypotheses on sizes say that a total fits a 64-bit counter or that a clock
    is past the first minute of 1970.

    ** Not modelled

    Of the lifecycle code, the control socket, the check of a systemd unit's
    properties and the helpers around [exec.Cmd]; of the sampler, the jobs it
    calls; of the traffic overview, the installation and supervision of vnstat;
    of the GeoIP code, downloads, cached files, the stored rules and the nft
    sets they are rendered to.  Process control of the cores, the nft command
    line and the other firewall rules, ACME, the HTTP and DNS servers and
    their forwarding, subscription templates and the HTTP API are input and
    output around external programs.  The floating-point quota conversion of
    port forwarding, the migration of the legacy [stats] table, index creation
    and SQLite compaction are left out.  [src/compression/source] is vendored.
    Row counts and sequence numbers are unbounded integers: one per sampling
    pass, they do not reach 64 bits. *)

From stdpp Require Import base gmap sets list strings sorting.
From Stdlib Require Import ZArith Lia.

#[local] Open Scope Z_scope.

(** ** Machine integers

    Go's [int] and [int64] are 64-bit two's complement on the supported
    targets (linux/amd64, linux/arm64): addition wraps around silently. *)

Definition min_i64 : Z := - 2 ^ 63.
Definition max_i64 : Z := 2 ^ 63 - 1.

Definition wrap64 (z : Z) : Z := (z + 2 ^ 63) mod 2 ^ 64 - 2 ^ 63.

Definition in_i64 (z : Z) : Prop := min_i64 <= z <= max_i64.

Declare Scope go_scope.
Delimit Scope go_scope with go.
Notation "a +! b" := (wrap64 (a + b)) (at level 50, left associativity) : go_scope.
Notation "a -! b" := (wrap64 (a - b)) (at level 50, left associativity) : go_scope.
#[local] Open Scope go_scope.

Lemma wrap64_id z : in_i64 z -> wrap64 z = z.
Proof.
  unfold in_i64, min_i64, max_i64, wrap64. intros.
  rewrite Z.mod_small; lia.
Qed.

Lemma wrap64_range z : in_i64 (wrap64 z).
Proof.
  unfold in_i64, min_i64, max_i64, wrap64.
  pose proof (Z.mod_pos_bound (z + 2 ^ 63) (2 ^ 64)). lia.
Qed.

Create HintDb kwor.
#[export] Hint Resolve wrap64_range : kwor.

(** [i64] rewrites away every wrap-around whose operand is provably in range. *)
Ltac in_range := unfold in_i64, min_i64, max_i64 in *; lia.
Ltac i64 :=
  repeat match goal with
  | |- context [wrap64 ?z] => rewrite (wrap64_id z) by in_range
  | H : context [wrap64 ?z] |- _ => rewrite (wrap64_id z) in H by in_range
  end.

(** Case analysis on the boolean integer tests of a translated body. *)
Ltac zcase :=
  match goal with
  | |- context [Z.ltb ?a ?b] => destruct (Z.ltb_spec a b)
  | |- context [Z.leb ?a ?b] => destruct (Z.leb_spec a b)
  | |- context [Z.eqb ?a ?b] => destruct (Z.eqb_spec a b)
  | H : context [Z.ltb ?a ?b] |- _ => destruct (Z.ltb_spec a b)
  | H : context [Z.leb ?a ?b] |- _ => destruct (Z.leb_spec a b)
  | H : context [Z.eqb ?a ?b] |- _ => destruct (Z.eqb_spec a b)
  end.

Ltac zcases := repeat (zcase; simpl in *).

(** ** Results

    A Go function that returns [(value, error)] is modelled with [res]. *)

Inductive res (E A : Type) : Type :=
| Ok (a : A)
| Err (e : E).
Arguments Ok {E A} a.
Arguments Err {E A} e.

#[global] Instance res_eq_dec {E A : Type} `{EqDecision E} `{EqDecision A} :
  EqDecision (res E A).
Proof. solve_decision. Defined.

(** ** Integer ranges as lists: the loop [for p := a; p <= b; p++] *)

Definition zrange (a b : Z) : list Z := seqZ a (b - a + 1).

Lemma elem_of_zrange a b p : p ∈ zrange a b <-> a <= p <= b.
Proof. unfold zrange. rewrite elem_of_seqZ. lia. Qed.

Lemma zrange_nil a b : b < a -> zrange a b = [].
Proof. intros. unfold zrange. apply seqZ_nil. lia. Qed.

Lemma zrange_cons a b : a <= b -> zrange a b = a :: zrange (a + 1) b.
Proof.
  intros. unfold zrange. rewrite seqZ_cons by lia.
  f_equal. f_equal; lia.
Qed.

Lemma length_zrange a b : Z.of_nat (length (zrange a b)) = Z.max 0 (b - a + 1).
Proof. unfold zrange. rewrite length_seqZ. lia. Qed.

Lemma take_take_app {A} n (l k : list A) : take n (take n l ++ k) = take n (l ++ k).
Proof.
  destruct (decide (length l <= n)%nat).
  - by rewrite (take_ge l).
  - rewrite (take_app_le l) by lia. rewrite take_app_le; [by rewrite take_idemp|].
    rewrite length_take. lia.
Qed.

Lemma filter_all {A} (P : A -> Prop) `{!forall x, Decision (P x)} (l : list A) :
  Forall P l -> filter P l = l.
Proof. induction 1 as [|x l Hx _ IH]; [done|]. by rewrite filter_cons_True, IH. Qed.

(** ** Sums over lists and maps *)

Definition zsum (l : list Z) : Z := foldr Z.add 0 l.

Lemma zsum_cons x l : zsum (x :: l) = x + zsum l.
Proof. done. Qed.

Lemma zsum_app l k : zsum (l ++ k) = zsum l + zsum k.
Proof. induction l as [|x l IH]; simpl; lia. Qed.

Lemma zsum_perm l k : l ≡ₚ k -> zsum l = zsum k.
Proof. induction 1; simpl; lia. Qed.

Lemma zsum_nonneg l : Forall (fun z => 0 <= z) l -> 0 <= zsum l.
Proof. induction 1; simpl; lia. Qed.

Section MapSum.
Context {K : Type} `{Countable K} {A : Type}.
Implicit Types (m : gmap K A) (f : A -> Z).

(** The sum of [f] over the values of a finite map. *)
Definition msum f m : Z := zsum (f ∘ snd <$> map_to_list m).

Lemma msum_empty f : msum f ∅ = 0.
Proof. unfold msum. by rewrite map_to_list_empty. Qed.

Lemma msum_insert f m k a :
  m !! k = None -> msum f (<[k:=a]> m) = f a + msum f m.
Proof.
  intros Hk. unfold msum.
  rewrite (zsum_perm _ (f ∘ snd <$> (k, a) :: map_to_list m)); [done|].
  apply fmap_Permutation. by apply map_to_list_insert.
Qed.

Lemma msum_delete f m k a :
  m !! k = Some a -> msum f m = f a + msum f (delete k m).
Proof.
  intros Hk. rewrite <- (insert_delete_id m k a Hk) at 1.
  apply msum_insert. apply lookup_delete_eq.
Qed.

Lemma msum_update f m k a b :
  m !! k = Some a -> msum f (<[k:=b]> m) = msum f m - f a + f b.
Proof.
  intros Hk. rewrite (msum_delete f m k a Hk).
  rewrite <- insert_delete_eq.
  rewrite msum_insert by apply lookup_delete_eq. lia.
Qed.

Lemma map_size_delete_lookup m k a : m !! k = Some a -> size m = S (size (delete k m)).
Proof.
  intros Hk. rewrite <- (insert_delete_id m k a Hk) at 1.
  apply map_size_insert_None, lookup_delete_eq.
Qed.

Lemma msum_nonneg f m :
  (forall k a, m !! k = Some a -> 0 <= f a) -> 0 <= msum f m.
Proof.
  intros Hf. unfold msum. apply zsum_nonneg.
  apply Forall_fmap, Forall_forall. intros [k a] Hin%elem_of_map_to_list.
  simpl. eauto.
Qed.

Lemma msum_lookup_le f m k a :
  (forall k' a', m !! k' = Some a' -> 0 <= f a') ->
  m !! k = Some a -> f a <= msum f m.
Proof.
  intros Hf Hk. rewrite (msum_delete f m k a Hk).
  cut (0 <= msum f (delete k m)); [lia|].
  apply msum_nonneg. intros k' a' Hl.
  apply lookup_delete_Some in Hl as [_ Hl]. eauto.
Qed.
End MapSum.

Section KeyedSum.
Context {K : Type} `{Countable K} {A : Type}.
Implicit Types (m : gmap K A) (f : K -> A -> Z).

(** The sum of [f] over the rows of a finite map. *)
Definition ksum f m : Z := zsum ((fun row : K * A => f row.1 row.2) <$> map_to_list m).

Lemma ksum_empty f : ksum f ∅ = 0.
Proof. unfold ksum. by rewrite map_to_list_empty. Qed.

Lemma ksum_insert f m k a : m !! k = None -> ksum f (<[k:=a]> m) = f k a + ksum f m.
Proof.
  intros Hk. unfold ksum.
  rewrite (zsum_perm _ ((fun row : K * A => f row.1 row.2) <$> (k, a) :: map_to_list m)); [done|].
  apply fmap_Permutation. by apply map_to_list_insert.
Qed.

Lemma ksum_delete f m k a : m !! k = Some a -> ksum f m = f k a + ksum f (delete k m).
Proof.
  intros Hk. rewrite <- (insert_delete_id m k a Hk) at 1.
  apply ksum_insert, lookup_delete_eq.
Qed.

Lemma ksum_update f m k a b :
  m !! k = Some a -> ksum f (<[k:=b]> m) = ksum f m - f k a + f k b.
Proof.
  intros Hk. rewrite (ksum_delete f m k a Hk), <- insert_delete_eq.
  rewrite ksum_insert by apply lookup_delete_eq. lia.
Qed.

Lemma ksum_ext f f' m :
  (forall k a, m !! k = Some a -> f k a = f' k a) -> ksum f m = ksum f' m.
Proof.
  intros Hf. unfold ksum. f_equal. apply list_fmap_ext. intros i [k a] Hi.
  simpl. apply Hf. by apply elem_of_map_to_list, list_elem_of_lookup_2 with i.
Qed.

Lemma ksum_zero f m : (forall k a, m !! k = Some a -> f k a = 0) -> ksum f m = 0.
Proof.
  induction m as [|k a m Hk IH] using map_ind; intros Hf; [apply ksum_empty|].
  rewrite ksum_insert by done. rewrite (Hf k a) by apply lookup_insert_eq.
  rewrite IH; [done|]. intros k' a' Hk'. apply Hf.
  rewrite lookup_insert_ne; [done|]. congruence.
Qed.

(** Rows that weigh nothing may be filtered out. *)
Lemma ksum_filter f m (P : K * A -> Prop) `{!forall x, Decision (P x)} :
  (forall k a, m !! k = Some a -> ~ P (k, a) -> f k a = 0) ->
  ksum f (filter P m) = ksum f m.
Proof.
  induction m as [|k a m Hk IH] using map_ind; intros Hf; [by rewrite map_filter_empty|].
  assert (ksum f (filter P m) = ksum f m) as IH'.
  { apply IH. intros k' a' Hk'. apply Hf. rewrite lookup_insert_ne; [done|]. congruence. }
  rewrite (ksum_insert f m) by done. destruct (decide (P (k, a))) as [HP|HP].
  - rewrite map_filter_insert_True by done. rewrite ksum_insert; [by rewrite IH'|].
    apply map_lookup_filter_None. by left.
  - rewrite map_filter_insert_False by done. rewrite delete_id by done.
    rewrite IH', (Hf k a); [lia| |done]. apply lookup_insert_eq.
Qed.

Lemma ksum_nonneg f m : (forall k a, m !! k = Some a -> 0 <= f k a) -> 0 <= ksum f m.
Proof.
  intros Hf. apply zsum_nonneg, Forall_fmap, Forall_forall.
  intros [k a] Hin%elem_of_map_to_list. simpl. auto.
Qed.
End KeyedSum.
