(* ===== verification/GoStrings.v ===== *)
(** * Go strings

    The part of Go's [strings], [strconv] and [fmt] packages that the
    modelled code calls.  A Go string is a sequence of bytes; it is a Rocq
    [string] here, one [ascii] per byte, so a character outside ASCII is its
    UTF-8 encoding.  [TrimSpace] removes every character that
    [unicode.IsSpace] accepts, in its UTF-8 form. *)

From S2P Require Import Prelude.
From stdpp Require Import base list strings.
From Stdlib Require Import Ascii ZArith Lia.

#[local] Open Scope Z_scope.

(** ** Byte-level operations *)

Fixpoint strip_prefix (p s : string) : option string :=
  match p, s with
  | EmptyString, _ => Some s
  | String a p', String b s' => if Ascii.eqb a b then strip_prefix p' s' else None
  | String _ _, EmptyString => None
  end.

(** [strings.Contains(s, sep)] for a one-byte [sep]. *)
Fixpoint containsByte (c : ascii) (s : string) : bool :=
  match s with
  | EmptyString => false
  | String a s' => Ascii.eqb a c || containsByte c s'
  end.

(** [strings.Split(s, sep)] for a one-byte [sep]. *)
Fixpoint splitOn (c : ascii) (s : string) : list string :=
  match s with
  | EmptyString => [EmptyString]
  | String a s' =>
      if Ascii.eqb a c then EmptyString :: splitOn c s'
      else match splitOn c s' with
           | [] => [String a EmptyString]
           | w :: ws => String a w :: ws
           end
  end.

(** [strings.SplitN(s, sep, 2)] for a one-byte [sep] that occurs in [s]. *)
Fixpoint split_first (c : ascii) (s : string) : option (string * string) :=
  match s with
  | EmptyString => None
  | String a s' =>
      if Ascii.eqb a c then Some (EmptyString, s')
      else match split_first c s' with
           | None => None
           | Some (x, y) => Some (String a x, y)
           end
  end.

(** [strings.ReplaceAll(s, old, new)] for a non-empty [old]; the fuel is the
    length of [s], which bounds the number of bytes left to scan. *)
Fixpoint replace_fuel (n : nat) (old new s : string) : string :=
  match n with
  | O => s
  | S n' =>
      match strip_prefix old s with
      | Some rest => new +:+ replace_fuel n' old new rest
      | None => match s with
                | EmptyString => EmptyString
                | String a s' => String a (replace_fuel n' old new s')
                end
      end
  end.
Definition replace_all (old new s : string) : string :=
  replace_fuel (String.length s) old new s.

(** [strings.Join(parts, sep)]. *)
Fixpoint joinWith (sep : string) (l : list string) : string :=
  match l with
  | [] => ""
  | [x] => x
  | x :: l' => x +:+ sep +:+ joinWith sep l'
  end.

(** ** [strings.TrimSpace] *)

Definition byte1 (a : nat) : string := String (ascii_of_nat a) EmptyString.
Definition byte2 (a b : nat) : string := String (ascii_of_nat a) (byte1 b).
Definition byte3 (a b c : nat) : string := String (ascii_of_nat a) (byte2 b c).

(** The UTF-8 encodings of the code points with the White_Space property. *)
Definition spaces : list string :=
  [byte1 9; byte1 10; byte1 11; byte1 12; byte1 13; byte1 32;
   byte2 194 133; byte2 194 160; byte3 225 154 128] ++
  (byte3 226 128 <$> seq 128 11) ++
  [byte3 226 128 168; byte3 226 128 169; byte3 226 128 175;
   byte3 226 129 159; byte3 227 128 128].

Fixpoint strip_any (ps : list string) (s : string) : option string :=
  match ps with
  | [] => None
  | p :: ps' => match strip_prefix p s with
                | Some r => Some r
                | None => strip_any ps' s
                end
  end.

Fixpoint trim_fuel (n : nat) (ps : list string) (s : string) : string :=
  match n with
  | O => s
  | S n' => match strip_any ps s with
            | Some r => trim_fuel n' ps r
            | None => s
            end
  end.

Definition trim_left (ps : list string) (s : string) : string :=
  trim_fuel (S (String.length s)) ps s.

Definition srev (s : string) : string :=
  String.string_of_list_ascii (rev (String.list_ascii_of_string s)).

Definition trim_space (s : string) : string :=
  srev (trim_left (srev <$> spaces) (srev (trim_left spaces s))).

(** ** [strings.ToLower]

    The result is only ever compared with ASCII constants.  The code points
    whose lower case is an ASCII letter are the ASCII capitals, the Kelvin
    sign U+212A and the dotted capital I U+0130; every other code point
    outside ASCII keeps a lower case outside ASCII, so leaving its bytes as
    they are does not change such a comparison. *)

Definition lower_byte (c : ascii) : ascii :=
  let n := nat_of_ascii c in
  if ((65 <=? n) && (n <=? 90))%nat then ascii_of_nat (n + 32) else c.

Fixpoint to_lower (s : string) : string :=
  match s with
  | EmptyString => EmptyString
  | String a s1 =>
      match s1 with
      | EmptyString => String (lower_byte a) EmptyString
      | String b s2 =>
          if Ascii.eqb a (ascii_of_nat 196) && Ascii.eqb b (ascii_of_nat 176)
          then String "i" (to_lower s2)
          else match s2 with
               | EmptyString => String (lower_byte a) (to_lower s1)
               | String c s3 =>
                   if Ascii.eqb a (ascii_of_nat 226) && Ascii.eqb b (ascii_of_nat 132) &&
                      Ascii.eqb c (ascii_of_nat 170)
                   then String "k" (to_lower s3)
                   else String (lower_byte a) (to_lower s1)
               end
      end
  end.

(** ** Decimal integers *)

Definition digit_of (c : ascii) : option Z :=
  let n := Z.of_nat (nat_of_ascii c) in
  if (48 <=? n) && (n <=? 57) then Some (n - 48) else None.

Fixpoint parse_digits (acc : Z) (s : string) : option Z :=
  match s with
  | EmptyString => Some acc
  | String c s' => match digit_of c with
                   | Some d => parse_digits (acc * 10 + d) s'
                   | None => None
                   end
  end.

(** [strconv.Atoi]: an optional sign, then decimal digits; [None] stands for
    a syntax error or a value outside [int]. *)
Definition atoi (s : string) : option Z :=
  let '(neg, body) :=
    match s with
    | String "-" r => (true, r)
    | String "+" r => (false, r)
    | _ => (false, s)
    end in
  match body with
  | EmptyString => None
  | _ => match parse_digits 0 body with
         | None => None
         | Some n =>
             let v := if neg then - n else n in
             if (min_i64 <=? v) && (v <=? max_i64) then Some v else None
         end
  end.

Definition digit_char (d : Z) : ascii := ascii_of_nat (Z.to_nat (48 + d)).

Fixpoint itoa_fuel (n : nat) (z : Z) (acc : string) : string :=
  match n with
  | O => acc
  | S n' =>
      let acc' := String (digit_char (z mod 10)) acc in
      if z <? 10 then acc' else itoa_fuel n' (z / 10) acc'
  end.

(** [strconv.Itoa] and the [%d] verb; a 64-bit value has at most 19 digits,
    and the fuel covers 20. *)
Definition itoa (z : Z) : string :=
  if z <? 0 then String "-" (itoa_fuel 20 (- z) EmptyString)
  else itoa_fuel 20 z EmptyString.

(** ** Facts *)

Lemma digit_of_digit_char d : 0 <= d < 10 -> digit_of (digit_char d) = Some d.
Proof.
  intros. unfold digit_of, digit_char.
  rewrite nat_ascii_embedding by lia.
  rewrite Z2Nat.id by lia.
  destruct (48 <=? 48 + d) eqn:E1; [|lia].
  destruct (48 + d <=? 57) eqn:E2; [|lia].
  simpl. f_equal. lia.
Qed.

Lemma parse_itoa_fuel n z acc :
  0 <= z < 10 ^ Z.of_nat n -> n <> O ->
  parse_digits 0 (itoa_fuel n z acc) = parse_digits z acc.
Proof.
  revert z acc. induction n as [|n IH]; intros z acc Hz Hn; [done|].
  simpl. pose proof (Z.mod_pos_bound z 10 ltac:(lia)).
  destruct (Z.ltb_spec z 10) as [Hlt|Hge].
  - simpl. rewrite digit_of_digit_char by done.
    rewrite Z.mod_small by lia. by rewrite Z.mul_0_l, Z.add_0_l.
  - assert (10 ^ Z.of_nat (S n) = 10 * 10 ^ Z.of_nat n) as Hp.
    { rewrite Nat2Z.inj_succ, Z.pow_succ_r by lia. done. }
    destruct n as [|n'].
    { simpl in Hp. lia. }
    rewrite IH; [|split; [apply Z.div_pos; lia | apply Z.div_lt_upper_bound; lia]|done].
    simpl. rewrite digit_of_digit_char by done.
    f_equal. pose proof (Z.div_mod z 10 ltac:(lia)). lia.
Qed.

(** A decimal numeral starts with a digit. *)
Lemma itoa_fuel_digits n z acc :
  0 <= z -> (forall c, In c (String.list_ascii_of_string acc) -> is_Some (digit_of c)) ->
  forall c, In c (String.list_ascii_of_string (itoa_fuel n z acc)) -> is_Some (digit_of c).
Proof.
  revert z acc. induction n as [|n IH]; intros z acc Hz Hacc c; simpl; [by apply Hacc|].
  assert (Hacc' : forall c, In c (String.list_ascii_of_string (String (digit_char (z mod 10)) acc)) ->
                            is_Some (digit_of c)).
  { intros c' [<-|Hin]; [|by apply Hacc].
    rewrite digit_of_digit_char by (apply Z.mod_pos_bound; lia). by eexists. }
  destruct (z <? 10); [apply Hacc'|].
  apply IH; [apply Z.div_pos; lia|done].
Qed.

Lemma itoa_fuel_cons n z acc :
  n <> O -> exists c s, itoa_fuel n z acc = String c s.
Proof.
  revert z acc. induction n as [|n IH]; intros z acc Hn; [done|]. simpl.
  destruct (z <? 10); [by eexists _, _|].
  destruct n as [|n']; [by eexists _, _|]. by apply IH.
Qed.

Lemma itoa_digits z c :
  0 <= z -> In c (String.list_ascii_of_string (itoa z)) -> is_Some (digit_of c).
Proof.
  intros Hz. unfold itoa. destruct (Z.ltb_spec z 0); [lia|].
  apply itoa_fuel_digits; [lia|by intros ? []].
Qed.

Lemma itoa_cons z : 0 <= z -> exists c s, itoa z = String c s /\ is_Some (digit_of c).
Proof.
  intros Hz. pose proof (itoa_digits z) as Hd.
  unfold itoa in *. destruct (Z.ltb_spec z 0); [lia|].
  destruct (itoa_fuel_cons 20 z "") as (c & s & Heq); [done|].
  exists c, s. split; [done|]. apply Hd; [done|]. rewrite Heq. by left.
Qed.

(** Round trip: [Atoi (Itoa z) = z] on the non-negative [int]s. *)
Lemma atoi_itoa z : 0 <= z <= max_i64 -> atoi (itoa z) = Some z.
Proof.
  intros Hz. destruct (itoa_cons z) as (c & s & Heq & [d Hd]); [lia|].
  unfold atoi. rewrite Heq.
  assert (Hn : parse_digits 0 (String c s) = Some z).
  { rewrite <- Heq. unfold itoa. destruct (Z.ltb_spec z 0); [lia|].
    rewrite parse_itoa_fuel; [done| |done].
    unfold max_i64 in Hz. change (10 ^ Z.of_nat 20) with 100000000000000000000. lia. }
  assert (Hsign : c <> "-"%char /\ c <> "+"%char).
  { split; intros ->; vm_compute in Hd; discriminate. }
  destruct c as [[] [] [] [] [] [] [] []];
    try (exfalso; vm_compute in Hd; discriminate);
    cbv beta iota; rewrite Hn;
    (destruct (Z.leb_spec min_i64 z) as [_|Hlo]; [|unfold min_i64 in Hlo; lia]);
    (destruct (Z.leb_spec z max_i64) as [_|Hhi]; [done|lia]).
Qed.

(** ** Strings of one character class *)

Fixpoint allc (P : ascii -> bool) (s : string) : bool :=
  match s with
  | EmptyString => true
  | String c s' => P c && allc P s'
  end.

Definition is_digit (c : ascii) : bool :=
  match digit_of c with Some _ => true | None => false end.

(** Printable and not a blank. *)
Definition plain (c : ascii) : bool :=
  ((33 <=? nat_of_ascii c) && (nat_of_ascii c <=? 126))%nat.

Lemma app_cons c (s t : string) : String c s +:+ t = String c (s +:+ t).
Proof. reflexivity. Qed.

Lemma allc_app P s t : allc P (s +:+ t) = allc P s && allc P t.
Proof. induction s as [|c s IH]; [done|]. rewrite app_cons. simpl. rewrite IH. by destruct (P c). Qed.

Lemma allc_impl (P Q : ascii -> bool) s :
  (forall c, P c = true -> Q c = true) -> allc P s = true -> allc Q s = true.
Proof.
  intros HPQ. induction s as [|c s IH]; simpl; [done|].
  rewrite !andb_true_iff. naive_solver.
Qed.

Lemma allc_In P s :
  allc P s = true <-> forall c, In c (String.list_ascii_of_string s) -> P c = true.
Proof.
  induction s as [|c s IH]; simpl; [split; [by intros _ ? []|done]|].
  rewrite andb_true_iff, IH. split; [intros [? ?] ? [<-|?]; auto|auto].
Qed.

Lemma allc_no c s : allc (fun x => negb (Ascii.eqb x c)) s = negb (containsByte c s).
Proof. induction s as [|x s IH]; simpl; [done|]. by rewrite IH, negb_orb. Qed.

Lemma containsByte_app c s t : containsByte c (s +:+ t) = containsByte c s || containsByte c t.
Proof.
  induction s as [|x s IH]; [done|]. rewrite app_cons. simpl.
  by rewrite IH, orb_assoc.
Qed.

Lemma allc_not_contains P c s : P c = false -> allc P s = true -> containsByte c s = false.
Proof.
  intros Hc. induction s as [|x s IH]; simpl; [done|].
  rewrite andb_true_iff. intros [Hx Hs]. rewrite IH by done.
  destruct (Ascii.eqb_spec x c) as [->|]; [congruence|done].
Qed.

Lemma digit_plain c : is_digit c = true -> plain c = true.
Proof. destruct c as [[] [] [] [] [] [] [] []]; vm_compute; congruence. Qed.

Lemma itoa_all_digits z : 0 <= z -> allc is_digit (itoa z) = true.
Proof.
  intros Hz. apply allc_In. intros c Hc. unfold is_digit.
  destruct (itoa_digits z c Hz Hc) as [d ->]. done.
Qed.

(** ** Trimming *)

Lemma srev_involutive s : srev (srev s) = s.
Proof.
  unfold srev. rewrite String.list_ascii_of_string_of_list_ascii, rev_involutive.
  apply String.string_of_list_ascii_of_string.
Qed.

Lemma allc_srev P s : allc P s = true -> allc P (srev s) = true.
Proof.
  rewrite !allc_In. unfold srev. intros H c.
  rewrite String.list_ascii_of_string_of_list_ascii, <- in_rev. auto.
Qed.

Lemma strip_spaces_plain c s : plain c = true -> strip_any spaces (String c s) = None.
Proof.
  intros Hc. destruct c as [[] [] [] [] [] [] [] []];
    vm_compute in Hc; first [discriminate | reflexivity].
Qed.

Lemma strip_rev_spaces_plain c s :
  plain c = true -> strip_any (srev <$> spaces) (String c s) = None.
Proof.
  intros Hc. destruct c as [[] [] [] [] [] [] [] []];
    vm_compute in Hc; first [discriminate | reflexivity].
Qed.

Lemma trim_fuel_plain ps n s :
  strip_any ps EmptyString = None ->
  (forall c s, plain c = true -> strip_any ps (String c s) = None) ->
  allc plain s = true -> trim_fuel n ps s = s.
Proof.
  intros H0 Hps Hs. destruct n as [|n]; [done|]. simpl.
  destruct s as [|c s]; [by rewrite H0|].
  simpl in Hs. apply andb_true_iff in Hs as [Hc _]. by rewrite Hps.
Qed.

Lemma trim_rev_plain s :
  allc plain s = true -> srev (trim_left (srev <$> spaces) (srev s)) = s.
Proof.
  intros Hs. unfold trim_left.
  rewrite trim_fuel_plain; [apply srev_involutive|reflexivity|
    apply strip_rev_spaces_plain|by apply allc_srev].
Qed.

Lemma trim_space_plain s : allc plain s = true -> trim_space s = s.
Proof.
  intros Hs. unfold trim_space, trim_left at 2.
  rewrite (trim_fuel_plain spaces); [by apply trim_rev_plain|
    reflexivity|apply strip_spaces_plain|done].
Qed.

Lemma trim_space_blank s : allc plain s = true -> trim_space (String " " s) = s.
Proof.
  intros Hs. unfold trim_space, trim_left at 2.
  cbn [String.length trim_fuel].
  assert (strip_any spaces (String " " s) = Some s) as -> by reflexivity.
  assert (trim_fuel (S (String.length s)) spaces s = s) as Htrim.
  { apply trim_fuel_plain; [reflexivity|apply strip_spaces_plain|done]. }
  cbn [trim_fuel] in Htrim. rewrite Htrim. by apply trim_rev_plain.
Qed.

(** ** Splitting and replacing *)

Lemma splitOn_none c s : containsByte c s = false -> splitOn c s = [s].
Proof.
  induction s as [|x s IH]; simpl; [done|].
  rewrite orb_false_iff. intros [-> Hs]. by rewrite IH.
Qed.

Lemma splitOn_app c s t :
  containsByte c s = false -> splitOn c (s +:+ String c t) = s :: splitOn c t.
Proof.
  induction s as [|x s IH].
  - intros _. simpl. change ("" +:+ String c t) with (String c t). simpl.
    by rewrite Ascii.eqb_refl.
  - intros H. rewrite app_cons. simpl in *. rewrite orb_false_iff in H.
    destruct H as [-> Hs]. by rewrite IH.
Qed.

Lemma split_first_none c s : containsByte c s = false -> split_first c s = None.
Proof.
  induction s as [|x s IH]; simpl; [done|].
  rewrite orb_false_iff. intros [-> Hs]. by rewrite IH.
Qed.

Lemma split_first_app c s t :
  containsByte c s = false -> split_first c (s +:+ String c t) = Some (s, t).
Proof.
  induction s as [|x s IH].
  - intros _. change ("" +:+ String c t) with (String c t). simpl.
    by rewrite Ascii.eqb_refl.
  - intros H. rewrite app_cons. simpl in *. rewrite orb_false_iff in H.
    destruct H as [-> Hs]. by rewrite IH.
Qed.

Lemma replace_none a p new s :
  containsByte a s = false -> replace_all (String a p) new s = s.
Proof.
  unfold replace_all. intros H. remember (String.length s) as n eqn:E. clear E.
  revert s H. induction n as [|n IH]; intros s H; [done|].
  destruct s as [|x s]; simpl in *; [done|].
  apply orb_false_iff in H as [Hx Hs]. rewrite Ascii.eqb_sym, Hx. by rewrite IH.
Qed.

(** Replacing one byte by another, character by character. *)
Fixpoint mapc (a b : ascii) (s : string) : string :=
  match s with
  | EmptyString => EmptyString
  | String x s' => String (if Ascii.eqb a x then b else x) (mapc a b s')
  end.

Lemma replace_byte a b s :
  replace_all (String a EmptyString) (String b EmptyString) s = mapc a b s.
Proof.
  unfold replace_all. induction s as [|x s IH]; [done|]. simpl.
  destruct (Ascii.eqb a x); rewrite IH; done.
Qed.

Lemma mapc_app a b s t : mapc a b (s +:+ t) = mapc a b s +:+ mapc a b t.
Proof. induction s as [|x s IH]; [done|]. rewrite app_cons. simpl. by rewrite IH. Qed.

Lemma mapc_none a b s : containsByte a s = false -> mapc a b s = s.
Proof.
  induction s as [|x s IH]; simpl; [done|]. rewrite orb_false_iff. intros [Hx Hs].
  rewrite Ascii.eqb_sym, Hx. by rewrite IH.
Qed.

(** ** Lengths *)

Lemma length_sapp s t : (String.length (s +:+ t) = String.length s + String.length t)%nat.
Proof. induction s as [|c s IH]; [done|]. rewrite app_cons. simpl. by rewrite IH. Qed.

Lemma length_itoa_fuel k : forall n z acc,
  0 <= z < 10 ^ Z.of_nat (S k) ->
  (String.length (itoa_fuel n z acc) <= S k + String.length acc)%nat.
Proof.
  induction k as [|k IH]; intros n z acc Hz; destruct n as [|n]; simpl; try lia.
  - destruct (Z.ltb_spec z 10); simpl; [lia|].
    change (10 ^ Z.of_nat 1) with 10 in Hz. lia.
  - destruct (Z.ltb_spec z 10); simpl; [lia|].
    rewrite (Nat2Z.inj_succ (S k)), Z.pow_succ_r in Hz by lia.
    specialize (IH n (z / 10) (String (digit_char (z mod 10)) acc)).
    simpl in IH. assert (0 <= z / 10 < 10 ^ Z.of_nat (S k)).
    { split; [apply Z.div_pos; lia|apply Z.div_lt_upper_bound; lia]. }
    specialize (IH H0). lia.
Qed.

Lemma length_itoa_port z : 0 <= z <= 65535 -> (String.length (itoa z) <= 5)%nat.
Proof.
  intros. unfold itoa. destruct (Z.ltb_spec z 0); [lia|].
  pose proof (length_itoa_fuel 4 20 z "") as Hl.
  change (10 ^ Z.of_nat 5) with 100000 in Hl. simpl in Hl |- *. lia.
Qed.

Lemma length_joinWith sep n l :
  Forall (fun s => (String.length s <= n)%nat) l ->
  (String.length (joinWith sep l) <= length l * (n + String.length sep))%nat.
Proof.
  induction 1 as [|s l Hs Hl IH]; [done|].
  destruct l as [|s' l]; [simpl in *; lia|].
  cbn [joinWith] in *. rewrite !length_sapp. simpl in *. lia.
Qed.

Lemma mapc_join a b sep l :
  mapc a b (joinWith sep l) = joinWith (mapc a b sep) (mapc a b <$> l).
Proof.
  induction l as [|s l IH]; [done|]. destruct l as [|s' l]; [done|].
  cbn [joinWith fmap list_fmap] in *. by rewrite !mapc_app, IH.
Qed.

(** ** [TrimSpace] is idempotent *)

Lemma sapp_nil_r (s : string) : s +:+ "" = s.
Proof. induction s as [|c s IH]; [done|]. by rewrite app_cons, IH. Qed.

Lemma strip_prefix_spec p : forall s r, strip_prefix p s = Some r -> s = p +:+ r.
Proof.
  induction p as [|a p IH]; intros s r H; simpl in H; [by simplify_eq|].
  destruct s as [|b s]; [done|]. destruct (Ascii.eqb_spec a b) as [->|]; [|done].
  rewrite app_cons. f_equal. auto.
Qed.

Lemma strip_prefix_app p : forall s r t,
  strip_prefix p s = Some r -> strip_prefix p (s +:+ t) = Some (r +:+ t).
Proof.
  induction p as [|a p IH]; intros s r t H; simpl in H; [by simplify_eq|].
  destruct s as [|b s]; [done|]. rewrite app_cons. simpl.
  destruct (Ascii.eqb a b); [auto|done].
Qed.

Lemma strip_any_app ps s t : strip_any ps (s +:+ t) = None -> strip_any ps s = None.
Proof.
  induction ps as [|p ps IH]; simpl; [done|].
  destruct (strip_prefix p s) eqn:E; [by rewrite (strip_prefix_app _ _ _ _ E)|].
  destruct (strip_prefix p (s +:+ t)); [done|auto].
Qed.

Lemma strip_any_spec ps s r :
  strip_any ps s = Some r -> exists p, p ∈ ps /\ s = p +:+ r.
Proof.
  induction ps as [|p ps IH]; simpl; [done|].
  destruct (strip_prefix p s) eqn:E; intros H; simplify_eq.
  - exists p. split; [by left|by apply strip_prefix_spec].
  - destruct (IH H) as (p' & ? & ?). exists p'. split; [by right|done].
Qed.

(** Trimming stops at a string with nothing left to strip, and what it
    removed is a prefix. *)
Lemma trim_fuel_spec ps : Forall (fun p => p <> "") ps -> forall n s,
  (String.length s < n)%nat ->
  strip_any ps (trim_fuel n ps s) = None /\ exists u, s = u +:+ trim_fuel n ps s.
Proof.
  intros Hne. induction n as [|n IH]; intros s Hn; [lia|]. simpl.
  destruct (strip_any ps s) as [r|] eqn:E; [|by split; [|exists ""]].
  destruct (strip_any_spec _ _ _ E) as (p & Hp & ->).
  rewrite Forall_forall in Hne. specialize (Hne p Hp).
  rewrite length_sapp in Hn. destruct p as [|a p]; [done|]. simpl in Hn.
  destruct (IH r) as [? [u Hu]]; [lia|]. split; [done|].
  exists (String a p +:+ u). rewrite Hu at 1.
  clear. induction (String a p) as [|c q IHq]; [done|]. by rewrite !app_cons, IHq.
Qed.

Lemma trim_left_spec ps s :
  Forall (fun p => p <> "") ps ->
  strip_any ps (trim_left ps s) = None /\ exists u, s = u +:+ trim_left ps s.
Proof. intros Hne. unfold trim_left. apply trim_fuel_spec; [done|lia]. Qed.

Lemma trim_left_none ps s : strip_any ps s = None -> trim_left ps s = s.
Proof. intros H. unfold trim_left. simpl. by rewrite H. Qed.

Lemma chars_app s t :
  String.list_ascii_of_string (s +:+ t) =
  String.list_ascii_of_string s ++ String.list_ascii_of_string t.
Proof. induction s as [|c s IH]; [done|]. rewrite app_cons. simpl. by rewrite IH. Qed.

Lemma srev_app s t : srev (s +:+ t) = srev t +:+ srev s.
Proof.
  unfold srev. rewrite chars_app, rev_app_distr.
  induction (rev (String.list_ascii_of_string t)) as [|c l IH]; [done|].
  simpl. by rewrite app_cons, IH.
Qed.

Lemma spaces_nonempty :
  Forall (fun p => p <> "") spaces /\ Forall (fun p => p <> "") (srev <$> spaces).
Proof. split; vm_compute; repeat constructor; discriminate. Qed.

Lemma trim_space_idemp s : trim_space (trim_space s) = trim_space s.
Proof.
  destruct spaces_nonempty as [Hn Hr]. unfold trim_space at 2 3.
  set (t := trim_left spaces s).
  destruct (trim_left_spec spaces s Hn) as [Ht _]. fold t in Ht.
  destruct (trim_left_spec (srev <$> spaces) (srev t) Hr) as [Hv [u Hu]].
  set (v := trim_left (srev <$> spaces) (srev t)) in *.
  assert (t = srev v +:+ srev u) as Heq.
  { rewrite <- srev_app, <- Hu. by rewrite srev_involutive. }
  rewrite Heq in Ht. apply strip_any_app in Ht.
  unfold trim_space. rewrite (trim_left_none spaces) by done.
  rewrite srev_involutive. by rewrite trim_left_none.
Qed.

Lemma trim_space_substring s : exists u v, s = u +:+ trim_space s +:+ v.
Proof.
  destruct spaces_nonempty as [Hn Hr]. unfold trim_space.
  destruct (trim_left_spec spaces s Hn) as [_ [u Hu]].
  set (t := trim_left spaces s) in *.
  destruct (trim_left_spec (srev <$> spaces) (srev t) Hr) as [_ [w Hw]].
  set (v := trim_left (srev <$> spaces) (srev t)) in *.
  exists u, (srev w). rewrite <- srev_app, <- Hw, srev_involutive. done.
Qed.

Lemma trim_space_contains c s : containsByte c s = false -> containsByte c (trim_space s) = false.
Proof.
  destruct (trim_space_substring s) as (u & v & Hs). rewrite Hs at 1.
  rewrite !containsByte_app, !orb_false_iff. tauto.
Qed.

Lemma itoa_inj a b : 0 <= a <= max_i64 -> 0 <= b <= max_i64 -> itoa a = itoa b -> a = b.
Proof. intros Ha Hb Hab. apply atoi_itoa in Ha, Hb. congruence. Qed.

(** ** Trimmed text followed by plain text *)

Lemma trim_space_none s : strip_any spaces (trim_space s) = None.
Proof.
  destruct spaces_nonempty as [Hn Hr]. unfold trim_space.
  destruct (trim_left_spec spaces s Hn) as [Ht _]. set (t := trim_left spaces s) in *.
  destruct (trim_left_spec (srev <$> spaces) (srev t) Hr) as [_ [u Hu]].
  set (v := trim_left (srev <$> spaces) (srev t)) in *.
  assert (t = srev v +:+ srev u) as Heq by (by rewrite <- srev_app, <- Hu, srev_involutive).
  rewrite Heq in Ht. by apply strip_any_app in Ht.
Qed.

Lemma strip_prefix_stop c p : containsByte c p = false -> forall s t,
  strip_prefix p s = None -> strip_prefix p (s +:+ String c t) = None.
Proof.
  induction p as [|a p IH]; intros Hc s t; simpl in *; [done|].
  apply orb_false_iff in Hc as [Ha Hc].
  destruct s as [|b s]; simpl; [by rewrite Ha|].
  destruct (Ascii.eqb a b); [by apply IH|done].
Qed.

Lemma strip_any_stop c ps : Forall (fun p => containsByte c p = false) ps -> forall s t,
  strip_any ps s = None -> strip_any ps (s +:+ String c t) = None.
Proof.
  induction 1 as [|p ps Hp _ IH]; intros s t; simpl; [done|].
  destruct (strip_prefix p s) eqn:E; [done|]. intros Hs. rewrite strip_prefix_stop by done. by apply IH.
Qed.

(** [kind + "-" + id] is trimmed when the parts are. *)
Lemma trim_space_dash s t :
  t <> "" -> allc plain t = true ->
  trim_space (trim_space s +:+ String "-" t) = trim_space s +:+ String "-" t.
Proof.
  intros Ht Hp. unfold trim_space at 1. rewrite (trim_left_none spaces).
  2: { apply strip_any_stop; [|apply trim_space_none].
       vm_compute. repeat constructor. }
  rewrite trim_left_none; [apply srev_involutive|].
  rewrite srev_app. assert (srev (String "-" t) = srev t +:+ "-") as ->.
  { change (String "-" t) with ("-" +:+ t). by rewrite srev_app. }
  pose proof (allc_srev _ _ Hp) as Hr. destruct (srev t) as [|c u] eqn:E.
  - exfalso. apply Ht. by rewrite <- (srev_involutive t), E.
  - rewrite !app_cons. simpl in Hr. apply andb_true_iff in Hr as [Hc _]. by apply strip_rev_spaces_plain.
Qed.

(** ** [strings.HasPrefix], [HasSuffix], [TrimPrefix], [TrimSuffix] *)

Definition has_prefix (s p : string) : bool :=
  match strip_prefix p s with Some _ => true | None => false end.
Definition trim_prefix (s p : string) : string :=
  match strip_prefix p s with Some r => r | None => s end.
Definition has_suffix (s p : string) : bool := has_prefix (srev s) (srev p).
Definition trim_suffix (s p : string) : string :=
  match strip_prefix (srev p) (srev s) with Some r => srev r | None => s end.

Lemma sapp_assoc (s t u : string) : (s +:+ t) +:+ u = s +:+ (t +:+ u).
Proof. induction s as [|c s IH]; [done|]. rewrite !app_cons. by rewrite IH. Qed.

Lemma strip_prefix_of p r : strip_prefix p (p +:+ r) = Some r.
Proof. induction p as [|c p IH]; [done|]. rewrite app_cons. simpl. by rewrite Ascii.eqb_refl. Qed.

Lemma has_prefix_spec s p : has_prefix s p = true <-> exists r, s = p +:+ r.
Proof.
  unfold has_prefix. split.
  - destruct (strip_prefix p s) as [r|] eqn:E; [|done]. intros _. exists r. by apply strip_prefix_spec.
  - intros [r ->]. by rewrite strip_prefix_of.
Qed.

Lemma trim_prefix_app p r : trim_prefix (p +:+ r) p = r.
Proof. unfold trim_prefix. by rewrite strip_prefix_of. Qed.

Lemma has_suffix_spec s p : has_suffix s p = true <-> exists r, s = r +:+ p.
Proof.
  unfold has_suffix. rewrite has_prefix_spec. split; intros [r Hr].
  - exists (srev r). by rewrite <- (srev_involutive s), Hr, srev_app, srev_involutive.
  - exists (srev r). by rewrite Hr, srev_app.
Qed.

Lemma trim_suffix_app r p : trim_suffix (r +:+ p) p = r.
Proof. unfold trim_suffix. rewrite srev_app, strip_prefix_of. apply srev_involutive. Qed.

(** Two ways to split a string: one of the first parts extends the other. *)
Lemma sapp_split a x b y :
  a +:+ x = b +:+ y -> (exists z, a = b +:+ z /\ y = z +:+ x) \/ (exists z, b = a +:+ z /\ x = z +:+ y).
Proof.
  revert b. induction a as [|c a IH]; intros b H; [right; by exists b|].
  destruct b as [|d b]; [left; by exists (String c a)|].
  rewrite !app_cons in H. injection H as <- H.
  destruct (IH b H) as [(z & -> & ->)|(z & -> & ->)]; [left|right]; exists z; by rewrite app_cons.
Qed.

Lemma sapp_eq_nil s t : s +:+ t = "" -> s = "" /\ t = "".
Proof. by destruct s. Qed.

Lemma sapp_inj (p s t : string) : p +:+ s = p +:+ t -> s = t.
Proof. induction p as [|a p IH]; [done|]. rewrite !app_cons. intros [= H]. by apply IH. Qed.

Lemma sapp_nil_inv s t : s +:+ t = s -> t = "".
Proof. induction s as [|c s IH]; [done|]. rewrite app_cons. intros [= H]. by apply IH. Qed.

Lemma trim_space_both s :
  strip_any spaces s = None -> strip_any (srev <$> spaces) (srev s) = None -> trim_space s = s.
Proof.
  intros H1 H2. unfold trim_space. rewrite (trim_left_none spaces) by done.
  rewrite trim_left_none by done. apply srev_involutive.
Qed.

Lemma trim_space_rev_none s : strip_any (srev <$> spaces) (srev (trim_space s)) = None.
Proof.
  destruct spaces_nonempty as [_ Hr]. unfold trim_space. rewrite srev_involutive. by apply trim_left_spec.
Qed.
