(* ===== verification/Base64.v ===== *)
(** * Base64 and hexadecimal text

    Go's [base64.RawURLEncoding] (URL alphabet, no padding, lenient trailing
    bits, line breaks ignored) and [hex.EncodeToString], which carry the
    panel's login tokens and their hashes.  A byte is an integer in 0..255. *)

From S2P Require Import Prelude GoStrings.
From stdpp Require Import base list strings.
From Stdlib Require Import Ascii ZArith Lia.

#[local] Open Scope Z_scope.

Definition is_byte (b : Z) : Prop := 0 <= b < 256.

Definition ascii_of_Z (z : Z) : ascii := ascii_of_nat (Z.to_nat z).
Definition Z_of_ascii (c : ascii) : Z := Z.of_nat (nat_of_ascii c).

(** The URL alphabet: A-Z a-z 0-9 - _ *)
Definition enc64 (v : Z) : ascii :=
  if v <? 26 then ascii_of_Z (65 + v)
  else if v <? 52 then ascii_of_Z (97 + (v - 26))
  else if v <? 62 then ascii_of_Z (48 + (v - 52))
  else if v =? 62 then "-"%char else "_"%char.

Definition dec64 (c : ascii) : option Z :=
  let n := Z_of_ascii c in
  if (65 <=? n) && (n <=? 90) then Some (n - 65)
  else if (97 <=? n) && (n <=? 122) then Some (n - 71)
  else if (48 <=? n) && (n <=? 57) then Some (n + 4)
  else if n =? 45 then Some 62
  else if n =? 95 then Some 63
  else None.

(** [RawURLEncoding.EncodeToString]: three bytes give four characters, a
    remainder of two or one gives three or two. *)
Fixpoint base64_encode (l : list Z) : string :=
  match l with
  | a :: b :: c :: rest =>
      let v := a * 65536 + b * 256 + c in
      String (enc64 (v / 262144)) (String (enc64 (v / 4096 mod 64))
        (String (enc64 (v / 64 mod 64)) (String (enc64 (v mod 64)) (base64_encode rest))))
  | [a; b] =>
      let v := a * 65536 + b * 256 in
      String (enc64 (v / 262144)) (String (enc64 (v / 4096 mod 64))
        (String (enc64 (v / 64 mod 64)) EmptyString))
  | [a] =>
      let v := a * 65536 in
      String (enc64 (v / 262144)) (String (enc64 (v / 4096 mod 64)) EmptyString)
  | [] => EmptyString
  end.

(** The sextets of a text; line breaks are skipped, any other character
    outside the alphabet is an error. *)
Fixpoint sextets (s : string) : option (list Z) :=
  match s with
  | EmptyString => Some []
  | String c s' =>
      if (Z_of_ascii c =? 10) || (Z_of_ascii c =? 13) then sextets s'
      else match dec64 c, sextets s' with
           | Some v, Some vs => Some (v :: vs)
           | _, _ => None
           end
  end.

Fixpoint quanta (vs : list Z) : option (list Z) :=
  match vs with
  | [] => Some []
  | [_] => None
  | [p; q] =>
      let v := p * 262144 + q * 4096 in Some [v / 65536]
  | [p; q; r] =>
      let v := p * 262144 + q * 4096 + r * 64 in Some [v / 65536; v / 256 mod 256]
  | p :: q :: r :: s :: rest =>
      let v := p * 262144 + q * 4096 + r * 64 + s in
      match quanta rest with
      | Some bs => Some (v / 65536 :: v / 256 mod 256 :: v mod 256 :: bs)
      | None => None
      end
  end.

(** [RawURLEncoding.DecodeString]. *)
Definition base64_decode (s : string) : option (list Z) :=
  match sextets s with
  | Some vs => quanta vs
  | None => None
  end.

Definition hex_digit (v : Z) : ascii :=
  if v <? 10 then ascii_of_Z (48 + v) else ascii_of_Z (87 + v).

(** [hex.EncodeToString]. *)
Fixpoint hex_encode (l : list Z) : string :=
  match l with
  | [] => EmptyString
  | b :: l' => String (hex_digit (b / 16)) (String (hex_digit (b mod 16)) (hex_encode l'))
  end.

(** ** Round trip *)

Lemma enc64_cases v : 0 <= v < 64 ->
  dec64 (enc64 v) = Some v /\
  ((Z_of_ascii (enc64 v) =? 10) || (Z_of_ascii (enc64 v) =? 13)) = false /\
  plain (enc64 v) = true.
Proof.
  intros Hv.
  assert (v ∈ seqZ 0 64) as Hin by (apply elem_of_seqZ; lia).
  revert v Hv Hin. cbn.
  intros v _ Hin. repeat (apply elem_of_cons in Hin as [->|Hin]; [by vm_compute|]).
  by apply elem_of_nil in Hin.
Qed.

Lemma sextets_enc v s :
  0 <= v < 64 ->
  sextets (String (enc64 v) s) = match sextets s with Some vs => Some (v :: vs) | None => None end.
Proof.
  intros Hv. destruct (enc64_cases v Hv) as (Hd & Hnl & _).
  cbn [sextets]. rewrite Hnl, Hd. done.
Qed.

Ltac sextet_bounds := Z.to_euclidean_division_equations; lia.

Lemma base64_sextets l : Forall is_byte l ->
  exists vs, sextets (base64_encode l) = Some vs /\ quanta vs = Some l.
Proof.
  revert l. fix IH 1. intros l Hl.
  destruct l as [|a [|b [|c rest]]].
  - by exists [].
  - rewrite Forall_singleton in Hl. unfold is_byte in Hl. cbn [base64_encode].
    rewrite !sextets_enc by sextet_bounds. cbn. eexists; split; [done|].
    cbn. f_equal. f_equal; Z.to_euclidean_division_equations; lia.
  - rewrite Forall_cons, Forall_singleton in Hl. unfold is_byte in Hl.
    destruct Hl as [? ?]. cbn [base64_encode].
    rewrite !sextets_enc by sextet_bounds. cbn. eexists; split; [done|].
    cbn. f_equal. f_equal; [|f_equal]; Z.to_euclidean_division_equations; lia.
  - rewrite !Forall_cons in Hl. unfold is_byte in Hl. destruct Hl as (? & ? & ? & Hrest).
    destruct (IH rest Hrest) as (vs & Hs & Hq). cbn [base64_encode].
    rewrite !sextets_enc by sextet_bounds. rewrite Hs. eexists; split; [done|].
    cbn [quanta]. rewrite Hq. f_equal.
    f_equal; [|f_equal; [|f_equal]]; Z.to_euclidean_division_equations; lia.
Qed.

Lemma base64_decode_encode l : Forall is_byte l -> base64_decode (base64_encode l) = Some l.
Proof.
  intros Hl. destruct (base64_sextets l Hl) as (vs & Hs & Hq).
  unfold base64_decode. by rewrite Hs.
Qed.

Lemma base64_plain l : Forall is_byte l -> allc plain (base64_encode l) = true.
Proof.
  revert l. fix IH 1. intros l Hl.
  destruct l as [|a [|b [|c rest]]]; [done|..];
    rewrite ?Forall_cons in Hl; unfold is_byte in Hl; destruct_and!;
    cbn [base64_encode allc];
    repeat match goal with
    | |- context [plain (enc64 ?v)] =>
        rewrite (proj2 (proj2 (enc64_cases v ltac:(sextet_bounds))))
    end; cbn; try done.
  apply IH. done.
Qed.
