(* ===== verification/PortRanges.v ===== *)
(** * Port ranges

    The interval arithmetic that every nftables rule of the panel goes
    through: parsing what the administrator typed, merging, clipping,
    subtracting and printing.  Sources: [service/nftables.go] ([portRange]),
    [service/port_check.go] ([portSpan]), [service/client_limit_ranges.go],
    [service/firewall.go], [service/port_forward_validation.go] and the two
    port-hop files.

    A list of ranges denotes a set of ports ([covers]).  [canonical] is the
    form the code keeps: valid ports, ascending, and no two ranges adjacent
    or overlapping.  A set of ports has one canonical form
    ([canonical_unique]), which is what makes the round trips go through. *)

From S2P Require Import Prelude GoStrings.
From stdpp Require Import base gmap list sorting strings.
From Stdlib Require Import Ascii ZArith Lia.

#[local] Open Scope Z_scope.
#[local] Open Scope go_scope.

(** ** Data *)

Record portRange : Type := mkRange { start : Z; end_ : Z }.

#[global] Instance portRange_eq_dec : EqDecision portRange.
Proof. solve_decision. Defined.

Abbreviation portSpan := portRange (only parsing).

Definition validPort (port : Z) : bool := (1 <=? port) && (port <=? 65535).

(** ** Sorting and merging *)

(** The comparison of the two [sort.Slice] calls, as the order it sorts by.
    Elements that compare equal are equal, so the sorted slice is unique. *)
Definition range_le (a b : portRange) : Prop :=
  start a < start b \/ (start a = start b /\ end_ a <= end_ b).

#[global] Instance range_le_dec : RelDecision range_le.
Proof. intros a b. unfold range_le. apply _. Defined.

(** The loop over the sorted slice; [last] is [merged[len(merged)-1]]. *)
Fixpoint merge_loop (last : portRange) (ranges : list portRange) : list portRange :=
  match ranges with
  | [] => [last]
  | cur :: rest =>
      if start cur <=? (end_ last +! 1)
      then if end_ last <? end_ cur
           then merge_loop (mkRange (start last) (end_ cur)) rest
           else merge_loop last rest
      else last :: merge_loop cur rest
  end.

Definition mergePortRanges (ranges : list portRange) : list portRange :=
  match merge_sort range_le ranges with
  | [] => []
  | r :: rest => merge_loop r rest
  end.

Definition mergePortSpans (ranges : list portSpan) : list portSpan :=
  match merge_sort range_le ranges with
  | [] => []
  | r :: rest => merge_loop r rest
  end.

(** One iteration of [normalizeNftPortRanges]: swap, drop or clip. *)
Definition clipPortRange (current : portRange) : option portRange :=
  let '(s, e) := if end_ current <? start current
                 then (end_ current, start current)
                 else (start current, end_ current) in
  if (e <? 1) || (65535 <? s) then None
  else Some (mkRange (if s <? 1 then 1 else s) (if 65535 <? e then 65535 else e)).

Definition normalizeNftPortRanges (ranges : list portRange) : list portRange :=
  mergePortRanges (omap clipPortRange ranges).

(** ** Parsing and printing *)

(** One comma-separated part of [parsePortRangeInput]. *)
Definition parsePortPart (raw : string) : option portRange :=
  let part := trim_space raw in
  if decide (part = "") then None else
  let part := replace_all "-" ":" part in
  match split_first ":" part with
  | Some (a, b) =>
      match atoi a, atoi b with
      | Some s, Some e =>
          let '(s, e) := if e <? s then (e, s) else (s, e) in
          if (e <? 1) || (65535 <? s) then None
          else Some (mkRange (if s <? 1 then 1 else s) (if 65535 <? e then 65535 else e))
      | _, _ => None
      end
  | None =>
      match atoi part with
      | Some port => if (port <? 1) || (65535 <? port) then None
                     else Some (mkRange port port)
      | None => None
      end
  end.

Definition fullwidth_comma : string := byte3 239 188 140.

Definition parsePortRangeInput (input : string) : list portRange :=
  if decide (input = "") then [] else
  mergePortRanges (omap parsePortPart (splitOn "," (replace_all fullwidth_comma "," input))).

Definition formatRange (sep : string) (r : portRange) : string :=
  if start r =? end_ r then itoa (start r)
  else itoa (start r) +:+ sep +:+ itoa (end_ r).

Definition portRangesToNft (ranges : list portRange) : string :=
  joinWith ", " (formatRange "-" <$> ranges).

Definition formatPortSpans (ranges : list portSpan) : string :=
  joinWith "," (formatRange ":" <$> ranges).

(** One segment of [parseStrictPortRanges]. *)
Definition parseStrictSegment (part : string) : res string portSpan :=
  let token := trim_space part in
  if decide (token = "") then Err "invalid empty segment" else
  let token := replace_all " " "" token in
  let invalid := Err ("invalid segment: " +:+ token) in
  let hasDash := containsByte "-" token in
  let hasColon := containsByte ":" token in
  if hasDash && hasColon then invalid
  else if hasDash || hasColon then
    match splitOn (if hasDash then "-" else ":")%char token with
    | [a; b] =>
        match atoi a, atoi b with
        | Some s, Some e =>
            if negb (validPort s) || negb (validPort e) || (e <? s) then invalid
            else Ok (mkRange s e)
        | _, _ => invalid
        end
    | _ => invalid
    end
  else
    match atoi token with
    | Some port => if validPort port then Ok (mkRange port port) else invalid
    | None => invalid
    end.

Fixpoint parseStrictSegments (parts : list string) : res string (list portSpan) :=
  match parts with
  | [] => Ok []
  | p :: ps =>
      match parseStrictSegment p with
      | Err e => Err e
      | Ok r => match parseStrictSegments ps with
                | Err e => Err e
                | Ok rs => Ok (r :: rs)
                end
      end
  end.

Definition parseStrictPortRanges (input : string)
  : res string (list portSpan * string) :=
  let raw := trim_space input in
  if decide (raw = "") then Err "empty range" else
  match parseStrictSegments (splitOn "," (replace_all fullwidth_comma "," raw)) with
  | Err e => Err e
  | Ok ranges => let merged := mergePortSpans ranges in
                 Ok (merged, formatPortSpans merged)
  end.

Definition countPorts (ranges : list portSpan) : Z :=
  foldl (fun total r => total +! (end_ r -! start r +! 1)) 0 ranges.

(** ** Port lists *)

(** The scan of [normalizePortList]: drop invalid ports and repetitions. *)
Fixpoint dedupPorts (seen : gset Z) (ports : list Z) : list Z :=
  match ports with
  | [] => []
  | port :: rest =>
      if (port <? 1) || (65535 <? port) then dedupPorts seen rest
      else if decide (port ∈ seen) then dedupPorts seen rest
      else port :: dedupPorts ({[port]} ∪ seen) rest
  end.

Definition normalizePortList (ports : list Z) : list Z :=
  merge_sort Z.le (dedupPorts ∅ ports).

Definition expandPortRangesToPorts (ranges : list portRange) : list Z :=
  normalizePortList
    (normalizeNftPortRanges ranges ≫= fun r => zrange (start r) (end_ r)).

Definition intsToPortRanges (ports : list Z) : list portRange :=
  mergePortRanges ((fun p => mkRange p p) <$> normalizePortList ports).

Fixpoint portInRanges (port : Z) (ranges : list portRange) : bool :=
  match ranges with
  | [] => false
  | r :: rest => if (start r <=? port) && (port <=? end_ r) then true
                 else portInRanges port rest
  end.

(** ** Subtraction *)

(** The inner loop body of [subtractFirewallPortRanges]. *)
Definition subtractOne (blocked current : portRange) : list portRange :=
  if (end_ blocked <? start current) || (end_ current <? start blocked) then [current]
  else (if start current <? start blocked
        then [mkRange (start current) (start blocked -! 1)] else [])
       ++ (if end_ blocked <? end_ current
           then [mkRange (end_ blocked +! 1) (end_ current)] else []).

Fixpoint subtractLoop (remaining excluded : list portRange) : list portRange :=
  match excluded with
  | [] => mergePortRanges remaining
  | blocked :: rest =>
      match remaining ≫= subtractOne blocked with
      | [] => []
      | next => subtractLoop next rest
      end
  end.

Definition subtractFirewallPortRanges (ranges excluded : list portRange) : list portRange :=
  subtractLoop (mergePortRanges ranges) (mergePortRanges excluded).

(** What [excludePortsFromRanges] accumulates; in the scan of one range
    [curStart] is the start of the allowed run, [-1] when there is none. *)
Record excludeState : Type := mkExclude {
  allowed : list portRange; skipped : Z; sample : list Z }.

Fixpoint excludeScan (excluded : gset Z) (ps : list Z) (curStart : Z)
    (st : excludeState) : Z * excludeState :=
  match ps with
  | [] => (curStart, st)
  | p :: rest =>
      if decide (p ∈ excluded) then
        let smp := if (length (sample st) <? 5)%nat then sample st ++ [p] else sample st in
        let alw := if curStart =? -1 then allowed st
                   else allowed st ++ [mkRange curStart (p -! 1)] in
        excludeScan excluded rest (-1) (mkExclude alw (skipped st +! 1) smp)
      else
        excludeScan excluded rest (if curStart =? -1 then p else curStart) st
  end.

Definition excludeRange (excluded : gset Z) (st : excludeState) (r : portRange) : excludeState :=
  let '(curStart, st') := excludeScan excluded (zrange (start r) (end_ r)) (-1) st in
  if curStart =? -1 then st'
  else mkExclude (allowed st' ++ [mkRange curStart (end_ r)]) (skipped st') (sample st').

Definition excludePortsFromRanges (ranges : list portRange) (excluded : gset Z)
  : list portRange * Z * list Z :=
  if decide (ranges = []) then ([], 0, []) else
  if decide (excluded = ∅) then (ranges, 0, []) else
  let st := foldl (excludeRange excluded) (mkExclude [] 0 []) ranges in
  (mergePortRanges (allowed st), skipped st, sample st).

(** ** Overlap of two span lists *)

Record portForwardSpanOverlap : Type := mkOverlap { ov_count : Z; ov_sample : list Z }.

(** The inner [for] that fills the sample up to twelve ports. *)
Fixpoint sampleLoop (smp ps : list Z) : list Z :=
  match ps with
  | [] => smp
  | p :: rest => if (length smp <? 12)%nat then sampleLoop (smp ++ [p]) rest else smp
  end.

Definition overlapPair (left right : portSpan) (result : portForwardSpanOverlap)
  : portForwardSpanOverlap :=
  let s := if start left <? start right then start right else start left in
  let e := if end_ right <? end_ left then end_ right else end_ left in
  if e <? s then result
  else mkOverlap (ov_count result +! (e -! s +! 1)) (sampleLoop (ov_sample result) (zrange s e)).

Definition summarizePortForwardSpanOverlap (a b : list portSpan) : portForwardSpanOverlap :=
  foldl (fun acc left => foldl (fun acc right => overlapPair left right acc) acc b)
        (mkOverlap 0 []) a.

(** ** Port-hop ranges ([mihomo_port_hop.go], [singbox_port_hop.go]) *)

Definition portHopMaxRangeTextBytes : Z := 512.
Definition portHopMaxSegments : Z := 32.
Definition portHopMaxPorts : Z := 4096.

Definition validateMihomoManagedPortRange (input label : string) : option string :=
  let input := trim_space input in
  if portHopMaxRangeTextBytes <? Z.of_nat (String.length input)
  then Some (label +:+ " is too long (max 512 bytes)") else
  match parseStrictPortRanges input with
  | Err e => Some ("invalid " +:+ label +:+ ": " +:+ e)
  | Ok (ranges, _) =>
      if portHopMaxSegments <? Z.of_nat (length ranges)
      then Some (label +:+ " has too many segments (max 32)") else
      if portHopMaxPorts <? countPorts ranges
      then Some (label +:+ " contains too many ports (max 4096)") else None
  end.

Definition normalizeMihomoPortHopRange (raw : string) : res string string :=
  let input := trim_space raw in
  if decide (input = "") then Ok "" else
  match validateMihomoManagedPortRange input "mihomo hysteria2 port hop range" with
  | Some e => Err e
  | None =>
      match parseStrictPortRanges input with
      | Err e => Err ("invalid mihomo hysteria2 port hop range: " +:+ e)
      | Ok (_, normalized) => Ok (replace_all ":" "-" normalized)
      end
  end.

Definition normalizeSingboxPortHopRange (raw : string) : res string string :=
  let input := trim_space raw in
  if decide (input = "") then Ok "" else
  if portHopMaxRangeTextBytes <? Z.of_nat (String.length input)
  then Err "sing-box hysteria port hop range is too long (max 512 bytes)" else
  match parseStrictPortRanges input with
  | Err e => Err ("invalid sing-box hysteria port hop range: " +:+ e)
  | Ok (ranges, normalized) =>
      if portHopMaxSegments <? Z.of_nat (length ranges)
      then Err "sing-box hysteria port hop range has too many segments (max 32)" else
      if portHopMaxPorts <? countPorts ranges
      then Err "sing-box hysteria port hop range contains too many ports (max 4096)" else
      Ok (replace_all ":" "-" normalized)
  end.

(** Sanity runs. *)
Example ex_parse : parsePortRangeInput "500-400, 80 ,450:501,70000,x" =
  [mkRange 80 80; mkRange 400 501].
Proof. vm_compute. reflexivity. Qed.
Example ex_print : portRangesToNft [mkRange 80 80; mkRange 400 501] = "80, 400-501".
Proof. vm_compute. reflexivity. Qed.
Example ex_sub : subtractFirewallPortRanges [mkRange 1 100] [mkRange 20 30; mkRange 90 200] =
  [mkRange 1 19; mkRange 31 89].
Proof. vm_compute. reflexivity. Qed.
Example ex_hop : normalizeMihomoPortHopRange " 500:510,20-30,31 " = Ok "20-31,500-510".
Proof. vm_compute. reflexivity. Qed.

(** ** What a list of ranges denotes *)

Definition valid (r : portRange) : Prop :=
  1 <= start r /\ start r <= end_ r /\ end_ r <= 65535.

Definition covers (l : list portRange) (p : Z) : Prop :=
  exists r, r ∈ l /\ start r <= p <= end_ r.

(** [gapped lo l]: ascending, each range at least two past the previous end. *)
Fixpoint gapped (lo : Z) (l : list portRange) : Prop :=
  match l with
  | [] => True
  | r :: l' => lo < start r /\ start r <= end_ r /\ gapped (end_ r + 1) l'
  end.

Definition canonical (l : list portRange) : Prop :=
  gapped 0 l /\ Forall valid l.

Lemma covers_nil p : ~ covers [] p.
Proof. intros (r & Hr & _). by apply elem_of_nil in Hr. Qed.

Lemma covers_cons r l p : covers (r :: l) p <-> (start r <= p <= end_ r) \/ covers l p.
Proof.
  unfold covers. setoid_rewrite elem_of_cons. split.
  - intros (x & [->|Hx] & Hp); eauto.
  - intros [Hp|(x & Hx & Hp)]; eauto.
Qed.

Lemma covers_app l k p : covers (l ++ k) p <-> covers l p \/ covers k p.
Proof. unfold covers. setoid_rewrite elem_of_app. naive_solver. Qed.

Lemma covers_perm l k p : l ≡ₚ k -> covers l p <-> covers k p.
Proof. intros Hp. unfold covers. by setoid_rewrite Hp. Qed.

Lemma gapped_weaken lo lo' l : lo' <= lo -> gapped lo l -> gapped lo' l.
Proof. destruct l; simpl; [done|]. intros ? (? & ? & ?). repeat split; try done. lia. Qed.

Lemma gapped_covers_gt lo l p : gapped lo l -> covers l p -> lo < p.
Proof.
  revert lo. induction l as [|r l IH]; intros lo Hg Hc.
  - by apply covers_nil in Hc.
  - destruct Hg as (? & ? & Hg). apply covers_cons in Hc as [?|Hc]; [lia|].
    specialize (IH _ Hg Hc). lia.
Qed.

Lemma gapped_head_equiv lo a l b k :
  gapped lo (a :: l) -> gapped lo (b :: k) ->
  (forall p, covers (a :: l) p <-> covers (b :: k) p) -> a = b.
Proof.
  intros Ha Hb Heq.
  assert (Hle : forall x lx y ly, gapped lo (x :: lx) -> gapped lo (y :: ly) ->
            (forall p, covers (x :: lx) p -> covers (y :: ly) p) -> start y <= start x).
  { intros x lx y ly (?&?&?) (?&?&Hg) Hxy.
    specialize (Hxy (start x)). rewrite !covers_cons in Hxy.
    destruct Hxy as [?|Hc]; [left; lia|lia|].
    pose proof (gapped_covers_gt _ _ _ Hg Hc). lia. }
  assert (Hend : forall x lx y ly, gapped lo (x :: lx) -> gapped lo (y :: ly) ->
            start x = start y ->
            (forall p, covers (x :: lx) p -> covers (y :: ly) p) -> end_ x <= end_ y).
  { intros x lx y ly (?&?&?) (?&?&Hg) Hs Hxy.
    destruct (Z.le_gt_cases (end_ x) (end_ y)) as [?|Hgt]; [done|].
    specialize (Hxy (end_ y + 1)). rewrite !covers_cons in Hxy.
    destruct Hxy as [?|Hc]; [left; lia|lia|].
    pose proof (gapped_covers_gt _ _ _ Hg Hc). lia. }
  assert (start a = start b) as Hs.
  { apply Z.le_antisymm; [apply (Hle b k a l)|apply (Hle a l b k)]; naive_solver. }
  assert (end_ a = end_ b) as He.
  { apply Z.le_antisymm; [apply (Hend a l b k)|apply (Hend b k a l)]; naive_solver. }
  destruct a, b; simpl in *; congruence.
Qed.

Lemma gapped_unique lo l k :
  gapped lo l -> gapped lo k -> (forall p, covers l p <-> covers k p) -> l = k.
Proof.
  revert lo k. induction l as [|a l IH]; intros lo k Hl Hk Heq.
  - destruct k as [|b k]; [done|]. destruct Hk as (?&?&?).
    exfalso. apply (covers_nil (start b)), Heq, covers_cons. left; lia.
  - destruct k as [|b k].
    { destruct Hl as (?&?&?). exfalso.
      apply (covers_nil (start a)), Heq, covers_cons. left; lia. }
    assert (a = b) as <- by (by eapply gapped_head_equiv).
    destruct Hl as (Hlo&Hse&Hl), Hk as (_&_&Hk). f_equal.
    apply (IH (end_ a + 1)); [done..|]. intros p.
    specialize (Heq p). rewrite !covers_cons in Heq. split; intros Hc.
    + pose proof (gapped_covers_gt _ _ _ Hl Hc).
      destruct Heq as [Heq _]. destruct Heq; [by right|lia|done].
    + pose proof (gapped_covers_gt _ _ _ Hk Hc).
      destruct Heq as [_ Heq]. destruct Heq; [by right|lia|done].
Qed.

(** A set of ports has at most one canonical representation. *)
Lemma canonical_unique l k :
  canonical l -> canonical k -> (forall p, covers l p <-> covers k p) -> l = k.
Proof. intros [Hl _] [Hk _]. by apply gapped_unique with (lo := 0). Qed.

(** ** Merging *)

#[global] Instance range_le_trans : Transitive range_le.
Proof. intros a b c. unfold range_le. lia. Qed.
#[global] Instance range_le_total : Total range_le.
Proof. intros a b. unfold range_le. lia. Qed.

Lemma merge_loop_spec rest : forall last lo,
  valid last -> Forall valid rest ->
  Forall (fun r => start last <= start r) rest ->
  StronglySorted range_le rest -> lo < start last ->
  gapped lo (merge_loop last rest) /\ Forall valid (merge_loop last rest) /\
  forall p, covers (merge_loop last rest) p <-> covers (last :: rest) p.
Proof.
  induction rest as [|cur rest IH]; intros last lo Hv Hvs Hstart Hsort Hlo; simpl.
  - split; [|split; [by apply Forall_singleton|done]].
    split; [done|]. split; [apply Hv|done].
  - inversion_clear Hvs as [|?? Hc Hvs']. inversion_clear Hstart as [|?? Hsc Hstart'].
    apply StronglySorted_inv in Hsort as [Hsort Hall].
    assert (Hcur : Forall (fun r => start cur <= start r) rest).
    { eapply Forall_impl; [exact Hall|]. intros x. unfold range_le. lia. }
    unfold valid in Hv, Hc. i64.
    destruct (Z.leb_spec (start cur) (end_ last + 1)).
    + destruct (Z.ltb_spec (end_ last) (end_ cur)).
      * destruct (IH (mkRange (start last) (end_ cur)) lo) as (Hg & Hf & Hcov);
          [unfold valid; simpl; lia|done|done|done|done|].
        split; [done|]. split; [done|]. intros p. rewrite Hcov, !covers_cons. simpl.
        intuition lia.
      * destruct (IH last lo) as (Hg & Hf & Hcov); [unfold valid; lia|done|done|done|done|].
        split; [done|]. split; [done|]. intros p. rewrite Hcov, !covers_cons. intuition lia.
    + destruct (IH cur (end_ last + 1)) as (Hg & Hf & Hcov);
        [unfold valid; lia|done|done|done|lia|].
      split; [simpl; split; [done|]; split; [lia|done]|].
      split; [by constructor; [unfold valid|]|].
      intros p. rewrite covers_cons, Hcov, !covers_cons. done.
Qed.

Lemma mergePortRanges_spec l :
  Forall valid l ->
  canonical (mergePortRanges l) /\ forall p, covers (mergePortRanges l) p <-> covers l p.
Proof.
  intros Hv. unfold mergePortRanges.
  pose proof (merge_sort_Permutation range_le l) as Hperm.
  pose proof (StronglySorted_merge_sort range_le l) as Hsort.
  assert (Forall valid (merge_sort range_le l)) as Hv' by (by rewrite Hperm).
  destruct (merge_sort range_le l) as [|r rest] eqn:E.
  - split; [by split; [|constructor]|]. intros p. by apply covers_perm.
  - inversion_clear Hv' as [|?? Hr Hrest].
    apply StronglySorted_inv in Hsort as [Hsort Hall].
    destruct (merge_loop_spec rest r 0) as (Hg & Hf & Hcov); [done|done| |done| |].
    + eapply Forall_impl; [exact Hall|]. intros x. unfold range_le. lia.
    + unfold valid in Hr. lia.
    + split; [by split|]. intros p. rewrite Hcov. by apply covers_perm.
Qed.

Lemma mergePortSpans_eq l : mergePortSpans l = mergePortRanges l.
Proof. reflexivity. Qed.

Lemma mergePortRanges_canonical l : canonical l -> mergePortRanges l = l.
Proof.
  intros Hc. destruct (mergePortRanges_spec l) as [Hm Hcov]; [apply Hc|].
  by apply canonical_unique.
Qed.
#[export] Hint Resolve mergePortRanges_canonical : kwor.

Lemma clipPortRange_valid r r' : clipPortRange r = Some r' -> valid r'.
Proof.
  unfold clipPortRange, valid. destruct r as [s e]; simpl. intros H.
  zcases; simplify_eq; simpl; lia.
Qed.

Lemma clipPortRange_covers r p :
  (exists r', clipPortRange r = Some r' /\ start r' <= p <= end_ r') <->
  1 <= p <= 65535 /\ Z.min (start r) (end_ r) <= p <= Z.max (start r) (end_ r).
Proof.
  unfold clipPortRange. destruct r as [s e]; simpl.
  split.
  - intros (r' & H & Hp). zcases; simplify_eq; simpl in *; lia.
  - intros [Hp Hm]. zcases; first [lia | eexists; split; [reflexivity|simpl; lia]].
Qed.

Lemma normalizeNftPortRanges_spec l :
  canonical (normalizeNftPortRanges l) /\
  forall p, covers (normalizeNftPortRanges l) p <->
    1 <= p <= 65535 /\
    exists r, r ∈ l /\ Z.min (start r) (end_ r) <= p <= Z.max (start r) (end_ r).
Proof.
  unfold normalizeNftPortRanges.
  destruct (mergePortRanges_spec (omap clipPortRange l)) as [Hc Hcov].
  { apply Forall_forall. intros r' (r & _ & Hr)%list_elem_of_omap.
    by eapply clipPortRange_valid. }
  split; [done|]. intros p. rewrite Hcov. unfold covers.
  setoid_rewrite list_elem_of_omap. split.
  - intros (r' & (r & Hin & Hr) & Hp).
    destruct (proj1 (clipPortRange_covers r p)) as [? ?]; [eauto|]. eauto.
  - intros (Hp & r & Hin & Hm).
    destruct (proj2 (clipPortRange_covers r p)) as (r' & ? & ?); [done|]. eauto.
Qed.

Lemma portInRanges_spec p l : portInRanges p l = true <-> covers l p.
Proof.
  induction l as [|r l IH]; simpl.
  - split; [done|]. by intros ?%covers_nil.
  - rewrite covers_cons, <- IH. zcases; simpl; intuition (try lia; try done).
Qed.

Lemma covers_bind (f : portRange -> list portRange) l p :
  covers (l ≫= f) p <-> exists r, r ∈ l /\ covers (f r) p.
Proof. unfold covers. setoid_rewrite list_elem_of_bind. naive_solver. Qed.

(** ** Subtraction *)

Lemma subtractOne_spec b c :
  valid b -> valid c ->
  Forall valid (subtractOne b c) /\
  forall p, covers (subtractOne b c) p <->
    start c <= p <= end_ c /\ ~ (start b <= p <= end_ b).
Proof.
  unfold valid, subtractOne. intros Hb Hc. i64. split.
  - zcases; repeat constructor; unfold valid; simpl; lia.
  - intros p. zcases; rewrite ?covers_cons; simpl;
      (split; [intros Hx | intros Hx]); rewrite ?covers_cons in *; simpl in *;
      repeat match goal with
      | H : _ \/ covers [] _ |- _ => destruct H as [H|H]
      | H : covers [] _ |- _ => by apply covers_nil in H
      | H : _ \/ _ |- _ => destruct H as [H|H]
      end; try lia.
Qed.

Lemma subtractStep_spec b l :
  valid b -> Forall valid l ->
  Forall valid (l ≫= subtractOne b) /\
  forall p, covers (l ≫= subtractOne b) p <->
    covers l p /\ ~ (start b <= p <= end_ b).
Proof.
  intros Hb Hl. rewrite Forall_forall in Hl. split.
  - apply Forall_forall. intros r (c & Hr & Hc)%list_elem_of_bind.
    destruct (subtractOne_spec b c Hb (Hl _ Hc)) as [Hf _].
    rewrite Forall_forall in Hf. auto.
  - intros p. rewrite covers_bind. split.
    + intros (c & Hc & Hp). apply (subtractOne_spec b c Hb (Hl _ Hc)) in Hp as [? ?].
      split; [|done]. by exists c.
    + intros [(c & Hc & Hp) Hn]. exists c. split; [done|].
      by apply (subtractOne_spec b c Hb (Hl _ Hc)).
Qed.

Lemma subtractLoop_spec ex : forall l,
  Forall valid l -> Forall valid ex ->
  canonical (subtractLoop l ex) /\
  forall p, covers (subtractLoop l ex) p <-> covers l p /\ ~ covers ex p.
Proof.
  induction ex as [|b ex IH]; intros l Hl Hex; simpl.
  - destruct (mergePortRanges_spec l Hl) as [Hc Hcov]. split; [done|].
    intros p. rewrite Hcov. pose proof (covers_nil p). tauto.
  - inversion_clear Hex as [|?? Hb Hex'].
    destruct (subtractStep_spec b l Hb Hl) as [Hv Hcov].
    assert (Hgoal : forall next, next = l ≫= subtractOne b ->
      canonical (subtractLoop next ex) /\
      forall p, covers (subtractLoop next ex) p <-> covers l p /\ ~ covers (b :: ex) p).
    { intros next ->. destruct (IH _ Hv Hex') as [Hc Hcov']. split; [done|].
      intros p. rewrite Hcov', Hcov, covers_cons. tauto. }
    destruct (l ≫= subtractOne b) as [|n ns] eqn:E; [|by apply Hgoal].
    split; [by split; [|constructor]|]. intros p.
    specialize (Hcov p). rewrite covers_cons. pose proof (covers_nil p). tauto.
Qed.

(** ** The ports of a list of ranges, one by one *)

Definition expand (l : list portRange) : list Z :=
  l ≫= fun r => zrange (start r) (end_ r).

Lemma elem_of_expand p l : p ∈ expand l <-> covers l p.
Proof.
  unfold expand, covers. rewrite list_elem_of_bind.
  setoid_rewrite elem_of_zrange. naive_solver.
Qed.

Lemma NoDup_zrange a b : NoDup (zrange a b).
Proof. apply NoDup_seqZ. Qed.

Lemma NoDup_expand lo l : gapped lo l -> NoDup (expand l).
Proof.
  revert lo. induction l as [|r l IH]; intros lo Hg; [constructor|].
  destruct Hg as (?&?&Hg). cbn. apply NoDup_app. repeat split.
  - apply NoDup_zrange.
  - intros p Hp%elem_of_zrange Hc%elem_of_expand.
    pose proof (gapped_covers_gt _ _ _ Hg Hc). lia.
  - by eapply IH.
Qed.

Lemma length_expand_bound lo l :
  0 <= lo <= 65535 -> gapped lo l -> Forall valid l ->
  Z.of_nat (length (expand l)) <= 65535 - lo.
Proof.
  revert lo. induction l as [|r l IH]; intros lo Hlo Hg Hv; [simpl; lia|].
  destruct Hg as (?&?&Hg). inversion_clear Hv as [|?? (?&?&?) Hv'].
  cbn. rewrite length_app, Nat2Z.inj_add, length_zrange.
  destruct (decide (end_ r = 65535)) as [He|He].
  - destruct l as [|r' l]; [cbn; lia|]. destruct Hg as (?&?&?).
    inversion_clear Hv' as [|?? (?&?&?)]. lia.
  - specialize (IH (end_ r + 1) ltac:(lia) Hg Hv'). unfold expand in IH. lia.
Qed.

Lemma countPorts_acc l : forall acc,
  0 <= acc -> acc + Z.of_nat (length (expand l)) <= max_i64 -> Forall valid l ->
  foldl (fun total r => total +! (end_ r -! start r +! 1)) acc l =
  acc + Z.of_nat (length (expand l)).
Proof.
  induction l as [|r l IH]; intros acc Ha Hb Hv; [cbn; lia|].
  inversion_clear Hv as [|?? (?&?&?) Hv'].
  cbn in *. rewrite length_app, Nat2Z.inj_add, length_zrange in *.
  i64. unfold expand in IH. rewrite IH by (done || lia). lia.
Qed.

(** [countPorts] is the number of distinct ports, without overflow. *)
Lemma countPorts_canonical l :
  canonical l -> countPorts l = Z.of_nat (length (expand l)).
Proof.
  intros [Hg Hv]. unfold countPorts.
  pose proof (length_expand_bound 0 l ltac:(lia) Hg Hv).
  rewrite countPorts_acc; [lia|lia|unfold max_i64; lia|done].
Qed.

(** ** Port lists *)

Lemma elem_of_dedupPorts p ports : forall seen,
  p ∈ dedupPorts seen ports <-> p ∈ ports /\ 1 <= p <= 65535 /\ p ∉ seen.
Proof.
  induction ports as [|q ports IH]; intros seen; simpl.
  - split; [by intros ?%elem_of_nil|]. intros [[]%elem_of_nil _].
  - rewrite elem_of_cons. destruct (Z.ltb_spec q 1), (Z.ltb_spec 65535 q); simpl;
      try (rewrite IH; intuition (subst; lia || done)).
    destruct (decide (q ∈ seen)) as [Hs|Hs].
    + rewrite IH. intuition (subst; lia || done).
    + rewrite elem_of_cons, IH, elem_of_union, elem_of_singleton.
      destruct (decide (p = q)) as [->|]; intuition (subst; lia || done).
Qed.

Lemma NoDup_dedupPorts ports : forall seen, NoDup (dedupPorts seen ports).
Proof.
  induction ports as [|q ports IH]; intros seen; simpl; [constructor|].
  destruct (_ || _); [done|]. destruct (decide (q ∈ seen)); [done|].
  constructor; [|done]. rewrite elem_of_dedupPorts. set_solver.
Qed.

Lemma normalizePortList_spec ports :
  StronglySorted Z.le (normalizePortList ports) /\
  NoDup (normalizePortList ports) /\
  forall p, p ∈ normalizePortList ports <-> p ∈ ports /\ 1 <= p <= 65535.
Proof.
  unfold normalizePortList.
  pose proof (merge_sort_Permutation Z.le (dedupPorts ∅ ports)) as Hp.
  split; [apply StronglySorted_merge_sort; apply _|].
  split; [rewrite Hp; apply NoDup_dedupPorts|].
  intros p. rewrite Hp, elem_of_dedupPorts. set_solver.
Qed.

Lemma singletons_spec ports :
  (forall p, p ∈ ports -> 1 <= p <= 65535) ->
  Forall valid ((fun p => mkRange p p) <$> ports) /\
  forall p, covers ((fun p => mkRange p p) <$> ports) p <-> p ∈ ports.
Proof.
  intros H. split.
  - apply Forall_fmap, Forall_forall. intros p Hp. unfold valid; simpl.
    specialize (H p Hp). lia.
  - intros p. unfold covers. setoid_rewrite list_elem_of_fmap. split.
    + intros (r & (q & -> & Hq) & Hr). simpl in Hr. by replace p with q by lia.
    + intros Hp. exists (mkRange p p). simpl. split; [by exists p|lia].
Qed.

Lemma intsToPortRanges_spec ports :
  canonical (intsToPortRanges ports) /\
  forall p, covers (intsToPortRanges ports) p <-> p ∈ ports /\ 1 <= p <= 65535.
Proof.
  destruct (normalizePortList_spec ports) as (_ & _ & Hin).
  destruct (singletons_spec (normalizePortList ports)) as [Hv Hc].
  { intros p Hp%Hin. apply Hp. }
  unfold intsToPortRanges. destruct (mergePortRanges_spec _ Hv) as [Hcan Hcov].
  split; [done|]. intros p. by rewrite Hcov, Hc, Hin.
Qed.

(** ** Excluding single ports *)

Definition hits (excluded : gset Z) (ps : list Z) : list Z :=
  filter (fun p => p ∈ excluded) ps.

(** The open run [cur, p) that the scan carries between two ports. *)
Definition run (cur p : Z) (q : Z) : Prop := cur <> -1 /\ cur <= q < p.

Lemma sample_step (s h : list Z) p :
  (length s <= 5)%nat ->
  take 5 ((if (length s <? 5)%nat then s ++ [p] else s) ++ h) = take 5 (s ++ p :: h) /\
  (length (if (length s <? 5)%nat then s ++ [p] else s) <= 5)%nat.
Proof.
  intros Hs. destruct (Nat.ltb_spec (length s) 5) as [Hlt|Hge].
  - rewrite length_app. simpl. split; [by rewrite <- app_assoc|lia].
  - assert (length s = 5%nat) as Hl by lia.
    split; [|lia]. rewrite <- Hl, !take_app_length. done.
Qed.

(** The state before scanning the ports from [p] on. *)
Record scan_pre (p cur : Z) (st : excludeState) : Prop := {
  sp_cur : cur <> -1 -> 1 <= cur < p;
  sp_valid : Forall valid (allowed st);
  sp_sample : (length (sample st) <= 5)%nat;
  sp_skipped : 0 <= skipped st <= max_i64 - 65536 + p }.

(** What scanning the ports [p..e] adds to the accumulated state. *)
Record scan_post (ex : gset Z) (p e cur : Z) (st : excludeState)
    (out : Z * excludeState) : Prop := {
  so_valid : Forall valid (allowed out.2);
  so_len : (length (sample out.2) <= 5)%nat;
  so_cur : out.1 <> -1 -> 1 <= out.1 <= Z.max e (p - 1);
  so_skipped : skipped out.2 = skipped st + Z.of_nat (length (hits ex (zrange p e)));
  so_sample : sample out.2 = take 5 (sample st ++ hits ex (zrange p e));
  so_covers : forall q, covers (allowed out.2) q \/ run out.1 (Z.max (e + 1) p) q <->
    covers (allowed st) q \/ run cur p q \/ (p <= q <= e /\ q ∉ ex) }.

Lemma scan_nil ex p e cur st :
  e < p -> 1 <= p -> scan_pre p cur st -> scan_post ex p e cur st (cur, st).
Proof.
  intros He Hp []. constructor; cbn; try done; rewrite ?zrange_nil by done; cbn; try lia.
  - by rewrite app_nil_r, take_ge by lia.
  - intros q. replace (Z.max (e + 1) p) with p by lia. intuition lia.
Qed.

(** The state after a blocked port closes the open run. *)
Lemma scan_close p cur st smp :
  1 <= p <= 65535 -> scan_pre p cur st -> (length smp <= 5)%nat ->
  let alw := if cur =? -1 then allowed st else allowed st ++ [mkRange cur (p -! 1)] in
  let st1 := mkExclude alw (skipped st +! 1) smp in
  scan_pre (p + 1) (-1) st1 /\ skipped st1 = skipped st + 1 /\
  forall q, covers (allowed st1) q <-> covers (allowed st) q \/ run cur p q.
Proof.
  intros Hp [] Hs. cbn. i64. split; [constructor; cbn; try lia; try done|split; [done|]].
  - destruct (Z.eqb_spec cur (-1)); [done|]. i64.
    apply Forall_app. split; [done|]. apply Forall_singleton. unfold valid; cbn. lia.
  - intros q. unfold run. destruct (Z.eqb_spec cur (-1)); [tauto|]. i64.
    rewrite covers_app, covers_cons. cbn. pose proof (covers_nil q).
    split; [intros [?|[?|?]]; [tauto|right; lia|done]|intros [?|[? ?]]; [tauto|right; left; lia]].
Qed.

Lemma scan_hit ex p e cur st st1 out :
  p <= e -> p ∈ ex -> (length (sample st) <= 5)%nat ->
  sample st1 = (if (length (sample st) <? 5)%nat then sample st ++ [p] else sample st) ->
  skipped st1 = skipped st + 1 ->
  (forall q, covers (allowed st1) q <-> covers (allowed st) q \/ run cur p q) ->
  scan_post ex (p + 1) e (-1) st1 out -> scan_post ex p e cur st out.
Proof.
  intros Hpe Hin Hlen Hsmp Hsk Hcov [].
  pose proof (sample_step (sample st) (hits ex (zrange (p + 1) e)) p Hlen) as [Htake _].
  assert (hits ex (zrange p e) = p :: hits ex (zrange (p + 1) e)) as Hh.
  { rewrite zrange_cons by done. unfold hits. by rewrite filter_cons, decide_True. }
  constructor; rewrite ?Hh; try done; try lia.
  - cbn. lia.
  - rewrite so_sample0, Hsmp. apply Htake.
  - intros q. specialize (so_covers0 q). rewrite Hcov in so_covers0.
    rewrite Z.max_l in * by lia.
    assert (~ run (-1) (p + 1) q) by (unfold run; lia).
    assert (p <= q <= e /\ q ∉ ex <-> p + 1 <= q <= e /\ q ∉ ex) as ->.
    { destruct (decide (q = p)) as [->|]; [tauto|]. intuition lia. }
    tauto.
Qed.

Lemma scan_miss ex p e cur st out :
  1 <= p -> p <= e -> p ∉ ex -> (cur <> -1 -> 1 <= cur < p) ->
  scan_post ex (p + 1) e (if cur =? -1 then p else cur) st out ->
  scan_post ex p e cur st out.
Proof.
  intros Hp Hpe Hout Hcur [].
  assert (hits ex (zrange p e) = hits ex (zrange (p + 1) e)) as Hh.
  { rewrite zrange_cons by done. unfold hits. by rewrite filter_cons, decide_False. }
  constructor; rewrite ?Hh; try done; try lia.
  intros q. specialize (so_covers0 q). rewrite Z.max_l in * by lia.
  assert (run (if cur =? -1 then p else cur) (p + 1) q <-> run cur p q \/ q = p) as Hrun.
  { unfold run. destruct (Z.eqb_spec cur (-1)); split; intros; lia. }
  rewrite Hrun in so_covers0. rewrite so_covers0.
  assert (p <= q <= e /\ q ∉ ex <-> q = p \/ (p + 1 <= q <= e /\ q ∉ ex)) as ->.
  { clear -Hp Hpe Hout. destruct (decide (q = p)) as [->|].
    - split; [by left|]. intros _. split; [lia|done].
    - split; [|intros [?|[? ?]]; [done|]; split; [lia|done]].
      intros [? ?]. right. split; [lia|done]. }
  clear. tauto.
Qed.

Lemma excludeScan_spec ex e : forall n p cur st,
  n = length (zrange p e) -> 1 <= p -> e <= 65535 -> scan_pre p cur st ->
  scan_post ex p e cur st (excludeScan ex (zrange p e) cur st).
Proof.
  induction n as [|n IH]; intros p cur st Hn Hp He Hpre; pose proof (length_zrange p e).
  - rewrite zrange_nil by lia. by apply scan_nil; [lia|..].
  - assert (p <= e) as Hpe by lia. rewrite (zrange_cons p e Hpe) in *.
    cbn [excludeScan length] in *. destruct (decide (p ∈ ex)).
    + destruct (sample_step (sample st) [] p (sp_sample _ _ _ Hpre)) as [_ Hlen].
      destruct (scan_close p cur st _ ltac:(lia) Hpre Hlen) as (Hpre1 & Hsk & Hcov).
      eapply scan_hit; [done|done|apply Hpre| |exact Hsk|exact Hcov|]; [reflexivity|].
      apply IH; [lia|lia|done|done].
    + apply scan_miss; [done|done|done|apply Hpre|].
      apply IH; [lia|lia|done|]. destruct Hpre.
      constructor; try done; try lia. destruct (Z.eqb_spec cur (-1)); lia.
Qed.

Lemma excludeRange_spec ex st r :
  valid r -> Forall valid (allowed st) -> (length (sample st) <= 5)%nat ->
  0 <= skipped st <= max_i64 - 65536 ->
  let st' := excludeRange ex st r in
  Forall valid (allowed st') /\ (length (sample st') <= 5)%nat /\
  skipped st' = skipped st + Z.of_nat (length (hits ex (zrange (start r) (end_ r)))) /\
  sample st' = take 5 (sample st ++ hits ex (zrange (start r) (end_ r))) /\
  forall q, covers (allowed st') q <->
    covers (allowed st) q \/ (start r <= q <= end_ r /\ q ∉ ex).
Proof.
  intros (?&?&?) Hal Hsm Hsk. unfold excludeRange.
  assert (scan_pre (start r) (-1) st) as Hpre by (constructor; try done; lia).
  pose proof (excludeScan_spec ex (end_ r) _ (start r) (-1) st eq_refl
    ltac:(lia) ltac:(lia) Hpre) as Hscan.
  destruct (excludeScan ex (zrange (start r) (end_ r)) (-1) st) as [cur st'].
  destruct Hscan as [Hv Hs5 Hcur Hskp Hsmp Hcov]. cbn in *.
  rewrite (Z.max_l (end_ r + 1) (start r)) in Hcov by lia. unfold run in Hcov.
  destruct (Z.eqb_spec cur (-1)); cbn.
  - repeat split; try done; specialize (Hcov q); intuition lia.
  - repeat split; try done.
    + apply Forall_app. split; [done|]. apply Forall_singleton. unfold valid; cbn. lia.
    + rewrite covers_app, covers_cons. cbn. intros Hq.
      destruct (proj1 (Hcov q)) as [?|[?|?]]; [|tauto|lia|tauto].
      destruct Hq as [?|[?|?%covers_nil]]; [tauto| |done]. right. split; [done|lia].
    + rewrite covers_app, covers_cons. cbn. intros Hq.
      destruct (proj2 (Hcov q)) as [?|?]; [tauto|tauto|]. right. left. lia.
Qed.

Lemma expand_cons r l : expand (r :: l) = zrange (start r) (end_ r) ++ expand l.
Proof. reflexivity. Qed.

Lemma hits_app ex ps qs : hits ex (ps ++ qs) = hits ex ps ++ hits ex qs.
Proof. apply filter_app. Qed.

Lemma hits_zrange_bound ex a b :
  a <= b -> Z.of_nat (length (hits ex (zrange a b))) <= b - a + 1.
Proof.
  intros. pose proof (length_zrange a b).
  pose proof (length_filter (fun p => p ∈ ex) (zrange a b)). unfold hits. lia.
Qed.

Lemma excludeFold_spec ex l : forall st lo,
  0 <= lo <= 65536 -> gapped lo l -> Forall valid l -> Forall valid (allowed st) ->
  (length (sample st) <= 5)%nat -> 0 <= skipped st <= lo ->
  let st' := foldl (excludeRange ex) st l in
  Forall valid (allowed st') /\
  skipped st' = skipped st + Z.of_nat (length (hits ex (expand l))) /\
  sample st' = take 5 (sample st ++ hits ex (expand l)) /\
  forall q, covers (allowed st') q <-> covers (allowed st) q \/ (covers l q /\ q ∉ ex).
Proof.
  induction l as [|r l IH]; intros st lo Hlo Hg Hv Hal Hsm Hsk; cbn [foldl].
  - cbn. repeat split; try done; try lia; [by rewrite app_nil_r, take_ge by lia|tauto|].
    intros [?|[?%covers_nil _]]; done.
  - destruct Hg as (?&?&Hg). inversion_clear Hv as [|?? Hr Hv'].
    destruct (excludeRange_spec ex st r Hr Hal Hsm) as (Ha & Hs & Hk & Hsmp & Hcov).
    { unfold max_i64. lia. }
    pose proof (hits_zrange_bound ex (start r) (end_ r) ltac:(lia)).
    destruct Hr as (?&?&?).
    destruct (IH (excludeRange ex st r) (end_ r + 1)) as (HA & HK & HS & HC); try done; try lia.
    rewrite expand_cons, hits_app, length_app.
    split; [done|]. split; [lia|]. split.
    + rewrite HS, Hsmp. by rewrite take_take_app, <- app_assoc.
    + intros q. rewrite HC, Hcov, covers_cons. tauto.
Qed.

(** ** Overlap of two span lists *)

(** The shared ports, in the order the double loop meets them. *)
Definition sharedOf (l r : portRange) : list Z :=
  zrange (Z.max (start l) (start r)) (Z.min (end_ l) (end_ r)).

Definition shared (a b : list portRange) : list Z := a ≫= fun l => b ≫= sharedOf l.

Lemma elem_of_shared a b p : p ∈ shared a b <-> covers a p /\ covers b p.
Proof.
  unfold shared, covers, sharedOf. rewrite list_elem_of_bind.
  setoid_rewrite list_elem_of_bind. setoid_rewrite elem_of_zrange. split.
  - intros (l & (r & Hp & Hr) & Hl). split; [exists l|exists r]; (split; [done|lia]).
  - intros [(l & Hl & Hp) (r & Hr & Hp')]. exists l. split; [|done]. exists r. split; [lia|done].
Qed.

Lemma NoDup_sharedOf lo l b : gapped lo b -> NoDup (b ≫= sharedOf l).
Proof.
  revert lo. induction b as [|r b IH]; intros lo Hg; cbn; [constructor|].
  destruct Hg as (?&?&Hg). apply NoDup_app. repeat split.
  - apply NoDup_zrange.
  - intros p Hp%elem_of_zrange (r' & Hp' & Hr')%list_elem_of_bind.
    unfold sharedOf in Hp'. rewrite elem_of_zrange in Hp'.
    assert (end_ r + 1 < p); [|lia].
    eapply gapped_covers_gt; [exact Hg|]. exists r'. split; [done|lia].
  - by eapply IH.
Qed.

Lemma NoDup_shared lo lo' a b : gapped lo a -> gapped lo' b -> NoDup (shared a b).
Proof.
  revert lo. induction a as [|l a IH]; intros lo Ha Hb; cbn; [constructor|].
  destruct Ha as (?&?&Ha). apply NoDup_app. repeat split.
  - by eapply NoDup_sharedOf.
  - intros p (r & Hp & Hr)%list_elem_of_bind Hq.
    unfold sharedOf in Hp. rewrite elem_of_zrange in Hp.
    apply elem_of_shared in Hq as [Hq _]. pose proof (gapped_covers_gt _ _ _ Ha Hq). lia.
  - by eapply IH.
Qed.

Lemma length_shared_bound a b : canonical a -> canonical b ->
  Z.of_nat (length (shared a b)) <= 65535.
Proof.
  intros [Ha Hva] [Hb _].
  assert (shared a b ⊆+ zrange 1 65535) as Hsub.
  { apply NoDup_submseteq; [by eapply NoDup_shared|].
    intros p [(r & Hr & Hp) _]%elem_of_shared. rewrite Forall_forall in Hva.
    specialize (Hva r Hr) as (?&?&?). apply elem_of_zrange. lia. }
  apply submseteq_length in Hsub. pose proof (length_zrange 1 65535). lia.
Qed.

Lemma sampleLoop_spec ps : forall smp,
  (length smp <= 12)%nat -> sampleLoop smp ps = take 12 (smp ++ ps).
Proof.
  induction ps as [|p ps IH]; intros smp Hs; simpl.
  - by rewrite app_nil_r, take_ge.
  - destruct (Nat.ltb_spec (length smp) 12).
    + rewrite IH by (rewrite length_app; simpl; lia). by rewrite <- app_assoc.
    + by rewrite take_app_le, take_ge by lia.
Qed.

Lemma overlapPair_spec l r acc :
  valid l -> valid r -> (length (ov_sample acc) <= 12)%nat ->
  0 <= ov_count acc <= max_i64 - 65535 ->
  overlapPair l r acc =
  mkOverlap (ov_count acc + Z.of_nat (length (sharedOf l r)))
            (take 12 (ov_sample acc ++ sharedOf l r)).
Proof.
  intros (?&?&?) (?&?&?) Hs Hc. unfold overlapPair, sharedOf.
  replace (if start l <? start r then start r else start l) with (Z.max (start l) (start r))
    by (zcases; lia).
  replace (if end_ r <? end_ l then end_ r else end_ l) with (Z.min (end_ l) (end_ r))
    by (zcases; lia).
  pose proof (length_zrange (Z.max (start l) (start r)) (Z.min (end_ l) (end_ r))).
  destruct (Z.ltb_spec (Z.min (end_ l) (end_ r)) (Z.max (start l) (start r))).
  - rewrite zrange_nil by done. destruct acc; cbn in *.
    rewrite app_nil_r, take_ge by done. f_equal. lia.
  - rewrite sampleLoop_spec by done. i64. f_equal. lia.
Qed.

Lemma overlapRow_spec l b : forall acc,
  valid l -> Forall valid b -> (length (ov_sample acc) <= 12)%nat ->
  0 <= ov_count acc ->
  ov_count acc + Z.of_nat (length (b ≫= sharedOf l)) <= max_i64 - 65535 ->
  foldl (fun acc r => overlapPair l r acc) acc b =
  mkOverlap (ov_count acc + Z.of_nat (length (b ≫= sharedOf l)))
            (take 12 (ov_sample acc ++ (b ≫= sharedOf l))).
Proof.
  induction b as [|r b IH]; intros acc Hl Hb Hs Hc Hm; cbn [foldl].
  - destruct acc; cbn in *. rewrite app_nil_r, take_ge by done. f_equal. lia.
  - inversion_clear Hb as [|?? Hr Hb'].
    cbn in Hm |- *. rewrite length_app in *.
    rewrite overlapPair_spec by (done || lia).
    rewrite IH; cbn; try done; try lia.
    + rewrite take_take_app, <- app_assoc. f_equal. lia.
    + rewrite length_take. lia.
Qed.

Lemma overlapRows_spec a b : forall acc,
  Forall valid a -> Forall valid b -> (length (ov_sample acc) <= 12)%nat ->
  0 <= ov_count acc ->
  ov_count acc + Z.of_nat (length (shared a b)) <= max_i64 - 65535 ->
  foldl (fun acc l => foldl (fun acc r => overlapPair l r acc) acc b) acc a =
  mkOverlap (ov_count acc + Z.of_nat (length (shared a b)))
            (take 12 (ov_sample acc ++ shared a b)).
Proof.
  induction a as [|l a IH]; intros acc Ha Hb Hs Hc Hm; cbn [foldl].
  - destruct acc; cbn in *. rewrite app_nil_r, take_ge by done. f_equal. lia.
  - inversion_clear Ha as [|?? Hl Ha']. unfold shared in *.
    cbn in Hm |- *. rewrite length_app in *.
    rewrite overlapRow_spec by (done || lia).
    rewrite IH; cbn; try done; try lia.
    + rewrite take_take_app, <- app_assoc. f_equal. lia.
    + rewrite length_take. lia.
Qed.

(** ** Printing and parsing back *)

(** The two separators the printers use. *)
Definition is_sep (c : ascii) : Prop := c = "-"%char \/ c = ":"%char.

Definition sepS (c : ascii) : string := String c EmptyString.

Lemma formatRange_cases c r :
  formatRange (sepS c) r = itoa (start r) /\ start r = end_ r \/
  formatRange (sepS c) r = itoa (start r) +:+ String c (itoa (end_ r)) /\ start r <> end_ r.
Proof.
  unfold formatRange, sepS. destruct (Z.eqb_spec (start r) (end_ r)); [by left|by right].
Qed.

Lemma itoa_class (P : ascii -> bool) z :
  0 <= z -> (forall c, is_digit c = true -> P c = true) -> allc P (itoa z) = true.
Proof. intros Hz HP. eapply allc_impl; [exact HP|]. by apply itoa_all_digits. Qed.

Lemma itoa_lacks c z : 0 <= z -> is_digit c = false -> containsByte c (itoa z) = false.
Proof. intros Hz Hc. eapply allc_not_contains; [exact Hc|]. by apply itoa_all_digits. Qed.

Lemma formatRange_class (P : ascii -> bool) c r :
  valid r -> P c = true -> (forall c, is_digit c = true -> P c = true) ->
  allc P (formatRange (sepS c) r) = true.
Proof.
  intros (?&?&?) Hc HP.
  destruct (formatRange_cases c r) as [[-> _]|[-> _]]; [by apply itoa_class; [lia|]|].
  rewrite allc_app. simpl. rewrite Hc, !itoa_class by (done || lia). done.
Qed.

Lemma formatRange_plain c r : is_sep c -> valid r -> allc plain (formatRange (sepS c) r) = true.
Proof. intros [-> | ->] Hv; (apply formatRange_class; [done|done|apply digit_plain]). Qed.

Lemma formatRange_lacks x c r :
  is_sep c -> valid r -> is_digit x = false -> x <> c ->
  containsByte x (formatRange (sepS c) r) = false.
Proof.
  intros Hc (?&?&?) Hx Hne.
  destruct (formatRange_cases c r) as [[-> _]|[-> _]]; [by apply itoa_lacks; [lia|]|].
  rewrite containsByte_app. simpl. rewrite !itoa_lacks by (done || lia).
  destruct (Ascii.eqb_spec c x); [congruence|done].
Qed.

Lemma formatRange_nonempty c r : valid r -> formatRange (sepS c) r <> "".
Proof.
  intros (?&?&?). destruct (itoa_cons (start r)) as (x & s & Hx & _); [lia|].
  destruct (formatRange_cases c r) as [[-> _]|[-> _]]; rewrite Hx; done.
Qed.

Lemma atoi_port z : 0 <= z <= 65535 -> atoi (itoa z) = Some z.
Proof. intros. apply atoi_itoa. unfold max_i64. lia. Qed.

(** The lenient parser reads back one printed range. *)
Lemma parsePortPart_trimmed c r s :
  is_sep c -> valid r -> trim_space s = formatRange (sepS c) r -> parsePortPart s = Some r.
Proof.
  intros Hc Hv Ht. unfold parsePortPart. rewrite Ht.
  rewrite decide_False by (by apply formatRange_nonempty).
  rewrite (replace_byte "-" ":"). destruct Hv as (?&?&?).
  destruct (formatRange_cases c r) as [[-> Heq]|[-> Hne]].
  - rewrite mapc_none by (apply itoa_lacks; [lia|done]).
    rewrite split_first_none by (apply itoa_lacks; [lia|done]).
    rewrite atoi_port by lia. destruct r as [a b]; simpl in *. subst b.
    zcases; try lia. done.
  - rewrite mapc_app. cbn [mapc].
    assert ((if Ascii.eqb "-" c then ":" else c)%char = ":"%char) as ->
      by (destruct Hc as [-> | ->]; done).
    rewrite !mapc_none by (apply itoa_lacks; [lia|done]).
    rewrite split_first_app by (apply itoa_lacks; [lia|done]).
    rewrite !atoi_port by lia. destruct r as [a b]; simpl in *.
    zcases; try lia. done.
Qed.

(** The strict parser reads back one printed span. *)
Lemma parseStrictSegment_format c r :
  is_sep c -> valid r -> parseStrictSegment (formatRange (sepS c) r) = Ok r.
Proof.
  intros Hc Hv. unfold parseStrictSegment.
  rewrite trim_space_plain by (by apply formatRange_plain).
  rewrite decide_False by (by apply formatRange_nonempty).
  assert (Hblank : containsByte " " (formatRange (sepS c) r) = false).
  { apply formatRange_lacks; [done..|]. by destruct Hc as [-> | ->]. }
  rewrite (replace_none " " "" "" _ Hblank).
  destruct Hv as (?&?&?). unfold validPort.
  destruct (formatRange_cases c r) as [[-> Heq]|[-> Hne]].
  - rewrite !itoa_lacks by (done || lia). simpl. rewrite atoi_port by lia.
    destruct r as [a b]; simpl in *. subst b. zcases; try lia. done.
  - rewrite !containsByte_app. cbn [containsByte]. rewrite !itoa_lacks by (done || lia).
    assert (splitOn c (itoa (start r) +:+ String c (itoa (end_ r))) =
            [itoa (start r); itoa (end_ r)]) as Hsplit.
    { rewrite splitOn_app by (apply itoa_lacks; [lia|destruct Hc as [-> | ->]; done]).
      by rewrite splitOn_none by (apply itoa_lacks; [lia|destruct Hc as [-> | ->]; done]). }
    destruct Hc as [-> | ->]; simpl; rewrite Hsplit, !atoi_port by lia;
      destruct r as [a b]; simpl in *; zcases; try lia; done.
Qed.

(** The comma separated list splits into the printed ranges. *)
Lemma splitOn_join c ind r rs :
  is_sep c -> ind = "" \/ ind = " " -> Forall valid (r :: rs) ->
  splitOn "," (joinWith ("," +:+ ind) (formatRange (sepS c) <$> (r :: rs))) =
  formatRange (sepS c) r :: ((fun x => ind +:+ formatRange (sepS c) x) <$> rs).
Proof.
  intros Hc Hind. revert r. induction rs as [|r' rs IH]; intros r Hv;
    inversion_clear Hv as [|?? Hr Hv'].
  - simpl. apply splitOn_none. apply formatRange_lacks; try done. by destruct Hc as [-> | ->].
  - cbn [fmap list_fmap joinWith] in *.
    change ("," +:+ ind) with (String "," ind) at 1. rewrite app_cons.
    rewrite splitOn_app by (apply formatRange_lacks; try done; by destruct Hc as [-> | ->]).
    f_equal. specialize (IH r' Hv').
    destruct Hind as [-> | ->]; [exact IH|].
    change (" " +:+ ?x) with (String " " x). cbn [splitOn].
    change (Ascii.eqb " " ",") with false. cbv iota. by rewrite IH.
Qed.

Lemma join_class (P : ascii -> bool) sep l :
  allc P sep = true -> Forall (fun s => allc P s = true) l -> allc P (joinWith sep l) = true.
Proof.
  intros Hsep. induction 1 as [|s l Hs Hl IH]; [done|].
  destruct l as [|s' l]; [done|]. cbn [joinWith] in *. by rewrite !allc_app, Hs, Hsep, IH.
Qed.

Definition plain_or_blank (c : ascii) : bool := plain c || Ascii.eqb c " ".

Lemma printed_class c ind l :
  is_sep c -> ind = "" \/ ind = " " -> Forall valid l ->
  allc plain_or_blank (joinWith ("," +:+ ind) (formatRange (sepS c) <$> l)) = true.
Proof.
  intros Hc Hind Hv. apply join_class; [by destruct Hind as [-> | ->]|].
  apply Forall_fmap. eapply Forall_impl; [exact Hv|]. intros r Hr.
  eapply allc_impl; [|by apply formatRange_plain]. intros x. unfold plain_or_blank.
  by intros ->.
Qed.

Lemma printed_no_fullwidth c ind l :
  is_sep c -> ind = "" \/ ind = " " -> Forall valid l ->
  let s := joinWith ("," +:+ ind) (formatRange (sepS c) <$> l) in
  replace_all fullwidth_comma "," s = s.
Proof.
  intros Hc Hind Hv. cbv zeta. apply replace_none.
  eapply allc_not_contains; [|by apply printed_class]. reflexivity.
Qed.

Lemma joinWith_nonempty sep s l : s <> "" -> joinWith sep (s :: l) <> "".
Proof. destruct s; [done|]. by destruct l. Qed.

Lemma parse_printed_parts c ind l :
  is_sep c -> ind = "" \/ ind = " " -> Forall valid l ->
  omap parsePortPart ((fun x => ind +:+ formatRange (sepS c) x) <$> l) = l.
Proof.
  intros Hc Hind. induction 1 as [|r l Hr Hl IH]; [done|]. cbn.
  rewrite (parsePortPart_trimmed c r); [by rewrite IH|done|done|].
  pose proof (formatRange_plain c r Hc Hr).
  destruct Hind as [-> | ->]; [by apply trim_space_plain|by apply trim_space_blank].
Qed.

Lemma parsePortRangeInput_printed c ind l :
  is_sep c -> ind = "" \/ ind = " " -> canonical l ->
  parsePortRangeInput (joinWith ("," +:+ ind) (formatRange (sepS c) <$> l)) = l.
Proof.
  intros Hc Hind Hl. pose proof (proj2 Hl) as Hv. unfold parsePortRangeInput.
  destruct l as [|r rs]; [done|].
  rewrite decide_False.
  2:{ apply joinWith_nonempty, formatRange_nonempty. by inversion Hv. }
  rewrite printed_no_fullwidth, splitOn_join by done.
  pose proof (parse_printed_parts c "" [r] Hc (or_introl eq_refl)) as Hhead.
  inversion_clear Hv as [|?? Hr Hrs]. specialize (Hhead (proj2 (Forall_singleton _ _) Hr)).
  cbn in Hhead |- *. change ("" +:+ ?x) with x in Hhead.
  destruct (parsePortPart (formatRange (sepS c) r)); simplify_eq.
  rewrite parse_printed_parts by done. by apply mergePortRanges_canonical.
Qed.

Lemma parseStrictSegments_printed c l :
  is_sep c -> Forall valid l -> parseStrictSegments (formatRange (sepS c) <$> l) = Ok l.
Proof.
  intros Hc. induction 1 as [|r l Hr Hl IH]; [done|]. cbn.
  by rewrite parseStrictSegment_format, IH by done.
Qed.

Lemma printed_plain c l :
  is_sep c -> Forall valid l -> allc plain (joinWith "," (formatRange (sepS c) <$> l)) = true.
Proof.
  intros Hc Hv. apply join_class; [done|]. apply Forall_fmap.
  eapply Forall_impl; [exact Hv|]. intros r. by apply formatRange_plain.
Qed.

Lemma parseStrictPortRanges_printed c l :
  is_sep c -> canonical l -> l <> [] ->
  parseStrictPortRanges (joinWith "," (formatRange (sepS c) <$> l)) = Ok (l, formatPortSpans l).
Proof.
  intros Hc Hl Hne. pose proof (proj2 Hl) as Hv. unfold parseStrictPortRanges.
  rewrite trim_space_plain by (by apply printed_plain).
  destruct l as [|r rs]; [done|].
  rewrite decide_False.
  2:{ apply joinWith_nonempty, formatRange_nonempty. by inversion Hv. }
  pose proof (printed_no_fullwidth c "" (r :: rs) Hc (or_introl eq_refl) Hv) as Hfw.
  pose proof (splitOn_join c "" r rs Hc (or_introl eq_refl) Hv) as Hsp.
  change ("," +:+ "") with "," in Hfw, Hsp. cbv zeta in Hfw. rewrite Hfw, Hsp.
  change (formatRange (sepS c) r :: ((fun x => "" +:+ formatRange (sepS c) x) <$> rs))
    with (formatRange (sepS c) <$> (r :: rs)).
  rewrite parseStrictSegments_printed by done.
  rewrite mergePortSpans_eq. by rewrite mergePortRanges_canonical.
Qed.

(** ** The parsers only produce canonical lists *)

Lemma parsePortPart_valid s r : parsePortPart s = Some r -> valid r.
Proof.
  unfold parsePortPart, valid. intros H.
  destruct (decide (trim_space s = "")); [done|].
  destruct (split_first _ _) as [[a b]|].
  - destruct (atoi a) as [x|]; [|done]. destruct (atoi b) as [y|]; [|done].
    clear -H. zcases; simplify_eq; simpl; lia.
  - destruct (atoi _) as [x|]; [|done]. clear -H. zcases; simplify_eq; simpl; lia.
Qed.

Lemma parsePortRangeInput_canonical s : canonical (parsePortRangeInput s).
Proof.
  unfold parsePortRangeInput. destruct (decide (s = "")); [by split; [|constructor]|].
  apply mergePortRanges_spec, Forall_forall.
  intros r (x & _ & Hx)%list_elem_of_omap. by eapply parsePortPart_valid.
Qed.

Lemma parseStrictSegment_valid s r : parseStrictSegment s = Ok r -> valid r.
Proof.
  unfold parseStrictSegment, validPort, valid. intros H.
  destruct (decide (trim_space s = "")); [done|].
  destruct (_ && _); [done|]. destruct (_ || _).
  - destruct (splitOn _ _) as [|a [|b []]]; try done.
    destruct (atoi a) as [x|]; [|done]. destruct (atoi b) as [y|]; [|done].
    clear -H. zcases; simplify_eq; simpl; lia.
  - destruct (atoi _) as [x|]; [|done]. clear -H. zcases; simplify_eq; simpl; lia.
Qed.

Lemma parseStrictSegments_valid ps : forall l,
  parseStrictSegments ps = Ok l -> Forall valid l /\ length l = length ps.
Proof.
  induction ps as [|p ps IH]; intros l H; simpl in H; [by simplify_eq|].
  destruct (parseStrictSegment p) eqn:Hp; [|done].
  destruct (parseStrictSegments ps) eqn:Hps; [|done]. simplify_eq.
  destruct (IH _ eq_refl) as [? ?]. split; [|simpl; by f_equal].
  constructor; [by eapply parseStrictSegment_valid|done].
Qed.

Lemma splitOn_nonempty c s : splitOn c s <> [].
Proof. destruct s as [|x s]; simpl; [done|]. destruct (Ascii.eqb x c); [done|]. by destruct (splitOn c s). Qed.

Lemma mergePortRanges_nonempty l : Forall valid l -> l <> [] -> mergePortRanges l <> [].
Proof.
  intros Hv Hne Hm. destruct l as [|r l]; [done|].
  destruct (mergePortRanges_spec (r :: l) Hv) as [_ Hcov].
  rewrite Hm in Hcov. inversion_clear Hv as [|?? (?&?&?)].
  apply (covers_nil (start r)), Hcov, covers_cons. left. lia.
Qed.

Lemma parseStrictPortRanges_sound s l t :
  parseStrictPortRanges s = Ok (l, t) -> canonical l /\ l <> [] /\ t = formatPortSpans l.
Proof.
  unfold parseStrictPortRanges. intros H. repeat (case_match; simplify_eq).
  match goal with H : parseStrictSegments _ = Ok _ |- _ =>
    apply parseStrictSegments_valid in H as [Hv Hlen] end.
  rewrite mergePortSpans_eq. split; [by apply mergePortRanges_spec|]. split; [|done].
  apply mergePortRanges_nonempty; [done|]. intros ->.
  match type of Hlen with _ = length (splitOn ?c ?x) =>
    destruct (splitOn c x) eqn:E; [by apply splitOn_nonempty in E|done] end.
Qed.

(** ** Port-hop ranges *)

Lemma mapc_formatRange r :
  valid r -> mapc ":" "-" (formatRange (sepS ":") r) = formatRange (sepS "-") r.
Proof.
  intros (?&?&?). unfold formatRange, sepS. destruct (start r =? end_ r).
  - apply mapc_none, itoa_lacks; [lia|done].
  - rewrite !mapc_app. cbn [mapc]. by rewrite !mapc_none by (apply itoa_lacks; [lia|done]).
Qed.

Lemma dashed_format l :
  Forall valid l ->
  replace_all ":" "-" (formatPortSpans l) = joinWith "," (formatRange (sepS "-") <$> l).
Proof.
  intros Hv. rewrite (replace_byte ":" "-"). unfold formatPortSpans. rewrite mapc_join.
  f_equal. rewrite <- list_fmap_compose. apply list_fmap_ext.
  intros i r Hr. apply mapc_formatRange. rewrite Forall_forall in Hv.
  apply Hv. by eapply list_elem_of_lookup_2.
Qed.

Lemma length_formatRange c r : valid r -> (String.length (formatRange (sepS c) r) <= 11)%nat.
Proof.
  intros (?&?&?). pose proof (length_itoa_port (start r) ltac:(lia)).
  pose proof (length_itoa_port (end_ r) ltac:(lia)).
  destruct (formatRange_cases c r) as [[-> _]|[-> _]]; rewrite ?length_sapp; simpl; lia.
Qed.

(** The panel's hop-range policy: canonical, 32 segments, 4096 ports. *)
Definition hop_ok (l : list portSpan) : Prop :=
  canonical l /\ l <> [] /\ Z.of_nat (length l) <= 32 /\
  Z.of_nat (length (expand l)) <= 4096.

Definition hopText (l : list portSpan) : string :=
  joinWith "," (formatRange (sepS "-") <$> l).

Lemma hopText_length l : hop_ok l -> Z.of_nat (String.length (hopText l)) <= 512.
Proof.
  intros ([_ Hv] & _ & Hn & _).
  pose proof (length_joinWith "," 11 (formatRange (sepS "-") <$> l)) as Hl.
  rewrite length_fmap in Hl. unfold hopText. simpl String.length in Hl.
  assert (Forall (fun s => (String.length s <= 11)%nat) (formatRange (sepS "-") <$> l)) as Hf.
  { apply Forall_fmap. eapply Forall_impl; [exact Hv|]. intros r. apply length_formatRange. }
  specialize (Hl Hf). lia.
Qed.

Lemma parseStrict_hopText l :
  hop_ok l -> parseStrictPortRanges (hopText l) = Ok (l, formatPortSpans l).
Proof. intros (Hc & Hne & _). apply parseStrictPortRanges_printed; [by left|done|done]. Qed.

Lemma hopText_trim l : hop_ok l -> trim_space (hopText l) = hopText l /\ hopText l <> "".
Proof.
  intros ([_ Hv] & Hne & _). split.
  - apply trim_space_plain, printed_plain; [by left|done].
  - destruct l as [|r l]; [done|]. apply joinWith_nonempty, formatRange_nonempty. by inversion Hv.
Qed.

(** Both normalisers decide the same policy and print the same text. *)
Lemma singbox_hop_spec raw s :
  normalizeSingboxPortHopRange raw = Ok s <->
  (trim_space raw = "" /\ s = "") \/
  (trim_space raw <> "" /\ Z.of_nat (String.length (trim_space raw)) <= 512 /\
   exists l t, parseStrictPortRanges (trim_space raw) = Ok (l, t) /\ hop_ok l /\ s = hopText l).
Proof.
  unfold normalizeSingboxPortHopRange, portHopMaxRangeTextBytes, portHopMaxSegments,
    portHopMaxPorts.
  destruct (decide (trim_space raw = "")) as [E|E]; [split; [left; by simplify_eq|]|].
  { intros [[_ ->]|(? & _)]; done. }
  destruct (Z.ltb_spec 512 (Z.of_nat (String.length (trim_space raw)))); [split; [done|]|].
  { intros [[? _]|(_ & ? & _)]; [done|lia]. }
  destruct (parseStrictPortRanges (trim_space raw)) as [[l t]|e] eqn:Hp.
  2:{ split; [done|]. intros [[? _]|(_ & _ & l & t & ? & _)]; done. }
  destruct (parseStrictPortRanges_sound _ _ _ Hp) as (Hc & Hne & ->).
  rewrite (countPorts_canonical l Hc), (dashed_format l (proj2 Hc)).
  split.
  - intros H'. zcases; simplify_eq. right. repeat split; try done.
    exists l, (formatPortSpans l). repeat split; try done; try apply Hc; lia.
  - intros [[? _]|(_ & _ & l' & t' & Heq & (_ & _ & ? & ?) & ->)]; [done|]. simplify_eq.
    zcases; try lia. done.
Qed.

Lemma mihomo_hop_eq raw s :
  normalizeMihomoPortHopRange raw = Ok s <-> normalizeSingboxPortHopRange raw = Ok s.
Proof.
  unfold normalizeMihomoPortHopRange, normalizeSingboxPortHopRange,
    validateMihomoManagedPortRange.
  rewrite trim_space_idemp. destruct (decide (trim_space raw = "")); [done|].
  destruct (_ <? _); [done|].
  destruct (parseStrictPortRanges (trim_space raw)) as [[l t]|e]; [|done].
  by destruct (_ <? _); [|destruct (_ <? _)].
Qed.

(** ** Properties *)

(** C35: [mergePortRanges] computes the canonical form of a set of ports.  On
    valid ranges in any order, the result is ascending with a gap of at least
    one port between neighbours, denotes exactly the same ports, and is the
    same for every list that denotes these ports. *)
Theorem mergePortRanges_canonical_form l :
  Forall valid l ->
  canonical (mergePortRanges l) /\
  (forall p, covers (mergePortRanges l) p <-> covers l p) /\
  (forall k, Forall valid k -> (forall p, covers k p <-> covers l p) ->
             mergePortRanges k = mergePortRanges l).
Proof.
  intros Hl. destruct (mergePortRanges_spec l Hl) as [Hc Hcov].
  split; [done|]. split; [done|]. intros k Hk Heq.
  destruct (mergePortRanges_spec k Hk) as [Hck Hcovk].
  apply canonical_unique; [done..|]. intros p. by rewrite Hcovk, Heq, Hcov.
Qed.

Lemma mergePortRanges_canonical_form_witness :
  mergePortRanges [mkRange 20 30; mkRange 5 5; mkRange 31 40] =
    [mkRange 5 5; mkRange 20 40] /\
  canonical (mergePortRanges [mkRange 20 30; mkRange 5 5; mkRange 31 40]).
Proof.
  split; [vm_compute; reflexivity|].
  apply (mergePortRanges_canonical_form [mkRange 20 30; mkRange 5 5; mkRange 31 40]).
  repeat constructor; simpl; lia.
Defined.

(** [normalizeNftPortRanges] accepts arbitrary integers: its result is
    canonical, and a port belongs to it exactly when it is a port (1 to 65535)
    that lies between the two ends of some input range, in either order. *)
Theorem normalizeNftPortRanges_correct l :
  canonical (normalizeNftPortRanges l) /\
  forall p, covers (normalizeNftPortRanges l) p <->
    1 <= p <= 65535 /\
    exists r, r ∈ l /\ Z.min (start r) (end_ r) <= p <= Z.max (start r) (end_ r).
Proof. apply normalizeNftPortRanges_spec. Qed.

(** [subtractFirewallPortRanges] is set difference: the result is
    canonical and a port belongs to it exactly when it is in [ranges] and not
    in [excluded]; the early return on an empty remainder loses nothing. *)
Theorem subtractFirewallPortRanges_correct l ex :
  Forall valid l -> Forall valid ex ->
  canonical (subtractFirewallPortRanges l ex) /\
  forall p, portInRanges p (subtractFirewallPortRanges l ex) =
            portInRanges p l && negb (portInRanges p ex).
Proof.
  intros Hl Hex. unfold subtractFirewallPortRanges.
  destruct (mergePortRanges_spec l Hl) as [[_ Hml] Hcl].
  destruct (mergePortRanges_spec ex Hex) as [[_ Hmx] Hcx].
  destruct (subtractLoop_spec _ _ Hml Hmx) as [Hc Hcov]. split; [done|].
  intros p. apply eq_true_iff_eq. rewrite andb_true_iff, negb_true_iff.
  rewrite <- not_true_iff_false, !portInRanges_spec, Hcov, Hcl, Hcx. done.
Qed.

Lemma subtractFirewallPortRanges_correct_witness :
  subtractFirewallPortRanges [mkRange 1 100] [mkRange 20 30] = [mkRange 1 19; mkRange 31 100] /\
  canonical (subtractFirewallPortRanges [mkRange 1 100] [mkRange 20 30]).
Proof.
  split; [vm_compute; reflexivity|].
  apply (subtractFirewallPortRanges_correct [mkRange 1 100] [mkRange 20 30]);
    repeat constructor; simpl; lia.
Defined.

(** [excludePortsFromRanges] removes exactly the occupied ports from a
    canonical list: the result is canonical, a port stays exactly when it is
    not occupied, the reported count is the number of ports dropped, and the
    sample is the first five of them in ascending order of the ranges. *)
Theorem excludePortsFromRanges_correct l ex :
  canonical l ->
  let '(allowed, skipped, sample) := excludePortsFromRanges l ex in
  canonical allowed /\
  (forall p, covers allowed p <-> covers l p /\ p ∉ ex) /\
  skipped = Z.of_nat (length (hits ex (expand l))) /\
  sample = take 5 (hits ex (expand l)).
Proof.
  intros [Hg Hv]. unfold excludePortsFromRanges.
  destruct (decide (l = [])) as [->|Hl].
  { split; [by split; [|constructor]|]. split; [|done].
    intros p. pose proof (covers_nil p). tauto. }
  destruct (decide (ex = ∅)) as [->|Hex].
  { assert (forall ps, hits ∅ ps = []) as Hh.
    { intros ps. unfold hits. induction ps; [done|]. by rewrite filter_cons, decide_False. }
    rewrite Hh. split; [done|]. split; [|done]. intros p. set_solver. }
  destruct (excludeFold_spec ex l (mkExclude [] 0 []) 0) as (HA & HK & HS & HC);
    try done; try lia; [simpl; lia|].
  destruct (mergePortRanges_spec _ HA) as [Hc Hcov]. split; [done|].
  cbn in HK, HS, HC. split; [|done]. intros p. rewrite Hcov, HC.
  pose proof (covers_nil p). tauto.
Qed.

Lemma excludePortsFromRanges_correct_witness :
  excludePortsFromRanges [mkRange 10 14] {[ 11; 13 ]} =
    ([mkRange 10 10; mkRange 12 12; mkRange 14 14], 2, [11; 13]) /\
  Z.of_nat (length (hits {[ 11; 13 ]} (expand [mkRange 10 14]))) = 2.
Proof.
  pose proof (excludePortsFromRanges_correct [mkRange 10 14] {[ 11; 13 ]}) as H.
  assert (Hc : canonical [mkRange 10 14])
    by (split; [simpl; lia|repeat constructor; simpl; lia]).
  specialize (H Hc).
  assert (excludePortsFromRanges [mkRange 10 14] {[ 11; 13 ]} =
    ([mkRange 10 10; mkRange 12 12; mkRange 14 14], 2, [11; 13])) as E by (vm_compute; reflexivity).
  split; [exact E|]. rewrite E in H. destruct H as (_ & _ & H & _). by symmetry.
Defined.

(** printing then parsing gives the ranges back.  The text that
    [portRangesToNft] writes for a canonical list is read back by
    [parsePortRangeInput] as the same list, and the text that
    [formatPortSpans] writes is accepted by the strict parser with the same
    spans and the same text, so normalisation is idempotent. *)
Theorem port_ranges_print_parse l :
  canonical l ->
  parsePortRangeInput (portRangesToNft l) = l /\
  (l <> [] -> parseStrictPortRanges (formatPortSpans l) = Ok (l, formatPortSpans l)).
Proof.
  intros Hl. split.
  - apply (parsePortRangeInput_printed "-" " "); [by left|by right|done].
  - intros Hne. apply (parseStrictPortRanges_printed ":"); [by right|done|done].
Qed.

Lemma port_ranges_print_parse_witness :
  parsePortRangeInput (portRangesToNft [mkRange 80 80; mkRange 400 501]) =
    [mkRange 80 80; mkRange 400 501].
Proof.
  apply (port_ranges_print_parse [mkRange 80 80; mkRange 400 501]).
  split; [simpl; lia|repeat constructor; simpl; lia].
Defined.

(** what both port-hop normalisers accept.  They accept the same texts
    with the same result; a non-empty result names at most 32 segments and
    4096 ports, is read by the nftables parser as exactly the validated
    ranges, and is a fixed point of the normaliser. *)
Theorem port_hop_normalisers_agree raw s :
  (normalizeMihomoPortHopRange raw = Ok s <-> normalizeSingboxPortHopRange raw = Ok s) /\
  (normalizeMihomoPortHopRange raw = Ok s -> s <> "" ->
   exists l, canonical l /\ Z.of_nat (length l) <= 32 /\
     NoDup (expand l) /\ Z.of_nat (length (expand l)) <= 4096 /\
     parsePortRangeInput s = l /\ normalizeMihomoPortHopRange s = Ok s).
Proof.
  split; [apply mihomo_hop_eq|].
  rewrite mihomo_hop_eq, singbox_hop_spec.
  intros [[_ ->]|(_ & _ & l & t & _ & Hok & ->)] Hne; [done|].
  pose proof Hok as (Hc & Hn & ? & ?). exists l. repeat split; try done; try apply Hc.
  - eapply NoDup_expand, Hc.
  - apply (parsePortRangeInput_printed "-" ""); [by left|by left|done].
  - apply mihomo_hop_eq, singbox_hop_spec. right.
    destruct (hopText_trim l Hok) as [-> ?]. repeat split; [done|by apply hopText_length|].
    exists l, (formatPortSpans l). repeat split; try done; try apply Hc.
    by apply parseStrict_hopText.
Qed.

Lemma port_hop_normalisers_agree_witness :
  normalizeMihomoPortHopRange " 500:510,20-30,31 " = Ok "20-31,500-510" /\
  exists l, canonical l /\ parsePortRangeInput "20-31,500-510" = l.
Proof.
  assert (E : normalizeMihomoPortHopRange " 500:510,20-30,31 " = Ok "20-31,500-510")
    by (vm_compute; reflexivity).
  split; [exact E|].
  destruct (proj2 (port_hop_normalisers_agree " 500:510,20-30,31 " "20-31,500-510") E)
    as (l & Hc & _ & _ & _ & Hp & _); [discriminate|].
  exists l. split; [exact Hc|exact Hp].
Defined.

(** [expandPortRangesToPorts] lists every port of the ranges once, in
    ascending order, and [intsToPortRanges] recovers the normalised ranges
    from that list. *)
Theorem expand_ints_roundtrip l :
  StronglySorted Z.le (expandPortRangesToPorts l) /\
  NoDup (expandPortRangesToPorts l) /\
  (forall p, p ∈ expandPortRangesToPorts l <-> covers (normalizeNftPortRanges l) p) /\
  intsToPortRanges (expandPortRangesToPorts l) = normalizeNftPortRanges l.
Proof.
  unfold expandPortRangesToPorts.
  fold (expand (normalizeNftPortRanges l)).
  destruct (normalizeNftPortRanges_spec l) as [Hc _].
  destruct (normalizePortList_spec (expand (normalizeNftPortRanges l))) as (Hs & Hn & Hin).
  assert (Hmem : forall p, p ∈ normalizePortList (expand (normalizeNftPortRanges l)) <->
                           covers (normalizeNftPortRanges l) p).
  { intros p. rewrite Hin, elem_of_expand. split; [by intros [? _]|]. intros Hp.
    split; [done|]. destruct Hp as (r & Hr & Hp). destruct Hc as [_ Hv].
    rewrite Forall_forall in Hv. specialize (Hv r Hr) as (?&?&?). lia. }
  repeat split; try done; try apply Hmem.
  destruct (intsToPortRanges_spec (normalizePortList (expand (normalizeNftPortRanges l))))
    as [Hci Hcov].
  apply canonical_unique; [done|done|]. intros p. rewrite Hcov, Hmem.
  split; [by intros [? _]|]. intros Hp. split; [done|]. apply Hmem, Hin in Hp. apply Hp.
Qed.

(** [summarizePortForwardSpanOverlap] on canonical span lists: the count
    is the number of ports the two lists share (without overflow), zero
    exactly when they are disjoint, and the sample is the first twelve shared
    ports. *)
Theorem summarizePortForwardSpanOverlap_correct a b :
  canonical a -> canonical b ->
  exists ports,
    NoDup ports /\ (forall p, p ∈ ports <-> covers a p /\ covers b p) /\
    ov_count (summarizePortForwardSpanOverlap a b) = Z.of_nat (length ports) /\
    ov_sample (summarizePortForwardSpanOverlap a b) = take 12 ports.
Proof.
  intros Ha Hb. exists (shared a b).
  split; [eapply NoDup_shared; [apply Ha|apply Hb]|].
  split; [apply elem_of_shared|]. unfold summarizePortForwardSpanOverlap.
  pose proof (length_shared_bound a b Ha Hb).
  rewrite (overlapRows_spec a b (mkOverlap 0 []));
    [done|apply Ha|apply Hb|apply Nat.le_0_l|cbn [ov_count]; lia|].
  cbn [ov_count]. unfold max_i64. lia.
Qed.

Lemma summarizePortForwardSpanOverlap_correct_witness :
  ov_count (summarizePortForwardSpanOverlap [mkRange 10 20] [mkRange 15 30]) = 6 /\
  exists ports : list Z, NoDup ports /\
    ov_count (summarizePortForwardSpanOverlap [mkRange 10 20] [mkRange 15 30]) =
      Z.of_nat (length ports).
Proof.
  split; [vm_compute; reflexivity|].
  destruct (summarizePortForwardSpanOverlap_correct [mkRange 10 20] [mkRange 15 30])
    as (ports & Hn & _ & Hc & _).
  - split; [simpl; lia|repeat constructor; simpl; lia].
  - split; [simpl; lia|repeat constructor; simpl; lia].
  - by exists ports.
Defined.
