(* ===== verification/Table.v ===== *)
(** * SQL tables as an interface

    The panel keeps its rows in SQLite through the third-party packages gorm
    and modernc.org/sqlite, which are not part of the repository.  A table is
    therefore an interface here: [Table] lists the statements the modelled
    code issues, [TableLaws] what it relies on.  The laws say what the two
    packages document: a statement either fails and changes nothing, or has
    its SQL effect; a primary key is unique; [Order("c DESC").Take] returns a
    row with the largest [c].  Nothing says when a statement succeeds, so the
    theorems of the components hold under every pattern of failures.

    [memTable] is the implementation used to run the models: a finite map
    with a schedule of failures; [memTable_laws] discharges the laws. *)

From S2P Require Import Prelude.
From stdpp Require Import base gmap list.
From Stdlib Require Import ZArith Lia.

#[local] Open Scope Z_scope.

(** A failed statement; the message is irrelevant to the models. *)
Inductive dberr : Type := DBError.

#[global] Instance dberr_eq_dec : EqDecision dberr.
Proof. solve_decision. Defined.

Class Table (K R T : Type) `{Countable K} := {
  (** the committed rows, by primary key *)
  rows : T -> gmap K R;
  (** [Where("key = ?", k).Take(&r)]; [gorm.ErrRecordNotFound] is [Ok None] *)
  tFind : K -> T -> res dberr (option R) * T;
  (** [Order("column DESC").Take(&r)] *)
  tTop : (R -> Z) -> T -> res dberr (option (K * R)) * T;
  (** [Find(&all)], in primary-key order or any other *)
  tAll : T -> res dberr (list (K * R)) * T;
  (** [Where(...).Count(&n)] *)
  tCount : (K -> R -> bool) -> T -> res dberr Z * T;
  (** [Create(&r)] *)
  tCreate : K -> R -> T -> option dberr * T;
  (** [Save(&r)]: update the row of the primary key, or insert it *)
  tSave : K -> R -> T -> option dberr * T;
  (** [Where(...).Updates(...)], with [RowsAffected] *)
  tUpdate : (K -> R -> bool) -> (R -> R) -> T -> res dberr Z * T;
  (** [Where(...).Delete(...)] *)
  tDelete : (K -> R -> bool) -> T -> option dberr * T
}.

(** [UPDATE ... SET f WHERE p] and [DELETE ... WHERE p] on the rows. *)
Definition updateRows {K R} `{Countable K} (p : K -> R -> bool) (f : R -> R)
  (m : gmap K R) : gmap K R :=
  map_imap (fun k r => Some (if p k r then f r else r)) m.

Definition deleteRows {K R} `{Countable K} (p : K -> R -> bool) (m : gmap K R) : gmap K R :=
  filter (fun kr => p kr.1 kr.2 = false) m.

Definition countRows {K R} `{Countable K} (p : K -> R -> bool) (m : gmap K R) : Z :=
  Z.of_nat (size (filter (fun kr : K * R => p kr.1 kr.2 = true) m)).

Class TableLaws (K R T : Type) `{Table K R T} : Prop := {
  find_rows k t : rows (tFind k t).2 = rows t;
  find_ok k t o : (tFind k t).1 = Ok o -> o = rows t !! k;
  top_rows c t : rows (tTop c t).2 = rows t;
  top_none c t : (tTop c t).1 = Ok None -> rows t = ∅;
  top_some c t k r : (tTop c t).1 = Ok (Some (k, r)) ->
    rows t !! k = Some r /\ forall k' r', rows t !! k' = Some r' -> c r' <= c r;
  all_rows t : rows (tAll t).2 = rows t;
  all_ok t l : (tAll t).1 = Ok l -> l ≡ₚ map_to_list (rows t);
  count_rows p t : rows (tCount p t).2 = rows t;
  count_ok p t n : (tCount p t).1 = Ok n -> n = countRows p (rows t);
  create_ok k r t : (tCreate k r t).1 = None ->
    rows t !! k = None /\ rows (tCreate k r t).2 = <[k:=r]> (rows t);
  create_err k r t e : (tCreate k r t).1 = Some e -> rows (tCreate k r t).2 = rows t;
  save_ok k r t : (tSave k r t).1 = None -> rows (tSave k r t).2 = <[k:=r]> (rows t);
  save_err k r t e : (tSave k r t).1 = Some e -> rows (tSave k r t).2 = rows t;
  update_ok p f t n : (tUpdate p f t).1 = Ok n ->
    rows (tUpdate p f t).2 = updateRows p f (rows t) /\
    (n <> 0 -> countRows p (rows t) <> 0);
  update_err p f t e : (tUpdate p f t).1 = Err e -> rows (tUpdate p f t).2 = rows t;
  delete_ok p t : (tDelete p t).1 = None -> rows (tDelete p t).2 = deleteRows p (rows t);
  delete_err p t e : (tDelete p t).1 = Some e -> rows (tDelete p t).2 = rows t
}.

(** [db.Transaction(f)] on whatever tables [D] the body works on: an error of
    the body, or a failing commit, rolls everything back. *)
Definition transaction {D E A : Type} (commitOk : bool) (commitError : E)
    (f : D -> res E A * D) (d : D) : res E A * D :=
  match f d with
  | (Ok a, d') => if commitOk then (Ok a, d') else (Err commitError, d)
  | (Err e, _) => (Err e, d)
  end.

(** ** Facts about the row operations *)

Section Rows.
Context {K R : Type} `{Countable K}.
Implicit Types (m : gmap K R) (p : K -> R -> bool).

Lemma lookup_updateRows p f m k :
  updateRows p f m !! k = (fun r => if p k r then f r else r) <$> (m !! k).
Proof. unfold updateRows. rewrite map_lookup_imap. by destruct (m !! k). Qed.

Lemma lookup_deleteRows_Some p m k r :
  deleteRows p m !! k = Some r <-> m !! k = Some r /\ p k r = false.
Proof. unfold deleteRows. rewrite map_lookup_filter_Some. done. Qed.

Lemma deleteRows_subseteq p m : deleteRows p m ⊆ m.
Proof. apply map_filter_subseteq. Qed.

(** Deleting by primary key. *)
Lemma deleteRows_key (k : K) m :
  deleteRows (fun k' _ => bool_decide (k' = k)) m = delete k m.
Proof.
  apply map_eq. intros i. apply option_eq. intros r.
  rewrite lookup_deleteRows_Some, lookup_delete_Some, bool_decide_eq_false.
  naive_solver.
Qed.

Lemma deleteRows_all m : deleteRows (fun _ _ => true) m = ∅.
Proof.
  apply map_eq. intros i. rewrite lookup_empty. apply eq_None_not_Some.
  intros [r [_ Hr]%lookup_deleteRows_Some]. done.
Qed.

Lemma Z2Nat_size_nonzero (m : gmap K R) : Z.of_nat (size m) <> 0 <-> m <> ∅.
Proof.
  rewrite <- (map_size_empty_iff m). split; intros Hn He; apply Hn; lia.
Qed.

Lemma map_filter_nonempty (P : K * R -> Prop) `{forall x, Decision (P x)} (m : gmap K R) :
  filter P m <> ∅ <-> exists k r, m !! k = Some r /\ P (k, r).
Proof.
  split.
  - intros Hne. apply map_choose in Hne as (k & r & Hk).
    apply map_lookup_filter_Some in Hk. by exists k, r.
  - intros (k & r & Hk & HP) Hz.
    assert (filter P m !! k = Some r) as Hf by (by apply map_lookup_filter_Some).
    rewrite Hz in Hf. by rewrite lookup_empty in Hf.
Qed.

Lemma countRows_key (k : K) m :
  countRows (fun k' _ => bool_decide (k' = k)) m <> 0 <-> is_Some (m !! k).
Proof.
  unfold countRows.
  rewrite Z2Nat_size_nonzero, map_filter_nonempty. split.
  - intros (i & r & Hi & Hp). cbn in Hp. rewrite bool_decide_eq_true in Hp. subst. by eexists.
  - intros [r Hr]. exists k, r. split; [done|]. cbn. by rewrite bool_decide_eq_true.
Qed.
End Rows.

(** ** A table in memory

    [faults] is a schedule: each statement consumes one entry and fails when
    it is [true]; an exhausted schedule means no further failures. *)

Record memTable (K R : Type) `{Countable K} : Type := mkMem {
  memRows : gmap K R;
  faults : list bool }.
Arguments mkMem {K R _ _} memRows faults.
Arguments memRows {K R _ _} _.
Arguments faults {K R _ _} _.

Section MemTable.
Context {K R : Type} `{Countable K}.
Implicit Types (t : memTable K R).

Definition stepFault t : bool * memTable K R :=
  match faults t with
  | [] => (false, t)
  | b :: bs => (b, mkMem (memRows t) bs)
  end.

Definition withRows (m : gmap K R) t : memTable K R := mkMem m (faults t).

Fixpoint maxRow (c : R -> Z) (l : list (K * R)) : option (K * R) :=
  match l with
  | [] => None
  | kr :: l' =>
      match maxRow c l' with
      | Some kr' => if c kr.2 <? c kr'.2 then Some kr' else Some kr
      | None => Some kr
      end
  end.

Definition memQuery {A : Type} (q : gmap K R -> A) t : res dberr A * memTable K R :=
  let '(bad, t') := stepFault t in
  if bad then (Err DBError, t') else (Ok (q (memRows t')), t').

#[global] Instance memTable_ops : Table K R (memTable K R) := {|
  rows := memRows;
  tFind k := memQuery (fun m => m !! k);
  tTop c := memQuery (fun m => maxRow c (map_to_list m));
  tAll := memQuery map_to_list;
  tCount p := memQuery (countRows p);
  tCreate k r t :=
    let '(bad, t') := stepFault t in
    if bad then (Some DBError, t')
    else match memRows t' !! k with
         | Some _ => (Some DBError, t')
         | None => (None, withRows (<[k:=r]> (memRows t')) t')
         end;
  tSave k r t :=
    let '(bad, t') := stepFault t in
    if bad then (Some DBError, t') else (None, withRows (<[k:=r]> (memRows t')) t');
  tUpdate p f t :=
    let '(bad, t') := stepFault t in
    if bad then (Err DBError, t')
    else (Ok (countRows p (memRows t')), withRows (updateRows p f (memRows t')) t');
  tDelete p t :=
    let '(bad, t') := stepFault t in
    if bad then (Some DBError, t')
    else (None, withRows (deleteRows p (memRows t')) t')
|}.

Lemma maxRow_none c l : maxRow c l = None -> l = [].
Proof. destruct l as [|kr l]; simpl; [done|]. destruct (maxRow c l); [|done]. by case_match. Qed.

Lemma maxRow_some c l kr :
  maxRow c l = Some kr -> kr ∈ l /\ forall kr', kr' ∈ l -> c kr'.2 <= c kr.2.
Proof.
  revert kr. induction l as [|x l IH]; intros kr H'; simpl in H'; [done|].
  setoid_rewrite elem_of_cons. destruct (maxRow c l) as [y|] eqn:E.
  - destruct (IH y eq_refl) as [Hin Hmax].
    destruct (Z.ltb_spec (c x.2) (c y.2)); simplify_eq; (split; [tauto|]);
      intros kr' [->|Hk]; try lia; specialize (Hmax _ Hk); lia.
  - apply maxRow_none in E. subst l. simplify_eq. split; [tauto|].
    intros kr' [->|Hk]; [lia|by apply elem_of_nil in Hk].
Qed.

Lemma stepFault_rows t : memRows (stepFault t).2 = memRows t.
Proof. unfold stepFault. by destruct (faults t). Qed.

Lemma memQuery_rows {A} (q : gmap K R -> A) t : memRows (memQuery q t).2 = memRows t.
Proof.
  unfold memQuery. pose proof (stepFault_rows t).
  destruct (stepFault t) as [bad t']; simpl in *. by destruct bad.
Qed.

Lemma memQuery_ok {A} (q : gmap K R -> A) t a :
  (memQuery q t).1 = Ok a -> a = q (memRows t).
Proof.
  unfold memQuery. pose proof (stepFault_rows t) as Hs.
  destruct (stepFault t) as [bad t']; simpl in *. destruct bad; simpl; [done|].
  intros; simplify_eq. by rewrite Hs.
Qed.

#[global] Instance memTable_laws : TableLaws K R (memTable K R).
Proof.
  constructor; cbn; intros.
  - apply memQuery_rows.
  - by apply memQuery_ok in H0.
  - apply memQuery_rows.
  - apply memQuery_ok in H0. symmetry in H0. apply maxRow_none in H0.
    by apply map_to_list_empty_iff.
  - apply memQuery_ok in H0. symmetry in H0. apply maxRow_some in H0 as [Hin Hmax].
    split; [by apply elem_of_map_to_list|]. intros k' r' Hk'.
    by apply (Hmax (k', r')), elem_of_map_to_list.
  - apply memQuery_rows.
  - apply memQuery_ok in H0. by rewrite H0.
  - apply memQuery_rows.
  - by apply memQuery_ok in H0.
  - pose proof (stepFault_rows t) as Hs. destruct (stepFault t) as [[] t']; [done|].
    cbn in *. rewrite Hs in *. destruct (memRows t !! k) eqn:E; [done|]. cbn in *. done.
  - pose proof (stepFault_rows t) as Hs. destruct (stepFault t) as [[] t']; cbn in *; [done|].
    rewrite Hs in *. destruct (memRows t !! k); [done|]. done.
  - pose proof (stepFault_rows t) as Hs. destruct (stepFault t) as [[] t']; cbn in *; [done|].
    by rewrite Hs.
  - pose proof (stepFault_rows t) as Hs. destruct (stepFault t) as [[] t']; cbn in *; done.
  - pose proof (stepFault_rows t) as Hs. destruct (stepFault t) as [[] t']; cbn in *; [done|].
    rewrite Hs in *. by simplify_eq.
  - pose proof (stepFault_rows t) as Hs. destruct (stepFault t) as [[] t']; cbn in *; [done|].
    done.
  - pose proof (stepFault_rows t) as Hs. destruct (stepFault t) as [[] t']; cbn in *; [done|].
    by rewrite Hs.
  - pose proof (stepFault_rows t) as Hs. destruct (stepFault t) as [[] t']; cbn in *; done.
Qed.
End MemTable.
