(* ===== verification/Sessions.v ===== *)
(** * Login sessions ([api/session.go])

    The panel keeps at most 25 login sessions in memory and overflows into
    the [login_sessions] table.  Every access goes through one mutex, so each
    function below is one atomic step on [world]: the registry, the table and
    the clock.  Times are nanoseconds since the epoch.  The clock is read once
    per step.  The table is any implementation of [Table]; a session token is
    any 32 bytes; [sha256] is any function. *)

From S2P Require Import Prelude GoStrings Base64 Table.
From stdpp Require Import base gmap list strings relations.
From Stdlib Require Import ZArith Lia.

#[local] Open Scope Z_scope.

(** ** Data *)

Definition second : Z := 1000000000.
Definition minute : Z := 60 * second.

Record loginSessionRecord : Type := mkRecord {
  userName : string;
  version : string;
  epoch : string;
  expiresAt : Z;
  lastActivityAt : Z;
  idleLimitMinutes : Z }.

#[global] Instance loginSessionRecord_eq_dec : EqDecision loginSessionRecord.
Proof. solve_decision. Defined.

(** A row of [login_sessions]; the primary key [TokenHash] is the map key. *)
Record LoginSession : Type := mkLoginSession {
  UserName : string;
  Version : string;
  Epoch : string;
  ExpiresAt : Z;
  LastActivityAt : Z;
  IdleLimitMinutes : Z;
  CreatedAt : Z;
  UpdatedAt : Z }.

Inductive loginSessionStorage : Type :=
| loginSessionStorageMemory
| loginSessionStorageDatabase.

(** The [loginSessionReason...] constants; an empty reason is [None]. *)
Inductive sessionReason : Type :=
| ReasonMissing
| ReasonVersion
| ReasonTimeout
| ReasonRestarted
| ReasonLiveMissing
| ReasonLiveChanged
| ReasonStoreFailed
| ReasonWriteFailed.

#[global] Instance sessionReason_eq_dec : EqDecision sessionReason.
Proof. solve_decision. Defined.

Definition loginSessionReasonIsTransient (r : sessionReason) : bool :=
  match r with
  | ReasonStoreFailed | ReasonWriteFailed => true
  | _ => false
  end.

(** [SErrFuel] is not an error of the code: it marks a loop that ran out of
    fuel, which [refill_no_fuel_error] excludes. *)
Inductive sessionError : Type :=
| SErrStatement        (* a table statement failed *)
| SErrUnavailable      (* "login session database is unavailable" *)
| SErrGone             (* "login session no longer exists" *)
| SErrContext          (* "login session context is nil" *)
| SErrToken            (* token generation failed or gave an invalid token *)
| SErrCookie           (* the response cookie could not be written *)
| SErrFuel.

Definition maxInMemoryLoginSessions : Z := 25.
Definition loginSessionTokenBytes : nat := 32.
Definition sessionMaxAgeMaxMinutes : Z := 72 * 60.

Definition EffectiveSessionMaxAgeMinutes (value : Z) : Z :=
  if value <=? 0 then sessionMaxAgeMaxMinutes
  else if sessionMaxAgeMaxMinutes <? value then sessionMaxAgeMaxMinutes
  else value.

Definition normalizeStoredSessionTimeoutMinutes (value : Z) : Z :=
  EffectiveSessionMaxAgeMinutes value.

Definition loginSessionExpiry (now sessionMaxAgeMinutes : Z) : Z :=
  now + normalizeStoredSessionTimeoutMinutes sessionMaxAgeMinutes * minute.

Definition SessionCookieCodecMaxAgeSeconds : Z :=
  normalizeStoredSessionTimeoutMinutes 0 * 60.

Definition loginSessionModel (record : loginSessionRecord) (now : Z) : LoginSession :=
  mkLoginSession (userName record) (version record) (epoch record) (expiresAt record)
    (lastActivityAt record) (idleLimitMinutes record) now now.

Definition loginSessionRecordFromModel (persisted : LoginSession) : loginSessionRecord :=
  mkRecord (UserName persisted) (Version persisted) (Epoch persisted) (ExpiresAt persisted)
    (LastActivityAt persisted)
    (normalizeStoredSessionTimeoutMinutes (IdleLimitMinutes persisted)).

(** [int(record.expiresAt.Sub(now).Seconds())], at least one. *)
Definition loginSessionCookieMaxAgeSecondsForRecord (record : loginSessionRecord) (now : Z) : Z :=
  let maxAgeSeconds := Z.quot (expiresAt record - now) second in
  if maxAgeSeconds <=? 0 then 1 else maxAgeSeconds.

(** [t.Truncate(time.Second)]. *)
Definition truncateSecond (t : Z) : Z := t - t mod second.

(** ** The store *)

Section Store.
Context {T : Type} `{!Table string LoginSession T}.
(** [config.GetVersion()]: the embedded version text. *)
Variable buildVersion : string.

(** The registry ([loginSessionRegistry]) with its surroundings.  [w_db] is
    [database.GetDB()]; [w_clock] is what [time.Now] returns, which gorm
    also uses for its time stamps; [w_maxAge] is what the settings service
    returns for [sessionMaxAge], [None] for an error. *)
Record world : Type := mkWorld {
  w_epoch : string;
  w_sessions : gmap string loginSessionRecord;
  w_hasPersisted : bool;
  w_db : option T;
  w_clock : Z;
  w_maxAge : option Z }.

Definition set_sessions (m : gmap string loginSessionRecord) (w : world) : world :=
  mkWorld (w_epoch w) m (w_hasPersisted w) (w_db w) (w_clock w) (w_maxAge w).
Definition set_db (t : T) (w : world) : world :=
  mkWorld (w_epoch w) (w_sessions w) (w_hasPersisted w) (Some t) (w_clock w) (w_maxAge w).
Definition set_hasPersisted (b : bool) (w : world) : world :=
  mkWorld (w_epoch w) (w_sessions w) b (w_db w) (w_clock w) (w_maxAge w).
Definition set_epoch (e : string) (w : world) : world :=
  mkWorld e (w_sessions w) (w_hasPersisted w) (w_db w) (w_clock w) (w_maxAge w).

Definition dbRows (w : world) : gmap string LoginSession :=
  match w_db w with Some t => rows t | None => ∅ end.

Definition memCount (w : world) : Z := Z.of_nat (size (w_sessions w)).

Definition currentLoginSessionVersion : string :=
  let version := trim_space buildVersion in
  if decide (version = "") then "unknown" else version.

Definition loginSessionRecordReasonLocked (ep : string) (record : loginSessionRecord)
    (now : Z) : option sessionReason :=
  if decide (trim_space (userName record) = "") then Some ReasonLiveChanged
  else if decide (version record <> currentLoginSessionVersion) then Some ReasonVersion
  else if decide (epoch record <> ep) then Some ReasonRestarted
  else if expiresAt record <=? now then Some ReasonTimeout
  else None.

Definition validRecord (ep : string) (now : Z) (record : loginSessionRecord) : bool :=
  match loginSessionRecordReasonLocked ep record now with
  | None => true
  | Some _ => false
  end.

Definition byHash (tokenHash : string) : string -> LoginSession -> bool :=
  fun h _ => bool_decide (h = tokenHash).

Definition pruneExpiredLoginSessionsLocked (now : Z) (w : world) : world :=
  set_sessions (filter (fun hr => validRecord (w_epoch w) now hr.2 = true) (w_sessions w)) w.

(** Each iteration removes the newest row, and moves it into memory when it
    is still valid; the number of rows bounds the iterations. *)
Fixpoint refill_loop (n : nat) (now : Z) (w : world) : option sessionError * world :=
  match n with
  | O => (Some SErrFuel, w)
  | S n' =>
      match w_db w with
      | None => (None, w)
      | Some t =>
          if memCount w <? maxInMemoryLoginSessions then
            let '(candidate, t1) := tTop UpdatedAt t in
            let w1 := set_db t1 w in
            match candidate with
            | Err _ => (Some SErrStatement, w1)
            | Ok None => (None, set_hasPersisted false w1)
            | Ok (Some (tokenHash, row)) =>
                let record := loginSessionRecordFromModel row in
                let '(e, t2) := tDelete (byHash tokenHash) t1 in
                let w2 := set_db t2 w1 in
                match loginSessionRecordReasonLocked (w_epoch w) record now with
                | Some _ =>
                    match e with
                    | Some _ => (Some SErrStatement, w2)
                    | None => refill_loop n' now w2
                    end
                | None =>
                    match e with
                    | Some _ => (Some SErrStatement, w2)
                    | None =>
                        refill_loop n' now
                          (set_sessions (<[tokenHash := record]> (w_sessions w2)) w2)
                    end
                end
            end
          else (None, w)
      end
  end.

Definition refillInMemoryLoginSessionsLocked (now : Z) (w : world) : option sessionError * world :=
  refill_loop (S (size (dbRows w))) now w.

Definition savePersistedLoginSessionLocked (tokenHash : string) (record : loginSessionRecord)
    (w : world) : option sessionError * world :=
  match w_db w with
  | None => (Some SErrUnavailable, w)
  | Some t =>
      let '(e, t') := tCreate tokenHash (loginSessionModel record (w_clock w)) t in
      let w' := set_db t' w in
      match e with
      | Some _ => (Some SErrStatement, w')
      | None => (None, set_hasPersisted true w')
      end
  end.

Definition deletePersistedLoginSessionLocked (tokenHash : string) (w : world)
  : option sessionError * world :=
  match w_db w with
  | None => (None, w)
  | Some t =>
      let '(e, t') := tDelete (byHash tokenHash) t in
      (match e with Some _ => Some SErrStatement | None => None end, set_db t' w)
  end.

(** The columns [Updates] writes, [updated_at] included. *)
Definition touchRow (record : loginSessionRecord) (now : Z) (row : LoginSession) : LoginSession :=
  mkLoginSession (UserName row) (Version row) (Epoch row) (expiresAt record)
    (lastActivityAt record) (idleLimitMinutes record) (CreatedAt row) now.

Definition updatePersistedLoginSessionLocked (tokenHash : string) (record : loginSessionRecord)
    (w : world) : option sessionError * world :=
  match w_db w with
  | None => (Some SErrUnavailable, w)
  | Some t =>
      let '(result, t1) := tUpdate (byHash tokenHash) (touchRow record (w_clock w)) t in
      let w1 := set_db t1 w in
      match result with
      | Err _ => (Some SErrStatement, w1)
      | Ok n =>
          if negb (n =? 0) then (None, w1)
          else
            let '(count, t2) := tCount (byHash tokenHash) t1 in
            let w2 := set_db t2 w1 in
            match count with
            | Err _ => (Some SErrStatement, w2)
            | Ok c => if c =? 0 then (Some SErrGone, w2) else (None, w2)
            end
      end
  end.

Definition clearPersistedLoginSessionsLocked (w : world) : res sessionError Z * world :=
  match w_db w with
  | None => (Ok 0, w)
  | Some t =>
      let '(count, t1) := tCount (fun _ _ => true) t in
      let w1 := set_db t1 w in
      match count with
      | Err _ => (Err SErrStatement, w1)
      | Ok n =>
          let '(e, t2) := tDelete (fun _ _ => true) t1 in
          let w2 := set_db t2 w1 in
          match e with Some _ => (Err SErrStatement, w2) | None => (Ok n, w2) end
      end
  end.

(** [expires_at <= now OR version <> current OR epoch <> current]. *)
Definition staleRow (ep : string) (now : Z) (row : LoginSession) : bool :=
  (ExpiresAt row <=? now)
  || bool_decide (Version row <> currentLoginSessionVersion)
  || bool_decide (Epoch row <> ep).

Definition prunePersistedLoginSessionsLocked (now : Z) (w : world) : option sessionError * world :=
  match w_db w with
  | None => (None, w)
  | Some t =>
      let '(e, t') := tDelete (fun _ row => staleRow (w_epoch w) now row) t in
      (match e with Some _ => Some SErrStatement | None => None end, set_db t' w)
  end.

(** One tick of the goroutine [startLoginSessionCleanup] starts. *)
Definition loginSessionCleanupTick (now : Z) (w : world) : world :=
  if (memCount w =? 0) && negb (w_hasPersisted w) then w
  else
    let w1 := pruneExpiredLoginSessionsLocked now w in
    let '(err, w2) := prunePersistedLoginSessionsLocked now w1 in
    match err with
    | Some _ => w2
    | None => (refillInMemoryLoginSessionsLocked now w2).2
    end.

Definition InitializeLoginSessionStore (newEpoch : string) (w : world)
  : option sessionError * world :=
  let w1 := set_hasPersisted false (set_epoch newEpoch (set_sessions ∅ w)) in
  let '(r, w2) := clearPersistedLoginSessionsLocked w1 in
  (match r with Err e => Some e | Ok _ => None end, w2).

Definition InvalidateAllLoginSessions (newEpoch : string) (w : world) : world :=
  (clearPersistedLoginSessionsLocked (set_epoch newEpoch (set_sessions ∅ w))).2.

Definition storeLoginSession (tokenHash user ver : string)
    (expires lastActivity idleLimit : Z) (w : world)
  : res sessionError loginSessionRecord * world :=
  let now := w_clock w in
  let w1 := pruneExpiredLoginSessionsLocked now w in
  let '(_, w2) := refillInMemoryLoginSessionsLocked now w1 in
  let record := mkRecord user ver (w_epoch w2) expires lastActivity idleLimit in
  if memCount w2 <? maxInMemoryLoginSessions then
    (Ok record, set_sessions (<[tokenHash := record]> (w_sessions w2)) w2)
  else
    match savePersistedLoginSessionLocked tokenHash record w2 with
    | (Some e, w3) => (Err e, w3)
    | (None, w3) => (Ok record, w3)
    end.

(** What [loadLoginSessionLocked] returns: a record with its storage, a
    reason, or an error. *)
Inductive loaded : Type :=
| Found (record : loginSessionRecord) (storage : loginSessionStorage)
| Rejected (reason : sessionReason)
| LoadFailed (e : sessionError).

Definition loadLoginSessionLocked (tokenHash : string) (now : Z) (w : world) : loaded * world :=
  match w_sessions w !! tokenHash with
  | Some record =>
      match loginSessionRecordReasonLocked (w_epoch w) record now with
      | Some reason =>
          let w1 := set_sessions (delete tokenHash (w_sessions w)) w in
          (Rejected reason, (refillInMemoryLoginSessionsLocked now w1).2)
      | None => (Found record loginSessionStorageMemory, w)
      end
  | None =>
      match w_db w with
      | None => (Rejected ReasonLiveMissing, w)
      | Some t =>
          let '(persisted, t1) := tFind tokenHash t in
          let w1 := set_db t1 w in
          match persisted with
          | Err _ => (LoadFailed SErrStatement, w1)
          | Ok None => (Rejected ReasonLiveMissing, w1)
          | Ok (Some row) =>
              let record := loginSessionRecordFromModel row in
              match loginSessionRecordReasonLocked (w_epoch w) record now with
              | Some reason =>
                  match deletePersistedLoginSessionLocked tokenHash w1 with
                  | (Some e, w2) => (LoadFailed e, w2)
                  | (None, w2) => (Rejected reason, w2)
                  end
              | None =>
                  if memCount w1 <? maxInMemoryLoginSessions then
                    match deletePersistedLoginSessionLocked tokenHash w1 with
                    | (None, w2) =>
                        (Found record loginSessionStorageMemory,
                         set_sessions (<[tokenHash := record]> (w_sessions w2)) w2)
                    | (Some _, w2) => (Found record loginSessionStorageDatabase, w2)
                    end
                  else (Found record loginSessionStorageDatabase, w1)
              end
          end
      end
  end.

Definition currentLoginSessionTimeoutMinutes (fallback : Z) (w : world) : Z :=
  match w_db w with
  | None => normalizeStoredSessionTimeoutMinutes fallback
  | Some _ =>
      match w_maxAge w with
      | Some value => EffectiveSessionMaxAgeMinutes value
      | None => normalizeStoredSessionTimeoutMinutes fallback
      end
  end.

(** The record [refreshLoginSession] writes. *)
Definition refreshedRecord (record : loginSessionRecord) (now : Z) (w : world)
  : loginSessionRecord :=
  let minutes := currentLoginSessionTimeoutMinutes (idleLimitMinutes record) w in
  mkRecord (userName record) (version record) (epoch record)
    (loginSessionExpiry now minutes) now minutes.

Definition refreshLoginSession (tokenHash : string) (now : Z) (w : world) : loaded * world :=
  match loadLoginSessionLocked tokenHash now w with
  | (LoadFailed e, w1) => (LoadFailed e, w1)
  | (Rejected reason, w1) => (Rejected reason, w1)
  | (Found record storage, w1) =>
      let record' := refreshedRecord record now w1 in
      match storage with
      | loginSessionStorageMemory =>
          (Found record' storage, set_sessions (<[tokenHash := record']> (w_sessions w1)) w1)
      | loginSessionStorageDatabase =>
          match updatePersistedLoginSessionLocked tokenHash record' w1 with
          | (Some e, w2) => (LoadFailed e, w2)
          | (None, w2) => (Found record' storage, w2)
          end
      end
  end.

Definition removeLoginSession (tokenHash : string) (w : world) : world :=
  if decide (tokenHash = "") then w else
  let w1 := set_sessions (delete tokenHash (w_sessions w)) w in
  match deletePersistedLoginSessionLocked tokenHash w1 with
  | (Some _, w2) => w2
  | (None, w2) => (refillInMemoryLoginSessionsLocked (w_clock w2) w2).2
  end.

Definition renameRecord (old new : string) (r : loginSessionRecord) : loginSessionRecord :=
  if decide (userName r = old)
  then mkRecord new (version r) (epoch r) (expiresAt r) (lastActivityAt r) (idleLimitMinutes r)
  else r.

Definition renameRow (new : string) (now : Z) (row : LoginSession) : LoginSession :=
  mkLoginSession new (Version row) (Epoch row) (ExpiresAt row) (LastActivityAt row)
    (IdleLimitMinutes row) (CreatedAt row) now.

Definition RenameLoginSessionUser (oldUsername newUsername : string) (w : world)
  : option sessionError * world :=
  let old := trim_space oldUsername in
  let new := trim_space newUsername in
  if decide (old = "" \/ new = "" \/ old = new) then (None, w) else
  let '(e, w1) :=
    match w_db w with
    | None => (None, w)
    | Some t =>
        let '(r, t') := tUpdate (fun _ row => bool_decide (UserName row = old))
                          (renameRow new (w_clock w)) t in
        (match r with Err _ => Some SErrStatement | Ok _ => None end, set_db t' w)
    end in
  match e with
  | Some _ => (e, w1)
  | None => (None, set_sessions (renameRecord old new <$> w_sessions w1) w1)
  end.
End Store.

Arguments world T : clear implicits.
Arguments mkWorld {T}.

(** ** The HTTP side

    A request carries the session cookie the browser holds.  The gin session
    middleware decodes it into [rq_token] and writes it back on [Save], which
    can fail ([rq_saveOk]). *)

Record cookieOptions : Type := mkOptions {
  MaxAge : Z;
  Secure : bool;
  HttpOnly : bool }.

Record request : Type := mkRequest {
  rq_token : option string;          (* LOGIN_SESSION_TOKEN in the cookie *)
  rq_options : option cookieOptions; (* the options of the last cookie written *)
  rq_user : option string;           (* c.Get(loginUserContextKey) *)
  rq_saveOk : bool;
  rq_tls : bool;                     (* c.Request.TLS != nil *)
  rq_debug : bool;                   (* config.IsDebug() *)
  rq_loopback : bool }.              (* the remote address is a loopback IP *)

Definition isLocalDebugHTTPRequest (c : request) : bool :=
  rq_debug c && negb (rq_tls c) && rq_loopback c.

Definition isPanelLoginTransportAllowed (c : option request) : bool :=
  match c with
  | None => false
  | Some c => rq_tls c || isLocalDebugHTTPRequest c
  end.

Definition sessionCookieOptions (c : request) (maxAgeSeconds : Z) : cookieOptions :=
  mkOptions (if maxAgeSeconds <=? 0 then SessionCookieCodecMaxAgeSeconds else maxAgeSeconds)
    (negb (isLocalDebugHTTPRequest c)) true.

(** [s.Clear(); s.Set(...); s.Options(...); s.Save()]. *)
Definition saveSession (token : option string) (o : cookieOptions) (c : request)
  : bool * request :=
  if rq_saveOk c
  then (true, mkRequest token (Some o) (rq_user c) true (rq_tls c) (rq_debug c) (rq_loopback c))
  else (false, c).

Definition setContextUser (user : string) (c : request) : request :=
  mkRequest (rq_token c) (rq_options c) (Some user) (rq_saveOk c) (rq_tls c) (rq_debug c)
    (rq_loopback c).

Definition clearSessionCookie (c : option request) : option request :=
  match c with
  | None => None
  | Some c =>
      let o := sessionCookieOptions c 0 in
      Some (saveSession None (mkOptions (-1) (Secure o) (HttpOnly o)) c).2
  end.

Section Handlers.
Context {T : Type} `{!Table string LoginSession T}.
Variable buildVersion : string.
Variable sha256 : list Z -> list Z.

(** [newLoginSessionToken] on the bytes [rand.Read] delivered, [None] when it failed. *)
Definition newLoginSessionToken (random : option (list Z)) : option string :=
  match random with
  | Some bytes => Some (base64_encode bytes)
  | None => None
  end.

Definition loginSessionTokenHash (token : string) : option string :=
  match base64_decode (trim_space token) with
  | Some bytes =>
      if decide (length bytes = loginSessionTokenBytes)
      then Some (hex_encode (sha256 bytes)) else None
  | None => None
  end.

(** [s.Get(loginSessionToken).(string)]. *)
Definition cookieToken (c : request) : string :=
  match rq_token c with Some t => t | None => "" end.

Record loginSessionValidation : Type := mkValidation {
  v_token : string;
  v_tokenHash : string;
  v_userName : string;
  v_reason : option sessionReason;
  v_err : option sessionError }.

Definition validationValid (v : loginSessionValidation) : bool :=
  match v_err v, v_reason v with
  | None, None => bool_decide (v_userName v <> "") && bool_decide (v_tokenHash v <> "")
  | _, _ => false
  end.

Definition rejected (r : sessionReason) (e : option sessionError) : loginSessionValidation :=
  mkValidation "" "" "" (Some r) e.

Definition validateLoginSession (c : option request) (w : world T)
  : loginSessionValidation * world T :=
  match c with
  | None => (rejected ReasonMissing None, w)
  | Some c =>
      match loginSessionTokenHash (cookieToken c) with
      | None => (rejected ReasonMissing None, w)
      | Some tokenHash =>
          match loadLoginSessionLocked buildVersion tokenHash (w_clock w) w with
          | (LoadFailed e, w') => (rejected ReasonStoreFailed (Some e), w')
          | (Rejected reason, w') => (rejected reason None, w')
          | (Found record _, w') =>
              (mkValidation (cookieToken c) tokenHash (userName record) None None, w')
          end
      end
  end.

(** [if !loginSessionReasonIsTransient(reason) { clearSessionCookie(c) }] *)
Definition dropCookieUnlessTransient (r : option sessionReason) (c : option request)
  : option request :=
  match r with
  | Some reason => if loginSessionReasonIsTransient reason then c else clearSessionCookie c
  | None => clearSessionCookie c
  end.

Definition SetLoginUser (c : option request) (user : string) (sessionMaxAgeMinutes : Z)
    (random : option (list Z)) (w : world T)
  : option sessionError * option request * world T :=
  match c with
  | None => (Some SErrContext, None, w)
  | Some rq =>
      let previousToken := cookieToken rq in
      match newLoginSessionToken random with
      | None => (Some SErrToken, c, w)
      | Some token =>
          match loginSessionTokenHash token with
          | None => (Some SErrToken, c, w)
          | Some tokenHash =>
              let now := truncateSecond (w_clock w) in
              let minutes := normalizeStoredSessionTimeoutMinutes sessionMaxAgeMinutes in
              match storeLoginSession buildVersion tokenHash user
                      (currentLoginSessionVersion buildVersion)
                      (loginSessionExpiry now minutes) now minutes w with
              | (Err e, w1) => (Some e, c, w1)
              | (Ok record, w1) =>
                  let o := sessionCookieOptions rq
                             (loginSessionCookieMaxAgeSecondsForRecord record now) in
                  match saveSession (Some token) o rq with
                  | (false, _) => (Some SErrCookie, c, removeLoginSession buildVersion tokenHash w1)
                  | (true, rq') =>
                      let w2 :=
                        match loginSessionTokenHash previousToken with
                        | Some previousHash =>
                            if decide (previousHash = tokenHash) then w1
                            else removeLoginSession buildVersion previousHash w1
                        | None => w1
                        end in
                      (None, Some rq', w2)
                  end
              end
          end
      end
  end.

Inductive refreshResult : Type :=
| Refreshed (deadlineAt : Z)
| RefreshRejected (reason : option sessionReason) (err : option sessionError).

(** [expiresAt.Unix()]. *)
Definition unixSeconds (t : Z) : Z := t / second.

Definition loginSessionStatusFromRecord (record : loginSessionRecord) : Z :=
  if expiresAt record <=? 0 then 0 else unixSeconds (expiresAt record).

Definition RefreshLoginSession (c : option request) (w : world T)
  : refreshResult * option request * world T :=
  let '(validation, w1) := validateLoginSession c w in
  if negb (validationValid validation) then
    (RefreshRejected (v_reason validation) (v_err validation),
     dropCookieUnlessTransient (v_reason validation) c, w1)
  else
    match c with
    | None => (RefreshRejected None None, c, w1)
    | Some rq =>
        let now := truncateSecond (w_clock w1) in
        match refreshLoginSession buildVersion (v_tokenHash validation) now w1 with
        | (LoadFailed e, w2) =>
            (RefreshRejected (Some ReasonStoreFailed) (Some e),
             dropCookieUnlessTransient (Some ReasonStoreFailed) c, w2)
        | (Rejected reason, w2) =>
            (RefreshRejected (Some reason) None, dropCookieUnlessTransient (Some reason) c, w2)
        | (Found record _, w2) =>
            let o := sessionCookieOptions rq
                       (loginSessionCookieMaxAgeSecondsForRecord record now) in
            match saveSession (Some (v_token validation)) o rq with
            | (false, _) =>
                (RefreshRejected (Some ReasonWriteFailed) (Some SErrCookie), c, w2)
            | (true, rq') =>
                (Refreshed (loginSessionStatusFromRecord record),
                 Some (setContextUser (v_userName validation) rq'), w2)
            end
        end
    end.

Definition GetLoginUser (c : option request) (w : world T) : string * option request * world T :=
  match (match c with Some rq => rq_user rq | None => None end) with
  | Some user => (user, c, w)
  | None =>
      let '(validation, w1) := validateLoginSession c w in
      if negb (validationValid validation)
      then ("", dropCookieUnlessTransient (v_reason validation) c, w1)
      else (v_userName validation, setContextUser (v_userName validation) <$> c, w1)
  end.

Definition IsLogin (c : option request) (w : world T) : bool * option request * world T :=
  let '(validation, w1) := validateLoginSession c w in
  if validationValid validation
  then (true, setContextUser (v_userName validation) <$> c, w1)
  else (false, dropCookieUnlessTransient (v_reason validation) c, w1).

Definition ClearSession (c : option request) (w : world T) : option request * world T :=
  let w1 :=
    match c with
    | None => w
    | Some rq =>
        match loginSessionTokenHash (cookieToken rq) with
        | Some tokenHash => removeLoginSession buildVersion tokenHash w
        | None => w
        end
    end in
  (clearSessionCookie c, w1).
End Handlers.

(** A run on a small table: log in, then validate the cookie. *)
Definition demoWorld : world (memTable string LoginSession) :=
  mkWorld "e1" ∅ false (Some (mkMem ∅ [])) (5000 * second) (Some 30).
Definition demoRequest : request := mkRequest None None None true true false false.
Definition demoBytes : list Z := replicate 32 7.
Definition demoSha : list Z -> list Z := fun l => take 4 l.

Example demo_login :
  let '(err, c, w) := SetLoginUser "1.0" demoSha (Some demoRequest) "admin" 30 (Some demoBytes) demoWorld in
  err = None /\
  fst (fst (GetLoginUser "1.0" demoSha c w)) = "admin" /\
  let '(c', w') := ClearSession "1.0" demoSha c w in
  fst (fst (GetLoginUser "1.0" demoSha c' w')) = "" /\ rq_token <$> c' = Some None.
Proof. vm_compute. auto. Qed.

(** ** What the store promises

    Abstractly the store is one map from token hashes to records: the
    sessions that are valid at a given time, wherever they are kept. *)

Section StoreFacts.
Context {T : Type} `{!Table string LoginSession T, !TableLaws string LoginSession T}.
Variable buildVersion : string.
Implicit Types (w : world T) (h : string) (r : loginSessionRecord) (row : LoginSession).

Notation valid_rec := (validRecord buildVersion).

Definition storeLookup w h : option loginSessionRecord :=
  match w_sessions w !! h with
  | Some r => Some r
  | None => loginSessionRecordFromModel <$> (dbRows w !! h)
  end.

Definition live (now : Z) w h : option loginSessionRecord :=
  match storeLookup w h with
  | Some r => if valid_rec (w_epoch w) now r then Some r else None
  | None => None
  end.

(** The representation invariant. *)
Record Inv w : Prop := {
  inv_size : memCount w <= maxInMemoryLoginSessions;
  inv_disj : forall h, w_sessions w !! h = None \/ dbRows w !! h = None;
  inv_flag : w_hasPersisted w = false -> dbRows w = ∅ }.

(** Maintenance may move and drop records but keeps, from [now] on, every
    valid session. *)
Record Keeps (now : Z) w w' : Prop := {
  keep_epoch : w_epoch w' = w_epoch w;
  keep_clock : w_clock w' = w_clock w;
  keep_maxAge : w_maxAge w' = w_maxAge w;
  keep_db : is_Some (w_db w') <-> is_Some (w_db w);
  keep_keys : forall h, storeLookup w h = None -> storeLookup w' h = None;
  keep_live : forall now' h, now <= now' -> live now' w' h = live now' w h }.

#[local] Instance Keeps_refl now : Reflexive (Keeps now).
Proof. intros w. by constructor. Qed.

#[local] Instance Keeps_trans now : Transitive (Keeps now).
Proof.
  intros w1 w2 w3 [] []. constructor; try congruence; try tauto; [auto|].
  intros. rewrite keep_live1, keep_live0 by done. done.
Qed.

Lemma valid_rec_iff ep now r :
  valid_rec ep now r = true <->
  trim_space (userName r) <> "" /\ version r = currentLoginSessionVersion buildVersion /\
  epoch r = ep /\ now < expiresAt r.
Proof.
  unfold validRecord, loginSessionRecordReasonLocked.
  destruct (decide (trim_space (userName r) = "")); [naive_solver|].
  destruct (decide _); [naive_solver|].
  destruct (decide (epoch r <> ep)); [naive_solver|].
  destruct (Z.leb_spec (expiresAt r) now); [split; [done|intros (?&?&?&?); lia]|].
  split; [|done]. intros _. split; [done|]. split; [by apply dec_stable|].
  split; [by apply dec_stable|done].
Qed.

Lemma valid_rec_earlier ep now now' r :
  now <= now' -> valid_rec ep now' r = true -> valid_rec ep now r = true.
Proof. rewrite !valid_rec_iff. intros ? (?&?&?&?). repeat split; (done || lia). Qed.

Lemma invalid_later ep now now' r :
  now <= now' -> valid_rec ep now r = false -> valid_rec ep now' r = false.
Proof.
  intros Hle Hf. destruct (valid_rec ep now' r) eqn:E; [|done].
  apply (valid_rec_earlier ep now) in E; [congruence|done].
Qed.

Lemma reason_valid ep now r :
  loginSessionRecordReasonLocked buildVersion ep r now = None <-> valid_rec ep now r = true.
Proof. unfold validRecord. by destruct (loginSessionRecordReasonLocked _ _ _ _). Qed.

Lemma reason_invalid ep now r x :
  loginSessionRecordReasonLocked buildVersion ep r now = Some x -> valid_rec ep now r = false.
Proof. unfold validRecord. by intros ->. Qed.

Lemma live_Some now w h r :
  live now w h = Some r <-> storeLookup w h = Some r /\ valid_rec (w_epoch w) now r = true.
Proof.
  unfold live. destruct (storeLookup w h) as [r'|]; [|naive_solver].
  destruct (valid_rec (w_epoch w) now r') eqn:E.
  - split; [intros Hr|intros [Hr _]]; by simplify_eq.
  - split; [done|intros [? ?]; simplify_eq; congruence].
Qed.

(** Two worlds with the same registry and the same rows are alike. *)
Lemma Keeps_same_rows now w w' :
  w_epoch w' = w_epoch w -> w_clock w' = w_clock w -> w_maxAge w' = w_maxAge w ->
  (is_Some (w_db w') <-> is_Some (w_db w)) ->
  w_sessions w' = w_sessions w -> dbRows w' = dbRows w -> Keeps now w w'.
Proof.
  intros He ? ? ? Hs Hd.
  assert (forall h, storeLookup w' h = storeLookup w h) as Hl
    by (intros h; unfold storeLookup; by rewrite Hs, Hd).
  constructor; try done; [intros h; by rewrite Hl|].
  intros now' h _. unfold live. by rewrite He, Hl.
Qed.

Lemma dbRows_set_db t w : dbRows (set_db t w) = rows t.
Proof. done. Qed.

Lemma Keeps_set_db now t t' w :
  w_db w = Some t -> rows t' = rows t -> Keeps now w (set_db t' w).
Proof.
  intros Hdb Hr. apply Keeps_same_rows; [done..| |done|].
  - rewrite Hdb. simpl. split; by eexists.
  - rewrite dbRows_set_db, Hr. unfold dbRows. by rewrite Hdb.
Qed.

Lemma Inv_set_db t t' w : w_db w = Some t -> rows t' = rows t -> Inv w -> Inv (set_db t' w).
Proof.
  intros Hdb Hr []. assert (dbRows w = rows t) as Hw by (unfold dbRows; by rewrite Hdb).
  rewrite Hw in *. constructor; rewrite ?dbRows_set_db, ?Hr; done.
Qed.

(** Removing one row. *)
Lemma Keeps_delete_row now h row t t' w :
  w_db w = Some t -> rows t !! h = Some row -> rows t' = delete h (rows t) ->
  w_sessions w !! h = None ->
  valid_rec (w_epoch w) now (loginSessionRecordFromModel row) = false ->
  Keeps now w (set_db t' w).
Proof.
  intros Hdb Hrow Hr Hs Hval. constructor; try done.
  { intros h'. unfold storeLookup, dbRows. simpl. rewrite Hdb, Hr.
    destruct (w_sessions w !! h'); [done|]. rewrite !fmap_None, lookup_delete_None. tauto. }
  intros now' h' Hle. unfold live, storeLookup. simpl.
  rewrite dbRows_set_db, Hr. unfold dbRows. rewrite Hdb.
  destruct (decide (h = h')) as [<-|Hne].
  - rewrite Hs, lookup_delete_eq, Hrow. simpl. by rewrite (invalid_later _ _ _ _ Hle Hval).
  - by rewrite lookup_delete_ne.
Qed.

Lemma Inv_delete_row h t t' w :
  w_db w = Some t -> rows t' = delete h (rows t) -> Inv w -> Inv (set_db t' w).
Proof.
  intros Hdb Hr [? Hdisj Hflag].
  assert (dbRows w = rows t) as Hw by (unfold dbRows; by rewrite Hdb).
  constructor; rewrite ?dbRows_set_db, ?Hr; simpl; [done| |].
  - intros h'. destruct (Hdisj h'); [by left|]. right. rewrite <- Hw, lookup_delete_None. by right.
  - intros Hf. rewrite <- Hw, (Hflag Hf). by rewrite delete_empty.
Qed.

(** Moving one row into memory. *)
Lemma Keeps_move_row now h row t t' w :
  w_db w = Some t -> rows t !! h = Some row -> rows t' = delete h (rows t) ->
  w_sessions w !! h = None ->
  Keeps now w (set_sessions (<[h := loginSessionRecordFromModel row]> (w_sessions w)) (set_db t' w)).
Proof.
  intros Hdb Hrow Hr Hs.
  set (w' := set_sessions _ _).
  assert (forall h', storeLookup w' h' = storeLookup w h') as Hl.
  { intros h'. subst w'. unfold storeLookup, dbRows. simpl. rewrite Hdb, Hr.
    destruct (decide (h = h')) as [<-|Hne].
    - by rewrite lookup_insert_eq, Hs, Hrow.
    - by rewrite lookup_insert_ne, lookup_delete_ne by done. }
  constructor; try done; [intros h'; by rewrite Hl|].
  intros now' h' _. unfold live. by rewrite Hl.
Qed.

Lemma Inv_move_row h row t t' w :
  w_db w = Some t -> rows t !! h = Some row -> rows t' = delete h (rows t) ->
  memCount w < maxInMemoryLoginSessions -> Inv w ->
  Inv (set_sessions (<[h := loginSessionRecordFromModel row]> (w_sessions w)) (set_db t' w)).
Proof.
  intros Hdb Hrow Hr Hlt Hinv. pose proof Hinv as [? Hdisj Hflag].
  assert (dbRows w = rows t) as Hw by (unfold dbRows; by rewrite Hdb).
  assert (w_sessions w !! h = None) as Hs.
  { destruct (Hdisj h) as [?|Hn]; [done|]. rewrite Hw in Hn. congruence. }
  constructor; unfold memCount in *; simpl.
  - rewrite map_size_insert_None by done. lia.
  - intros h'. unfold dbRows. simpl. rewrite Hr, lookup_insert_None, lookup_delete_None.
    destruct (decide (h = h')) as [<-|Hne]; [by right; left|].
    destruct (Hdisj h') as [?|Hn]; [by left|]. right. right. by rewrite <- Hw.
  - intros Hf. unfold dbRows. simpl. rewrite Hr, <- Hw, (Hflag Hf). by rewrite delete_empty.
Qed.

(** ** Maintenance *)

Lemma prune_spec now w :
  Inv w ->
  let w' := pruneExpiredLoginSessionsLocked buildVersion now w in
  Inv w' /\ Keeps now w w' /\ w_db w' = w_db w.
Proof.
  intros [Hsz Hdisj Hflag]. cbn. split; [|split; [|done]].
  - constructor; [|intros h|done]; unfold memCount in *; simpl.
    + etrans; [|exact Hsz]. apply inj_le, map_subseteq_size, map_filter_subseteq.
    + destruct (Hdisj h) as [Hn|Hn]; [left|by right].
      apply map_lookup_filter_None. by left.
  - constructor; try done.
    { intros h. unfold storeLookup. simpl. destruct (w_sessions w !! h) eqn:E; [done|].
      by rewrite map_lookup_filter_None_2 by (by left). }
    intros now' h Hle. unfold live, storeLookup. simpl.
    destruct (w_sessions w !! h) as [r|] eqn:E.
    + destruct (valid_rec (w_epoch w) now r) eqn:Ev.
      * by rewrite (map_lookup_filter_Some_2 _ _ _ r) by done.
      * rewrite map_lookup_filter_None_2.
        2:{ right. intros x Hx. simplify_eq. simpl. congruence. }
        assert (dbRows w !! h = None) as Hd by (destruct (Hdisj h); [congruence|done]).
        unfold dbRows in *. simpl. rewrite Hd. simpl. by rewrite (invalid_later _ _ _ _ Hle Ev).
    + rewrite map_lookup_filter_None_2 by (by left). done.
Qed.

Lemma delete_by_hash_ok h (t : T) :
  (tDelete (byHash h) t).1 = None -> rows (tDelete (byHash h) t).2 = delete h (rows t).
Proof. intros Hd%delete_ok. rewrite Hd. apply deleteRows_key. Qed.

(** One row taken out of the table: dropped when stale, moved when valid. *)
Lemma refill_take now h row t t2 w :
  Inv w -> w_db w = Some t -> rows t !! h = Some row -> rows t2 = delete h (rows t) ->
  memCount w < maxInMemoryLoginSessions ->
  let record := loginSessionRecordFromModel row in
  let w2 := set_db t2 w in
  let next := match loginSessionRecordReasonLocked buildVersion (w_epoch w) record now with
              | Some _ => w2
              | None => set_sessions (<[h := record]> (w_sessions w2)) w2
              end in
  Inv next /\ Keeps now w next /\ dbRows next = delete h (rows t).
Proof.
  intros Hinv Hdb Hrow Hdel Hlt. cbv zeta.
  assert (Hs : w_sessions w !! h = None).
  { destruct (inv_disj _ Hinv h) as [?|Hx]; [done|].
    unfold dbRows in Hx. rewrite Hdb in Hx. congruence. }
  destruct (loginSessionRecordReasonLocked _ _ _ _) eqn:Hreason.
  - split; [by eapply Inv_delete_row|]. split; [|done].
    eapply (Keeps_delete_row now h row t t2 w); try done. by eapply reason_invalid.
  - split; [by apply (Inv_move_row h row t t2 w)|]. split; [|done].
    by apply (Keeps_move_row now h row t t2 w).
Qed.

(** The loop never runs out of fuel, keeps every valid session, and stops
    without error only when memory is full or the table is empty. *)
Definition refilled now w (out : option sessionError * world T) : Prop :=
  out.1 <> Some SErrFuel /\ Inv out.2 /\ Keeps now w out.2 /\
  (out.1 = None -> memCount out.2 = maxInMemoryLoginSessions \/ dbRows out.2 = ∅).

Lemma refilled_after now w w1 out : Keeps now w w1 -> refilled now w1 out -> refilled now w out.
Proof. intros Hk (? & ? & Hk' & ?). split; [done|]. split; [done|]. split; [by etrans|done]. Qed.

Lemma refill_loop_spec now n : forall w,
  (size (dbRows w) < n)%nat -> Inv w -> refilled now w (refill_loop buildVersion n now w).
Proof.
  induction n as [|n IH]; intros w Hn Hinv; [lia|]. cbn [refill_loop].
  destruct (w_db w) as [t|] eqn:Hdb.
  2:{ split; [done|]. split; [done|]. split; [done|]. right. cbn. unfold dbRows. by rewrite Hdb. }
  assert (dbRows w = rows t) as Hw by (unfold dbRows; by rewrite Hdb).
  destruct (Z.ltb_spec (memCount w) maxInMemoryLoginSessions) as [Hlt|Hge].
  2:{ split; [done|]. split; [done|]. split; [done|]. left.
      pose proof (inv_size _ Hinv). cbn. lia. }
  pose proof (top_rows UpdatedAt t) as Htr. pose proof (top_none UpdatedAt t) as Htn.
  pose proof (top_some UpdatedAt t) as Hts.
  destruct (tTop UpdatedAt t) as [cand t1]. simpl in Htr, Htn, Hts.
  pose proof (Inv_set_db t t1 w Hdb Htr Hinv) as Hinv1.
  pose proof (Keeps_set_db now t t1 w Hdb Htr) as Hk1.
  destruct cand as [[[h row]|]|e]; [|specialize (Htn eq_refl)|].
  - destruct (Hts h row eq_refl) as [Hrow _].
    pose proof (delete_by_hash_ok h t1) as Hdel. pose proof (delete_err (byHash h) t1) as Hderr.
    destruct (tDelete (byHash h) t1) as [[e|] t2]; simpl in Hdel, Hderr.
    { assert (rows t2 = rows t) as Hr2 by (rewrite (Hderr e eq_refl); done).
      destruct (loginSessionRecordReasonLocked _ _ _ _);
        (split; [done|]; split; [by apply (Inv_set_db t t2 w)|];
         split; [by apply (Keeps_set_db now t t2 w)|done]). }
    specialize (Hdel eq_refl). rewrite Htr in Hdel.
    destruct (refill_take now h row t t2 w Hinv Hdb Hrow Hdel Hlt) as (Hi & Hk & Hd).
    change (set_db t2 (set_db t1 w)) with (set_db t2 w).
    assert (Hsz : (size (delete h (rows t)) < n)%nat).
    { rewrite Hw, (map_size_delete_lookup _ h row Hrow) in Hn. lia. }
    destruct (loginSessionRecordReasonLocked _ _ _ _);
      (eapply refilled_after; [exact Hk|]; apply IH; [by rewrite Hd|exact Hi]).
  - split; [done|]. split; [|split].
    + destruct Hinv1. constructor; try done. intros _. rewrite <- Htn, <- Htr. done.
    + etrans; [exact Hk1|]. by apply Keeps_same_rows.
    + intros _. right. rewrite <- Htn, <- Htr. done.
  - split; [done|]. split; [done|]. by split.
Qed.

Lemma refill_spec now w :
  Inv w -> refilled now w (refillInMemoryLoginSessionsLocked buildVersion now w).
Proof. intros Hinv. apply refill_loop_spec; [lia|done]. Qed.

(** ** Single-session operations

    [Effect now h o w w']: from [now] on, the session [h] is [o] and no
    other session changed. *)

Definition liveOf ep now (o : option loginSessionRecord) : option loginSessionRecord :=
  match o with
  | Some r => if valid_rec ep now r then Some r else None
  | None => None
  end.

Record Effect (now : Z) h (o : option loginSessionRecord) w w' : Prop := {
  eff_epoch : w_epoch w' = w_epoch w;
  eff_clock : w_clock w' = w_clock w;
  eff_live : forall now' h', now <= now' ->
    live now' w' h' = if decide (h' = h) then liveOf (w_epoch w) now' o else live now' w h' }.

Lemma Keeps_Effect now h o w1 w2 w3 :
  Keeps now w1 w2 -> Effect now h o w2 w3 -> Effect now h o w1 w3.
Proof.
  intros [] []. constructor; [congruence..|]. intros now' h' Hle.
  rewrite eff_live0, keep_epoch0, keep_live0 by done. done.
Qed.

Lemma Effect_Keeps now h o w1 w2 w3 :
  Effect now h o w1 w2 -> Keeps now w2 w3 -> Effect now h o w1 w3.
Proof.
  intros [] []. constructor; [congruence..|]. intros now' h' Hle.
  by rewrite keep_live0, eff_live0 by done.
Qed.

Lemma Effect_lookup now h o w w' :
  w_epoch w' = w_epoch w -> w_clock w' = w_clock w ->
  storeLookup w' h = o -> (forall h', h' <> h -> storeLookup w' h' = storeLookup w h') ->
  Effect now h o w w'.
Proof.
  intros He Hc Ho Hne. constructor; try done. intros now' h' _.
  unfold live. rewrite He. destruct (decide (h' = h)) as [->|Hd]; [by rewrite Ho|by rewrite Hne].
Qed.

Lemma deletePersisted_spec h w :
  Inv w ->
  let '(e, w') := deletePersistedLoginSessionLocked h w in
  Inv w' /\ w_epoch w' = w_epoch w /\ w_clock w' = w_clock w /\ w_maxAge w' = w_maxAge w /\
  w_sessions w' = w_sessions w /\ w_hasPersisted w' = w_hasPersisted w /\
  (is_Some (w_db w') <-> is_Some (w_db w)) /\
  (e = None -> dbRows w' = delete h (dbRows w)) /\
  (e <> None -> dbRows w' = dbRows w /\ e = Some SErrStatement).
Proof.
  intros Hinv. unfold deletePersistedLoginSessionLocked.
  destruct (w_db w) as [t|] eqn:Hdb.
  2:{ split; [done|]. do 5 (split; [done|]). split; [by rewrite Hdb|]. split; [|done].
      intros _. unfold dbRows. rewrite Hdb. by rewrite delete_empty. }
  assert (dbRows w = rows t) as Hw by (unfold dbRows; by rewrite Hdb).
  pose proof (delete_by_hash_ok h t) as Hdel. pose proof (delete_err (byHash h) t) as Hderr.
  destruct (tDelete (byHash h) t) as [[e|] t']; simpl in *.
  - specialize (Hderr e eq_refl). split; [by apply (Inv_set_db t)|].
    do 5 (split; [done|]). split; [by split; eexists|]. split; [done|].
    intros _. split; [by rewrite dbRows_set_db, Hderr|done].
  - specialize (Hdel eq_refl). split; [by apply (Inv_delete_row h t)|].
    do 5 (split; [done|]). split; [by split; eexists|].
    split; [|done]. intros _. by rewrite dbRows_set_db, Hdel, Hw.
Qed.

(** What a lookup reports. *)
Definition loadReport now h w (out : loaded) w' : Prop :=
  match out with
  | Found r loginSessionStorageMemory =>
      live now w h = Some r /\ w_sessions w' !! h = Some r
  | Found r loginSessionStorageDatabase =>
      live now w h = Some r /\ w_sessions w' !! h = None /\
      loginSessionRecordFromModel <$> (dbRows w' !! h) = Some r
  | Rejected reason => live now w h = None /\ loginSessionReasonIsTransient reason = false
  | LoadFailed e => e = SErrStatement
  end.

Lemma reason_not_transient ep r now x :
  loginSessionRecordReasonLocked buildVersion ep r now = Some x ->
  loginSessionReasonIsTransient x = false.
Proof. unfold loginSessionRecordReasonLocked. intros H. repeat case_match; by simplify_eq. Qed.

Lemma load_memory_spec now h w r :
  Inv w -> w_sessions w !! h = Some r ->
  let '(out, w') := loadLoginSessionLocked buildVersion h now w in
  Inv w' /\ Keeps now w w' /\ loadReport now h w out w'.
Proof.
  intros Hinv Hm. unfold loadLoginSessionLocked. rewrite Hm.
  assert (Hlive : live now w h = liveOf (w_epoch w) now (Some r))
    by (unfold live, storeLookup; by rewrite Hm).
  destruct (loginSessionRecordReasonLocked _ _ _ _) as [x|] eqn:Hr.
  - pose proof (reason_invalid _ _ _ _ Hr) as Hv.
    set (w1 := set_sessions (delete h (w_sessions w)) w).
    assert (dbRows w !! h = None) as Hd by (destruct (inv_disj _ Hinv h); [congruence|done]).
    assert (Inv w1) as Hinv1.
    { destruct Hinv as [Hsz Hdj Hfl]. constructor; [|intros h'|done]; unfold memCount in *; simpl.
      - rewrite (map_size_delete_lookup _ h r Hm) in Hsz. lia.
      - destruct (Hdj h') as [Hn|Hn]; [left; by rewrite lookup_delete_None; right|by right]. }
    assert (Keeps now w w1) as Hk1.
    { constructor; try done.
      - intros h'. unfold storeLookup. simpl. destruct (decide (h = h')) as [<-|].
        + by rewrite Hm.
        + by rewrite lookup_delete_ne.
      - intros now' h' Hle. unfold live, storeLookup. simpl. destruct (decide (h = h')) as [<-|].
        + rewrite lookup_delete_eq, Hm. unfold dbRows in *. simpl. rewrite Hd. simpl.
          by rewrite (invalid_later _ _ _ _ Hle Hv).
        + by rewrite lookup_delete_ne. }
    destruct (refill_spec now w1 Hinv1) as (_ & ? & Hk & _).
    split; [done|]. split; [by etrans|]. split; [|by eapply reason_not_transient].
    rewrite Hlive. simpl. by rewrite Hv.
  - apply reason_valid in Hr. split; [done|]. split; [done|].
    split; [|done]. rewrite Hlive. simpl. by rewrite Hr.
Qed.

(** A row that is no longer valid may disappear. *)
Lemma Keeps_drop now h row w w' :
  w_epoch w' = w_epoch w -> w_clock w' = w_clock w -> w_maxAge w' = w_maxAge w ->
  (is_Some (w_db w') <-> is_Some (w_db w)) -> w_sessions w' = w_sessions w ->
  dbRows w' = delete h (dbRows w) -> dbRows w !! h = Some row ->
  w_sessions w !! h = None ->
  valid_rec (w_epoch w) now (loginSessionRecordFromModel row) = false -> Keeps now w w'.
Proof.
  intros He Hc Hm Hdb Hs Hr Hrow Hn Hv. constructor; try done.
  - intros h'. unfold storeLookup. rewrite Hs, Hr.
    destruct (w_sessions w !! h'); [done|]. rewrite !fmap_None, lookup_delete_None. tauto.
  - intros now' h' Hle. unfold live, storeLookup. rewrite He, Hs, Hr.
    destruct (decide (h = h')) as [<-|Hne]; [|by rewrite lookup_delete_ne].
    rewrite Hn, lookup_delete_eq, Hrow. simpl. by rewrite (invalid_later _ _ _ _ Hle Hv).
Qed.

(** A row may move into memory. *)
Lemma Keeps_promote now h row w w' :
  w_epoch w' = w_epoch w -> w_clock w' = w_clock w -> w_maxAge w' = w_maxAge w ->
  (is_Some (w_db w') <-> is_Some (w_db w)) ->
  w_sessions w' = <[h := loginSessionRecordFromModel row]> (w_sessions w) ->
  dbRows w' = delete h (dbRows w) -> dbRows w !! h = Some row ->
  w_sessions w !! h = None -> Keeps now w w'.
Proof.
  intros He Hc Hm Hdb Hs Hr Hrow Hn.
  assert (forall h', storeLookup w' h' = storeLookup w h') as Hl.
  { intros h'. unfold storeLookup. rewrite Hs, Hr.
    destruct (decide (h = h')) as [<-|Hne].
    - by rewrite lookup_insert_eq, Hn, Hrow.
    - by rewrite lookup_insert_ne, lookup_delete_ne by done. }
  constructor; try done; [intros h'; by rewrite Hl|].
  intros now' h' _. unfold live. by rewrite He, Hl.
Qed.

(** Adding a session that is not in the table. *)
Lemma Inv_insert h r w :
  Inv w -> dbRows w !! h = None -> memCount w < maxInMemoryLoginSessions ->
  Inv (set_sessions (<[h := r]> (w_sessions w)) w).
Proof.
  intros [Hsz Hdj Hfl] Hn Hlt. constructor; [|intros h'|done]; unfold memCount in *; simpl.
  - rewrite map_size_insert. destruct (w_sessions w !! h); simpl; lia.
  - destruct (decide (h = h')) as [<-|Hne]; [by right|].
    destruct (Hdj h'); [left|by right]. by rewrite lookup_insert_ne.
Qed.

Lemma load_row_spec now h w row :
  Inv w -> w_sessions w !! h = None -> dbRows w !! h = Some row ->
  let record := loginSessionRecordFromModel row in
  let '(out, w') :=
    match loginSessionRecordReasonLocked buildVersion (w_epoch w) record now with
    | Some reason =>
        match deletePersistedLoginSessionLocked h w with
        | (Some e, w2) => (LoadFailed e, w2)
        | (None, w2) => (Rejected reason, w2)
        end
    | None =>
        if memCount w <? maxInMemoryLoginSessions then
          match deletePersistedLoginSessionLocked h w with
          | (None, w2) =>
              (Found record loginSessionStorageMemory,
               set_sessions (<[h := record]> (w_sessions w2)) w2)
          | (Some _, w2) => (Found record loginSessionStorageDatabase, w2)
          end
        else (Found record loginSessionStorageDatabase, w)
    end in
  Inv w' /\ Keeps now w w' /\ loadReport now h w out w'.
Proof.
  intros Hinv Hn Hrow. cbv zeta.
  assert (Hlive : live now w h =
                  liveOf (w_epoch w) now (Some (loginSessionRecordFromModel row)))
    by (unfold live, storeLookup; by rewrite Hn, Hrow).
  pose proof (deletePersisted_spec h w Hinv) as Hdel.
  destruct (deletePersistedLoginSessionLocked h w) as [e w2].
  destruct Hdel as (Hi2 & He2 & Hc2 & Hm2 & Hs2 & _ & Hdb2 & Hok & Hbad).
  assert (Hsame : e <> None -> Keeps now w w2).
  { intros H. apply Hbad in H as [? _]. by apply Keeps_same_rows. }
  destruct (loginSessionRecordReasonLocked _ _ _ _) as [x|] eqn:Hr.
  - destruct e as [e|].
    + split; [done|]. split; [by apply Hsame|]. simpl.
      destruct (Hbad ltac:(done)) as [_ ?]. by simplify_eq.
    + split; [done|]. split.
      * eapply (Keeps_drop now h row); try done; [by apply Hok|by eapply reason_invalid].
      * split; [|by eapply reason_not_transient]. rewrite Hlive. simpl.
        by rewrite (reason_invalid _ _ _ _ Hr).
  - apply reason_valid in Hr.
    assert (live now w h = Some (loginSessionRecordFromModel row)) as Hl
      by (rewrite Hlive; simpl; by rewrite Hr).
    destruct (Z.ltb_spec (memCount w) maxInMemoryLoginSessions) as [Hlt|_].
    2:{ split; [done|]. split; [done|]. split; [done|]. split; [done|]. by rewrite Hrow. }
    destruct e as [e|].
    + split; [done|]. split; [by apply Hsame|]. split; [done|].
      destruct (Hbad ltac:(done)) as [Hd _]. rewrite Hs2, Hd. split; [done|]. by rewrite Hrow.
    + specialize (Hok eq_refl). split; [|split].
      * apply Inv_insert; [done| |unfold memCount in *; by rewrite Hs2].
        rewrite Hok. apply lookup_delete_eq.
      * apply (Keeps_promote now h row); try done. simpl. by rewrite Hs2.
      * split; [done|]. simpl. apply lookup_insert_eq.
Qed.

Lemma load_spec now h w :
  Inv w ->
  let '(out, w') := loadLoginSessionLocked buildVersion h now w in
  Inv w' /\ Keeps now w w' /\ loadReport now h w out w'.
Proof.
  intros Hinv. destruct (w_sessions w !! h) as [r|] eqn:Hm; [by eapply load_memory_spec|].
  unfold loadLoginSessionLocked. rewrite Hm. destruct (w_db w) as [t|] eqn:Hdb.
  2:{ split; [done|]. split; [done|]. split; [|done]. unfold live, storeLookup, dbRows.
      by rewrite Hm, Hdb. }
  assert (dbRows w = rows t) as Hw by (unfold dbRows; by rewrite Hdb).
  pose proof (find_rows h t) as Hfr. pose proof (find_ok h t) as Hfo.
  destruct (tFind h t) as [found t1]. simpl in Hfr, Hfo.
  pose proof (Inv_set_db t t1 w Hdb Hfr Hinv) as Hinv1.
  pose proof (Keeps_set_db now t t1 w Hdb Hfr) as Hk1.
  destruct found as [[row|]|e]; [| |by repeat split; try apply Hinv1; try apply Hk1].
  - specialize (Hfo _ eq_refl).
    assert (dbRows (set_db t1 w) !! h = Some row) as Hrow by (rewrite dbRows_set_db, Hfr; done).
    pose proof (load_row_spec now h (set_db t1 w) row Hinv1 Hm Hrow) as Hl. cbv zeta in Hl.
    simpl in Hl |- *. destruct (loginSessionRecordReasonLocked _ _ _ _);
      [destruct (deletePersistedLoginSessionLocked h (set_db t1 w)) as [[] ?]
      |destruct (_ <? _); [destruct (deletePersistedLoginSessionLocked h (set_db t1 w)) as [[] ?]|]];
      destruct Hl as (? & Hk & Hrep); (split; [done|]; split; [by etrans|]);
      unfold loadReport in *; rewrite ?(keep_live _ _ _ Hk1 now h) in Hrep by lia; done.
  - specialize (Hfo _ eq_refl). split; [done|]. split; [done|]. split; [|done].
    unfold live, storeLookup. by rewrite Hm, Hw, <- Hfo.
Qed.

Lemma storeLookup_None h w :
  storeLookup w h = None <-> w_sessions w !! h = None /\ dbRows w !! h = None.
Proof.
  unfold storeLookup. destruct (w_sessions w !! h); [naive_solver|].
  rewrite fmap_None. tauto.
Qed.

(** Stored idle limits are already effective, so reading a row back gives
    the record that was written. *)
Lemma effective_idemp v :
  EffectiveSessionMaxAgeMinutes (EffectiveSessionMaxAgeMinutes v) =
  EffectiveSessionMaxAgeMinutes v.
Proof. unfold EffectiveSessionMaxAgeMinutes, sessionMaxAgeMaxMinutes. zcases; lia. Qed.

Lemma model_roundtrip r now :
  idleLimitMinutes r = EffectiveSessionMaxAgeMinutes (idleLimitMinutes r) ->
  loginSessionRecordFromModel (loginSessionModel r now) = r.
Proof.
  intros Hi. destruct r. unfold loginSessionRecordFromModel. simpl in *.
  unfold normalizeStoredSessionTimeoutMinutes. by rewrite <- Hi.
Qed.

Lemma save_spec h r w :
  Inv w -> storeLookup w h = None ->
  idleLimitMinutes r = EffectiveSessionMaxAgeMinutes (idleLimitMinutes r) ->
  let '(e, w') := savePersistedLoginSessionLocked h r w in
  Inv w' /\ forall now, (e = None -> Effect now h (Some r) w w') /\
                      (e <> None -> Keeps now w w').
Proof.
  intros Hinv [Hm Hd]%storeLookup_None Hi. unfold savePersistedLoginSessionLocked.
  destruct (w_db w) as [t|] eqn:Hdb; [|by split].
  assert (dbRows w = rows t) as Hw by (unfold dbRows; by rewrite Hdb).
  pose proof (create_ok h (loginSessionModel r (w_clock w)) t) as Hok.
  pose proof (create_err h (loginSessionModel r (w_clock w)) t) as Hbad.
  destruct (tCreate h _ t) as [[e|] t']; simpl in Hok, Hbad.
  - specialize (Hbad e eq_refl). split; [by apply (Inv_set_db t)|].
    intros now. split; [done|]. intros _. by apply (Keeps_set_db now t).
  - destruct (Hok eq_refl) as [_ Hr]. split.
    + destruct Hinv as [Hsz Hdj Hfl]. constructor; [done|intros h'|done].
      change (dbRows _) with (rows t'). simpl. rewrite Hr, <- Hw.
      destruct (decide (h = h')) as [<-|Hne]; [by left|]. by rewrite lookup_insert_ne.
    + intros now. split; [|done]. intros _. apply Effect_lookup; [done|done| |].
      * unfold storeLookup. change (dbRows _) with (rows t'). simpl.
        rewrite Hm, Hr, lookup_insert_eq. simpl. by rewrite model_roundtrip.
      * intros h' Hne. unfold storeLookup. rewrite Hw. unfold dbRows. simpl.
        by rewrite Hr, lookup_insert_ne by congruence.
Qed.

Lemma store_spec h user ver expires last idle w :
  Inv w -> storeLookup w h = None -> idle = EffectiveSessionMaxAgeMinutes idle ->
  let '(out, w') := storeLoginSession buildVersion h user ver expires last idle w in
  Inv w' /\
  match out with
  | Ok r => r = mkRecord user ver (w_epoch w) expires last idle /\
            Effect (w_clock w) h (Some r) w w'
  | Err _ => Keeps (w_clock w) w w'
  end.
Proof.
  intros Hinv Hfresh Hi. unfold storeLoginSession.
  destruct (prune_spec (w_clock w) w Hinv) as (Hi1 & Hk1 & _).
  set (w1 := pruneExpiredLoginSessionsLocked buildVersion (w_clock w) w) in *.
  pose proof (refill_spec (w_clock w) w1 Hi1) as Hrefill.
  destruct (refillInMemoryLoginSessionsLocked buildVersion (w_clock w) w1) as [e w2].
  destruct Hrefill as (_ & Hi2 & Hk2 & _). simpl in Hi2, Hk2.
  assert (Keeps (w_clock w) w w2) as Hk by (by etrans).
  assert (storeLookup w2 h = None) as Hfresh2 by (by apply (keep_keys _ _ _ Hk)).
  rewrite (keep_epoch _ _ _ Hk).
  set (r := mkRecord user ver (w_epoch w) expires last idle).
  destruct (Z.ltb_spec (memCount w2) maxInMemoryLoginSessions) as [Hlt|_].
  - split; [apply Inv_insert; [done|by apply storeLookup_None in Hfresh2 as [? ?]|done]|].
    split; [done|]. eapply Keeps_Effect; [exact Hk|]. apply Effect_lookup; try done.
    + unfold storeLookup. simpl. by rewrite lookup_insert_eq.
    + intros h' Hne. unfold storeLookup. simpl. by rewrite lookup_insert_ne by congruence.
  - pose proof (save_spec h r w2 Hi2 Hfresh2 Hi) as Hsave.
    destruct (savePersistedLoginSessionLocked h r w2) as [[e'|] w3];
      destruct Hsave as [Hi3 Heff]; (split; [done|]); specialize (Heff (w_clock w)) as [Ha Hb].
    + etrans; [exact Hk|]. by apply Hb.
    + split; [done|]. eapply Keeps_Effect; [exact Hk|]. by apply Ha.
Qed.

(** Logging out removes the session, or the table refused and it stays in
    the table. *)
Lemma remove_spec h w :
  Inv w -> h <> "" ->
  let w' := removeLoginSession buildVersion h w in
  Inv w' /\ (Effect (w_clock w) h None w w' \/
             (is_Some (dbRows w !! h) /\ Keeps (w_clock w) w w')).
Proof.
  intros Hinv Hh. unfold removeLoginSession. rewrite decide_False by done.
  set (w1 := set_sessions (delete h (w_sessions w)) w).
  assert (Inv w1) as Hi1.
  { destruct Hinv as [Hsz Hdj Hfl]. constructor; [|intros h'|done]; unfold memCount in *; simpl.
    - pose proof (map_subseteq_size _ _ (delete_subseteq (w_sessions w) h)). lia.
    - destruct (Hdj h') as [Hn|Hn]; [left; by rewrite lookup_delete_None; right|by right]. }
  pose proof (deletePersisted_spec h w1 Hi1) as Hdel.
  destruct (deletePersistedLoginSessionLocked h w1) as [e w2].
  destruct Hdel as (Hi2 & He2 & Hc2 & Hm2 & Hs2 & _ & Hdb2 & Hok & Hbad).
  simpl in He2, Hc2, Hm2, Hs2. assert (dbRows w1 = dbRows w) as Hd1 by done.
  rewrite Hd1 in Hok, Hbad.
  assert (Hgone : dbRows w2 !! h = None ->
    (forall h', h' <> h -> dbRows w2 !! h' = dbRows w !! h') -> Effect (w_clock w) h None w w2).
  { intros Hd Ho. apply Effect_lookup; [done|done| |].
    - unfold storeLookup. by rewrite Hs2, lookup_delete_eq, Hd.
    - intros h' Hne. unfold storeLookup. by rewrite Hs2, lookup_delete_ne, Ho by congruence. }
  destruct e as [e|].
  - destruct (Hbad ltac:(done)) as [Hd _]. split; [done|].
    destruct (dbRows w !! h) as [row|] eqn:Hrow.
    + right. split; [by eexists|].
      assert (w_sessions w !! h = None) as Hn
        by (destruct (inv_disj _ Hinv h); [done|congruence]).
      apply Keeps_same_rows; try done. by rewrite Hs2, delete_id.
    + left. apply Hgone; [by rewrite Hd|]. intros. by rewrite Hd.
  - specialize (Hok eq_refl). rewrite Hc2.
    destruct (refill_spec (w_clock w) w2 Hi2) as (_ & ? & Hk & _).
    split; [done|]. left. eapply Effect_Keeps; [|exact Hk].
    apply Hgone; [rewrite Hok; apply lookup_delete_eq|].
    intros h' Hne. by rewrite Hok, lookup_delete_ne.
Qed.

(** The refreshed record keeps the identity and moves the deadline. *)
Lemma updatePersisted_spec h r row now w :
  Inv w -> w_sessions w !! h = None -> dbRows w !! h = Some row ->
  userName r = UserName row -> version r = Version row -> epoch r = Epoch row ->
  idleLimitMinutes r = EffectiveSessionMaxAgeMinutes (idleLimitMinutes r) ->
  let '(e, w') := updatePersistedLoginSessionLocked h r w in
  Inv w' /\ (e = None -> Effect now h (Some r) w w') /\
  (e <> None -> Keeps now w w' \/ Effect now h (Some r) w w').
Proof.
  intros Hinv Hn Hrow Hu Hv He Hi. unfold updatePersistedLoginSessionLocked.
  destruct (w_db w) as [t|] eqn:Hdb; [|unfold dbRows in Hrow; by rewrite Hdb in Hrow].
  assert (dbRows w = rows t) as Hw by (unfold dbRows; by rewrite Hdb).
  pose proof (update_ok (byHash h) (touchRow r (w_clock w)) t) as Hok.
  pose proof (update_err (byHash h) (touchRow r (w_clock w)) t) as Hbad.
  destruct (tUpdate _ _ t) as [[n|e] t1]; simpl in Hok, Hbad.
  2:{ specialize (Hbad e eq_refl). split; [by apply (Inv_set_db t)|]. split; [done|].
      intros _. left. by apply (Keeps_set_db now t). }
  destruct (Hok n eq_refl) as [Hr _].
  assert (Hgood : forall t', rows t' = rows t1 ->
    Inv (set_db t' w) /\ Effect now h (Some r) w (set_db t' w)).
  { intros t' Ht'. rewrite Hr, <- Hw in Ht'. split.
    - destruct Hinv as [Hsz Hdj Hfl]. constructor; [done|intros h'|intros Hf];
        rewrite dbRows_set_db, Ht'; simpl.
      + destruct (Hdj h') as [|Hx]; [by left|]. right. by rewrite lookup_updateRows, Hx.
      + rewrite (Hfl Hf) in Hrow. done.
    - apply Effect_lookup; [done|done| |]; unfold storeLookup; simpl;
        [rewrite Hn|intros h' Hne; destruct (w_sessions w !! h'); [done|]];
        rewrite dbRows_set_db, Ht', lookup_updateRows.
      + rewrite Hrow. simpl. unfold byHash. rewrite bool_decide_eq_true_2 by done.
        f_equal. destruct r. unfold loginSessionRecordFromModel, touchRow. simpl in *.
        unfold normalizeStoredSessionTimeoutMinutes. rewrite <- Hi. by subst.
      + destruct (dbRows w !! h'); [|done]. simpl. unfold byHash.
        by rewrite bool_decide_eq_false_2 by done. }
  destruct (negb (n =? 0)).
  { destruct (Hgood t1 eq_refl) as [? ?]. by split. }
  pose proof (count_rows (byHash h) t1) as Hcr.
  destruct (tCount (byHash h) t1) as [[c|e] t2]; simpl in Hcr;
    destruct (Hgood t2 Hcr) as [? ?]; change (set_db t2 (set_db t1 w)) with (set_db t2 w).
  - destruct (c =? 0); (split; [done|]; split; [done|]); [by right|done].
  - split; [done|]. split; [done|]. by right.
Qed.

Lemma refreshedRecord_keeps now r w w1 :
  Keeps now w w1 -> refreshedRecord r now w1 = refreshedRecord r now w.
Proof.
  intros Hk. unfold refreshedRecord, currentLoginSessionTimeoutMinutes.
  rewrite (keep_maxAge _ _ _ Hk). pose proof (keep_db _ _ _ Hk) as Hdb.
  destruct (w_db w1), (w_db w); [done| | |done]; exfalso.
  - destruct (proj1 Hdb) as [? ?]; [by eexists|done].
  - destruct (proj2 Hdb) as [? ?]; [by eexists|done].
Qed.

Lemma refreshedRecord_idle now r w :
  let minutes := idleLimitMinutes (refreshedRecord r now w) in
  minutes = EffectiveSessionMaxAgeMinutes minutes.
Proof.
  unfold refreshedRecord, currentLoginSessionTimeoutMinutes,
    normalizeStoredSessionTimeoutMinutes. simpl.
  destruct (w_db w); [destruct (w_maxAge w)|]; by rewrite effective_idemp.
Qed.

(** Overwriting a session that is in memory. *)
Lemma overwrite_spec now h r0 r w :
  Inv w -> w_sessions w !! h = Some r0 ->
  let w' := set_sessions (<[h := r]> (w_sessions w)) w in
  Inv w' /\ Effect now h (Some r) w w'.
Proof.
  intros Hinv Hm. assert (dbRows w !! h = None) as Hd
    by (destruct (inv_disj _ Hinv h); [congruence|done]).
  split.
  - destruct Hinv as [Hsz Hdj Hfl]. constructor; [|intros h'|done]; unfold memCount in *; simpl.
    + by rewrite map_size_insert_Some by (by eexists).
    + destruct (decide (h = h')) as [<-|]; [by right|]. by rewrite lookup_insert_ne.
  - apply Effect_lookup; [done|done| |]; unfold storeLookup; simpl.
    + by rewrite lookup_insert_eq.
    + intros h' Hne. by rewrite lookup_insert_ne by congruence.
Qed.

Lemma refresh_spec h now w :
  Inv w ->
  let '(out, w') := refreshLoginSession buildVersion h now w in
  Inv w' /\
  match out with
  | Found r' _ => exists r, live now w h = Some r /\ r' = refreshedRecord r now w /\
                            Effect now h (Some r') w w'
  | Rejected reason => live now w h = None /\ Keeps now w w'
  | LoadFailed _ => Keeps now w w' \/ exists r', Effect now h (Some r') w w'
  end.
Proof.
  intros Hinv. unfold refreshLoginSession.
  pose proof (load_spec now h w Hinv) as Hload.
  destruct (loadLoginSessionLocked buildVersion h now w) as [out w1].
  destruct Hload as (Hi1 & Hk1 & Hrep).
  destruct out as [r st|reason|e]; [|by destruct Hrep|by split; [|left]].
  pose proof (refreshedRecord_keeps now r w w1 Hk1) as Hrr.
  pose proof (refreshedRecord_idle now r w) as Hidle.
  rewrite Hrr. destruct st.
  - destruct Hrep as [Hl Hm].
    destruct (overwrite_spec now h r (refreshedRecord r now w) w1 Hi1 Hm) as [? ?].
    split; [done|]. exists r. split; [done|]. split; [done|]. by eapply Keeps_Effect.
  - destruct Hrep as (Hl & Hm & Hrow).
    destruct (dbRows w1 !! h) as [row|] eqn:Hr1; [|done]. simpl in Hrow. simplify_eq.
    pose proof (updatePersisted_spec h
      (refreshedRecord (loginSessionRecordFromModel row) now w) row now w1
      Hi1 Hm Hr1 eq_refl eq_refl eq_refl Hidle) as Hup.
    destruct (updatePersistedLoginSessionLocked h _ w1) as [[e|] w2];
      destruct Hup as (Hi2 & Ha & Hb); (split; [done|]).
    + destruct (Hb ltac:(done)) as [?|?]; [left; by etrans|].
      right. eexists. by eapply Keeps_Effect.
    + eexists. split; [done|]. split; [done|]. eapply Keeps_Effect; [exact Hk1|]. by apply Ha.
Qed.
End StoreFacts.
