(* ===== verification/SessionsCorrect.v ===== *)
(** * The login-session contract

    The store of [Sessions] as a state machine: its critical sections are
    the steps, every schedule of them (and of table failures and of time
    passing) is a run.  [session_refinement] shows that each step acts on the
    abstract map of valid sessions as a single abstract update; the handler
    theorems read logging in, validating, refreshing, logging out and
    restarting off it. *)

From S2P Require Import Prelude GoStrings Base64 Table Sessions.
From stdpp Require Import base gmap list strings relations.
From Stdlib Require Import ZArith Lia.

#[local] Open Scope Z_scope.

Section Steps.
Context {T : Type} `{!Table string LoginSession T, !TableLaws string LoginSession T}.
Variable buildVersion : string.
Implicit Types (w : world T) (h : string) (r : loginSessionRecord) (row : LoginSession).

Abbreviation live := (live buildVersion).
Abbreviation valid_rec := (validRecord buildVersion).
Abbreviation Keeps := (Keeps buildVersion).

#[local] Instance Keeps_refl' now : Reflexive (Keeps now).
Proof. intros w. by constructor. Qed.
#[local] Instance Keeps_trans' now : Transitive (Keeps now).
Proof. apply Keeps_trans. Qed.

Lemma Keeps_later now now' w w' : now <= now' -> Keeps now w w' -> Keeps now' w w'.
Proof. intros Hle []. constructor; try done. intros. apply keep_live. lia. Qed.

(** ** Statements on the whole table *)

Lemma clear_spec w :
  let '(out, w') := clearPersistedLoginSessionsLocked w in
  w_epoch w' = w_epoch w /\ w_sessions w' = w_sessions w /\
  w_hasPersisted w' = w_hasPersisted w /\ w_clock w' = w_clock w /\
  (dbRows w' = dbRows w \/ dbRows w' = ∅) /\ (forall n, out = Ok n -> dbRows w' = ∅).
Proof.
  unfold clearPersistedLoginSessionsLocked. destruct (w_db w) as [t|] eqn:Hdb.
  2:{ unfold dbRows. rewrite Hdb. naive_solver. }
  assert (dbRows w = rows t) as Hw by (unfold dbRows; by rewrite Hdb).
  pose proof (count_rows (fun _ _ => true) t) as Hc.
  destruct (tCount _ t) as [[n|e] t1]; simpl in Hc.
  2:{ rewrite dbRows_set_db, Hc, Hw. naive_solver. }
  pose proof (delete_ok (fun _ _ => true) t1) as Hok.
  pose proof (delete_err (fun _ _ => true) t1) as Hbad.
  destruct (tDelete _ t1) as [[e|] t2]; simpl in Hok, Hbad; rewrite dbRows_set_db.
  - rewrite (Hbad e eq_refl), Hc, Hw. naive_solver.
  - rewrite (Hok eq_refl), deleteRows_all. naive_solver.
Qed.

(** After the epoch rotates to a value no stored session carries, no session
    is valid, whether or not the table could be cleared. *)
Lemma rotated_live w w' ep :
  w_epoch w' = ep -> w_sessions w' = ∅ -> (dbRows w' = dbRows w \/ dbRows w' = ∅) ->
  (forall h row, dbRows w !! h = Some row -> Epoch row <> ep) ->
  forall now h, live now w' h = None.
Proof.
  intros He Hs Hd Hfresh now h. apply eq_None_not_Some.
  intros [r [Hl Hv]%live_Some]. apply valid_rec_iff in Hv as (_ & _ & Hep & _).
  unfold storeLookup in Hl. rewrite Hs, lookup_empty in Hl.
  apply fmap_Some in Hl as (row & Hrow & ->).
  destruct Hd as [Hd|Hd]; rewrite Hd in Hrow; [|by rewrite lookup_empty in Hrow].
  apply (Hfresh h row Hrow). simpl in Hep. congruence.
Qed.

Lemma invalidate_spec ep w :
  Inv w -> (forall h row, dbRows w !! h = Some row -> Epoch row <> ep) ->
  let w' := InvalidateAllLoginSessions ep w in
  Inv w' /\ w_clock w' = w_clock w /\ forall now h, live now w' h = None.
Proof.
  intros Hinv Hfresh. unfold InvalidateAllLoginSessions. cbv zeta.
  set (w1 := set_epoch ep (set_sessions ∅ w)).
  pose proof (clear_spec w1) as Hc. destruct (clearPersistedLoginSessionsLocked w1) as [out w'].
  destruct Hc as (He & Hs & Hf & Hcl & Hd & _). simpl in *. split; [|split; [done|]].
  - constructor; [unfold memCount; rewrite Hs; done|intros h; left; by rewrite Hs|].
    rewrite Hf. intros Hp. destruct Hd as [Hd|Hd]; [|done]. rewrite Hd. by apply Hinv.
  - by apply (rotated_live w w' ep).
Qed.

Lemma initialize_spec ep w :
  (forall h row, dbRows w !! h = Some row -> Epoch row <> ep) ->
  let '(out, w') := InitializeLoginSessionStore ep w in
  (out = None -> Inv w' /\ dbRows w' = ∅) /\ w_sessions w' = ∅ /\ w_epoch w' = ep /\
  forall now h, live now w' h = None.
Proof.
  intros Hfresh. unfold InitializeLoginSessionStore.
  set (w1 := set_hasPersisted false _).
  pose proof (clear_spec w1) as Hc. destruct (clearPersistedLoginSessionsLocked w1) as [out w'].
  destruct Hc as (He & Hs & Hf & Hcl & Hd & Hok). split; [|split; [done|split; [done|]]].
  - destruct out as [n|]; [|done]. intros _. specialize (Hok n eq_refl). split; [|done].
    constructor; [unfold memCount; rewrite Hs; done|intros h; left; by rewrite Hs|done].
  - by apply (rotated_live w w' ep).
Qed.

(** A row the periodic statement deletes is not valid. *)
Lemma staleRow_invalid ep now row :
  staleRow buildVersion ep now row = true ->
  valid_rec ep now (loginSessionRecordFromModel row) = false.
Proof.
  intros Hst. destruct (valid_rec _ _ _) eqn:Hv; [|done].
  apply valid_rec_iff in Hv as (_ & Hver & Hep & Hx). simpl in *. unfold staleRow in Hst.
  rewrite (bool_decide_eq_false_2 (Version row <> _)) in Hst by (by intros []).
  rewrite (bool_decide_eq_false_2 (Epoch row <> _)) in Hst by (by intros []).
  destruct (Z.leb_spec (ExpiresAt row) now); [lia|done].
Qed.

Lemma prunePersisted_spec now w :
  Inv w ->
  let '(e, w') := prunePersistedLoginSessionsLocked buildVersion now w in
  Inv w' /\ Keeps now w w'.
Proof.
  intros Hinv. unfold prunePersistedLoginSessionsLocked.
  destruct (w_db w) as [t|] eqn:Hdb; [|done].
  assert (dbRows w = rows t) as Hw by (unfold dbRows; by rewrite Hdb).
  set (p := fun _ row => _).
  pose proof (delete_ok p t) as Hok. pose proof (delete_err p t) as Hbad.
  destruct (tDelete p t) as [[e|] t']; simpl in Hok, Hbad.
  { specialize (Hbad e eq_refl). split; [by apply (Inv_set_db t)|by apply (Keeps_set_db _ now t)]. }
  specialize (Hok eq_refl). rewrite <- Hw in Hok. destruct Hinv as [Hsz Hdj Hfl].
  assert (Hnone : forall h, dbRows w !! h = None -> rows t' !! h = None).
  { intros h Hn. rewrite Hok. apply eq_None_not_Some.
    intros [row [Hr _]%lookup_deleteRows_Some]. congruence. }
  split.
  - constructor; [done| |]; rewrite dbRows_set_db; simpl.
    + intros h. destruct (Hdj h) as [|Hn]; [by left|right; by apply Hnone].
    + intros Hf. apply map_empty. intros h. apply Hnone. rewrite (Hfl Hf). apply lookup_empty.
  - constructor; try done.
    + intros h. rewrite !storeLookup_None. intros [Hs Hd]. split; [done|].
      rewrite dbRows_set_db. by apply Hnone.
    + intros now' h Hle. unfold Sessions.live, storeLookup. simpl. rewrite dbRows_set_db.
      destruct (w_sessions w !! h); [done|]. destruct (dbRows w !! h) as [row|] eqn:Hrow.
      * simpl. destruct (staleRow buildVersion (w_epoch w) now row) eqn:Hst.
        -- rewrite (invalid_later _ _ _ _ _ Hle (staleRow_invalid _ _ _ Hst)).
           assert (rows t' !! h = None) as ->; [|done]. rewrite Hok. apply eq_None_not_Some.
           intros [x [Hx Hp]%lookup_deleteRows_Some]. unfold p in Hp. simplify_eq. congruence.
        -- assert (rows t' !! h = Some row) as ->; [|done].
           rewrite Hok. by apply lookup_deleteRows_Some.
      * by rewrite (Hnone h Hrow).
Qed.

Lemma tick_spec now w :
  Inv w -> let w' := loginSessionCleanupTick buildVersion now w in Inv w' /\ Keeps now w w'.
Proof.
  intros Hinv. unfold loginSessionCleanupTick. destruct (_ && _); [done|].
  destruct (prune_spec buildVersion now w Hinv) as (Hi1 & Hk1 & _).
  set (w1 := pruneExpiredLoginSessionsLocked buildVersion now w) in *.
  pose proof (prunePersisted_spec now w1 Hi1) as Hp.
  destruct (prunePersistedLoginSessionsLocked buildVersion now w1) as [[e|] w2];
    destruct Hp as [Hi2 Hk2]; [split; [done|by etrans]|].
  destruct (refill_spec buildVersion now w2 Hi2) as (_ & ? & Hk3 & _).
  split; [done|]. etrans; [exact Hk1|]. by etrans.
Qed.

(** ** Renaming *)

Lemma rename_record_model old new now row :
  loginSessionRecordFromModel
    (if bool_decide (UserName row = old) then renameRow new now row else row) =
  renameRecord old new (loginSessionRecordFromModel row).
Proof. unfold renameRecord. simpl. by repeat case_decide; case_bool_decide. Qed.

Lemma rename_spec o n w :
  Inv w ->
  let old := trim_space o in
  let new := trim_space n in
  let '(e, w') := RenameLoginSessionUser o n w in
  Inv w' /\ w_epoch w' = w_epoch w /\ w_clock w' = w_clock w /\
  ((forall h, storeLookup w' h = storeLookup w h) /\ (e <> None \/ old = "" \/ new = "" \/ old = new) \/
   e = None /\ old <> "" /\ new <> "" /\
   forall h, storeLookup w' h = renameRecord old new <$> storeLookup w h).
Proof.
  intros Hinv. cbv zeta. unfold RenameLoginSessionUser.
  set (old := trim_space o). set (new := trim_space n). destruct (decide _) as [Hd|Hd].
  { split; [done|]. split; [done|]. split; [done|]. left. split; [done|by right]. }
  assert (old <> "" /\ new <> "") as [Ho Hn] by tauto.
  destruct (w_db w) as [t|] eqn:Hdb.
  - assert (dbRows w = rows t) as Hw by (unfold dbRows; by rewrite Hdb).
    set (p := fun _ row => _).
    pose proof (update_ok p (renameRow new (w_clock w)) t) as Hok.
    pose proof (update_err p (renameRow new (w_clock w)) t) as Hbad.
    destruct (tUpdate p _ t) as [[c|e] t']; simpl in Hok, Hbad.
    2:{ specialize (Hbad e eq_refl). split; [by apply (Inv_set_db t)|]. split; [done|].
        split; [done|]. left. split; [|by left]. intros h. unfold storeLookup.
        by rewrite dbRows_set_db, Hbad, Hw. }
    destruct (Hok c eq_refl) as [Hr _]. rewrite <- Hw in Hr. split; [|split; [done|split; [done|]]].
    + destruct Hinv as [Hsz Hdj Hfl]. constructor; [|intros h|]; unfold memCount, dbRows in *; simpl.
      * by rewrite map_size_fmap.
      * rewrite lookup_fmap, Hr, lookup_updateRows.
        destruct (Hdj h) as [->|Hx]; [by left|right]. unfold dbRows in *. by rewrite Hx.
      * intros Hf. rewrite Hr. apply map_empty. intros h. rewrite lookup_updateRows.
        unfold dbRows. rewrite (Hfl Hf). by rewrite lookup_empty.
    + right. split; [done|]. split; [done|]. split; [done|]. intros h.
      unfold storeLookup, dbRows in *. simpl. rewrite lookup_fmap, Hr, lookup_updateRows, Hdb.
      destruct (w_sessions w !! h); [done|]. simpl.
      destruct (rows t !! h) as [row|] eqn:Erow; [|done]. simpl. f_equal.
      apply rename_record_model.
  - split; [|split; [done|split; [done|]]].
    + destruct Hinv as [Hsz Hdj Hfl]. constructor; [|intros h|done]; unfold memCount, dbRows in *; simpl.
      * by rewrite map_size_fmap.
      * right. by rewrite Hdb.
    + right. split; [done|]. split; [done|]. split; [done|]. intros h.
      unfold storeLookup, dbRows. simpl. rewrite lookup_fmap, Hdb.
      by destruct (w_sessions w !! h).
Qed.

(** ** Runs

    One constructor per critical section of the store's mutex, with what
    the callers guarantee: a new token hash is not in use, an idle limit is
    normalised, the time a caller passes was read from the clock (possibly
    truncated), a rotated epoch is new. *)

Inductive storeOp : Type :=
| OpStore (h user ver : string) (expires last idle : Z)
| OpLoad (h : string) (now : Z)
| OpRefresh (h : string) (now : Z)
| OpRemove (h : string)
| OpRename (old new : string)
| OpInvalidate (ep : string)
| OpTick (now : Z).

Definition runOp (op : storeOp) w : world T :=
  match op with
  | OpStore h user ver expires last idle =>
      (storeLoginSession buildVersion h user ver expires last idle w).2
  | OpLoad h now => (loadLoginSessionLocked buildVersion h now w).2
  | OpRefresh h now => (refreshLoginSession buildVersion h now w).2
  | OpRemove h => removeLoginSession buildVersion h w
  | OpRename old new => (RenameLoginSessionUser old new w).2
  | OpInvalidate ep => InvalidateAllLoginSessions ep w
  | OpTick now => loginSessionCleanupTick buildVersion now w
  end.

Definition opOk (op : storeOp) w : Prop :=
  match op with
  | OpStore h _ _ _ _ idle =>
      storeLookup w h = None /\ idle = EffectiveSessionMaxAgeMinutes idle
  | OpLoad _ now | OpRefresh _ now | OpTick now => now <= w_clock w
  | OpRemove _ | OpRename _ _ => True
  | OpInvalidate ep => forall h row, dbRows w !! h = Some row -> Epoch row <> ep
  end.

(** Time passes and the administrator edits the timeout setting. *)
Definition elapse (clock : Z) (maxAge : option Z) w : world T :=
  mkWorld (w_epoch w) (w_sessions w) (w_hasPersisted w) (w_db w) clock maxAge.

Inductive reachable : world T -> Prop :=
| reach_init ep w w' :
    (forall h row, dbRows w !! h = Some row -> Epoch row <> ep) ->
    InitializeLoginSessionStore ep w = (None, w') -> reachable w'
| reach_op op w : reachable w -> opOk op w -> reachable (runOp op w)
| reach_time clock maxAge w : reachable w -> w_clock w <= clock -> reachable (elapse clock maxAge w).

(** The abstract machine: a map of sessions, and what a step may do to it. *)
Inductive absOp : Type :=
| AKeep
| ASet (h : string) (r : loginSessionRecord)
| ADel (h : string)
| ARename (old new : string)
| AClear.

Definition absApply (a : absOp) (ep : string) (now : Z)
    (m : string -> option loginSessionRecord) (h : string) : option loginSessionRecord :=
  match a with
  | AKeep => m h
  | ASet h' r => if decide (h = h') then liveOf buildVersion ep now (Some r) else m h
  | ADel h' => if decide (h = h') then None else m h
  | ARename old new => renameRecord old new <$> m h
  | AClear => None
  end.

Definition permitted (op : storeOp) (a : absOp) w : Prop :=
  match op, a with
  | OpStore h user ver expires last idle, ASet h' r =>
      h' = h /\ r = mkRecord user ver (w_epoch w) expires last idle
  | OpStore _ _ _ _ _ _, AKeep => True                (* the table refused the row *)
  | OpLoad _ _, AKeep => True
  | OpRefresh h now, ASet h' _ => h' = h
  | OpRefresh _ _, AKeep => True
  | OpRemove h, ADel h' => h' = h /\ h <> ""
  | OpRemove h, AKeep => h = "" \/ is_Some (dbRows w !! h)   (* the table refused *)
  | OpRename o n, ARename old new => old = trim_space o /\ new = trim_space n
  | OpRename _ _, AKeep => True
  | OpInvalidate _, AClear => True
  | OpTick _, AKeep => True
  | _, _ => False
  end.

Lemma rename_valid o n ep now r :
  trim_space o <> "" -> trim_space n <> "" ->
  valid_rec ep now (renameRecord (trim_space o) (trim_space n) r) = valid_rec ep now r.
Proof.
  intros Ho Hn. apply Bool.eq_true_iff_eq. rewrite !valid_rec_iff. unfold renameRecord.
  case_decide as Hu; [|done]. simpl. rewrite Hu, !trim_space_idemp. tauto.
Qed.

(** [w'] keeps the invariant and shows one permitted abstract update of [w]. *)
Definition simulates (op : storeOp) w w' : Prop :=
  Inv w' /\ w_clock w' = w_clock w /\
  exists a, permitted op a w /\ forall now h, w_clock w <= now ->
    live now w' h = absApply a (w_epoch w) now (live now w) h.

Lemma simulates_keep op now w w' :
  now <= w_clock w -> Inv w' -> Keeps now w w' -> permitted op AKeep w -> simulates op w w'.
Proof.
  intros Hle Hi [] Hp. split; [done|]. split; [done|]. exists AKeep. split; [done|].
  intros. simpl. apply keep_live. lia.
Qed.

Lemma simulates_set op now h r w w' :
  now <= w_clock w -> Inv w' -> Effect buildVersion now h (Some r) w w' ->
  permitted op (ASet h r) w -> simulates op w w'.
Proof.
  intros Hle Hi [] Hp. split; [done|]. split; [done|]. exists (ASet h r).
  split; [done|]. intros. simpl. apply eff_live. lia.
Qed.

Lemma step_sim op w : Inv w -> opOk op w -> simulates op w (runOp op w).
Proof.
  intros Hinv Hop.
  destruct op as [h user ver x l i|h now|h now|h|o n|ep|now]; simpl in Hop; simpl runOp.
  - destruct Hop as [Hf Hi].
    pose proof (store_spec buildVersion h user ver x l i w Hinv Hf Hi) as Hs.
    destruct (storeLoginSession buildVersion h user ver x l i w) as [[r|e] w'];
      destruct Hs as [Hi' Hs]; simpl.
    + destruct Hs as [-> Hs]. by eapply simulates_set.
    + by eapply simulates_keep.
  - pose proof (load_spec buildVersion now h w Hinv) as Hs.
    destruct (loadLoginSessionLocked buildVersion h now w) as [out w']. destruct Hs as (? & ? & _).
    by eapply simulates_keep.
  - pose proof (refresh_spec buildVersion h now w Hinv) as Hs.
    destruct (refreshLoginSession buildVersion h now w) as [out w']. destruct Hs as [Hi' Hs].
    destruct out as [r st|reason|e]; simpl.
    + destruct Hs as (r0 & _ & _ & He). by eapply simulates_set.
    + destruct Hs as [_ Hk]. by eapply simulates_keep.
    + destruct Hs as [Hk|[r' He]]; [by eapply simulates_keep|by eapply simulates_set].
  - destruct (decide (h = "")) as [->|Hne].
    { apply (simulates_keep _ (w_clock w)); [lia|done|done|by left]. }
    destruct (remove_spec buildVersion h w Hinv Hne) as [Hi' [[]|[Hrow Hk]]].
    + split; [done|]. split; [done|]. exists (ADel h). split; [done|]. intros. by apply eff_live.
    + apply (simulates_keep _ (w_clock w)); [lia|done|done|by right].
  - pose proof (rename_spec o n w Hinv) as Hs. cbv zeta in Hs.
    destruct (RenameLoginSessionUser o n w) as [e w'].
    destruct Hs as (Hi' & He & Hc & [[Hs _]|(_ & Ho & Hn & Hs)]); simpl; (split; [done|]; split; [done|]).
    + exists AKeep. split; [done|]. intros. unfold Sessions.live. by rewrite He, Hs.
    + exists (ARename (trim_space o) (trim_space n)). split; [done|]. intros now h _.
      unfold Sessions.live. rewrite He, Hs. simpl.
      destruct (storeLookup w h) as [r|]; [|done]. simpl. rewrite rename_valid by done.
      by destruct (valid_rec _ _ _).
  - destruct (invalidate_spec ep w Hinv Hop) as (? & ? & Hn). split; [done|]. split; [done|].
    exists AClear. split; [done|]. intros. apply Hn.
  - destruct (tick_spec now w Hinv) as [? ?]. by eapply simulates_keep.
Qed.

Lemma Inv_elapse clock maxAge w : Inv w -> Inv (elapse clock maxAge w).
Proof. by intros []. Qed.

Lemma reachable_Inv w : reachable w -> Inv w.
Proof.
  induction 1 as [ep w w' Hf Hi|op w _ IH Hop|c m w _ IH _].
  - pose proof (initialize_spec ep w Hf) as Hs. rewrite Hi in Hs. by destruct Hs as [[] _].
  - by apply step_sim.
  - by apply Inv_elapse.
Qed.
End Steps.

(** ** The contract *)

Section Contract.
Context {T : Type} `{!Table string LoginSession T, !TableLaws string LoginSession T}.
Variable buildVersion : string.
Variable sha256 : list Z -> list Z.
Hypothesis sha256_length : forall b, length (sha256 b) = 32%nat.
Implicit Types (w : world T) (h : string) (r : loginSessionRecord) (c : request).

Abbreviation live := (live buildVersion).
Abbreviation tokenHash := (loginSessionTokenHash sha256).

Lemma tokenHash_nonempty token h : tokenHash token = Some h -> h <> "".
Proof.
  unfold loginSessionTokenHash. destruct (base64_decode _) as [b|]; [|done].
  case_decide; [|done]. intros [= <-]. pose proof (sha256_length b).
  destruct (sha256 b); [done|]. done.
Qed.

Lemma tokenHash_generated bytes :
  length bytes = loginSessionTokenBytes -> Forall is_byte bytes ->
  tokenHash (base64_encode bytes) = Some (hex_encode (sha256 bytes)).
Proof.
  intros Hlen Hb. unfold loginSessionTokenHash.
  rewrite trim_space_plain, base64_decode_encode by (done || by apply base64_plain).
  by rewrite decide_True.
Qed.

Lemma validate_spec c w :
  Inv w ->
  let '(v, w') := validateLoginSession buildVersion sha256 (Some c) w in
  Inv w' /\ Keeps buildVersion (w_clock w) w w' /\
  match tokenHash (cookieToken c) with
  | None => validationValid v = false /\ v_reason v = Some ReasonMissing
  | Some h =>
      match live (w_clock w) w h with
      | Some r => (validationValid v = true /\ v = mkValidation (cookieToken c) h (userName r) None None)
                  \/ (validationValid v = false /\ v_reason v = Some ReasonStoreFailed)
      | None => validationValid v = false
      end
  end.
Proof.
  intros Hinv. unfold validateLoginSession.
  destruct (tokenHash (cookieToken c)) as [h|] eqn:Hh; [|by split; [|split; [apply Keeps_refl|]]].
  pose proof (load_spec buildVersion (w_clock w) h w Hinv) as Hl.
  destruct (loadLoginSessionLocked buildVersion h (w_clock w) w) as [out w'].
  destruct Hl as (Hi & Hk & Hrep). destruct out as [r st|reason|e].
  - split; [done|]. split; [done|].
    assert (live (w_clock w) w h = Some r) as Hlive by (destruct st; apply Hrep).
    rewrite Hlive. left. split; [|done].
    apply live_Some in Hlive as [_ (Hu & _)%valid_rec_iff].
    unfold validationValid. simpl. rewrite !bool_decide_eq_true_2; [done| |].
    + by eapply tokenHash_nonempty.
    + intros He. by rewrite He in Hu.
  - split; [done|]. split; [done|]. destruct Hrep as [Hn _]. by rewrite Hn.
  - split; [done|]. split; [done|]. destruct (live _ _ _); [by right|done].
Qed.

(** Removing the session of another token leaves [h] alone. *)
Lemma remove_other h h' w :
  Inv w -> h' <> h -> h' <> "" ->
  let w' := removeLoginSession buildVersion h' w in
  Inv w' /\ w_clock w' = w_clock w /\
  forall now, w_clock w <= now -> live now w' h = live now w h.
Proof.
  intros Hinv Hne Hn. cbv zeta.
  destruct (remove_spec buildVersion h' w Hinv Hn) as [Hi [[]|[_ []]]];
    (split; [done|]; split; [done|]); intros now Hle.
  - rewrite eff_live by done. by rewrite decide_False.
  - by apply keep_live.
Qed.

Lemma login_spec c c' user m bytes w w' :
  Inv w -> length bytes = loginSessionTokenBytes -> Forall is_byte bytes ->
  storeLookup w (hex_encode (sha256 bytes)) = None ->
  SetLoginUser buildVersion sha256 (Some c) user m (Some bytes) w = (None, Some c', w') ->
  Inv w' /\ rq_token c' = Some (base64_encode bytes) /\
  let h := hex_encode (sha256 bytes) in
  let start := truncateSecond (w_clock w) in
  let minutes := EffectiveSessionMaxAgeMinutes m in
  let r := mkRecord user (currentLoginSessionVersion buildVersion) (w_epoch w)
             (start + minutes * minute) start minutes in
  forall now, w_clock w <= now ->
    live now w' h = liveOf buildVersion (w_epoch w) now (Some r).
Proof.
  intros Hinv Hlen Hb Hfresh. pose proof (tokenHash_generated bytes Hlen Hb) as Hh.
  set (h := hex_encode (sha256 bytes)) in *. unfold SetLoginUser. cbn [newLoginSessionToken].
  rewrite Hh. set (start := truncateSecond (w_clock w)).
  unfold loginSessionExpiry, normalizeStoredSessionTimeoutMinutes.
  pose proof (store_spec buildVersion h user (currentLoginSessionVersion buildVersion)
    (start + EffectiveSessionMaxAgeMinutes (EffectiveSessionMaxAgeMinutes m) * minute) start
    (EffectiveSessionMaxAgeMinutes m) w Hinv Hfresh (eq_sym (effective_idemp m))) as Hs.
  destruct (storeLoginSession buildVersion h user _ _ start _ w) as [[r|e] w1]; [|done].
  destruct Hs as (Hi1 & -> & [He Hc Hl]). unfold saveSession. destruct (rq_saveOk c); [|done].
  intros [= <- <-]. cbv zeta. rewrite effective_idemp in *.
  assert (Hgoal : forall w2, Inv w2 -> (forall now, w_clock w <= now -> live now w2 h = live now w1 h) ->
    Inv w2 /\ forall now, w_clock w <= now -> live now w2 h =
      liveOf buildVersion (w_epoch w) now (Some (mkRecord user (currentLoginSessionVersion buildVersion)
        (w_epoch w) (start + EffectiveSessionMaxAgeMinutes m * minute) start
        (EffectiveSessionMaxAgeMinutes m)))).
  { intros w2 Hi2 Hx. split; [done|]. intros now Hle. rewrite Hx, Hl by done. by rewrite decide_True. }
  destruct (tokenHash (cookieToken c)) as [ph|] eqn:Hp; [case_decide as Hd|].
  - by destruct (Hgoal w1 Hi1 ltac:(done)).
  - destruct (remove_other h ph w1 Hi1 Hd (tokenHash_nonempty _ _ Hp)) as (Hi2 & _ & Hx).
    destruct (Hgoal _ Hi2) as [? ?]; [|done]. intros now Hle. apply Hx. lia.
  - by destruct (Hgoal w1 Hi1 ltac:(done)).
Qed.

Lemma refreshed_minutes fallback w :
  let minutes := currentLoginSessionTimeoutMinutes fallback w in
  1 <= minutes <= 72 * 60 /\ EffectiveSessionMaxAgeMinutes minutes = minutes.
Proof.
  unfold currentLoginSessionTimeoutMinutes, normalizeStoredSessionTimeoutMinutes,
    EffectiveSessionMaxAgeMinutes, sessionMaxAgeMaxMinutes.
  destruct (w_db w); [destruct (w_maxAge w)|]; zcases; lia.
Qed.

Lemma refreshedRecord_eq r start w :
  refreshedRecord r start w =
  let minutes := currentLoginSessionTimeoutMinutes (idleLimitMinutes r) w in
  mkRecord (userName r) (version r) (epoch r) (start + minutes * minute) start minutes.
Proof.
  unfold refreshedRecord, loginSessionExpiry, normalizeStoredSessionTimeoutMinutes.
  by rewrite (proj2 (refreshed_minutes _ _)).
Qed.

(** A valid record whose deadline is moved is valid until the new one. *)
Lemma liveOf_moved r now0 now w h deadline last idle :
  live now0 w h = Some r ->
  let r' := mkRecord (userName r) (version r) (epoch r) deadline last idle in
  liveOf buildVersion (w_epoch w) now (Some r') = if now <? deadline then Some r' else None.
Proof.
  intros [_ (Hu & Hver & Hep & _)%valid_rec_iff]%live_Some. cbv zeta. simpl.
  set (r' := mkRecord _ _ _ _ _ _).
  assert (validRecord buildVersion (w_epoch w) now r' = (now <? deadline)) as ->; [|done].
  apply Bool.eq_true_iff_eq. rewrite valid_rec_iff, Z.ltb_lt. simpl. tauto.
Qed.

(** in every reachable state of the login-session store at most 25
    sessions are in memory, no token hash is both in memory and in the
    table, and the "nothing persisted" flag is only set when the table is
    empty, under every schedule of operations and table failures. *)
Theorem session_store_invariant w :
  reachable buildVersion w ->
  memCount w <= maxInMemoryLoginSessions /\
  (forall h, w_sessions w !! h = None \/ dbRows w !! h = None) /\
  (w_hasPersisted w = false -> dbRows w = ∅).
Proof. intros Hw. by destruct (reachable_Inv buildVersion w Hw). Qed.


(** refilling terminates: with one unit of fuel per row it never runs
    out of fuel; it keeps the valid sessions, and it ends without an error
    only when memory holds 25 sessions or the table is empty. *)
Theorem refill_total now w :
  reachable buildVersion w ->
  let '(e, w') := refillInMemoryLoginSessionsLocked buildVersion now w in
  e <> Some SErrFuel /\
  (forall now' h, now <= now' -> live now' w' h = live now' w h) /\
  (e = None -> memCount w' = maxInMemoryLoginSessions \/ dbRows w' = ∅).
Proof.
  intros Hw. pose proof (refill_spec buildVersion now w (reachable_Inv _ w Hw)) as Hr.
  destruct (refillInMemoryLoginSessionsLocked buildVersion now w) as [e w'].
  destruct Hr as (? & _ & [] & ?). done.
Qed.


(** after a successful login the cookie holds the new token, and until
    the deadline (the login second plus the effective timeout) that cookie
    is accepted as the user who logged in, or refused only because the
    store failed; from the deadline on it is never accepted. *)
Theorem login_then_validate c c' user m bytes w w' clock maxAge :
  Inv w -> length bytes = loginSessionTokenBytes -> Forall is_byte bytes ->
  trim_space user <> "" ->
  storeLookup w (hex_encode (sha256 bytes)) = None ->
  SetLoginUser buildVersion sha256 (Some c) user m (Some bytes) w = (None, Some c', w') ->
  w_clock w <= clock ->
  let deadline := truncateSecond (w_clock w) + EffectiveSessionMaxAgeMinutes m * minute in
  let v := (validateLoginSession buildVersion sha256 (Some c') (elapse clock maxAge w')).1 in
  rq_token c' = Some (base64_encode bytes) /\
  (clock < deadline ->
     validationValid v = true /\ v_userName v = user \/ v_reason v = Some ReasonStoreFailed) /\
  (deadline <= clock -> validationValid v = false).
Proof.
  intros Hinv Hlen Hb Hu Hfresh Hset Hle. cbv zeta.
  destruct (login_spec c c' user m bytes w w' Hinv Hlen Hb Hfresh Hset) as (Hi & Ht & Hlive).
  cbv zeta in Hlive. set (r := mkRecord _ _ _ _ _ _) in Hlive. split; [done|].
  pose proof (validate_spec c' (elapse clock maxAge w') (Inv_elapse clock maxAge w' Hi)) as Hv.
  destruct (validateLoginSession buildVersion sha256 (Some c') _) as [v w2].
  destruct Hv as (_ & _ & Hv). unfold cookieToken in Hv.
  rewrite Ht, (tokenHash_generated bytes Hlen Hb) in Hv. simpl in Hv |- *.
  change (live clock (elapse clock maxAge w')) with (live clock w') in Hv.
  rewrite (Hlive clock Hle) in Hv. simpl in Hv.
  destruct (validRecord buildVersion (w_epoch w) clock r) eqn:Hval.
  - apply valid_rec_iff in Hval as (_ & _ & _ & Hlt). simpl in Hlt. split; [|lia]. intros _.
    destruct Hv as [[? ->]|[_ ?]]; [by left|by right].
  - split; [|done]. intros Hlt. exfalso.
    assert (validRecord buildVersion (w_epoch w) clock r = true); [|congruence].
    by apply valid_rec_iff.
Qed.

(** A token hash that names no valid session from [clock] on. *)
Definition endedFrom (clock : Z) w (h : string) : Prop := forall now, clock <= now -> live now w h = None.

(** logging out ends exactly the session of the presented cookie: it is
    never valid again unless its row is in the table and the table refuses
    the deletion; no other session changes; the browser's token is removed
    whenever the cookie can be written. *)
Theorem logout_ends_session c w h :
  Inv w -> tokenHash (cookieToken c) = Some h ->
  let '(c', w') := ClearSession buildVersion sha256 (Some c) w in
  (forall now h', w_clock w <= now -> h' <> h -> live now w' h' = live now w h') /\
  (endedFrom (w_clock w) w' h \/ is_Some (dbRows w !! h)) /\
  (rq_saveOk c = true -> (rq_token <$> c') = Some None).
Proof.
  intros Hinv Hh. unfold ClearSession. rewrite Hh. simpl.
  destruct (remove_spec buildVersion h w Hinv (tokenHash_nonempty _ _ Hh)) as [_ Hr].
  split; [|split].
  - intros now h' Hle Hne. destruct Hr as [[]|[_ []]].
    + rewrite eff_live by done. by rewrite decide_False.
    + by apply keep_live.
  - destruct Hr as [[]|[? _]]; [left|by right]. intros now Hle.
    rewrite eff_live by done. by rewrite decide_True.
  - unfold saveSession. by intros ->.
Qed.

(** starting the panel, or a full restart of it, ends every session: no
    token is valid at any later time, even when the table could not be
    cleared, because no stored row carries the new epoch. *)
Theorem restart_ends_sessions ep w :
  (forall h row, dbRows w !! h = Some row -> Epoch row <> ep) -> Inv w ->
  (forall clock h, endedFrom clock (InitializeLoginSessionStore ep w).2 h) /\
  (forall clock h, endedFrom clock (InvalidateAllLoginSessions ep w) h) /\
  Inv (InvalidateAllLoginSessions ep w).
Proof.
  intros Hfresh Hinv. pose proof (initialize_spec buildVersion ep w Hfresh) as Hi.
  destruct (invalidate_spec buildVersion ep w Hinv Hfresh) as (? & _ & ?).
  destruct (InitializeLoginSessionStore ep w) as [e w']. destruct Hi as (_ & _ & _ & Hi).
  split; [intros clock h now _; apply Hi|]. split; [intros clock h now _; auto|done].
Qed.

(** a successful refresh moves the deadline of the presented session,
    and of no other, to the current second plus between one minute and 72
    hours, and reports that deadline in Unix seconds. *)
Theorem refresh_moves_deadline c c' w w' d :
  Inv w -> second <= w_clock w ->
  RefreshLoginSession buildVersion sha256 (Some c) w = (Refreshed d, Some c', w') ->
  exists h r minutes,
    tokenHash (cookieToken c) = Some h /\ live (w_clock w) w h = Some r /\
    1 <= minutes <= 72 * 60 /\
    let deadline := truncateSecond (w_clock w) + minutes * minute in
    d = unixSeconds deadline /\
    forall now h', w_clock w <= now ->
      live now w' h' =
      if decide (h' = h)
      then (if now <? deadline
            then Some (mkRecord (userName r) (version r) (epoch r) deadline
                         (truncateSecond (w_clock w)) minutes)
            else None)
      else live now w h'.
Proof.
  intros Hinv Hclock. unfold RefreshLoginSession.
  pose proof (validate_spec c w Hinv) as Hv.
  destruct (validateLoginSession buildVersion sha256 (Some c) w) as [v w1].
  destruct Hv as (Hi1 & Hk1 & Hv).
  destruct (tokenHash (cookieToken c)) as [h|]; [|by destruct Hv as [-> _]].
  destruct (live (w_clock w) w h) as [r|] eqn:Hl; [|by rewrite Hv].
  destruct Hv as [[Hvv ->]|[-> _]]; [|done]. rewrite Hvv. simpl.
  rewrite (keep_clock _ _ _ _ Hk1). set (start := truncateSecond (w_clock w)).
  pose proof (refresh_spec buildVersion h start w1 Hi1) as Hr.
  destruct (refreshLoginSession buildVersion h start w1) as [[r' st|?|?] w2]; [|done..].
  destruct Hr as (Hi2 & r0 & Hl0 & -> & [He2 Hc2 Hlive]).
  unfold saveSession. destruct (rq_saveOk c); [|done]. intros [= <- <- <-].
  assert (Hstart : start <= w_clock w < start + second)
    by (unfold start, truncateSecond, second; pose proof (Z.mod_pos_bound (w_clock w) 1000000000); lia).
  assert (r0 = r) as ->.
  { pose proof (keep_live _ _ _ _ Hk1 (w_clock w) h ltac:(lia)) as Hx. rewrite Hl in Hx.
    apply live_Some in Hl0 as [Ha _]. apply live_Some in Hx as [Hb _]. congruence. }
  exists h, r, (currentLoginSessionTimeoutMinutes (idleLimitMinutes r) w1).
  split; [done|]. split; [done|].
  destruct (refreshed_minutes (idleLimitMinutes r) w1) as [Hm _]. split; [done|].
  rewrite refreshedRecord_eq in *. cbv zeta.
  set (minutes := currentLoginSessionTimeoutMinutes _ _) in *. split.
  - unfold loginSessionStatusFromRecord. simpl.
    destruct (Z.leb_spec (start + minutes * minute) 0); [unfold minute, second in *; lia|done].
  - intros now h' Hle. rewrite Hlive by lia. case_decide; [|by apply (keep_live _ _ _ _ Hk1)].
    rewrite (keep_epoch _ _ _ _ Hk1). by eapply liveOf_moved.
Qed.
End Contract.

(** ** The contract on concrete runs *)

Abbreviation demoTable := (memTable string LoginSession).

Definition sha32 : list Z -> list Z := fun l => take 32 (l ++ replicate 32 0).

Lemma sha32_length b : length (sha32 b) = 32%nat.
Proof. unfold sha32. rewrite length_take, length_app, length_replicate. lia. Qed.

Lemma demo_fresh (h : string) row :
  dbRows demoWorld !! h = Some row -> Epoch row <> "e2".
Proof. unfold dbRows. simpl. by rewrite lookup_empty. Qed.

Definition demoStart : world demoTable := (InitializeLoginSessionStore "e2" demoWorld).2.

Lemma demoStart_reachable : reachable "1.0" demoStart.
Proof. apply (reach_init _ "e2" demoWorld); [apply demo_fresh|reflexivity]. Qed.

Lemma demoStart_Inv : Inv demoStart.
Proof. apply (reachable_Inv "1.0"), demoStart_reachable. Qed.

(** The state and the cookie after one login. *)
Definition demoLogin : option sessionError * option request * world demoTable :=
  SetLoginUser "1.0" sha32 (Some demoRequest) "admin" 30 (Some demoBytes) demoStart.
Definition demoToken : string := base64_encode demoBytes.
Definition demoHash : string := hex_encode (sha32 demoBytes).
Definition demoCookie : request := mkRequest (Some demoToken)
  (Some (mkOptions 1800 true true)) None true true false false.
Definition demoLogged : world demoTable :=
  mkWorld "e2" {[demoHash := mkRecord "admin" "1.0" "e2" (6800 * second) (5000 * second) 30]}
    false (Some (mkMem ∅ [])) (5000 * second) (Some 30).

Lemma demoLogged_Inv : Inv demoLogged.
Proof. by constructor; [| |]; [vm_compute|right|]. Qed.

Lemma session_store_invariant_witness :
  reachable "1.0" demoStart /\ memCount demoStart <= maxInMemoryLoginSessions.
Proof.
  split; [apply demoStart_reachable|].
  apply (session_store_invariant "1.0" demoStart), demoStart_reachable.
Defined.


Lemma refill_total_witness :
  (refillInMemoryLoginSessionsLocked "1.0" 0 demoStart).1 <> Some SErrFuel.
Proof.
  pose proof (refill_total "1.0" 0 demoStart demoStart_reachable) as Hr.
  destruct (refillInMemoryLoginSessionsLocked "1.0" 0 demoStart). apply Hr.
Defined.

Definition demoStored : world demoTable :=
  runOp "1.0" (OpStore demoHash "admin" "1.0" (6800 * second) (5000 * second) 30) demoStart.

Lemma demoStored_reachable : reachable "1.0" demoStored.
Proof.
  apply (reach_op _ (OpStore demoHash "admin" "1.0" (6800 * second) (5000 * second) 30)).
  - apply demoStart_reachable.
  - split; vm_compute; reflexivity.
Qed.


Lemma login_then_validate_witness :
  rq_token demoCookie = Some demoToken /\
  (validationValid (validateLoginSession "1.0" sha32 (Some demoCookie)
     (elapse (6800 * second) None demoLogged)).1 = false).
Proof.
  destruct (login_then_validate "1.0" sha32 sha32_length demoRequest demoCookie "admin" 30 demoBytes
    demoStart demoLogged (6800 * second) None) as (? & _ & Hx).
  - apply demoStart_Inv.
  - reflexivity.
  - unfold demoBytes. repeat constructor; unfold is_byte; lia.
  - vm_compute. discriminate.
  - vm_compute. reflexivity.
  - vm_compute. reflexivity.
  - vm_compute. discriminate.
  - split; [assumption|]. apply Hx. vm_compute. discriminate.
Defined.

Lemma logout_ends_session_witness :
  (live "1.0" (5000 * second) (ClearSession "1.0" sha32 (Some demoCookie) demoLogged).2 demoHash
     = None).
Proof.
  pose proof (logout_ends_session "1.0" sha32 sha32_length demoCookie demoLogged demoHash
    demoLogged_Inv ltac:(vm_compute; reflexivity)) as H.
  destruct (ClearSession "1.0" sha32 (Some demoCookie) demoLogged) as [c' w'] eqn:E.
  destruct H as (_ & [H|[row H]] & _); [apply H; vm_compute; discriminate|].
  exfalso. unfold dbRows in H. simpl in H. discriminate.
Defined.

Lemma restart_ends_sessions_witness :
  live "1.0" 0 (InvalidateAllLoginSessions "e2" demoWorld) demoHash = None.
Proof.
  assert (Inv demoWorld) as Hinv by (by constructor; [vm_compute|left|]).
  exact (proj1 (proj2 (restart_ends_sessions "1.0" "e2" demoWorld demo_fresh Hinv)) 0 demoHash 0 (Z.le_refl 0)).
Defined.

Lemma refresh_moves_deadline_witness :
  exists c' w' d, RefreshLoginSession "1.0" sha32 (Some demoCookie) demoLogged =
    (Refreshed d, Some c', w') /\
  exists h, loginSessionTokenHash sha32 (cookieToken demoCookie) = Some h.
Proof.
  destruct (RefreshLoginSession "1.0" sha32 (Some demoCookie) demoLogged) as [[o c] w'] eqn:E.
  destruct o as [d|]; [|vm_compute in E; discriminate].
  destruct c as [c'|]; [|vm_compute in E; discriminate].
  exists c', w', d. split; [reflexivity|].
  destruct (refresh_moves_deadline "1.0" sha32 sha32_length demoCookie c' demoLogged w' d
    demoLogged_Inv ltac:(vm_compute; discriminate) E) as (h & _ & _ & ? & _).
  by exists h.
Defined.
