(* ===== verification/Memory.v ===== *)
(** * The reverse proxy's memory admission ([service/reverse_proxy_memory.go])

    A pool of reserved bytes shared by all rules, leases on it, concurrency
    limiters, and the controller that combines them.  Each method runs under
    the pool's or limiter's mutex and is one atomic step.  Counters are
    [int64]/[int] and wrap; the theorems show where they do not.  A lease is
    an identity in a store, because its [sync.Once] makes a second [Release]
    of the same lease different from the release of an equal lease. *)

From S2P Require Import Prelude.
From stdpp Require Import base gmap list strings relations.
From Stdlib Require Import ZArith Lia.

#[local] Open Scope Z_scope.
#[local] Open Scope go_scope.

Definition reverseProxyMinimumRewriteReservationBytes : Z := 500 * 1024.

Record reverseProxyMemoryPool : Type := mkPool {
  capacity : Z;
  used : Z;
  ruleUsed : gmap Z Z;
  cacheUsed : Z;
  rewriteUsed : Z }.

(** [lease_released] is the state of the lease's [sync.Once]. *)
Record reverseProxyMemoryLease : Type := mkLease {
  lease_ruleID : Z;
  lease_bytes : Z;
  lease_category : string;
  lease_released : bool }.

(** The pool and every lease ever handed out, by identity. *)
Record memory : Type := mkMemory {
  m_pool : reverseProxyMemoryPool;
  m_leases : gmap nat reverseProxyMemoryLease;
  m_next : nat }.

(** A non-nil lease pointer: the empty lease, or one of the store. *)
Inductive leaseRef : Type :=
| Detached
| Leased (id : nat).

#[global] Instance leaseRef_eq_dec : EqDecision leaseRef.
Proof. solve_decision. Defined.

Definition newReverseProxyMemoryPool (cap : Z) : reverseProxyMemoryPool := mkPool cap 0 ∅ 0 0.

Definition poolConfigure (cap : Z) (p : reverseProxyMemoryPool) : reverseProxyMemoryPool :=
  let cap := if cap <? reverseProxyMinimumRewriteReservationBytes
             then reverseProxyMinimumRewriteReservationBytes else cap in
  mkPool cap (used p) (ruleUsed p) (cacheUsed p) (rewriteUsed p).

(** [p.ruleUsed[ruleID]]: a missing key reads as zero. *)
Definition ruleUsedOf (p : reverseProxyMemoryPool) (ruleID : Z) : Z :=
  default 0 (ruleUsed p !! ruleID).

Definition reserve (ruleID bytes : Z) (category : string) (p : reverseProxyMemoryPool)
  : reverseProxyMemoryPool :=
  mkPool (capacity p) (used p +! bytes)
    (if ruleID =? 0 then ruleUsed p
     else <[ruleID := ruleUsedOf p ruleID +! bytes]> (ruleUsed p))
    (if decide (category = "cache") then cacheUsed p +! bytes else cacheUsed p)
    (if decide (category = "rewrite") then rewriteUsed p +! bytes else rewriteUsed p).

Definition poolTryAcquire (ruleID bytes ruleLimit : Z) (category : string) (m : memory)
  : option leaseRef * memory :=
  let p := m_pool m in
  if bytes <=? 0 then (Some Detached, m)
  else if (0 <? ruleLimit) && (ruleLimit <? bytes) then (None, m)
  else if (0 <? capacity p) && (capacity p <? used p +! bytes) then (None, m)
  else if negb (ruleID =? 0) && (0 <? ruleLimit) && (ruleLimit <? ruleUsedOf p ruleID +! bytes)
  then (None, m)
  else
    (Some (Leased (m_next m)),
     mkMemory (reserve ruleID bytes category p)
       (<[m_next m := mkLease ruleID bytes category false]> (m_leases m)) (S (m_next m))).

(** [x -= b], clamped at zero from below. *)
Definition subClamp (x b : Z) : Z := let y := x -! b in if y <? 0 then 0 else y.

Definition unreserve (l : reverseProxyMemoryLease) (p : reverseProxyMemoryPool)
  : reverseProxyMemoryPool :=
  let b := lease_bytes l in
  let left := ruleUsedOf p (lease_ruleID l) -! b in
  mkPool (capacity p) (subClamp (used p) b)
    (if lease_ruleID l =? 0 then ruleUsed p
     else if left <=? 0 then delete (lease_ruleID l) (ruleUsed p)
     else <[lease_ruleID l := left]> (ruleUsed p))
    (if decide (lease_category l = "cache") then subClamp (cacheUsed p) b else cacheUsed p)
    (if decide (lease_category l = "rewrite") then subClamp (rewriteUsed p) b else rewriteUsed p).

(** [l.Release()]; [None] is a nil lease. *)
Definition leaseRelease (l : option leaseRef) (m : memory) : memory :=
  match l with
  | None | Some Detached => m
  | Some (Leased id) =>
      match m_leases m !! id with
      | None => m
      | Some lease =>
          if lease_bytes lease <=? 0 then m
          else if lease_released lease then m
          else mkMemory (unreserve lease (m_pool m))
                 (<[id := mkLease (lease_ruleID lease) (lease_bytes lease)
                            (lease_category lease) true]> (m_leases m))
                 (m_next m)
      end
  end.

Definition poolSnapshot (p : reverseProxyMemoryPool) : Z * Z * Z :=
  (used p, cacheUsed p, rewriteUsed p).

(** ** Limiters ([service/reverse_proxy_resources.go]) *)

Record reverseProxyAdjustableLimiter : Type := mkLimiter { max : Z; active : Z }.

Definition reverseProxyRuleLimit (value : Z) : Z := if value <? 0 then 0 else value.

Definition limiterSetMax (m : Z) (l : reverseProxyAdjustableLimiter) : reverseProxyAdjustableLimiter :=
  mkLimiter (if m <? 0 then 0 else m) (active l).

Definition limiterTryAcquire (l : reverseProxyAdjustableLimiter)
  : bool * reverseProxyAdjustableLimiter :=
  if (0 <? max l) && (max l <=? active l) then (false, l)
  else (true, mkLimiter (max l) (active l +! 1)).

Definition limiterRelease (l : reverseProxyAdjustableLimiter) : reverseProxyAdjustableLimiter :=
  if 0 <? active l then mkLimiter (max l) (active l -! 1) else l.

Definition limiterSnapshot (l : reverseProxyAdjustableLimiter) : Z * Z := (active l, max l).

(** ** The invariant of the pool

    Each counter is the sum of the leases that are still out. *)

Definition outstanding (l : reverseProxyMemoryLease) : Z :=
  if lease_released l then 0 else lease_bytes l.

Definition outOfRule (r : Z) (l : reverseProxyMemoryLease) : Z :=
  if lease_ruleID l =? r then outstanding l else 0.

Definition outOfCategory (c : string) (l : reverseProxyMemoryLease) : Z :=
  if decide (lease_category l = c) then outstanding l else 0.

(** No counter can wrap while every reservation is at most [maxReservation]
    and the capacity is configured to at most [maxReservation]. *)
Definition maxReservation : Z := 2 ^ 62 - 1.

Record PoolInv (m : memory) : Prop := {
  pi_bytes : forall id l, m_leases m !! id = Some l -> 0 < lease_bytes l;
  pi_next : forall id, is_Some (m_leases m !! id) -> (id < m_next m)%nat;
  pi_used : used (m_pool m) = msum outstanding (m_leases m);
  pi_rule : forall r, r <> 0 -> ruleUsedOf (m_pool m) r = msum (outOfRule r) (m_leases m);
  pi_rulePos : forall r b, ruleUsed (m_pool m) !! r = Some b -> r <> 0 /\ 0 < b;
  pi_cache : cacheUsed (m_pool m) = msum (outOfCategory "cache") (m_leases m);
  pi_rewrite : rewriteUsed (m_pool m) = msum (outOfCategory "rewrite") (m_leases m);
  pi_capacity : 0 < capacity (m_pool m) <= maxReservation;
  pi_usedMax : used (m_pool m) <= maxReservation }.

Section Pool.
Implicit Types (m : memory) (l : reverseProxyMemoryLease) (p : reverseProxyMemoryPool).

Lemma outstanding_nonneg l : 0 < lease_bytes l -> 0 <= outstanding l <= lease_bytes l.
Proof. unfold outstanding. destruct (lease_released l); lia. Qed.

(** The part of the sum a class of leases holds is at most the whole. *)
Lemma msum_le (f g : reverseProxyMemoryLease -> Z) (ls : gmap nat reverseProxyMemoryLease) :
  (forall id l, ls !! id = Some l -> 0 <= f l <= g l) -> 0 <= msum f ls <= msum g ls.
Proof.
  induction ls as [|id l ls Hid IH] using map_ind; intros Hle.
  - rewrite !msum_empty. lia.
  - rewrite !msum_insert by done.
    pose proof (Hle id l (lookup_insert_eq _ _ _)).
    assert (0 <= msum f ls <= msum g ls); [|lia]. apply IH. intros id' l' Hl.
    apply (Hle id'). rewrite lookup_insert_ne; [done|]. by intros ->; rewrite Hid in Hl.
Qed.

Lemma part_bounds m (f : reverseProxyMemoryLease -> Z) :
  PoolInv m -> (forall l, 0 < lease_bytes l -> 0 <= f l <= outstanding l) ->
  0 <= msum f (m_leases m) <= used (m_pool m).
Proof.
  intros Hi Hf. rewrite (pi_used _ Hi). apply msum_le.
  intros id l Hl. apply Hf. by eapply pi_bytes.
Qed.

Lemma outOfRule_part r l : 0 < lease_bytes l -> 0 <= outOfRule r l <= outstanding l.
Proof. intros Hb%outstanding_nonneg. unfold outOfRule. case_match; lia. Qed.

Lemma outOfCategory_part c l : 0 < lease_bytes l -> 0 <= outOfCategory c l <= outstanding l.
Proof. intros Hb%outstanding_nonneg. unfold outOfCategory. case_match; lia. Qed.

Lemma counters_bounds m :
  PoolInv m ->
  0 <= used (m_pool m) <= maxReservation /\
  (forall r, r <> 0 -> 0 <= ruleUsedOf (m_pool m) r <= used (m_pool m)) /\
  0 <= cacheUsed (m_pool m) <= used (m_pool m) /\
  0 <= rewriteUsed (m_pool m) <= used (m_pool m).
Proof.
  intros Hi. pose proof (pi_usedMax _ Hi).
  assert (0 <= used (m_pool m)).
  { pose proof (part_bounds m outstanding Hi) as H'. rewrite (pi_used _ Hi) at 1.
    apply H'. intros. pose proof (outstanding_nonneg l). lia. }
  split; [done|]. split; [|split].
  - intros r Hr. rewrite (pi_rule _ Hi r Hr). apply part_bounds; [done|].
    intros. by apply outOfRule_part.
  - rewrite (pi_cache _ Hi). apply part_bounds; [done|]. intros. by apply outOfCategory_part.
  - rewrite (pi_rewrite _ Hi). apply part_bounds; [done|]. intros. by apply outOfCategory_part.
Qed.

Lemma next_fresh m : PoolInv m -> m_leases m !! m_next m = None.
Proof.
  intros Hi. apply eq_None_not_Some. intros Hs%(pi_next _ Hi). lia.
Qed.

Lemma ruleUsedOf_reserve ruleID bytes c p r :
  ruleUsedOf (reserve ruleID bytes c p) r =
  if decide (r = ruleID /\ ruleID <> 0) then ruleUsedOf p r +! bytes else ruleUsedOf p r.
Proof.
  unfold ruleUsedOf, reserve. simpl. destruct (Z.eqb_spec ruleID 0) as [->|Hne].
  - by rewrite decide_False by tauto.
  - destruct (decide (r = ruleID)) as [->|Hr].
    + by rewrite lookup_insert_eq, decide_True by done.
    + by rewrite lookup_insert_ne, decide_False by (done || tauto).
Qed.

(** The accounting after a new lease. *)
Lemma PoolInv_reserve m ruleID bytes category :
  PoolInv m -> 0 < bytes <= maxReservation ->
  used (m_pool m) + bytes <= capacity (m_pool m) ->
  PoolInv (mkMemory (reserve ruleID bytes category (m_pool m))
    (<[m_next m := mkLease ruleID bytes category false]> (m_leases m)) (S (m_next m))).
Proof.
  intros Hi Hb Hcap. pose proof (next_fresh m Hi) as Hn.
  destruct (counters_bounds m Hi) as (Hu & Hr & Hc & Hw).
  pose proof (pi_capacity _ Hi) as Hk. unfold maxReservation in *.
  constructor; simpl; rewrite ?msum_insert by done; simpl.
  - intros id l. rewrite lookup_insert_Some. intros [[_ <-]|[_ Hl]]; [simpl; lia|].
    by eapply pi_bytes.
  - intros id. rewrite lookup_insert_is_Some'. intros [<-|Hs]; [lia|].
    apply (pi_next _ Hi) in Hs. lia.
  - rewrite <- (pi_used _ Hi). unfold outstanding. simpl. i64. lia.
  - intros r Hr0. rewrite msum_insert by done. rewrite ruleUsedOf_reserve.
    rewrite <- (pi_rule _ Hi r Hr0). pose proof (Hr r Hr0). unfold outOfRule, outstanding. simpl.
    destruct (Z.eqb_spec ruleID r) as [->|Hne].
    + rewrite decide_True by done. i64. lia.
    + rewrite decide_False by (by intros [-> _]). lia.
  - intros r b. destruct (Z.eqb_spec ruleID 0); [by apply pi_rulePos|].
    rewrite lookup_insert_Some. intros [[<- <-]|[_ Hl]]; [|by apply pi_rulePos in Hl].
    pose proof (Hr ruleID ltac:(done)). i64. lia.
  - rewrite <- (pi_cache _ Hi). unfold outOfCategory, outstanding. simpl.
    case_decide; [i64; lia|lia].
  - rewrite <- (pi_rewrite _ Hi). unfold outOfCategory, outstanding. simpl.
    case_decide; [i64; lia|lia].
  - done.
  - unfold maxReservation. i64. lia.
Qed.

(** What a rule already holds, as the admission test sees it. *)
Definition ruleShare p (ruleID : Z) : Z := if ruleID =? 0 then 0 else ruleUsedOf p ruleID.

(** Whether a reservation fits, in unbounded arithmetic. *)
Definition fits p (ruleID bytes ruleLimit : Z) : Prop :=
  used p + bytes <= capacity p /\
  (0 < ruleLimit -> ruleShare p ruleID + bytes <= ruleLimit).

Lemma acquire_spec m ruleID bytes ruleLimit category :
  PoolInv m -> 0 < bytes <= maxReservation ->
  let '(o, m') := poolTryAcquire ruleID bytes ruleLimit category m in
  PoolInv m' /\
  (o = None /\ m' = m /\ ~ fits (m_pool m) ruleID bytes ruleLimit \/
   o = Some (Leased (m_next m)) /\ fits (m_pool m) ruleID bytes ruleLimit /\
   m_pool m' = reserve ruleID bytes category (m_pool m) /\
   m_leases m' = <[m_next m := mkLease ruleID bytes category false]> (m_leases m)).
Proof.
  intros Hi Hb. unfold poolTryAcquire, fits, ruleShare.
  destruct (counters_bounds m Hi) as (Hu & Hr & _). pose proof (pi_capacity _ Hi) as Hk.
  assert (Hshare : ruleID <> 0 -> ruleUsedOf (m_pool m) ruleID +! bytes =
                   ruleUsedOf (m_pool m) ruleID + bytes).
  { intros Hne. specialize (Hr ruleID Hne). unfold maxReservation in *. by i64. }
  assert (used (m_pool m) +! bytes = used (m_pool m) + bytes) as Hadd
    by (unfold maxReservation in *; by i64).
  rewrite Hadd. destruct (Z.leb_spec bytes 0); [lia|].
  destruct (Z.ltb_spec 0 (capacity (m_pool m))); [|lia]. simpl.
  destruct (Z.eqb_spec ruleID 0) as [->|Hne].
  - simpl. zcases; (split; [try done; apply PoolInv_reserve; (done || lia)|]);
      first [left; split; [done|]; split; [done|]; lia
            |right; split; [done|]; split; [lia|]; done].
  - rewrite (Hshare Hne). pose proof (Hr ruleID Hne).
    zcases; (split; [try done; apply PoolInv_reserve; (done || lia)|]);
      first [left; split; [done|]; split; [done|]; lia
            |right; split; [done|]; split; [lia|]; done].
Qed.

Lemma acquire_trivial m ruleID bytes ruleLimit category :
  bytes <= 0 -> poolTryAcquire ruleID bytes ruleLimit category m = (Some Detached, m).
Proof. intros. unfold poolTryAcquire. destruct (Z.leb_spec bytes 0); [done|lia]. Qed.

Lemma subClamp_exact x b : 0 <= b <= x -> x <= maxReservation -> subClamp x b = x - b.
Proof. intros. unfold subClamp, maxReservation in *. i64. zcases; lia. Qed.

(** The counters after the first release of a lease: the clamps never act. *)
Definition released l : reverseProxyMemoryLease :=
  mkLease (lease_ruleID l) (lease_bytes l) (lease_category l) true.

Lemma share_of m (f : reverseProxyMemoryLease -> Z) id l :
  PoolInv m -> (forall x, 0 < lease_bytes x -> 0 <= f x <= outstanding x) ->
  m_leases m !! id = Some l -> f l <= msum f (m_leases m).
Proof.
  intros Hi Hf Hl. apply (msum_lookup_le f _ id); [|done].
  intros k a Ha. apply Hf. by eapply pi_bytes.
Qed.

Lemma PoolInv_unreserve m id l :
  PoolInv m -> m_leases m !! id = Some l -> lease_released l = false ->
  PoolInv (mkMemory (unreserve l (m_pool m)) (<[id := released l]> (m_leases m)) (m_next m)) /\
  used (unreserve l (m_pool m)) = used (m_pool m) - lease_bytes l.
Proof.
  intros Hi Hl Hrel. destruct (counters_bounds m Hi) as (Hu & Hr & Hc & Hw).
  pose proof (pi_bytes _ Hi _ _ Hl) as Hb.
  assert (Hout : outstanding l = lease_bytes l) by (unfold outstanding; by rewrite Hrel).
  pose proof (share_of m outstanding id l Hi
    ltac:(intros; pose proof (outstanding_nonneg x); lia) Hl) as S0.
  pose proof (share_of m (outOfCategory "cache") id l Hi (outOfCategory_part _) Hl) as S1.
  pose proof (share_of m (outOfCategory "rewrite") id l Hi (outOfCategory_part _) Hl) as S2.
  pose proof (share_of m (outOfRule (lease_ruleID l)) id l Hi (outOfRule_part _) Hl) as S3.
  rewrite <- (pi_used _ Hi) in S0. rewrite <- (pi_cache _ Hi) in S1.
  rewrite <- (pi_rewrite _ Hi) in S2. unfold outOfCategory in S1, S2.
  unfold outOfRule at 1 in S3. rewrite Z.eqb_refl, Hout in S3. rewrite Hout in S0, S1, S2.
  assert (used (unreserve l (m_pool m)) = used (m_pool m) - lease_bytes l) as Hused
    by (simpl; apply subClamp_exact; lia).
  assert (Hleft : lease_ruleID l <> 0 ->
    ruleUsedOf (m_pool m) (lease_ruleID l) -! lease_bytes l =
    ruleUsedOf (m_pool m) (lease_ruleID l) - lease_bytes l).
  { intros Hne. specialize (Hr _ Hne). unfold maxReservation in *. by i64. }
  split; [|done]. constructor; simpl m_pool; simpl m_leases; simpl m_next;
    rewrite ?(msum_update _ _ id l) by done.
  - intros k x. rewrite lookup_insert_Some. intros [[_ <-]|[_ Hx]]; [done|]. by eapply pi_bytes.
  - intros k. rewrite lookup_insert_is_Some'. intros [<-|Hs]; apply (pi_next _ Hi); [by eexists|done].
  - rewrite Hused, <- (pi_used _ Hi), Hout. unfold outstanding. simpl. lia.
  - intros r Hr0. rewrite (msum_update _ _ id l) by done. rewrite <- (pi_rule _ Hi r Hr0).
    unfold outOfRule at 1 2, outstanding. simpl. rewrite Hrel.
    unfold ruleUsedOf at 1. simpl ruleUsed. destruct (Z.eqb_spec (lease_ruleID l) 0) as [H0|H0].
    { destruct (Z.eqb_spec (lease_ruleID l) r); [lia|]. unfold ruleUsedOf. lia. }
    rewrite (Hleft H0). destruct (Z.eqb_spec (lease_ruleID l) r) as [<-|Hne].
    + rewrite <- (pi_rule _ Hi _ H0) in S3. zcase.
      * rewrite lookup_delete_eq. simpl. lia.
      * rewrite lookup_insert_eq. simpl. lia.
    + zcase; [rewrite lookup_delete_ne by done|rewrite lookup_insert_ne by done]; unfold ruleUsedOf; lia.
  - intros r b. simpl ruleUsed. destruct (Z.eqb_spec (lease_ruleID l) 0) as [|H0]; [by apply pi_rulePos|].
    rewrite (Hleft H0). zcase.
    + rewrite lookup_delete_Some. intros [_ Hx]. by apply (pi_rulePos _ Hi) in Hx.
    + rewrite lookup_insert_Some. intros [[<- <-]|[_ Hx]]; [done|]. by apply (pi_rulePos _ Hi) in Hx.
  - rewrite <- (pi_cache _ Hi). unfold outOfCategory. rewrite Hout. cbn.
    destruct (decide (lease_category l = "cache")); [rewrite subClamp_exact by lia|]; lia.
  - rewrite <- (pi_rewrite _ Hi). unfold outOfCategory. rewrite Hout. cbn.
    destruct (decide (lease_category l = "rewrite")); [rewrite subClamp_exact by lia|]; lia.
  - apply Hi.
  - rewrite Hused. lia.
Qed.

Lemma release_spec m r :
  PoolInv m ->
  let m' := leaseRelease r m in
  PoolInv m' /\
  used (m_pool m') = used (m_pool m) -
    (match r with Some (Leased id) => default 0 (outstanding <$> m_leases m !! id) | _ => 0 end) /\
  m_next m' = m_next m.
Proof.
  intros Hi. cbv zeta. destruct r as [[|id]|]; simpl; [by split; [|split; [lia|]]| |by split; [|split; [lia|]]].
  destruct (m_leases m !! id) as [l|] eqn:Hl; [|by split; [|split; [simpl; lia|]]].
  pose proof (pi_bytes _ Hi _ _ Hl). destruct (Z.leb_spec (lease_bytes l) 0); [lia|].
  simpl. unfold outstanding. destruct (lease_released l) eqn:Hr; [by split; [|split; [lia|]]|].
  destruct (PoolInv_unreserve m id l Hi Hl Hr) as [? Hu]. split; [done|]. split; [exact Hu|done].
Qed.

(** Releasing leaves at least as much room. *)
Definition PoolLe p p' : Prop :=
  capacity p' = capacity p /\ used p' <= used p /\
  forall r, r <> 0 -> ruleUsedOf p' r <= ruleUsedOf p r.

Lemma PoolLe_refl p : PoolLe p p.
Proof. by repeat split. Qed.

Lemma PoolLe_trans p1 p2 p3 : PoolLe p1 p2 -> PoolLe p2 p3 -> PoolLe p1 p3.
Proof.
  intros (? & ? & H1) (? & ? & H2). split; [congruence|]. split; [lia|].
  intros r Hr. specialize (H1 r Hr). specialize (H2 r Hr). lia.
Qed.

Lemma fits_le p p' ruleID bytes limit : PoolLe p p' -> fits p ruleID bytes limit -> fits p' ruleID bytes limit.
Proof.
  intros (Hc & Hu & Hr) [H1 H2]. split; [lia|]. intros Hl. specialize (H2 Hl).
  unfold ruleShare in *. destruct (Z.eqb_spec ruleID 0) as [|Hne]; [done|].
  specialize (Hr ruleID Hne). lia.
Qed.

Lemma release_le m r : PoolInv m -> PoolLe (m_pool m) (m_pool (leaseRelease r m)).
Proof.
  intros Hi. destruct (release_spec m r Hi) as (Hi' & _ & _).
  destruct r as [[|id]|]; [by repeat split| |by repeat split]. simpl in *.
  destruct (m_leases m !! id) as [l|] eqn:Hl; [|by repeat split].
  destruct (Z.leb_spec (lease_bytes l) 0); [by repeat split|].
  destruct (lease_released l) eqn:Hr; [by repeat split|].
  destruct (PoolInv_unreserve m id l Hi Hl Hr) as [_ Hu].
  split; [done|]. split; [simpl in Hu |- *; lia|]. intros r Hr0.
  rewrite (pi_rule _ Hi r Hr0), (pi_rule _ Hi' r Hr0). simpl m_leases.
  rewrite (msum_update _ _ id l) by done.
  pose proof (outOfRule_part r l ltac:(lia)). unfold outOfRule at 3, outstanding. simpl.
  case_match; lia.
Qed.

Lemma configure_spec m cap :
  PoolInv m -> cap <= maxReservation ->
  PoolInv (mkMemory (poolConfigure cap (m_pool m)) (m_leases m) (m_next m)).
Proof.
  intros [] Hc. constructor; try done. simpl.
  unfold maxReservation, reverseProxyMinimumRewriteReservationBytes in *. zcases; lia.
Qed.

(** Runs of the pool: configurations, acquisitions and releases, in any order. *)
Inductive poolRun : memory -> Prop :=
| pool_new cap : 0 < cap <= maxReservation ->
    poolRun (mkMemory (newReverseProxyMemoryPool cap) ∅ 0)
| pool_configure cap m : poolRun m -> cap <= maxReservation ->
    poolRun (mkMemory (poolConfigure cap (m_pool m)) (m_leases m) (m_next m))
| pool_acquire ruleID bytes ruleLimit category m : poolRun m -> bytes <= maxReservation ->
    poolRun (poolTryAcquire ruleID bytes ruleLimit category m).2
| pool_release r m : poolRun m -> poolRun (leaseRelease r m).

Lemma acquire_Inv m ruleID bytes ruleLimit category :
  PoolInv m -> bytes <= maxReservation ->
  PoolInv (poolTryAcquire ruleID bytes ruleLimit category m).2.
Proof.
  intros Hi Hb. destruct (Z.le_gt_cases bytes 0).
  - by rewrite acquire_trivial.
  - pose proof (acquire_spec m ruleID bytes ruleLimit category Hi ltac:(lia)) as Ha.
    destruct (poolTryAcquire ruleID bytes ruleLimit category m). by destruct Ha.
Qed.

Lemma poolRun_Inv m : poolRun m -> PoolInv m.
Proof.
  induction 1 as [cap Hc|cap m _ IH Hc|? ? ? ? m _ IH Hb|r m _ IH].
  - constructor; simpl; try done.
    intros ? [? H']. by rewrite lookup_empty in H'.
  - by apply configure_spec.
  - by apply acquire_Inv.
  - by apply release_spec.
Qed.

(** C30: in every run of the memory pool the total, the per-rule and the
    per-category counters are exactly the bytes of the leases that have
    been acquired and not yet released, rules that hold nothing have no
    entry, and nothing wraps around. *)
Theorem pool_accounting m :
  poolRun m ->
  used (m_pool m) = msum outstanding (m_leases m) /\
  (forall r, r <> 0 -> ruleUsedOf (m_pool m) r = msum (outOfRule r) (m_leases m)) /\
  (forall r b, ruleUsed (m_pool m) !! r = Some b -> r <> 0 /\ 0 < b) /\
  cacheUsed (m_pool m) = msum (outOfCategory "cache") (m_leases m) /\
  rewriteUsed (m_pool m) = msum (outOfCategory "rewrite") (m_leases m) /\
  0 <= used (m_pool m) <= maxReservation.
Proof.
  intros Hi%poolRun_Inv. destruct (counters_bounds m Hi) as [? _]. destruct Hi. done.
Qed.

(** a positive reservation is admitted exactly when it fits: the pool's
    total stays within its capacity and, under a rule limit, the rule's
    share stays within that limit; a refusal changes nothing, an admission
    adds exactly the bytes. *)
Theorem pool_admission m ruleID bytes ruleLimit category :
  poolRun m -> 0 < bytes <= maxReservation ->
  let '(o, m') := poolTryAcquire ruleID bytes ruleLimit category m in
  (o <> None <-> fits (m_pool m) ruleID bytes ruleLimit) /\
  (o = None -> m' = m) /\
  (o <> None -> used (m_pool m') = used (m_pool m) + bytes /\
                used (m_pool m') <= capacity (m_pool m')).
Proof.
  intros Hi%poolRun_Inv Hb. pose proof (acquire_spec m ruleID bytes ruleLimit category Hi Hb) as Ha.
  destruct (poolTryAcquire ruleID bytes ruleLimit category m) as [o m'].
  destruct Ha as [_ [(-> & -> & Hn)|(-> & Hf & Hp & _)]]; [done|].
  split; [done|]. split; [done|]. intros _. rewrite Hp. simpl.
  destruct (counters_bounds m Hi) as [Hu _]. destruct Hf as [Hf _].
  unfold maxReservation in *. i64. lia.
Qed.

Lemma unreserve_reserve m ruleID bytes category :
  PoolInv m -> 0 < bytes <= maxReservation -> used (m_pool m) + bytes <= maxReservation ->
  unreserve (mkLease ruleID bytes category false) (reserve ruleID bytes category (m_pool m)) =
  m_pool m.
Proof.
  intros Hi Hb Hfit. destruct (counters_bounds m Hi) as (Hu & Hr & Hc & Hw).
  unfold maxReservation in *. pose proof (pi_rulePos _ Hi ruleID) as Hpos.
  assert (Hx : forall x, 0 <= x <= used (m_pool m) -> subClamp (x +! bytes) bytes = x).
  { intros x Hx. unfold subClamp. i64. zcases; lia. }
  destruct (m_pool m) as [cap u ru cu wu]. unfold unreserve, reserve. simpl in *.
  rewrite Hx by lia. f_equal.
  - unfold ruleUsedOf in *. simpl in *. destruct (Z.eqb_spec ruleID 0) as [|H0]; [done|].
    pose proof (Hr ruleID H0) as Hb0. rewrite lookup_insert_eq. simpl.
    destruct (ru !! ruleID) as [b|] eqn:Hru; simpl in *.
    + specialize (Hpos b eq_refl). i64. destruct (Z.leb_spec (b + bytes - bytes) 0); [lia|].
      rewrite insert_insert_eq. apply insert_id. rewrite Hru. f_equal. lia.
    + i64. destruct (Z.leb_spec (0 + bytes - bytes) 0); [|lia]. by rewrite delete_insert_id.
  - case_decide; [apply Hx; lia|done].
  - case_decide; [apply Hx; lia|done].
Qed.

(** releasing a lease undoes its acquisition: every counter of the pool
    is what it was before; releasing it once more changes nothing at all. *)
Theorem release_undoes_acquire m ruleID bytes ruleLimit category o m' :
  poolRun m -> 0 < bytes <= maxReservation ->
  poolTryAcquire ruleID bytes ruleLimit category m = (Some o, m') ->
  m_pool (leaseRelease (Some o) m') = m_pool m /\
  leaseRelease (Some o) (leaseRelease (Some o) m') = leaseRelease (Some o) m'.
Proof.
  intros Hi%poolRun_Inv Hb Ha. pose proof (acquire_spec m ruleID bytes ruleLimit category Hi Hb) as Hs.
  rewrite Ha in Hs. destruct Hs as [_ [(? & _)|(Ho & [Hfit _] & Hp & Hl)]]; [done|].
  injection Ho as ->. pose proof (pi_capacity _ Hi). simpl. rewrite Hl, lookup_insert_eq. simpl.
  destruct (Z.leb_spec bytes 0); [lia|]. simpl. rewrite lookup_insert_eq. simpl.
  destruct (Z.leb_spec bytes 0); [lia|]. split; [|done]. rewrite Hp.
  apply unreserve_reserve; (done || lia).
Qed.
End Pool.

(** Without the bound on a single reservation the capacity test wraps. *)
Example admission_wraps :
  let m := mkMemory (mkPool 1000000 500 ∅ 0 0) ∅ 0 in
  (poolTryAcquire 0 max_i64 0 "cache" m).1 <> None.
Proof. vm_compute. discriminate. Qed.

(** A run for the witnesses: two leases, one of them released. *)
Definition demoPool : memory :=
  leaseRelease (Some (Leased 0))
    (poolTryAcquire 7 300 1000 "rewrite"
      (poolTryAcquire 7 200 1000 "cache"
        (mkMemory (newReverseProxyMemoryPool 600000) ∅ 0)).2).2.

Lemma demoPool_run : poolRun demoPool.
Proof.
  apply pool_release, pool_acquire; [apply pool_acquire; [apply pool_new|]|];
    unfold maxReservation; lia.
Qed.

Lemma pool_accounting_witness :
  used (m_pool demoPool) = msum outstanding (m_leases demoPool) /\ used (m_pool demoPool) = 300.
Proof. split; [apply (pool_accounting demoPool demoPool_run)|reflexivity]. Defined.

Lemma pool_admission_witness :
  (poolTryAcquire 7 701 1000 "cache" demoPool).1 = None /\
  ~ fits (m_pool demoPool) 7 701 1000.
Proof.
  pose proof (pool_admission demoPool 7 701 1000 "cache" demoPool_run
    ltac:(unfold maxReservation; lia)) as H.
  destruct (poolTryAcquire 7 701 1000 "cache" demoPool) as [o m'] eqn:E.
  vm_compute in E. injection E as <- <-. split; [reflexivity|].
  intros Hf. destruct H as [[_ H] _]. by apply (H Hf).
Defined.

Lemma release_undoes_acquire_witness :
  m_pool (leaseRelease (Some (Leased 2)) (poolTryAcquire 7 700 1000 "cache" demoPool).2) =
  m_pool demoPool.
Proof.
  apply (release_undoes_acquire demoPool 7 700 1000 "cache" (Leased 2)).
  - apply demoPool_run.
  - unfold maxReservation. lia.
  - reflexivity.
Defined.

(** ** Limiters

    [holders] counts the successful acquisitions that have not been given
    back; a holder releases once. *)

Inductive limiterOp : Type :=
| LSetMax (m : Z)
| LTryAcquire
| LRelease.

Definition limiterStep (op : limiterOp) (s : reverseProxyAdjustableLimiter * Z)
  : reverseProxyAdjustableLimiter * Z :=
  let '(l, holders) := s in
  match op with
  | LSetMax m => (limiterSetMax m l, holders)
  | LTryAcquire =>
      let '(ok, l') := limiterTryAcquire l in (l', if ok then holders + 1 else holders)
  | LRelease => if 0 <? holders then (limiterRelease l, holders - 1) else (l, holders)
  end.

Definition limiterRun (ops : list limiterOp) : reverseProxyAdjustableLimiter * Z :=
  foldl (fun s op => limiterStep op s) (mkLimiter 0 0, 0) ops.

Lemma limiterRun_snoc ops op : limiterRun (ops ++ [op]) = limiterStep op (limiterRun ops).
Proof. unfold limiterRun. by rewrite foldl_app. Qed.

Lemma limiterRun_spec ops :
  Z.of_nat (length ops) <= max_i64 ->
  let '(l, holders) := limiterRun ops in
  active l = holders /\ 0 <= holders <= Z.of_nat (length ops) /\ 0 <= max l.
Proof.
  induction ops as [|op ops IH] using rev_ind; intros Hlen; [done|].
  rewrite length_app in Hlen. simpl in Hlen. specialize (IH ltac:(lia)).
  rewrite limiterRun_snoc, length_app. destruct (limiterRun ops) as [l h].
  destruct IH as (Ha & Hb & Hm). unfold max_i64 in *.
  destruct op; simpl; unfold limiterSetMax, limiterTryAcquire, limiterRelease.
  - simpl. zcases; lia.
  - destruct (_ && _); simpl; [lia|]. i64. lia.
  - rewrite Ha. destruct (Z.ltb_spec 0 h); simpl; [|lia]. i64. lia.
Qed.

(** over any sequence of operations a limiter's active count is exactly
      the number of current holders, and one more acquisition is refused
      exactly when a positive maximum is reached, so that holders admitted
      under a fixed positive maximum never exceed it. *)
Theorem limiter_counts_holders ops :
  Z.of_nat (length ops) < max_i64 ->
  let '(l, holders) := limiterRun ops in
  active l = holders /\ 0 <= holders /\
  ((limiterTryAcquire l).1 = false <-> 0 < max l <= holders) /\
  (forall m tail, Forall (fun op => op = LTryAcquire \/ op = LRelease) tail ->
     Z.of_nat (length ops) + Z.of_nat (length tail) < max_i64 ->
     0 < m -> holders <= m ->
     (limiterRun (ops ++ LSetMax m :: tail)).2 <= m).
Proof.
  intros Hlen. pose proof (limiterRun_spec ops ltac:(lia)) as Hs.
  destruct (limiterRun ops) as [l h] eqn:E. destruct Hs as (Ha & Hb & Hm).
  split; [done|]. split; [lia|]. split.
  { unfold limiterTryAcquire. rewrite Ha. zcases; (split; intros; [first [done|lia]|first [done|lia]]). }
  intros m tail Ht Hlen2 Hpos Hle.
  cut ((limiterRun (ops ++ LSetMax m :: tail)).2 <= m /\
       max (limiterRun (ops ++ LSetMax m :: tail)).1 = m); [tauto|].
  induction tail as [|op tail IH] using rev_ind.
  - rewrite limiterRun_snoc, E. simpl. split; [done|]. zcases; lia.
  - apply Forall_app in Ht as [Ht Hop]. rewrite length_app in Hlen2. simpl in Hlen2.
    destruct (IH Ht ltac:(lia)) as [IH1 IH2].
    change (ops ++ LSetMax m :: tail ++ [op]) with (ops ++ (LSetMax m :: tail) ++ [op]).
    rewrite app_assoc, limiterRun_snoc.
    pose proof (limiterRun_spec (ops ++ LSetMax m :: tail)) as Hs.
    rewrite length_app in Hs. simpl in Hs. specialize (Hs ltac:(lia)).
    destruct (limiterRun (ops ++ LSetMax m :: tail)) as [l' h']. destruct Hs as (Ha' & Hb' & _).
    simpl in IH1, IH2. rewrite Forall_singleton in Hop. destruct Hop as [-> | ->]; simpl.
    + unfold limiterTryAcquire. rewrite Ha', IH2. zcases; lia.
    + destruct (Z.ltb_spec 0 h'); simpl; [|lia]. unfold limiterRelease. zcases; lia.
Qed.

Lemma limiter_counts_holders_witness :
  let '(l, holders) := limiterRun [LSetMax 2; LTryAcquire; LTryAcquire] in
  (limiterTryAcquire l).1 = false <-> 0 < max l <= holders.
Proof.
  pose proof (limiter_counts_holders [LSetMax 2; LTryAcquire; LTryAcquire] ltac:(vm_compute; reflexivity)) as H.
  destruct (limiterRun [LSetMax 2; LTryAcquire; LTryAcquire]) as [l holders]. apply H.
Defined.
