(* ===== verification/Heap.v ===== *)
(** * Go's [container/heap] on a slice of pointers

    The DNS cache keeps its entries in a binary heap ordered by expiry time,
    [reverseProxyDNSExpiryHeap] in [service/reverse_proxy_memory.go].  The
    heap is a slice of entry pointers; its [Swap], [Push] and [Pop] also keep
    the [expiryIndex] field of each entry.  [heapUp], [heapDown], [heapPush]
    and [heapRemove] follow the standard library's algorithms; a pointer is
    its number, [key] reads the expiry time behind it. *)

From S2P Require Import Prelude.
From stdpp Require Import base gmap list.
From Stdlib Require Import ZArith Lia ZifyNat.

#[local] Open Scope Z_scope.
#[local] Open Scope nat_scope.

Ltac Zify.zify_post_hook ::= Z.to_euclidean_division_equations.

(** The slice and the [expiryIndex] of every entry. *)
Record expiryHeap : Type := mkHeap {
  items : list nat;
  expiryIndex : gmap nat Z }.

Definition heapSwap (i j : nat) (h : expiryHeap) : expiryHeap :=
  let a := items h !!! i in
  let b := items h !!! j in
  mkHeap (<[i := b]> (<[j := a]> (items h)))
    (<[a := Z.of_nat j]> (<[b := Z.of_nat i]> (expiryIndex h))).

Definition heapPushLast (x : nat) (h : expiryHeap) : expiryHeap :=
  mkHeap (items h ++ [x]) (<[x := Z.of_nat (length (items h))]> (expiryIndex h)).

Definition heapPop (h : expiryHeap) : expiryHeap :=
  match last (items h) with
  | None => h
  | Some x => mkHeap (take (length (items h) - 1) (items h)) (<[x := (-1)%Z]> (expiryIndex h))
  end.

Section Algorithms.
Variable key : nat -> Z.

Definition heapLess (i j : nat) (h : expiryHeap) : bool :=
  (key (items h !!! i) <? key (items h !!! j))%Z.

(** [up(h, j)]: the index at least halves, so [S j] steps suffice. *)
Fixpoint heapUp (fuel j : nat) (h : expiryHeap) : expiryHeap :=
  match fuel with
  | O => h
  | S fuel' =>
      let i := (j - 1) / 2 in
      if (i =? j) || negb (heapLess j i h) then h
      else heapUp fuel' i (heapSwap i j h)
  end.

(** [down(h, i0, n)] with the final position of the element; the index
    grows below [n], so [n] steps suffice. *)
Fixpoint heapDown (fuel i n : nat) (h : expiryHeap) : nat * expiryHeap :=
  match fuel with
  | O => (i, h)
  | S fuel' =>
      let j1 := 2 * i + 1 in
      if n <=? j1 then (i, h)
      else
        let j := if (j1 + 1 <? n) && heapLess (j1 + 1) j1 h then j1 + 1 else j1 in
        if negb (heapLess j i h) then (i, h)
        else heapDown fuel' j n (heapSwap i j h)
  end.

Definition heapPush (x : nat) (h : expiryHeap) : expiryHeap :=
  let h1 := heapPushLast x h in
  heapUp (length (items h1)) (length (items h1) - 1) h1.

Definition heapRemove (i : nat) (h : expiryHeap) : expiryHeap :=
  let n := length (items h) - 1 in
  let h1 :=
    if n =? i then h
    else
      let h2 := heapSwap i n h in
      let '(i', h3) := heapDown n i n h2 in
      if i <? i' then h3 else heapUp (S i) i h3 in
  heapPop h1.
End Algorithms.

(** ** Swapping two positions *)

Definition lswap (i j : nat) (l : list nat) : list nat :=
  <[i := l !!! j]> (<[j := l !!! i]> l).

Lemma length_lswap i j l : length (lswap i j l) = length l.
Proof. unfold lswap. by rewrite !length_insert. Qed.

Lemma lookup_lswap i j l k :
  i < length l -> j < length l ->
  lswap i j l !!! k = if decide (k = i) then l !!! j else if decide (k = j) then l !!! i else l !!! k.
Proof.
  intros Hi Hj. unfold lswap. case_decide as Hk; [subst k|case_decide as Hk'; [subst k|]].
  - by rewrite list_lookup_total_insert_eq by (by rewrite length_insert).
  - by rewrite list_lookup_total_insert_ne, list_lookup_total_insert_eq by done.
  - by rewrite !list_lookup_total_insert_ne by done.
Qed.

Lemma lswap_perm i j l : i < length l -> j < length l -> lswap i j l ≡ₚ l.
Proof.
  intros Hi Hj. destruct (decide (i = j)) as [->|Hne].
  { unfold lswap. rewrite list_insert_insert_eq.
    rewrite list_insert_id; [done|]. by apply list_lookup_lookup_total_lt. }
  apply lookup_lt_is_Some_2 in Hi as [a Ha]. apply lookup_lt_is_Some_2 in Hj as [b Hb].
  unfold lswap. rewrite (list_lookup_total_correct _ _ _ Ha), (list_lookup_total_correct _ _ _ Hb).
  apply Permutation_inj. split; [by rewrite !length_insert|].
  exists (fun k => if decide (k = i) then j else if decide (k = j) then i else k). split.
  - intros x y. repeat case_decide; congruence.
  - intros k. pose proof (lookup_lt_Some _ _ _ Ha). pose proof (lookup_lt_Some _ _ _ Hb).
    repeat case_decide; subst.
    + by rewrite list_lookup_insert_eq by (by rewrite length_insert).
    + by rewrite list_lookup_insert_ne, list_lookup_insert_eq by done.
    + by rewrite !list_lookup_insert_ne by done.
Qed.

Lemma items_heapSwap i j h : items (heapSwap i j h) = lswap i j (items h).
Proof. done. Qed.

(** ** Heap order on a prefix *)

Abbreviation parent k := ((k - 1) / 2).

Section Order.
Variable key : nat -> Z.
Implicit Types (l : list nat) (h : expiryHeap).

Abbreviation at_ l k := (key (l !!! k)).

Definition HeapOrd (n : nat) l : Prop :=
  forall k, 0 < k < n -> (at_ l (parent k) <= at_ l k)%Z.

(** Ordered except between [j] and its parent; or [i] and its children. *)
Definition UpOk (j n : nat) l : Prop :=
  (forall k, 0 < k < n -> k <> j -> (at_ l (parent k) <= at_ l k)%Z) /\
  (forall c, 0 < c < n -> parent c = j -> 0 < j -> (at_ l (parent j) <= at_ l c)%Z).

Definition DownOk (i n : nat) l : Prop :=
  (forall k, 0 < k < n -> parent k <> i -> k <> i -> (at_ l (parent k) <= at_ l k)%Z) /\
  (forall c, 0 < c < n -> parent c = i -> 0 < i -> (at_ l (parent i) <= at_ l c)%Z).

Lemma HeapOrd_root n l k : HeapOrd n l -> k < n -> (at_ l O <= at_ l k)%Z.
Proof.
  intros Ho. induction k as [k IH] using lt_wf_ind. intros Hk.
  destruct (decide (k = 0)) as [->|]; [lia|].
  pose proof (IH (parent k) ltac:(lia) ltac:(lia)). specialize (Ho k ltac:(lia)). lia.
Qed.

Lemma HeapOrd_UpOk j n l : HeapOrd n l -> UpOk j n l.
Proof.
  intros Ho. split; [intros; by apply Ho|]. intros c Hc Hp Hj.
  pose proof (Ho c Hc) as H1. pose proof (Ho j ltac:(lia)) as H2. rewrite Hp in H1. lia.
Qed.

Lemma UpOk_swap j n l :
  UpOk j n l -> 0 < j < n -> n <= length l -> (at_ l j < at_ l (parent j))%Z ->
  UpOk (parent j) n (lswap (parent j) j l).
Proof.
  intros [H1 H2] Hj Hn Hlt.
  assert (Hat : forall k, at_ (lswap (parent j) j l) k =
    if decide (k = parent j) then at_ l j else if decide (k = j) then at_ l (parent j) else at_ l k).
  { intros k. rewrite lookup_lswap by lia. by repeat case_decide. }
  split.
  - intros k Hk Hne. rewrite !Hat. rewrite (decide_False (P := k = parent j)) by done.
    destruct (decide (k = j)) as [->|Hkj]; [rewrite decide_True by done; lia|].
    destruct (decide (parent k = parent j)) as [Hpp|Hpp].
    + specialize (H1 k Hk Hkj). rewrite Hpp in H1. lia.
    + destruct (decide (parent k = j)) as [Hpj|Hpj]; [by apply H2; [| |lia]|by apply H1].
  - intros c Hc Hp Hj0. rewrite !Hat. rewrite (decide_False (P := c = parent j)) by lia.
    rewrite (decide_False (P := parent (parent j) = parent j)) by lia.
    rewrite (decide_False (P := parent (parent j) = j)) by lia.
    pose proof (H1 (parent j) ltac:(lia) ltac:(lia)) as Hpar.
    destruct (decide (c = j)); [done|]. specialize (H1 c Hc ltac:(done)). rewrite Hp in H1. lia.
Qed.

Lemma heapUp_items fuel : forall j n h,
  j < fuel -> j < n -> n <= length (items h) -> UpOk j n (items h) ->
  HeapOrd n (items (heapUp key fuel j h)) /\ items (heapUp key fuel j h) ≡ₚ items h /\
  (forall k, n <= k -> items (heapUp key fuel j h) !!! k = items h !!! k).
Proof.
  induction fuel as [|fuel IH]; intros j n h Hf Hj Hn Hup; [lia|]. cbn [heapUp]. cbv zeta.
  destruct (Nat.eqb_spec (parent j) j) as [Heq|Hne]; cbn [orb].
  { split; [|done]. intros k Hk. apply Hup; [done|]. lia. }
  unfold heapLess. destruct (Z.ltb_spec (at_ (items h) j) (at_ (items h) (parent j))) as [Hlt|Hge]; cbn.
  - destruct (IH (parent j) n (heapSwap (parent j) j h)) as (Ha & Hb & Hc).
    + lia.
    + lia.
    + rewrite items_heapSwap, length_lswap. done.
    + rewrite items_heapSwap. apply UpOk_swap; (done || lia).
    + split; [done|]. rewrite items_heapSwap in Hb, Hc. split.
      * rewrite Hb. apply lswap_perm; lia.
      * intros k Hk. rewrite Hc by done. rewrite lookup_lswap by lia.
        by rewrite !decide_False by lia.
  - split; [|done]. intros k Hk. destruct (decide (k = j)) as [->|]; [done|]. by apply Hup.
Qed.

(** Ordered except between [i] and its children. *)
Definition DownStrict (i n : nat) l : Prop :=
  (forall k, 0 < k < n -> parent k <> i -> (at_ l (parent k) <= at_ l k)%Z) /\
  (forall c, 0 < c < n -> parent c = i -> 0 < i -> (at_ l (parent i) <= at_ l c)%Z).

Lemma DownStrict_swap i j n l :
  DownOk i n l -> 0 < j < n -> parent j = i -> n <= length l ->
  (forall c, 0 < c < n -> parent c = i -> (at_ l j <= at_ l c)%Z) ->
  (at_ l j < at_ l i)%Z ->
  DownStrict j n (lswap i j l).
Proof.
  intros [H1 H2] Hj Hp Hn Hmin Hlt.
  assert (Hat : forall k, at_ (lswap i j l) k =
    if decide (k = i) then at_ l j else if decide (k = j) then at_ l i else at_ l k).
  { intros k. rewrite lookup_lswap by lia. by repeat case_decide. }
  split.
  - intros k Hk Hne. rewrite !Hat. rewrite (decide_False (P := parent k = j)) by done.
    destruct (decide (parent k = i)) as [Hpi|Hpi].
    + rewrite (decide_False (P := k = i)) by lia.
      destruct (decide (k = j)); [lia|by apply Hmin].
    + destruct (decide (k = i)) as [->|Hki]; [by apply H2; [| |lia]|].
      rewrite decide_False by congruence. by apply H1.
  - intros c Hc Hpc Hj0. rewrite !Hat. rewrite Hp, (decide_True (P := i = i)) by done.
    rewrite !decide_False by lia. rewrite <- Hpc. apply H1; [done|lia|lia].
Qed.

(** The child [heapDown] compares with: the smaller one. *)
Lemma down_child i n h :
  2 * i + 1 < n ->
  let j1 := 2 * i + 1 in
  let j := if (j1 + 1 <? n) && heapLess key (j1 + 1) j1 h then j1 + 1 else j1 in
  0 < j < n /\ i < j /\ parent j = i /\
  forall c, 0 < c < n -> parent c = i -> (at_ (items h) j <= at_ (items h) c)%Z.
Proof.
  intros Hn. cbv zeta. unfold heapLess.
  assert (Hc : forall c, 0 < c -> parent c = i -> c = 2 * i + 1 \/ c = 2 * i + 1 + 1) by lia.
  destruct (Nat.ltb_spec (2 * i + 1 + 1) n) as [Hlt|Hge]; cbn [andb].
  - destruct (Z.ltb_spec (at_ (items h) (2 * i + 1 + 1)) (at_ (items h) (2 * i + 1)));
      (split; [lia|]; split; [lia|]; split; [lia|]);
      intros c Hcn Hp; destruct (Hc c ltac:(lia) Hp) as [-> | ->]; lia.
  - split; [lia|]. split; [lia|]. split; [lia|].
    intros c Hcn Hp. destruct (Hc c ltac:(lia) Hp) as [-> | ->]; lia.
Qed.

Lemma DownStrict_done i n l :
  DownStrict i n l -> (forall c, 0 < c < n -> parent c = i -> (at_ l i <= at_ l c)%Z) -> HeapOrd n l.
Proof.
  intros [H1 _] Hc k Hk. destruct (decide (parent k = i)) as [Hp|]; [|by apply H1].
  rewrite Hp. by apply Hc.
Qed.

Lemma DownStrict_DownOk i n l : DownStrict i n l -> DownOk i n l.
Proof. intros [H1 H2]. split; [intros; by apply H1|done]. Qed.

Lemma heapDown_strict fuel : forall i n h,
  n <= i + fuel -> i < n -> n <= length (items h) -> DownStrict i n (items h) ->
  let '(i', h') := heapDown key fuel i n h in
  i <= i' /\ HeapOrd n (items h') /\ items h' ≡ₚ items h /\
  (forall k, n <= k -> items h' !!! k = items h !!! k).
Proof.
  induction fuel as [|fuel IH]; intros i n h Hf Hi Hn Hd; [lia|]. cbn [heapDown]. cbv zeta.
  destruct (Nat.leb_spec n (2 * i + 1)) as [Hle|Hgt].
  { split; [lia|]. split; [|done]. apply (DownStrict_done i); [done|]. lia. }
  destruct (down_child i n h Hgt) as (Hj & Hij & Hp & Hmin). cbv zeta in Hj, Hij, Hp, Hmin.
  set (j := if (_ : bool) then _ else _) in *. clearbody j. unfold heapLess.
  destruct (Z.ltb_spec (at_ (items h) j) (at_ (items h) i)) as [Hlt|Hge]; cbn.
  - specialize (IH j n (heapSwap i j h) ltac:(lia) ltac:(lia)).
    rewrite items_heapSwap, length_lswap in IH.
    specialize (IH Hn (DownStrict_swap i j n _ (DownStrict_DownOk _ _ _ Hd) Hj Hp Hn Hmin Hlt)).
    destruct (heapDown key fuel j n (heapSwap i j h)) as [i' h']. destruct IH as (Ha & Hb & Hc & Ht).
    split; [lia|]. split; [done|]. split.
    + rewrite Hc. apply lswap_perm; lia.
    + intros k Hk. rewrite Ht, lookup_lswap by lia. by rewrite !decide_False by lia.
  - split; [lia|]. split; [|done]. apply (DownStrict_done i); [done|].
    intros c Hc Hpc. specialize (Hmin c Hc Hpc). lia.
Qed.

(** The first step decides between sinking and rising. *)
Lemma heapDown_items fuel i n h :
  0 < fuel -> n <= i + fuel -> i < n -> n <= length (items h) -> DownOk i n (items h) ->
  let '(i', h') := heapDown key fuel i n h in
  items h' ≡ₚ items h /\ (forall k, n <= k -> items h' !!! k = items h !!! k) /\
  (i' = i /\ h' = h /\ UpOk i n (items h) \/ i < i' /\ HeapOrd n (items h')).
Proof.
  destruct fuel as [|fuel]; [lia|]. intros _ Hf Hi Hn Hd. cbn [heapDown]. cbv zeta.
  destruct Hd as [H1 H2].
  destruct (Nat.leb_spec n (2 * i + 1)) as [Hle|Hgt].
  { split; [done|]. split; [done|]. left. split; [done|]. split; [done|]. split; [|done].
    intros k Hk Hne. apply H1; [done| |done]. lia. }
  destruct (down_child i n h Hgt) as (Hj & Hij & Hp & Hmin). cbv zeta in Hj, Hij, Hp, Hmin.
  set (j := if (_ : bool) then _ else _) in *. clearbody j. unfold heapLess.
  destruct (Z.ltb_spec (at_ (items h) j) (at_ (items h) i)) as [Hlt|Hge]; cbn.
  - pose proof (heapDown_strict fuel j n (heapSwap i j h) ltac:(lia) ltac:(lia)) as Hs.
    rewrite items_heapSwap, length_lswap in Hs.
    specialize (Hs Hn (DownStrict_swap i j n _ (conj H1 H2) Hj Hp Hn Hmin Hlt)).
    destruct (heapDown key fuel j n (heapSwap i j h)) as [i' h']. destruct Hs as (Ha & Hb & Hc & Ht).
    split; [rewrite Hc; apply lswap_perm; lia|]. split; [|right; split; [lia|done]].
    intros k Hk. rewrite Ht, lookup_lswap by lia. by rewrite !decide_False by lia.
  - split; [done|]. split; [done|]. left. split; [done|]. split; [done|]. split; [|done].
    intros k Hk Hne. destruct (decide (parent k = i)) as [Hpk|]; [|by apply H1].
    specialize (Hmin k Hk Hpk). rewrite Hpk. lia.
Qed.
End Order.

(** ** The stored positions *)

Definition Consistent (h : expiryHeap) : Prop :=
  forall i x, items h !! i = Some x -> expiryIndex h !! x = Some (Z.of_nat i).

Lemma Consistent_inj h i j x :
  Consistent h -> items h !! i = Some x -> items h !! j = Some x -> i = j.
Proof. intros Hc Hi%Hc Hj%Hc. rewrite Hi in Hj. simplify_eq. lia. Qed.

Lemma Consistent_NoDup h : Consistent h -> NoDup (items h).
Proof. intros Hc. apply NoDup_alt. intros i j x. by apply Consistent_inj. Qed.

Lemma heapSwap_consistent i j h :
  i < length (items h) -> j < length (items h) -> Consistent h -> Consistent (heapSwap i j h).
Proof.
  intros Hi Hj Hc k x Hk.
  apply lookup_lt_is_Some_2 in Hi as [a Ha]. apply lookup_lt_is_Some_2 in Hj as [b Hb].
  pose proof (lookup_lt_Some _ _ _ Ha) as Hia. pose proof (lookup_lt_Some _ _ _ Hb) as Hjb.
  unfold heapSwap in *. simpl in *.
  rewrite (list_lookup_total_correct _ _ _ Ha), (list_lookup_total_correct _ _ _ Hb) in *.
  destruct (decide (k = i)) as [->|Hki].
  { rewrite list_lookup_insert_eq in Hk by (by rewrite length_insert). simplify_eq.
    destruct (decide (a = x)) as [->|]; [rewrite lookup_insert_eq|].
    - f_equal. f_equal. by eapply Consistent_inj.
    - by rewrite lookup_insert_ne, lookup_insert_eq. }
  rewrite list_lookup_insert_ne in Hk by done.
  destruct (decide (k = j)) as [->|Hkj].
  { rewrite list_lookup_insert_eq in Hk by done. simplify_eq. by rewrite lookup_insert_eq. }
  rewrite list_lookup_insert_ne in Hk by done.
  rewrite !lookup_insert_ne.
  - by apply Hc.
  - intros ->. apply Hkj. by eapply Consistent_inj.
  - intros ->. apply Hki. by eapply Consistent_inj.
Qed.

Section Operations.
Variable key : nat -> Z.
Implicit Types (h : expiryHeap).

Lemma heapUp_consistent fuel : forall j h,
  j < length (items h) -> Consistent h -> Consistent (heapUp key fuel j h).
Proof.
  induction fuel as [|fuel IH]; intros j h Hj Hc; [done|]. cbn [heapUp]. cbv zeta.
  destruct (_ || _); [done|]. apply IH.
  - rewrite items_heapSwap, length_lswap. lia.
  - apply heapSwap_consistent; (done || lia).
Qed.

Lemma heapDown_consistent fuel : forall i n h,
  n <= length (items h) -> Consistent h -> Consistent (heapDown key fuel i n h).2.
Proof.
  induction fuel as [|fuel IH]; intros i n h Hn Hc; [done|]. cbn [heapDown]. cbv zeta.
  destruct (Nat.leb_spec n (2 * i + 1)); [done|].
  destruct (down_child key i n h ltac:(lia)) as (Hj & Hij & _). cbv zeta in Hj, Hij.
  set (j := if (_ : bool) then _ else _) in *. clearbody j.
  destruct (negb _); [done|]. apply IH.
  - by rewrite items_heapSwap, length_lswap.
  - apply heapSwap_consistent; (done || lia).
Qed.

(** A well-formed heap. *)
Record HeapOk h : Prop := {
  ho_order : HeapOrd key (length (items h)) (items h);
  ho_index : Consistent h }.

Lemma HeapOk_min h x y :
  HeapOk h -> items h !! 0 = Some x -> y ∈ items h -> (key x <= key y)%Z.
Proof.
  intros [Ho _] Hx [k Hk]%list_elem_of_lookup.
  pose proof (HeapOrd_root key _ _ k Ho (lookup_lt_Some _ _ _ Hk)) as Hr.
  by rewrite (list_lookup_total_correct _ _ _ Hx), (list_lookup_total_correct _ _ _ Hk) in Hr.
Qed.

Lemma heapPush_spec x h :
  HeapOk h -> x ∉ items h ->
  HeapOk (heapPush key x h) /\ items (heapPush key x h) ≡ₚ x :: items h.
Proof.
  intros [Ho Hc] Hx. unfold heapPush. cbv zeta.
  set (h1 := heapPushLast x h). assert (Hl : length (items h1) = S (length (items h)))
    by (simpl; rewrite length_app; simpl; lia).
  assert (Hat : forall k, k < length (items h) -> items h1 !!! k = items h !!! k).
  { intros k Hk. simpl. by rewrite lookup_total_app_l. }
  destruct (heapUp_items key (length (items h1)) (length (items h1) - 1) (length (items h1)) h1)
    as (Ha & Hb & _); [lia..| |].
  { split.
    - intros k Hk Hne. rewrite !Hat by lia. apply Ho. lia.
    - intros c Hcn Hp Hj. lia. }
  split; [|rewrite Hb; simpl; by rewrite Permutation_app_comm].
  constructor.
  - by rewrite (Permutation_length Hb).
  - apply heapUp_consistent; [lia|]. intros k y Hk. unfold h1 in Hk |- *. simpl in Hk |- *.
    apply lookup_app_Some in Hk as [Hk|[Hge Hk]].
    + rewrite lookup_insert_ne; [by apply Hc|]. intros ->. apply Hx. by eapply list_elem_of_lookup_2.
    + apply list_lookup_singleton_Some in Hk as [Hk ->]. rewrite lookup_insert_eq. f_equal. lia.
Qed.

Lemma heapPop_spec h n x :
  Consistent h -> length (items h) = S n -> items h !!! n = x -> HeapOrd key n (items h) ->
  HeapOk (heapPop h) /\ items h ≡ₚ x :: items (heapPop h).
Proof.
  intros Hc Hl Hx Ho. assert (Hn : items h !! n = Some x)
    by (rewrite <- Hx; apply list_lookup_lookup_total_lt; lia).
  assert (Hlast : last (items h) = Some x) by (rewrite last_lookup, Hl; done).
  assert (items (heapPop h) = take n (items h)) as Hi.
  { unfold heapPop. rewrite Hlast, Hl. simpl. by rewrite Nat.sub_0_r. }
  assert (items h = take n (items h) ++ [x]) as Hsplit.
  { rewrite <- (take_S_r _ _ _ Hn). rewrite take_ge by lia. done. }
  split; [|rewrite Hi, Hsplit at 1; by rewrite Permutation_app_comm]. constructor.
  - rewrite Hi, length_take. intros k Hk. rewrite !lookup_total_take, !decide_True by lia. apply Ho. lia.
  - intros k y Hk. rewrite Hi in Hk. apply lookup_take_Some in Hk as [Hk Hlt].
    unfold heapPop. rewrite Hlast. simpl. rewrite lookup_insert_ne; [by apply Hc|].
    intros ->. pose proof (Consistent_inj h n k y Hc Hn Hk). lia.
Qed.

Lemma heapRemove_spec i x h :
  HeapOk h -> items h !! i = Some x ->
  HeapOk (heapRemove key i h) /\ items h ≡ₚ x :: items (heapRemove key i h).
Proof.
  intros [Ho Hc] Hi. pose proof (lookup_lt_Some _ _ _ Hi) as Hlt. unfold heapRemove. cbv zeta.
  destruct (length (items h)) as [|n] eqn:Hl; [lia|]. rewrite Nat.sub_succ, Nat.sub_0_r.
  destruct (Nat.eqb_spec n i) as [->|Hne].
  { apply (heapPop_spec h i); try done; [by apply list_lookup_total_correct|].
    intros k Hk. apply Ho. lia. }
  set (h2 := heapSwap i n h).
  assert (Hl2 : length (items h2) = S n) by (unfold h2; rewrite items_heapSwap, length_lswap; done).
  assert (Hat : forall k, k < n -> k <> i -> items h2 !!! k = items h !!! k).
  { intros k Hk Hki. unfold h2. rewrite items_heapSwap, lookup_lswap by lia.
    by rewrite !decide_False by lia. }
  assert (Hn2 : items h2 !!! n = x).
  { unfold h2. rewrite items_heapSwap, lookup_lswap by lia.
    rewrite decide_False, decide_True by lia. by apply list_lookup_total_correct. }
  assert (Hp2 : items h2 ≡ₚ items h) by (apply lswap_perm; lia).
  assert (Hc2 : Consistent h2) by (apply heapSwap_consistent; (done || lia)).
  assert (Hd2 : DownOk key i n (items h2)).
  { split.
    - intros k Hk Hp Hki. rewrite !Hat by lia. apply Ho. lia.
    - intros c Hcn Hp Hi0. rewrite !Hat by lia.
      pose proof (Ho c ltac:(lia)) as H1. pose proof (Ho i ltac:(lia)) as H2.
      rewrite Hp in H1. lia. }
  pose proof (heapDown_items key n i n h2 ltac:(lia) ltac:(lia) ltac:(lia) ltac:(lia) Hd2) as Hd.
  pose proof (heapDown_consistent n i n h2 ltac:(lia) Hc2) as Hc3.
  destruct (heapDown key n i n h2) as [i' h3]. simpl in Hc3.
  destruct Hd as (Hp3 & Ht3 & Hcase).
  assert (Hl3 : length (items h3) = S n) by (by rewrite Hp3).
  assert (Hn3 : items h3 !!! n = x) by (by rewrite Ht3).
  destruct Hcase as [(-> & -> & Hup)|[Hlt' Ho3]].
  - rewrite Nat.ltb_irrefl.
    destruct (heapUp_items key (S i) i n h2 ltac:(lia) ltac:(lia) ltac:(lia) Hup) as (Ho4 & Hp4 & Ht4).
    rewrite <- Hp2, <- Hp4. apply (heapPop_spec _ n); try done.
    + apply heapUp_consistent; [lia|done].
    + by rewrite Hp4.
    + by rewrite Ht4.
  - destruct (Nat.ltb_spec i i'); [|lia]. rewrite <- Hp2, <- Hp3. by apply (heapPop_spec _ n).
Qed.
End Operations.
