(* ===== verification/DnsCache.v ===== *)
(** * The DNS response cache ([service/reverse_proxy_memory.go])

    One cache per rule: a map of entries, an LRU list, a heap of expiry
    times, a timer, and a lease on the shared memory pool per entry.  Entries
    are pointers, so the model has a store of entries; the map, the list and
    the heap hold their numbers.  Every method runs under the cache's mutex
    and is one atomic step on the cache and the pool.  Messages are packed
    and unpacked by the package miekg/dns, which are parameters here. *)

From S2P Require Import Prelude Memory Heap.
From stdpp Require Import base gmap list strings.
From Stdlib Require Import ZArith Lia.

#[local] Open Scope Z_scope.
#[local] Open Scope go_scope.

(** ** Messages *)

Definition TypeOPT : Z := 41.
Definition nanosecond_per_second : Z := 1000000000.
Definition wrapU32 (z : Z) : Z := z mod 2 ^ 32.
Definition max_u32 : Z := 2 ^ 32 - 1.

(** A resource record: its type, its [uint32] TTL, and everything else. *)
Record RR : Type := mkRR {
  Rrtype : Z;
  Ttl : Z;
  Rdata : string }.

(** A message: the records may be nil pointers; [Rest] is everything the
    cache does not look at (header bits, question). *)
Record Msg : Type := mkMsg {
  Id : Z;
  Answer : list (option RR);
  Ns : list (option RR);
  Extra : list (option RR);
  Rest : string }.

Definition setId (i : Z) (m : Msg) : Msg := mkMsg i (Answer m) (Ns m) (Extra m) (Rest m).

Definition mapRecords (f : RR -> RR) (m : Msg) : Msg :=
  let g := map (fmap f) in
  mkMsg (Id m) (g (Answer m)) (g (Ns m)) (g (Extra m)) (Rest m).

Definition sections (m : Msg) : list (option RR) := Answer m ++ Ns m ++ Extra m.

(** The scan for the lowest TTL, OPT pseudo-records and nil records apart. *)
Definition scanTTL (acc : option Z) (record : option RR) : option Z :=
  match record with
  | None => acc
  | Some r =>
      if Rrtype r =? TypeOPT then acc
      else match acc with
           | None => Some (Ttl r)
           | Some lowest => if Ttl r <? lowest then Some (Ttl r) else acc
           end
  end.

Definition clampTTL (minTTL maxTTL lowest : Z) : Z :=
  let lowest := if (0 <? minTTL) && (lowest <? wrapU32 minTTL) then wrapU32 minTTL else lowest in
  if (0 <? maxTTL) && (wrapU32 maxTTL <? lowest) then wrapU32 maxTTL else lowest.

(** The time to live in nanoseconds, and the response, whose TTLs it sets. *)
Definition reverseProxyDNSResponseTTL (response : Msg) (minTTL maxTTL : Z) : Z * Msg :=
  match foldl scanTTL None (sections response) with
  | None => (0, response)
  | Some found =>
      let lowest := clampTTL minTTL maxTTL found in
      if lowest =? 0 then (0, response)
      else
        (lowest * nanosecond_per_second,
         mapRecords (fun r => if Rrtype r =? TypeOPT then r else mkRR (Rrtype r) lowest (Rdata r))
           response)
  end.

(** [int64(d.Seconds())]: exact below 2^22 seconds; above that the
    floating-point sum may round up to the next second. *)
Definition remainingSeconds (now expires : Z) : Z :=
  let remaining := Z.quot (expires - now) nanosecond_per_second in
  let remaining := if remaining <? 0 then 0 else remaining in
  if max_u32 <? remaining then max_u32 else remaining.

Definition reverseProxyDNSAgeResponseTTLs (response : Msg) (now expires : Z) : Msg :=
  let remaining := remainingSeconds now expires in
  mapRecords
    (fun r => if negb (Rrtype r =? TypeOPT) && (remaining <? Ttl r)
              then mkRR (Rrtype r) remaining (Rdata r) else r)
    response.

(** ** The cache *)

Record reverseProxyDNSCacheEntry : Type := mkEntry {
  e_key : string;
  e_wire : string;
  e_expires : Z;
  e_bytes : Z;
  e_lease : leaseRef }.

(** [time.AfterFunc(delay, func() { c.expireDue(generation) })]. *)
Record afterFunc : Type := mkTimer {
  t_delay : Z;
  t_generation : Z }.

Record reverseProxyDNSResponseCache : Type := mkCache {
  c_ruleID : Z;
  c_ruleLimit : Z;
  c_maxBytes : Z;
  c_entries : gmap string nat;
  c_store : gmap nat reverseProxyDNSCacheEntry;
  c_next : nat;
  c_lru : list nat;                   (* front first *)
  c_expiry : expiryHeap;
  c_timer : option afterFunc;
  c_timerExpires : option Z;          (* None: the zero time *)
  c_timerGeneration : Z;
  c_used : Z;
  c_closed : bool }.

(** The fields of [model.ReverseProxyRule] the cache reads. *)
Record dnsRule : Type := mkDnsRule {
  r_id : Z;
  r_cacheEnabled : bool;
  r_cacheSizeBytes : Z;
  r_memoryLimitBytes : Z }.

Definition reverseProxyDNSDefaultCacheSizeBytes : Z := 4 * 1024 * 1024.

Definition reverseProxyDNSCacheSizeBytes (value : Z) : Z :=
  if value =? 0 then reverseProxyDNSDefaultCacheSizeBytes else value.

(** [defaultLimit] is [DefaultRuleMemoryLimitBytes] of the current settings. *)
Definition reverseProxyEffectiveRuleMemoryLimit (defaultLimit : Z) (rule : option dnsRule) : Z :=
  match rule with
  | Some r => if 0 <? r_memoryLimitBytes r then r_memoryLimitBytes r else defaultLimit
  | None => defaultLimit
  end.

Definition newReverseProxyDNSResponseCache (defaultLimit : Z) (rule : option dnsRule)
  : option reverseProxyDNSResponseCache :=
  match rule with
  | None => None
  | Some r =>
      if negb (r_cacheEnabled r) then None
      else
        let ruleLimit := reverseProxyEffectiveRuleMemoryLimit defaultLimit rule in
        let maxBytes := reverseProxyDNSCacheSizeBytes (r_cacheSizeBytes r) in
        let maxBytes := if (0 <? ruleLimit) && (ruleLimit <? maxBytes) then ruleLimit else maxBytes in
        if maxBytes <=? 0 then None
        else Some (mkCache (r_id r) ruleLimit maxBytes ∅ ∅ 0 [] (mkHeap [] ∅) None None 0 0 false)
  end.

Definition entryAt (c : reverseProxyDNSResponseCache) (id : nat) : option reverseProxyDNSCacheEntry :=
  c_store c !! id.

Definition expiresOf (store : gmap nat reverseProxyDNSCacheEntry) (id : nat) : Z :=
  default 0 (e_expires <$> store !! id).

Definition bytesOf (store : gmap nat reverseProxyDNSCacheEntry) (id : nat) : Z :=
  default 0 (e_bytes <$> store !! id).

Definition setTimer (timer : option afterFunc) (expires : option Z) (generation : Z)
    (c : reverseProxyDNSResponseCache) : reverseProxyDNSResponseCache :=
  mkCache (c_ruleID c) (c_ruleLimit c) (c_maxBytes c) (c_entries c) (c_store c) (c_next c)
    (c_lru c) (c_expiry c) timer expires generation (c_used c) (c_closed c).

(** [uint64] generations wrap. *)
Definition nextGeneration (g : Z) : Z := (g + 1) mod 2 ^ 64.

Definition scheduleExpiryLocked (now : Z) (c : reverseProxyDNSResponseCache)
  : reverseProxyDNSResponseCache :=
  match c_closed c, items (c_expiry c) with
  | false, root :: _ =>
      let next := expiresOf (c_store c) root in
      if bool_decide (is_Some (c_timer c)) && bool_decide (c_timerExpires c = Some next) then c
      else
        let generation := nextGeneration (c_timerGeneration c) in
        let delay := next - now in
        let delay := if delay <? 0 then 0 else delay in
        setTimer (Some (mkTimer delay generation)) (Some next) generation c
  | _, _ =>
      match c_timer c with
      | Some _ => setTimer None None (nextGeneration (c_timerGeneration c)) c
      | None => c
      end
  end.

Definition removeLocked (id : nat) (c : reverseProxyDNSResponseCache) (m : memory)
  : reverseProxyDNSResponseCache * memory :=
  match entryAt c id with
  | None => (c, m)
  | Some entry =>
      let index := default (-1) (expiryIndex (c_expiry c) !! id) in
      let heap :=
        if (0 <=? index) && (index <? Z.of_nat (length (items (c_expiry c))))
           && bool_decide (items (c_expiry c) !! Z.to_nat index = Some id)
        then heapRemove (expiresOf (c_store c)) (Z.to_nat index) (c_expiry c)
        else c_expiry c in
      (mkCache (c_ruleID c) (c_ruleLimit c) (c_maxBytes c)
         (delete (e_key entry) (c_entries c)) (c_store c) (c_next c)
         (filter (fun x => x <> id) (c_lru c)) heap
         (c_timer c) (c_timerExpires c) (c_timerGeneration c)
         (subClamp (c_used c) (e_bytes entry)) (c_closed c),
       leaseRelease (Some (e_lease entry)) m)
  end.

(** The eviction loop of [Put]: from the back of the list while there is no room. *)
Fixpoint evictLoop (fuel : nat) (entryBytes : Z) (c : reverseProxyDNSResponseCache) (m : memory)
  : reverseProxyDNSResponseCache * memory :=
  match fuel with
  | O => (c, m)
  | S fuel' =>
      match last (c_lru c) with
      | Some oldest =>
          if c_maxBytes c <? c_used c +! entryBytes
          then let '(c', m') := removeLocked oldest c m in evictLoop fuel' entryBytes c' m'
          else (c, m)
      | None => (c, m)
      end
  end.

(** The loop of [expireDue]: roots of the heap while they are due. *)
Fixpoint expireLoop (fuel : nat) (now : Z) (c : reverseProxyDNSResponseCache) (m : memory)
  : reverseProxyDNSResponseCache * memory :=
  match fuel with
  | O => (c, m)
  | S fuel' =>
      match items (c_expiry c) with
      | root :: _ =>
          if now <? expiresOf (c_store c) root then (c, m)
          else let '(c', m') := removeLocked root c m in expireLoop fuel' now c' m'
      | [] => (c, m)
      end
  end.

Definition expireDue (generation now : Z) (c : reverseProxyDNSResponseCache) (m : memory)
  : reverseProxyDNSResponseCache * memory :=
  if c_closed c || negb (generation =? c_timerGeneration c) then (c, m)
  else
    let c1 := setTimer None None (c_timerGeneration c) c in
    let '(c2, m2) := expireLoop (length (items (c_expiry c1))) now c1 m in
    (scheduleExpiryLocked now c2, m2).

Definition cacheClose (c : reverseProxyDNSResponseCache) (m : memory)
  : reverseProxyDNSResponseCache * memory :=
  if c_closed c then (c, m)
  else
    (mkCache (c_ruleID c) (c_ruleLimit c) (c_maxBytes c) ∅ (c_store c) (c_next c) []
       (mkHeap [] (expiryIndex (c_expiry c))) None None (nextGeneration (c_timerGeneration c)) 0 true,
     foldl (fun m' id => match entryAt c id with
                         | Some entry => leaseRelease (Some (e_lease entry)) m'
                         | None => m'
                         end) m (snd <$> map_to_list (c_entries c))).

(** [c.lru.MoveToFront(entry.element)]. *)
Definition moveToFront (id : nat) (l : list nat) : list nat := id :: filter (fun x => x <> id) l.

Definition setLru (l : list nat) (c : reverseProxyDNSResponseCache) : reverseProxyDNSResponseCache :=
  mkCache (c_ruleID c) (c_ruleLimit c) (c_maxBytes c) (c_entries c) (c_store c) (c_next c)
    l (c_expiry c) (c_timer c) (c_timerExpires c) (c_timerGeneration c) (c_used c) (c_closed c).

(** The new entry of [Put], in front of the list, in the map and in the heap. *)
Definition addEntry (entry : reverseProxyDNSCacheEntry) (c : reverseProxyDNSResponseCache)
  : reverseProxyDNSResponseCache :=
  let id := c_next c in
  let store := <[id := entry]> (c_store c) in
  mkCache (c_ruleID c) (c_ruleLimit c) (c_maxBytes c)
    (<[e_key entry := id]> (c_entries c)) store (S id) (id :: c_lru c)
    (heapPush (expiresOf store) id (c_expiry c))
    (c_timer c) (c_timerExpires c) (c_timerGeneration c)
    (c_used c +! e_bytes entry) (c_closed c).

Section Messages.
Variable pack : Msg -> option string.
Variable unpack : string -> option Msg.

Definition reverseProxyDNSCacheKey (request : Msg) : string :=
  match pack (setId 0 request) with
  | Some wire => wire
  | None => ""
  end.

Definition cacheGet (request : Msg) (now : Z) (c : reverseProxyDNSResponseCache) (m : memory)
  : option Msg * (reverseProxyDNSResponseCache * memory) :=
  let key := reverseProxyDNSCacheKey request in
  if decide (key = "") then (None, (c, m)) else
  match c_entries c !! key with
  | None => (None, (c, m))
  | Some id =>
      match entryAt c id with
      | None => (None, (c, m))
      | Some entry =>
          if negb (now <? e_expires entry) then
            let '(c1, m1) := removeLocked id c m in
            (None, (scheduleExpiryLocked now c1, m1))
          else
            let c1 := setLru (moveToFront id (c_lru c)) c in
            (match unpack (e_wire entry) with
             | None => None
             | Some response =>
                 Some (reverseProxyDNSAgeResponseTTLs (setId (Id request) response) now
                         (e_expires entry))
             end, (c1, m))
      end
  end.

(** [now] is read when the deferred [scheduleExpiryLocked] is set up, [now2]
    when the entry is made.  The response comes back with its TTLs set. *)
Definition cachePut (request response : Msg) (minTTL maxTTL now now2 : Z)
    (c : reverseProxyDNSResponseCache) (m : memory)
  : Msg * (reverseProxyDNSResponseCache * memory) :=
  let key := reverseProxyDNSCacheKey request in
  if decide (key = "") then (response, (c, m)) else
  let '(ttl, response') := reverseProxyDNSResponseTTL response minTTL maxTTL in
  if ttl <=? 0 then (response', (c, m)) else
  match pack (setId 0 response') with
  | None => (response', (c, m))
  | Some wire =>
      let entryBytes := Z.of_nat (String.length key) + Z.of_nat (String.length wire) + 96 in
      if c_maxBytes c <? entryBytes then (response', (c, m))
      else if c_closed c then (response', (scheduleExpiryLocked now c, m))
      else
        let '(c1, m1) :=
          match c_entries c !! key with
          | Some previous => removeLocked previous c m
          | None => (c, m)
          end in
        let '(c2, m2) := evictLoop (length (c_lru c1)) entryBytes c1 m1 in
        if c_maxBytes c2 <? c_used c2 +! entryBytes
        then (response', (scheduleExpiryLocked now c2, m2))
        else
          match poolTryAcquire (c_ruleID c2) entryBytes (c_ruleLimit c2) "cache" m2 with
          | (None, m3) => (response', (scheduleExpiryLocked now c2, m3))
          | (Some lease, m3) =>
              (response',
               (scheduleExpiryLocked now
                  (addEntry (mkEntry key wire (now2 + ttl) entryBytes lease) c2), m3))
          end
  end.
End Messages.

(** ** The invariant *)

Section Invariant.
Implicit Types (c : reverseProxyDNSResponseCache) (m : memory) (e : reverseProxyDNSCacheEntry).

(** The entry behind a pointer is accounted for: its lease is out, for its
    bytes, on this rule. *)
Definition EntryOk c m (k : string) (id : nat) : Prop :=
  exists e lid, c_store c !! id = Some e /\ e_key e = k /\ 0 < e_bytes e /\
    e_lease e = Leased lid /\
    m_leases m !! lid = Some (mkLease (c_ruleID c) (e_bytes e) "cache" false).

Definition leaseOf (store : gmap nat reverseProxyDNSCacheEntry) (id : nat) : option leaseRef :=
  e_lease <$> store !! id.

Record Core c m : Prop := {
  co_pool : PoolInv m;
  co_entry : forall k id, c_entries c !! k = Some id -> EntryOk c m k id;
  co_leases : forall id1 id2, id1 ∈ c_lru c -> id2 ∈ c_lru c ->
    leaseOf (c_store c) id1 = leaseOf (c_store c) id2 -> id1 = id2;
  co_lru : c_lru c ≡ₚ snd <$> map_to_list (c_entries c);
  co_heap : items (c_expiry c) ≡ₚ c_lru c;
  co_order : HeapOk (expiresOf (c_store c)) (c_expiry c);
  co_used : c_used c = zsum (bytesOf (c_store c) <$> c_lru c);
  co_max : c_used c <= c_maxBytes c <= maxReservation;
  co_next : forall id, is_Some (c_store c !! id) -> (id < c_next c)%nat }.

Lemma in_lru c m id : Core c m -> id ∈ c_lru c <-> exists k, c_entries c !! k = Some id.
Proof.
  intros Hc. rewrite (co_lru _ _ Hc), list_elem_of_fmap. split.
  - intros ([k id'] & -> & Hk%elem_of_map_to_list). by exists k.
  - intros [k Hk]. exists (k, id). split; [done|]. by apply elem_of_map_to_list.
Qed.

Lemma lru_NoDup c m : Core c m -> NoDup (c_lru c).
Proof.
  intros Hc. rewrite <- (co_heap _ _ Hc). apply Consistent_NoDup, (co_order _ _ Hc).
Qed.

Lemma filter_ne_perm (id : nat) (l : list nat) :
  NoDup l -> id ∈ l -> l ≡ₚ id :: filter (fun x => x <> id) l.
Proof.
  induction 1 as [|x l Hx Hnd IH]; [by intros ?%elem_of_nil|].
  destruct (decide (x = id)) as [->|Hne]; intros Hin.
  - rewrite filter_cons_False by (by intros []). rewrite filter_all; [done|].
    apply Forall_forall. by intros y Hy ->.
  - rewrite filter_cons_True by done. apply elem_of_cons in Hin as [->|Hin]; [done|].
    rewrite (IH Hin) at 1. apply Permutation_swap.
Qed.

(** Pool states in which the same leases are out. *)
Lemma Core_used_nonneg c m : Core c m -> 0 <= c_used c.
Proof.
  intros Hc. rewrite (co_used _ _ Hc). apply zsum_nonneg, Forall_fmap, Forall_forall.
  intros id Hin. apply (in_lru c m id Hc) in Hin as [k Hk].
  destruct (co_entry _ _ Hc k id Hk) as (e & lid & He & _ & Hb & _).
  simpl. unfold bytesOf. rewrite He. simpl. lia.
Qed.

(** What [removeLocked] changes. *)
Record Removed (k : string) (id : nat) c m c' m' : Prop := {
  rm_entries : c_entries c' = delete k (c_entries c);
  rm_store : c_store c' = c_store c;
  rm_next : c_next c' = c_next c;
  rm_lru : c_lru c' = filter (fun x => x <> id) (c_lru c);
  rm_used : c_used c' = c_used c - bytesOf (c_store c) id;
  rm_pool : used (m_pool m') = used (m_pool m) - bytesOf (c_store c) id;
  rm_le : PoolLe (m_pool m) (m_pool m');
  rm_config : c_ruleID c' = c_ruleID c /\ c_ruleLimit c' = c_ruleLimit c /\
              c_maxBytes c' = c_maxBytes c /\ c_closed c' = c_closed c }.

Lemma remove_heap c m k id :
  Core c m -> c_entries c !! k = Some id ->
  let index := default (-1) (expiryIndex (c_expiry c) !! id) in
  let heap :=
    if (0 <=? index) && (index <? Z.of_nat (length (items (c_expiry c))))
       && bool_decide (items (c_expiry c) !! Z.to_nat index = Some id)
    then heapRemove (expiresOf (c_store c)) (Z.to_nat index) (c_expiry c)
    else c_expiry c in
  HeapOk (expiresOf (c_store c)) heap /\ items (c_expiry c) ≡ₚ id :: items heap.
Proof.
  intros Hc Hk. assert (id ∈ items (c_expiry c)) as [i Hi]%list_elem_of_lookup
    by (rewrite (co_heap _ _ Hc); apply (in_lru c m id Hc); by exists k).
  cbv zeta. rewrite (ho_index _ _ (co_order _ _ Hc) i id Hi). simpl.
  pose proof (lookup_lt_Some _ _ _ Hi). rewrite Nat2Z.id, bool_decide_eq_true_2 by done.
  destruct (Z.leb_spec 0 (Z.of_nat i)); [|lia].
  destruct (Z.ltb_spec (Z.of_nat i) (Z.of_nat (length (items (c_expiry c))))); [|lia].
  apply heapRemove_spec; [apply (co_order _ _ Hc)|done].
Qed.

Lemma release_lookup_ne m lid lid' :
  lid <> lid' -> m_leases (leaseRelease (Some (Leased lid)) m) !! lid' = m_leases m !! lid'.
Proof.
  intros Hne. simpl. destruct (m_leases m !! lid); [|done].
  destruct (_ <=? _); [done|]. destruct (lease_released _); [done|]. simpl.
  by rewrite lookup_insert_ne.
Qed.

Lemma remove_Core c m k id :
  Core c m -> c_entries c !! k = Some id ->
  let '(c', m') := removeLocked id c m in Core c' m' /\ Removed k id c m c' m'.
Proof.
  intros Hc Hk. destruct (co_entry _ _ Hc k id Hk) as (e & lid & He & Hek & Hb & Hlid & Hlease).
  assert (Hin : id ∈ c_lru c) by (apply (in_lru c m id Hc); by exists k).
  pose proof (filter_ne_perm id _ (lru_NoDup c m Hc) Hin) as Hperm.
  pose proof (remove_heap c m k id Hc Hk) as Hheap. cbv zeta in Hheap.
  unfold removeLocked, entryAt. rewrite He. cbv zeta.
  set (heap := if (_ : bool) then _ else _) in *. destruct Hheap as [Hok Hitems].
  assert (Hsum : zsum (bytesOf (c_store c) <$> c_lru c) =
    e_bytes e + zsum (bytesOf (c_store c) <$> filter (fun x => x <> id) (c_lru c))).
  { rewrite (zsum_perm _ _ (fmap_Permutation _ _ _ Hperm)). simpl. unfold bytesOf at 1. by rewrite He. }
  assert (Hnn : 0 <= zsum (bytesOf (c_store c) <$> filter (fun x => x <> id) (c_lru c))).
  { apply zsum_nonneg, Forall_fmap, Forall_forall. intros y [_ Hy]%list_elem_of_filter.
    apply (in_lru c m y Hc) in Hy as [k' Hk'].
    destruct (co_entry _ _ Hc k' y Hk') as (e' & ? & He' & _ & ? & _).
    simpl. unfold bytesOf. rewrite He'. simpl. lia. }
  assert (Hused : subClamp (c_used c) (e_bytes e) = c_used c - e_bytes e).
  { pose proof (co_max _ _ Hc). rewrite (co_used _ _ Hc) in *. apply subClamp_exact; lia. }
  assert (Hbytes : bytesOf (c_store c) id = e_bytes e) by (unfold bytesOf; by rewrite He).
  destruct (release_spec m (Some (e_lease e)) (co_pool _ _ Hc)) as (Hpool & Hpu & _).
  pose proof (release_le m (Some (e_lease e)) (co_pool _ _ Hc)) as Hple.
  rewrite Hlid, Hlease in Hpu. simpl in Hpu.
  split.
  - constructor; cbn [c_ruleID c_maxBytes c_entries c_store c_next c_lru c_expiry c_used]; try done.
    + intros k' id' [Hne Hk']%lookup_delete_Some.
      destruct (co_entry _ _ Hc k' id' Hk') as (e' & lid' & He' & ? & ? & Hl' & Hm').
      exists e', lid'. repeat split; try done. rewrite Hlid, release_lookup_ne; [done|].
      intros <-. assert (id = id') as <-; [|congruence].
      apply (co_leases _ _ Hc); [done|apply (in_lru c m id' Hc); by exists k'|].
      unfold leaseOf. rewrite He, He'. simpl. congruence.
    + intros id1 id2 [_ H1]%list_elem_of_filter [_ H2]%list_elem_of_filter. by apply (co_leases _ _ Hc).
    + pose proof (co_lru _ _ Hc) as Hl. rewrite Hek.
      rewrite <- (map_to_list_delete (c_entries c) k id Hk) in Hl. simpl in Hl.
      rewrite Hperm in Hl. by apply Permutation_cons_inv in Hl.
    + pose proof (co_heap _ _ Hc) as Hl. rewrite Hitems, Hperm in Hl. by apply Permutation_cons_inv in Hl.
    + rewrite Hused, (co_used _ _ Hc). lia.
    + rewrite Hused. pose proof (co_max _ _ Hc). lia.
    + apply (co_next _ _ Hc).
  - constructor; cbn -[leaseRelease]; rewrite ?Hbytes, ?Hek; try done; rewrite ?Hlid; done.
Qed.

(** ** Eviction *)

Lemma filter_last_take (l : list nat) x :
  NoDup l -> last l = Some x -> filter (fun y => y <> x) l = take (length l - 1) l.
Proof.
  intros Hnd Hl. apply last_Some in Hl as [l' ->]. rewrite length_app. simpl.
  rewrite Nat.add_sub, take_app_length, filter_app. apply NoDup_app in Hnd as (_ & Hx & _).
  rewrite filter_cons_False by (by intros []). rewrite filter_nil, app_nil_r.
  apply filter_all, Forall_forall. intros y Hy ->. apply (Hx x Hy). by apply list_elem_of_singleton.
Qed.

(** [c'] keeps the first [n] entries of the LRU list of [c]. *)
Record Kept (n : nat) c m c' m' : Prop := {
  kp_lru : c_lru c' = take n (c_lru c);
  kp_store : c_store c' = c_store c;
  kp_next : c_next c' = c_next c;
  kp_entries : forall k id, c_entries c' !! k = Some id <-> c_entries c !! k = Some id /\ id ∈ take n (c_lru c);
  kp_pool : PoolLe (m_pool m) (m_pool m');
  kp_config : c_ruleID c' = c_ruleID c /\ c_ruleLimit c' = c_ruleLimit c /\
              c_maxBytes c' = c_maxBytes c /\ c_closed c' = c_closed c }.

Lemma remove_last_Kept c m k id c' m' :
  Core c m -> c_entries c !! k = Some id -> last (c_lru c) = Some id ->
  0 <= bytesOf (c_store c) id ->
  Removed k id c m c' m' -> Kept (length (c_lru c) - 1) c m c' m'.
Proof.
  intros Hc Hk Hl Hb []. pose proof (filter_last_take _ _ (lru_NoDup c m Hc) Hl) as Ht.
  constructor; try done; [congruence|].
  intros k' id'. rewrite rm_entries0, lookup_delete_Some, <- Ht, list_elem_of_filter.
  split.
  - intros [Hne Hk']. split; [done|]. split; [|apply (in_lru c m id' Hc); by exists k'].
    intros ->. destruct (co_entry _ _ Hc k id Hk) as (e & ? & He & <- & _).
    destruct (co_entry _ _ Hc k' id Hk') as (e' & ? & He' & <- & _). congruence.
  - intros [Hk' [Hne _]]. split; [|done]. intros ->. congruence.
Qed.

Lemma Kept_refl c m : Core c m -> Kept (length (c_lru c)) c m c m.
Proof.
  intros Hc. constructor; try done; [by rewrite take_ge|]. intros k id.
  rewrite take_ge by done. split; [|by intros [? _]]. intros Hk. split; [done|].
  apply (in_lru c m id Hc). by exists k.
Qed.

Lemma Kept_trans n1 n2 c1 m1 c2 m2 c3 m3 :
  (n2 <= n1)%nat -> Kept n1 c1 m1 c2 m2 -> Kept n2 c2 m2 c3 m3 -> Kept n2 c1 m1 c3 m3.
Proof.
  intros Hle [] []. constructor.
  - rewrite kp_lru1, kp_lru0, take_take. f_equal. lia.
  - congruence.
  - congruence.
  - intros k id. rewrite kp_entries1, kp_entries0, kp_lru0, take_take.
    rewrite (Nat.min_l n2 n1) by lia. split; [tauto|]. intros [? Hin]. split; [|done].
    split; [done|]. rewrite <- (Nat.min_l n2 n1), <- take_take in Hin by lia.
    by eapply elem_of_take in Hin as (? & ?%list_elem_of_lookup_2 & _).
  - by eapply PoolLe_trans.
  - destruct kp_config0 as (?&?&?&?), kp_config1 as (?&?&?&?). repeat split; congruence.
Qed.

Definition lruBytes c (n : nat) : Z := zsum (bytesOf (c_store c) <$> take n (c_lru c)).

Lemma evict_spec fuel : forall c m entryBytes,
  (length (c_lru c) <= fuel)%nat -> Core c m -> 0 < entryBytes <= c_maxBytes c ->
  let '(c', m') := evictLoop fuel entryBytes c m in
  exists n, (n <= length (c_lru c))%nat /\ Core c' m' /\ Kept n c m c' m' /\
    c_used c' + entryBytes <= c_maxBytes c /\
    ((n < length (c_lru c))%nat -> c_maxBytes c < lruBytes c (S n) + entryBytes).
Proof.
  induction fuel as [|fuel IH]; intros c m entryBytes Hf Hc Hb; cbn [evictLoop].
  { exists (length (c_lru c)). split; [done|]. split; [done|]. split; [by apply Kept_refl|].
    split; [|lia]. rewrite (co_used _ _ Hc). destruct (c_lru c); simpl in *; lia. }
  destruct (last (c_lru c)) as [oldest|] eqn:Hl.
  2:{ apply last_None in Hl. exists (length (c_lru c)). split; [done|]. split; [done|].
      split; [by apply Kept_refl|]. split; [|lia]. rewrite (co_used _ _ Hc), Hl. simpl. lia. }
  pose proof (Core_used_nonneg c m Hc). pose proof (co_max _ _ Hc).
  assert (c_used c +! entryBytes = c_used c + entryBytes) as Hadd
    by (unfold maxReservation in *; by i64).
  rewrite Hadd. destruct (Z.ltb_spec (c_maxBytes c) (c_used c + entryBytes)) as [Hfull|Hroom].
  2:{ exists (length (c_lru c)). split; [done|]. split; [done|]. split; [by apply Kept_refl|].
      split; [lia|lia]. }
  assert (oldest ∈ c_lru c) as Hin.
  { apply last_Some in Hl as [l' ->]. apply elem_of_app. right. by apply list_elem_of_singleton. }
  pose proof Hin as [k Hk]%(in_lru c m oldest Hc).
  destruct (co_entry _ _ Hc k oldest Hk) as (e & _ & He & _ & Hbe & _).
  pose proof (remove_Core c m k oldest Hc Hk) as Hr.
  destruct (removeLocked oldest c m) as [c1 m1]. destruct Hr as [Hc1 Hr].
  assert (Hkept : Kept (length (c_lru c) - 1) c m c1 m1).
  { apply (remove_last_Kept c m k oldest); try done. unfold bytesOf. rewrite He. simpl. lia. }
  assert (Hlen : length (c_lru c1) = (length (c_lru c) - 1)%nat)
    by (rewrite (kp_lru _ _ _ _ _ Hkept), length_take; lia).
  destruct (kp_config _ _ _ _ _ Hkept) as (_ & _ & Hmax & _).
  assert (0 < length (c_lru c))%nat by (destruct (c_lru c); [done|simpl; lia]).
  specialize (IH c1 m1 entryBytes ltac:(lia) Hc1). rewrite Hmax in IH. specialize (IH Hb).
  destruct (evictLoop fuel entryBytes c1 m1) as [c2 m2].
  destruct IH as (n & Hn & Hc2 & Hk2 & Hu2 & Hmin). exists n. split; [lia|]. split; [done|].
  split; [by apply (Kept_trans (length (c_lru c) - 1) n _ _ c1 m1); [lia|..]|].
  split; [done|]. intros Hlt. destruct (decide (n = length (c_lru c) - 1)%nat) as [->|Hne].
  - unfold lruBytes. rewrite take_ge by lia. by rewrite <- (co_used _ _ Hc).
  - specialize (Hmin ltac:(lia)). unfold lruBytes in *.
    rewrite (kp_lru _ _ _ _ _ Hkept), (kp_store _ _ _ _ _ Hkept), take_take in Hmin.
    by rewrite Nat.min_l in Hmin by lia.
Qed.

(** ** Expiry *)

Lemma entries_inj c m k k' id :
  Core c m -> c_entries c !! k = Some id -> c_entries c !! k' = Some id -> k = k'.
Proof.
  intros Hc Hk Hk'. destruct (co_entry _ _ Hc k id Hk) as (e & ? & He & <- & _).
  destruct (co_entry _ _ Hc k' id Hk') as (e' & ? & He' & <- & _). congruence.
Qed.

Definition sameTimer c c' : Prop :=
  c_timer c' = c_timer c /\ c_timerExpires c' = c_timerExpires c /\
  c_timerGeneration c' = c_timerGeneration c.

Lemma remove_timer id c m : sameTimer c (removeLocked id c m).1.
Proof. unfold removeLocked, sameTimer. by destruct (entryAt c id). Qed.

Lemma remove_closed id c m : c_closed (removeLocked id c m).1 = c_closed c.
Proof. unfold removeLocked. by destruct (entryAt c id). Qed.

Lemma evict_timer fuel : forall b c m, sameTimer c (evictLoop fuel b c m).1.
Proof.
  induction fuel as [|fuel IH]; intros b c m; cbn [evictLoop]; [done|].
  destruct (last (c_lru c)) as [id|]; [|done]. destruct (_ <? _); [|done].
  pose proof (remove_timer id c m) as Hr. destruct (removeLocked id c m) as [c1 m1].
  specialize (IH b c1 m1). unfold sameTimer in *. simpl in Hr.
  destruct Hr as (?&?&?), IH as (?&?&?). repeat split; congruence.
Qed.

Lemma expire_spec fuel : forall now c m,
  (length (items (c_expiry c)) <= fuel)%nat -> Core c m ->
  let '(c', m') := expireLoop fuel now c m in
  Core c' m' /\ sameTimer c c' /\ c_store c' = c_store c /\ c_closed c' = c_closed c /\
  c_maxBytes c' = c_maxBytes c /\
  forall k id, c_entries c' !! k = Some id <->
               c_entries c !! k = Some id /\ now < expiresOf (c_store c) id.
Proof.
  induction fuel as [|fuel IH]; intros now c m Hf Hc; cbn [expireLoop].
  { split; [done|]. do 4 (split; [done|]). intros k id. split; [|tauto]. intros Hk. exfalso.
    assert (id ∈ items (c_expiry c)) as Hin
      by (rewrite (co_heap _ _ Hc); apply (in_lru c m id Hc); by exists k).
    destruct (items (c_expiry c)); [by apply elem_of_nil in Hin|simpl in Hf; lia]. }
  destruct (items (c_expiry c)) as [|root tail] eqn:Hi.
  { split; [done|]. do 4 (split; [done|]). intros k id. split; [|tauto]. intros Hk. exfalso.
    assert (id ∈ items (c_expiry c)) as Hin
      by (rewrite (co_heap _ _ Hc); apply (in_lru c m id Hc); by exists k).
    rewrite Hi in Hin. by apply elem_of_nil in Hin. }
  assert (Hroot : items (c_expiry c) !! 0%nat = Some root) by (by rewrite Hi).
  destruct (Z.ltb_spec now (expiresOf (c_store c) root)) as [Hlt|Hdue].
  { split; [done|]. do 4 (split; [done|]). intros k id. split; [|tauto]. intros Hk. split; [done|].
    assert (id ∈ items (c_expiry c)) as Hin
      by (rewrite (co_heap _ _ Hc); apply (in_lru c m id Hc); by exists k).
    pose proof (HeapOk_min _ _ _ _ (co_order _ _ Hc) Hroot Hin). lia. }
  assert (root ∈ c_lru c) as [k Hk]%(in_lru c m root Hc)
    by (rewrite <- (co_heap _ _ Hc), Hi; by left).
  pose proof (remove_Core c m k root Hc Hk) as Hr. pose proof (remove_timer root c m) as Ht.
  destruct (removeLocked root c m) as [c1 m1]. destruct Hr as [Hc1 []]. simpl in Ht.
  specialize (IH now c1 m1). destruct (expireLoop fuel now c1 m1) as [c2 m2].
  destruct IH as (Hc2 & Ht2 & Hs2 & Hcl2 & Hmx2 & He2); [|done|].
  { rewrite (co_heap _ _ Hc1), rm_lru0. pose proof (co_heap _ _ Hc) as Hp. rewrite Hi in Hp.
    pose proof (length_filter_lt (fun x => x <> root) (c_lru c) root) as Hfl.
    assert (length (c_lru c) = S (length tail)) as Hll by (by rewrite <- Hp).
    simpl in Hf. enough (length (filter (fun x => x <> root) (c_lru c)) < length (c_lru c))%nat by lia.
    apply Hfl; [by rewrite <- Hp; left|by intros []]. }
  destruct rm_config0 as (? & ? & ? & ?).
  split; [done|]. split.
  { destruct Ht as (?&?&?), Ht2 as (?&?&?). repeat split; congruence. }
  split; [congruence|]. split; [congruence|]. split; [congruence|].
  intros k' id. rewrite He2, rm_entries0, rm_store0, lookup_delete_Some. split; [tauto|].
  intros [Hk' Hlt]. split; [|done]. split; [|done]. intros <-.
  rewrite Hk in Hk'. simplify_eq. lia.
Qed.

(** ** Adding *)

Lemma expiresOf_ext store store' (h : expiryHeap) :
  (forall id, id ∈ items h -> expiresOf store' id = expiresOf store id) ->
  HeapOk (expiresOf store) h -> HeapOk (expiresOf store') h.
Proof.
  intros He [Ho Hi]. constructor; [|done]. intros k Hk.
  rewrite !He; [by apply Ho| |].
  - eapply list_elem_of_lookup_2, list_lookup_lookup_total_lt. lia.
  - eapply list_elem_of_lookup_2, list_lookup_lookup_total_lt.
    pose proof (Nat.Div0.div_le_mono (k - 1) k 2). pose proof (Nat.div_lt k 2). lia.
Qed.

Lemma add_Core c m m' key wire expires bytes :
  Core c m -> c_entries c !! key = None -> 0 < bytes -> c_used c + bytes <= c_maxBytes c ->
  PoolInv m' ->
  m_leases m' = <[m_next m := mkLease (c_ruleID c) bytes "cache" false]> (m_leases m) ->
  Core (addEntry (mkEntry key wire expires bytes (Leased (m_next m))) c) m'.
Proof.
  intros Hc Hk Hb Hroom Hp Hl. set (e := mkEntry _ _ _ _ _). set (id := c_next c).
  pose proof (next_fresh m (co_pool _ _ Hc)) as Hfresh.
  pose proof (Core_used_nonneg c m Hc) as Hu. pose proof (co_max _ _ Hc) as Hmax.
  assert (Hnew : c_store c !! id = None).
  { apply eq_None_not_Some. intros Hs%(co_next _ _ Hc). unfold id in Hs. lia. }
  assert (Hstored : forall x, x ∈ c_lru c -> exists ex lid, c_store c !! x = Some ex /\
    e_lease ex = Leased lid /\ is_Some (m_leases m !! lid)).
  { intros x [kx Hx]%(in_lru c m x Hc). destruct (co_entry _ _ Hc kx x Hx) as (ex & lid & ? & _ & _ & ? & ?).
    exists ex, lid. split; [done|]. by split. }
  assert (Hne : forall x, x ∈ c_lru c -> x <> id) by (intros x (ex & _ & Hx & _)%Hstored ->; congruence).
  assert (Hsame : forall x, x ∈ c_lru c -> <[id := e]> (c_store c) !! x = c_store c !! x).
  { intros x Hx. rewrite lookup_insert_ne; [done|]. symmetry. by apply Hne. }
  assert (Hheap : HeapOk (expiresOf (<[id := e]> (c_store c))) (c_expiry c)).
  { apply (expiresOf_ext (c_store c)); [|apply (co_order _ _ Hc)].
    intros x Hx. unfold expiresOf. rewrite Hsame; [done|]. by rewrite <- (co_heap _ _ Hc). }
  destruct (heapPush_spec _ id (c_expiry c) Hheap) as [Hok Hperm].
  { rewrite (co_heap _ _ Hc). intros Hx%Hne. done. }
  constructor; unfold addEntry; fold id;
    cbn [c_ruleID c_maxBytes c_entries c_store c_next c_lru c_expiry c_used]; try done.
  - intros k' id' [[<- <-]|[Hne' Hk']]%lookup_insert_Some; unfold EntryOk; cbn [c_store c_ruleID].
    + exists e, (m_next m). rewrite lookup_insert_eq, Hl, lookup_insert_eq. done.
    + destruct (co_entry _ _ Hc k' id' Hk') as (ex & lid & He & ? & ? & ? & Hm).
      exists ex, lid. rewrite Hsame by (apply (in_lru c m id' Hc); by exists k').
      repeat split; try done. rewrite Hl, lookup_insert_ne; [done|]. intros <-. congruence.
  - assert (Hlid : forall x, x ∈ c_lru c -> leaseOf (<[id := e]> (c_store c)) x <>
                             leaseOf (<[id := e]> (c_store c)) id).
    { intros x Hx Heq. unfold leaseOf in Heq. rewrite (Hsame x Hx), lookup_insert_eq in Heq.
      destruct (Hstored x Hx) as (ex & lid & Hex & Hlx & [? Hs]). rewrite Hex in Heq.
      simpl in Heq. rewrite Hlx in Heq. by simplify_eq. }
    intros id1 id2 [->|H1]%elem_of_cons [->|H2]%elem_of_cons Heq; [done| | |].
    + symmetry in Heq. by apply Hlid in Heq.
    + by apply Hlid in Heq.
    + apply (co_leases _ _ Hc); [done..|]. unfold leaseOf in *. by rewrite !Hsame in Heq.
  - rewrite map_to_list_insert by done. simpl. by rewrite (co_lru _ _ Hc).
  - by rewrite Hperm, (co_heap _ _ Hc).
  - rewrite fmap_cons, zsum_cons. unfold bytesOf at 1. rewrite lookup_insert_eq. cbn [fmap option_fmap option_map default].
    assert ((bytesOf (<[id:=e]> (c_store c)) <$> c_lru c) = (bytesOf (c_store c) <$> c_lru c)) as ->.
    { apply list_fmap_ext. intros i x Hx%list_elem_of_lookup_2. unfold bytesOf. by rewrite Hsame. }
    rewrite <- (co_used _ _ Hc). unfold maxReservation in *. simpl. i64. lia.
  - simpl. unfold maxReservation in *. i64. lia.
  - intros x. rewrite lookup_insert_is_Some'. intros [<-|Hx]; [lia|].
    apply (co_next _ _ Hc) in Hx. unfold id. lia.
Qed.

(** ** The timer *)

Definition TimerOk c : Prop := forall tm, c_timer c = Some tm -> t_generation tm = c_timerGeneration c.

(** While entries remain, a timer for the earliest expiry is pending. *)
Definition Armed c : Prop :=
  c_closed c = false ->
  match items (c_expiry c) with
  | root :: _ => is_Some (c_timer c) /\ c_timerExpires c = Some (expiresOf (c_store c) root)
  | [] => c_timer c = None
  end.

Lemma schedule_spec now c :
  TimerOk c ->
  let c' := scheduleExpiryLocked now c in
  TimerOk c' /\ Armed c' /\
  exists tm ex g, c' = setTimer tm ex g c.
Proof.
  intros Ht. unfold scheduleExpiryLocked, Armed.
  destruct (c_closed c) eqn:Hcl.
  { destruct (c_timer c) eqn:Htm.
    - split; [done|]. simpl. rewrite Hcl. split; [done|]. by repeat eexists.
    - split; [done|]. rewrite Hcl. split; [done|]. exists (c_timer c), (c_timerExpires c), (c_timerGeneration c).
      by destruct c. }
  destruct (items (c_expiry c)) as [|root tail] eqn:Hi.
  { destruct (c_timer c) eqn:Htm.
    - split; [done|]. simpl. rewrite Hi. split; [done|]. by repeat eexists.
    - split; [done|]. rewrite Hi. split; [done|].
      exists (c_timer c), (c_timerExpires c), (c_timerGeneration c). by destruct c. }
  destruct (bool_decide (is_Some (c_timer c)) && bool_decide _) eqn:Hb.
  - apply andb_true_iff in Hb as [Hb1%bool_decide_eq_true Hb2%bool_decide_eq_true].
    split; [done|]. rewrite Hi. split; [done|].
    exists (c_timer c), (c_timerExpires c), (c_timerGeneration c). by destruct c.
  - split; [by intros tm [= <-]|]. simpl. rewrite Hi. split; [by split; [eexists|]|].
    by repeat eexists.
Qed.

Lemma Core_setTimer tm ex g c m : Core c m -> Core (setTimer tm ex g c) m.
Proof. by intros []. Qed.

(** The invariant of a cache. *)
Record CacheInv c m : Prop := {
  cv_core : Core c m;
  cv_timer : TimerOk c;
  cv_armed : Armed c;
  cv_closed : c_closed c = true -> c_entries c = ∅ }.

(** Operations end with [scheduleExpiryLocked]. *)
Lemma schedule_CacheInv now c m :
  Core c m -> TimerOk c -> (c_closed c = true -> c_entries c = ∅) ->
  CacheInv (scheduleExpiryLocked now c) m /\
  c_entries (scheduleExpiryLocked now c) = c_entries c /\
  c_store (scheduleExpiryLocked now c) = c_store c.
Proof.
  intros Hc Ht Hcl. destruct (schedule_spec now c Ht) as (Ht' & Ha & tm & ex & g & Heq).
  split; [|by rewrite Heq]. constructor; [|done|done|].
  - rewrite Heq. by apply Core_setTimer.
  - rewrite Heq. exact Hcl.
Qed.

Lemma TimerOk_same c c' : sameTimer c c' -> TimerOk c -> TimerOk c'.
Proof. intros (Ha & _ & Hg) Ht tm. rewrite Ha, Hg. apply Ht. Qed.

(** ** Closing, and what other users of the pool may do *)

Lemma Core_setLru l c m : l ≡ₚ c_lru c -> Core c m -> Core (setLru l c) m.
Proof.
  intros Hl Hc. destruct Hc. constructor; cbn [setLru c_entries c_store c_next c_lru c_expiry c_used c_ruleID c_maxBytes]; try done.
  - intros id1 id2. rewrite !Hl. apply co_leases0.
  - by rewrite Hl.
  - by rewrite Hl.
  - rewrite co_used0. apply zsum_perm, fmap_Permutation. by rewrite Hl.
Qed.

Lemma moveToFront_perm id c m : Core c m -> id ∈ c_lru c -> moveToFront id (c_lru c) ≡ₚ c_lru c.
Proof. intros Hc Hin. symmetry. apply filter_ne_perm; [by eapply lru_NoDup|done]. Qed.

Definition owns c (lid : nat) : Prop :=
  exists id, id ∈ c_lru c /\ leaseOf (c_store c) id = Some (Leased lid).

Lemma Core_env c m m' :
  Core c m -> PoolInv m' -> (forall lid, owns c lid -> m_leases m' !! lid = m_leases m !! lid) ->
  Core c m'.
Proof.
  intros Hc Hp Hl. destruct Hc as [] eqn:E. constructor; try done.
  intros k id Hk. destruct (co_entry0 k id Hk) as (e & lid & He & ? & ? & Hle & Hm).
  exists e, lid. repeat split; try done. rewrite Hl; [done|]. exists id. split.
  - apply (in_lru c m id Hc). by exists k.
  - unfold leaseOf. rewrite He. simpl. by f_equal.
Qed.

(** Releasing the leases of a list of entries. *)
Lemma release_all c ids : forall m,
  PoolInv m -> NoDup ids ->
  (forall id1 id2, id1 ∈ ids -> id2 ∈ ids -> leaseOf (c_store c) id1 = leaseOf (c_store c) id2 -> id1 = id2) ->
  (forall id, id ∈ ids -> exists k, EntryOk c m k id) ->
  let m' := foldl (fun m' id => match entryAt c id with
                                | Some entry => leaseRelease (Some (e_lease entry)) m'
                                | None => m'
                                end) m ids in
  PoolInv m' /\ used (m_pool m') = used (m_pool m) - zsum (bytesOf (c_store c) <$> ids).
Proof.
  induction ids as [|id ids IH]; intros m Hp Hnd Hinj Hok; [simpl; split; [done|lia]|].
  apply NoDup_cons in Hnd as [Hid Hnd]. cbn [foldl]. cbv zeta.
  destruct (Hok id) as (k & e & lid & He & _ & Hb & Hl & Hm); [by left|].
  assert (entryAt c id = Some e) as Hea by done. rewrite Hea.
  destruct (release_spec m (Some (e_lease e)) Hp) as (Hp1 & Hu1 & _).
  rewrite Hl, Hm in Hu1. cbn [fmap option_fmap option_map default outstanding lease_released lease_bytes] in Hu1.
  rewrite fmap_cons, zsum_cons. unfold bytesOf at 1. rewrite He. simpl default.
  destruct (IH (leaseRelease (Some (e_lease e)) m)) as [Hp2 Hu2]; [done|done| | |].
  - intros id1 id2 H1 H2. apply Hinj; by right.
  - intros id' Hin. destruct (Hok id') as (k' & e' & lid' & He' & ? & ? & Hl' & Hm'); [by right|].
    exists k', e', lid'. repeat split; try done. rewrite Hl, release_lookup_ne; [done|].
    intros <-. apply Hid. replace id with id'; [done|]. apply Hinj; [by right|by left|].
    unfold leaseOf. rewrite He, He'. simpl. congruence.
  - split; [done|]. rewrite Hu2, Hl, Hu1. unfold Datatypes.id. lia.
Qed.

Lemma close_spec c m :
  CacheInv c m ->
  let '(c', m') := cacheClose c m in
  CacheInv c' m' /\ used (m_pool m') = used (m_pool m) - c_used c /\
  c_entries c' = ∅ /\ c_closed c' = true.
Proof.
  intros Hinv. pose proof Hinv as [Hc Ht Ha Hcl]. unfold cacheClose. destruct (c_closed c) eqn:Hcc.
  { split; [exact Hinv|]. split; [|by auto]. rewrite (co_used _ _ Hc).
    pose proof (co_lru _ _ Hc) as Hl. rewrite (Hcl eq_refl), map_to_list_empty in Hl.
    apply Permutation_nil_r in Hl. rewrite Hl. simpl. lia. }
  set (ids := snd <$> map_to_list (c_entries c)). pose proof (co_lru _ _ Hc) as Hl. fold ids in Hl.
  destruct (release_all c ids m (co_pool _ _ Hc)) as [Hp Hu].
  - rewrite <- Hl. by apply (lru_NoDup c m).
  - intros id1 id2. rewrite <- Hl. apply (co_leases _ _ Hc).
  - intros id. rewrite <- Hl. intros [k Hk]%(in_lru c m id Hc). exists k. by apply (co_entry _ _ Hc).
  - set (m' := foldl _ _ _) in *. split; [|split; [|done]].
    + constructor; [|done|done|done]. constructor; simpl; try done.
      * intros ? ? Hx. by apply elem_of_nil in Hx.
      * constructor; [intros k Hk; simpl in Hk; lia|intros i x Hx; done].
      * pose proof (Core_used_nonneg c m Hc). pose proof (co_max _ _ Hc). lia.
      * apply (co_next _ _ Hc).
    + rewrite Hu, (co_used _ _ Hc). f_equal. apply zsum_perm, fmap_Permutation. by rewrite Hl.
Qed.

Lemma expireDue_spec generation now c m :
  CacheInv c m ->
  let '(c', m') := expireDue generation now c m in
  CacheInv c' m' /\ c_store c' = c_store c /\
  ((c_closed c = true \/ generation <> c_timerGeneration c) -> (c', m') = (c, m)) /\
  (c_closed c = false -> generation = c_timerGeneration c ->
   forall k id, c_entries c' !! k = Some id <->
                c_entries c !! k = Some id /\ now < expiresOf (c_store c) id).
Proof.
  intros Hinv. pose proof Hinv as [Hc Ht Ha Hcl]. unfold expireDue.
  destruct (c_closed c) eqn:Hcc; cbn [orb].
  { split; [done|]. split; [done|]. split; [done|]. done. }
  destruct (Z.eqb_spec generation (c_timerGeneration c)) as [->|Hne]; cbn [negb].
  2:{ split; [done|]. split; [done|]. done. }
  set (c1 := setTimer None None (c_timerGeneration c) c).
  pose proof (expire_spec (length (items (c_expiry c1))) now c1 m ltac:(done) (Core_setTimer _ _ _ _ _ Hc)) as He.
  destruct (expireLoop _ now c1 m) as [c2 m2]. destruct He as (Hc2 & Ht2 & Hs2 & Hcl2 & _ & He2).
  destruct (schedule_CacheInv now c2 m2 Hc2) as (Hi & Hen & Hst).
  - apply (TimerOk_same c1 c2 Ht2). by intros tm.
  - rewrite Hcl2. unfold c1. simpl. congruence.
  - split; [done|]. split; [by rewrite Hst, Hs2|]. split; [by intros [?|?]|].
    intros _ _ k id. rewrite Hen. apply He2.
Qed.
End Invariant.

Section Contract.
Variable pack : Msg -> option string.
Variable unpack : string -> option Msg.
Implicit Types (c : reverseProxyDNSResponseCache) (m : memory) (q : Msg).

Abbreviation cacheKey := (reverseProxyDNSCacheKey pack).

(** The entry a lookup may use: present and not yet expired. *)
Definition fresh c (k : string) (now : Z) : option reverseProxyDNSCacheEntry :=
  match c_entries c !! k with
  | Some id => match entryAt c id with
               | Some e => if now <? e_expires e then Some e else None
               | None => None
               end
  | None => None
  end.

Definition answer q (now : Z) (e : reverseProxyDNSCacheEntry) : option Msg :=
  match unpack (e_wire e) with
  | Some response => Some (reverseProxyDNSAgeResponseTTLs (setId (Id q) response) now (e_expires e))
  | None => None
  end.

Lemma get_spec q now c m :
  CacheInv c m ->
  let '(o, (c', m')) := cacheGet pack unpack q now c m in
  CacheInv c' m' /\
  o = (if decide (cacheKey q = "") then None
       else match fresh c (cacheKey q) now with Some e => answer q now e | None => None end) /\
  (forall k now', now <= now' -> fresh c' k now' = fresh c k now').
Proof.
  intros Hinv. pose proof Hinv as [Hc Ht Ha Hcl]. unfold cacheGet, fresh, answer.
  set (key := cacheKey q). destruct (decide (key = "")); [done|].
  destruct (c_entries c !! key) as [id|] eqn:Hk; [|done].
  destruct (co_entry _ _ Hc key id Hk) as (e & _ & He & _). unfold entryAt. rewrite He.
  destruct (Z.ltb_spec now (e_expires e)) as [Hlt|Hdue]; cbn [negb].
  - split; [|done].
    assert (moveToFront id (c_lru c) ≡ₚ c_lru c)
      by (apply (moveToFront_perm _ _ m); [done|]; apply (in_lru c m id Hc); by exists key).
    constructor; [by apply Core_setLru|done..].
  - pose proof (remove_Core c m key id Hc Hk) as Hr. pose proof (remove_timer id c m) as Htm.
    pose proof (remove_closed id c m) as Hcr.
    destruct (removeLocked id c m) as [c1 m1]. destruct Hr as [Hc1 []]. simpl in Htm, Hcr.
    destruct (schedule_CacheInv now c1 m1 Hc1) as (Hi & Hen & Hst).
    + by apply (TimerOk_same c).
    + rewrite Hcr, rm_entries0. intros Hx. rewrite (Hcl Hx). by rewrite delete_empty.
    + split; [done|]. split; [done|]. intros k now' Hle. rewrite Hen, Hst, rm_entries0, rm_store0.
      destruct (decide (key = k)) as [<-|Hne]; [|by rewrite lookup_delete_ne].
      rewrite lookup_delete_eq, Hk, He. destruct (Z.ltb_spec now' (e_expires e)); [lia|done].
Qed.

(** The size [Put] accounts for an entry. *)
Definition entrySize (key wire : string) : Z :=
  Z.of_nat (String.length key) + Z.of_nat (String.length wire) + 96.

(** What a [Put] of an acceptable response does to the other entries: the
    previous entry of the key goes, then entries from the old end of the
    list; what stays is a prefix of the list. *)
Lemma put_body_spec key bytes c m :
  CacheInv c m -> c_closed c = false -> 0 < bytes <= c_maxBytes c ->
  let '(c1, m1) := match c_entries c !! key with
                   | Some previous => removeLocked previous c m
                   | None => (c, m)
                   end in
  let '(c2, m2) := evictLoop (length (c_lru c1)) bytes c1 m1 in
  Core c2 m2 /\ TimerOk c2 /\ c_closed c2 = false /\ c_entries c2 !! key = None /\
  c_used c2 + bytes <= c_maxBytes c2 /\
  PoolLe (m_pool m) (m_pool m2) /\ c_store c2 = c_store c /\
  c_ruleID c2 = c_ruleID c /\ c_ruleLimit c2 = c_ruleLimit c /\ c_maxBytes c2 = c_maxBytes c /\
  (forall k id, c_entries c2 !! k = Some id -> c_entries c !! k = Some id).
Proof.
  intros [Hc Ht Ha Hcl] Hcc Hb.
  assert (H1 : let '(c1, m1) := match c_entries c !! key with
                   | Some previous => removeLocked previous c m | None => (c, m) end in
    Core c1 m1 /\ sameTimer c c1 /\ c_closed c1 = false /\ c_entries c1 !! key = None /\
    PoolLe (m_pool m) (m_pool m1) /\ c_store c1 = c_store c /\
    c_ruleID c1 = c_ruleID c /\ c_ruleLimit c1 = c_ruleLimit c /\ c_maxBytes c1 = c_maxBytes c /\
    forall k id, c_entries c1 !! k = Some id -> c_entries c !! k = Some id).
  { destruct (c_entries c !! key) as [previous|] eqn:Hk; [|by do 9 (split; [done|])].
    pose proof (remove_Core c m key previous Hc Hk) as Hr. pose proof (remove_timer previous c m) as Htm.
    destruct (co_entry _ _ Hc key previous Hk) as (e & _ & He & _ & Hbe & _).
    destruct (removeLocked previous c m) as [c1 m1]. destruct Hr as [Hc1 []].
    destruct rm_config0 as (? & ? & ? & ?). split; [done|]. split; [done|]. split; [congruence|].
    split; [rewrite rm_entries0; apply lookup_delete_eq|]. split; [done|]. do 4 (split; [done|]).
    intros k id. rewrite rm_entries0. by intros [_ ?]%lookup_delete_Some. }
  destruct (match c_entries c !! key with Some _ => _ | None => _ end) as [c1 m1].
  destruct H1 as (Hc1 & Htm & Hcl1 & Hn1 & Hp1 & Hs1 & Hr1 & Hl1 & Hm1 & He1).
  pose proof (evict_spec (length (c_lru c1)) c1 m1 bytes ltac:(done) Hc1 ltac:(lia)) as Hev.
  pose proof (evict_timer (length (c_lru c1)) bytes c1 m1) as Htm2.
  destruct (evictLoop (length (c_lru c1)) bytes c1 m1) as [c2 m2].
  destruct Hev as (n & Hn & Hc2 & [] & Hu2 & _). destruct kp_config0 as (? & ? & ? & ?).
  split; [done|]. split; [by apply (TimerOk_same c1), (TimerOk_same c)|]. split; [congruence|].
  split. { apply eq_None_not_Some. intros [id [Hx _]%kp_entries0]. congruence. }
  split; [congruence|]. split; [by eapply PoolLe_trans|]. do 4 (split; [congruence|]).
  intros k id [Hx _]%kp_entries0. by apply He1.
Qed.

(** The room [Put] needs in the shared pool. *)
Definition poolRoom c m (bytes : Z) : Prop := fits (m_pool m) (c_ruleID c) bytes (c_ruleLimit c).

Lemma put_spec q response minTTL maxTTL now now2 c m :
  CacheInv c m ->
  let '(_, (c', m')) := cachePut pack q response minTTL maxTTL now now2 c m in
  CacheInv c' m' /\
  (forall k id, k <> cacheKey q -> c_entries c' !! k = Some id -> c_entries c !! k = Some id).
Proof.
  intros Hinv. unfold cachePut. set (key := cacheKey q). destruct (decide (key = "")); [done|].
  destruct (reverseProxyDNSResponseTTL response minTTL maxTTL) as [ttl response'].
  destruct (ttl <=? 0); [done|]. destruct (pack (setId 0 response')) as [wire|]; [|done].
  set (bytes := Z.of_nat _ + _ + 96). cbv zeta.
  destruct (Z.ltb_spec (c_maxBytes c) bytes) as [|Hfit]; [done|].
  destruct (c_closed c) eqn:Hcc.
  { pose proof Hinv as [Hc Ht Ha Hcl].
    destruct (schedule_CacheInv now c m Hc Ht Hcl) as (? & Hen & _). split; [done|]. by rewrite Hen. }
  pose proof (put_body_spec key bytes c m Hinv Hcc ltac:(lia)) as Hbody.
  destruct (match c_entries c !! key with Some _ => _ | None => _ end) as [c1 m1].
  destruct (evictLoop (length (c_lru c1)) bytes c1 m1) as [c2 m2].
  destruct Hbody as (Hc2 & Ht2 & Hcl2 & Hn2 & Hu2 & _ & _ & Hr2 & _ & _ & Hsub).
  pose proof (Core_used_nonneg c2 m2 Hc2). pose proof (co_max _ _ Hc2).
  assert (c_used c2 +! bytes = c_used c2 + bytes) as -> by (unfold maxReservation in *; i64; lia).
  destruct (Z.ltb_spec (c_maxBytes c2) (c_used c2 + bytes)); [lia|].
  pose proof (acquire_spec m2 (c_ruleID c2) bytes (c_ruleLimit c2) "cache" (co_pool _ _ Hc2) ltac:(lia)) as Hacq.
  destruct (poolTryAcquire (c_ruleID c2) bytes (c_ruleLimit c2) "cache" m2) as [o m3].
  destruct Hacq as [Hp3 [(-> & -> & _)|(-> & _ & _ & Hl3)]].
  - destruct (schedule_CacheInv now c2 m2 Hc2 Ht2) as (? & Hen & _); [by rewrite Hcl2|].
    split; [done|]. rewrite Hen. intros k id _. apply Hsub.
  - set (e := mkEntry key wire (now2 + ttl) bytes (Leased (m_next m2))).
    assert (Hadd : Core (addEntry e c2) m3) by (by apply (add_Core c2 m2); [..|lia|lia| |]).
    destruct (schedule_CacheInv now (addEntry e c2) m3 Hadd) as (? & Hen & _); [done|by simpl; rewrite Hcl2|].
    split; [done|]. rewrite Hen. intros k id Hne. simpl.
    rewrite lookup_insert_ne by done. apply Hsub.
Qed.

Lemma put_stores q response minTTL maxTTL now now2 c m ttl response' wire :
  CacheInv c m -> c_closed c = false -> cacheKey q <> "" ->
  reverseProxyDNSResponseTTL response minTTL maxTTL = (ttl, response') -> 0 < ttl ->
  pack (setId 0 response') = Some wire ->
  entrySize (cacheKey q) wire <= c_maxBytes c ->
  poolRoom c m (entrySize (cacheKey q) wire) ->
  let '(r, (c', m')) := cachePut pack q response minTTL maxTTL now now2 c m in
  r = response' /\ CacheInv c' m' /\
  exists e, e_wire e = wire /\ e_expires e = now2 + ttl /\
    forall now', fresh c' (cacheKey q) now' = if now' <? now2 + ttl then Some e else None.
Proof.
  intros Hinv Hcc Hkey Httl Hpos Hwire Hsize Hroom.
  pose proof (put_spec q response minTTL maxTTL now now2 c m Hinv) as Hput.
  revert Hput. unfold cachePut. set (key := cacheKey q) in *. rewrite decide_False by done.
  rewrite Httl. destruct (Z.leb_spec ttl 0); [lia|]. rewrite Hwire. cbv zeta.
  fold (entrySize key wire). set (bytes := entrySize key wire) in *.
  destruct (Z.ltb_spec (c_maxBytes c) bytes); [lia|]. rewrite Hcc.
  assert (0 < bytes) by (unfold bytes, entrySize; lia).
  pose proof (put_body_spec key bytes c m Hinv Hcc ltac:(lia)) as Hbody.
  destruct (match c_entries c !! key with Some _ => _ | None => _ end) as [c1 m1].
  destruct (evictLoop (length (c_lru c1)) bytes c1 m1) as [c2 m2].
  destruct Hbody as (Hc2 & Ht2 & Hcl2 & Hn2 & Hu2 & Hle & _ & Hr2 & Hl2 & _ & _).
  pose proof (Core_used_nonneg c2 m2 Hc2). pose proof (co_max _ _ Hc2).
  assert (c_used c2 +! bytes = c_used c2 + bytes) as -> by (unfold maxReservation in *; i64; lia).
  destruct (Z.ltb_spec (c_maxBytes c2) (c_used c2 + bytes)); [lia|].
  pose proof (acquire_spec m2 (c_ruleID c2) bytes (c_ruleLimit c2) "cache" (co_pool _ _ Hc2) ltac:(lia)) as Hacq.
  unfold poolRoom in Hroom. rewrite Hr2, Hl2 in *.
  destruct (poolTryAcquire (c_ruleID c) bytes (c_ruleLimit c) "cache" m2) as [o m3].
  destruct Hacq as [Hp3 [(_ & _ & Hno)|(-> & _ & _ & Hl3)]].
  { exfalso. by apply Hno, (fits_le (m_pool m)). }
  intros [Hi _]. split; [done|]. split; [done|].
  set (e := mkEntry key wire (now2 + ttl) bytes (Leased (m_next m2))) in *.
  exists e. split; [done|]. split; [done|]. intros now'.
  destruct (schedule_spec now (addEntry e c2) Ht2) as (_ & _ & tm & ex & g & ->).
  unfold fresh, entryAt. simpl. by rewrite !lookup_insert_eq.
Qed.

(** Runs: the cache's methods in any order, the timer's callbacks with any
    generation, and other users of the shared pool, who release only their
    own leases. *)
Inductive cacheRun : reverseProxyDNSResponseCache -> memory -> Prop :=
| run_new defaultLimit rule c m :
    newReverseProxyDNSResponseCache defaultLimit rule = Some c ->
    c_maxBytes c <= maxReservation -> PoolInv m -> cacheRun c m
| run_get q now c m o c' m' : cacheRun c m ->
    cacheGet pack unpack q now c m = (o, (c', m')) -> cacheRun c' m'
| run_put q response minTTL maxTTL now now2 c m r c' m' : cacheRun c m ->
    cachePut pack q response minTTL maxTTL now now2 c m = (r, (c', m')) -> cacheRun c' m'
| run_timer generation now c m c' m' : cacheRun c m ->
    expireDue generation now c m = (c', m') -> cacheRun c' m'
| run_close c m c' m' : cacheRun c m -> cacheClose c m = (c', m') -> cacheRun c' m'
| run_acquire ruleID bytes ruleLimit category c m : cacheRun c m -> bytes <= maxReservation ->
    cacheRun c (poolTryAcquire ruleID bytes ruleLimit category m).2
| run_release lid c m : cacheRun c m -> ~ owns c lid ->
    cacheRun c (leaseRelease (Some (Leased lid)) m)
| run_configure cap c m : cacheRun c m -> cap <= maxReservation ->
    cacheRun c (mkMemory (poolConfigure cap (m_pool m)) (m_leases m) (m_next m)).

Lemma CacheInv_env c m m' :
  CacheInv c m -> PoolInv m' -> (forall lid, owns c lid -> m_leases m' !! lid = m_leases m !! lid) ->
  CacheInv c m'.
Proof. intros [] ? ?. constructor; try done. by apply (Core_env c m). Qed.

Lemma new_CacheInv defaultLimit rule c m :
  newReverseProxyDNSResponseCache defaultLimit rule = Some c ->
  c_maxBytes c <= maxReservation -> PoolInv m -> CacheInv c m.
Proof.
  intros Hn Hmax Hp. unfold newReverseProxyDNSResponseCache in Hn. destruct rule as [r|]; [|done].
  destruct (negb _); [done|]. cbv zeta in Hn.
  match type of Hn with context [?mb <=? 0] =>
    set (b := mb) in Hn; clearbody b; destruct (Z.leb_spec b 0); [done|] end.
  injection Hn as <-.
  simpl in Hmax. constructor; [|done|done|done]. constructor; simpl; try done.
  - intros ? ? Hx. by apply elem_of_nil in Hx.
  - lia.
  - intros id [? Hx]. by rewrite lookup_empty in Hx.
Qed.

Lemma owned_out c m lid : CacheInv c m -> owns c lid -> is_Some (m_leases m !! lid).
Proof.
  intros [Hc _ _ _] (id & [k Hk]%(in_lru c m id Hc) & Hl).
  destruct (co_entry _ _ Hc k id Hk) as (e & lid' & He & _ & _ & Hle & Hm).
  unfold leaseOf in Hl. rewrite He in Hl. simpl in Hl. simplify_eq. rewrite Hle in Hl. simplify_eq.
  by eexists.
Qed.

Lemma cacheRun_Inv c m : cacheRun c m -> CacheInv c m.
Proof.
  induction 1 as [| q now c m o c' m' _ IH E | q r mn mx now now2 c m o c' m' _ IH E
    | g now c m c' m' _ IH E | c m c' m' _ IH E | r b rl cat c m _ IH Hb | lid c m _ IH Ho | cap c m _ IH Hc].
  - by eapply new_CacheInv.
  - pose proof (get_spec q now c m IH) as Hs. rewrite E in Hs. by destruct Hs.
  - pose proof (put_spec q r mn mx now now2 c m IH) as Hs. rewrite E in Hs. by destruct Hs.
  - pose proof (expireDue_spec g now c m IH) as Hs. rewrite E in Hs. by destruct Hs.
  - pose proof (close_spec c m IH) as Hs. rewrite E in Hs. by destruct Hs.
  - pose proof (co_pool _ _ (cv_core _ _ IH)) as Hp.
    apply (CacheInv_env c m); [done|by apply acquire_Inv|].
    intros lid Hl. pose proof (owned_out c m lid IH Hl) as [l Hlid].
    unfold poolTryAcquire. repeat case_match; try done. simpl.
    rewrite lookup_insert_ne; [done|]. intros <-. by rewrite (next_fresh m Hp) in Hlid.
  - pose proof (co_pool _ _ (cv_core _ _ IH)) as Hp.
    apply (CacheInv_env c m); [done|by apply release_spec|].
    intros lid' Hl. apply release_lookup_ne. by intros <-.
  - pose proof (co_pool _ _ (cv_core _ _ IH)) as Hp.
    apply (CacheInv_env c m); [done|by apply configure_spec|done].
Qed.

(** C8: in every run of a DNS cache, the map, the LRU list and the expiry
    heap hold the same entries, the accounted bytes are the sum of their
    sizes and within the configured size, every entry holds an unreleased
    lease of exactly its bytes on the shared pool, the heap's root expires
    first, and while entries remain a timer for that time is pending. *)
Theorem dns_cache_invariant c m :
  cacheRun c m ->
  (forall id, id ∈ c_lru c <-> exists k, c_entries c !! k = Some id) /\
  NoDup (c_lru c) /\ items (c_expiry c) ≡ₚ c_lru c /\
  c_used c = zsum (bytesOf (c_store c) <$> c_lru c) /\ c_used c <= c_maxBytes c /\
  (forall k id, c_entries c !! k = Some id -> EntryOk c m k id) /\
  (forall root, items (c_expiry c) !! 0%nat = Some root -> c_closed c = false ->
     (forall k id, c_entries c !! k = Some id ->
        expiresOf (c_store c) root <= expiresOf (c_store c) id) /\
     is_Some (c_timer c) /\ c_timerExpires c = Some (expiresOf (c_store c) root)).
Proof.
  intros [Hc Ht Ha _]%cacheRun_Inv. split; [intros id; by apply (in_lru c m)|].
  split; [by apply (lru_NoDup c m)|]. split; [apply Hc|]. split; [apply Hc|].
  split; [apply (co_max _ _ Hc)|]. split; [apply Hc|].
  intros root Hroot Hcl. split.
  - intros k id Hk. apply (HeapOk_min _ (c_expiry c)); [apply Hc|done|].
    rewrite (co_heap _ _ Hc). apply (in_lru c m id Hc). by exists k.
  - specialize (Ha Hcl). destruct (items (c_expiry c)); [done|]. simpl in Hroot. by simplify_eq.
Qed.

(** a lookup answers exactly from an entry that is present under the
    packed question and has not expired, with the asker's message id and
    aged TTLs; it never changes what later lookups can find. *)
Theorem dns_get_exact q now c m :
  cacheRun c m ->
  let '(o, (c', m')) := cacheGet pack unpack q now c m in
  o = (if decide (cacheKey q = "") then None
       else match fresh c (cacheKey q) now with Some e => answer q now e | None => None end) /\
  (forall k now', now <= now' -> fresh c' k now' = fresh c k now').
Proof.
  intros Hi%cacheRun_Inv. pose proof (get_spec q now c m Hi) as Hs.
  destruct (cacheGet pack unpack q now c m) as [o [c' m']]. by destruct Hs as (_ & ? & ?).
Qed.

(** a response with a positive time to live that fits the cache and the
    pool is stored, and every later question with the same packed form is
    answered with it (under the new message id, TTLs aged) strictly before
    it expires and with nothing from then on. *)
Theorem dns_put_then_get q q' response minTTL maxTTL now now2 now' c m ttl response' wire :
  (forall x w, pack x = Some w -> unpack w = Some x) ->
  cacheRun c m -> c_closed c = false -> cacheKey q <> "" -> cacheKey q' = cacheKey q ->
  reverseProxyDNSResponseTTL response minTTL maxTTL = (ttl, response') -> 0 < ttl ->
  pack (setId 0 response') = Some wire ->
  entrySize (cacheKey q) wire <= c_maxBytes c ->
  poolRoom c m (entrySize (cacheKey q) wire) ->
  let '(_, (c', m')) := cachePut pack q response minTTL maxTTL now now2 c m in
  (cacheGet pack unpack q' now' c' m').1 =
  if now' <? now2 + ttl
  then Some (reverseProxyDNSAgeResponseTTLs (setId (Id q') (setId 0 response')) now' (now2 + ttl))
  else None.
Proof.
  intros Hlaw Hrun Hcc Hkey Hsame Httl Hpos Hwire Hsize Hroom.
  pose proof (put_stores q response minTTL maxTTL now now2 c m ttl response' wire
    (cacheRun_Inv c m Hrun) Hcc Hkey Httl Hpos Hwire Hsize Hroom) as Hput.
  destruct (cachePut pack q response minTTL maxTTL now now2 c m) as [r [c' m']].
  destruct Hput as (_ & Hi & e & Hew & Hee & Hfresh).
  pose proof (get_spec q' now' c' m' Hi) as Hg.
  destruct (cacheGet pack unpack q' now' c' m') as [o [c'' m'']]. destruct Hg as (_ & -> & _).
  simpl. rewrite Hsame, decide_False, Hfresh by done. destruct (now' <? now2 + ttl); [|done].
  unfold answer. by rewrite Hew, (Hlaw _ _ Hwire), Hee.
Qed.

(** making room removes entries from the least recently used end only,
    and only as long as the new entry does not fit: what stays is a prefix
    of the list, the new entry fits behind it, and with one more old entry
    it would not. *)
Theorem dns_evicts_least_recent entryBytes c m :
  cacheRun c m -> 0 < entryBytes <= c_maxBytes c ->
  let '(c', m') := evictLoop (length (c_lru c)) entryBytes c m in
  exists n, c_lru c' = take n (c_lru c) /\ c_used c' + entryBytes <= c_maxBytes c /\
    ((n < length (c_lru c))%nat -> c_maxBytes c < lruBytes c (S n) + entryBytes).
Proof.
  intros [Hc _ _ _]%cacheRun_Inv Hb.
  pose proof (evict_spec (length (c_lru c)) c m entryBytes ltac:(done) Hc Hb) as He.
  destruct (evictLoop (length (c_lru c)) entryBytes c m) as [c' m'].
  destruct He as (n & _ & _ & [] & ? & ?). by exists n.
Qed.

(** the timer's callback removes exactly the entries whose time has
    come, and its loop ends; a callback of an outdated timer, or after the
    cache is closed, does nothing. *)
Theorem dns_expire_exact generation now c m :
  cacheRun c m ->
  let '(c', m') := expireDue generation now c m in
  ((c_closed c = true \/ generation <> c_timerGeneration c) -> (c', m') = (c, m)) /\
  (c_closed c = false -> generation = c_timerGeneration c ->
   forall k id, c_entries c' !! k = Some id <->
                c_entries c !! k = Some id /\ now < expiresOf (c_store c) id).
Proof.
  intros Hi%cacheRun_Inv. pose proof (expireDue_spec generation now c m Hi) as Hs.
  destruct (expireDue generation now c m) as [c' m']. by destruct Hs as (_ & _ & ? & ?).
Qed.

(** closing a cache gives back to the shared pool exactly the bytes the
    cache accounts for and leaves it empty; closing it again does nothing. *)
Theorem dns_close_releases c m :
  cacheRun c m ->
  let '(c', m') := cacheClose c m in
  used (m_pool m') = used (m_pool m) - c_used c /\ c_entries c' = ∅ /\
  cacheClose c' m' = (c', m').
Proof.
  intros Hi%cacheRun_Inv. pose proof (close_spec c m Hi) as Hs.
  destruct (cacheClose c m) as [c' m']. destruct Hs as (_ & ? & ? & Hcl).
  split; [done|]. split; [done|]. unfold cacheClose. by rewrite Hcl.
Qed.
End Contract.

(** ** Times to live *)

Definition countedTTL (m : Msg) (f : Z -> Prop) : Prop :=
  forall r, Some r ∈ sections m -> Rrtype r <> TypeOPT -> f (Ttl r).

Lemma scan_lowest l acc lowest :
  foldl scanTTL acc l = Some lowest ->
  (acc = Some lowest \/ exists r, Some r ∈ l /\ Rrtype r <> TypeOPT /\ Ttl r = lowest) /\
  (forall x, acc = Some x -> lowest <= x) /\
  (forall r, Some r ∈ l -> Rrtype r <> TypeOPT -> lowest <= Ttl r).
Proof.
  revert acc. induction l as [|o l IH]; intros acc H; simpl in H.
  { split; [by left|]. split; [intros x Hx; simplify_eq; lia|]. by intros r Hr%elem_of_nil. }
  destruct (IH _ H) as (H1 & H2 & H3). clear IH H. destruct o as [r|]; simpl in *.
  2:{ split; [|split; [done|]].
      - destruct H1 as [?|(r & ? & ?)]; [by left|right]. exists r. split; [by right|done].
      - intros r [?|Hr]%elem_of_cons; [done|by apply H3]. }
  destruct (Z.eqb_spec (Rrtype r) TypeOPT) as [Ho|Ho].
  { split; [|split; [done|]].
    - destruct H1 as [?|(r' & ? & ?)]; [by left|right]. exists r'. split; [by right|done].
    - intros r' [?|Hr]%elem_of_cons ?; [by simplify_eq|by apply H3]. }
  assert (Hr : lowest <= Ttl r).
  { destruct acc as [a|]; [|by apply H2]. destruct (Z.ltb_spec (Ttl r) a); [by apply H2|].
    specialize (H2 a eq_refl). lia. }
  split; [|split].
  - destruct H1 as [Hx|(r' & ? & ?)]; [|right; exists r'; split; [by right|done]].
    destruct acc as [a|]; [destruct (Z.ltb_spec (Ttl r) a)|]; simplify_eq; try (by left);
      right; exists r; (split; [by left|done]).
  - intros x ->. destruct (Z.ltb_spec (Ttl r) x); [|by apply H2]. lia.
  - intros r' [?|Hr']%elem_of_cons ?; [by simplify_eq|by apply H3].
Qed.

Lemma sections_map f m o :
  o ∈ sections (mapRecords f m) <-> exists o', o' ∈ sections m /\ o = f <$> o'.
Proof.
  unfold sections, mapRecords. simpl. setoid_rewrite elem_of_app. setoid_rewrite elem_of_app.
  rewrite !list_elem_of_fmap. naive_solver.
Qed.

(** a response is cached for its lowest record TTL, raised to the
    configured minimum and lowered to the configured maximum, and every
    counted record of the returned response carries exactly that TTL; and a
    response read back [expires - now] before its expiry carries no TTL
    above the whole seconds that remain. *)
Theorem dns_ttl_clamped response minTTL maxTTL ttl response' now expires :
  0 <= minTTL <= max_u32 -> 0 < maxTTL <= max_u32 -> minTTL <= maxTTL ->
  countedTTL response (fun t => 0 <= t <= max_u32) ->
  0 <= expires - now < 2 ^ 22 * nanosecond_per_second ->
  reverseProxyDNSResponseTTL response minTTL maxTTL = (ttl, response') -> 0 < ttl ->
  (exists seconds, ttl = seconds * nanosecond_per_second /\ minTTL <= seconds <= maxTTL /\
     countedTTL response' (fun t => t = seconds) /\
     (seconds < maxTTL -> countedTTL response (fun t => seconds <= t \/ seconds = minTTL))) /\
  countedTTL (reverseProxyDNSAgeResponseTTLs response' now expires)
    (fun t => t * nanosecond_per_second <= expires - now).
Proof.
  intros Hmin Hmax Hle Hrange Hage Heq Hpos. unfold reverseProxyDNSResponseTTL in Heq.
  destruct (foldl scanTTL None (sections response)) as [found|] eqn:Hs; [|by simplify_eq].
  apply scan_lowest in Hs as ([?|(r0 & Hr0 & Ho0 & Hf)] & _ & Hlow); [done|].
  pose proof (Hrange r0 Hr0 Ho0) as Hfound. rewrite Hf in Hfound.
  set (lowest := clampTTL minTTL maxTTL found) in *.
  assert (Hclamp : minTTL <= lowest <= maxTTL /\ (lowest < maxTTL -> lowest <= found \/ lowest = minTTL)).
  { unfold lowest, clampTTL, wrapU32, max_u32 in *.
    rewrite !Z.mod_small by lia. zcases; lia. }
  destruct (Z.eqb_spec lowest 0); [by simplify_eq|]. injection Heq as <- <-. split.
  - exists lowest. split; [done|]. split; [lia|]. split.
    + intros r (o' & Ho' & Hr)%sections_map Ho. destruct o' as [r'|]; [|done]. simpl in Hr. simplify_eq.
      by destruct (Z.eqb_spec (Rrtype r') TypeOPT).
    + intros Hlt r Hr Ho. specialize (Hlow r Hr Ho). lia.
  - intros r (o' & Ho' & Hr)%sections_map Ho. destruct o' as [r'|]; [|done]. simpl in Hr.
    unfold remainingSeconds, nanosecond_per_second, max_u32 in *.
    destruct (Z.ltb_spec (Z.quot (expires - now) 1000000000) 0) as [Hq|Hq];
      [pose proof (Z.quot_pos (expires - now) 1000000000); lia|].
    destruct (Z.ltb_spec (2 ^ 32 - 1) (Z.quot (expires - now) 1000000000)) as [Hb|Hb];
      [pose proof (Z.quot_le_upper_bound (expires - now) 1000000000 (2 ^ 22)); lia|].
    pose proof (Z.mul_quot_le (expires - now) 1000000000 ltac:(lia)).
    destruct (Z.eqb_spec (Rrtype r') TypeOPT); simpl in Hr; [by simplify_eq|].
    destruct (Z.ltb_spec (Z.quot (expires - now) 1000000000) (Ttl r')); simplify_eq; simpl; lia.
Qed.

(** ** A run for the witnesses: one rule, one question, one answer *)

#[global] Instance RR_eq_dec : EqDecision RR.
Proof. solve_decision. Defined.
#[global] Instance Msg_eq_dec : EqDecision Msg.
Proof. solve_decision. Defined.

Definition demoQuestion : Msg := mkMsg 0 [] [] [] "example.org A".
Definition demoAnswer (ttl : Z) : Msg := mkMsg 0 [Some (mkRR 1 ttl "192.0.2.1")] [] [] "example.org A".

(** A packing of the two messages of the run. *)
Definition demoPack (x : Msg) : option string :=
  if decide (x = demoQuestion) then Some "q"
  else if decide (x = demoAnswer 60) then Some "a" else None.
Definition demoUnpack (w : string) : option Msg :=
  if decide (w = "q") then Some demoQuestion
  else if decide (w = "a") then Some (demoAnswer 60) else None.

Lemma demoPack_law x w : demoPack x = Some w -> demoUnpack w = Some x.
Proof. unfold demoPack. repeat case_decide; intros; by simplify_eq. Qed.

Definition demoRule : dnsRule := mkDnsRule 3 true 0 0.
Definition demoFresh : reverseProxyDNSResponseCache :=
  mkCache 3 1000000 1000000 ∅ ∅ 0 [] (mkHeap [] ∅) None None 0 0 false.
Definition demoMemory : memory := mkMemory (newReverseProxyMemoryPool 1000000) ∅ 0.

Lemma demoMemory_Inv : PoolInv demoMemory.
Proof. apply poolRun_Inv, pool_new. unfold maxReservation. lia. Qed.

Lemma demoFresh_run : cacheRun demoPack demoUnpack demoFresh demoMemory.
Proof.
  apply (run_new _ _ 1000000 (Some demoRule)); [reflexivity| |apply demoMemory_Inv].
  vm_compute. discriminate.
Qed.

Definition demoPut : Msg * (reverseProxyDNSResponseCache * memory) :=
  cachePut demoPack (setId 9 demoQuestion) (setId 9 (demoAnswer 30)) 60 3600 0 0 demoFresh demoMemory.
Definition demoCache : reverseProxyDNSResponseCache := demoPut.2.1.
Definition demoUsed : memory := demoPut.2.2.

Lemma demoCache_run : cacheRun demoPack demoUnpack demoCache demoUsed.
Proof.
  apply (run_put _ _ (setId 9 demoQuestion) (setId 9 (demoAnswer 30)) 60 3600 0 0 demoFresh demoMemory
           demoPut.1); [apply demoFresh_run|].
  fold demoPut. unfold demoCache, demoUsed. by destruct demoPut as [? [? ?]].
Qed.

Lemma dns_cache_invariant_witness :
  c_lru demoCache = [0%nat] /\ c_used demoCache = 98 /\ c_used demoCache <= c_maxBytes demoCache.
Proof.
  split; [reflexivity|]. split; [reflexivity|].
  pose proof (dns_cache_invariant demoPack demoUnpack demoCache demoUsed demoCache_run) as H.
  generalize dependent demoCache. intros c H. apply H.
Defined.

Lemma dns_get_exact_witness :
  (cacheGet demoPack demoUnpack (setId 5 demoQuestion) 1 demoCache demoUsed).1 =
  Some (setId 5 (demoAnswer 59)).
Proof.
  pose proof (dns_get_exact demoPack demoUnpack (setId 5 demoQuestion) 1 demoCache demoUsed demoCache_run) as H.
  destruct (cacheGet demoPack demoUnpack (setId 5 demoQuestion) 1 demoCache demoUsed) as [o [c' m']].
  destruct H as [H _]. simpl. rewrite H. vm_compute. reflexivity.
Defined.

Lemma dns_put_then_get_witness :
  let '(_, (c', m')) := cachePut demoPack (setId 9 demoQuestion) (setId 9 (demoAnswer 30)) 60 3600 0 0
                          demoFresh demoMemory in
  (cacheGet demoPack demoUnpack (setId 5 demoQuestion) 1 c' m').1 = Some (setId 5 (demoAnswer 59)).
Proof.
  pose proof (dns_put_then_get demoPack demoUnpack (setId 9 demoQuestion) (setId 5 demoQuestion)
    (setId 9 (demoAnswer 30)) 60 3600 0 0 1 demoFresh demoMemory (60 * nanosecond_per_second)
    (setId 9 (demoAnswer 60)) "a" demoPack_law demoFresh_run
    eq_refl ltac:(vm_compute; discriminate) ltac:(vm_compute; reflexivity) ltac:(vm_compute; reflexivity)
    ltac:(vm_compute; reflexivity) ltac:(vm_compute; reflexivity) ltac:(vm_compute; discriminate)
    ltac:(split; vm_compute; [|intros _]; discriminate)) as H.
  destruct (cachePut _ _ _ _ _ _ _ _ _) as [r [c' m']]. rewrite H. vm_compute. reflexivity.
Defined.

Lemma dns_evicts_least_recent_witness :
  let '(c', _) := evictLoop (length (c_lru demoCache)) 1000000 demoCache demoUsed in
  c_used c' + 1000000 <= 1000000.
Proof.
  pose proof (dns_evicts_least_recent demoPack demoUnpack 1000000 demoCache demoUsed demoCache_run
    ltac:(vm_compute; split; [reflexivity|discriminate])) as H.
  destruct (evictLoop _ _ _ _) as [c' m']. destruct H as (n & _ & H & _). exact H.
Defined.

Lemma dns_expire_exact_witness :
  (forall id, (expireDue 1 (60 * nanosecond_per_second) demoCache demoUsed).1.(c_entries) !! "q" = Some id ->
     c_entries demoCache !! "q" = Some id /\
     60 * nanosecond_per_second < expiresOf (c_store demoCache) id) /\
  (expireDue 1 (60 * nanosecond_per_second) demoCache demoUsed).1.(c_entries) !! "q" = None.
Proof.
  pose proof (dns_expire_exact demoPack demoUnpack 1 (60 * nanosecond_per_second) demoCache demoUsed
    demoCache_run) as H.
  split; [|vm_compute; reflexivity]. intros id.
  destruct (expireDue 1 (60 * nanosecond_per_second) demoCache demoUsed) as [c' m'].
  destruct H as [_ H]. apply (H eq_refl eq_refl "q" id).
Defined.

Lemma dns_close_releases_witness :
  used (m_pool (cacheClose demoCache demoUsed).2) = 0.
Proof.
  pose proof (dns_close_releases demoPack demoUnpack demoCache demoUsed demoCache_run) as H.
  destruct (cacheClose demoCache demoUsed) as [c' m']. destruct H as [H _].
  simpl. rewrite H. vm_compute. reflexivity.
Defined.

Lemma dns_ttl_clamped_witness :
  countedTTL (reverseProxyDNSAgeResponseTTLs (demoAnswer 60) 0 (5 * nanosecond_per_second))
    (fun t => t * nanosecond_per_second <= 5 * nanosecond_per_second - 0).
Proof.
  apply (dns_ttl_clamped (demoAnswer 30) 60 3600 (60 * nanosecond_per_second) (demoAnswer 60) 0
    (5 * nanosecond_per_second)); try (unfold max_u32, nanosecond_per_second; lia); [|reflexivity].
  intros r Hr _. unfold sections in Hr. simpl in Hr. rewrite list_elem_of_singleton in Hr.
  injection Hr as ->. simpl. unfold max_u32. lia.
Defined.
