(* ===== verification/Resources.v ===== *)
(** * Reverse-proxy resource policy
      ([service/reverse_proxy_resources.go], controller of
      [service/reverse_proxy_memory.go])

    The persisted policy (a singleton row with a revision), its defaults,
    normalisation and validation, the optimistic update, and the runtime
    controller it is applied to.  The two tables a save touches are
    implementations of [Table]; a transaction that fails leaves both as they
    were. *)

From S2P Require Import Prelude Table Memory.
From stdpp Require Import base gmap list strings.
From Stdlib Require Import ZArith Lia.

#[local] Open Scope Z_scope.
#[local] Open Scope go_scope.

Definition reverseProxyMaximumConfiguredLimit : Z := 1000000.
Definition reverseProxyMaximumConfiguredStreams : Z := 65535.
Definition reverseProxyMaximumMemoryPoolBytes : Z := 64 * 1024 * 1024 * 1024.
Definition ReverseProxyLegacyMaxConcurrentRequests : Z := 128.
Definition ReverseProxyLegacyDNSMaxConcurrentQueries : Z := 128.

Record ReverseProxyResourceSettings : Type := mkSettings {
  ListenerConnectionLimit : Z;
  GlobalHTTPMaxConcurrent : Z;
  GlobalDNSMaxConcurrent : Z;
  HTTP2MaxConcurrentStreams : Z;
  QUICMaxIncomingStreams : Z;
  DefaultUpstreamMaxIdleConnections : Z;
  MemoryPoolBytes : Z;
  DefaultRuleMemoryLimitBytes : Z;
  ResponseRewriteInputBytes : Z;
  ResponseRewriteOutputBytes : Z;
  ResponseRewriteMaxConcurrent : Z }.

#[global] Instance settings_eq_dec : EqDecision ReverseProxyResourceSettings.
Proof. solve_decision. Defined.

(** The row of [reverse_proxy_settings]; its time stamps play no part. *)
Record ReverseProxySettings : Type := mkSettingsRow {
  Revision : Z;
  policy : ReverseProxyResourceSettings }.

#[global] Instance settingsRow_eq_dec : EqDecision ReverseProxySettings.
Proof. solve_decision. Defined.

(** The columns of [reverse_proxy_rules] the migration touches. *)
Record ruleLimits : Type := mkRuleLimits {
  max_concurrent_requests : Z;
  dns_max_concurrent_queries : Z }.

Definition DefaultReverseProxySettings : ReverseProxySettings :=
  mkSettingsRow 1
    (mkSettings 4096 4096 4096 250 256 32
       (32 * 1024 * 1024 * 1024) (1024 * 1024 * 1024)
       (128 * 1024 * 1024) (256 * 1024 * 1024) 512).

Definition reverseProxySettingsView (row : option ReverseProxySettings)
  : ReverseProxyResourceSettings :=
  match row with
  | None => policy DefaultReverseProxySettings
  | Some r => policy r
  end.

Definition normalizeReverseProxySettingsModel (row : ReverseProxySettings) : ReverseProxySettings :=
  let d := policy DefaultReverseProxySettings in
  let p := policy row in
  let orElse (bad : bool) (x y : Z) := if bad then y else x in
  mkSettingsRow
    (orElse (Revision row =? 0) (Revision row) (Revision DefaultReverseProxySettings))
    (mkSettings
       (orElse (ListenerConnectionLimit p <? 0) (ListenerConnectionLimit p) (ListenerConnectionLimit d))
       (orElse (GlobalHTTPMaxConcurrent p <? 0) (GlobalHTTPMaxConcurrent p) (GlobalHTTPMaxConcurrent d))
       (orElse (GlobalDNSMaxConcurrent p <? 0) (GlobalDNSMaxConcurrent p) (GlobalDNSMaxConcurrent d))
       (orElse (HTTP2MaxConcurrentStreams p =? 0) (HTTP2MaxConcurrentStreams p) (HTTP2MaxConcurrentStreams d))
       (orElse (QUICMaxIncomingStreams p <=? 0) (QUICMaxIncomingStreams p) (QUICMaxIncomingStreams d))
       (orElse (DefaultUpstreamMaxIdleConnections p <? 0) (DefaultUpstreamMaxIdleConnections p)
          (DefaultUpstreamMaxIdleConnections d))
       (orElse (MemoryPoolBytes p <=? 0) (MemoryPoolBytes p) (MemoryPoolBytes d))
       (orElse (DefaultRuleMemoryLimitBytes p <=? 0) (DefaultRuleMemoryLimitBytes p)
          (DefaultRuleMemoryLimitBytes d))
       (orElse (ResponseRewriteInputBytes p <=? 0) (ResponseRewriteInputBytes p)
          (ResponseRewriteInputBytes d))
       (orElse (ResponseRewriteOutputBytes p <=? 0) (ResponseRewriteOutputBytes p)
          (ResponseRewriteOutputBytes d))
       (orElse (ResponseRewriteMaxConcurrent p <=? 0) (ResponseRewriteMaxConcurrent p)
          (ResponseRewriteMaxConcurrent d))).

Definition reverseProxyRewriteReservationBytes (inputBytes outputBytes : Z) : Z :=
  if (inputBytes <? 0) || (outputBytes <? 0) then 0
  else inputBytes +! wrap64 (outputBytes * 2).

(** The rejected field, [None] for a valid policy. *)
Inductive settingsError : Type :=
| BadListenerConnections | BadHTTPConcurrency | BadDNSConcurrency | BadHTTP2Streams | BadQUICStreams
| BadUpstreamIdle | BadMemoryPool | BadRuleLimit | BadRewriteInput | BadRewriteOutput
| BadRewriteReservation | BadRewriteConcurrency.

Definition outside (lo hi x : Z) : bool := (x <? lo) || (hi <? x).

Definition validateReverseProxyResourceSettings (v : ReverseProxyResourceSettings)
  : option settingsError :=
  let minimum := reverseProxyMinimumRewriteReservationBytes in
  if outside 0 reverseProxyMaximumConfiguredLimit (ListenerConnectionLimit v)
  then Some BadListenerConnections
  else if outside 0 reverseProxyMaximumConfiguredLimit (GlobalHTTPMaxConcurrent v)
  then Some BadHTTPConcurrency
  else if outside 0 reverseProxyMaximumConfiguredLimit (GlobalDNSMaxConcurrent v)
  then Some BadDNSConcurrency
  else if outside 1 reverseProxyMaximumConfiguredStreams (HTTP2MaxConcurrentStreams v)
  then Some BadHTTP2Streams
  else if outside 1 reverseProxyMaximumConfiguredStreams (QUICMaxIncomingStreams v)
  then Some BadQUICStreams
  else if outside 0 reverseProxyMaximumConfiguredLimit (DefaultUpstreamMaxIdleConnections v)
  then Some BadUpstreamIdle
  else if outside minimum reverseProxyMaximumMemoryPoolBytes (MemoryPoolBytes v)
  then Some BadMemoryPool
  else if outside minimum (MemoryPoolBytes v) (DefaultRuleMemoryLimitBytes v)
  then Some BadRuleLimit
  else if outside minimum (DefaultRuleMemoryLimitBytes v) (ResponseRewriteInputBytes v)
  then Some BadRewriteInput
  else if outside minimum (DefaultRuleMemoryLimitBytes v) (ResponseRewriteOutputBytes v)
  then Some BadRewriteOutput
  else if DefaultRuleMemoryLimitBytes v <?
          reverseProxyRewriteReservationBytes (ResponseRewriteInputBytes v) (ResponseRewriteOutputBytes v)
  then Some BadRewriteReservation
  else if outside 1 reverseProxyMaximumConfiguredLimit (ResponseRewriteMaxConcurrent v)
  then Some BadRewriteConcurrency
  else None.

(** ** The controller *)

Record controller : Type := mkController {
  k_settings : ReverseProxyResourceSettings;
  k_http : reverseProxyAdjustableLimiter;
  k_dns : reverseProxyAdjustableLimiter;
  k_rewrite : reverseProxyAdjustableLimiter;
  k_memory : memory }.

Definition controllerApply (settings : ReverseProxyResourceSettings) (k : controller) : controller :=
  mkController settings
    (limiterSetMax (GlobalHTTPMaxConcurrent settings) (k_http k))
    (limiterSetMax (GlobalDNSMaxConcurrent settings) (k_dns k))
    (limiterSetMax (ResponseRewriteMaxConcurrent settings) (k_rewrite k))
    (mkMemory (poolConfigure (MemoryPoolBytes settings) (m_pool (k_memory k)))
       (m_leases (k_memory k)) (m_next (k_memory k))).

Definition newReverseProxyResourceController (settings : ReverseProxyResourceSettings) : controller :=
  controllerApply settings
    (mkController settings (mkLimiter 0 0) (mkLimiter 0 0) (mkLimiter 0 0)
       (mkMemory (newReverseProxyMemoryPool (MemoryPoolBytes settings)) ∅ 0)).

Definition setRewrite (l : reverseProxyAdjustableLimiter) (m : memory) (k : controller) : controller :=
  mkController (k_settings k) (k_http k) (k_dns k) l m.

(** A permit of the limiter and a lease of the pool, both or neither. *)
Definition tryAcquireRewrite (ruleID ruleLimit bytes : Z) (k : controller)
  : option leaseRef * controller :=
  let '(ok, l1) := limiterTryAcquire (k_rewrite k) in
  if negb ok then (None, setRewrite l1 (k_memory k) k)
  else
    let '(lease, m1) := poolTryAcquire ruleID bytes ruleLimit "rewrite" (k_memory k) in
    match lease with
    | None => (None, setRewrite (limiterRelease l1) m1 k)
    | Some ref => (Some ref, setRewrite l1 m1 k)
    end.

Definition releaseRewrite (lease : option leaseRef) (k : controller) : controller :=
  setRewrite (limiterRelease (k_rewrite k)) (leaseRelease lease (k_memory k)) k.

Definition setHttp (l : reverseProxyAdjustableLimiter) (k : controller) : controller :=
  mkController (k_settings k) l (k_dns k) (k_rewrite k) (k_memory k).
Definition setDns (l : reverseProxyAdjustableLimiter) (k : controller) : controller :=
  mkController (k_settings k) (k_http k) l (k_rewrite k) (k_memory k).

Definition tryAcquireHTTP (k : controller) : bool * controller :=
  let '(ok, l) := limiterTryAcquire (k_http k) in (ok, setHttp l k).
Definition releaseHTTP (k : controller) : controller := setHttp (limiterRelease (k_http k)) k.
Definition tryAcquireDNS (k : controller) : bool * controller :=
  let '(ok, l) := limiterTryAcquire (k_dns k) in (ok, setDns l k).
Definition releaseDNS (k : controller) : controller := setDns (limiterRelease (k_dns k)) k.

Record runtimeUsageView : Type := mkUsage {
  ActiveHTTPRequests : Z;
  ActiveDNSQueries : Z;
  MemoryUsedBytes : Z;
  CacheUsedBytes : Z;
  RewriteUsedBytes : Z }.

Definition runtimeUsage (k : controller) : runtimeUsageView :=
  let '(u, c, r) := poolSnapshot (m_pool (k_memory k)) in
  mkUsage (limiterSnapshot (k_http k)).1 (limiterSnapshot (k_dns k)).1 u c r.

(** ** The optimistic update *)

Inductive saveError : Type :=
| SaveInvalid (e : settingsError)
| SaveDB                       (* a statement or the commit failed *)
| SaveNotReady                 (* "database is not ready" *)
| SaveConflict (current : Z)   (* errReverseProxyRevisionConflict *)
| SaveLost.                    (* the guarded update found no row *)

Section Store.
Context {S R : Type} `{!Table Z ReverseProxySettings S, !Table Z ruleLimits R}.

Definition db : Type := (S * R)%type.
Definition singletonID : Z := 1.
Definition bySingleton : Z -> ReverseProxySettings -> bool := fun id _ => id =? singletonID.

(** The two migration statements of a first start. *)
Definition migrateRules (r : R) : option saveError * R :=
  let '(e1, r1) := tUpdate (fun _ x => max_concurrent_requests x =? 0)
    (fun x => mkRuleLimits ReverseProxyLegacyMaxConcurrentRequests (dns_max_concurrent_queries x)) r in
  match e1 with
  | Err _ => (Some SaveDB, r1)
  | Ok _ =>
      let '(e2, r2) := tUpdate (fun _ x => dns_max_concurrent_queries x =? 0)
        (fun x => mkRuleLimits (max_concurrent_requests x) ReverseProxyLegacyDNSMaxConcurrentQueries) r1 in
      match e2 with Err _ => (Some SaveDB, r2) | Ok _ => (None, r2) end
  end.

Definition loadReverseProxySettingsTx (d : db) : res saveError ReverseProxySettings * db :=
  let '(s, r) := d in
  let '(found, s1) := tFind singletonID s in
  match found with
  | Err _ => (Err SaveDB, (s1, r))
  | Ok None =>
      let '(e, s2) := tCreate singletonID DefaultReverseProxySettings s1 in
      match e with
      | Some _ => (Err SaveDB, (s2, r))
      | None =>
          let '(e', r') := migrateRules r in
          match e' with
          | Some x => (Err x, (s2, r'))
          | None => (Ok DefaultReverseProxySettings, (s2, r'))
          end
      end
  | Ok (Some settings) =>
      let normalized := normalizeReverseProxySettingsModel settings in
      if decide (normalized <> settings) then
        let '(e, s2) := tUpdate bySingleton (fun _ => normalized) s1 in
        match e with
        | Err _ => (Err SaveDB, (s2, r))
        | Ok _ => (Ok normalized, (s2, r))
        end
      else (Ok settings, (s1, r))
  end.

Definition reverseProxyExpectedRevision (expected : option Z) (d : db)
  : res saveError ReverseProxySettings * db :=
  let '(out, d1) := loadReverseProxySettingsTx d in
  match out with
  | Err e => (Err e, d1)
  | Ok settings =>
      match expected with
      | Some x => if negb (x =? Revision settings) then (Err (SaveConflict (Revision settings)), d1)
                  else (Ok settings, d1)
      | None => (Ok settings, d1)
      end
  end.

(** Revisions are [uint64]. *)
Definition reverseProxyBumpRevisionTx (settings : ReverseProxySettings) (d : db)
  : res saveError ReverseProxySettings * db :=
  let next := (Revision settings + 1) mod 2 ^ 64 in
  let '(s, r) := d in
  let '(out, s1) := tUpdate (fun id row => (id =? singletonID) && (Revision row =? Revision settings))
                      (fun row => mkSettingsRow next (policy row)) s in
  match out with
  | Err _ => (Err SaveDB, (s1, r))
  | Ok n => if n =? 1 then (Ok (mkSettingsRow next (policy settings)), (s1, r))
            else (Err SaveLost, (s1, r))
  end.

(** The body of the transaction of [SaveResourceSettings]. *)
Definition saveTx (expected : option Z) (payload : ReverseProxyResourceSettings) (d : db)
  : res saveError unit * db :=
  let '(out, d1) := reverseProxyExpectedRevision expected d in
  match out with
  | Err e => (Err e, d1)
  | Ok settings =>
      let settings := mkSettingsRow (Revision settings) payload in
      let '(out2, d2) := reverseProxyBumpRevisionTx settings d1 in
      match out2 with
      | Err e => (Err e, d2)
      | Ok bumped =>
          let '(s, r) := d2 in
          let '(out3, s3) := tUpdate bySingleton (fun _ => bumped) s in
          match out3 with Err _ => (Err SaveDB, (s3, r)) | Ok _ => (Ok tt, (s3, r)) end
      end
  end.

(** [database.GetDB()] may be nil.  The runtime reconciliation that follows
    a committed save does not change its result. *)
Definition SaveResourceSettings (expected : option Z) (payload : ReverseProxyResourceSettings)
    (commitOk : bool) (d : option db) (k : controller)
  : option saveError * option db * controller :=
  match validateReverseProxyResourceSettings payload with
  | Some e => (Some (SaveInvalid e), d, k)
  | None =>
      match d with
      | None => (Some SaveNotReady, d, k)
      | Some d0 =>
          match transaction commitOk SaveDB (saveTx expected payload) d0 with
          | (Err e, d1) => (Some e, Some d1, k)
          | (Ok _, d1) => (None, Some d1, controllerApply payload k)
          end
      end
  end.

(** [loadReverseProxySettings]: load in a transaction, apply to the runtime. *)
Definition loadReverseProxySettings (commitOk : bool) (d : option db) (k : controller)
  : res saveError ReverseProxySettings * option db * controller :=
  match d with
  | None => (Err SaveNotReady, d, k)
  | Some d0 =>
      match transaction commitOk SaveDB loadReverseProxySettingsTx d0 with
      | (Err e, d1) => (Err e, Some d1, k)
      | (Ok row, d1) => (Ok row, Some d1, controllerApply (reverseProxySettingsView (Some row)) k)
      end
  end.

Definition peekReverseProxyRevision (d : option db) : res saveError Z * option db :=
  match d with
  | None => (Err SaveNotReady, d)
  | Some (s, r) =>
      let '(found, s1) := tFind singletonID s in
      (match found with
       | Err _ => Err SaveDB
       | Ok None => Ok 0
       | Ok (Some row) => Ok (Revision row)
       end, Some (s1, r))
  end.
End Store.

Section StoreFacts.
Context {S R : Type} `{!Table Z ReverseProxySettings S, !Table Z ruleLimits R}.
Context `{!TableLaws Z ReverseProxySettings S}.
Implicit Types (d : db (S := S) (R := R)).

Definition storedRow d : option ReverseProxySettings := rows d.1 !! singletonID.

(** The policy a reader sees: the stored row, repaired, or the defaults. *)
Definition currentRow d : ReverseProxySettings :=
  match storedRow d with
  | Some row => normalizeReverseProxySettingsModel row
  | None => DefaultReverseProxySettings
  end.

Lemma update_singleton (s s' : S) row row' n :
  tUpdate bySingleton (fun _ => row') s = (Ok n, s') ->
  rows s !! singletonID = Some row -> rows s' !! singletonID = Some row'.
Proof.
  intros Hu Hrow. pose proof (update_ok bySingleton (fun _ => row') s n) as Hok.
  rewrite Hu in Hok. destruct (Hok eq_refl) as [Hr _]. simpl in Hr.
  by rewrite Hr, lookup_updateRows, Hrow.
Qed.

Lemma load_tx_spec d row d1 :
  loadReverseProxySettingsTx d = (Ok row, d1) -> row = currentRow d /\ storedRow d1 = Some row.
Proof.
  destruct d as [s r]. unfold loadReverseProxySettingsTx, currentRow, storedRow. simpl.
  pose proof (find_rows singletonID s) as Hfr. pose proof (find_ok singletonID s) as Hfo.
  destruct (tFind singletonID s) as [[[settings|]|e] s1]; simpl in Hfr, Hfo; [| |done].
  - rewrite <- (Hfo _ eq_refl). case_decide as Hd.
    + destruct (tUpdate bySingleton _ s1) as [[n|e] s2] eqn:Hu; [|done].
      intros [= <- <-]. split; [done|]. simpl. eapply update_singleton; [exact Hu|].
      by rewrite Hfr, <- (Hfo _ eq_refl).
    + intros [= <- <-]. split; [done|simpl].
      by rewrite Hfr, <- (Hfo _ eq_refl).
  - rewrite <- (Hfo _ eq_refl).
    pose proof (create_ok singletonID DefaultReverseProxySettings s1) as Hco.
    destruct (tCreate singletonID _ s1) as [[e|] s2]; [done|]. simpl in Hco.
    destruct (migrateRules r) as [[x|] r']; [done|]. intros [= <- <-]. split; [done|].
    simpl. destruct (Hco eq_refl) as [_ Hr]. rewrite Hr. apply lookup_insert_eq.
Qed.

Lemma bump_spec settings d b d1 :
  reverseProxyBumpRevisionTx settings d = (Ok b, d1) ->
  b = mkSettingsRow ((Revision settings + 1) mod 2 ^ 64) (policy settings) /\
  exists row, storedRow d = Some row /\ Revision row = Revision settings /\
              storedRow d1 = Some (mkSettingsRow (Revision b) (policy row)).
Proof.
  destruct d as [s r]. unfold reverseProxyBumpRevisionTx, storedRow. simpl.
  set (p := fun id row => _). set (f := fun row => _).
  pose proof (update_ok p f s) as Hok. destruct (tUpdate p f s) as [[n|e] s1]; [|done].
  destruct (Z.eqb_spec n 1) as [->|]; [|done]. intros [= <- <-]. split; [done|].
  destruct (Hok 1 eq_refl) as [Hr Hn]. simpl in Hr. specialize (Hn ltac:(done)).
  unfold countRows in Hn. rewrite Z2Nat_size_nonzero, map_filter_nonempty in Hn.
  destruct Hn as (id & row & Hid & Hp). cbn in Hp.
  apply andb_true_iff in Hp as [->%Z.eqb_eq Hrev%Z.eqb_eq].
  exists row. split; [done|]. split; [done|]. simpl.
  rewrite Hr, lookup_updateRows, Hid. simpl. unfold p. by rewrite Hrev, !Z.eqb_refl.
Qed.

Lemma saveTx_spec expected payload d d1 :
  saveTx expected payload d = (Ok tt, d1) ->
  (forall x, expected = Some x -> x = Revision (currentRow d)) /\
  storedRow d1 = Some (mkSettingsRow ((Revision (currentRow d) + 1) mod 2 ^ 64) payload).
Proof.
  unfold saveTx, reverseProxyExpectedRevision.
  destruct (loadReverseProxySettingsTx d) as [[settings|e] d2] eqn:Hl; [|done].
  apply load_tx_spec in Hl as [-> Hrow].
  assert (Hmain : (let '(out2, d3) := reverseProxyBumpRevisionTx
        (mkSettingsRow (Revision (currentRow d)) payload) d2 in
      match out2 with
      | Err e => (Err e, d3)
      | Ok bumped =>
          let '(s, r) := d3 in
          let '(out3, s3) := tUpdate bySingleton (fun _ => bumped) s in
          match out3 with Err _ => (Err SaveDB, (s3, r)) | Ok _ => (Ok tt, (s3, r)) end
      end) = (Ok tt, d1) ->
    storedRow d1 = Some (mkSettingsRow ((Revision (currentRow d) + 1) mod 2 ^ 64) payload)).
  { destruct (reverseProxyBumpRevisionTx _ d2) as [[b|e] [s r]] eqn:Hb; [|done].
    apply bump_spec in Hb as (-> & row & _ & _ & Hst).
    destruct (tUpdate bySingleton _ s) as [[n|e] s3] eqn:Hu; [|done]. intros [= <-].
    by eapply update_singleton. }
  destruct expected as [x|]; [|by split; [|apply Hmain]].
  destruct (Z.eqb_spec x (Revision (currentRow d))) as [->|]; [|done]. simpl. intros H.
  split; [intros x Hx; by simplify_eq|by apply Hmain].
Qed.

(** saving the resource policy is optimistic and atomic: it succeeds
    only with a valid policy and, when a revision is expected, only if that
    is the revision a reader sees; then the stored row is exactly the new
    policy under the next revision, and the runtime has that policy.  In
    every other case the tables and the runtime are untouched. *)
Theorem save_resource_settings_cas expected payload commitOk d k :
  let '(e, d', k') := SaveResourceSettings expected payload commitOk (Some d) k in
  match e with
  | None =>
      validateReverseProxyResourceSettings payload = None /\
      (forall x, expected = Some x -> x = Revision (currentRow d)) /\
      (storedRow <$> d') = Some (Some (mkSettingsRow ((Revision (currentRow d) + 1) mod 2 ^ 64) payload)) /\
      k_settings k' = payload
  | Some _ => d' = Some d /\ k' = k
  end.
Proof.
  unfold SaveResourceSettings. destruct (validateReverseProxyResourceSettings payload); [done|].
  unfold transaction. destruct (saveTx expected payload d) as [[[]|e] d1] eqn:Hs; [|done].
  destruct commitOk; [|done]. apply saveTx_spec in Hs as [Ha Hb].
  split; [done|]. split; [done|]. split; [simpl; by rewrite Hb|done].
Qed.

(** two edits that started from the same revision cannot both be saved:
    after the first succeeds the second is refused, so no edit is silently
    overwritten (until the 64-bit revision wraps around). *)
Theorem save_resource_settings_no_lost_update x p1 p2 c1 c2 d d1 k k1 :
  0 <= x < 2 ^ 64 - 1 ->
  SaveResourceSettings (Some x) p1 c1 (Some d) k = (None, Some d1, k1) ->
  (SaveResourceSettings (Some x) p2 c2 (Some d1) k1).1.1 <> None.
Proof.
  intros Hx Hfirst Hsecond.
  assert (storedRow d1 = Some (mkSettingsRow (x + 1) p1)) as Hst.
  { unfold SaveResourceSettings in Hfirst.
    destruct (validateReverseProxyResourceSettings p1); [done|]. unfold transaction in Hfirst.
    destruct (saveTx (Some x) p1 d) as [[[]|e] d2] eqn:Hs; [|done].
    apply saveTx_spec in Hs as [Hrev Hrow]. destruct c1; [|done]. injection Hfirst as <- _.
    rewrite Hrow, <- (Hrev x eq_refl). by rewrite Z.mod_small by lia. }
  unfold SaveResourceSettings in Hsecond.
  destruct (validateReverseProxyResourceSettings p2); [done|]. unfold transaction in Hsecond.
  destruct (saveTx (Some x) p2 d1) as [[[]|e] d2] eqn:Hs; [|done].
  apply saveTx_spec in Hs as [Hrev _]. specialize (Hrev x eq_refl). unfold currentRow in Hrev.
  rewrite Hst in Hrev. simpl in Hrev. destruct (Z.eqb_spec (x + 1) 0); lia.
Qed.
End StoreFacts.

(** ** A validated policy works *)

Lemma validated_bounds v :
  validateReverseProxyResourceSettings v = None ->
  let input := ResponseRewriteInputBytes v in
  let output := ResponseRewriteOutputBytes v in
  reverseProxyMinimumRewriteReservationBytes <= input /\
  reverseProxyMinimumRewriteReservationBytes <= output /\
  reverseProxyRewriteReservationBytes input output = input + output * 2 /\
  input + output * 2 <= DefaultRuleMemoryLimitBytes v <= MemoryPoolBytes v /\
  MemoryPoolBytes v <= reverseProxyMaximumMemoryPoolBytes /\
  1 <= ResponseRewriteMaxConcurrent v <= reverseProxyMaximumConfiguredLimit /\
  0 <= GlobalHTTPMaxConcurrent v /\ 0 <= GlobalDNSMaxConcurrent v.
Proof.
  unfold validateReverseProxyResourceSettings, outside, reverseProxyRewriteReservationBytes,
    reverseProxyMinimumRewriteReservationBytes, reverseProxyMaximumMemoryPoolBytes,
    reverseProxyMaximumConfiguredLimit. cbv zeta.
  set (i := ResponseRewriteInputBytes v). set (o := ResponseRewriteOutputBytes v).
  set (l := DefaultRuleMemoryLimitBytes v). set (p := MemoryPoolBytes v).
  repeat (match goal with |- context [if ?b then Some _ else _] => destruct b eqn:?; [done|] end).
  intros _. repeat match goal with H : (_ || _) = false |- _ => apply orb_false_iff in H as [??] end.
  repeat match goal with H : (_ <? _) = false |- _ => apply Z.ltb_ge in H end.
  assert (wrap64 (o * 2) = o * 2) as Ho2 by (apply wrap64_id; in_range).
  rewrite Ho2 in *. assert (i +! (o * 2) = i + o * 2) as Hio by (apply wrap64_id; in_range).
  rewrite Hio in *. destruct (Z.ltb_spec i 0); [lia|]. destruct (Z.ltb_spec o 0); [lia|].
  simpl in *. lia.
Qed.

Lemma limiter_acquire_release l :
  0 <= active l < max_i64 -> (limiterTryAcquire l).1 = true ->
  limiterRelease (limiterTryAcquire l).2 = l.
Proof.
  unfold limiterTryAcquire, limiterRelease, max_i64. intros Ha.
  destruct (_ && _); [done|]. intros _. simpl. i64.
  destruct (Z.ltb_spec 0 (active l + 1)); [|lia]. simpl. i64.
  destruct l. simpl. f_equal. lia.
Qed.

Lemma limiter_refused l : (limiterTryAcquire l).1 = false -> (limiterTryAcquire l).2 = l.
Proof. unfold limiterTryAcquire. by destruct (_ && _). Qed.

Lemma setRewrite_id k : setRewrite (k_rewrite k) (k_memory k) k = k.
Proof. by destruct k. Qed.

(** acquiring a rewrite takes both a permit of the limiter and a lease of
    the pool, or neither: when it is refused the controller is exactly what
    it was, and when it succeeds releasing it restores the limiter and every
    counter of the pool. *)
Theorem rewrite_permit_and_lease ruleID ruleLimit bytes k :
  poolRun (k_memory k) -> 0 <= active (k_rewrite k) < max_i64 -> 0 < bytes <= maxReservation ->
  let '(lease, k') := tryAcquireRewrite ruleID ruleLimit bytes k in
  match lease with
  | None => k' = k
  | Some ref =>
      let k2 := releaseRewrite (Some ref) k' in
      k_rewrite k2 = k_rewrite k /\ m_pool (k_memory k2) = m_pool (k_memory k) /\
      k_http k2 = k_http k /\ k_dns k2 = k_dns k /\ k_settings k2 = k_settings k
  end.
Proof.
  intros Hi%poolRun_Inv Hact Hb. unfold tryAcquireRewrite.
  pose proof (limiter_acquire_release (k_rewrite k) Hact) as Hlr.
  pose proof (limiter_refused (k_rewrite k)) as Hlf.
  destruct (limiterTryAcquire (k_rewrite k)) as [[] l1]; simpl in *.
  2:{ rewrite (Hlf eq_refl). apply setRewrite_id. }
  pose proof (acquire_spec (k_memory k) ruleID bytes ruleLimit "rewrite" Hi Hb) as Ha.
  destruct (poolTryAcquire ruleID bytes ruleLimit "rewrite" (k_memory k)) as [o m1].
  destruct Ha as [_ [(-> & -> & _)|(-> & Hfit & Hp & Hl)]].
  - rewrite (Hlr eq_refl). apply setRewrite_id.
  - split; [by apply Hlr|]. split; [|done]. simpl. rewrite Hl, lookup_insert_eq. simpl.
    destruct (Z.leb_spec bytes 0); [lia|]. simpl. rewrite Hp.
    destruct Hfit as [Hfit _]. pose proof (pi_capacity _ Hi).
    apply unreserve_reserve; (done || lia).
Qed.

(** a policy that passes validation cannot make rewriting fail on an idle
    proxy: a controller started with it admits a rewrite of the configured
    peak size for every rule under the default rule limit. *)
Theorem validated_policy_admits_rewrite v ruleID :
  validateReverseProxyResourceSettings v = None ->
  (tryAcquireRewrite ruleID (DefaultRuleMemoryLimitBytes v)
     (reverseProxyRewriteReservationBytes (ResponseRewriteInputBytes v) (ResponseRewriteOutputBytes v))
     (newReverseProxyResourceController v)).1 <> None.
Proof.
  intros Hv. destruct (validated_bounds v Hv) as (Hi & Ho & -> & Hlim & Hpool & Hconc & _).
  unfold reverseProxyMinimumRewriteReservationBytes, reverseProxyMaximumMemoryPoolBytes,
    reverseProxyMaximumConfiguredLimit in *.
  set (k := newReverseProxyResourceController v).
  set (b := ResponseRewriteInputBytes v + ResponseRewriteOutputBytes v * 2) in *.
  assert (PoolInv (k_memory k)) as Hinv.
  { apply poolRun_Inv. unfold k, newReverseProxyResourceController, controllerApply. cbn [k_memory m_pool].
    apply (pool_configure _ (mkMemory _ ∅ 0)); [apply pool_new|]; unfold maxReservation; lia. }
  assert (capacity (m_pool (k_memory k)) = MemoryPoolBytes v) as Hcap.
  { simpl. unfold reverseProxyMinimumRewriteReservationBytes. zcase; [lia|done]. }
  unfold tryAcquireRewrite. assert ((limiterTryAcquire (k_rewrite k)).1 = true) as Hperm.
  { unfold limiterTryAcquire, k. simpl. zcases; try done; lia. }
  destruct (limiterTryAcquire (k_rewrite k)) as [ok l1]. simpl in Hperm. subst ok. cbn [negb].
  pose proof (acquire_spec (k_memory k) ruleID b (DefaultRuleMemoryLimitBytes v) "rewrite" Hinv
    ltac:(unfold maxReservation; lia)) as Ha.
  destruct (poolTryAcquire ruleID b (DefaultRuleMemoryLimitBytes v) "rewrite" (k_memory k)) as [o m1].
  destruct Ha as [_ [(_ & _ & Hno)|(-> & _)]]; [|done]. exfalso. apply Hno.
  unfold fits, ruleShare, ruleUsedOf. rewrite Hcap. simpl. rewrite lookup_empty. simpl.
  zcase; lia.
Qed.

(** ** Witnesses *)

Definition demoPolicy : ReverseProxyResourceSettings := policy DefaultReverseProxySettings.

Definition demoDB : memTable Z ReverseProxySettings * memTable Z ruleLimits :=
  (mkMem {[1 := mkSettingsRow 7 demoPolicy]} [], mkMem ∅ []).

Definition demoController : controller := newReverseProxyResourceController demoPolicy.

Lemma demoController_run : poolRun (k_memory demoController).
Proof.
  apply (pool_configure (MemoryPoolBytes demoPolicy)
    (mkMemory (newReverseProxyMemoryPool (MemoryPoolBytes demoPolicy)) ∅ 0)); [apply pool_new|];
    vm_compute; [split; [reflexivity|discriminate]|discriminate].
Qed.

Lemma save_resource_settings_cas_witness :
  (SaveResourceSettings (Some 7) demoPolicy true (Some demoDB) demoController).1.1 = None /\
  let '(e, d', k') := SaveResourceSettings (Some 7) demoPolicy true (Some demoDB) demoController in
  match e with
  | None => (storedRow <$> d') = Some (Some (mkSettingsRow 8 demoPolicy)) /\ k_settings k' = demoPolicy
  | Some _ => d' = Some demoDB /\ k' = demoController
  end.
Proof.
  split; [vm_compute; reflexivity|].
  pose proof (save_resource_settings_cas (Some 7) demoPolicy true demoDB demoController) as H.
  destruct H as (_ & _ & H1 & H2). split; [exact H1|exact H2].
Defined.

Lemma save_resource_settings_no_lost_update_witness :
  (SaveResourceSettings (Some 7) demoPolicy true
     (Some (mkMem {[1 := mkSettingsRow 8 demoPolicy]} [], mkMem ∅ [] : memTable Z ruleLimits))
     demoController).1.1 <> None.
Proof.
  apply (save_resource_settings_no_lost_update 7 demoPolicy demoPolicy true true demoDB
    (mkMem {[1 := mkSettingsRow 8 demoPolicy]} [], mkMem ∅ []) demoController).
  - lia.
  - vm_compute. reflexivity.
Defined.

Lemma rewrite_permit_and_lease_witness :
  let '(lease, k') := tryAcquireRewrite 4 1000000 600000 demoController in
  lease <> None /\
  m_pool (k_memory (releaseRewrite lease k')) = m_pool (k_memory demoController).
Proof.
  pose proof (rewrite_permit_and_lease 4 1000000 600000 demoController demoController_run
    ltac:(vm_compute; split; [discriminate|reflexivity]) ltac:(unfold maxReservation; lia)) as H.
  destruct (tryAcquireRewrite 4 1000000 600000 demoController) as [lease k'] eqn:E.
  destruct lease as [ref|]; [|vm_compute in E; discriminate].
  split; [discriminate|]. apply H.
Defined.

Lemma validated_policy_admits_rewrite_witness :
  (tryAcquireRewrite 4 (DefaultRuleMemoryLimitBytes demoPolicy)
     (reverseProxyRewriteReservationBytes (ResponseRewriteInputBytes demoPolicy)
        (ResponseRewriteOutputBytes demoPolicy))
     (newReverseProxyResourceController demoPolicy)).1 <> None.
Proof. apply (validated_policy_admits_rewrite demoPolicy 4). vm_compute. reflexivity. Defined.
