(* ===== verification/Calendar.v ===== *)
(** * Calendar arithmetic and client access policy
      ([service/client_access_policy.go], the period functions of
      [service/traffic_overview.go])

    Dates follow Go's [time] package: the proleptic Gregorian calendar,
    [time.Date] with its normalisation of months and days.  An instant is its
    Unix time in seconds; since every boundary the code compares with is a
    whole second, [now.Before(b)] on instants is [<] on seconds.  A location
    is an interface: the local day an instant falls on and the instant a
    local day begins. *)

From S2P Require Import Prelude GoStrings.
From stdpp Require Import base list strings.
From Stdlib Require Import Ascii ZArith Lia.

#[local] Open Scope Z_scope.

Ltac divs := Z.to_euclidean_division_equations; lia.

(** ** Days and months

    A day is counted from 0001-01-01, a month [k] is month [k mod 12 + 1] of
    year [k / 12]. *)

Definition leap (y : Z) : bool :=
  (y mod 4 =? 0) && (negb (y mod 100 =? 0) || (y mod 400 =? 0)).

Definition yearStart (y : Z) : Z :=
  let p := y - 1 in 365 * p + p / 4 - p / 100 + p / 400.

(** Days before month [m] (1..12) of a common year. *)
Definition daysBefore (m : Z) : Z :=
  if m =? 1 then 0 else if m =? 2 then 31 else if m =? 3 then 59 else if m =? 4 then 90
  else if m =? 5 then 120 else if m =? 6 then 151 else if m =? 7 then 181 else if m =? 8 then 212
  else if m =? 9 then 243 else if m =? 10 then 273 else if m =? 11 then 304 else 334.

Definition leapShift (y m : Z) : Z := if leap y && (2 <? m) then 1 else 0.

(** The first day of month [k]. *)
Definition monthStart (k : Z) : Z :=
  let y := k / 12 in
  let m := k mod 12 + 1 in
  yearStart y + daysBefore m + leapShift y m.

Definition monthLength (k : Z) : Z := monthStart (k + 1) - monthStart k.

(** [time.Date(year, month, day, 0, 0, 0, 0, loc)], as a local day. *)
Definition dateDay (year month day : Z) : Z := monthStart (12 * year + (month - 1)) + (day - 1).

(** The year a day falls in: an estimate, corrected by at most one. *)
Definition yearOf (d : Z) : Z :=
  let e := (400 * d) / 146097 + 1 in
  if d <? yearStart e then e - 1 else if yearStart (e + 1) <=? d then e + 1 else e.

(** The month of the year, given the day of the year. *)
Definition monthOfYearDay (y yd : Z) : Z :=
  let s (m : Z) := daysBefore m + leapShift y m in
  if yd <? s 2 then 1 else if yd <? s 3 then 2 else if yd <? s 4 then 3 else if yd <? s 5 then 4
  else if yd <? s 6 then 5 else if yd <? s 7 then 6 else if yd <? s 8 then 7 else if yd <? s 9 then 8
  else if yd <? s 10 then 9 else if yd <? s 11 then 10 else if yd <? s 12 then 11 else 12.

(** [t.Year()], [t.Month()] and [t.Day()] of a local day. *)
Definition year_of_day (d : Z) : Z := yearOf d.
Definition month_of_day (d : Z) : Z := monthOfYearDay (yearOf d) (d - yearStart (yearOf d)).
Definition monthIndexOf (d : Z) : Z := 12 * year_of_day d + (month_of_day d - 1).
Definition day_of_month (d : Z) : Z := d - monthStart (monthIndexOf d) + 1.

Lemma leap_step y : yearStart (y + 1) - yearStart y = if leap y then 366 else 365.
Proof.
  unfold yearStart, leap.
  destruct (Z.eqb_spec (y mod 4) 0), (Z.eqb_spec (y mod 100) 0), (Z.eqb_spec (y mod 400) 0);
    simpl; divs.
Qed.

Lemma yearOf_spec d : yearStart (yearOf d) <= d < yearStart (yearOf d + 1).
Proof.
  unfold yearOf. set (e := 400 * d / 146097 + 1).
  assert (He : 146097 * (e - 1) <= 400 * d < 146097 * (e - 1) + 146097) by (unfold e; divs).
  clearbody e. destruct (Z.ltb_spec d (yearStart e)) as [H1|H1].
  - replace (e - 1 + 1) with e by lia. split; [|done]. unfold yearStart in *. divs.
  - destruct (Z.leb_spec (yearStart (e + 1)) d) as [H2|H2]; [|done]. split; [done|].
    unfold yearStart in *. divs.
Qed.

Ltac month_cases m :=
  assert (m = 1 \/ m = 2 \/ m = 3 \/ m = 4 \/ m = 5 \/ m = 6 \/ m = 7 \/ m = 8 \/ m = 9 \/ m = 10 \/
          m = 11 \/ m = 12) as [->|[->|[->|[->|[->|[->|[->|[->|[->|[->|[->| ->]]]]]]]]]]] by lia.

Lemma month_split k : exists y m, k = 12 * y + (m - 1) /\ 1 <= m <= 12 /\ k / 12 = y /\ k mod 12 + 1 = m.
Proof. exists (k / 12), (k mod 12 + 1). divs. Qed.

Lemma month_join y m : 1 <= m <= 12 -> (12 * y + (m - 1)) / 12 = y /\ (12 * y + (m - 1)) mod 12 + 1 = m.
Proof. intros. divs. Qed.

(** Month lengths. *)
Lemma monthLength_spec y m :
  1 <= m <= 12 ->
  monthLength (12 * y + (m - 1)) =
  if m =? 2 then (if leap y then 29 else 28)
  else if (m =? 4) || (m =? 6) || (m =? 9) || (m =? 11) then 30 else 31.
Proof.
  intros Hm. unfold monthLength, monthStart.
  destruct (month_join y m Hm) as [-> ->].
  assert (Hnext : (12 * y + (m - 1) + 1) / 12 = (if m =? 12 then y + 1 else y) /\
                  (12 * y + (m - 1) + 1) mod 12 + 1 = (if m =? 12 then 1 else m + 1))
    by (destruct (Z.eqb_spec m 12); divs).
  destruct Hnext as [-> ->]. pose proof (leap_step y) as Hy. unfold leapShift.
  revert Hy. generalize yearStart leap. intros ys lp Hy.
  month_cases m;
    repeat match goal with |- context [Zpos ?a + 1] =>
      let c := eval compute in (Zpos a + 1) in change (Zpos a + 1) with c end;
    cbn in *; rewrite ?andb_false_r; destruct (lp y); cbn in *; lia.
Qed.

Lemma monthLength_bounds k : 28 <= monthLength k <= 31.
Proof.
  destruct (month_split k) as (y & m & -> & Hm & _). rewrite monthLength_spec by done.
  repeat case_match; lia.
Qed.

Lemma monthStart_step k : monthStart (k + 1) = monthStart k + monthLength k.
Proof. unfold monthLength. lia. Qed.

Lemma monthStart_mono k n : 0 <= n -> monthStart k + 28 * n <= monthStart (k + n).
Proof.
  intros Hn. revert k. pattern n. apply natlike_ind; [intros; replace (k + 0) with k by lia; lia| |done].
  intros x Hx IH k. specialize (IH k). replace (k + Z.succ x) with (k + x + 1) by lia.
  rewrite monthStart_step. pose proof (monthLength_bounds (k + x)). lia.
Qed.

Lemma monthIndexOf_spec d : monthStart (monthIndexOf d) <= d < monthStart (monthIndexOf d + 1).
Proof.
  unfold monthIndexOf, month_of_day, year_of_day. pose proof (yearOf_spec d) as Hy.
  pose proof (leap_step (yearOf d)) as Hl. set (y := yearOf d) in *. set (yd := d - yearStart y).
  assert (1 <= monthOfYearDay y yd <= 12) as Hm by (unfold monthOfYearDay; repeat case_match; lia).
  set (m := monthOfYearDay y yd) in *. rewrite monthStart_step, monthLength_spec by done.
  unfold monthStart. destruct (month_join y m Hm) as [-> ->].
  cut (daysBefore m + leapShift y m <= yd < daysBefore m + leapShift y m +
    (if m =? 2 then (if leap y then 29 else 28)
     else if (m =? 4) || (m =? 6) || (m =? 9) || (m =? 11) then 30 else 31)); [unfold yd; lia|].
  assert (0 <= yd < if leap y then 366 else 365) as Hyd by (unfold yd; lia).
  unfold m, monthOfYearDay, daysBefore, leapShift in *. clearbody yd. clear -Hyd.
  destruct (leap y); simpl in *;
    repeat (match goal with |- context [yd <? ?c] => destruct (Z.ltb_spec yd c) end; simpl; [lia|]); lia.
Qed.

Lemma monthIndexOf_unique d k : monthStart k <= d < monthStart (k + 1) -> monthIndexOf d = k.
Proof.
  intros Hk. pose proof (monthIndexOf_spec d) as Hd. set (j := monthIndexOf d) in *. clearbody j.
  destruct (Z.lt_trichotomy j k) as [Hlt|[|Hgt]]; [|done|].
  - pose proof (monthStart_mono (j + 1) (k - (j + 1)) ltac:(lia)) as Hm.
    replace (j + 1 + (k - (j + 1))) with k in Hm by lia. lia.
  - pose proof (monthStart_mono (k + 1) (j - (k + 1)) ltac:(lia)) as Hm.
    replace (k + 1 + (j - (k + 1))) with j in Hm by lia. lia.
Qed.

(** ** Locations *)

Class Location (L : Type) := {
  dayOf : L -> Z -> Z;       (* the local day an instant falls on *)
  midnight : L -> Z -> Z }.  (* the instant [time.Date] gives for 00:00 of a local day *)

Class LocationLaws (L : Type) `{Location L} : Prop := {
  midnight_day l t : midnight l (dayOf l t) <= t < midnight l (dayOf l t + 1);
  midnight_mono l d d' : d < d' -> midnight l d < midnight l d' }.

(** A fixed zone, [time.UTC] among them: the offset in seconds east of UTC. *)
Record fixedZone : Type := FixedZone { zoneOffset : Z }.
Definition UTC : fixedZone := FixedZone 0.
Definition epochDay : Z := 719162.  (* 1970-01-01 *)

#[global] Instance fixedZone_ops : Location fixedZone := {|
  dayOf l t := (t + zoneOffset l) / 86400 + epochDay;
  midnight l d := (d - epochDay) * 86400 - zoneOffset l |}.

#[global] Instance fixedZone_laws : LocationLaws fixedZone.
Proof. constructor; simpl; intros; divs. Qed.

(** ** The policy *)

Record clientAccessEvaluation : Type := mkEvaluation {
  Blocked : bool;
  Expired : bool;
  VolumeExceeded : bool }.

Definition normalizeClientVolume (volume : Z) : Z := if volume <? 0 then 0 else volume.
Definition normalizeClientExpiry (expiry : Z) : Z := if expiry <? 0 then 0 else expiry.
Definition normalizeClientResetDay (resetDay : Z) : Z :=
  if resetDay <? 0 then 0 else if 31 <? resetDay then 31 else resetDay.
Definition normalizeClientSpeedLimitMbps (limit : Z) : Z := if limit <=? 0 then 0 else limit.
Definition normalizeResetDay (value : Z) : Z :=
  if value <? 0 then 0 else if 31 <? value then 31 else value.

Definition evaluateClientAccess (enable : bool) (used volume expiry now : Z) : clientAccessEvaluation :=
  let used := if used <? 0 then 0 else used in
  let volume := normalizeClientVolume volume in
  let expiry := normalizeClientExpiry expiry in
  let volumeExceeded := (0 <? volume) && (volume <=? used) in
  let expired := (0 <? expiry) && (expiry <=? now) in
  mkEvaluation (enable && (expired || volumeExceeded)) expired volumeExceeded.

(** The last day of the month is day 0 of the next one. *)
Definition clampResetDayToMonthEnd (resetDay year month : Z) : Z :=
  if resetDay <=? 0 then 0
  else
    let lastDay := day_of_month (dateDay year (month + 1) 0) in
    if lastDay <? resetDay then lastDay else resetDay.

Section Periods.
Context {L : Type} `{!Location L}.
Implicit Types (loc : L) (now : Z).

(** [None] is the zero time. *)
Definition computeClientMonthlyResetBoundary (resetDay year month : Z) loc : option Z :=
  if resetDay <=? 0 then None
  else Some (midnight loc (dateDay year month (clampResetDayToMonthEnd resetDay year month))).

Definition before now (b : option Z) : bool := match b with Some t => now <? t | None => false end.

(** [time.Date(now.Year(), now.Month(), 1, ...).AddDate(0, months, 0)], as a local day. *)
Definition shiftMonth loc now (months : Z) : Z :=
  let d := dayOf loc (midnight loc (dateDay (year_of_day (dayOf loc now)) (month_of_day (dayOf loc now)) 1)) in
  dayOf loc (midnight loc (dateDay (year_of_day d) (month_of_day d + months) (day_of_month d))).

Definition latestClientMonthlyResetBoundary (resetDay : Z) loc now : option Z :=
  let resetDay := normalizeClientResetDay resetDay in
  if resetDay <=? 0 then None
  else
    let today := dayOf loc now in
    let currentBoundary :=
      computeClientMonthlyResetBoundary resetDay (year_of_day today) (month_of_day today) loc in
    if negb (before now currentBoundary) then currentBoundary
    else
      let previousMonth := shiftMonth loc now (-1) in
      computeClientMonthlyResetBoundary resetDay (year_of_day previousMonth) (month_of_day previousMonth) loc.

Definition nextClientMonthlyResetBoundary (resetDay : Z) loc now : option Z :=
  let resetDay := normalizeClientResetDay resetDay in
  if resetDay <=? 0 then None
  else
    let today := dayOf loc now in
    let currentBoundary :=
      computeClientMonthlyResetBoundary resetDay (year_of_day today) (month_of_day today) loc in
    if before now currentBoundary then currentBoundary
    else
      let firstOfNextMonth := shiftMonth loc now 1 in
      computeClientMonthlyResetBoundary resetDay (year_of_day firstOfNextMonth)
        (month_of_day firstOfNextMonth) loc.

Definition shouldResetClientTrafficMonthly (lastReset resetDay : Z) loc now : bool :=
  match latestClientMonthlyResetBoundary resetDay loc now with
  | None => false
  | Some boundary => (lastReset <? boundary) && negb (now <? boundary)
  end.

Definition computePeriodTag (resetDay : Z) loc now : string :=
  if resetDay <=? 0 then ""
  else match latestClientMonthlyResetBoundary resetDay loc now with
       | None => ""
       | Some boundary => "boundary:" +:+ itoa boundary
       end.
End Periods.

(** ** Expiry dates

    [time.Parse("2006-01-02", s)] accepts exactly four, two and two digits of
    a date that exists, and [Format] writes them back. *)

Definition twoDigits (a b : ascii) : option Z :=
  match digit_of a, digit_of b with
  | Some x, Some y => Some (10 * x + y)
  | _, _ => None
  end.

Definition parseDate (s : string) : option (Z * Z * Z) :=
  match s with
  | String y1 (String y2 (String y3 (String y4 (String "-" (String m1 (String m2 (String "-"
      (String d1 (String d2 EmptyString))))))))) =>
      match twoDigits y1 y2, twoDigits y3 y4, twoDigits m1 m2, twoDigits d1 d2 with
      | Some yh, Some yl, Some m, Some d =>
          let y := 100 * yh + yl in
          if (m <=? 0) || (12 <? m) then None
          else if (d <? 1) || (monthLength (12 * y + (m - 1)) <? d) then None
          else Some (y, m, d)
      | _, _, _, _ => None
      end
  | _ => None
  end.

Definition pad2 (n : Z) : string := String (digit_char (n / 10)) (String (digit_char (n mod 10)) "").

Definition formatDate (y m d : Z) : string :=
  pad2 (y / 100) +:+ pad2 (y mod 100) +:+ "-" +:+ pad2 m +:+ "-" +:+ pad2 d.

Inductive dateError : Type := InvalidExpiryDate.

Definition normalizeTrafficOverviewExpiryDate (value : string) : res dateError string :=
  let trimmed := trim_space value in
  if decide (trimmed = "") then Ok ""
  else match parseDate trimmed with
       | None => Err InvalidExpiryDate
       | Some (y, m, d) => Ok (formatDate y m d)
       end.

(** The normalised date and the instant it begins, [None] for no date. *)
Definition parseTrafficOverviewExpiryDate {L : Type} `{!Location L} (value : string) (loc : L)
  : res dateError (string * option Z) :=
  match normalizeTrafficOverviewExpiryDate value with
  | Err e => Err e
  | Ok normalized =>
      if decide (normalized = "") then Ok ("", None)
      else match parseDate normalized with
           | None => Err InvalidExpiryDate
           | Some (y, m, d) => Ok (normalized, Some (midnight loc (dateDay y m d)))
           end
  end.

Definition isTrafficOverviewExpired (boundary : option Z) (now : Z) : bool :=
  match boundary with
  | None => false
  | Some b => negb (now <? b)
  end.

(** ** Boundaries

    The reset boundary of month [k] for a day [r] of the month. *)

Lemma dateDay_zero y m : dateDay y (m + 1) 0 = monthStart (12 * y + (m - 1) + 1) - 1.
Proof. unfold dateDay. replace (12 * y + (m + 1 - 1)) with (12 * y + (m - 1) + 1) by lia. lia. Qed.

Lemma clampResetDay_spec r y m :
  0 < r -> clampResetDayToMonthEnd r y m = Z.min r (monthLength (12 * y + (m - 1))).
Proof.
  intros Hr. unfold clampResetDayToMonthEnd. destruct (Z.leb_spec r 0); [lia|].
  set (k := 12 * y + (m - 1)). rewrite dateDay_zero. fold k.
  assert (monthIndexOf (monthStart (k + 1) - 1) = k) as Hk.
  { apply monthIndexOf_unique. pose proof (monthLength_bounds k). unfold monthLength in *. lia. }
  unfold day_of_month. rewrite Hk. unfold monthLength.
  destruct (Z.ltb_spec (monthStart (k + 1) - 1 - monthStart k + 1) r); lia.
Qed.

Section PeriodFacts.
Context {L : Type} `{!Location L, !LocationLaws L}.
Implicit Types (loc : L) (now : Z).

Definition boundaryDay (r k : Z) : Z := monthStart k + Z.min r (monthLength k) - 1.
Definition boundaryOf (r : Z) loc (k : Z) : Z := midnight loc (boundaryDay r k).

Lemma compute_boundary r y m loc :
  0 < r -> computeClientMonthlyResetBoundary r y m loc = Some (boundaryOf r loc (12 * y + (m - 1))).
Proof.
  intros Hr. unfold computeClientMonthlyResetBoundary. destruct (Z.leb_spec r 0); [lia|].
  rewrite clampResetDay_spec by done. f_equal. unfold boundaryOf, boundaryDay, dateDay. f_equal. lia.
Qed.

Lemma midnight_le loc d d' : midnight loc d <= midnight loc d' <-> d <= d'.
Proof.
  split; intros Hle.
  - destruct (Z.le_gt_cases d d'); [done|]. pose proof (midnight_mono loc d' d ltac:(lia)). lia.
  - destruct (decide (d = d')) as [->|]; [lia|]. pose proof (midnight_mono loc d d' ltac:(lia)). lia.
Qed.

Lemma midnight_le_2 loc d d' : d <= d' -> midnight loc d <= midnight loc d'.
Proof. apply midnight_le. Qed.

Lemma dayOf_midnight loc d : dayOf loc (midnight loc d) = d.
Proof.
  pose proof (midnight_day loc (midnight loc d)) as [H1 H2].
  apply midnight_le in H1. destruct (Z.le_gt_cases d (dayOf loc (midnight loc d))); [lia|].
  assert (dayOf loc (midnight loc d) + 1 <= d) as Hx by lia. apply (midnight_le loc) in Hx. lia.
Qed.

(** An instant is before the midnight of [d] exactly when its day is. *)
Lemma before_midnight loc now d : now < midnight loc d <-> dayOf loc now < d.
Proof.
  pose proof (midnight_day loc now) as [H1 H2]. split; intros Hlt.
  - destruct (Z.lt_ge_cases (dayOf loc now) d) as [|Hge]; [done|].
    apply (midnight_le_2 loc) in Hge. lia.
  - assert (dayOf loc now + 1 <= d) as Hx by lia. apply (midnight_le_2 loc) in Hx. lia.
Qed.

Lemma boundaryDay_range r k : 0 < r -> monthStart k <= boundaryDay r k < monthStart (k + 1).
Proof. intros. unfold boundaryDay. pose proof (monthLength_bounds k). unfold monthLength in *. lia. Qed.

Lemma boundaryOf_mono r loc k k' : 0 < r -> k < k' -> boundaryOf r loc k < boundaryOf r loc k'.
Proof.
  intros Hr Hk. apply midnight_mono. pose proof (boundaryDay_range r k Hr).
  pose proof (boundaryDay_range r k' Hr). pose proof (monthStart_mono (k + 1) (k' - (k + 1)) ltac:(lia)) as Hm.
  replace (k + 1 + (k' - (k + 1))) with k' in Hm by lia. lia.
Qed.

Lemma shift_index loc now n : monthIndexOf (shiftMonth loc now n) = monthIndexOf (dayOf loc now) + n.
Proof.
  unfold shiftMonth. cbv zeta. set (t := dayOf loc now). rewrite !dayOf_midnight.
  assert (dateDay (year_of_day t) (month_of_day t) 1 = monthStart (monthIndexOf t)) as Hd
    by (unfold dateDay, monthIndexOf; lia).
  rewrite Hd. set (k := monthIndexOf t). pose proof (monthLength_bounds k) as Hb.
  assert (monthIndexOf (monthStart k) = k) as Hk
    by (apply monthIndexOf_unique; unfold monthLength in Hb; lia).
  unfold day_of_month. rewrite Hk.
  assert (dateDay (year_of_day (monthStart k)) (month_of_day (monthStart k) + n)
            (monthStart k - monthStart k + 1) = monthStart (k + n)) as ->.
  { unfold dateDay. pose proof Hk as Hk'. unfold monthIndexOf in Hk'.
    replace (12 * _ + (_ + n - 1)) with (k + n) by lia. lia. }
  apply monthIndexOf_unique. pose proof (monthLength_bounds (k + n)). unfold monthLength in *. lia.
Qed.

(** Both boundaries, as the boundaries of two consecutive months. *)
Lemma boundaries_spec resetDay loc now :
  0 < resetDay ->
  let r := normalizeClientResetDay resetDay in
  exists k, latestClientMonthlyResetBoundary resetDay loc now = Some (boundaryOf r loc k) /\
            nextClientMonthlyResetBoundary resetDay loc now = Some (boundaryOf r loc (k + 1)) /\
            boundaryOf r loc k <= now < boundaryOf r loc (k + 1).
Proof.
  intros Hpos. cbv zeta. unfold latestClientMonthlyResetBoundary, nextClientMonthlyResetBoundary.
  set (r := normalizeClientResetDay resetDay).
  assert (0 < r) as Hr by (unfold r, normalizeClientResetDay; zcases; lia).
  destruct (Z.leb_spec r 0); [lia|]. rewrite !compute_boundary by done.
  pose proof (shift_index loc now (-1)) as Hprev. pose proof (shift_index loc now 1) as Hnext.
  unfold monthIndexOf in Hprev, Hnext. rewrite Hprev, Hnext. clear Hprev Hnext.
  pose proof (monthIndexOf_spec (dayOf loc now)) as Hm. fold (monthIndexOf (dayOf loc now)) in *.
  set (k := monthIndexOf (dayOf loc now)) in *. simpl.
  destruct (Z.ltb_spec now (boundaryOf r loc k)) as [Hlt|Hge]; simpl.
  - exists (k - 1). replace (k - 1 + 1) with k by lia. replace (k + -1) with (k - 1) by lia.
    split; [done|]. split; [done|]. split; [|done].
    destruct (Z.le_gt_cases (boundaryOf r loc (k - 1)) now); [done|]. exfalso.
    assert (dayOf loc now < boundaryDay r (k - 1)) by (by apply before_midnight).
    pose proof (boundaryDay_range r (k - 1) Hr). replace (k - 1 + 1) with k in * by lia. lia.
  - exists k. split; [done|]. split; [done|]. split; [done|].
    apply before_midnight. pose proof (boundaryDay_range r (k + 1) Hr). lia.
Qed.
End PeriodFacts.

(** ** The contract *)

(** dates and days correspond one to one: the year, month and day of the
    day [time.Date] gives for an existing date are that date, and the date of
    every day gives back that day. *)
Theorem civil_date_roundtrip :
  (forall y m d, 1 <= m <= 12 -> 1 <= d <= monthLength (12 * y + (m - 1)) ->
     let t := dateDay y m d in year_of_day t = y /\ month_of_day t = m /\ day_of_month t = d) /\
  (forall t, dateDay (year_of_day t) (month_of_day t) (day_of_month t) = t /\
             1 <= month_of_day t <= 12 /\ 1 <= day_of_month t <= monthLength (monthIndexOf t)).
Proof.
  split.
  - intros y m d Hm Hd. cbv zeta. set (k := 12 * y + (m - 1)) in *. set (t := dateDay y m d).
    assert (monthIndexOf t = k) as Hk.
    { apply monthIndexOf_unique. unfold t, dateDay, monthLength in *. fold k. lia. }
    pose proof Hk as Hk'. unfold monthIndexOf, k in Hk'.
    assert (1 <= month_of_day t <= 12) as Hmt
      by (unfold month_of_day, monthOfYearDay; repeat case_match; lia).
    unfold day_of_month. rewrite Hk. split; [lia|]. split; [lia|]. unfold t, dateDay. fold k. lia.
  - intros t. pose proof (monthIndexOf_spec t) as Ht. unfold day_of_month, dateDay.
    fold (monthIndexOf t). split; [lia|]. split; [|unfold monthLength; lia].
    unfold month_of_day, monthOfYearDay. repeat case_match; lia.
Qed.

Section Contract.
Context {L : Type} `{!Location L, !LocationLaws L}.
Implicit Types (loc : L) (now : Z).

(** for a monthly reset day the latest boundary is not after now, the
    next one is after now, and they are the boundaries of two consecutive
    months, each on the reset day or the last day of a shorter month. *)
Theorem monthly_boundaries_consecutive resetDay loc now :
  0 < resetDay ->
  let r := Z.min resetDay 31 in
  exists k prev next,
    latestClientMonthlyResetBoundary resetDay loc now = Some prev /\
    nextClientMonthlyResetBoundary resetDay loc now = Some next /\
    prev <= now < next /\
    prev = midnight loc (monthStart k + Z.min r (monthLength k) - 1) /\
    next = midnight loc (monthStart (k + 1) + Z.min r (monthLength (k + 1)) - 1).
Proof.
  intros Hr. cbv zeta. destruct (boundaries_spec resetDay loc now Hr) as (k & Hl & Hn & Hb).
  assert (normalizeClientResetDay resetDay = Z.min resetDay 31) as Hnorm
    by (unfold normalizeClientResetDay; zcases; lia).
  rewrite Hnorm in *. exists k. do 2 eexists. split; [exact Hl|]. split; [exact Hn|]. done.
Qed.

Lemma boundary_window r loc k k' t :
  0 < r -> boundaryOf r loc k <= t < boundaryOf r loc (k + 1) ->
  boundaryOf r loc k' <= t < boundaryOf r loc (k' + 1) -> k = k'.
Proof.
  intros Hr H1 H2. destruct (Z.lt_trichotomy k k') as [Hlt|[|Hlt]]; [|done|].
  - destruct (decide (k + 1 = k')) as [<-|]; [lia|].
    pose proof (boundaryOf_mono r loc (k + 1) k' Hr ltac:(lia)). lia.
  - destruct (decide (k' + 1 = k)) as [<-|]; [lia|].
    pose proof (boundaryOf_mono r loc (k' + 1) k Hr ltac:(lia)). lia.
Qed.

(** The boundary in force at a later time: the same until the next one. *)
Lemma latest_later resetDay loc now now' b n :
  0 < resetDay -> now <= now' ->
  latestClientMonthlyResetBoundary resetDay loc now = Some b ->
  nextClientMonthlyResetBoundary resetDay loc now = Some n ->
  (now' < n -> latestClientMonthlyResetBoundary resetDay loc now' = Some b) /\
  (n <= now' -> exists b', latestClientMonthlyResetBoundary resetDay loc now' = Some b' /\
                           n <= b' <= now' /\ now < b').
Proof.
  intros Hr Hle Hb Hn. destruct (boundaries_spec resetDay loc now Hr) as (k & Hl & Hn' & Hk).
  destruct (boundaries_spec resetDay loc now' Hr) as (j & Hl' & _ & Hj).
  set (r := normalizeClientResetDay resetDay) in *.
  rewrite Hl in Hb. injection Hb as <-. rewrite Hn' in Hn. injection Hn as <-.
  assert (0 < r) as Hr' by (unfold r, normalizeClientResetDay; zcases; lia). split.
  - intros Hlt. rewrite Hl'. do 2 f_equal. apply (boundary_window r loc j k now'); [done|done|lia].
  - intros Hge. exists (boundaryOf r loc j). split; [done|].
    destruct (Z.le_gt_cases (k + 1) j) as [Hjk|Hjk].
    + destruct (decide (k + 1 = j)) as [<-|]; [lia|].
      pose proof (boundaryOf_mono r loc (k + 1) j Hr' ltac:(lia)). lia.
    + exfalso. destruct (decide (j + 1 = k + 1)) as [Heq|]; [rewrite Heq in Hj; lia|].
      pose proof (boundaryOf_mono r loc (j + 1) (k + 1) Hr' ltac:(lia)). lia.
Qed.

(** traffic is reset exactly once per period: after a reset at [now] the
    next one is due at every later time from the next boundary on, and at
    no time before it. *)
Theorem monthly_reset_once resetDay loc now now' next :
  0 < resetDay -> now <= now' ->
  nextClientMonthlyResetBoundary resetDay loc now = Some next ->
  shouldResetClientTrafficMonthly now resetDay loc now' = true <-> next <= now'.
Proof.
  intros Hr Hle Hn. destruct (boundaries_spec resetDay loc now Hr) as (k & Hl & Hn' & Hk).
  destruct (latest_later resetDay loc now now' _ next Hr Hle Hl Hn) as [H1 H2].
  unfold shouldResetClientTrafficMonthly. destruct (Z.lt_ge_cases now' next) as [Hlt|Hge].
  - rewrite (H1 Hlt). zcases; split; (done || lia).
  - destruct (H2 Hge) as (b' & -> & Hb & Hnow). zcases; split; (done || lia).
Qed.

(** The period tag changes exactly at the boundaries: at a later time it
    is the same string before the next boundary and a different one from
    then on. *)
Lemma period_tag_changes_at_boundary resetDay loc now now' prev next :
  0 < resetDay -> now <= now' <= max_i64 ->
  latestClientMonthlyResetBoundary resetDay loc now = Some prev -> 0 <= prev ->
  nextClientMonthlyResetBoundary resetDay loc now = Some next ->
  computePeriodTag resetDay loc now' = computePeriodTag resetDay loc now <-> now' < next.
Proof.
  intros Hr Hle Hl Hpos Hn. destruct (boundaries_spec resetDay loc now Hr) as (k & Hl' & Hn' & Hk).
  destruct (latest_later resetDay loc now now' prev next Hr ltac:(lia) Hl Hn) as [H1 H2].
  unfold computePeriodTag. destruct (Z.leb_spec resetDay 0); [lia|]. rewrite Hl.
  destruct (Z.lt_ge_cases now' next) as [Hlt|Hge]; [by rewrite (H1 Hlt)|].
  destruct (H2 Hge) as (b' & -> & Hb & Hnow). split; [|lia]. intros Heq. exfalso.
  assert (itoa b' = itoa prev) as Hi by (simpl in Heq; by injection Heq).
  rewrite Hl in Hl'. injection Hl' as ->.
  pose proof (atoi_itoa b' ltac:(lia)) as Ha. rewrite Hi, atoi_itoa in Ha by lia.
  injection Ha as Ha. lia.
Qed.
End Contract.

(** Parsing what was formatted. *)
Lemma twoDigits_pad n :
  0 <= n <= 99 -> twoDigits (digit_char (n / 10)) (digit_char (n mod 10)) = Some n.
Proof.
  intros Hn. unfold twoDigits. rewrite !digit_of_digit_char by divs. f_equal. divs.
Qed.

Lemma formatDate_eq y m d :
  formatDate y m d =
  String (digit_char (y / 100 / 10)) (String (digit_char ((y / 100) mod 10))
    (String (digit_char (y mod 100 / 10)) (String (digit_char ((y mod 100) mod 10))
      (String "-" (String (digit_char (m / 10)) (String (digit_char (m mod 10))
        (String "-" (String (digit_char (d / 10)) (String (digit_char (d mod 10)) ""))))))))).
Proof. reflexivity. Qed.

Lemma parse_format y m d :
  0 <= y <= 9999 -> 1 <= m <= 12 -> 1 <= d <= monthLength (12 * y + (m - 1)) ->
  parseDate (formatDate y m d) = Some (y, m, d).
Proof.
  intros Hy Hm Hd. pose proof (monthLength_bounds (12 * y + (m - 1))).
  rewrite formatDate_eq. unfold parseDate. rewrite !twoDigits_pad by divs.
  assert (100 * (y / 100) + y mod 100 = y) as -> by divs. cbv zeta.
  zcases; try lia. done.
Qed.

Lemma format_plain y m d :
  0 <= y <= 9999 -> 0 <= m <= 99 -> 0 <= d <= 99 -> allc plain (formatDate y m d) = true.
Proof.
  intros Hy Hm Hd.
  assert (Hdig : forall n, 0 <= n < 10 -> plain (digit_char n) = true).
  { intros n Hn. apply digit_plain. unfold is_digit. rewrite digit_of_digit_char by done. done. }
  rewrite formatDate_eq. cbn [allc]. rewrite !Hdig by divs. done.
Qed.

(** every existing date of the years 0 to 9999 is accepted as an expiry
    date, normalisation is the identity on its written form, and the boundary
    is the midnight that date begins with in the location. *)
Theorem expiry_date_roundtrip {L : Type} `{!Location L} (loc : L) y m d :
  0 <= y <= 9999 -> 1 <= m <= 12 -> 1 <= d <= monthLength (12 * y + (m - 1)) ->
  normalizeTrafficOverviewExpiryDate (formatDate y m d) = Ok (formatDate y m d) /\
  parseTrafficOverviewExpiryDate (formatDate y m d) loc =
    Ok (formatDate y m d, Some (midnight loc (dateDay y m d))).
Proof.
  intros Hy Hm Hd. pose proof (monthLength_bounds (12 * y + (m - 1))).
  assert (normalizeTrafficOverviewExpiryDate (formatDate y m d) = Ok (formatDate y m d)) as Hn.
  { unfold normalizeTrafficOverviewExpiryDate.
    rewrite trim_space_plain by (apply format_plain; lia).
    rewrite decide_False by done. by rewrite parse_format. }
  split; [done|]. unfold parseTrafficOverviewExpiryDate. rewrite Hn.
  rewrite decide_False by done. by rewrite parse_format.
Qed.

(** ** Witnesses *)

Lemma monthly_boundaries_consecutive_witness :
  exists prev next, latestClientMonthlyResetBoundary 31 UTC 1709164800 = Some prev /\
    nextClientMonthlyResetBoundary 31 UTC 1709164800 = Some next /\ prev <= 1709164800 < next.
Proof.
  destruct (monthly_boundaries_consecutive 31 UTC 1709164800 ltac:(lia))
    as (k & prev & next & Hl & Hn & Hb & _).
  exists prev, next. split; [exact Hl|]. split; [exact Hn|exact Hb].
Defined.

Lemma monthly_reset_once_witness :
  shouldResetClientTrafficMonthly 1709164800 31 UTC 1711843200 = true.
Proof.
  apply (monthly_reset_once 31 UTC 1709164800 1711843200 1711843200);
    [lia|lia|vm_compute; reflexivity|lia].
Defined.

Lemma expiry_date_roundtrip_witness :
  formatDate 2024 2 29 = "2024-02-29" /\
  parseTrafficOverviewExpiryDate (formatDate 2024 2 29) UTC =
    Ok (formatDate 2024 2 29, Some (midnight UTC (dateDay 2024 2 29))).
Proof.
  split; [reflexivity|].
  refine (proj2 (expiry_date_roundtrip UTC 2024 2 29 _ _ _)); [lia|lia|].
  vm_compute. split; discriminate.
Defined.
