(* ===== verification/PortForwardTraffic.v ===== *)
(** * Port-forwarding traffic accounting ([service/port_forward_traffic.go])

    Each forwarding rule has an nftables byte counter per direction.  A sync
    reads all counters and advances, per rule, two cursors and a total, and
    an overview total, in one transaction.  The two state tables are
    implementations of [Table]; the state table is keyed by its unique rule
    id.  What nftables reports and whether a render succeeds are inputs.
    The conversion of the limit from gibibytes is floating point and is not
    modelled. *)

From S2P Require Import Prelude GoStrings Table Calendar.
From stdpp Require Import base gmap list strings.
From Stdlib Require Import ZArith Lia.

#[local] Open Scope Z_scope.
#[local] Open Scope go_scope.

(** ** Data *)

Record PortForwardRule : Type := mkRule {
  Id : Z;
  Enabled : bool;
  TrafficLimitBytes : Z;
  TrafficResetDay : Z;
  TrafficExpiryDate : string }.

Record PortForwardRuleTrafficState : Type := mkState {
  LastUpBytes : Z;
  LastDownBytes : Z;
  UsedUpBytes : Z;
  UsedDownBytes : Z;
  OverviewLastUpBytes : Z;
  OverviewLastDownBytes : Z;
  AppliedResetDay : Z;
  ResetPeriodTag : string;
  LastResetAt : Z }.

#[global] Instance state_eq_dec : EqDecision PortForwardRuleTrafficState.
Proof. solve_decision. Defined.

Record PortForwardOverviewTrafficState : Type := mkOverview {
  OverviewUsedUp : Z;
  OverviewUsedDown : Z }.

Inductive blockReason : Type := BlockQuota | BlockExpiry.

#[global] Instance blockReason_eq_dec : EqDecision blockReason.
Proof. solve_decision. Defined.

Record portForwardTrafficRuleRuntime : Type := mkRuntime {
  RuntimeUp : Z;
  RuntimeDown : Z;
  RuntimeLastReset : Z;
  NextResetAt : Z;
  LimitReached : bool;
  RuntimeExpired : bool;
  BlockReason : option blockReason }.

Record portForwardTrafficRuntime : Type := mkTraffic {
  RuntimeRules : gmap Z portForwardTrafficRuleRuntime;
  OverviewUp : Z;
  OverviewDown : Z }.

Inductive trafficError : Type :=
| TErrDB             (* a statement or the commit failed *)
| TErrNotReady       (* "database is not ready" *)
| TErrExpiryDate     (* the rule's expiry date does not parse *)
| TErrLoadRules      (* the rules could not be loaded *)
| TErrSnapshot       (* nftables could not be read *)
| TErrRuleNotFound   (* "forwarding rule not found" *)
| TErrRender (notes : list string).  (* the forwarding render failed, with rollback notes *)

Definition portForwardTrafficMaxBytes : Z := max_i64.
Definition portForwardTrafficOverviewStateID : Z := 1.

(** ** Arithmetic *)

Definition maxInt64 (value floor : Z) : Z := if value <? floor then floor else value.

Definition portForwardTrafficCounterDelta (current previous : Z) : Z :=
  let current := if current <? 0 then 0 else current in
  let previous := if previous <? 0 then 0 else previous in
  if previous <=? current then current -! previous else current.

Definition addPortForwardTrafficBytes (left right : Z) : Z :=
  let left := if left <? 0 then 0 else left in
  if right <=? 0 then left
  else if portForwardTrafficMaxBytes -! right <? left then portForwardTrafficMaxBytes
  else left +! right.

Definition normalizePortForwardTrafficResetDay (value : Z) : option Z :=
  if (value <? 0) || (31 <? value) then None else Some value.

Definition normalizePortForwardTrafficExpiryDate (value : string) : res dateError string :=
  normalizeTrafficOverviewExpiryDate value.

(** ** One rule *)

(** The normalised state, and whether anything changed. *)
Definition normalizePortForwardTrafficState (s : PortForwardRuleTrafficState)
  : PortForwardRuleTrafficState * bool :=
  let floor (v : Z) := if v <? 0 then 0 else v in
  let badDay := (AppliedResetDay s <? 0) || (31 <? AppliedResetDay s) in
  let trimmedTag := trim_space (ResetPeriodTag s) in
  let s' := mkState (floor (LastUpBytes s)) (floor (LastDownBytes s)) (floor (UsedUpBytes s))
              (floor (UsedDownBytes s)) (floor (OverviewLastUpBytes s))
              (floor (OverviewLastDownBytes s))
              (if badDay then 0 else AppliedResetDay s) trimmedTag (floor (LastResetAt s)) in
  (s', (LastUpBytes s <? 0) || (LastDownBytes s <? 0) || (UsedUpBytes s <? 0)
       || (UsedDownBytes s <? 0) || (OverviewLastUpBytes s <? 0) || (OverviewLastDownBytes s <? 0)
       || (LastResetAt s <? 0) || badDay || bool_decide (ResetPeriodTag s <> trimmedTag)).

Definition setPeriod (day : Z) (tag : string) (s : PortForwardRuleTrafficState)
  : PortForwardRuleTrafficState :=
  mkState (LastUpBytes s) (LastDownBytes s) (UsedUpBytes s) (UsedDownBytes s)
    (OverviewLastUpBytes s) (OverviewLastDownBytes s) day tag (LastResetAt s).

Section Rule.
Context {L : Type} `{!Location L}.
Implicit Types (loc : L) (now : Z) (s : PortForwardRuleTrafficState) (row : PortForwardRule).

Definition applyPortForwardTrafficMonthlyReset s (resetDay : Z) loc now
  : PortForwardRuleTrafficState * bool :=
  let resetDay := normalizeResetDay resetDay in
  if resetDay <=? 0 then
    (setPeriod 0 "" s, negb (AppliedResetDay s =? 0) || bool_decide (ResetPeriodTag s <> ""))
  else
    let expectedTag := computePeriodTag resetDay loc now in
    if negb (AppliedResetDay s =? resetDay) then (setPeriod resetDay expectedTag s, true)
    else if decide (ResetPeriodTag s = "") then (setPeriod (AppliedResetDay s) expectedTag s, true)
    else if decide (ResetPeriodTag s = expectedTag) then (s, false)
    else
      (mkState (LastUpBytes s) (LastDownBytes s) 0 0 (OverviewLastUpBytes s)
         (OverviewLastDownBytes s) (AppliedResetDay s) expectedTag now, true).

Definition buildPortForwardTrafficRuleRuntime row s loc now
  : res trafficError portForwardTrafficRuleRuntime :=
  let up := maxInt64 (UsedUpBytes s) 0 in
  let down := maxInt64 (UsedDownBytes s) 0 in
  let nextReset :=
    match nextClientMonthlyResetBoundary (normalizeResetDay (TrafficResetDay row)) loc now with
    | Some next => next
    | None => 0
    end in
  match parseTrafficOverviewExpiryDate (TrafficExpiryDate row) loc with
  | Err _ => Err TErrExpiryDate
  | Ok (_, expiryBoundary) =>
      let expired := isTrafficOverviewExpired expiryBoundary now in
      let limit := maxInt64 (TrafficLimitBytes row) 0 in
      let limitReached := (0 <? limit) && (limit <=? addPortForwardTrafficBytes up down) in
      Ok (mkRuntime up down (maxInt64 (LastResetAt s) 0) nextReset limitReached expired
            (if expired then Some BlockExpiry else if limitReached then Some BlockQuota else None))
  end.

(** ** The sync *)

Definition portForwardCounterName (ruleID : Z) (direction : string) : string :=
  "kwor_pf_counter_" +:+ itoa ruleID +:+ "_" +:+ trim_space direction.

Definition counter (counterBytes : gmap string Z) (ruleID : Z) (direction : string) : Z :=
  maxInt64 (default 0 (counterBytes !! portForwardCounterName ruleID direction)) 0.

(** The state of a rule seen for the first time. *)
Definition freshState (up down : Z) : PortForwardRuleTrafficState :=
  mkState up down up down up down 0 "" 0.

(** An existing state after one reading, before the monthly reset. *)
Definition advanceState (up down : Z) s : PortForwardRuleTrafficState :=
  mkState up down
    (addPortForwardTrafficBytes (UsedUpBytes s) (portForwardTrafficCounterDelta up (LastUpBytes s)))
    (addPortForwardTrafficBytes (UsedDownBytes s) (portForwardTrafficCounterDelta down (LastDownBytes s)))
    up down (AppliedResetDay s) (ResetPeriodTag s) (LastResetAt s).

Definition counterChanged (up down : Z) s : bool :=
  negb (up =? LastUpBytes s) || negb (down =? LastDownBytes s)
  || negb (up =? OverviewLastUpBytes s) || negb (down =? OverviewLastDownBytes s).

(** What the first loop carries. *)
Record syncAcc : Type := mkAcc {
  a_states : gmap Z PortForwardRuleTrafficState;
  a_deltaUp : Z;
  a_deltaDown : Z;
  a_changed : gmap Z bool;
  a_created : gmap Z bool }.

Definition syncRule (counterBytes : gmap string Z) loc now (acc : syncAcc) row : syncAcc :=
  let up := counter counterBytes (Id row) "up" in
  let down := counter counterBytes (Id row) "down" in
  let '(state, acc1) :=
    match a_states acc !! Id row with
    | None =>
        (freshState up down,
         mkAcc (a_states acc) (a_deltaUp acc) (a_deltaDown acc) (a_changed acc)
           (<[Id row := true]> (a_created acc)))
    | Some s =>
        let '(s0, changed) := normalizePortForwardTrafficState s in
        let ruleDeltaUp := portForwardTrafficCounterDelta up (LastUpBytes s0) in
        let ruleDeltaDown := portForwardTrafficCounterDelta down (LastDownBytes s0) in
        (advanceState up down s0,
         mkAcc (a_states acc)
           (addPortForwardTrafficBytes (a_deltaUp acc)
              (portForwardTrafficCounterDelta up (OverviewLastUpBytes s0)))
           (addPortForwardTrafficBytes (a_deltaDown acc)
              (portForwardTrafficCounterDelta down (OverviewLastDownBytes s0)))
           (<[Id row := changed || counterChanged up down s0 || (0 <? ruleDeltaUp) || (0 <? ruleDeltaDown)]>
              (a_changed acc))
           (a_created acc))
    end in
  let '(state', reset) := applyPortForwardTrafficMonthlyReset state (TrafficResetDay row) loc now in
  mkAcc (<[Id row := state']> (a_states acc1)) (a_deltaUp acc1) (a_deltaDown acc1)
    (if reset then <[Id row := true]> (a_changed acc1) else a_changed acc1) (a_created acc1).

Context {S O : Type} `{!Table Z PortForwardRuleTrafficState S, !Table Z PortForwardOverviewTrafficState O}.

Definition flag (m : gmap Z bool) (id : Z) : bool := default false (m !! id).
Definition zeroState : PortForwardRuleTrafficState := mkState 0 0 0 0 0 0 0 "" 0.
Definition stateOf (m : gmap Z PortForwardRuleTrafficState) (id : Z) : PortForwardRuleTrafficState :=
  default zeroState (m !! id).

(** The second loop: write what is new or changed, and derive the runtime. *)
Fixpoint writeRules (acc : syncAcc) loc now (rules : list PortForwardRule)
    (result : gmap Z portForwardTrafficRuleRuntime) (t : S)
  : res trafficError (gmap Z portForwardTrafficRuleRuntime) * S :=
  match rules with
  | [] => (Ok result, t)
  | row :: rest =>
      let state := stateOf (a_states acc) (Id row) in
      let '(e, t1) :=
        if flag (a_created acc) (Id row) then tCreate (Id row) state t
        else if flag (a_changed acc) (Id row) then tSave (Id row) state t
        else (None, t) in
      match e with
      | Some _ => (Err TErrDB, t1)
      | None =>
          match buildPortForwardTrafficRuleRuntime row state loc now with
          | Err x => (Err x, t1)
          | Ok runtime => writeRules acc loc now rest (<[Id row := runtime]> result) t1
          end
      end
  end.

Definition db : Type := (S * O)%type.

(** The body of the transaction. *)
Definition syncTx (rules : list PortForwardRule) (counterBytes : gmap string Z) loc now (d : db)
  : res trafficError portForwardTrafficRuntime * db :=
  let '(t, o) := d in
  let '(states, t1) := tAll t in
  match states with
  | Err _ => (Err TErrDB, (t1, o))
  | Ok l =>
      let '(found, o1) := tFind portForwardTrafficOverviewStateID o in
      match found with
      | Err _ => (Err TErrDB, (t1, o1))
      | Ok overview =>
          let stored := default (mkOverview 0 0) overview in
          let ovUp := maxInt64 (OverviewUsedUp stored) 0 in
          let ovDown := maxInt64 (OverviewUsedDown stored) 0 in
          let acc := foldl (syncRule counterBytes loc now) (mkAcc (list_to_map l) 0 0 ∅ ∅) rules in
          let total (f : PortForwardRuleTrafficState -> Z) (start : Z) :=
            foldl (fun x row => addPortForwardTrafficBytes x (f (stateOf (a_states acc) (Id row)))) start rules in
          let next :=
            match overview with
            | None => mkOverview (total UsedUpBytes ovUp) (total UsedDownBytes ovDown)
            | Some _ => mkOverview (addPortForwardTrafficBytes ovUp (a_deltaUp acc))
                                   (addPortForwardTrafficBytes ovDown (a_deltaDown acc))
            end in
          let '(out, t2) := writeRules acc loc now rules ∅ t1 in
          match out with
          | Err e => (Err e, (t2, o1))
          | Ok runtime =>
              let '(e, o2) :=
                match overview with
                | Some _ => if (0 <? a_deltaUp acc) || (0 <? a_deltaDown acc)
                            then tSave portForwardTrafficOverviewStateID next o1 else (None, o1)
                | None => tCreate portForwardTrafficOverviewStateID next o1
                end in
              match e with
              | Some _ => (Err TErrDB, (t2, o2))
              | None => (Ok (mkTraffic runtime (OverviewUsedUp next) (OverviewUsedDown next)), (t2, o2))
              end
          end
      end
  end.

Definition syncPortForwardTrafficStateRows (rules : list PortForwardRule)
    (counterBytes : gmap string Z) loc now (commitOk : bool) (d : option db)
  : res trafficError portForwardTrafficRuntime * option db :=
  match d with
  | None => (Err TErrNotReady, None)
  | Some d0 =>
      let '(out, d1) := transaction commitOk TErrDB (syncTx rules counterBytes loc now) d0 in
      (out, Some d1)
  end.

(** ** Reading without advancing *)

Fixpoint runtimeRules (states : gmap Z PortForwardRuleTrafficState) loc now
    (rules : list PortForwardRule) (result : gmap Z portForwardTrafficRuleRuntime)
  : res trafficError (gmap Z portForwardTrafficRuleRuntime) :=
  match rules with
  | [] => Ok result
  | row :: rest =>
      match buildPortForwardTrafficRuleRuntime row (stateOf states (Id row)) loc now with
      | Err e => Err e
      | Ok runtime => runtimeRules states loc now rest (<[Id row := runtime]> result)
      end
  end.

Definition loadPortForwardTrafficRuntime (rules : list PortForwardRule) loc now (d : option db)
  : res trafficError portForwardTrafficRuntime * option db :=
  match d with
  | None => (Err TErrNotReady, None)
  | Some (t, o) =>
      let '(states, t1) := tAll t in
      match states with
      | Err _ => (Err TErrDB, Some (t1, o))
      | Ok l =>
          let m := (fun s => fst (normalizePortForwardTrafficState s)) <$> (list_to_map l : gmap Z _) in
          match runtimeRules m loc now rules ∅ with
          | Err e => (Err e, Some (t1, o))
          | Ok runtime =>
              let '(found, o1) := tFind portForwardTrafficOverviewStateID o in
              match found with
              | Err _ => (Err TErrDB, Some (t1, o1))
              | Ok overview =>
                  let stored := default (mkOverview 0 0) overview in
                  (Ok (mkTraffic runtime (maxInt64 (OverviewUsedUp stored) 0)
                         (maxInt64 (OverviewUsedDown stored) 0)), Some (t1, o1))
              end
          end
      end
  end.

Definition portForwardTrafficBlockReasons (rules : list PortForwardRule)
    (traffic : portForwardTrafficRuntime) : gmap Z blockReason :=
  foldl (fun m row =>
           if Enabled row then
             match RuntimeRules traffic !! Id row with
             | Some rt => match BlockReason rt with Some r => <[Id row := r]> m | None => m end
             | None => m
             end
           else m) ∅ rules.

(** ** Resets

    The surroundings of a reset: the rules, whether forwarding is supported,
    what nftables reports, the snapshot kept from before, and whether the
    render of the rules succeeds the first and the second time. *)

Record surroundings : Type := mkEnv {
  env_rules : res unit (list PortForwardRule);
  env_supported : bool;
  env_snapshot : res unit (gmap string Z);
  env_kept : option (gmap string Z);
  env_commit : bool;
  env_render : bool;
  env_rerender : bool }.

Definition capturePortForwardTrafficLocked (rules : list PortForwardRule) (env : surroundings) loc now
    (d : option db) : res trafficError portForwardTrafficRuntime * option db :=
  if negb (env_supported env)
  then syncPortForwardTrafficStateRows rules ∅ loc now (env_commit env) d
  else match env_snapshot env with
       | Err _ => (Err TErrSnapshot, d)
       | Ok counters => syncPortForwardTrafficStateRows rules counters loc now (env_commit env) d
       end.

(** The counters of the snapshot in hand after a capture. *)
Definition capturedCounters (env : surroundings) : gmap string Z :=
  match (if env_supported env then match env_snapshot env with Ok c => Some c | Err _ => env_kept env end
         else env_kept env) with
  | Some c => c
  | None => ∅
  end.

Definition resetState (counterBytes : gmap string Z) (rule : PortForwardRule) loc now
  : PortForwardRuleTrafficState :=
  let up := counter counterBytes (Id rule) "up" in
  let down := counter counterBytes (Id rule) "down" in
  let day := normalizeResetDay (TrafficResetDay rule) in
  mkState up down 0 0 up down day (computePeriodTag day loc now) now.

Definition findRule (id : Z) (rules : list PortForwardRule) : option PortForwardRule :=
  list_find (fun row => Id row = id) rules ≫= fun ir => Some ir.2.

(** Putting the row of rule [id] back after a failed render, with notes. *)
Definition restoreState (id : Z) (previous : option PortForwardRuleTrafficState) (t : S)
  : list string * S :=
  match previous with
  | Some p =>
      let '(e, t') := tSave id p t in
      (match e with
       | Some _ => ["restore previous traffic state failed"]
       | None => ["restored previous traffic state"]
       end, t')
  | None =>
      let '(e, t') := tDelete (fun k _ => bool_decide (k = id)) t in
      (match e with Some _ => ["remove newly created traffic state failed"] | None => [] end, t')
  end.

Definition ResetRuleTraffic (id : Z) (env : surroundings) loc now (d : option db)
  : option trafficError * option db :=
  match d with
  | None => (Some TErrNotReady, None)
  | Some _ =>
      match env_rules env with
      | Err _ => (Some TErrLoadRules, d)
      | Ok rules =>
          match findRule id rules with
          | None => (Some TErrRuleNotFound, d)
          | Some rule =>
              match capturePortForwardTrafficLocked rules env loc now d with
              | (Err e, d1) => (Some e, d1)
              | (Ok _, None) => (Some TErrNotReady, None)
              | (Ok _, Some (t, o)) =>
                  let '(found, t1) := tFind id t in
                  match found with
                  | Err _ => (Some TErrDB, Some (t1, o))
                  | Ok previous =>
                      let state := resetState (capturedCounters env) rule loc now in
                      let write (t : S) : res trafficError unit * S :=
                        let '(e, t') := match previous with
                                        | Some _ => tSave id state t
                                        | None => tCreate id state t
                                        end in
                        (match e with Some _ => Err TErrDB | None => Ok tt end, t') in
                      match transaction (env_commit env) TErrDB write t1 with
                      | (Err e, t2) => (Some e, Some (t2, o))
                      | (Ok _, t2) =>
                          if env_render env then (None, Some (t2, o))
                          else
                            let '(notes, t3) := restoreState id previous t2 in
                            (Some (TErrRender (notes ++
                               if env_rerender env then [] else ["restore forwarding render failed"])),
                             Some (t3, o))
                      end
                  end
              end
          end
      end
  end.

Definition restoreOverview (previous : option PortForwardOverviewTrafficState) (o : O)
  : list string * O :=
  match previous with
  | Some p =>
      let '(e, o') := tSave portForwardTrafficOverviewStateID p o in
      (match e with Some _ => ["restore previous overview traffic failed"] | None => [] end, o')
  | None =>
      let '(e, o') := tDelete (fun k _ => bool_decide (k = portForwardTrafficOverviewStateID)) o in
      (match e with Some _ => ["remove newly created overview traffic state failed"] | None => [] end, o')
  end.

Definition ResetOverviewTraffic (env : surroundings) loc now (d : option db)
  : option trafficError * option db :=
  match d with
  | None => (Some TErrNotReady, None)
  | Some _ =>
      match env_rules env with
      | Err _ => (Some TErrLoadRules, d)
      | Ok rules =>
          match capturePortForwardTrafficLocked rules env loc now d with
          | (Err e, d1) => (Some e, d1)
          | (Ok _, None) => (Some TErrNotReady, None)
          | (Ok _, Some (t, o)) =>
              let '(found, o1) := tFind portForwardTrafficOverviewStateID o in
              match found with
              | Err _ => (Some TErrDB, Some (t, o1))
              | Ok previous =>
                  let '(e, o2) := match previous with
                                  | Some _ => tSave portForwardTrafficOverviewStateID (mkOverview 0 0) o1
                                  | None => tCreate portForwardTrafficOverviewStateID (mkOverview 0 0) o1
                                  end in
                  match e with
                  | Some _ => (Some TErrDB, Some (t, o2))
                  | None =>
                      if env_render env then (None, Some (t, o2))
                      else
                        let '(notes, o3) := restoreOverview previous o2 in
                        (Some (TErrRender (notes ++
                           if env_rerender env then [] else ["restore forwarding render failed"])),
                         Some (t, o3))
                  end
              end
          end
      end
  end.
End Rule.

(** ** Arithmetic facts *)

Lemma delta_spec current previous :
  0 <= current <= max_i64 -> 0 <= previous <= max_i64 ->
  portForwardTrafficCounterDelta current previous =
  if previous <=? current then current - previous else current.
Proof.
  intros Hc Hp. unfold portForwardTrafficCounterDelta, max_i64 in *.
  destruct (Z.ltb_spec current 0); [lia|]. destruct (Z.ltb_spec previous 0); [lia|].
  destruct (Z.leb_spec previous current); [by i64|done].
Qed.

Lemma add_spec left right :
  0 <= left <= max_i64 -> 0 <= right <= max_i64 ->
  addPortForwardTrafficBytes left right = Z.min max_i64 (left + right).
Proof.
  intros Hl Hr. unfold addPortForwardTrafficBytes, portForwardTrafficMaxBytes, max_i64 in *.
  destruct (Z.ltb_spec left 0); [lia|]. destruct (Z.leb_spec right 0); [lia|].
  i64. destruct (Z.ltb_spec (2 ^ 63 - 1 - right) left); [lia|]. i64. lia.
Qed.

Lemma add_nonpos left right : 0 <= left -> right <= 0 -> addPortForwardTrafficBytes left right = left.
Proof. intros. unfold addPortForwardTrafficBytes. zcases; lia. Qed.

(** ** No byte is counted twice

    One direction of one rule: bytes pass and advance the kernel's counter,
    the counter may be recreated at zero (a redraw of the rules, a reboot), and
    a sync adds the delta to the total and moves the cursor. *)

Inductive meterEvent : Type :=
| BytesPass (n : Z)
| CounterRecreated
| SyncRuns.

Record meter : Type := mkMeter {
  kernelCounter : Z;
  passed : Z;        (* every byte that has passed *)
  cursor : Z;        (* LastUpBytes *)
  total : Z }.       (* UsedUpBytes *)

Definition meterStep (m : meter) (e : meterEvent) : meter :=
  match e with
  | BytesPass n => mkMeter (kernelCounter m + n) (passed m + n) (cursor m) (total m)
  | CounterRecreated => mkMeter 0 (passed m) (cursor m) (total m)
  | SyncRuns =>
      mkMeter (kernelCounter m) (passed m) (kernelCounter m)
        (addPortForwardTrafficBytes (total m)
           (portForwardTrafficCounterDelta (kernelCounter m) (cursor m)))
  end.

Definition meterRun (events : list meterEvent) : meter := foldl meterStep (mkMeter 0 0 0 0) events.

Definition countsBytes (e : meterEvent) : Prop := match e with BytesPass n => 0 <= n | _ => True end.

Definition unseen (m : meter) : Z :=
  if cursor m <=? kernelCounter m then kernelCounter m - cursor m else kernelCounter m.

Lemma passed_mono events m :
  Forall countsBytes events -> passed m <= passed (foldl meterStep m events).
Proof.
  revert m. induction events as [|e events IH]; intros m Hf; simpl; [lia|].
  apply Forall_cons in Hf as [He Hf]. specialize (IH (meterStep m e) Hf).
  destruct e; simpl in *; lia.
Qed.

(** What a run keeps: the counter and the cursor never exceed the bytes that
    passed, and the total with the unseen bytes does not either. *)
Definition MeterInv (m : meter) : Prop :=
  0 <= kernelCounter m <= passed m /\ 0 <= cursor m <= passed m /\ 0 <= total m /\
  total m + unseen m <= passed m.

Lemma meterStep_inv m e :
  MeterInv m -> countsBytes e -> passed (meterStep m e) <= max_i64 -> MeterInv (meterStep m e).
Proof.
  unfold MeterInv, unseen. intros (Hk & Hc & Ht & Hu) He Hmax. destruct e as [n| |]; simpl in *.
  - repeat split; zcases; lia.
  - repeat split; zcases; lia.
  - rewrite delta_spec by lia. destruct (Z.leb_spec (cursor m) (kernelCounter m));
      rewrite add_spec by lia; rewrite Z.leb_refl; repeat split; lia.
Qed.

Lemma meterRun_inv events : forall m,
  MeterInv m -> Forall countsBytes events -> passed (foldl meterStep m events) <= max_i64 ->
  MeterInv (foldl meterStep m events).
Proof.
  induction events as [|e events IH]; intros m Hm Hf Hmax; simpl in *; [done|].
  apply Forall_cons in Hf as [He Hf]. apply IH; [|done|done].
  apply meterStep_inv; [done|done|]. pose proof (passed_mono events (meterStep m e) Hf). lia.
Qed.

Lemma meterRun_exact events : forall m,
  MeterInv m -> cursor m <= kernelCounter m -> total m + unseen m = passed m ->
  Forall countsBytes events -> CounterRecreated ∉ events ->
  passed (foldl meterStep m events) <= max_i64 ->
  let m' := foldl meterStep m events in total m' + unseen m' = passed m'.
Proof.
  induction events as [|e events IH]; intros m Hm Hc Hx Hf Hn Hmax; simpl in *; [done|].
  apply Forall_cons in Hf as [He Hf]. apply not_elem_of_cons in Hn as [Hne Hn].
  pose proof (passed_mono events (meterStep m e) Hf) as Hp.
  apply IH; try done; [apply meterStep_inv; (done || lia)| |].
  - destruct e; simpl in *; [lia|done|lia].
  - unfold unseen, MeterInv in *. destruct e as [n| |]; simpl in *; [zcases; lia|done|].
    rewrite delta_spec by lia. rewrite Z.leb_refl. destruct (Z.leb_spec (cursor m) (kernelCounter m)); [|lia].
    rewrite add_spec by lia. lia.
Qed.

(** the accounted usage of a rule never exceeds the bytes that passed,
    whatever the order of traffic, counter recreations and syncs; and as long
    as the counter is not recreated it is exactly the bytes that had passed
    at the last sync. *)
Theorem usage_never_overcounts events :
  Forall countsBytes events -> passed (meterRun events) <= max_i64 ->
  let m := meterRun events in
  0 <= total m <= passed m /\
  (CounterRecreated ∉ events -> total m = passed m - unseen m).
Proof.
  intros Hf Hmax. cbv zeta.
  assert (MeterInv (mkMeter 0 0 0 0)) as H0 by (unfold MeterInv, unseen; simpl; lia).
  pose proof (meterRun_inv events _ H0 Hf Hmax) as (Hk & Hc & Ht & Hu). split.
  - unfold unseen in *. unfold meterRun in *. destruct (Z.leb_spec (cursor (foldl meterStep (mkMeter 0 0 0 0) events))
      (kernelCounter (foldl meterStep (mkMeter 0 0 0 0) events))); lia.
  - intros Hn. pose proof (meterRun_exact events _ H0 ltac:(simpl; lia) ltac:(done) Hf Hn Hmax) as He.
    unfold meterRun. cbv zeta in He. lia.
Qed.

(** ** One sync of one rule *)

Lemma normalize_unchanged s :
  (normalizePortForwardTrafficState s).2 = false -> (normalizePortForwardTrafficState s).1 = s.
Proof.
  unfold normalizePortForwardTrafficState. simpl. intros H.
  repeat (apply orb_false_iff in H as [H ?]).
  repeat match goal with Hx : (_ <? 0) = false |- _ => rewrite Hx; clear Hx end.
  match goal with Hx : (_ || _) = false |- _ => rewrite Hx; clear Hx end.
  match goal with Hx : bool_decide _ = false |- _ => apply bool_decide_eq_false, dec_stable in Hx as Ht end.
  destruct s. simpl in *. congruence.
Qed.

(** A state with every field in range. *)
Record Normal (s : PortForwardRuleTrafficState) : Prop := {
  n_last : 0 <= LastUpBytes s /\ 0 <= LastDownBytes s;
  n_used : 0 <= UsedUpBytes s /\ 0 <= UsedDownBytes s;
  n_overview : 0 <= OverviewLastUpBytes s /\ 0 <= OverviewLastDownBytes s;
  n_day : 0 <= AppliedResetDay s <= 31;
  n_tag : trim_space (ResetPeriodTag s) = ResetPeriodTag s;
  n_reset : 0 <= LastResetAt s }.

Lemma normalize_Normal s : Normal (normalizePortForwardTrafficState s).1.
Proof.
  unfold normalizePortForwardTrafficState.
  constructor; simpl; try (zcases; lia). by rewrite trim_space_idemp.
Qed.

Lemma Normal_normalize s : Normal s -> normalizePortForwardTrafficState s = (s, false).
Proof.
  intros [[] [] [] [] Htag ?]. unfold normalizePortForwardTrafficState. rewrite Htag.
  rewrite bool_decide_eq_false_2 by (by intros []). destruct s. simpl in *.
  repeat match goal with |- context [?x <? 0] => destruct (Z.ltb_spec x 0); [lia|] end.
  destruct (Z.ltb_spec 31 AppliedResetDay0); [lia|]. done.
Qed.

Lemma addPF_nonneg left right : 0 <= left -> right <= max_i64 -> 0 <= addPortForwardTrafficBytes left right.
Proof.
  intros Hl Hr. unfold addPortForwardTrafficBytes, portForwardTrafficMaxBytes, max_i64 in *.
  destruct (Z.ltb_spec left 0); [lia|]. destruct (Z.leb_spec right 0); [lia|]. i64.
  destruct (Z.ltb_spec (2 ^ 63 - 1 - right) left); [lia|]. i64. lia.
Qed.

Lemma itoa_plain z : allc plain (itoa z) = true.
Proof.
  destruct (Z.le_gt_cases 0 z) as [Hz|Hz].
  - apply (allc_impl is_digit); [apply digit_plain|by apply itoa_all_digits].
  - unfold itoa. destruct (Z.ltb_spec z 0); [|lia]. cbn [allc].
    apply (allc_impl is_digit _ _ digit_plain).
    apply allc_In. intros c Hc. apply itoa_fuel_digits in Hc as [d Hd]; [|lia|by intros ? []].
    unfold is_digit. by rewrite Hd.
Qed.

Section Sync.
Context {L : Type} `{!Location L, !LocationLaws L}.
Implicit Types (loc : L) (now : Z) (s : PortForwardRuleTrafficState) (row : PortForwardRule).

Lemma tag_plain resetDay loc now :
  0 < resetDay ->
  computePeriodTag resetDay loc now <> "" /\
  trim_space (computePeriodTag resetDay loc now) = computePeriodTag resetDay loc now.
Proof.
  intros Hr. destruct (boundaries_spec resetDay loc now Hr) as (k & Hl & _). unfold computePeriodTag.
  destruct (Z.leb_spec resetDay 0); [lia|]. rewrite Hl. split; [done|].
  apply trim_space_plain. rewrite allc_app, itoa_plain. done.
Qed.

Lemma normalizeResetDay_range d : 0 <= normalizeResetDay d <= 31.
Proof. unfold normalizeResetDay. zcases; lia. Qed.

Lemma reset_unchanged s d loc now :
  (applyPortForwardTrafficMonthlyReset s d loc now).2 = false ->
  (applyPortForwardTrafficMonthlyReset s d loc now).1 = s.
Proof.
  unfold applyPortForwardTrafficMonthlyReset. destruct (normalizeResetDay d <=? 0).
  - simpl. intros [H1 H2]%orb_false_iff. apply negb_false_iff, Z.eqb_eq in H1.
    apply bool_decide_eq_false, dec_stable in H2. unfold setPeriod. destruct s. simpl in *. congruence.
  - repeat case_match; done.
Qed.

(** Applying the monthly reset twice at the same time changes nothing more. *)
Lemma reset_idemp s d loc now :
  applyPortForwardTrafficMonthlyReset (applyPortForwardTrafficMonthlyReset s d loc now).1 d loc now =
  ((applyPortForwardTrafficMonthlyReset s d loc now).1, false).
Proof.
  set (s' := (applyPortForwardTrafficMonthlyReset s d loc now).1).
  pose proof (normalizeResetDay_range d).
  destruct (Z.leb_spec (normalizeResetDay d) 0) as [Hz|Hz].
  { assert (s' = setPeriod 0 "" s) as ->.
    { unfold s', applyPortForwardTrafficMonthlyReset.
      destruct (Z.leb_spec (normalizeResetDay d) 0); [done|lia]. }
    unfold applyPortForwardTrafficMonthlyReset. by destruct (Z.leb_spec (normalizeResetDay d) 0); [|lia]. }
  destruct (tag_plain (normalizeResetDay d) loc now Hz) as [Hne _].
  assert (AppliedResetDay s' = normalizeResetDay d /\
          ResetPeriodTag s' = computePeriodTag (normalizeResetDay d) loc now) as [Ha Ht].
  { unfold s', applyPortForwardTrafficMonthlyReset.
    destruct (Z.leb_spec (normalizeResetDay d) 0); [lia|].
    destruct (Z.eqb_spec (AppliedResetDay s) (normalizeResetDay d)) as [He|]; [|done]. cbn [negb].
    case_decide; [done|]. case_decide as Hd; done. }
  clearbody s'. unfold applyPortForwardTrafficMonthlyReset.
  destruct (Z.leb_spec (normalizeResetDay d) 0); [lia|].
  rewrite Ha, Ht, Z.eqb_refl. cbn [negb]. by rewrite decide_False, decide_True by done.
Qed.

Lemma reset_Normal s d loc now : 0 <= now -> Normal s -> Normal (applyPortForwardTrafficMonthlyReset s d loc now).1.
Proof.
  intros Hnow Hs. pose proof (normalizeResetDay_range d). destruct Hs.
  unfold applyPortForwardTrafficMonthlyReset, setPeriod.
  destruct (Z.leb_spec (normalizeResetDay d) 0) as [Hz|Hz]; [by constructor|].
  destruct (tag_plain (normalizeResetDay d) loc now Hz) as [_ Htrim].
  destruct (negb _) eqn:?; [by constructor|]. case_decide; [by constructor|].
  case_decide; by constructor.
Qed.

(** The row a sync leaves for a rule, from the row it found. *)
Definition syncedState (counterBytes : gmap string Z) loc now row
    (old : option PortForwardRuleTrafficState) : PortForwardRuleTrafficState :=
  let up := counter counterBytes (Id row) "up" in
  let down := counter counterBytes (Id row) "down" in
  (applyPortForwardTrafficMonthlyReset
     (match old with
      | None => freshState up down
      | Some s => advanceState up down (normalizePortForwardTrafficState s).1
      end) (TrafficResetDay row) loc now).1.

Lemma counter_nonneg c id dir : 0 <= counter c id dir.
Proof. unfold counter, maxInt64. zcases; lia. Qed.

Lemma advance_unchanged up down s :
  Normal s -> counterChanged up down s = false -> advanceState up down s = s.
Proof.
  intros [[] [] _ _ _ _] Hc. unfold counterChanged in Hc.
  repeat (apply orb_false_iff in Hc as [Hc ?]).
  repeat match goal with Hx : negb _ = false |- _ => apply negb_false_iff, Z.eqb_eq in Hx end.
  assert (Hd : forall x, portForwardTrafficCounterDelta x x = 0).
  { intros x. unfold portForwardTrafficCounterDelta. rewrite Z.leb_refl. by rewrite Z.sub_diag. }
  unfold advanceState. destruct s. simpl in *. subst.
  rewrite !Hd, !add_nonpos by lia. done.
Qed.

Lemma syncRule_spec c loc now acc row :
  let acc' := syncRule c loc now acc row in
  let old := a_states acc !! Id row in
  a_states acc' = <[Id row := syncedState c loc now row old]> (a_states acc) /\
  (forall id, id <> Id row -> flag (a_changed acc') id = flag (a_changed acc) id /\
                              flag (a_created acc') id = flag (a_created acc) id) /\
  match old with
  | None => flag (a_created acc') (Id row) = true
  | Some s => flag (a_created acc') (Id row) = flag (a_created acc) (Id row) /\
              (flag (a_changed acc') (Id row) = false -> syncedState c loc now row old = s)
  end.
Proof.
  cbv zeta. unfold syncRule, syncedState, flag.
  set (up := counter c (Id row) "up"). set (down := counter c (Id row) "down").
  destruct (a_states acc !! Id row) as [s|] eqn:Hs.
  - pose proof (normalize_unchanged s) as Hu. pose proof (normalize_Normal s) as Hn.
    destruct (normalizePortForwardTrafficState s) as [s0 changed]. simpl in Hu, Hn.
    pose proof (reset_unchanged (advanceState up down s0) (TrafficResetDay row) loc now) as Hr.
    destruct (applyPortForwardTrafficMonthlyReset _ _ loc now) as [s1 reset]. simpl in *.
    split; [done|]. split.
    + intros id Hne. destruct reset; simpl; rewrite ?lookup_insert_ne by done; done.
    + split; [done|]. destruct reset; simpl; [by rewrite lookup_insert_eq|].
      rewrite lookup_insert_eq. simpl. intros H. repeat (apply orb_false_iff in H as [H ?]).
      rewrite (Hr eq_refl), advance_unchanged by done. by apply Hu.
  - destruct (applyPortForwardTrafficMonthlyReset _ _ loc now) as [s1 reset]. simpl.
    split; [done|]. split; [|by rewrite lookup_insert_eq].
    intros id Hne. destruct reset; simpl; rewrite ?lookup_insert_ne by done; done.
Qed.

Lemma syncRules_spec c loc now rules : forall acc,
  NoDup (Id <$> rules) ->
  let acc' := foldl (syncRule c loc now) acc rules in
  (forall id, id ∉ (Id <$> rules) -> a_states acc' !! id = a_states acc !! id /\
     flag (a_changed acc') id = flag (a_changed acc) id /\
     flag (a_created acc') id = flag (a_created acc) id) /\
  (forall row, row ∈ rules ->
     let old := a_states acc !! Id row in
     a_states acc' !! Id row = Some (syncedState c loc now row old) /\
     match old with
     | None => flag (a_created acc') (Id row) = true
     | Some s => flag (a_created acc') (Id row) = flag (a_created acc) (Id row) /\
                 (flag (a_changed acc') (Id row) = false -> syncedState c loc now row old = s)
     end).
Proof.
  induction rules as [|r rules IH]; intros acc Hnd; simpl.
  { split; [done|]. by intros row ?%elem_of_nil. }
  apply NoDup_cons in Hnd as [Hr Hnd].
  destruct (syncRule_spec c loc now acc r) as (Hst & Hfl & Hold). cbv zeta in *.
  destruct (IH (syncRule c loc now acc r) Hnd) as [IH1 IH2]. split.
  - intros id [Hne Hid]%not_elem_of_cons. destruct (IH1 id Hid) as (-> & -> & ->).
    rewrite Hst, lookup_insert_ne by done. destruct (Hfl id Hne) as [-> ->]. done.
  - intros row [->|Hin]%elem_of_cons.
    + destruct (IH1 (Id r) Hr) as (-> & -> & ->). rewrite Hst, lookup_insert_eq. done.
    + assert (Id row <> Id r) as Hne.
      { intros He. apply Hr. rewrite <- He. by apply list_elem_of_fmap_2. }
      specialize (IH2 row Hin). rewrite Hst, lookup_insert_ne in IH2 by done.
      destruct (Hfl (Id row) Hne) as [_ Hcr]. rewrite Hcr in IH2. done.
Qed.

Context {S O : Type} `{!Table Z PortForwardRuleTrafficState S, !Table Z PortForwardOverviewTrafficState O}.
Context `{!TableLaws Z PortForwardRuleTrafficState S, !TableLaws Z PortForwardOverviewTrafficState O}.

Lemma writeRules_spec acc loc now rules : forall result (t : S) out t',
  writeRules acc loc now rules result t = (Ok out, t') ->
  (forall id, id ∉ (Id <$> rules) -> rows t' !! id = rows t !! id /\ out !! id = result !! id) /\
  (forall row, row ∈ rules ->
     let state := stateOf (a_states acc) (Id row) in
     (if flag (a_created acc) (Id row) || flag (a_changed acc) (Id row)
      then rows t' !! Id row = Some state else rows t' !! Id row = rows t !! Id row) /\
     is_Some (out !! Id row)) /\
  (forall id rt, out !! id = Some rt -> result !! id = Some rt \/
     exists row, row ∈ rules /\ Id row = id /\
       buildPortForwardTrafficRuleRuntime row (stateOf (a_states acc) id) loc now = Ok rt).
Proof.
  induction rules as [|r rules IH]; intros result t out t' Hw; cbn [writeRules] in Hw.
  { injection Hw as <- <-. split; [done|]. split; [by intros row ?%elem_of_nil|by left]. }
  set (state := stateOf (a_states acc) (Id r)) in *.
  destruct (if flag (a_created acc) (Id r) then _ else _) as [e t1] eqn:He.
  destruct e as [e|]; [done|].
  assert (Hrows : rows t1 = if flag (a_created acc) (Id r) || flag (a_changed acc) (Id r)
                            then <[Id r := state]> (rows t) else rows t).
  { destruct (flag (a_created acc) (Id r)); cbn [orb].
    - pose proof (create_ok (Id r) state t) as Hc. rewrite He in Hc. by destruct (Hc eq_refl).
    - destruct (flag (a_changed acc) (Id r)); [|by injection He as <-].
      pose proof (save_ok (Id r) state t) as Hc. rewrite He in Hc. by apply Hc. }
  destruct (buildPortForwardTrafficRuleRuntime r state loc now) as [rt|] eqn:Hb; [|done].
  destruct (IH _ _ _ _ Hw) as (IH1 & IH2 & IH3).
  assert (Hother : forall id, id <> Id r -> rows t1 !! id = rows t !! id).
  { intros id Hne. rewrite Hrows. destruct (_ || _); [by rewrite lookup_insert_ne|done]. }
  split; [|split].
  - intros id [Hne Hid]%not_elem_of_cons. destruct (IH1 id Hid) as [-> ->].
    split; [by apply Hother|by rewrite lookup_insert_ne].
  - intros row Hrow. destruct (decide (Id row ∈ (Id <$> rules))) as [Hin|Hin].
    + apply list_elem_of_fmap in Hin as (row' & Hid & Hin'). destruct (IH2 row' Hin') as [Ha Hb'].
      rewrite <- Hid in Ha, Hb'. split; [|done].
      destruct (flag (a_created acc) (Id row) || flag (a_changed acc) (Id row)) eqn:Hf; [done|].
      rewrite Ha. destruct (decide (Id row = Id r)) as [Hr|Hr]; [|by apply Hother].
      rewrite Hr in Hf |- *. by rewrite Hrows, Hf.
    + apply elem_of_cons in Hrow as [->|Hrow]; [|by destruct Hin; apply list_elem_of_fmap_2].
      destruct (IH1 (Id r) Hin) as [-> ->]. rewrite lookup_insert_eq, Hrows. split; [|by eexists].
      destruct (_ || _); [by rewrite lookup_insert_eq|done].
  - intros id rt' Hid. destruct (IH3 id rt' Hid) as [Hr|(row & ? & ? & ?)].
    + apply lookup_insert_Some in Hr as [[<- <-]|[_ Hr]]; [|by left].
      right. exists r. split; [by left|done].
    + right. exists row. split; [by right|done].
Qed.

Lemma syncTx_spec rules c loc now (t : S) (o : O) rt t' o' :
  NoDup (Id <$> rules) ->
  syncTx rules c loc now (t, o) = (Ok rt, (t', o')) ->
  (forall row, row ∈ rules ->
     rows t' !! Id row = Some (syncedState c loc now row (rows t !! Id row))) /\
  (forall id, id ∉ (Id <$> rules) -> rows t' !! id = rows t !! id) /\
  (forall row, row ∈ rules -> exists r, RuntimeRules rt !! Id row = Some r) /\
  (forall id r, RuntimeRules rt !! id = Some r -> exists row, row ∈ rules /\ Id row = id /\
     buildPortForwardTrafficRuleRuntime row (syncedState c loc now row (rows t !! id)) loc now = Ok r).
Proof.
  intros Hnd. unfold syncTx.
  pose proof (all_rows t) as Har. pose proof (all_ok t) as Hao.
  destruct (tAll t) as [[l|] t1]; [|done]. simpl in Har, Hao. specialize (Hao l eq_refl).
  assert (Hm : list_to_map l = rows t).
  { rewrite <- (list_to_map_to_list (rows t)). apply list_to_map_proper; [|done].
    rewrite Hao. apply NoDup_fst_map_to_list. }
  rewrite Hm. destruct (tFind portForwardTrafficOverviewStateID o) as [[ov|] o1]; [|done].
  set (acc := foldl (syncRule c loc now) (mkAcc (rows t) 0 0 ∅ ∅) rules).
  destruct (syncRules_spec c loc now rules (mkAcc (rows t) 0 0 ∅ ∅) Hnd) as [Hout Hin].
  fold acc in Hout, Hin. simpl in Hout, Hin.
  destruct (writeRules acc loc now rules ∅ t1) as [[runtime|] t2] eqn:Hw; [|done].
  apply writeRules_spec in Hw as (Hw1 & Hw2 & Hw3). rewrite Har in Hw1, Hw2.
  destruct (match ov with Some _ => _ | None => _ end) as [[e|] o2]; [done|].
  intros [= <- <- <-]. simpl.
  assert (Hstate : forall row, row ∈ rules ->
    stateOf (a_states acc) (Id row) = syncedState c loc now row (rows t !! Id row)).
  { intros row Hr. unfold stateOf. destruct (Hin row Hr) as [-> _]. done. }
  split; [|split; [|split]].
  - intros row Hr. destruct (Hw2 row Hr) as [Ha _]. destruct (Hin row Hr) as [_ Hold].
    rewrite Hstate in Ha by done. destruct (rows t !! Id row) as [s|] eqn:Hs.
    + destruct Hold as [_ Hch]. destruct (flag (a_created acc) (Id row)); [done|]. cbn [orb] in Ha.
      destruct (flag (a_changed acc) (Id row)); [done|]. rewrite Ha. by rewrite (Hch eq_refl).
    + by rewrite Hold in Ha.
  - intros id Hid. by destruct (Hw1 id Hid).
  - intros row Hr. by destruct (Hw2 row Hr) as [_ ?].
  - intros id r Hr. destruct (Hw3 id r Hr) as [Hr'|(row & Hrow & Hid & Hb)];
      [by rewrite lookup_empty in Hr'|].
    exists row. split; [done|]. split; [done|]. subst id. by rewrite Hstate in Hb.
Qed.


Lemma syncedState_Normal c loc now row old :
  0 <= now -> (forall k v, c !! k = Some v -> v <= max_i64) ->
  Normal (syncedState c loc now row old).
Proof.
  intros Hnow Hc. unfold syncedState. apply reset_Normal; [done|].
  assert (Hcnt : forall d, 0 <= counter c (Id row) d <= max_i64).
  { intros d. split; [apply counter_nonneg|]. unfold counter, maxInt64.
    destruct (c !! portForwardCounterName (Id row) d) as [v|] eqn:Hv; simpl.
    - specialize (Hc _ _ Hv). unfold id, max_i64 in *; zcases; lia.
    - unfold max_i64. zcases; lia. }
  pose proof (Hcnt "up"). pose proof (Hcnt "down"). destruct old as [s|].
  - destruct (normalize_Normal s). set (s0 := (normalizePortForwardTrafficState s).1) in *. clearbody s0.
    assert (Hd : forall x y, 0 <= x <= max_i64 -> 0 <= y -> portForwardTrafficCounterDelta x y <= max_i64).
    { intros x y Hx Hy. unfold portForwardTrafficCounterDelta, max_i64 in *.
      destruct (Z.ltb_spec x 0); [lia|]. destruct (Z.ltb_spec y 0); [lia|].
      destruct (Z.leb_spec y x); [|lia]. i64. lia. }
    constructor; simpl; try done; try lia.
    split; apply addPF_nonneg; try lia; apply Hd; try lia.
  - by constructor; simpl; try lia.
Qed.

(** syncing twice against the same counters counts nothing twice: the
    second sync finds every row exactly as it would leave it. *)
Theorem sync_traffic_idempotent c loc now row old :
  0 <= now -> (forall k v, c !! k = Some v -> v <= max_i64) ->
  syncedState c loc now row (Some (syncedState c loc now row old)) = syncedState c loc now row old.
Proof.
  intros Hnow Hc. pose proof (syncedState_Normal c loc now row old Hnow Hc) as Hn.
  unfold syncedState at 1. rewrite (Normal_normalize _ Hn). simpl.
  rewrite advance_unchanged; [| done |].
  - unfold syncedState. by rewrite reset_idemp.
  - unfold syncedState. set (s1 := match old with Some _ => _ | None => _ end).
    assert (Hs1 : LastUpBytes s1 = counter c (Id row) "up" /\ LastDownBytes s1 = counter c (Id row) "down" /\
      OverviewLastUpBytes s1 = counter c (Id row) "up" /\ OverviewLastDownBytes s1 = counter c (Id row) "down")
      by (by unfold s1; destruct old).
    clearbody s1. destruct Hs1 as (H1 & H2 & H3 & H4).
    unfold counterChanged, applyPortForwardTrafficMonthlyReset, setPeriod.
    repeat (case_match; simpl; try (rewrite H1, H2, H3, H4, !Z.eqb_refl; done)).
Qed.

(** a rule is blocked exactly when it is due: for expiry from the first
    instant of the expiry date on; otherwise for quota once the bytes of
    both directions reach a positive limit, the saturating sum included. *)
Theorem block_reason_exact row s loc now r y m d :
  Normal s -> UsedUpBytes s <= max_i64 -> UsedDownBytes s <= max_i64 ->
  TrafficLimitBytes row <= max_i64 ->
  (TrafficExpiryDate row = "" \/
   0 <= y <= 9999 /\ 1 <= m <= 12 /\ 1 <= d <= monthLength (12 * y + (m - 1)) /\
   TrafficExpiryDate row = formatDate y m d) ->
  buildPortForwardTrafficRuleRuntime row s loc now = Ok r ->
  let expired := TrafficExpiryDate row <> "" /\ midnight loc (dateDay y m d) <= now in
  let full := 0 < TrafficLimitBytes row <= UsedUpBytes s + UsedDownBytes s in
  (BlockReason r = Some BlockExpiry <-> expired) /\
  (BlockReason r = Some BlockQuota <-> ~ expired /\ full) /\
  (BlockReason r = None <-> ~ expired /\ ~ full).
Proof.
  intros [_ [] _ _ _ _] Hup Hdown Hlim Hdate. unfold buildPortForwardTrafficRuleRuntime.
  assert (Hmax : forall x, 0 <= x -> maxInt64 x 0 = x) by (intros; unfold maxInt64; zcases; lia).
  rewrite !Hmax by lia. rewrite add_spec by lia.
  set (full := (0 <? maxInt64 (TrafficLimitBytes row) 0) && _).
  assert (Hfull : full = true <-> 0 < TrafficLimitBytes row <= UsedUpBytes s + UsedDownBytes s).
  { unfold full, maxInt64. rewrite andb_true_iff, Z.ltb_lt, Z.leb_le. zcases; lia. }
  clearbody full.
  assert (exists n b, parseTrafficOverviewExpiryDate (TrafficExpiryDate row) loc = Ok (n, b) /\
    (isTrafficOverviewExpired b now = true <->
     TrafficExpiryDate row <> "" /\ midnight loc (dateDay y m d) <= now)) as (n & b & -> & Hexp).
  { destruct Hdate as [->|(Hy & Hm & Hd & ->)].
    - exists "", None. split; [done|]. split; [done|by intros [[] _]].
    - pose proof (monthLength_bounds (12 * y + (m - 1))).
      exists (formatDate y m d), (Some (midnight loc (dateDay y m d))). split.
      + unfold parseTrafficOverviewExpiryDate, normalizeTrafficOverviewExpiryDate.
        rewrite trim_space_plain by (apply format_plain; lia).
        rewrite decide_False by done. rewrite parse_format by done.
        rewrite decide_False by done. by rewrite parse_format.
      + simpl. rewrite negb_true_iff, Z.ltb_ge. split; [done|by intros [_ ?]]. }
  intros [= <-]. cbv zeta. cbn [BlockReason].
  destruct (isTrafficOverviewExpired b now); [|destruct full]; rewrite <- Hexp, <- Hfull;
    repeat split; try done; intros; naive_solver.
Qed.

(** the monthly reset of a rule's usage happens at the calendar boundary
    and only there: enabling a reset day or moving it keeps the usage; a
    state of the period of [now0] is left alone until the next boundary and
    from then on loses its usage, once, with the time noted. *)
Theorem monthly_usage_reset s resetDay loc now0 now prev next :
  let d := normalizeResetDay resetDay in
  0 < resetDay -> now0 <= now <= max_i64 ->
  latestClientMonthlyResetBoundary d loc now0 = Some prev -> 0 <= prev ->
  nextClientMonthlyResetBoundary d loc now0 = Some next ->
  let s' := (applyPortForwardTrafficMonthlyReset s resetDay loc now).1 in
  (AppliedResetDay s <> d -> UsedUpBytes s' = UsedUpBytes s /\ UsedDownBytes s' = UsedDownBytes s) /\
  (AppliedResetDay s = d -> ResetPeriodTag s = computePeriodTag d loc now0 ->
     (now < next -> s' = s) /\
     (next <= now -> UsedUpBytes s' = 0 /\ UsedDownBytes s' = 0 /\ LastResetAt s' = now /\
                     ResetPeriodTag s' = computePeriodTag d loc now)).
Proof.
  cbv zeta. intros Hr Hle Hl Hpos Hn. unfold applyPortForwardTrafficMonthlyReset.
  assert (0 < normalizeResetDay resetDay) as Hd by (unfold normalizeResetDay; zcases; lia).
  destruct (Z.leb_spec (normalizeResetDay resetDay) 0); [lia|].
  pose proof (period_tag_changes_at_boundary _ loc now0 now prev next Hd Hle Hl Hpos Hn) as Htag.
  destruct (tag_plain _ loc now0 Hd) as [Hne _]. split.
  - intros Ha. destruct (Z.eqb_spec (AppliedResetDay s) (normalizeResetDay resetDay)); [done|]. done.
  - intros Ha Ht. rewrite Ha, Z.eqb_refl. cbn [negb]. rewrite Ht, decide_False by done. split.
    + intros Hlt. by rewrite decide_True by (symmetry; by apply Htag).
    + intros Hge. rewrite decide_False; [repeat split|].
      intros He. symmetry in He. apply Htag in He. apply (Z.lt_irrefl now). exact (Z.lt_le_trans _ _ _ He Hge).
Qed.

Lemma capture_spec rules env loc now (t : S) (o : O) rt d' :
  NoDup (Id <$> rules) ->
  capturePortForwardTrafficLocked rules env loc now (Some (t, o)) = (Ok rt, d') ->
  exists c t' o', d' = Some (t', o') /\
  (forall row, row ∈ rules -> rows t' !! Id row = Some (syncedState c loc now row (rows t !! Id row))) /\
  (forall id, id ∉ (Id <$> rules) -> rows t' !! id = rows t !! id).
Proof.
  intros Hnd. unfold capturePortForwardTrafficLocked.
  assert (Hsync : forall c, syncPortForwardTrafficStateRows rules c loc now (env_commit env) (Some (t, o)) =
    (Ok rt, d') -> exists c t' o', d' = Some (t', o') /\
    (forall row, row ∈ rules -> rows t' !! Id row = Some (syncedState c loc now row (rows t !! Id row))) /\
    (forall id, id ∉ (Id <$> rules) -> rows t' !! id = rows t !! id)).
  { intros c. unfold syncPortForwardTrafficStateRows, transaction.
    destruct (syncTx rules c loc now (t, o)) as [[rt'|e] [t' o']] eqn:Hs; [|done].
    destruct (env_commit env); [|done]. intros [= -> <-].
    apply syncTx_spec in Hs as (? & ? & _ & _); [|done]. by exists c, t', o'. }
  destruct (negb (env_supported env)); [by apply Hsync|].
  destruct (env_snapshot env) as [c|]; [by apply Hsync|done].
Qed.

Lemma findRule_spec id rules row : findRule id rules = Some row -> row ∈ rules /\ Id row = id.
Proof.
  unfold findRule. destruct (list_find _ rules) as [[i r]|] eqn:Hf; [|done]. simpl. intros [= <-].
  apply list_find_Some in Hf as (Hi & Hid & _). split; [by eapply list_elem_of_lookup_2|done].
Qed.

(** A sync never reports a failed render. *)
Lemma write_no_render acc loc now rules : forall result (t : S) notes t',
  writeRules acc loc now rules result t <> (Err (TErrRender notes), t').
Proof.
  induction rules as [|r rules IH]; intros result t notes t'; cbn [writeRules]; [done|].
  destruct (if flag _ _ then _ else _) as [[x|] t1]; [done|].
  unfold buildPortForwardTrafficRuleRuntime.
  destruct (parseTrafficOverviewExpiryDate _ _) as [[]|]; [apply IH|done].
Qed.

Lemma sync_no_render rules c loc now (t : S) (o : O) notes d :
  syncTx rules c loc now (t, o) = (Err (TErrRender notes), d) -> False.
Proof.
  unfold syncTx. destruct (tAll t) as [[l|] t1]; [|done].
  destruct (tFind _ o) as [[ov|] o1]; [|done].
  set (acc := foldl _ _ _).
  destruct (writeRules acc loc now rules ∅ t1) as [[rt|x] t2] eqn:Hw.
  - by destruct (match ov with Some _ => _ | None => _ end) as [[?|] ?].
  - intros [= -> _]. by apply write_no_render in Hw.
Qed.

(** resetting a rule's traffic first captures the counters of all rules,
    then zeroes only that rule: on success its usage is zero with both
    cursors on the counters, and the other rules are as the capture left
    them.  When the render fails and the old row is restored, every row is
    as the capture left it. *)
Theorem reset_rule_traffic_exact id env loc now (t : S) (o : O) rules e d' :
  env_rules env = Ok rules -> NoDup (Id <$> rules) ->
  ResetRuleTraffic id env loc now (Some (t, o)) = (e, d') ->
  (e = None \/ exists notes, e = Some (TErrRender ("restored previous traffic state" :: notes))) ->
  exists c rule t' o', d' = Some (t', o') /\ rule ∈ rules /\ Id rule = id /\
    (forall row, row ∈ rules -> Id row <> id ->
       rows t' !! Id row = Some (syncedState c loc now row (rows t !! Id row))) /\
    (e = None -> rows t' !! id = Some (resetState (capturedCounters env) rule loc now)) /\
    (e <> None -> rows t' !! id = Some (syncedState c loc now rule (rows t !! id))).
Proof.
  intros Henv Hnd. unfold ResetRuleTraffic. rewrite Henv.
  destruct (findRule id rules) as [rule|] eqn:Hf; [|intros [= <- <-] [?|[? ?]]; done].
  apply findRule_spec in Hf as [Hin Hid].
  destruct (capturePortForwardTrafficLocked rules env loc now (Some (t, o))) as [[rt|x] d1] eqn:Hc.
  2:{ intros [= <- <-] [?|[notes Hx]]; [done|]. injection Hx as ->. exfalso.
      revert Hc. unfold capturePortForwardTrafficLocked, syncPortForwardTrafficStateRows, transaction.
      repeat case_match; intros; simplify_eq; eapply sync_no_render; eauto. }
  apply capture_spec in Hc as (c & t1 & o1 & -> & Hrows & _); [|done].
  pose proof (find_rows id t1) as Hfr. pose proof (find_ok id t1) as Hfo.
  destruct (tFind id t1) as [[previous|] t2]; simpl in Hfr, Hfo;
    [|intros [= <- <-] [?|[? ?]]; done].
  pose proof (Hrows rule Hin) as Hrow. rewrite Hid in Hrow.
  rewrite <- (Hfo _ eq_refl) in Hrow. subst previous.
  set (state := resetState (capturedCounters env) rule loc now). unfold transaction.
  pose proof (save_ok id state t2) as Hsave.
  destruct (tSave id state t2) as [[x|] t3]; simpl in Hsave; [intros [= <- <-] [?|[? ?]]; done|].
  destruct (env_commit env); [|intros [= <- <-] [?|[? ?]]; done].
  specialize (Hsave eq_refl). destruct (env_render env).
  - intros [= <- <-] _. exists c, rule, t3, o1. split; [done|]. split; [done|]. split; [done|].
    split; [|split; [|done]].
    + intros row Hr Hne. rewrite Hsave, lookup_insert_ne, Hfr by done. by apply Hrows.
    + intros _. by rewrite Hsave, lookup_insert_eq.
  - unfold restoreState. set (old := syncedState c loc now rule (rows t !! id)).
    pose proof (save_ok id old t3) as Hback.
    destruct (tSave id old t3) as [[x|] t4]; simpl in Hback; intros [= <- <-] [?|[notes Hx]]; try done.
    specialize (Hback eq_refl). exists c, rule, t4, o1. split; [done|]. split; [done|]. split; [done|].
    split; [|split; [done|]].
    + intros row Hr Hne. rewrite Hback, Hsave, !lookup_insert_ne, Hfr by done. by apply Hrows.
    + intros _. by rewrite Hback, lookup_insert_eq.
Qed.
End Sync.

(** ** Witnesses: one rule, some counters, a table in memory *)

Definition demoRule : PortForwardRule := mkRule 5 true 1000 31 "2024-02-29".
Definition demoCounters : gmap string Z :=
  {["kwor_pf_counter_5_up" := 700; "kwor_pf_counter_5_down" := 400]}.
Definition demoRow : PortForwardRuleTrafficState := mkState 100 900 500 600 100 900 0 "" 0.
Definition demoTables : memTable Z PortForwardRuleTrafficState * memTable Z PortForwardOverviewTrafficState :=
  (mkMem {[5 := demoRow]} [], mkMem ∅ []).
Definition demoNow : Z := 1709164800.
Definition demoEnv : surroundings :=
  mkEnv (Ok [demoRule]) true (Ok demoCounters) None true true true.

Lemma demoCounters_range k v : demoCounters !! k = Some v -> v <= max_i64.
Proof.
  unfold demoCounters, max_i64.
  intros [[_ <-]|[_ [_ <-]%lookup_singleton_Some]]%lookup_insert_Some; lia.
Qed.

Lemma demoRules_NoDup : NoDup (Id <$> [demoRule]).
Proof. simpl. apply NoDup_singleton. Qed.

Lemma usage_never_overcounts_witness :
  let m := meterRun [BytesPass 10; SyncRuns; CounterRecreated; BytesPass 4; SyncRuns] in
  0 <= total m <= passed m /\ total m = 14.
Proof.
  split; [|reflexivity].
  apply (usage_never_overcounts [BytesPass 10; SyncRuns; CounterRecreated; BytesPass 4; SyncRuns]).
  - repeat constructor; simpl; lia.
  - vm_compute. discriminate.
Defined.


Lemma sync_traffic_idempotent_witness :
  syncedState demoCounters UTC demoNow demoRule
    (Some (syncedState demoCounters UTC demoNow demoRule (Some demoRow))) =
  syncedState demoCounters UTC demoNow demoRule (Some demoRow).
Proof.
  apply (sync_traffic_idempotent demoCounters UTC demoNow demoRule (Some demoRow)).
  - unfold demoNow. lia.
  - apply demoCounters_range.
Defined.

Definition demoQuota : PortForwardRule := mkRule 6 true 1000 0 "".

Lemma block_reason_exact_witness :
  exists r, buildPortForwardTrafficRuleRuntime demoQuota demoRow UTC demoNow = Ok r /\
    (BlockReason r = Some BlockQuota <-> ~ ("" <> "" /\ midnight UTC (dateDay 0 1 1) <= demoNow) /\
                                         0 < 1000 <= 500 + 600).
Proof.
  destruct (buildPortForwardTrafficRuleRuntime demoQuota demoRow UTC demoNow) as [r|e] eqn:E;
    [|vm_compute in E; discriminate].
  exists r. split; [reflexivity|].
  destruct (block_reason_exact demoQuota demoRow UTC demoNow r 0 1 1) as (_ & H & _).
  - constructor; simpl; lia || reflexivity.
  - simpl. unfold max_i64. lia.
  - simpl. unfold max_i64. lia.
  - simpl. unfold max_i64. lia.
  - left. reflexivity.
  - exact E.
  - exact H.
Defined.

Lemma monthly_usage_reset_witness :
  let s := setPeriod 31 (computePeriodTag 31 UTC demoNow) demoRow in
  UsedUpBytes (applyPortForwardTrafficMonthlyReset s 31 UTC 1711843200).1 = 0.
Proof.
  destruct (monthly_usage_reset (setPeriod 31 (computePeriodTag 31 UTC demoNow) demoRow) 31 UTC demoNow
    1711843200 1709164800 1711843200) as [_ H].
  - lia.
  - unfold demoNow, max_i64. lia.
  - vm_compute. reflexivity.
  - lia.
  - vm_compute. reflexivity.
  - apply (H eq_refl eq_refl). lia.
Defined.

Lemma reset_rule_traffic_exact_witness :
  exists t' o', (ResetRuleTraffic 5 demoEnv UTC demoNow (Some demoTables)).2 = Some (t', o') /\
    rows t' !! 5 = Some (resetState demoCounters demoRule UTC demoNow).
Proof.
  destruct (ResetRuleTraffic 5 demoEnv UTC demoNow (Some demoTables)) as [e d'] eqn:E.
  assert (e = None) as He by (vm_compute in E; injection E as <- _; reflexivity).
  destruct (reset_rule_traffic_exact 5 demoEnv UTC demoNow (mkMem {[5 := demoRow]} []) (mkMem ∅ [])
    [demoRule] e d' eq_refl demoRules_NoDup E (or_introl He))
    as (c & rule & t' & o' & Hd & Hin & Hid & _ & Hr & _).
  exists t', o'. split; [exact Hd|]. rewrite (Hr He).
  rewrite list_elem_of_singleton in Hin. rewrite Hin. reflexivity.
Defined.
