(* ===== verification/Stats.v ===== *)
(** * Traffic samples and the history query
    ([service/stats_storage.go], the pure part of
    [service/traffic_runtime_journal.go])

    A sample is a number of bytes that one entity moved in one direction at
    one time.  Samples are normalised into minute buckets and merged in maps
    keyed by a formatted string; a history query merges the rows of the
    [stats] table with the samples that are still in memory.  Go maps are
    [gmap]s on the formatted keys of the code; [time.Now] is the argument
    [now].  The [stats] table is a finite map from its unique index
    (time, resource, tag, direction) to the traffic; the row ids are not read
    by any statement. *)

From S2P Require Import Prelude GoStrings.
From stdpp Require Import base gmap list strings sorting.
From Stdlib Require Import Ascii ZArith Lia.

#[local] Open Scope Z_scope.
#[local] Open Scope go_scope.

(** ** Data *)

Record Stats : Type := mkStats {
  Id : Z;
  DateTime : Z;
  Resource : string;
  Tag : string;
  Direction : bool;
  Traffic : Z }.

#[global] Instance Stats_eq_dec : EqDecision Stats.
Proof. solve_decision. Defined.

(** The columns of [idx_stats_bucket_unique]. *)
Abbreviation bucket := (Z * string * string * bool)%type.
Abbreviation statsTable := (gmap bucket Z).

Definition bucketOf (s : Stats) : bucket := (DateTime s, Resource s, Tag s, Direction s).

Definition setTraffic (t : Z) (s : Stats) : Stats :=
  mkStats (Id s) (DateTime s) (Resource s) (Tag s) (Direction s) t.

Definition statsBucketSeconds : Z := 60.

(** ** Normalisation *)

Definition statsBucketStart (now unixSec : Z) : Z :=
  let unixSec := if unixSec <=? 0 then now else unixSec in
  Z.quot unixSec statsBucketSeconds * statsBucketSeconds.

Definition normalizeStatsResource (resource : string) : string :=
  let lower := to_lower (trim_space resource) in
  if String.eqb lower "user" then "client"
  else if String.eqb lower "mihomo_user" then "mihomo_client"
  else trim_space resource.

(** The guard and the normalisation shared by [addTrafficRuntimePendingStat],
    [upsertStatsTraffic] and [upsertStatsTrafficBatch]. *)
Definition acceptSample (now : Z) (sample : Stats) : option Stats :=
  let resource := normalizeStatsResource (Resource sample) in
  let tag := trim_space (Tag sample) in
  if String.eqb resource "" || String.eqb tag "" || (Traffic sample <=? 0) then None
  else Some (mkStats (Id sample) (statsBucketStart now (DateTime sample))
                     resource tag (Direction sample) (Traffic sample)).

Definition nul : ascii := ascii_of_nat 0.
Definition sepNul (s : string) : string := String nul s.

(** The [%t] verb. *)
Definition formatBool (b : bool) : string := if b then "true" else "false".

Definition trafficRuntimeJournalSampleKey (s : Stats) : string :=
  itoa (DateTime s) +:+ sepNul (Resource s +:+ sepNul (Tag s +:+ sepNul (formatBool (Direction s)))).

(** The map is never nil where the code calls this function. *)
Definition addTrafficRuntimePendingStat (now : Z) (pending : gmap string Stats) (sample : Stats)
  : bool * gmap string Stats :=
  match acceptSample now sample with
  | None => (false, pending)
  | Some sample =>
      let key := trafficRuntimeJournalSampleKey sample in
      match pending !! key with
      | Some current =>
          (true, <[key := setTraffic (Traffic current +! Traffic sample) current]> pending)
      | None => (true, <[key := sample]> pending)
      end
  end.

(** ** Sorting

    Go's [<] on strings compares bytes; [sort.Slice] is not stable, but the
    samples of one map are distinct under the comparison. *)

Definition byteLtb (a b : string) : bool :=
  match String.compare a b with Lt => true | _ => false end.

Definition sampleLess (x y : Stats) : bool :=
  if negb (DateTime x =? DateTime y) then DateTime x <? DateTime y
  else if negb (String.eqb (Resource x) (Resource y)) then byteLtb (Resource x) (Resource y)
  else if negb (String.eqb (Tag x) (Tag y)) then byteLtb (Tag x) (Tag y)
  else negb (Direction x) && Direction y.

Definition timelineLess (x y : Stats) : bool :=
  if negb (DateTime x =? DateTime y) then DateTime x <? DateTime y
  else negb (Direction x) && Direction y.

(** [sort.Slice(l, less)]: [x] may precede [y] when not [less y x]. *)
Definition sortSlice (less : Stats -> Stats -> bool) (l : list Stats) : list Stats :=
  merge_sort (fun x y => Is_true (negb (less y x))) l.

Definition sortedTrafficRuntimePendingStats (pending : gmap string Stats) : list Stats :=
  sortSlice sampleLess (snd <$> map_to_list pending).

Definition sortedPendingTrafficStats (samples : gmap string Stats) : list Stats :=
  sortSlice timelineLess (snd <$> map_to_list samples).

Definition addAll (now : Z) (pending : gmap string Stats) (samples : list Stats) : gmap string Stats :=
  foldl (fun p s => snd (addTrafficRuntimePendingStat now p s)) pending samples.

Definition compactTrafficRuntimeSamples (now : Z) (samples : list Stats) : list Stats :=
  sortedTrafficRuntimePendingStats (addAll now ∅ samples).

(** ** The upsert of one row

    [INSERT ... ON CONFLICT DO UPDATE SET traffic = traffic + excluded.traffic].
    SQLite adds 64-bit integers exactly below 2^63. *)
Definition upsertRow (t : statsTable) (s : Stats) : statsTable :=
  <[bucketOf s := default 0 (t !! bucketOf s) + Traffic s]> t.

(** ** The history query *)

Definition statsQueryResources (resource : string) : list string :=
  let lower := to_lower (trim_space resource) in
  if String.eqb lower "endpoint" then ["inbound"; "outbound"]
  else if String.eqb lower "client" then ["client"; "user"]
  else if String.eqb lower "mihomo_client" then ["mihomo_client"; "mihomo_user"]
  else [trim_space resource].

Definition statsQueryBucketSeconds (limitHours : Z) : Z :=
  if limitHours <=? 6 then 60
  else if limitHours <=? 24 then 300
  else if limitHours <=? 72 then 900
  else if limitHours <=? 240 then 1800
  else if limitHours <=? 720 then 10800
  else 21600.

Definition floorTo (bucketSeconds t : Z) : Z := Z.quot t bucketSeconds * bucketSeconds.

(** The key [fmt.Sprintf("%d\x00%t", DateTime, Direction)]. *)
Definition timelineKey (s : Stats) : string :=
  itoa (DateTime s) +:+ sepNul (formatBool (Direction s)).

(** The insertion loop body shared by the merging functions. *)
Definition mergeSample (m : gmap string Stats) (s : Stats) : gmap string Stats :=
  let key := timelineKey s in
  match m !! key with
  | Some current => <[key := setTraffic (Traffic current +! Traffic s) current]> m
  | None => <[key := s]> m
  end.

Definition allowedResources (resource : string) : list string :=
  normalizeStatsResource <$> statsQueryResources resource.

Definition sampleMatches (resource tag : string) (startUnix : Z) (s : Stats) : bool :=
  bool_decide (normalizeStatsResource (Resource s) ∈ allowedResources resource) &&
  String.eqb (Tag s) tag && negb (DateTime s <? startUnix).

Definition toTimeline (resource : string) (bucketSeconds : Z) (s : Stats) : Stats :=
  mkStats (Id s) (floorTo bucketSeconds (DateTime s)) resource (Tag s) (Direction s) (Traffic s).

Definition combineMatching (resource tag : string) (startUnix bucketSeconds : Z)
  (samples : list Stats) : gmap string Stats :=
  foldl mergeSample ∅
    (toTimeline resource bucketSeconds <$>
       filter (fun s => sampleMatches resource tag startUnix s = true) samples).

(** [pending] is iterated in map order. *)
Definition snapshotPendingForQuery (pending : gmap string Stats) (resource tag : string)
  (startUnix bucketSeconds : Z) : list Stats :=
  let resource := normalizeStatsResource resource in
  let tag := trim_space tag in
  if String.eqb resource "" || String.eqb tag "" || (bucketSeconds <=? 0) then []
  else sortedPendingTrafficStats
         (combineMatching resource tag startUnix bucketSeconds (snd <$> map_to_list pending)).

Definition pendingTrafficRuntimeStatsFromSamples (samples : list Stats) (resource tag : string)
  (startUnix bucketSeconds : Z) : list Stats :=
  let resource := normalizeStatsResource resource in
  let tag := trim_space tag in
  if String.eqb resource "" || String.eqb tag "" then []
  else sortedPendingTrafficStats (combineMatching resource tag startUnix bucketSeconds samples).

Definition mergePendingTrafficRuntimeStatsWithSamples (rows pendingSamples : list Stats)
  (resource tag : string) (startUnix bucketSeconds : Z) : list Stats :=
  let pending := pendingTrafficRuntimeStatsFromSamples pendingSamples resource tag startUnix bucketSeconds in
  match pending with
  | [] => rows
  | _ =>
      let merged := foldl (fun m row => <[timelineKey row := row]> m) ∅ rows in
      let merged := foldl mergeSample merged pending in
      sortSlice timelineLess (snd <$> map_to_list merged)
  end.

(** The [SELECT] of [queryStatsHistory]: rows of the requested resources, one
    tag, from [startUnix] on, summed per (bucket, direction) and ordered. *)
Definition selectMatches (resources : list string) (tag : string) (startUnix : Z) (b : bucket) : bool :=
  let '(dt, res, tg, _) := b in
  bool_decide (res ∈ resources) && String.eqb tg tag && (startUnix <=? dt).

Definition selectGroup (bucketSeconds : Z) (m : gmap (Z * bool) Z) (row : bucket * Z) : gmap (Z * bool) Z :=
  let '((dt, _, _, dir), traffic) := row in
  let g := (floorTo bucketSeconds dt, dir) in
  <[g := default 0 (m !! g) + traffic]> m.

Definition selectHistory (t : statsTable) (resource tag : string) (resources : list string)
  (startUnix bucketSeconds : Z) : list Stats :=
  let groups := foldl (selectGroup bucketSeconds) ∅
      (filter (fun row : bucket * Z => selectMatches resources tag startUnix (fst row) = true)
              (map_to_list t)) in
  sortSlice timelineLess
    ((fun g : (Z * bool) * Z => mkStats 0 (fst (fst g)) resource tag (snd (fst g)) (snd g))
       <$> map_to_list groups).

Definition hour : Z := 3600 * 1000000000.

(** [queryStatsHistory] once the storage is ready, with the SQLite read and
    the snapshot under the journal lock; [nowNano] is the clock in
    nanoseconds, and the [time.Duration] product wraps. *)
Definition queryStatsHistoryAt (nowNano : Z) (t : statsTable) (pending : gmap string Stats)
  (resource tag : string) (limitHours : Z) : list Stats :=
  let resource := trim_space resource in
  let tag := trim_space tag in
  if String.eqb resource "" || String.eqb tag "" then []
  else
    let limitHours := if limitHours <=? 0 then 1 else limitHours in
    let startUnix := (nowNano + wrap64 (wrap64 (- limitHours) * hour)) / 1000000000 in
    let bucketSeconds := statsQueryBucketSeconds limitHours in
    let rows := selectHistory t resource tag (statsQueryResources resource) startUnix bucketSeconds in
    let snapshot := snapshotPendingForQuery pending resource tag startUnix bucketSeconds in
    mergePendingTrafficRuntimeStatsWithSamples rows snapshot resource tag startUnix bucketSeconds.

(** ** Facts: normal forms and keys *)

Definition nulFree (s : string) : Prop := containsByte nul s = false.

(** [utf8.ValidString]: JSON carries such strings unchanged. *)
Definition byteIn (lo hi : nat) (c : ascii) : bool :=
  ((lo <=? nat_of_ascii c) && (nat_of_ascii c <=? hi))%nat.

Fixpoint validUtf8 (s : string) : bool :=
  match s with
  | EmptyString => true
  | String a s1 =>
      if byteIn 0 127 a then validUtf8 s1
      else match s1 with
      | EmptyString => false
      | String b s2 =>
          if byteIn 194 223 a && byteIn 128 191 b then validUtf8 s2
          else match s2 with
          | EmptyString => false
          | String c s3 =>
              if ((byteIn 224 224 a && byteIn 160 191 b) || (byteIn 225 236 a && byteIn 128 191 b) ||
                  (byteIn 237 237 a && byteIn 128 159 b) || (byteIn 238 239 a && byteIn 128 191 b)) &&
                 byteIn 128 191 c then validUtf8 s3
              else match s3 with
              | EmptyString => false
              | String d s4 =>
                  if ((byteIn 240 240 a && byteIn 144 191 b) || (byteIn 241 243 a && byteIn 128 191 b) ||
                      (byteIn 244 244 a && byteIn 128 143 b)) &&
                     byteIn 128 191 c && byteIn 128 191 d then validUtf8 s4
                  else false
              end
          end
      end
  end.

(** The names of a sample after normalisation are valid UTF-8. *)
Definition textOk (s : Stats) : Prop :=
  validUtf8 (normalizeStatsResource (Resource s)) = true /\ validUtf8 (trim_space (Tag s)) = true.

(** A sample the runtime produces: a clock value that is missing or past the
    first minute of the epoch, and names in UTF-8 without a NUL byte. *)
Definition sampleOk (s : Stats) : Prop :=
  (DateTime s <= 0 \/ 60 <= DateTime s <= max_i64) /\
  nulFree (Resource s) /\ nulFree (Tag s) /\ Traffic s <= max_i64 /\ textOk s.

Definition clockOk (now : Z) : Prop := 60 <= now <= max_i64.

(** The normal form of a sample. *)
Definition canonical (s : Stats) : Prop :=
  acceptSample 60 s = Some s /\ 0 < DateTime s <= max_i64 /\
  nulFree (Resource s) /\ nulFree (Tag s) /\ 0 < Traffic s <= max_i64 /\ textOk s.

Lemma normalizeStatsResource_idemp r :
  normalizeStatsResource (normalizeStatsResource r) = normalizeStatsResource r.
Proof.
  unfold normalizeStatsResource.
  destruct (String.eqb (to_lower (trim_space r)) "user") eqn:E1; [vm_compute; done|].
  destruct (String.eqb (to_lower (trim_space r)) "mihomo_user") eqn:E2; [vm_compute; done|].
  by rewrite trim_space_idemp, E1, E2.
Qed.

Lemma normalizeStatsResource_nulFree r : nulFree r -> nulFree (normalizeStatsResource r).
Proof.
  unfold nulFree, normalizeStatsResource. intros Hr.
  repeat case_match; [vm_compute; done..|by apply trim_space_contains].
Qed.

Lemma statsBucketStart_range now t :
  clockOk now -> (t <= 0 \/ 60 <= t <= max_i64) ->
  0 < statsBucketStart now t <= max_i64.
Proof.
  unfold clockOk, statsBucketStart, statsBucketSeconds. intros Hn Ht.
  set (u := if t <=? 0 then now else t).
  assert (60 <= u <= max_i64) by (unfold u; zcases; lia).
  rewrite Z.quot_div_nonneg by lia. pose proof (Z.div_mod u 60 ltac:(lia)).
  pose proof (Z.mod_pos_bound u 60 ltac:(lia)). lia.
Qed.

Lemma statsBucketStart_idemp now now' t :
  clockOk now -> (t <= 0 \/ 60 <= t <= max_i64) ->
  statsBucketStart now' (statsBucketStart now t) = statsBucketStart now t.
Proof.
  intros Hn Ht. pose proof (statsBucketStart_range now t Hn Ht) as Hr.
  unfold statsBucketStart at 1. destruct (Z.leb_spec (statsBucketStart now t) 0); [lia|].
  unfold statsBucketStart, statsBucketSeconds in *. by rewrite Z.quot_mul.
Qed.

Lemma acceptSample_canonical now s s' :
  clockOk now -> sampleOk s -> acceptSample now s = Some s' ->
  canonical s' /\ forall now', acceptSample now' s' = Some s'.
Proof.
  intros Hn (Ht & Hr & Hg & Htr & Hx). unfold acceptSample at 1.
  destruct (String.eqb_spec (normalizeStatsResource (Resource s)) ""); [done|].
  destruct (String.eqb_spec (trim_space (Tag s)) ""); [done|].
  destruct (Z.leb_spec (Traffic s) 0) as [|Hpos]; [done|]. intros [= <-].
  assert (forall now', acceptSample now'
    (mkStats (Id s) (statsBucketStart now (DateTime s)) (normalizeStatsResource (Resource s))
             (trim_space (Tag s)) (Direction s) (Traffic s)) =
    Some (mkStats (Id s) (statsBucketStart now (DateTime s)) (normalizeStatsResource (Resource s))
             (trim_space (Tag s)) (Direction s) (Traffic s))) as Hacc.
  { intros now'. unfold acceptSample. cbn [Id DateTime Resource Tag Direction Traffic].
    rewrite normalizeStatsResource_idemp, trim_space_idemp.
    rewrite (proj2 (String.eqb_neq _ _)), (proj2 (String.eqb_neq _ _)) by done.
    rewrite (proj2 (Z.leb_gt _ _)) by done. simpl. by rewrite statsBucketStart_idemp. }
  split; [|done]. split; [apply Hacc|].
  cbn [Id DateTime Resource Tag Direction Traffic].
  split; [by apply statsBucketStart_range|].
  split; [by apply normalizeStatsResource_nulFree|].
  split; [by apply trim_space_contains|]. split; [lia|].
  unfold textOk in *. cbn [Resource Tag]. by rewrite normalizeStatsResource_idemp, trim_space_idemp.
Qed.

Lemma canonical_accept now s : canonical s -> acceptSample now s = Some s.
Proof.
  intros (Hacc & Hd & _). revert Hacc. unfold acceptSample.
  case_match; [done|]. intros Heq. rewrite <- Heq. f_equal. f_equal.
  unfold statsBucketStart. destruct (Z.leb_spec (DateTime s) 0); [lia|done].
Qed.

Lemma canonical_sampleOk s : canonical s -> sampleOk s.
Proof.
  intros (Hacc & Hd & Hr & Hg & Ht & Hx). split; [|split_and!; [done..|lia|done]].
  right. revert Hacc. unfold acceptSample. case_match; [done|]. intros Heq.
  apply (inj Some), (f_equal DateTime) in Heq. cbn [DateTime] in Heq. revert Heq. unfold statsBucketStart, statsBucketSeconds.
  destruct (Z.leb_spec (DateTime s) 0); [lia|]. intros Hs.
  destruct (Z.eq_dec (Z.quot (DateTime s) 60) 0) as [Hz|]; [lia|].
  rewrite Z.quot_div_nonneg in * by lia.
  pose proof (Z.div_pos (DateTime s) 60 ltac:(lia) ltac:(lia)). lia.
Qed.

Lemma formatBool_inj a b : formatBool a = formatBool b -> a = b.
Proof. by destruct a, b. Qed.

Lemma split_nul_inj a b x y :
  nulFree a -> nulFree b -> a +:+ sepNul x = b +:+ sepNul y -> a = b /\ x = y.
Proof.
  intros Ha Hb Heq.
  pose proof (split_first_app nul a x Ha) as H1.
  pose proof (split_first_app nul b y Hb) as H2.
  unfold sepNul in Heq. rewrite Heq, H2 in H1. by simplify_eq.
Qed.

Lemma itoa_nulFree z : 0 <= z -> nulFree (itoa z).
Proof.
  intros Hz. apply (allc_not_contains is_digit); [vm_compute; done|by apply itoa_all_digits].
Qed.

(** On normal forms the formatted key determines the bucket. *)
Lemma sampleKey_inj a b :
  canonical a -> canonical b ->
  trafficRuntimeJournalSampleKey a = trafficRuntimeJournalSampleKey b -> bucketOf a = bucketOf b.
Proof.
  intros (_ & Hda & Hra & Hga & _) (_ & Hdb & Hrb & Hgb & _) H.
  unfold trafficRuntimeJournalSampleKey in H.
  apply split_nul_inj in H as [Hd H]; [|apply itoa_nulFree; lia..].
  apply split_nul_inj in H as [Hr H]; [|done..].
  apply split_nul_inj in H as [Hg H]; [|done..].
  apply itoa_inj in Hd; [|lia..]. apply formatBool_inj in H.
  unfold bucketOf. congruence.
Qed.

(** ** Facts: totals

    A weight [g] on buckets gives a total of a list of samples, of a pending
    map and of the table; the weight that is 1 on one bucket and 0 elsewhere
    gives the traffic of that bucket. *)

Definition weigh (g : bucket -> Z) (s : Stats) : Z := g (bucketOf s) * Traffic s.
Definition wsum (g : bucket -> Z) (l : list Stats) : Z := zsum (weigh g <$> l).
Definition psum (g : bucket -> Z) (p : gmap string Stats) : Z := msum (weigh g) p.
Definition tsum (g : bucket -> Z) (t : statsTable) : Z := ksum (fun b v => g b * v) t.

Definition one : bucket -> Z := fun _ => 1.
Definition only (b : bucket) : bucket -> Z := fun b' => if decide (b' = b) then 1 else 0.

Definition accepted (now : Z) (samples : list Stats) : list Stats := omap (acceptSample now) samples.

Lemma wsum_cons g s l : wsum g (s :: l) = weigh g s + wsum g l.
Proof. done. Qed.

Lemma wsum_app g l k : wsum g (l ++ k) = wsum g l + wsum g k.
Proof. unfold wsum. by rewrite fmap_app, zsum_app. Qed.

Lemma wsum_perm g l k : l ≡ₚ k -> wsum g l = wsum g k.
Proof. intros H. apply zsum_perm. by apply fmap_Permutation. Qed.

Lemma tsum_upsert g t s : tsum g (upsertRow t s) = tsum g t + weigh g s.
Proof.
  unfold upsertRow, weigh, tsum. destruct (t !! bucketOf s) as [v|] eqn:E; simpl.
  - rewrite (ksum_update _ _ _ _ _ E). lia.
  - rewrite ksum_insert by done. lia.
Qed.

Lemma tsum_upserts g l : forall t, tsum g (foldl upsertRow t l) = tsum g t + wsum g l.
Proof.
  induction l as [|s l IH]; intros t; simpl; [unfold wsum; simpl; lia|].
  rewrite IH, tsum_upsert, wsum_cons. lia.
Qed.

Lemma tsum_only t b : tsum (only b) t = default 0 (t !! b).
Proof.
  assert (forall t : statsTable, t !! b = None -> tsum (only b) t = 0) as Hnone.
  { clear t. intros t Hb. apply ksum_zero. intros b' v Hv. unfold only.
    rewrite decide_False by congruence. lia. }
  destruct (t !! b) as [v|] eqn:E; [|by apply Hnone].
  unfold tsum in *. rewrite (ksum_delete _ _ _ _ E), Hnone by apply lookup_delete_eq.
  unfold only. rewrite decide_True by done. simpl. lia.
Qed.

(** A pending map as the journal keeps it: keyed by [sampleKey], in normal form. *)
Definition wfPending (p : gmap string Stats) : Prop :=
  forall k s, p !! k = Some s -> k = trafficRuntimeJournalSampleKey s /\ canonical s.

Lemma wfPending_empty : wfPending ∅.
Proof. intros k s. by rewrite lookup_empty. Qed.

Lemma setTraffic_key t s : trafficRuntimeJournalSampleKey (setTraffic t s) = trafficRuntimeJournalSampleKey s.
Proof. done. Qed.

Lemma canonical_setTraffic s t : canonical s -> 0 < t <= max_i64 -> canonical (setTraffic t s).
Proof.
  intros (Hacc & Hd & Hr & Hg & Ht & Hx) Hpos.
  split; [|exact (conj Hd (conj Hr (conj Hg (conj Hpos Hx))))].
  revert Hacc. unfold acceptSample. destruct s as [i d r g dir tr].
  cbn [Id DateTime Resource Tag Direction Traffic setTraffic] in *.
  destruct (String.eqb (normalizeStatsResource r) ""), (String.eqb (trim_space g) "");
    cbn [orb]; try discriminate.
  rewrite (proj2 (Z.leb_gt tr 0)), (proj2 (Z.leb_gt t 0)) by lia.
  intros Heq. injection Heq as Hd' Hr' Hg'. by rewrite Hd', Hr', Hg'.
Qed.

Lemma psum_one_le p k s : wfPending p -> p !! k = Some s -> Traffic s <= psum one p.
Proof.
  intros Hwf Hk. transitivity (weigh one s); [unfold weigh, one; lia|].
  apply (msum_lookup_le _ p k); [|done].
  intros k' s' Hs'. destruct (Hwf _ _ Hs') as [_ (_ & _ & _ & _ & ? & _)]. unfold weigh, one. lia.
Qed.

(** Adding one sample: the map stays well formed and every total grows by
    the accepted sample. *)
Lemma addTrafficRuntimePendingStat_spec now p s :
  clockOk now -> wfPending p -> sampleOk s ->
  psum one p + wsum one (accepted now [s]) <= max_i64 ->
  let r := addTrafficRuntimePendingStat now p s in
  wfPending (snd r) /\
  (forall g, psum g (snd r) = psum g p + wsum g (accepted now [s])) /\
  fst r = bool_decide (acceptSample now s <> None).
Proof.
  intros Hn Hwf Hs Hmax. unfold addTrafficRuntimePendingStat. unfold accepted in *. simpl in *.
  destruct (acceptSample now s) as [s'|] eqn:Hacc; simpl in *.
  2: { split; [done|split; [|done]]. intros g. unfold wsum. simpl. lia. }
  destruct (acceptSample_canonical now s s' Hn Hs Hacc) as [Hc _].
  destruct (p !! trafficRuntimeJournalSampleKey s') as [cur|] eqn:Hk; simpl.
  - destruct (Hwf _ _ Hk) as [Hkey Hcc].
    assert (bucketOf s' = bucketOf cur) as Hb by (by apply sampleKey_inj).
    pose proof (psum_one_le p _ _ Hwf Hk).
    assert (0 < Traffic s' <= max_i64 /\ 0 < Traffic cur <= max_i64) as [Ht Ht']
      by (split; [apply Hc|apply Hcc]).
    assert (wsum one [s'] = Traffic s') as Hw by (unfold wsum, weigh, one; simpl; lia).
    assert (Traffic cur +! Traffic s' = Traffic cur + Traffic s') as ->.
    { apply wrap64_id. in_range. }
    split; [|split; [|done]].
    + intros k x Hx. apply lookup_insert_Some in Hx as [[<- <-]|[_ Hx]]; [|by apply Hwf].
      split; [done|]. apply canonical_setTraffic; [done|lia].
    + intros g. unfold psum. rewrite (msum_update _ _ _ _ _ Hk).
      unfold wsum. simpl. unfold weigh. rewrite Hb. cbn [bucketOf setTraffic Traffic DateTime Resource Tag Direction].
      change (bucketOf (setTraffic (Traffic cur + Traffic s') cur)) with (bucketOf cur). lia.
  - split; [|split; [|done]].
    + intros k x Hx. apply lookup_insert_Some in Hx as [[<- <-]|[_ Hx]]; [done|by apply Hwf].
    + intros g. unfold psum. rewrite msum_insert by done. unfold wsum. simpl. lia.
Qed.

Lemma wsum_one_nonneg now l : 0 <= wsum one (accepted now l).
Proof.
  apply zsum_nonneg, Forall_fmap, Forall_forall. intros s Hs.
  apply list_elem_of_omap in Hs as (s0 & _ & Hs0). revert Hs0.
  unfold acceptSample. destruct (_ || _ || _) eqn:E; [done|]. intros [= <-].
  rewrite !orb_false_iff in E. unfold compose, weigh, one. cbn [Traffic].
  destruct E as [_ E]. lia.
Qed.

Lemma accepted_cons now s l : accepted now (s :: l) = accepted now [s] ++ accepted now l.
Proof. unfold accepted. simpl. by destruct (acceptSample now s). Qed.

Lemma addAll_spec now l : forall p,
  clockOk now -> wfPending p -> Forall sampleOk l ->
  psum one p + wsum one (accepted now l) <= max_i64 ->
  wfPending (addAll now p l) /\
  forall g, psum g (addAll now p l) = psum g p + wsum g (accepted now l).
Proof.
  induction l as [|s l IH]; intros p Hn Hwf Hok Hmax.
  { split; [done|]. intros g. unfold wsum. simpl. lia. }
  change (addAll now p (s :: l)) with (addAll now (snd (addTrafficRuntimePendingStat now p s)) l).
  apply Forall_cons in Hok as [Hs Hok].
  rewrite accepted_cons, wsum_app in Hmax.
  pose proof (wsum_one_nonneg now l).
  destruct (addTrafficRuntimePendingStat_spec now p s Hn Hwf Hs ltac:(lia)) as (Hwf' & Hsum & _).
  destruct (IH _ Hn Hwf' Hok) as [Hwf'' Hsum''].
  { rewrite Hsum. lia. }
  split; [done|]. intros g. rewrite accepted_cons, wsum_app, Hsum'', Hsum. lia.
Qed.

Lemma sortSlice_perm less l : sortSlice less l ≡ₚ l.
Proof. apply merge_sort_Permutation. Qed.

Lemma sortedPending_spec p :
  wfPending p ->
  Forall canonical (sortedTrafficRuntimePendingStats p) /\
  (forall g, wsum g (sortedTrafficRuntimePendingStats p) = psum g p) /\
  (sortedTrafficRuntimePendingStats p = [] <-> p = ∅).
Proof.
  intros Hwf. unfold sortedTrafficRuntimePendingStats.
  pose proof (sortSlice_perm sampleLess (map_to_list p).*2) as Hp.
  split_and!.
  - rewrite Hp. apply Forall_fmap, Forall_forall. intros [k s] Hin%elem_of_map_to_list.
    by apply (Hwf k).
  - intros g. rewrite (wsum_perm _ _ _ Hp). unfold wsum, psum, msum.
    by rewrite <- list_fmap_compose.
  - split.
    + intros Heq. rewrite Heq in Hp. apply Permutation_nil_l in Hp.
      symmetry in Hp. apply fmap_nil_inv in Hp. by apply map_to_list_empty_iff.
    + intros ->. apply Permutation_nil_r. rewrite Hp. by rewrite map_to_list_empty.
Qed.

(** Accepting normal forms again changes nothing. *)
Lemma accepted_canonical now l : Forall canonical l -> accepted now l = l.
Proof.
  induction 1 as [|s l Hs _ IH]; [done|].
  rewrite accepted_cons, IH. unfold accepted. simpl. by rewrite (canonical_accept now s Hs).
Qed.

Lemma compact_spec now l :
  clockOk now -> Forall sampleOk l -> wsum one (accepted now l) <= max_i64 ->
  Forall canonical (compactTrafficRuntimeSamples now l) /\
  forall g, wsum g (compactTrafficRuntimeSamples now l) = wsum g (accepted now l).
Proof.
  intros Hn Hok Hmax. unfold compactTrafficRuntimeSamples.
  destruct (addAll_spec now l ∅ Hn wfPending_empty Hok) as [Hwf Hsum].
  { unfold psum. by rewrite msum_empty. }
  destruct (sortedPending_spec _ Hwf) as (Hc & Hs & _).
  split; [done|]. intros g. rewrite Hs, Hsum. unfold psum. rewrite msum_empty. lia.
Qed.
