(* ===== verification/Journal.v ===== *)
(** * The traffic runtime journal ([service/traffic_runtime_journal.go])

    Traffic samples are first written to a durable tail in SQLite (one entry
    row per sampling pass), mirrored in memory, and moved to the [stats]
    table on a flush.  An operation is a computation in [M]: it may fail, and
    it reads and changes a [world] made of the database, the journal's
    memory, the file system and the clock.  Every SQL statement, transaction
    boundary and file operation may fail: the world carries a schedule of
    faults, one per such step, and the theorems hold for every schedule.  A
    failing statement changes nothing; a transaction that fails to commit is
    rolled back.  Every operation of this file runs under
    [trafficRuntimeJournalTransactionMu], so operations do not interleave.

    [encoding/json], the hash functions and the random source are the class
    [Codec]; the [stats] table of the model always has its unique index, so
    the preparation of the history tables only may fail. *)

From S2P Require Import Prelude GoStrings Stats.
From stdpp Require Import base gmap list strings sorting.
From Stdlib Require Import ZArith Lia.

#[local] Open Scope Z_scope.

(** ** Data *)

Definition trafficRuntimeJournalSchema : Z := 1.
Definition trafficRuntimeJournalMaxBytes : Z := 9 * 1024 * 1024.
Definition trafficRuntimeArchiveRotateBytes : Z := 16 * 1024 * 1024.
Definition trafficRuntimeArchiveFlushBytes : Z := 64 * 1024.
Definition trafficRuntimeArchiveFlushInterval : Z := 60 * 1000000000.
Definition trafficRuntimeJournalPendingLimit : Z := 16384.
Definition trafficRuntimeJournalEntryMaxRows : Z := 4096.
Definition trafficRuntimeJournalEntryMaxBytes : Z := 16 * 1024 * 1024.
Definition trafficRuntimeArchiveMaxPendingBytes : Z := 512 * 1024.

Record trafficRuntimeJournalPayload : Type := mkPayload {
  Schema : Z;
  Generation : string;
  Sequence : Z;
  Samples : list Stats;
  Checksum : string }.

Record trafficRuntimeArchiveRecord : Type := mkArchiveRecord {
  arSequence : Z;
  arDateTime : Z;
  arNamespace : string;
  arEntity : string;
  arDirection : bool;
  arTraffic : Z }.

(** [trafficRuntimeStatsJournal]; the two mutexes are not needed, the
    operations being atomic. *)
Record journal : Type := mkJournal {
  initialized : bool;
  generation : string;
  archiveKey : string;
  checkpoint : Z;
  sequence : Z;
  version : Z;
  pending : gmap string Stats;
  archivePending : list trafficRuntimeArchiveRecord;
  archiveBytes : Z;
  archiveInFlightBytes : Z;
  archiveLastFlush : option Z;
  archiveFlushing : bool;
  archiveDropWarned : bool }.

(** The fields of [trafficRuntimeJournalStage] that are set. *)
Record trafficRuntimeJournalStage : Type := mkStage {
  stPayload : trafficRuntimeJournalPayload;
  stRaw : string;
  stFlushNow : bool;
  stSamples : list Stats }.

(** The rows with [id = 1] of the single-row tables, the entry table keyed by
    (generation, sequence), and the [stats] table. *)
Record database : Type := mkDb {
  statsRows : statsTable;
  metaRow : option string;
  checkpointRow : option Z;
  stagingRow : option (string * Z * string);
  entryRows : gmap (string * Z) string;
  archiveKeyRow : option string }.

Inductive jerr : Type :=
| ErrDb                       (* a statement, begin or commit failed *)
| ErrFile                     (* a file operation failed *)
| ErrNotExist                 (* os.ErrNotExist *)
| ErrRandom                   (* the random source failed *)
| ErrTooLarge                 (* errTrafficRuntimeJournalTooLarge *)
| ErrStageCorrupt             (* errTrafficRuntimeJournalStageCorrupt *)
| ErrEntryCapacity            (* errTrafficRuntimeJournalEntryCapacity *)
| ErrPayload                  (* an invalid payload *)
| ErrJoin (es : list jerr).   (* errors.Join *)

Record world : Type := mkWorld {
  wDb : database;
  wMem : journal;
  wFiles : gmap string string;
  wHistory : option bool;     (* historyStorageInitOnce and its cached result *)
  wFaults : list bool;
  wRandom : list string;
  wNano : Z }.

Definition nowUnix (w : world) : Z := wNano w / 1000000000.

(** ** Computations *)

Definition M (A : Type) : Type := world -> res jerr A * world.

Definition ret {A} (a : A) : M A := fun w => (Ok a, w).
Definition throw {A} (e : jerr) : M A := fun w => (Err e, w).
Definition bind {A B} (m : M A) (k : A -> M B) : M B := fun w =>
  match m w with
  | (Ok a, w') => k a w'
  | (Err e, w') => (Err e, w')
  end.
(** The result of [m] as a value: [if err := m(); err != nil]. *)
Definition try {A} (m : M A) : M (res jerr A) := fun w => let '(r, w') := m w in (Ok r, w').
Definition get {A} (f : world -> A) : M A := fun w => (Ok (f w), w).

Notation "'let!' x ':=' m 'in' k" := (bind m (fun x => k))
  (at level 200, x pattern, m at level 100, k at level 200, right associativity).
Notation "m ';;' k" := (bind m (fun _ => k)) (at level 100, right associativity).

Definition setDb (d : database) (w : world) : world :=
  mkWorld d (wMem w) (wFiles w) (wHistory w) (wFaults w) (wRandom w) (wNano w).
Definition setMem (j : journal) (w : world) : world :=
  mkWorld (wDb w) j (wFiles w) (wHistory w) (wFaults w) (wRandom w) (wNano w).
Definition setFiles (f : gmap string string) (w : world) : world :=
  mkWorld (wDb w) (wMem w) f (wHistory w) (wFaults w) (wRandom w) (wNano w).
Definition setFaults (l : list bool) (w : world) : world :=
  mkWorld (wDb w) (wMem w) (wFiles w) (wHistory w) l (wRandom w) (wNano w).
Definition setHistory (h : option bool) (w : world) : world :=
  mkWorld (wDb w) (wMem w) (wFiles w) h (wFaults w) (wRandom w) (wNano w).
Definition setRandom (l : list string) (w : world) : world :=
  mkWorld (wDb w) (wMem w) (wFiles w) (wHistory w) (wFaults w) l (wNano w).

Definition modifyMem (f : journal -> journal) : M unit := fun w => (Ok tt, setMem (f (wMem w)) w).

(** One step that may fail; an exhausted schedule holds no more faults. *)
Definition step (e : jerr) : M unit := fun w =>
  match wFaults w with
  | true :: l => (Err e, setFaults l w)
  | false :: l => (Ok tt, setFaults l w)
  | [] => (Ok tt, w)
  end.

(** One SQL statement: a query reads, [Exec] changes. *)
Definition query {A} (f : database -> A) : M A := step ErrDb ;; get (f ∘ wDb).
Definition exec (f : database -> database) : M unit :=
  step ErrDb ;; fun w => (Ok tt, setDb (f (wDb w)) w).

(** [db.Transaction(f)], and [Begin]/[Commit]/[Rollback] around [f]. *)
Definition transaction {A} (f : M A) : M A := fun w =>
  match step ErrDb w with
  | (Err e, w0) => (Err e, w0)
  | (Ok _, w0) =>
      match f w0 with
      | (Err e, w1) => (Err e, setDb (wDb w0) w1)
      | (Ok a, w1) =>
          match step ErrDb w1 with
          | (Err e, w2) => (Err e, setDb (wDb w0) w2)
          | (Ok _, w2) => (Ok a, w2)
          end
      end
  end.

(** [errors.Join]: nil when every error is. *)
Definition errorsOf (l : list (res jerr unit)) : list jerr :=
  omap (fun r => match r with Err e => Some e | Ok _ => None end) l.
Definition errorsJoin (l : list (res jerr unit)) : M unit :=
  match errorsOf l with
  | [] => ret tt
  | es => throw (ErrJoin es)
  end.

(** ** Statements *)

Definition setStats (t : statsTable) (d : database) : database :=
  mkDb t (metaRow d) (checkpointRow d) (stagingRow d) (entryRows d) (archiveKeyRow d).
Definition setMeta (g : option string) (d : database) : database :=
  mkDb (statsRows d) g (checkpointRow d) (stagingRow d) (entryRows d) (archiveKeyRow d).
Definition setCheckpoint (c : option Z) (d : database) : database :=
  mkDb (statsRows d) (metaRow d) c (stagingRow d) (entryRows d) (archiveKeyRow d).
Definition setStaging (s : option (string * Z * string)) (d : database) : database :=
  mkDb (statsRows d) (metaRow d) (checkpointRow d) s (entryRows d) (archiveKeyRow d).
Definition setEntries (e : gmap (string * Z) string) (d : database) : database :=
  mkDb (statsRows d) (metaRow d) (checkpointRow d) (stagingRow d) e (archiveKeyRow d).
Definition setArchiveKey (k : option string) (d : database) : database :=
  mkDb (statsRows d) (metaRow d) (checkpointRow d) (stagingRow d) (entryRows d) k.

(** [DELETE ... WHERE generation = ? AND sequence <= ?] on the entries. *)
Definition deleteEntriesUpTo (g : string) (n : Z) (d : database) : database :=
  setEntries (filter (fun row => ~ (row.1.1 = g /\ row.1.2 <= n)) (entryRows d)) d.

Definition byteLen (s : string) : Z := Z.of_nat (String.length s).

(** The fields of the journal that change together. *)
Definition setPending (p : gmap string Stats) (seq : Z) (j : journal) : journal :=
  mkJournal (initialized j) (generation j) (archiveKey j) (checkpoint j) seq (version j + 1) p
            (archivePending j) (archiveBytes j) (archiveInFlightBytes j) (archiveLastFlush j)
            (archiveFlushing j) (archiveDropWarned j).
Definition setReady (g k : string) (c : Z) (j : journal) : journal :=
  mkJournal true g k c c (version j) (pending j)
            (archivePending j) (archiveBytes j) (archiveInFlightBytes j) (archiveLastFlush j)
            (archiveFlushing j) (archiveDropWarned j).
Definition setArchive (l : list trafficRuntimeArchiveRecord) (bytes inFlight : Z) (last : option Z)
  (flushing warned : bool) (j : journal) : journal :=
  mkJournal (initialized j) (generation j) (archiveKey j) (checkpoint j) (sequence j) (version j)
            (pending j) l bytes inFlight last flushing warned.
Definition raiseCheckpoint (n : Z) (j : journal) : journal :=
  mkJournal (initialized j) (generation j) (archiveKey j)
            (if checkpoint j <? n then n else checkpoint j) (sequence j) (version j)
            (pending j) (archivePending j) (archiveBytes j) (archiveInFlightBytes j)
            (archiveLastFlush j) (archiveFlushing j) (archiveDropWarned j).

(** ** What the code relies on

    [encoding/json] on the two payload types and on an archive record (none
    of which can fail to encode), [hex(sha256(x))], the truncated
    [hex(HMAC(key, ...))], and the two paths. *)
Class Codec : Type := {
  marshalSamples : list Stats -> string;
  unmarshalSamples : string -> option (list Stats);
  marshalPayload : trafficRuntimeJournalPayload -> string;
  unmarshalPayload : string -> option trafficRuntimeJournalPayload;
  marshalRecord : trafficRuntimeArchiveRecord -> string;
  sha256Hex : string -> string;
  hmacToken : string -> string -> string;
  journalPath : string;
  archivePath : string }.

(** JSON round-trips text that is valid UTF-8. *)
Class CodecLaws `{Codec} : Prop := {
  samples_roundtrip l : Forall canonical l -> unmarshalSamples (marshalSamples l) = Some l;
  samples_nonempty l : marshalSamples l <> "" }.

Section Operations.
Context `{Codec}.

Definition backupPath : string := journalPath +:+ ".bak".

(** ** Readiness *)

Definition newTrafficRuntimeJournalGeneration : M string := fun w =>
  match wRandom w with
  | [] => (Err ErrRandom, w)
  | g :: l => (Ok g, setRandom l w)
  end.

(** A [CREATE TABLE IF NOT EXISTS]: it may fail, and changes no row. *)
Definition createTable : M unit := exec id.

(** The generation row, created when it is missing or blank; likewise the
    archive key. *)
Definition loadGeneration : M string :=
  let! gen := query (default "" ∘ metaRow) in
  if String.eqb (trim_space gen) "" then
    let! g := newTrafficRuntimeJournalGeneration in
    exec (setMeta (Some g)) ;; ret g
  else ret gen.

Definition loadArchiveKey : M string :=
  let! key := query (default "" ∘ archiveKeyRow) in
  if String.eqb (trim_space key) "" then
    let! k := newTrafficRuntimeJournalGeneration in
    exec (setArchiveKey (Some k)) ;; ret k
  else ret key.

Definition initializeJournal : M unit :=
  createTable ;; createTable ;; createTable ;; createTable ;; createTable ;;
  let! gen := loadGeneration in
  let! key := loadArchiveKey in
  let! cp := query (default 0 ∘ checkpointRow) in
  modifyMem (setReady gen key cp).

Definition ensureReady : M unit :=
  let! ready := get (initialized ∘ wMem) in
  if (ready : bool) then ret tt else initializeJournal.

Definition EnsureHistoryStorageReady : M unit :=
  let! h := get wHistory in
  match h with
  | Some true => ret tt
  | Some false => throw ErrDb
  | None => fun w =>
      match step ErrDb w with
      | (Ok _, w') => (Ok tt, setHistory (Some true) w')
      | (Err e, w') => (Err e, setHistory (Some false) w')
      end
  end.

(** ** Writes to the [stats] table *)

Definition upsertStatsTraffic (sample : Stats) : M unit :=
  let! now := get nowUnix in
  match acceptSample now sample with
  | None => ret tt
  | Some s => exec (fun d => setStats (upsertRow (statsRows d) s) d)
  end.

Definition rowsPerInsert : nat := 100.

(** The loop over [valid] in chunks: one statement per chunk.  [fuel] is the
    length of [valid], and every chunk is not empty. *)
Fixpoint upsertChunks (fuel : nat) (valid : list Stats) : M unit :=
  match fuel, valid with
  | S fuel', _ :: _ =>
      exec (fun d => setStats (foldl upsertRow (statsRows d) (take rowsPerInsert valid)) d) ;;
      upsertChunks fuel' (drop rowsPerInsert valid)
  | _, _ => ret tt
  end.

Definition upsertStatsTrafficBatch (samples : list Stats) : M unit :=
  let! now := get nowUnix in
  let valid := omap (acceptSample now) samples in
  upsertChunks (length valid) valid.

(** ** The archive *)

Definition trafficRuntimeArchiveNamespace (resource : string) : string :=
  let r := normalizeStatsResource resource in
  if String.eqb r "client" then "singbox_client"
  else if String.eqb r "inbound" then "singbox_inbound"
  else if String.eqb r "mihomo_client" then "mihomo_client"
  else if String.eqb r "mihomo_inbound" then "mihomo_inbound"
  else "".

Definition archiveEntityTokenLocked (j : journal) (resource tag : string) : string :=
  let namespace := trafficRuntimeArchiveNamespace resource in
  if String.eqb (archiveKey j) "" || String.eqb namespace "" || String.eqb (trim_space tag) "" then ""
  else hmacToken (archiveKey j) (namespace +:+ sepNul (trim_space tag)).

Definition recordBytes (r : trafficRuntimeArchiveRecord) : Z := byteLen (marshalRecord r) + 1.

Definition queueArchiveOne (seq : Z) (j : journal) (sample : Stats) : journal :=
  let record := mkArchiveRecord seq (DateTime sample)
                  (trafficRuntimeArchiveNamespace (Resource sample))
                  (archiveEntityTokenLocked j (Resource sample) (Tag sample))
                  (Direction sample) (Traffic sample) in
  if String.eqb (arNamespace record) "" || String.eqb (arEntity record) "" ||
     (arTraffic record <=? 0) then j
  else if trafficRuntimeArchiveMaxPendingBytes <?
            archiveInFlightBytes j + archiveBytes j + recordBytes record
  then setArchive (archivePending j) (archiveBytes j) (archiveInFlightBytes j)
                  (archiveLastFlush j) (archiveFlushing j) true j
  else setArchive (archivePending j ++ [record]) (archiveBytes j + recordBytes record)
                  (archiveInFlightBytes j) (archiveLastFlush j) (archiveFlushing j)
                  (archiveDropWarned j) j.

Definition queueArchiveLocked (samples : list Stats) (seq : Z) (j : journal) : journal :=
  foldl (queueArchiveOne seq) j samples.

(** Dropping the newest records of a queue that grew past its bound; the
    loop removes one record per round. *)
Fixpoint trimArchive (fuel : nat) (l : list trafficRuntimeArchiveRecord) (bytes : Z)
  : list trafficRuntimeArchiveRecord * Z :=
  match fuel with
  | O => (l, bytes)
  | S fuel' =>
      if trafficRuntimeArchiveMaxPendingBytes <? bytes then
        match last l with
        | Some r => trimArchive fuel' (removelast l) (bytes - recordBytes r)
        | None => (l, bytes)
        end
      else (l, bytes)
  end.

(** A file operation on the file map; no path of the model is a symbolic link. *)
Definition fileOp (f : gmap string string -> gmap string string) : M unit :=
  step ErrFile ;; fun w => (Ok tt, setFiles (f (wFiles w)) w).

Definition newline : string := byte1 10.

Fixpoint writeRecords (l : list trafficRuntimeArchiveRecord) : M unit :=
  match l with
  | [] => ret tt
  | r :: l' =>
      fileOp (fun fs => <[archivePath := default "" (fs !! archivePath) +:+ marshalRecord r +:+ newline]> fs) ;;
      writeRecords l'
  end.

Definition appendTrafficRuntimeArchive (records : list trafficRuntimeArchiveRecord) : M unit :=
  match records with
  | [] => ret tt
  | _ =>
      step ErrFile ;;                                         (* MkdirAll *)
      let bytes := zsum (recordBytes <$> records) in
      let! cur := get (fun w => wFiles w !! archivePath) in
      (match cur with
       | Some c =>
           if trafficRuntimeArchiveRotateBytes <? byteLen c + bytes
           then fileOp (fun fs => <[archivePath +:+ ".1" := c]> (delete archivePath fs))
           else ret tt
       | None => ret tt
       end) ;;
      fileOp (fun fs => <[archivePath := default "" (fs !! archivePath)]> fs) ;;   (* OpenFile *)
      step ErrFile ;;                                         (* Chmod *)
      writeRecords records ;;
      step ErrFile ;; step ErrFile                            (* Sync, Close *)
  end.

Definition flushArchive (force : bool) : M unit :=
  let! j := get wMem in
  let! nano := get wNano in
  let recent := match archiveLastFlush j with
                | Some t => nano - t <? trafficRuntimeArchiveFlushInterval
                | None => false
                end in
  if bool_decide (archivePending j = []) || archiveFlushing j ||
     (negb force && (archiveBytes j <? trafficRuntimeArchiveFlushBytes) && recent)
  then ret tt
  else
    let records := archivePending j in
    let queuedBytes := archiveBytes j in
    modifyMem (setArchive [] 0 queuedBytes (archiveLastFlush j) true (archiveDropWarned j)) ;;
    let! r := try (appendTrafficRuntimeArchive records) in
    match r with
    | Err e =>
        modifyMem (fun j =>
          let l := records ++ archivePending j in
          let '(l, bytes) := trimArchive (length l) l (archiveBytes j + queuedBytes) in
          setArchive l bytes 0 (archiveLastFlush j) false (archiveDropWarned j) j) ;;
        throw e
    | Ok _ =>
        modifyMem (fun j => setArchive (archivePending j) (archiveBytes j) 0 (Some nano) false false j)
    end.

(** ** Journal files *)

(** The suffix loop that finds a free quarantine name. *)
Fixpoint freeName (fuel : nat) (fs : gmap string string) (base : string) (suffix : Z) : string :=
  match fuel with
  | O => base +:+ "-" +:+ itoa suffix
  | S fuel' =>
      let name := base +:+ "-" +:+ itoa suffix in
      match fs !! name with
      | None => name
      | Some _ => freeName fuel' fs base (suffix + 1)
      end
  end.

Definition quarantineName (fs : gmap string string) (path : string) (nano : Z) : string :=
  let base := path +:+ ".invalid-" +:+ itoa nano in
  match fs !! base with
  | None => base
  | Some _ => freeName (S (size fs)) fs base 1
  end.

Definition quarantineTrafficRuntimeJournalFile (path : string) : M unit :=
  if String.eqb (trim_space path) "" then ret tt
  else
    step ErrFile ;;                                           (* Lstat *)
    let! nano := get wNano in
    fileOp (fun fs =>
      match fs !! path with
      | Some c => <[quarantineName fs path nano := c]> (delete path fs)
      | None => fs
      end).

Fixpoint eachPath (f : string -> M unit) (paths : list string) : M (list (res jerr unit)) :=
  match paths with
  | [] => ret []
  | p :: ps =>
      let! r := try (f p) in
      let! rs := eachPath f ps in
      ret (r :: rs)
  end.

Definition forPaths (f : string -> M unit) (paths : list string) : M unit :=
  let! rs := eachPath f paths in errorsJoin rs.

Definition quarantineInvalidTrafficRuntimeJournalFiles (paths : list string) : M unit :=
  forPaths quarantineTrafficRuntimeJournalFile paths.
Definition quarantineTrafficRuntimeJournalFiles : M unit :=
  forPaths quarantineTrafficRuntimeJournalFile [journalPath; backupPath].
Definition quarantineTrafficRuntimeArchiveFiles : M unit :=
  forPaths quarantineTrafficRuntimeJournalFile [archivePath; archivePath +:+ ".1"].
Definition removeTrafficRuntimeJournalFiles : M unit :=
  forPaths (fun path => fileOp (delete path)) [journalPath; backupPath].

(** ** The legacy snapshot payload *)

Definition setChecksum (c : string) (p : trafficRuntimeJournalPayload) : trafficRuntimeJournalPayload :=
  mkPayload (Schema p) (Generation p) (Sequence p) (Samples p) c.

Definition marshalTrafficRuntimeJournalPayload (p : trafficRuntimeJournalPayload) : string :=
  let p := setChecksum "" p in
  marshalPayload (setChecksum (sha256Hex (marshalPayload p)) p).

Definition trafficRuntimeJournalPayloadHasUsableSamples (p : trafficRuntimeJournalPayload) : bool :=
  existsb (fun s => negb (String.eqb (normalizeStatsResource (Resource s)) "") &&
                    negb (String.eqb (trim_space (Tag s)) "") && (0 <? Traffic s)) (Samples p).

(** [strings.EqualFold] against a string of hexadecimal digits. *)
Definition equalFoldHex (s t : string) : bool := String.eqb (to_lower s) (to_lower t).

Definition unmarshalTrafficRuntimeJournalPayload (raw : string)
  : res jerr trafficRuntimeJournalPayload :=
  match unmarshalPayload raw with
  | None => Err ErrPayload
  | Some p =>
      if negb (Schema p =? trafficRuntimeJournalSchema) ||
         String.eqb (trim_space (Generation p)) "" || (Sequence p =? 0) then Err ErrPayload
      else
        let checksum := trim_space (Checksum p) in
        if String.eqb checksum "" then Err ErrPayload
        else if negb (equalFoldHex checksum (sha256Hex (marshalPayload (setChecksum "" p))))
        then Err ErrPayload
        else
          let p := setChecksum checksum p in
          if trafficRuntimeJournalPayloadHasUsableSamples p then Ok p else Err ErrPayload
  end.

(** A temporary file that is created, written, synced and renamed: every
    step may fail, and a failure removes it. *)
Definition writeAtomically (path raw : string) : M unit :=
  step ErrFile ;; step ErrFile ;; step ErrFile ;; step ErrFile ;; step ErrFile ;;
  fileOp (<[path := raw]>).

Definition copyTrafficRuntimeJournalBackup : M unit :=
  step ErrFile ;;                                             (* Open *)
  let! src := get (fun w => wFiles w !! journalPath) in
  match src with
  | None => ret tt
  | Some raw =>
      step ErrFile ;;                                         (* ReadAll *)
      if trafficRuntimeJournalMaxBytes <? byteLen raw then ret tt
      else match unmarshalTrafficRuntimeJournalPayload raw with
           | Err _ => ret tt
           | Ok _ => writeAtomically backupPath raw
           end
  end.

Definition writeTrafficRuntimeJournalFile (raw : string) : M unit :=
  if trafficRuntimeJournalMaxBytes <? byteLen raw then throw ErrTooLarge
  else
    step ErrFile ;;                                           (* MkdirAll *)
    step ErrFile ;; step ErrFile ;; step ErrFile ;; step ErrFile ;; step ErrFile ;;
    copyTrafficRuntimeJournalBackup ;;
    fileOp (<[journalPath := raw]>).

Record trafficRuntimeJournalReadResult : Type := mkRead {
  rrPayload : option trafficRuntimeJournalPayload;
  rrSource : string;
  rrInvalid : list string }.

(** The loop over the primary and the backup; [lastErr] is [err]. *)
Fixpoint readJournalPaths (paths invalid : list string) (err : jerr)
  : M (trafficRuntimeJournalReadResult * option jerr) :=
  match paths with
  | [] => ret (mkRead None "" invalid, Some err)
  | path :: rest =>
      let! r := try (step ErrFile) in
      match r with
      | Err e => readJournalPaths rest invalid e
      | Ok _ =>
          let! raw := get (fun w => wFiles w !! path) in
          match raw with
          | None => readJournalPaths rest invalid err
          | Some raw =>
              if trafficRuntimeJournalMaxBytes <? byteLen raw
              then readJournalPaths rest (invalid ++ [path]) ErrTooLarge
              else match unmarshalTrafficRuntimeJournalPayload raw with
                   | Ok p => ret (mkRead (Some p) path invalid, None)
                   | Err e => readJournalPaths rest (invalid ++ [path]) e
                   end
          end
      end
  end.

Definition readTrafficRuntimeJournalFileDetailed : M (trafficRuntimeJournalReadResult * option jerr) :=
  readJournalPaths [journalPath; backupPath] [] ErrNotExist.

(** ** The staging row and the entry rows *)

Definition persistTrafficRuntimeJournalStage (stage : trafficRuntimeJournalStage) : M unit :=
  let raw := stRaw stage in
  let gen := Generation (stPayload stage) in
  if (byteLen raw =? 0) || (trafficRuntimeJournalMaxBytes <? byteLen raw) then throw ErrTooLarge
  else
    let! usage := query (fun d =>
      let rows := filter (fun row : (string * Z) * string => row.1.1 = gen) (map_to_list (entryRows d)) in
      (Z.of_nat (length rows), zsum ((fun row => byteLen row.2) <$> rows))) in
    if (trafficRuntimeJournalEntryMaxRows <=? usage.1) ||
       (trafficRuntimeJournalEntryMaxBytes - byteLen raw <? usage.2)
    then throw ErrEntryCapacity
    else exec (fun d => setEntries (<[(gen, Sequence (stPayload stage)) := raw]> (entryRows d)) d).

Definition deleteAllTrafficRuntimeJournalStages : M unit :=
  let! a := try (exec (setStaging None)) in
  let! b := try (exec (setEntries ∅)) in
  errorsJoin [a; b].

(** [Some (payload, raw)] for a usable row. *)
Definition readTrafficRuntimeJournalStage
  : M (option (trafficRuntimeJournalPayload * string)) :=
  let! row := query stagingRow in
  match row with
  | None => ret None
  | Some (g, n, raw) =>
      if (byteLen raw =? 0) || (trafficRuntimeJournalMaxBytes <? byteLen raw) then throw ErrStageCorrupt
      else match unmarshalTrafficRuntimeJournalPayload raw with
           | Err _ => throw ErrStageCorrupt
           | Ok p =>
               if negb (String.eqb (Generation p) g) || negb (Sequence p =? n) then throw ErrStageCorrupt
               else ret (Some (p, raw))
           end
  end.

Definition deleteTrafficRuntimeJournalStage (g : string) (n : Z) : M unit :=
  exec (fun d =>
    match stagingRow d with
    | Some (g', n', _) => if String.eqb g' g && (n' <=? n) then setStaging None d else d
    | None => d
    end).

Definition deleteTrafficRuntimeJournalEntry (g : string) (n : Z) : M unit :=
  exec (fun d => setEntries (delete (g, n) (entryRows d)) d).

(** [SELECT ... WHERE generation = ? AND sequence > ? ORDER BY sequence]. *)
Definition selectEntries (g : string) (cp : Z) (d : database) : list (Z * string) :=
  merge_sort (fun a b : Z * string => Is_true (a.1 <=? b.1))
    (omap (fun row : (string * Z) * string =>
             if bool_decide (row.1.1 = g) && (cp <? row.1.2) then Some (row.1.2, row.2) else None)
          (map_to_list (entryRows d))).

(** The loop of [restoreIncrementalEntries]: invalid entries are deleted,
    the samples of the others are added; the clock is read per sample. *)
Fixpoint restoreEntries (g : string) (entries : list (Z * string)) (p : gmap string Stats) (seq : Z)
  : M (gmap string Stats * Z) :=
  match entries with
  | [] => ret (p, seq)
  | (n, raw) :: rest =>
      let discard := deleteTrafficRuntimeJournalEntry g n ;; restoreEntries g rest p seq in
      if (n <=? seq) || (byteLen raw =? 0) || (trafficRuntimeJournalMaxBytes <? byteLen raw)
      then discard
      else match unmarshalSamples raw with
           | None => discard
           | Some samples =>
               let! now := get nowUnix in
               if existsb (fun s => if acceptSample now s then true else false) samples
               then restoreEntries g rest (addAll now p samples) n
               else discard
           end
  end.

Definition restoreIncrementalEntries : M bool :=
  let! j := get wMem in
  let g := generation j in
  let cp := checkpoint j in
  exec (deleteEntriesUpTo g cp) ;;
  let! entries := query (selectEntries g cp) in
  match entries with
  | [] => ret false
  | _ =>
      let! r := restoreEntries g entries ∅ cp in
      modifyMem (setPending r.1 r.2) ;;
      ret true
  end.

Definition restore : M unit :=
  let! restored := restoreIncrementalEntries in
  if (restored : bool) then quarantineTrafficRuntimeJournalFiles else
  let! staged := try readTrafficRuntimeJournalStage in
  match staged with
  | Err ErrStageCorrupt =>
      let! a := try deleteAllTrafficRuntimeJournalStages in
      let! b := try quarantineTrafficRuntimeJournalFiles in
      match errorsOf [a; b] with
      | [] => ret tt
      | es => throw (ErrJoin (ErrStageCorrupt :: es))
      end
  | Err e => throw e
  | Ok staged =>
      let! file := readTrafficRuntimeJournalFileDetailed in
      let '(result, fileErr) := file in
      quarantineInvalidTrafficRuntimeJournalFiles (rrInvalid result) ;;
      let noSource := String.eqb (rrSource result) "" in
      let fileErr := if noSource && negb (bool_decide (rrInvalid result = [])) then None else fileErr in
      let! j := get wMem in
      let gen := generation j in
      let cp := checkpoint j in
      match staged with
      | Some (p, raw) =>
          if negb (String.eqb (Generation p) gen) || (Sequence p <=? cp) then
            deleteTrafficRuntimeJournalStage (Generation p) (Sequence p) ;;
            removeTrafficRuntimeJournalFiles
          else
            let! now := get nowUnix in
            modifyMem (setPending (addAll now ∅ (Samples p)) (Sequence p)) ;;
            let fileMatchesStage := negb noSource &&
              match rrPayload result with
              | Some f => String.eqb (Generation f) (Generation p) && (Sequence f =? Sequence p) &&
                          String.eqb (Checksum f) (Checksum p)
              | None => false
              end in
            let needsMirrorRewrite :=
              negb fileMatchesStage || negb (String.eqb (rrSource result) journalPath) in
            (if needsMirrorRewrite && negb noSource then quarantineTrafficRuntimeJournalFiles else ret tt) ;;
            (if needsMirrorRewrite then writeTrafficRuntimeJournalFile raw else ret tt)
      | None =>
          match fileErr with
          | Some ErrNotExist => ret tt
          | Some e => throw e
          | None =>
              if noSource then ret tt
              else match rrPayload result with
                   | Some f =>
                       if negb (String.eqb (Generation f) gen) then quarantineTrafficRuntimeJournalFiles
                       else if Sequence f <=? cp then removeTrafficRuntimeJournalFiles
                       else quarantineTrafficRuntimeJournalFiles
                   | None => ret tt
                   end
          end
      end
  end.

(** ** Staging *)

Definition stage (samples : list Stats) : M (option trafficRuntimeJournalStage) :=
  ensureReady ;;
  let! j := get wMem in
  let! now := get nowUnix in
  let acceptedSamples := compactTrafficRuntimeSamples now samples in
  match acceptedSamples with
  | [] => ret None
  | _ =>
      let raw := marshalSamples acceptedSamples in
      if trafficRuntimeJournalMaxBytes <? byteLen raw then throw ErrTooLarge
      else ret (Some (mkStage
             (mkPayload trafficRuntimeJournalSchema (generation j) (sequence j + 1) [] "")
             raw
             (trafficRuntimeJournalPendingLimit <=?
                Z.of_nat (size (pending j)) + Z.of_nat (length acceptedSamples))
             acceptedSamples))
  end.

Definition commitStage (st : trafficRuntimeJournalStage) : M unit :=
  let! now := get nowUnix in
  modifyMem (fun j =>
    queueArchiveLocked (stSamples st) (Sequence (stPayload st))
      (setPending (addAll now (pending j) (stSamples st)) (Sequence (stPayload st)) j)).

Definition stageTrafficRuntimeStatsForTransaction (samples : list Stats)
  : M (option trafficRuntimeJournalStage) :=
  match samples with
  | [] => ret None
  | _ =>
      let! r := try (stage samples) in
      match r with
      | Err e => upsertStatsTrafficBatch samples ;; ret None
      | Ok None => ret None
      | Ok (Some st) =>
          let! p := try (persistTrafficRuntimeJournalStage st) in
          match p with
          | Ok _ => ret (Some st)
          | Err ErrEntryCapacity => upsertStatsTrafficBatch samples ;; ret None
          | Err e => throw e
          end
      end
  end.

Definition commitStagedTrafficRuntimeStats (st : option trafficRuntimeJournalStage) : M bool :=
  match st with
  | None => ret false
  | Some st => commitStage st ;; ret (stFlushNow st)
  end.

(** ** Flushing *)

Definition flushTransaction (gen : string) (seq : Z) (samples : list Stats) : M unit :=
  transaction (
    let! applied := query (default 0 ∘ checkpointRow) in
    (if seq <=? applied then ret tt
     else
       upsertStatsTrafficBatch samples ;;
       exec (setCheckpoint (Some seq))) ;;
    deleteTrafficRuntimeJournalStage gen seq ;;
    exec (deleteEntriesUpTo gen seq)).

Definition flush : M unit :=
  ensureReady ;;
  EnsureHistoryStorageReady ;;
  let! j := get wMem in
  if bool_decide (pending j = ∅) then flushArchive true
  else
    flushTransaction (generation j) (sequence j) (sortedTrafficRuntimePendingStats (pending j)) ;;
    modifyMem (fun j => raiseCheckpoint (sequence j) (setPending ∅ (sequence j) j)) ;;
    let! a := try (flushArchive true) in
    let! b := try removeTrafficRuntimeJournalFiles in
    errorsJoin [a; b].

(** ** The exported operations *)

Definition StageTrafficRuntimeStats (samples : list Stats) : M unit :=
  match samples with
  | [] => ret tt
  | _ =>
      ensureReady ;;
      EnsureHistoryStorageReady ;;
      let! st := transaction (stageTrafficRuntimeStatsForTransaction samples) in
      let! flushNow := commitStagedTrafficRuntimeStats st in
      if (flushNow : bool) then (let! _ := try flush in ret tt) else ret tt
  end.

Definition FlushTrafficRuntimeJournal : M unit := flush.

Definition PrepareTrafficRuntimeJournalOnStartup : M unit :=
  ensureReady ;; restore ;; flush.

(** ** Database reload and restore *)

Definition resetForDatabaseReloadLocked : M unit :=
  modifyMem (fun j => mkJournal false "" "" 0 0 (version j + 1) ∅ [] 0 0 None false false).

Definition rotateGenerationForDatabaseRestore : M unit :=
  ensureReady ;;
  let! g := newTrafficRuntimeJournalGeneration in
  transaction (
    exec (fun d => match metaRow d with Some _ => setMeta (Some g) d | None => d end) ;;
    exec (setCheckpoint (Some 0)) ;;
    exec (setStaging None) ;;
    exec (setEntries ∅)) ;;
  modifyMem (fun j => mkJournal true g (archiveKey j) 0 0 (version j + 1) ∅ [] 0 0 None false false).

Definition QuarantineTrafficRuntimeJournalBeforeDatabaseRestore : M unit :=
  let! a := try quarantineTrafficRuntimeJournalFiles in
  let! b := try quarantineTrafficRuntimeArchiveFiles in
  errorsJoin [a; b].

Definition InvalidateTrafficRuntimeJournalForDatabaseRestore : M unit :=
  resetForDatabaseReloadLocked ;;
  let! r := try rotateGenerationForDatabaseRestore in
  let! q := try QuarantineTrafficRuntimeJournalBeforeDatabaseRestore in
  errorsJoin [r; q].
End Operations.
