(* ===== verification/JournalCorrect.v ===== *)
(** * Correctness of the traffic runtime journal

    The abstract view is a ledger: the samples of every staging call that
    returned without an error.  The theorems show that the database never
    counts a sample of the ledger twice and never loses one, through any
    schedule of failing statements, crashes and restarts, as long as a start
    whose recovery failed is not followed by staging; what goes wrong
    otherwise is exhibited at the end of the file. *)

From S2P Require Import Prelude GoStrings Stats Journal.
From stdpp Require Import base countable gmap list strings sorting.
From Stdlib Require Import ZArith Lia.

#[local] Open Scope Z_scope.

(** ** What a computation leaves alone *)

Definition keeps {X A} (f : world -> X) (m : M A) : Prop := forall w, f (snd (m w)) = f w.

(** The part of the memory that accounting depends on. *)
Definition memCore (w : world) :=
  let j := wMem w in
  (wNano w, initialized j, generation j, checkpoint j, sequence j, pending j).

(** A view that ignores the files, the fault schedule, the random source and
    the cached preparation result. *)
Class View {X} (f : world -> X) : Prop := {
  view_files w fs : f (setFiles fs w) = f w;
  view_faults w l : f (setFaults l w) = f w;
  view_history w h : f (setHistory h w) = f w;
  view_random w l : f (setRandom l w) = f w }.

#[global] Instance view_db : View wDb.
Proof. by split. Qed.
#[global] Instance view_mem : View memCore.
Proof. by split. Qed.

Create HintDb keeps.

Section Keeps.
Context {X : Type} (f : world -> X) `{!View f}.

Lemma keeps_ret {A} (a : A) : keeps f (ret a).
Proof. by intros w. Qed.
Lemma keeps_throw {A} e : keeps f (throw (A := A) e).
Proof. by intros w. Qed.
Lemma keeps_get {A} (g : world -> A) : keeps f (get g).
Proof. by intros w. Qed.
Lemma keeps_bind {A B} (m : M A) (k : A -> M B) :
  keeps f m -> (forall a, keeps f (k a)) -> keeps f (bind m k).
Proof.
  intros Hm Hk w. unfold bind. specialize (Hm w). destruct (m w) as [[a|e] w1]; simpl in *; [|done].
  by rewrite Hk.
Qed.
Lemma keeps_try {A} (m : M A) : keeps f m -> keeps f (try m).
Proof. intros Hm w. unfold try. specialize (Hm w). by destruct (m w). Qed.
Lemma keeps_step e : keeps f (step e).
Proof. intros w. unfold step. destruct (wFaults w) as [|[] l]; simpl; [done|apply view_faults..]. Qed.
Lemma keeps_fileOp g : keeps f (fileOp g).
Proof. apply keeps_bind; [apply keeps_step|]. intros _ w. apply view_files. Qed.
Lemma keeps_query {A} (g : database -> A) : keeps f (query g).
Proof. apply keeps_bind; [apply keeps_step|]. intros _. apply keeps_get. Qed.
Lemma keeps_join l : keeps f (errorsJoin l).
Proof. unfold errorsJoin. case_match; [apply keeps_ret|apply keeps_throw]. Qed.
Lemma keeps_random : keeps f newTrafficRuntimeJournalGeneration.
Proof. intros w. unfold newTrafficRuntimeJournalGeneration. case_match; simpl; [done|apply view_random]. Qed.
Lemma keeps_history : keeps f EnsureHistoryStorageReady.
Proof.
  apply keeps_bind; [apply keeps_get|]. intros [[]|]; [apply keeps_ret|apply keeps_throw|].
  intros w. pose proof (keeps_step ErrDb w) as Hs.
  destruct (step ErrDb w) as [[] w']; simpl in *; by rewrite view_history.
Qed.
End Keeps.

#[export] Hint Resolve keeps_ret keeps_throw keeps_get keeps_try keeps_step
  keeps_fileOp keeps_query keeps_join keeps_random keeps_history : keeps.

(** [kept] proves that a computation built from the above keeps a view. *)
Ltac kept :=
  repeat first
    [ progress intros
    | match goal with |- keeps _ (match ?x with _ => _ end) => destruct x end
    | match goal with |- keeps _ (bind _ _) => apply keeps_bind end
    | solve [eauto with keeps typeclass_instances] ].

Lemma keeps_exec g : keeps memCore (exec g).
Proof. apply keeps_bind; [eauto with keeps typeclass_instances|]. by intros _ w. Qed.
#[export] Hint Resolve keeps_exec : keeps.

Lemma keeps_modifyMem_db g : keeps wDb (modifyMem g).
Proof. by intros w. Qed.
#[export] Hint Resolve keeps_modifyMem_db : keeps.

(** A [modifyMem] that only touches the archive queue. *)
Lemma keeps_archive (g : journal -> journal) :
  (forall j, (initialized (g j), generation (g j), checkpoint (g j), sequence (g j), pending (g j)) =
             (initialized j, generation j, checkpoint j, sequence j, pending j)) ->
  keeps memCore (modifyMem g).
Proof. intros Hg w. unfold memCore, modifyMem. simpl. specialize (Hg (wMem w)). congruence. Qed.

Lemma transaction_mem {A} (m : M A) w :
  (forall w0, memCore w0 = memCore w -> memCore (snd (m w0)) = memCore w) ->
  memCore (snd (transaction m w)) = memCore w.
Proof.
  intros Hm. unfold transaction. pose proof (keeps_step memCore ErrDb w) as H0.
  destruct (step ErrDb w) as [[[]|e] w0]; simpl in *; [|done].
  specialize (Hm w0 H0).
  assert (forall d w, memCore (setDb d w) = memCore w) as Hset by done.
  destruct (m w0) as [[a|e] w1]; simpl in *; [|rewrite Hset; congruence].
  pose proof (keeps_step memCore ErrDb w1) as H1.
  destruct (step ErrDb w1) as [[[]|e] w2]; simpl in *; rewrite ?Hset; congruence.
Qed.

Lemma keeps_transaction {A} (m : M A) : keeps memCore m -> keeps memCore (transaction m).
Proof. intros Hm w. apply transaction_mem. intros w0 <-. apply Hm. Qed.
#[export] Hint Resolve keeps_transaction : keeps.

Section Components.
Context `{Codec}.

Section AnyView.
Context {X : Type} (f : world -> X) `{!View f}.

Lemma keeps_quarantineFile p : keeps f (quarantineTrafficRuntimeJournalFile p).
Proof. unfold quarantineTrafficRuntimeJournalFile. kept. Qed.

Lemma keeps_forPaths g ps : (forall p, keeps f (g p)) -> keeps f (forPaths g ps).
Proof.
  intros Hg. apply keeps_bind; [|kept].
  induction ps as [|p ps IH]; simpl; kept.
Qed.

Lemma keeps_quarantineInvalid ps : keeps f (quarantineInvalidTrafficRuntimeJournalFiles ps).
Proof. apply keeps_forPaths, keeps_quarantineFile. Qed.
Lemma keeps_quarantineFiles : keeps f quarantineTrafficRuntimeJournalFiles.
Proof. apply keeps_forPaths, keeps_quarantineFile. Qed.
Lemma keeps_removeFiles : keeps f removeTrafficRuntimeJournalFiles.
Proof. apply keeps_forPaths. kept. Qed.

Lemma keeps_readFiles : keeps f readTrafficRuntimeJournalFileDetailed.
Proof.
  unfold readTrafficRuntimeJournalFileDetailed.
  generalize ErrNotExist as e. generalize (nil : list string) at 2 as inv.
  induction [journalPath; backupPath] as [|p ps IH]; intros inv e; simpl; kept; auto.
Qed.

Lemma keeps_append l : keeps f (appendTrafficRuntimeArchive l).
Proof.
  unfold appendTrafficRuntimeArchive.
  assert (forall l, keeps f (writeRecords l)) by (intros k; induction k; simpl; kept; auto).
  kept; auto.
Qed.
End AnyView.

Lemma keeps_flushArchive_db b : keeps wDb (flushArchive b).
Proof.
  unfold flushArchive. pose proof (keeps_append wDb). kept.
Qed.

Lemma keeps_flushArchive_mem b : keeps memCore (flushArchive b).
Proof.
  unfold flushArchive. pose proof (keeps_append memCore).
  kept; apply keeps_archive; intros; repeat case_match; done.
Qed.
End Components.

#[export] Hint Resolve keeps_quarantineInvalid keeps_quarantineFiles keeps_removeFiles
  keeps_readFiles keeps_flushArchive_db keeps_flushArchive_mem : keeps.

(** ** Inversion of successful runs *)

Lemma bind_ok {A B} (m : M A) (k : A -> M B) w b w' :
  bind m k w = (Ok b, w') -> exists a w1, m w = (Ok a, w1) /\ k a w1 = (Ok b, w').
Proof. unfold bind. destruct (m w) as [[a|e] w1]; [eauto|discriminate]. Qed.

Lemma keeps_run {X A} (f : world -> X) (m : M A) w r w' :
  keeps f m -> m w = (r, w') -> f w' = f w.
Proof. intros Hm Hr. specialize (Hm w). by rewrite Hr in Hm. Qed.

Lemma exec_ok g w u w' : exec g w = (Ok u, w') -> wDb w' = g (wDb w).
Proof.
  unfold exec, bind. pose proof (keeps_step wDb ErrDb w) as Hs.
  destruct (step ErrDb w) as [[a|e] w1]; [|discriminate]. simpl in Hs.
  intros [= _ <-]. simpl. by rewrite Hs.
Qed.

Lemma query_ok {A} (g : database -> A) w a w' :
  query g w = (Ok a, w') -> a = g (wDb w) /\ wDb w' = wDb w.
Proof.
  unfold query, bind. pose proof (keeps_step wDb ErrDb w) as Hs.
  destruct (step ErrDb w) as [[u|e] w1]; [|discriminate]. simpl in Hs.
  intros [= <- <-]. unfold compose. by rewrite Hs.
Qed.

Lemma transaction_ok {A} (m : M A) w a w' :
  transaction m w = (Ok a, w') ->
  exists w0 w1, wDb w0 = wDb w /\ memCore w0 = memCore w /\ m w0 = (Ok a, w1) /\ wDb w' = wDb w1.
Proof.
  unfold transaction.
  pose proof (keeps_step wDb ErrDb w) as H1. pose proof (keeps_step memCore ErrDb w) as H2.
  destruct (step ErrDb w) as [[[]|e] w0]; [|discriminate].
  destruct (m w0) as [[b|e] w1] eqn:Hm; [|discriminate].
  pose proof (keeps_step wDb ErrDb w1) as H3.
  destruct (step ErrDb w1) as [[[]|e] w2]; [|discriminate].
  intros [= <- <-]. simpl in *. eauto 10.
Qed.

Lemma transaction_err {A} (m : M A) w e w' : transaction m w = (Err e, w') -> wDb w' = wDb w.
Proof.
  unfold transaction. pose proof (keeps_step wDb ErrDb w) as H1.
  destruct (step ErrDb w) as [[[]|e0] w0]; simpl in *; [|by intros [= _ <-]].
  destruct (m w0) as [[b|e1] w1]; [|by intros [= _ <-]].
  destruct (step ErrDb w1) as [[[]|e1] w2]; [discriminate|by intros [= _ <-]].
Qed.

Section Accounting.
Context {codec : Codec} {laws : CodecLaws}.

(** ** The invariant *)

Definition genOf (d : database) : string := default "" (metaRow d).
Definition cpOf (d : database) : Z := default 0 (checkpointRow d).

(** The entries that a restart would replay. *)
Definition isLive (d : database) (k : string * Z) : Prop := k.1 = genOf d /\ cpOf d < k.2.
Definition decodeEntry (raw : string) : list Stats := default [] (unmarshalSamples raw).

Definition tail (g : bucket -> Z) (d : database) : Z :=
  ksum (fun k raw => if decide (isLive d k) then wsum g (decodeEntry raw) else 0) (entryRows d).

(** The traffic the database accounts for: flushed and to be replayed. *)
Definition durable (g : bucket -> Z) (d : database) : Z := tsum g (statsRows d) + tail g d.

Definition goodEntry (raw : string) : Prop :=
  exists l, unmarshalSamples raw = Some l /\ Forall canonical l /\ l <> [] /\
    0 < byteLen raw <= trafficRuntimeJournalMaxBytes.

(** A row with a non-negative time and total. *)
Definition rowOk (b : bucket) (v : Z) : Prop := 0 <= v /\ 0 <= b.1.1.1 <= max_i64.

Record dbInv (d : database) : Prop := {
  inv_staging : stagingRow d = None;
  inv_cp : 0 <= cpOf d;
  inv_rows : forall b v, statsRows d !! b = Some v -> rowOk b v;
  inv_entry : forall k raw, entryRows d !! k = Some raw -> isLive d k -> goodEntry raw;
  inv_blank : trim_space (genOf d) = "" -> entryRows d = ∅ }.

(** The memory of a journal whose recovery succeeded mirrors the tail. *)
Record memInv (d : database) (j : journal) : Prop := {
  mem_init : initialized j = true;
  mem_gen : generation j = genOf d;
  mem_cp : checkpoint j = cpOf d;
  mem_blank : trim_space (genOf d) <> "";
  mem_seq : cpOf d <= sequence j;
  mem_last : forall k raw, entryRows d !! k = Some raw -> k.1 = genOf d -> k.2 <= sequence j;
  mem_wf : wfPending (pending j);
  mem_tail : forall g, psum g (pending j) = tail g d;
  mem_ahead : pending j <> ∅ -> cpOf d < sequence j }.

Definition ready (w : world) : Prop := memInv (wDb w) (wMem w).

Lemma ready_same w w' : wDb w' = wDb w -> memCore w' = memCore w -> ready w -> ready w'.
Proof.
  unfold ready, memCore. intros Hd Hm [????????]. rewrite Hd.
  injection Hm as ? Hi Hg Hc Hs Hp.
  split; rewrite ?Hi, ?Hg, ?Hc, ?Hs, ?Hp; done.
Qed.

Lemma goodEntry_wsum_nonneg raw : goodEntry raw -> 0 <= wsum one (decodeEntry raw).
Proof.
  intros (l & Hl & Hc & _). unfold decodeEntry. rewrite Hl. simpl.
  rewrite <- (accepted_canonical 60 l Hc). apply wsum_one_nonneg.
Qed.

Lemma tail_nonneg d : dbInv d -> 0 <= tail one d.
Proof.
  intros Hd. apply ksum_nonneg. intros k raw Hk. case_decide as Hl; [|done].
  apply goodEntry_wsum_nonneg. by apply (inv_entry d Hd k).
Qed.

Lemma tsum_one_nonneg d : dbInv d -> 0 <= tsum one (statsRows d).
Proof.
  intros Hd. apply ksum_nonneg. intros b v Hv.
  destruct (inv_rows d Hd b v Hv). unfold one. lia.
Qed.

(** ** The [stats] writes *)

Lemma upsertChunks_ok n : forall valid w u w',
  (length valid <= n)%nat -> upsertChunks n valid w = (Ok u, w') ->
  wDb w' = setStats (foldl upsertRow (statsRows (wDb w)) valid) (wDb w).
Proof.
  induction n as [|n IH]; intros valid w u w' Hn Hrun.
  { destruct valid; simpl in *; [|lia]. injection Hrun as _ <-. by destruct (wDb w). }
  destruct valid as [|s valid]; [injection Hrun as _ <-; by destruct (wDb w)|].
  cbn [upsertChunks] in Hrun. apply bind_ok in Hrun as ([] & w1 & H1 & H2).
  apply exec_ok in H1. apply IH in H2.
  - rewrite H2, H1. cbn [setStats statsRows metaRow checkpointRow stagingRow entryRows archiveKeyRow].
    by rewrite <- foldl_app, take_drop.
  - rewrite length_drop. unfold rowsPerInsert. simpl in *. lia.
Qed.

Lemma keeps_upsertBatch l : keeps memCore (upsertStatsTrafficBatch l).
Proof.
  unfold upsertStatsTrafficBatch.
  assert (forall n l, keeps memCore (upsertChunks n l)).
  { induction n as [|n IH]; intros k; simpl; [kept|]. destruct k; kept. }
  kept.
Qed.

Lemma upsertBatch_ok l w u w' :
  upsertStatsTrafficBatch l w = (Ok u, w') ->
  wDb w' = setStats (foldl upsertRow (statsRows (wDb w)) (accepted (nowUnix w) l)) (wDb w).
Proof.
  unfold upsertStatsTrafficBatch, bind, get. simpl. intros Hrun.
  by apply upsertChunks_ok in Hrun.
Qed.

Lemma upserts_rowOk l : forall t : statsTable,
  Forall canonical l ->
  (forall b v, t !! b = Some v -> rowOk b v) ->
  forall b v, foldl upsertRow t l !! b = Some v -> rowOk b v.
Proof.
  induction l as [|s l IH]; intros t Hl Ht b v; simpl; [apply Ht|].
  apply Forall_cons in Hl as [(_ & Hd & _ & _ & Htr & _) Hl]. intros Hfl. refine (IH _ Hl _ b v Hfl).
  intros b' v'. unfold upsertRow. intros [[<- <-]|[_ Hv]]%lookup_insert_Some; [|eauto].
  split; [|simpl; lia].
  destruct (t !! bucketOf s) as [x|] eqn:E; simpl; [|lia]. destruct (Ht _ _ E). lia.
Qed.

Lemma accepted_all_canonical now l :
  clockOk now -> Forall sampleOk l -> Forall canonical (accepted now l).
Proof.
  intros Hn Hl. apply Forall_forall. intros s Hs. apply list_elem_of_omap in Hs as (s0 & Hin & Hs0).
  rewrite Forall_forall in Hl. by apply (acceptSample_canonical now s0 s Hn (Hl s0 Hin)).
Qed.

(** Adding rows to [stats] keeps the invariant and adds to the total. *)
Lemma setStats_inv d l :
  dbInv d -> Forall canonical l ->
  let d' := setStats (foldl upsertRow (statsRows d) l) d in
  dbInv d' /\ (forall g, tail g d' = tail g d) /\ forall g, durable g d' = durable g d + wsum g l.
Proof.
  intros Hd Hl d'. split; [|split; [done|]].
  - destruct Hd. split; try done. by apply upserts_rowOk.
  - intros g. unfold durable. change (tail g d') with (tail g d).
    unfold d'. cbn [statsRows setStats]. rewrite tsum_upserts. lia.
Qed.

(** ** Flushing *)

Lemma flushTransaction_ok gen seq samples w u w' :
  dbInv (wDb w) -> cpOf (wDb w) < seq ->
  flushTransaction gen seq samples w = (Ok u, w') ->
  wDb w' = deleteEntriesUpTo gen seq (setCheckpoint (Some seq)
    (setStats (foldl upsertRow (statsRows (wDb w)) (accepted (nowUnix w) samples)) (wDb w))).
Proof.
  intros Hd Hseq Hrun. apply transaction_ok in Hrun as (w0 & w1 & H0 & Hm0 & Hrun & ->).
  assert (nowUnix w = nowUnix w0) as -> by (unfold nowUnix; injection Hm0; congruence).
  rewrite <- H0 in *. clear H0 Hm0 w.
  apply bind_ok in Hrun as (applied & wa & Ha & Hrun).
  assert (nowUnix wa = nowUnix w0) as Hnow.
  { eapply (keeps_run memCore) in Ha; [|eauto with keeps typeclass_instances].
    unfold nowUnix. injection Ha; congruence. }
  apply query_ok in Ha as [-> Ha].
  apply bind_ok in Hrun as ([] & wb & Hb & Hrun).
  unfold compose in Hb. fold (cpOf (wDb w0)) in Hb.
  destruct (Z.leb_spec seq (cpOf (wDb w0))); [lia|].
  apply bind_ok in Hb as ([] & wu & Hu & Hb). apply upsertBatch_ok in Hu. apply exec_ok in Hb.
  apply bind_ok in Hrun as ([] & wc & Hc & Hrun). apply exec_ok in Hc, Hrun.
  rewrite Hrun, Hc, Hb, Hu, Ha, Hnow. cbn [stagingRow setCheckpoint setStats].
  by rewrite (inv_staging _ Hd).
Qed.

(** The database after a flush: every live entry moved to [stats]. *)
Lemma flushed_inv d j l :
  dbInv d -> memInv d j -> cpOf d < sequence j ->
  Forall canonical l -> (forall g, wsum g l = psum g (pending j)) ->
  let d' := deleteEntriesUpTo (generation j) (sequence j) (setCheckpoint (Some (sequence j))
    (setStats (foldl upsertRow (statsRows d) l) d)) in
  dbInv d' /\ memInv d' (raiseCheckpoint (sequence j) (setPending ∅ (sequence j) j)) /\
  (forall g, tail g d' = 0) /\ forall g, durable g d' = durable g d.
Proof.
  intros Hd Hj Hseq Hl Hsum d'.
  assert (forall k raw, entryRows d' !! k = Some raw -> k.1 <> genOf d) as Hother.
  { intros k raw [Hk Hn]%map_lookup_filter_Some Hg. cbn in Hk, Hn. apply Hn.
    rewrite (mem_gen _ _ Hj). split; [done|]. by apply (mem_last _ _ Hj k raw). }
  assert (forall g, tail g d' = 0) as Htail.
  { intros g. apply ksum_zero. intros k raw Hk.
    rewrite decide_False; [done|]. intros [Hg _]. by apply (Hother k raw). }
  split; [|split; [|split; [done|]]].
  - destruct Hd as [H1 H2 H3 H4 H5]. split; [done|cbn; lia|..].
    + cbn. by apply upserts_rowOk.
    + intros k raw Hk [Hg _]. by destruct (Hother k raw).
    + intros Hb. cbn in *. by destruct (mem_blank _ _ Hj).
  - destruct Hj as [H1 H2 H3 H4 H5 H6 H7 H8 H9]. split; try done; cbn -[psum].
    + rewrite H3. by destruct (Z.ltb_spec (cpOf d) (sequence j)); [|lia].
    + intros k raw Hk Hg. by destruct (Hother k raw).
  - intros g. unfold durable. rewrite Htail. cbn [statsRows deleteEntriesUpTo setEntries setCheckpoint setStats].
    change (statsRows d') with (foldl upsertRow (statsRows d) l).
    rewrite tsum_upserts, Hsum, (mem_tail _ _ Hj). lia.
Qed.

(** When the journal is ready, [ensureReady] does nothing. *)
Lemma ensureReady_ready w : initialized (wMem w) = true -> ensureReady w = (Ok tt, w).
Proof. intros Hi. unfold ensureReady, bind, get, compose. by rewrite Hi. Qed.

Lemma keeps_flushTransaction g n l : keeps memCore (flushTransaction g n l).
Proof.
  unfold flushTransaction. apply keeps_transaction. pose proof keeps_upsertBatch.
  unfold deleteTrafficRuntimeJournalStage. kept.
Qed.

Lemma memCore_mem w w' : memCore w' = memCore w ->
  exists l b i t f dr, wMem w' = setArchive l b i t f dr
    (mkJournal (initialized (wMem w)) (generation (wMem w)) (archiveKey (wMem w'))
       (checkpoint (wMem w)) (sequence (wMem w)) (version (wMem w')) (pending (wMem w))
       [] 0 0 None false false).
Proof.
  unfold memCore. intros Heq. injection Heq as _ <- <- <- <- <-.
  destruct (wMem w') as [? ? ? ? ? ? ? l b i t f dr]. by exists l, b, i, t, f, dr.
Qed.

(** What a flush guarantees. *)
Definition flushPost (w : world) (out : res jerr unit * world) : Prop :=
  dbInv (wDb out.2) /\ ready out.2 /\ wNano out.2 = wNano w /\
  (forall g, durable g (wDb out.2) = durable g (wDb w)) /\
  (out.1 = Ok tt -> forall g, tail g (wDb out.2) = 0).

Lemma flushPost_same w w1 r w2 :
  dbInv (wDb w) -> ready w -> wDb w1 = wDb w -> memCore w1 = memCore w ->
  (r = Ok tt -> forall g, tail g (wDb w) = 0) -> w1 = w2 -> flushPost w (r, w2).
Proof.
  intros Hd Hj H1 H2 Ht <-. unfold flushPost. simpl. rewrite H1.
  split; [done|split; [by apply (ready_same w)|split; [|done]]].
  unfold memCore in H2. congruence.
Qed.

Lemma tail_empty_pending w : ready w -> pending (wMem w) = ∅ -> forall g, tail g (wDb w) = 0.
Proof.
  intros Hj He g. rewrite <- (mem_tail _ _ Hj), He. unfold psum. apply msum_empty.
Qed.

Lemma flush_spec w : dbInv (wDb w) -> ready w -> flushPost w (flush w).
Proof.
  intros Hd Hj. unfold flush. unfold bind at 1. rewrite ensureReady_ready by apply Hj.
  unfold bind at 1. pose proof (keeps_history wDb w) as Hh1. pose proof (keeps_history memCore w) as Hh2.
  destruct (EnsureHistoryStorageReady w) as [[[]|e] w1]; simpl in Hh1, Hh2;
    [|by eapply (flushPost_same w w1)].
  assert (ready w1) as Hj1 by by apply (ready_same w).
  unfold bind at 1, get. case_bool_decide as Hp.
  - pose proof (keeps_flushArchive_db true w1) as Ha1. pose proof (keeps_flushArchive_mem true w1) as Ha2.
    destruct (flushArchive true w1) as [r w2]; simpl in *.
    eapply (flushPost_same w w2); [done..|congruence|congruence| |done].
    intros _. rewrite <- Hh1. by apply tail_empty_pending.
  - rewrite <- Hh1 in Hd. pose proof (mem_ahead _ _ Hj1 Hp) as Hseq.
    destruct (sortedPending_spec _ (mem_wf _ _ Hj1)) as (Hcan & Hsum & _).
    set (l := sortedTrafficRuntimePendingStats (pending (wMem w1))) in *.
    unfold bind at 1.
    pose proof (keeps_flushTransaction (generation (wMem w1)) (sequence (wMem w1)) l w1) as Hkt.
    destruct (flushTransaction _ _ l w1) as [[[]|e] w2] eqn:Hrun; simpl in Hkt.
    2: { apply transaction_err in Hrun. eapply (flushPost_same w w2); [congruence|done|congruence..]. }
    apply flushTransaction_ok in Hrun; [|done..].
    rewrite (accepted_canonical _ l Hcan) in Hrun.
    destruct (flushed_inv _ _ l Hd Hj1 Hseq Hcan Hsum) as (Hd' & Hj' & Ht' & Hdur).
    rewrite <- Hrun in *. unfold bind at 1, modifyMem.
    set (w3 := setMem _ w2).
    assert (ready w3) as Hj3.
    { unfold ready, w3. destruct (memCore_mem _ _ Hkt) as (? & ? & ? & ? & ? & ? & Heq).
      simpl. rewrite Heq. by destruct Hj'. }
    assert (wNano w3 = wNano w) as Hnano.
    { unfold memCore in *. simpl in *. congruence. }
    assert (forall (m : M unit), keeps wDb m -> keeps memCore m -> flushPost w (m w3)) as Hpost.
    { intros m Hm1 Hm2. specialize (Hm1 w3). specialize (Hm2 w3). unfold flushPost.
      rewrite Hm1. change (wDb w3) with (wDb w2).
      split; [done|]. split; [by apply (ready_same w3)|]. split.
      { rewrite <- Hnano. unfold memCore in Hm2. congruence. }
      split; [|done]. intros g. by rewrite Hdur, Hh1. }
    apply Hpost; kept; eauto with keeps typeclass_instances.
Qed.

(** ** Staging *)

Definition addEntry (d : database) (n : Z) (raw : string) : database :=
  setEntries (<[(genOf d, n) := raw]> (entryRows d)) d.

Lemma addEntry_tail d n raw g :
  entryRows d !! (genOf d, n) = None -> cpOf d < n ->
  tail g (addEntry d n raw) = tail g d + wsum g (decodeEntry raw).
Proof.
  intros Hnone Hn.
  change (tail g (addEntry d n raw)) with
    (ksum (fun k raw => if decide (isLive d k) then wsum g (decodeEntry raw) else 0)
          (<[(genOf d, n) := raw]> (entryRows d))).
  rewrite ksum_insert by done. fold (tail g d). rewrite decide_True by done. lia.
Qed.

(** A committed stage: one more entry, mirrored in memory. *)
Lemma staged_inv d j c now :
  dbInv d -> memInv d j -> clockOk now -> Forall canonical c -> c <> [] ->
  byteLen (marshalSamples c) <= trafficRuntimeJournalMaxBytes ->
  durable one d + wsum one c <= max_i64 ->
  let d' := addEntry d (sequence j + 1) (marshalSamples c) in
  dbInv d' /\ memInv d' (setPending (addAll now (pending j) c) (sequence j + 1) j) /\
  forall g, durable g d' = durable g d + wsum g c.
Proof.
  intros Hd Hj Hnow Hc Hne Hlen Hmax d'.
  assert (entryRows d !! (genOf d, sequence j + 1) = None) as Hnone.
  { destruct (entryRows d !! (genOf d, sequence j + 1)) eqn:E; [|done].
    pose proof (mem_last _ _ Hj _ _ E eq_refl). simpl in *. lia. }
  pose proof (mem_seq _ _ Hj) as Hseq.
  assert (decodeEntry (marshalSamples c) = c) as Hdec.
  { unfold decodeEntry. by rewrite samples_roundtrip. }
  assert (forall g, tail g d' = tail g d + wsum g c) as Htail.
  { intros g. unfold d'. rewrite addEntry_tail by (done || lia). by rewrite Hdec. }
  pose proof (tsum_one_nonneg d Hd). pose proof (mem_tail _ _ Hj one).
  destruct (addAll_spec now c (pending j) Hnow (mem_wf _ _ Hj)) as [Hwf Hsum].
  { apply (Forall_impl _ _ _ Hc). apply canonical_sampleOk. }
  { rewrite (accepted_canonical now c Hc). unfold durable in Hmax. lia. }
  rewrite (accepted_canonical now c Hc) in Hsum.
  assert (entryRows d' = <[(genOf d, sequence j + 1) := marshalSamples c]> (entryRows d)) as Hrows by done.
  split; [|split].
  - destruct Hd as [H1 H2 H3 H4 H5]. split; try done.
    + rewrite Hrows. intros k raw [[<- <-]|[_ Hk]]%lookup_insert_Some Hl; [|by apply (H4 k)].
      exists c. rewrite samples_roundtrip by done. split; [done|split; [done|split; [done|]]].
      split; [|done]. unfold byteLen. pose proof (samples_nonempty c).
      destruct (marshalSamples c); [done|]. simpl. lia.
    + intros Hb. by destruct (mem_blank _ _ Hj).
  - destruct Hj as [H1 H2 H3 H4 H5 H6 H7 H8 H9]. split; try done;
      cbn [setPending sequence pending].
    + change (cpOf d') with (cpOf d). lia.
    + rewrite Hrows. intros k raw [[<- <-]|[_ Hk]]%lookup_insert_Some Hl; [done|].
      pose proof (H6 k raw Hk Hl). lia.
    + intros g. rewrite Hsum, Htail, H8. lia.
    + intros _. change (cpOf d') with (cpOf d). lia.
  - intros g. unfold durable. rewrite Htail. change (statsRows d') with (statsRows d). lia.
Qed.

(** The outcome of the transaction body: direct rows, or one entry. *)
Definition stagedBy (w : world) (samples : list Stats) (st : option trafficRuntimeJournalStage)
  (d' : database) : Prop :=
  match st with
  | None => exists l, d' = setStats (foldl upsertRow (statsRows (wDb w)) l) (wDb w) /\
              Forall canonical l /\
              forall g, wsum g l = wsum g (accepted (nowUnix w) samples)
  | Some st => let c := compactTrafficRuntimeSamples (nowUnix w) samples in
              stSamples st = c /\ c <> [] /\ Sequence (stPayload st) = sequence (wMem w) + 1 /\
              byteLen (marshalSamples c) <= trafficRuntimeJournalMaxBytes /\
              d' = addEntry (wDb w) (sequence (wMem w) + 1) (marshalSamples c)
  end.

Lemma fallback_ok w samples st w' :
  clockOk (nowUnix w) -> Forall sampleOk samples ->
  bind (upsertStatsTrafficBatch samples) (fun _ => ret (@None trafficRuntimeJournalStage)) w = (Ok st, w') ->
  stagedBy w samples st (wDb w').
Proof.
  intros Hn Hok Hrun. apply bind_ok in Hrun as ([] & w1 & Hu & [= <- <-]).
  apply upsertBatch_ok in Hu. exists (accepted (nowUnix w) samples).
  split; [done|split; [by apply accepted_all_canonical|done]].
Qed.

Lemma persist_ok st w u w' :
  persistTrafficRuntimeJournalStage st w = (Ok u, w') ->
  wDb w' = setEntries (<[(Generation (stPayload st), Sequence (stPayload st)) := stRaw st]>
                         (entryRows (wDb w))) (wDb w).
Proof.
  unfold persistTrafficRuntimeJournalStage. case_match; [done|]. intros Hrun.
  apply bind_ok in Hrun as (usage & w1 & Hq & Hrun). apply query_ok in Hq as [_ Hq].
  case_match; [done|]. apply exec_ok in Hrun. by rewrite Hrun, Hq.
Qed.

Lemma keeps_persist {X} (f : world -> X) `{!View f} st w e w' :
  persistTrafficRuntimeJournalStage st w = (Err e, w') -> f w' = f w.
Proof.
  unfold persistTrafficRuntimeJournalStage. case_match; [by intros [= _ <-]|].
  unfold bind. pose proof (keeps_query f (fun d =>
    let rows := filter (fun row : (string * Z) * string => row.1.1 = Generation (stPayload st))
                  (map_to_list (entryRows d)) in
    (Z.of_nat (length rows), zsum ((fun row => byteLen row.2) <$> rows))) w) as Hq.
  destruct (query _ w) as [[usage|e1] w1]; simpl in Hq; [|by intros [= _ <-]].
  case_match; [by intros [= _ <-]|]. unfold exec, bind.
  pose proof (keeps_step f ErrDb w1) as Hs. destruct (step ErrDb w1) as [[[]|e2] w2]; [done|].
  intros [= _ <-]. simpl in *. congruence.
Qed.

Lemma stage_run samples w :
  initialized (wMem w) = true ->
  stage samples w =
  let c := compactTrafficRuntimeSamples (nowUnix w) samples in
  match c with
  | [] => (Ok None, w)
  | _ => if trafficRuntimeJournalMaxBytes <? byteLen (marshalSamples c) then (Err ErrTooLarge, w)
         else (Ok (Some (mkStage
                (mkPayload trafficRuntimeJournalSchema (generation (wMem w)) (sequence (wMem w) + 1) [] "")
                (marshalSamples c)
                (trafficRuntimeJournalPendingLimit <=?
                   Z.of_nat (size (pending (wMem w))) + Z.of_nat (length c)) c)), w)
  end.
Proof.
  intros Hi. unfold stage. unfold bind at 1. rewrite ensureReady_ready by done.
  unfold bind, get. cbv zeta. destruct (compactTrafficRuntimeSamples (nowUnix w) samples); [done|].
  by case_match.
Qed.

Lemma stageForTransaction_mem samples w :
  initialized (wMem w) = true ->
  memCore (snd (stageTrafficRuntimeStatsForTransaction samples w)) = memCore w.
Proof.
  intros Hi. unfold stageTrafficRuntimeStatsForTransaction.
  destruct samples as [|s samples]; [done|]. set (l := s :: samples).
  assert (keeps memCore (bind (upsertStatsTrafficBatch l) (fun _ => ret (@None trafficRuntimeJournalStage))))
    as Hfall by (pose proof (keeps_upsertBatch l); kept).
  unfold bind at 1, try. rewrite stage_run by done. cbv zeta.
  destruct (compactTrafficRuntimeSamples (nowUnix w) l) as [|c0 c]; [done|].
  destruct (trafficRuntimeJournalMaxBytes <? _); [apply Hfall|]. unfold bind at 1. set (st := mkStage _ _ _ _).
  pose proof (keeps_run memCore (persistTrafficRuntimeJournalStage st) w) as Hp.
  destruct (persistTrafficRuntimeJournalStage st w) as [[[]|e] w1]; simpl.
  - apply (Hp (Ok tt)); [|done]. unfold persistTrafficRuntimeJournalStage. kept.
  - assert (memCore w1 = memCore w) as <-
      by (apply (Hp (Err e)); [unfold persistTrafficRuntimeJournalStage; kept|done]).
    destruct e; done || apply Hfall.
Qed.

Lemma stageForTransaction_ok samples w st w' :
  ready w -> clockOk (nowUnix w) -> Forall sampleOk samples ->
  wsum one (accepted (nowUnix w) samples) <= max_i64 ->
  stageTrafficRuntimeStatsForTransaction samples w = (Ok st, w') ->
  stagedBy w samples st (wDb w').
Proof.
  intros Hj Hn Hok Hmax. unfold stageTrafficRuntimeStatsForTransaction.
  destruct samples as [|s samples].
  { intros [= <- <-]. exists []. split; [by destruct (wDb w)|done]. }
  set (l := s :: samples) in *. destruct (compact_spec _ l Hn Hok Hmax) as [Hcan Hsum].
  unfold bind at 1, try. rewrite stage_run by apply Hj. cbv zeta.
  destruct (compactTrafficRuntimeSamples (nowUnix w) l) as [|c0 c] eqn:Hcomp.
  { intros [= <- <-]. exists []. split; [by destruct (wDb w)|done]. }
  rewrite <- Hcomp in *. destruct (Z.ltb_spec trafficRuntimeJournalMaxBytes
    (byteLen (marshalSamples (compactTrafficRuntimeSamples (nowUnix w) l)))) as [|Hlen].
  { by apply fallback_ok. }
  unfold bind at 1. set (st0 := mkStage _ _ _ _).
  destruct (persistTrafficRuntimeJournalStage st0 w) as [[[]|e] w1] eqn:Hp.
  - intros [= <- <-]. apply persist_ok in Hp. simpl in Hp.
    rewrite (mem_gen _ _ Hj) in Hp.
    split; [done|]. rewrite Hcomp. split; [done|]. rewrite <- Hcomp. done.
  - pose proof (keeps_persist wDb _ _ _ _ Hp) as H1.
    pose proof (keeps_persist memCore _ _ _ _ Hp) as H2.
    assert (nowUnix w1 = nowUnix w) as Hnow by (unfold nowUnix, memCore in *; congruence).
    destruct e; try done. intros Hrun. apply fallback_ok in Hrun; [|by rewrite Hnow|done]. revert Hrun.
    destruct st as [st|]; simpl; rewrite Hnow, H1; [|done].
    unfold memCore in H2. by assert (sequence (wMem w1) = sequence (wMem w)) as -> by congruence.
Qed.

(** Committing a stage in memory. *)
Lemma queueArchive_core l n : forall j,
  let j' := queueArchiveLocked l n j in
  (initialized j', generation j', checkpoint j', sequence j', pending j') =
  (initialized j, generation j, checkpoint j, sequence j, pending j).
Proof.
  unfold queueArchiveLocked. induction l as [|s l IH]; intros j; simpl; [done|].
  rewrite IH. unfold queueArchiveOne. by repeat case_match.
Qed.

Lemma commitStage_run st w :
  exists w', commitStage st w = (Ok tt, w') /\ wDb w' = wDb w /\
    memCore w' = (wNano w, initialized (wMem w), generation (wMem w), checkpoint (wMem w),
                  Sequence (stPayload st), addAll (nowUnix w) (pending (wMem w)) (stSamples st)).
Proof.
  eexists. split; [reflexivity|]. split; [done|]. unfold memCore. cbn [wMem setMem wNano].
  pose proof (queueArchive_core (stSamples st) (Sequence (stPayload st))
    (setPending (addAll (nowUnix w) (pending (wMem w)) (stSamples st)) (Sequence (stPayload st)) (wMem w))) as Hq.
  cbv zeta in Hq. cbn [setPending initialized generation checkpoint sequence pending] in Hq.
  congruence.
Qed.

Definition stagePost (w : world) (samples : list Stats) (out : res jerr unit * world) : Prop :=
  dbInv (wDb out.2) /\ ready out.2 /\ wNano out.2 = wNano w /\
  forall g, durable g (wDb out.2) = durable g (wDb w) +
    match out.1 with Ok _ => wsum g (accepted (nowUnix w) samples) | Err _ => 0 end.

(** From a committed transaction to a ready world. *)
Lemma commitStaged_ok w samples st w1 :
  dbInv (wDb w) -> ready w -> clockOk (nowUnix w) -> Forall sampleOk samples ->
  durable one (wDb w) + wsum one (accepted (nowUnix w) samples) <= max_i64 ->
  memCore w1 = memCore w -> stagedBy w samples st (wDb w1) ->
  exists b w2, commitStagedTrafficRuntimeStats st w1 = (Ok b, w2) /\ stagePost w samples (Ok tt, w2).
Proof.
  intros Hd Hj Hn Hok Hmax Hm Hst.
  assert (wNano w1 = wNano w) as Hnano by (unfold memCore in Hm; congruence).
  destruct st as [st|]; simpl in Hst.
  - destruct Hst as (Hs & Hne & Hq & Hlen & Hdb).
    set (c := compactTrafficRuntimeSamples (nowUnix w) samples) in *.
    pose proof (tsum_one_nonneg _ Hd). pose proof (tail_nonneg _ Hd).
    destruct (compact_spec _ _ Hn Hok) as [Hcan Hsum]; [unfold durable in Hmax; lia|]. fold c in Hcan, Hsum.
    destruct (staged_inv (wDb w) (wMem w) c (nowUnix w) Hd Hj Hn Hcan Hne Hlen) as (Hd' & Hj' & Hdur).
    { by rewrite Hsum. }
    destruct (commitStage_run st w1) as (w2 & Hrun & H2 & Hmem).
    exists (stFlushNow st), w2. unfold commitStagedTrafficRuntimeStats, bind. rewrite Hrun.
    split; [done|]. unfold stagePost. simpl. rewrite H2, Hdb.
    split; [done|]. split; [|split].
    + rewrite <- Hdb, <- H2 in Hj'. refine (ready_same (setMem _ w2) w2 eq_refl _ Hj').
      rewrite Hmem. unfold memCore. cbn [wNano wMem setMem setPending initialized generation checkpoint sequence pending].
      unfold memCore in Hm, Hmem. unfold nowUnix. rewrite Hs, Hq. congruence.
    + unfold memCore in Hmem. congruence.
    + intros g. by rewrite Hdur, Hsum.
  - destruct Hst as (l & Hdb & Hnn & Hsum). exists false, w1. split; [done|].
    destruct (setStats_inv _ l Hd Hnn) as (Hd' & Ht' & Hdur). unfold stagePost. simpl. rewrite Hdb.
    split; [done|]. split; [|split; [done|by intros g; rewrite Hdur, Hsum]].
    unfold ready in *. rewrite Hdb. unfold memCore in Hm. injection Hm as _ Hi Hg Hc Hsq Hp.
    destruct Hj as [H1 H2 H3 H4 H5 H6 H7 H8 H9].
    split; rewrite ?Hi, ?Hg, ?Hc, ?Hsq, ?Hp; done.
Qed.

(** The whole staging transaction, committed or not. *)
Lemma stageTransaction_spec w l r w' :
  ready w -> clockOk (nowUnix w) -> Forall sampleOk l ->
  wsum one (accepted (nowUnix w) l) <= max_i64 ->
  transaction (stageTrafficRuntimeStatsForTransaction l) w = (r, w') ->
  memCore w' = memCore w /\
  match r with Ok st => stagedBy w l st (wDb w') | Err _ => wDb w' = wDb w end.
Proof.
  intros Hj Hn Hok Hmax Htx. split.
  - change w' with (r, w').2. rewrite <- Htx. apply transaction_mem. intros w0 Hm0.
    rewrite <- Hm0. apply stageForTransaction_mem.
    unfold memCore in Hm0. injection Hm0 as _ -> _. apply Hj.
  - destruct r as [st|e]; [|by apply transaction_err in Htx].
    apply transaction_ok in Htx as (w0 & w3 & H0 & Hm0 & Hrun & H3).
    assert (nowUnix w0 = nowUnix w) as Hnow0 by (unfold nowUnix, memCore in *; congruence).
    assert (sequence (wMem w0) = sequence (wMem w)) as Hs0 by (unfold memCore in Hm0; congruence).
    apply stageForTransaction_ok in Hrun; rewrite ?Hnow0; [|by apply (ready_same w)|done..].
    rewrite H3. revert Hrun. destruct st as [st|]; simpl; rewrite Hnow0, H0, ?Hs0; done.
Qed.

Lemma StageTrafficRuntimeStats_spec w samples :
  dbInv (wDb w) -> ready w -> clockOk (nowUnix w) -> Forall sampleOk samples ->
  durable one (wDb w) + wsum one (accepted (nowUnix w) samples) <= max_i64 ->
  stagePost w samples (StageTrafficRuntimeStats samples w).
Proof.
  intros Hd Hj Hn Hok Hmax. unfold StageTrafficRuntimeStats.
  destruct samples as [|s samples].
  { unfold stagePost. simpl. split_and!; try done. intros g. unfold wsum. simpl. lia. }
  set (l := s :: samples) in *.
  assert (forall e w', wDb w' = wDb w -> memCore w' = memCore w -> stagePost w l (Err e, w')) as Hfail.
  { intros e w' H1 H2. unfold stagePost. simpl. rewrite H1.
    split; [done|split; [by apply (ready_same w)|split; [unfold memCore in H2; congruence|]]].
    intros g. lia. }
  unfold bind at 1. rewrite ensureReady_ready by apply Hj. unfold bind at 1.
  pose proof (keeps_history wDb w) as Hh1. pose proof (keeps_history memCore w) as Hh2.
  destruct (EnsureHistoryStorageReady w) as [[[]|e] w1]; simpl in Hh1, Hh2; [|by apply Hfail].
  assert (ready w1) as Hj1 by by apply (ready_same w).
  assert (nowUnix w1 = nowUnix w) as Hnow by (unfold nowUnix, memCore in *; congruence).
  assert (stagePost w l = stagePost w1 l) as Heq.
  { unfold stagePost. rewrite Hh1, Hnow. unfold memCore in Hh2. by assert (wNano w1 = wNano w) as -> by congruence. }
  rewrite Heq in *. rewrite <- Hnow, <- Hh1 in Hmax. rewrite <- Hh1 in Hd, Hfail. rewrite <- Hnow in Hn.
  pose proof (tsum_one_nonneg _ Hd). pose proof (tail_nonneg _ Hd).
  unfold bind at 1. destruct (transaction _ w1) as [r w2] eqn:Htx.
  destruct (stageTransaction_spec w1 l r w2 Hj1 Hn Hok) as [Hm Hst]; [unfold durable in Hmax; lia|done|].
  destruct r as [st|e]; [|apply Hfail; congruence].
  destruct (commitStaged_ok w1 l st w2 Hd Hj1 Hn Hok Hmax Hm Hst) as (b & w3 & Hc & Hpost).
  unfold bind at 1. rewrite Hc. destruct b; [|done]. unfold bind, try.
  destruct Hpost as (Hd3 & Hj3 & Hn3 & Hs3). simpl in *.
  destruct (flush_spec w3 Hd3 Hj3) as (Hd4 & Hj4 & Hn4 & Hs4 & _).
  destruct (flush w3) as [r4 w4]. simpl in *. unfold stagePost. simpl.
  split; [done|]. split; [done|]. split; [congruence|]. intros g. by rewrite Hs4, Hs3.
Qed.

(** ** Start-up: readiness

  A Hoare triple with a postcondition for success and one for failure. *)

Definition hoare {A} (P : world -> Prop) (m : M A) (Q : A -> world -> Prop) (E : world -> Prop) : Prop :=
  forall w, P w -> match m w with (Ok a, w') => Q a w' | (Err _, w') => E w' end.

Lemma hoare_bind {A B} P (m : M A) R (k : A -> M B) Q E :
  hoare P m R E -> (forall a, hoare (R a) (k a) Q E) -> hoare P (bind m k) Q E.
Proof.
  intros Hm Hk w HP. specialize (Hm w HP). unfold bind.
  destruct (m w) as [[a|e] w1]; [by apply Hk|done].
Qed.

Lemma hoare_conseq {A} (P P' : world -> Prop) (m : M A) Q Q' (E E' : world -> Prop) :
  (forall w, P w -> P' w) -> hoare P' m Q' E' ->
  (forall a w, Q' a w -> Q a w) -> (forall w, E' w -> E w) -> hoare P m Q E.
Proof.
  intros HP Hm HQ HE w Hw. specialize (Hm w (HP w Hw)). destruct (m w) as [[a|e] w']; auto.
Qed.

Definition nonBlank (s : string) : Prop := trim_space s <> "".

(** Nothing the accounting depends on has changed since [w0]. *)
Record booting (w0 w : world) : Prop := {
  boot_inv : dbInv (wDb w);
  boot_sum : forall g, durable g (wDb w) = durable g (wDb w0);
  boot_mem : memCore w = memCore w0;
  boot_random : Forall nonBlank (wRandom w) }.

Lemma booting_faults w0 l w : booting w0 w -> booting w0 (setFaults l w).
Proof. by intros [????]. Qed.

Lemma hoare_exec (P : world -> Prop) f (Q E : world -> Prop) :
  (forall w, P w -> E w) -> (forall w l, P w -> P (setFaults l w)) ->
  (forall w, P w -> Q (setDb (f (wDb w)) w)) ->
  hoare P (exec f) (fun _ => Q) E.
Proof.
  intros HB HF HQ w HP. unfold exec, bind, step.
  destruct (wFaults w) as [|[] l]; simpl; 
    [by apply HQ|by apply HB, HF|exact (HQ _ (HF w l HP))].
Qed.

Lemma hoare_query {A} (P : world -> Prop) (f : database -> A) (E : world -> Prop) :
  (forall w, P w -> E w) -> (forall w l, P w -> P (setFaults l w)) ->
  hoare P (query f) (fun a w => P w /\ a = f (wDb w)) E.
Proof.
  intros HB HF w HP. unfold query, bind, step.
  destruct (wFaults w) as [|[] l]; simpl; [done|by apply HB, HF|split; [by apply HF|done]].
Qed.

Lemma hoare_random w0 (P : world -> Prop) :
  (forall w, P w -> booting w0 w) -> (forall w l, P w -> Forall nonBlank l -> P (setRandom l w)) ->
  hoare P newTrafficRuntimeJournalGeneration (fun g w => P w /\ nonBlank g) (booting w0).
Proof.
  intros HB HR w HP. unfold newTrafficRuntimeJournalGeneration.
  pose proof (boot_random _ _ (HB w HP)) as Hr.
  destruct (wRandom w) as [|g l]; simpl; [by apply HB|].
  apply Forall_cons in Hr as [Hg Hl]. split; [by apply HR|done].
Qed.

(** Giving a blank database its generation. *)
Lemma setMeta_inv d g : dbInv d -> trim_space (genOf d) = "" -> nonBlank g ->
  dbInv (setMeta (Some g) d) /\ forall h, durable h (setMeta (Some g) d) = durable h d.
Proof.
  intros [H1 H2 H3 H4 H5] Hb Hg. pose proof (H5 Hb) as He. split.
  - split; try done. intros k raw. cbn [entryRows setMeta]. rewrite He. by rewrite lookup_empty.
  - intros h. unfold durable, tail. cbn [entryRows setMeta statsRows]. rewrite He.
    by rewrite !ksum_empty.
Qed.

Definition readyAt (w0 w : world) : Prop :=
  dbInv (wDb w) /\ (forall g, durable g (wDb w) = durable g (wDb w0)) /\ wNano w = wNano w0 /\
  initialized (wMem w) = true /\ generation (wMem w) = genOf (wDb w) /\
  checkpoint (wMem w) = cpOf (wDb w) /\ sequence (wMem w) = cpOf (wDb w) /\
  pending (wMem w) = pending (wMem w0) /\ nonBlank (genOf (wDb w)).

(** The generation in memory is the one of the database, and not blank. *)
Definition generationKnown (w0 : world) (gen : string) (w : world) : Prop :=
  booting w0 w /\ gen = genOf (wDb w) /\ nonBlank gen.

Lemma loadGeneration_spec w0 :
  hoare (booting w0) loadGeneration (generationKnown w0) (booting w0).
Proof.
  eapply hoare_bind; [apply hoare_query; [done|intros; by apply booting_faults]|intros gen].
  destruct (String.eqb_spec (trim_space gen) "") as [Hb|Hb]; [|by intros w [Hw Hg]].
  eapply hoare_bind; [apply hoare_random|intros g].
  - by intros w [??].
  - intros w l [[????] ?] Hl. by split.
  - apply (hoare_bind _ _ (fun _ => generationKnown w0 g)); [|by intros _ w Hw].
    apply hoare_exec; [by intros w [[??]?]| |].
    + intros w l [[??]?]. split; [split; [by apply booting_faults|done]|done].
    + intros w [[[H1 H2 H3 H4] Hg] Hn]. rewrite Hg in Hb.
      destruct (setMeta_inv _ g H1 Hb Hn) as [Hd Hs].
      split; [|done]. split; [done| |done|done]. intros h. cbn [wDb setDb]. by rewrite Hs.
Qed.

Lemma generationKnown_faults w0 gen w l :
  generationKnown w0 gen w -> generationKnown w0 gen (setFaults l w).
Proof. intros [??]. split; [by apply booting_faults|done]. Qed.

Lemma generationKnown_booting w0 gen w : generationKnown w0 gen w -> booting w0 w.
Proof. by intros [??]. Qed.

Lemma loadArchiveKey_spec w0 gen :
  hoare (generationKnown w0 gen) loadArchiveKey (fun _ => generationKnown w0 gen) (booting w0).
Proof.
  pose proof (generationKnown_booting w0 gen) as HB.
  pose proof (generationKnown_faults w0 gen) as HF.
  eapply hoare_bind; [apply hoare_query; eauto|intros key].
  apply (hoare_conseq _ (generationKnown w0 gen) _ _ (fun _ => generationKnown w0 gen) _ (booting w0));
    [by intros w [? _]| |done..].
  destruct (String.eqb (trim_space key) ""); [|by intros w Hw].
  eapply hoare_bind; [apply (hoare_random w0 (generationKnown w0 gen)); [eauto|]|intros k].
  - intros w l [[????] ?] Hl. by split.
  - apply (hoare_bind _ _ (fun _ => generationKnown w0 gen)); [|by intros _ w Hw].
    apply hoare_exec; [intros w [? _]; eauto|intros w l [??]; eauto|].
    intros w [[[[I1 I2 I3 I4 I5] H2 H3 H4] Hg] _]. split; [|done]. by split.
Qed.

Lemma ensureReady_spec w0 :
  initialized (wMem w0) = false ->
  hoare (booting w0) ensureReady (fun _ => readyAt w0) (booting w0).
Proof.
  intros Hi w Hw. unfold ensureReady, bind at 1, get, compose.
  assert (initialized (wMem w) = false) as ->.
  { pose proof (boot_mem _ _ Hw) as Hm. unfold memCore in Hm. congruence. }
  revert w Hw. change (hoare (booting w0) initializeJournal (fun _ => readyAt w0) (booting w0)).
  assert (hoare (booting w0) createTable (fun _ => booting w0) (booting w0)) as Hct.
  { apply hoare_exec; [done|intros; by apply booting_faults|]. by intros w [????]. }
  unfold initializeJournal.
  do 5 (apply (hoare_bind _ _ (fun _ => booting w0)); [done|intros _]).
  eapply hoare_bind; [apply loadGeneration_spec|intros gen].
  eapply hoare_bind; [apply loadArchiveKey_spec|intros key].
  eapply hoare_bind; [apply hoare_query; eauto using generationKnown_booting, generationKnown_faults|].
  intros cp w [[[H1 H2 H3 H4] [Hg Hn]] Hcp]. unfold modifyMem, readyAt. cbn.
  unfold memCore in H3. injection H3 as E1 E2 E3 E4 E5 E6. subst gen. by split_and!.
Qed.

(** ** Start-up: replay *)

Definition selectRow (g : string) (cp : Z) (row : (string * Z) * string) : option (Z * string) :=
  if bool_decide (row.1.1 = g) && (cp <? row.1.2) then Some (row.1.2, row.2) else None.

Lemma selectRow_Some g cp row n raw :
  selectRow g cp row = Some (n, raw) <-> row = ((g, n), raw) /\ cp < n.
Proof.
  unfold selectRow. destruct row as [[g' n'] raw']. simpl.
  case_bool_decide; simpl; [|naive_solver].
  destruct (Z.ltb_spec cp n'); naive_solver lia.
Qed.

Lemma selectEntries_perm g cp d :
  selectEntries g cp d ≡ₚ omap (selectRow g cp) (map_to_list (entryRows d)).
Proof. apply merge_sort_Permutation. Qed.

Lemma elem_of_selectEntries g cp d n raw :
  (n, raw) ∈ selectEntries g cp d <-> entryRows d !! (g, n) = Some raw /\ cp < n.
Proof.
  rewrite selectEntries_perm, list_elem_of_omap. split.
  - intros (row & Hin & [-> Hn]%selectRow_Some). by apply elem_of_map_to_list in Hin.
  - intros [Hk Hn]. exists ((g, n), raw).
    split; [by apply elem_of_map_to_list|by apply selectRow_Some].
Qed.

Lemma selectRows_NoDup g cp (rows : list ((string * Z) * string)) :
  NoDup rows.*1 -> NoDup (omap (selectRow g cp) rows).*1.
Proof.
  induction rows as [|row rows IH]; simpl; [constructor|].
  intros [Hnin Hnd]%NoDup_cons. destruct (selectRow g cp row) as [[n raw]|] eqn:E; [|by apply IH].
  apply selectRow_Some in E as [-> Hn]. simpl. apply NoDup_cons. split; [|by apply IH].
  intros ([n' raw'] & Heq & Hin)%list_elem_of_fmap. simpl in Heq. subst n'.
  apply list_elem_of_omap in Hin as (row & Hin & [-> _]%selectRow_Some).
  apply Hnin. apply list_elem_of_fmap. by exists ((g, n), raw').
Qed.

Definition seqBefore (a b : Z * string) : Prop := a.1 < b.1.

Lemma sorted_strict (l : list (Z * string)) :
  StronglySorted (fun a b => Is_true (a.1 <=? b.1)) l -> NoDup l.*1 -> StronglySorted seqBefore l.
Proof.
  induction 1 as [|a l Hl IH Ha]; [constructor|]. intros [Hnin Hnd]%NoDup_cons.
  constructor; [by apply IH|]. rewrite Forall_forall in Ha |- *. intros b Hb. specialize (Ha b Hb).
  apply Is_true_true, Z.leb_le in Ha. unfold seqBefore.
  assert (a.1 <> b.1); [|lia]. intros Heq. apply Hnin. rewrite Heq. by apply list_elem_of_fmap_2.
Qed.

Lemma selectEntries_sorted g cp d : StronglySorted seqBefore (selectEntries g cp d).
Proof.
  apply sorted_strict.
  - apply StronglySorted_merge_sort.
    + intros a b c. rewrite !Is_true_true, !Z.leb_le. lia.
    + intros a b. rewrite !Is_true_true, !Z.leb_le. lia.
  - rewrite selectEntries_perm. apply selectRows_NoDup, NoDup_fst_map_to_list.
Qed.

Definition entriesSum (h : bucket -> Z) (l : list (Z * string)) : Z :=
  zsum ((fun e => wsum h (decodeEntry e.2)) <$> l).

Lemma selectEntries_sum h d :
  entriesSum h (selectEntries (genOf d) (cpOf d) d) = tail h d.
Proof.
  unfold entriesSum, tail, ksum. rewrite (zsum_perm _ _ (fmap_Permutation _ _ _ (selectEntries_perm _ _ _))).
  induction (map_to_list (entryRows d)) as [|[[g n] raw] rows IH]; [done|].
  cbn [omap list_omap]. destruct (selectRow (genOf d) (cpOf d) ((g, n), raw)) as [[n' raw']|] eqn:E.
  - apply selectRow_Some in E as [[= -> -> ->] Hn]. rewrite !fmap_cons, !zsum_cons, IH. simpl.
    by rewrite decide_True.
  - rewrite fmap_cons, zsum_cons, IH. simpl. rewrite decide_False; [done|].
    intros [Hg Hn]. simpl in *. assert (selectRow (genOf d) (cpOf d) ((g, n), raw) = Some (n, raw)); [|congruence].
    apply selectRow_Some. by subst g.
Qed.

Lemma entriesSum_nonneg l : Forall (fun e => goodEntry e.2) l -> 0 <= entriesSum one l.
Proof.
  intros Hl. apply zsum_nonneg, Forall_fmap, (Forall_impl _ _ _ Hl).
  intros e He. by apply goodEntry_wsum_nonneg.
Qed.

(** One good entry is replayed, not discarded. *)
Lemma restoreEntries_cons g n raw rest p seq w l :
  seq < n -> unmarshalSamples raw = Some l -> Forall canonical l -> l <> [] ->
  0 < byteLen raw <= trafficRuntimeJournalMaxBytes ->
  restoreEntries g ((n, raw) :: rest) p seq w = restoreEntries g rest (addAll (nowUnix w) p l) n w.
Proof.
  intros Hn Hl Hc Hne Hlen. cbn [restoreEntries].
  rewrite (proj2 (Z.leb_gt n seq)), (proj2 (Z.eqb_neq _ 0)), (proj2 (Z.ltb_ge _ (byteLen raw))) by lia.
  cbn [orb]. rewrite Hl. unfold bind at 1, get. destruct l as [|s l]; [done|].
  apply Forall_cons in Hc as [Hs _]. simpl. by rewrite (canonical_accept _ s Hs).
Qed.

Lemma restoreEntries_good g l : forall p seq w,
  clockOk (nowUnix w) -> wfPending p -> Forall (fun e => goodEntry e.2) l ->
  StronglySorted seqBefore l -> Forall (fun e => seq < e.1) l ->
  psum one p + entriesSum one l <= max_i64 ->
  exists p' seq', restoreEntries g l p seq w = (Ok (p', seq'), w) /\ wfPending p' /\
    (forall h, psum h p' = psum h p + entriesSum h l) /\
    seq <= seq' /\ Forall (fun e => e.1 <= seq') l.
Proof.
  induction l as [|[n raw] l IH]; intros p seq w Hnow Hwf Hg Hs Hseq Hmax.
  { exists p, seq. split; [done|split; [done|split; [|by split]]]. intros h. unfold entriesSum. simpl. lia. }
  apply Forall_cons in Hg as [Hg0 Hg]. apply StronglySorted_inv in Hs as [Hs Hall].
  apply Forall_cons in Hseq as [Hn _]. simpl in Hn.
  pose proof (entriesSum_nonneg l Hg) as Hnn.
  destruct Hg0 as (c & Hc & Hcan & Hne & Hlen). cbn [snd] in *.
  assert (forall h, entriesSum h ((n, raw) :: l) = wsum h c + entriesSum h l) as Hsum.
  { intros h. unfold entriesSum. rewrite fmap_cons, zsum_cons. unfold decodeEntry at 1. simpl. by rewrite Hc. }
  rewrite Hsum in Hmax.
  destruct (addAll_spec (nowUnix w) c p Hnow Hwf) as [Hwf' Hp'].
  { apply (Forall_impl _ _ _ Hcan), canonical_sampleOk. }
  { rewrite (accepted_canonical _ c Hcan). lia. }
  rewrite (accepted_canonical _ c Hcan) in Hp'.
  destruct (IH (addAll (nowUnix w) p c) n w Hnow Hwf' Hg Hs Hall) as (p' & seq' & Hrun & Hw & Hps & Hle & Hf).
  { rewrite Hp'. lia. }
  exists p', seq'. rewrite (restoreEntries_cons g n raw l p seq w c) by done.
  split; [done|split; [done|split; [|split; [lia|by constructor]]]].
  intros h. rewrite Hps, Hp', Hsum. lia.
Qed.

(** ** Start-up: recovery *)

Lemma deleteEntriesUpTo_inv d :
  dbInv d -> let d' := deleteEntriesUpTo (genOf d) (cpOf d) d in
  dbInv d' /\ (forall h, durable h d' = durable h d) /\
  forall k raw, entryRows d' !! k = Some raw -> k.1 = genOf d -> cpOf d < k.2.
Proof.
  intros [H1 H2 H3 H4 H5] d'.
  assert (entryRows d' = filter (fun row => ~ (row.1.1 = genOf d /\ row.1.2 <= cpOf d)) (entryRows d))
    as Hrows by done.
  split; [|split].
  - split; try done.
    + intros k raw. rewrite Hrows. intros [Hk _]%map_lookup_filter_Some. by apply H4.
    + intros Hb. rewrite Hrows. change (genOf d') with (genOf d) in Hb. rewrite (H5 Hb). apply map_filter_empty.
  - intros h. unfold durable. f_equal. unfold tail. rewrite Hrows. apply ksum_filter.
    intros k raw _ Hn. simpl in Hn. rewrite decide_False; [done|].
    intros [Hg Hlt]. apply Hn. intros [_ Hle]. change (cpOf d') with (cpOf d) in Hlt. lia.
  - intros k raw. rewrite Hrows. intros [_ Hn]%map_lookup_filter_Some Hg. simpl in Hn.
    destruct (Z.lt_ge_cases (cpOf d) k.2); [done|]. by destruct Hn.
Qed.

Definition intact (w0 w : world) : Prop :=
  dbInv (wDb w) /\ forall g, durable g (wDb w) = durable g (wDb w0).
Definition recovered (w0 w : world) : Prop := intact w0 w /\ wNano w = wNano w0 /\ ready w.

Lemma keeps_hoare {A} w0 (m : M A) :
  keeps wDb m -> keeps memCore m ->
  hoare (recovered w0) m (fun _ => recovered w0) (intact w0).
Proof.
  intros H1 H2 w [[Hd Hs] [Hn Hr]]. specialize (H1 w). specialize (H2 w).
  assert (intact w0 (m w).2) by (unfold intact; by rewrite H1).
  destruct (m w) as [[a|e] w']; simpl in *; [|done].
  split; [done|]. split; [unfold memCore in H2; congruence|by apply (ready_same w)].
Qed.

(** The memory that [restoreIncrementalEntries] leaves mirrors the tail. *)
Lemma replayed_memInv d j p seq :
  dbInv d -> (forall k raw, entryRows d !! k = Some raw -> k.1 = genOf d -> cpOf d < k.2) ->
  initialized j = true -> generation j = genOf d -> checkpoint j = cpOf d -> nonBlank (genOf d) ->
  wfPending p -> (forall h, psum h p = entriesSum h (selectEntries (genOf d) (cpOf d) d)) ->
  cpOf d <= seq -> Forall (fun e => e.1 <= seq) (selectEntries (genOf d) (cpOf d) d) ->
  pending j = p -> sequence j = seq -> memInv d j.
Proof.
  intros Hd Hlow Hi Hg Hc Hb Hwf Hsum Hseq Hall Hp Hs.
  assert (forall k raw, entryRows d !! k = Some raw -> k.1 = genOf d -> k.2 <= seq) as Hlast.
  { intros [g n] raw Hk Hkg. simpl in *. subst g.
    rewrite Forall_forall in Hall. apply (Hall (n, raw)).
    apply elem_of_selectEntries. split; [done|]. by apply (Hlow _ _ Hk). }
  split; rewrite ?Hp, ?Hs; try done.
  - intros h. by rewrite Hsum, selectEntries_sum.
  - intros Hne. destruct (selectEntries (genOf d) (cpOf d) d) as [|[n raw] l] eqn:E.
    + exfalso. apply Hne. destruct (map_choose_or_empty p) as [(k & s & Hk)|]; [|done].
      pose proof (psum_one_le p k s Hwf Hk) as Hle. rewrite Hsum in Hle.
      destruct (Hwf k s Hk) as [_ (_ & _ & _ & _ & ? & _)]. unfold entriesSum in Hle. simpl in Hle. lia.
    + assert ((n, raw) ∈ selectEntries (genOf d) (cpOf d) d) as Hin by (rewrite E; left).
      apply elem_of_selectEntries in Hin as [Hk Hn]. pose proof (Hlast _ _ Hk eq_refl). simpl in *. lia.
Qed.

(** Ready, and no entry of the generation is at or below the checkpoint. *)
Definition swept (w0 w : world) : Prop :=
  readyAt w0 w /\
  forall k raw, entryRows (wDb w) !! k = Some raw -> k.1 = genOf (wDb w) -> cpOf (wDb w) < k.2.

Lemma readyAt_intact w0 w : readyAt w0 w -> intact w0 w.
Proof. intros (Hd & Hs & _). by split. Qed.

Lemma sweep_spec w0 g cp :
  hoare (fun w => readyAt w0 w /\ g = genOf (wDb w) /\ cp = cpOf (wDb w)) (exec (deleteEntriesUpTo g cp))
    (fun _ w => swept w0 w /\ g = genOf (wDb w) /\ cp = cpOf (wDb w)) (intact w0).
Proof.
  apply (hoare_exec _ _ (fun w => swept w0 w /\ g = genOf (wDb w) /\ cp = cpOf (wDb w))).
  - intros w [Hr _]. by apply readyAt_intact.
  - done.
  - intros w [(Hd & Hs & Hrest) [-> ->]].
    destruct (deleteEntriesUpTo_inv _ Hd) as (Hd1 & Hs1 & Hlow).
    split; [|done]. split; [|done]. split; [done|]. split; [|done]. intros h. cbn [wDb setDb].
    by rewrite Hs1, Hs.
Qed.

Lemma replay_spec w0 g cp entries :
  clockOk (nowUnix w0) -> durable one (wDb w0) <= max_i64 ->
  hoare (fun w => (swept w0 w /\ g = genOf (wDb w) /\ cp = cpOf (wDb w)) /\
                  entries = selectEntries g cp (wDb w))
    (bind (restoreEntries g entries ∅ cp) (fun r => bind (modifyMem (setPending r.1 r.2)) (fun _ => ret true)))
    (fun _ => recovered w0) (intact w0).
Proof.
  intros Hnow Hmax w [[[(Hd & Hs & Hn & Hi & Hg & Hc & Hq & Hp & Hb) Hlow] [-> ->]] ->].
  set (d := wDb w) in *. set (l := selectEntries (genOf d) (cpOf d) d).
  assert (Forall (fun e => goodEntry e.2) l /\ Forall (fun e => cpOf d < e.1) l) as [Hgood Habove].
  { split; apply Forall_forall; intros [n raw] [Hk Hlt]%elem_of_selectEntries; [|done].
    by apply (inv_entry d Hd (genOf d, n)). }
  destruct (restoreEntries_good (genOf d) l ∅ (cpOf d) w) as (p & seq & Hrun & Hwf & Hsum & Hseq & Hall);
    [unfold nowUnix in *; by rewrite Hn|apply wfPending_empty|done|apply selectEntries_sorted|done| |].
  { unfold psum, l. rewrite msum_empty, selectEntries_sum. pose proof (tsum_one_nonneg d Hd).
    rewrite <- Hs in Hmax. unfold durable in Hmax. lia. }
  unfold bind at 1. rewrite Hrun. unfold bind, modifyMem, ret, recovered.
  split; [by split|]. split; [done|]. unfold ready. cbn [wDb wMem setMem].
  by apply (replayed_memInv _ _ p seq).
Qed.

Lemma nothing_spec w0 g cp :
  pending (wMem w0) = ∅ ->
  hoare (fun w => (swept w0 w /\ g = genOf (wDb w) /\ cp = cpOf (wDb w)) /\
                  [] = selectEntries g cp (wDb w))
    (ret false) (fun _ => recovered w0) (intact w0).
Proof.
  intros Hp0 w [[[(Hd & Hs & Hn & Hi & Hg & Hc & Hq & Hp & Hb) Hlow] [-> ->]] Hsel].
  split; [by split|]. split; [done|]. unfold ready.
  apply (replayed_memInv _ _ ∅ (cpOf (wDb w))); rewrite <- ?Hsel, ?Hp; done.
Qed.

Lemma restoreIncremental_spec w0 :
  clockOk (nowUnix w0) -> pending (wMem w0) = ∅ -> durable one (wDb w0) <= max_i64 ->
  hoare (readyAt w0) restoreIncrementalEntries (fun _ => recovered w0) (intact w0).
Proof.
  intros Hnow Hp0 Hmax. unfold restoreIncrementalEntries.
  apply (hoare_bind _ _ (fun j w => readyAt w0 w /\ generation j = genOf (wDb w) /\ checkpoint j = cpOf (wDb w))).
  { intros w Hw. split; [done|]. destruct Hw as (_ & _ & _ & _ & Hg & Hc & _). done. }
  intros j. cbv zeta. eapply hoare_bind; [apply sweep_spec|intros u; cbv beta; clear u].
  eapply hoare_bind; [apply hoare_query|intros entries].
  - intros w [[Hw _] _]. by apply readyAt_intact.
  - done.
  - destruct entries as [|e entries]; [by apply nothing_spec|by apply replay_spec].
Qed.

(** With no legacy staging row, the rest of [restore] only handles files. *)
Lemma restore_spec w0 :
  clockOk (nowUnix w0) -> pending (wMem w0) = ∅ -> durable one (wDb w0) <= max_i64 ->
  hoare (readyAt w0) restore (fun _ => recovered w0) (intact w0).
Proof.
  intros Hnow Hp0 Hmax. unfold restore.
  eapply hoare_bind; [by apply restoreIncremental_spec|intros restored].
  destruct restored; [apply keeps_hoare; eauto with keeps typeclass_instances|].
  assert (hoare (recovered w0) (try readTrafficRuntimeJournalStage)
    (fun r w => recovered w0 w /\ (r = Ok None \/ r = Err ErrDb)) (intact w0)) as Hstage.
  { intros w Hw. unfold try, readTrafficRuntimeJournalStage, bind, query, bind, get, compose, step.
    pose proof (inv_staging _ (proj1 (proj1 Hw))) as Hnone.
    assert (forall l, recovered w0 (setFaults l w)) by (intros l; by destruct Hw as [[] []]).
    destruct (wFaults w) as [|[] l]; cbn [wDb setFaults]; rewrite ?Hnone; cbn; auto. }
  eapply hoare_bind; [apply Hstage|intros staged].
  apply (hoare_conseq _ (fun w => recovered w0 w /\ (staged = Ok None \/ staged = Err ErrDb)) _
           _ (fun _ => recovered w0) _ (intact w0)); [done| |done..].
  intros w [Hw [-> | ->]]; [|by apply Hw]. revert w Hw.
  apply keeps_hoare; kept; eauto with keeps typeclass_instances.
Qed.
End Accounting.
