(* ===== verification/JournalLedger.v ===== *)
(** * The traffic journal as a ledger

    Traces of the journal's operations, with crashes, restarts and arbitrary
    fault schedules, refine a ledger that records each successfully staged
    sample once.  A crash is a restart at any time: the memory is lost, the
    database and the files stay; a crash in the middle of an operation
    reaches the same database as a fault at that point followed by a restart. *)

From stdpp Require Import base countable gmap list strings sorting.
From Stdlib Require Import Ascii ZArith Lia.
From S2P Require Import Prelude GoStrings Stats Journal JournalCorrect.

#[local] Open Scope Z_scope.

(** ** Traces *)

(** What an operation finds around it: which of its steps fail, the random
    tokens and the clock. *)
Record env : Type := mkEnv {
  eFaults : list bool;
  eRandom : list string;
  eNano : Z }.

Inductive jop : Type :=
| OpStage (samples : list Stats)
| OpFlush
| OpStart.

(** [jlive] says that the recovery of the last start succeeded; [jledger]
    holds the samples of every staging call that returned no error. *)
Record jstate : Type := mkJ {
  jw : world;
  jlive : bool;
  jledger : list Stats }.

Definition setEnv (e : env) (w : world) : world :=
  mkWorld (wDb w) (wMem w) (wFiles w) (wHistory w) (eFaults e) (eRandom e) (eNano e).

(** The package variables of a new process. *)
Definition freshJournal : journal := mkJournal false "" "" 0 0 0 ∅ [] 0 0 None false false.
Definition boot (w : world) : world := setHistory None (setMem freshJournal w).

Definition isOk {A} (r : res jerr A) : bool := match r with Ok _ => true | Err _ => false end.

Section Traces.
Context {codec : Codec}.

(** The part of a start before its flush. *)
Definition recovery : M unit := bind ensureReady (fun _ => restore).

Definition stepJ (e : env) (op : jop) (s : jstate) : jstate :=
  let w := setEnv e (jw s) in
  match op with
  | OpStage samples =>
      let '(r, w') := StageTrafficRuntimeStats samples w in
      mkJ w' (jlive s) (if isOk r then jledger s ++ accepted (nowUnix w) samples else jledger s)
  | OpFlush => mkJ (FlushTrafficRuntimeJournal w).2 (jlive s) (jledger s)
  | OpStart =>
      mkJ (PrepareTrafficRuntimeJournalOnStartup (boot w)).2
          (isOk (recovery (boot w)).1) (jledger s)
  end.

Definition envOk (e : env) : Prop :=
  clockOk (eNano e / 1000000000) /\ Forall nonBlank (eRandom e).

(** Staging and flushing follow a successful recovery, and the traffic of
    the whole history fits a 64-bit counter. *)
Definition opOk (t : statsTable) (e : env) (op : jop) (s : jstate) : Prop :=
  envOk e /\
  match op with
  | OpStage samples =>
      jlive s = true /\ Forall sampleOk samples /\
      tsum one t + wsum one (jledger s) + wsum one (accepted (eNano e / 1000000000) samples) <= max_i64
  | OpFlush => jlive s = true
  | OpStart => True
  end.

(** A database with the history [t] and no journal yet. *)
Definition initialJ (t : statsTable) (files : gmap string string) : jstate :=
  mkJ (mkWorld (mkDb t None None None ∅ None) freshJournal files None [] [] 0) false [].

Inductive reachable (t : statsTable) : jstate -> Prop :=
| reach_init files : reachable t (initialJ t files)
| reach_step s e op : reachable t s -> opOk t e op s -> reachable t (stepJ e op s).
End Traces.

Definition historyOk (t : statsTable) : Prop :=
  (forall b v, t !! b = Some v -> rowOk b v) /\ tsum one t <= max_i64.

Section Ledger.
Context {codec : Codec} {laws : CodecLaws}.

Record ledgerInv (t : statsTable) (s : jstate) : Prop := {
  led_db : dbInv (wDb (jw s));
  led_sum : forall g, durable g (wDb (jw s)) = tsum g t + wsum g (jledger s);
  led_ready : jlive s = true -> ready (jw s);
  led_max : tsum one t + wsum one (jledger s) <= max_i64 }.

Lemma ledgerInv_init t files : historyOk t -> ledgerInv t (initialJ t files).
Proof.
  intros [Hrows Hmax]. split; [|intros g|done|].
  - by split.
  - unfold durable. assert (tail g (wDb (jw (initialJ t files))) = 0) as -> by apply ksum_empty.
    unfold wsum. simpl. lia.
  - unfold wsum. simpl. lia.
Qed.

(** A start: the memory is rebuilt, or the start is not live. *)
Lemma recovery_spec w0 :
  dbInv (wDb w0) -> Forall nonBlank (wRandom w0) -> clockOk (nowUnix w0) ->
  durable one (wDb w0) <= max_i64 -> wMem w0 = freshJournal ->
  match recovery w0 with
  | (Ok _, w') => recovered w0 w'
  | (Err _, w') => intact w0 w'
  end.
Proof.
  intros Hd Hr Hn Hmax Hmem.
  assert (hoare (booting w0) recovery (fun _ => recovered w0) (intact w0)) as Hh.
  { apply (hoare_bind _ _ (fun _ => readyAt w0)); [|intros _; apply restore_spec; by rewrite ?Hmem].
    eapply hoare_conseq; [done|apply ensureReady_spec; by rewrite Hmem|done|].
    intros w [H1 H2 _ _]. by split. }
  apply (Hh w0). by split.
Qed.

Lemma ledgerInv_step t e op s :
  ledgerInv t s -> opOk t e op s -> ledgerInv t (stepJ e op s).
Proof.
  intros [Hd Hs Hr Hm] [[Hn Hrand] Hop]. set (w := setEnv e (jw s)).
  assert (nowUnix w = eNano e / 1000000000) as Hnow by done.
  destruct op as [samples| |]; simpl in Hop |- *; fold w.
  - destruct Hop as (Hlive & Hok & Hmax). specialize (Hr Hlive).
    destruct (StageTrafficRuntimeStats_spec w samples Hd Hr Hn Hok) as (Hd' & Hr' & _ & Hs').
    { change (wDb w) with (wDb (jw s)). rewrite Hs, Hnow. lia. }
    destruct (StageTrafficRuntimeStats samples w) as [r w']. simpl in *.
    change (wDb w) with (wDb (jw s)) in Hs'. rewrite Hnow in *.
    split; [done| |done|]; simpl.
    + intros g. rewrite Hs', Hs. destruct r; simpl; rewrite ?wsum_app; lia.
    + destruct r; simpl; rewrite ?wsum_app; lia.
  - specialize (Hr Hop). destruct (flush_spec w Hd Hr) as (Hd' & Hr' & _ & Hs' & _).
    split; [done| |done|done]. intros g. simpl. by rewrite Hs'.
  - set (w0 := boot w). assert (wDb w0 = wDb (jw s)) as Hw0 by done.
    pose proof (recovery_spec w0) as Hrec. rewrite Hw0 in Hrec.
    specialize (Hrec Hd Hrand Hn). rewrite Hs in Hrec. specialize (Hrec Hm eq_refl).
    unfold PrepareTrafficRuntimeJournalOnStartup.
    assert (forall w, bind ensureReady (fun _ => bind restore (fun _ => flush)) w =
                      bind recovery (fun _ => flush) w) as ->.
    { intros w'. unfold recovery, bind. by destruct (ensureReady w') as [[]]. }
    unfold bind. destruct (recovery w0) as [[u|e'] w1]; simpl.
    + destruct Hrec as [[Hd1 Hs1] [_ Hr1]].
      destruct (flush_spec w1 Hd1 Hr1) as (Hd2 & Hr2 & _ & Hs2 & _).
      split; [done| |done|done]. intros g. simpl. by rewrite Hs2, Hs1, Hw0.
    + destruct Hrec as [Hd1 Hs1]. split; [done| |done|done]. intros g. simpl. by rewrite Hs1, Hw0.
Qed.

Lemma reachable_ledgerInv t s : historyOk t -> reachable t s -> ledgerInv t s.
Proof.
  intros Ht. induction 1 as [files|s e op _ IH Hop]; [by apply ledgerInv_init|by apply ledgerInv_step].
Qed.
End Ledger.

(** ** Fault-free runs succeed *)

Definition calm (w : world) : Prop := wFaults w = [] /\ wHistory w <> Some false.

Definition quiet {A} (m : M A) : Prop :=
  forall w, calm w -> exists a w', m w = (Ok a, w') /\ calm w'.

Create HintDb quiet.

Lemma step_calm e w : calm w -> step e w = (Ok tt, w).
Proof. intros [Hf _]. unfold step. by rewrite Hf. Qed.

Lemma quiet_ret {A} (a : A) : quiet (ret a).
Proof. intros w Hw. by exists a, w. Qed.
Lemma quiet_get {A} (f : world -> A) : quiet (get f).
Proof. intros w Hw. by exists (f w), w. Qed.
Lemma quiet_step e : quiet (step e).
Proof. intros w Hw. exists tt, w. by rewrite step_calm. Qed.
Lemma quiet_bind {A B} (m : M A) (k : A -> M B) : quiet m -> (forall a, quiet (k a)) -> quiet (bind m k).
Proof.
  intros Hm Hk w Hw. destruct (Hm w Hw) as (a & w1 & Hr & Hw1). unfold bind. rewrite Hr. by apply Hk.
Qed.
Lemma quiet_try_bind {A B} (m : M A) (k : res jerr A -> M B) :
  quiet m -> (forall a, quiet (k (Ok a))) -> quiet (bind (try m) k).
Proof.
  intros Hm Hk w Hw. destruct (Hm w Hw) as (a & w1 & Hr & Hw1). unfold bind, try. rewrite Hr. by apply Hk.
Qed.
Lemma quiet_modifyMem f : quiet (modifyMem f).
Proof. intros w Hw. by eexists _, _. Qed.
Lemma quiet_fileOp f : quiet (fileOp f).
Proof. apply quiet_bind; [apply quiet_step|]. intros _ w Hw. by eexists _, _. Qed.
Lemma quiet_exec f : quiet (exec f).
Proof. apply quiet_bind; [apply quiet_step|]. intros _ w Hw. by eexists _, _. Qed.
Lemma quiet_query {A} (f : database -> A) : quiet (query f).
Proof. apply quiet_bind; [apply quiet_step|]. intros _. apply quiet_get. Qed.
Lemma quiet_transaction {A} (m : M A) : quiet m -> quiet (transaction m).
Proof.
  intros Hm w Hw. unfold transaction. rewrite step_calm by done.
  destruct (Hm w Hw) as (a & w1 & -> & Hw1). rewrite step_calm by done. by eexists _, _.
Qed.
Lemma quiet_history : quiet EnsureHistoryStorageReady.
Proof.
  intros w Hw. unfold EnsureHistoryStorageReady, bind, get. destruct Hw as [Hf Hh].
  destruct (wHistory w) as [[]|] eqn:E; [|done|].
  - exists tt, w. split; [done|]. split; [done|by rewrite E].
  - rewrite step_calm by (split; [done|by rewrite E]). by eexists _, _.
Qed.

#[export] Hint Resolve quiet_ret quiet_get quiet_step quiet_modifyMem quiet_fileOp quiet_exec
  quiet_query quiet_transaction quiet_history : quiet.

Ltac quietly :=
  repeat first
    [ progress intros
    | match goal with
      | |- quiet (match ?x with _ => _ end) => destruct x
      | |- quiet (bind (try _) _) => apply quiet_try_bind
      | |- quiet (bind _ _) => apply quiet_bind
      end
    | solve [eauto with quiet] ].

Section Quiet.
Context {codec : Codec}.

Lemma quiet_forPaths f ps : (forall p, quiet (f p)) -> quiet (forPaths f ps).
Proof.
  intros Hf. unfold forPaths.
  assert (forall w, calm w -> exists rs w', eachPath f ps w = (Ok rs, w') /\ errorsOf rs = [] /\ calm w') as Hall.
  { induction ps as [|p ps IH]; intros w Hw; [by exists [], w|].
    cbn [eachPath]. destruct (Hf p w Hw) as ([] & w1 & Hr & Hw1).
    destruct (IH w1 Hw1) as (rs & w2 & Hrs & He & Hw2).
    exists (Ok tt :: rs), w2. unfold bind at 1, try. rewrite Hr. unfold bind. rewrite Hrs. done. }
  intros w Hw. destruct (Hall w Hw) as (rs & w1 & Hr & He & Hw1).
  unfold bind, errorsJoin. rewrite Hr, He. by exists tt, w1.
Qed.

Lemma quiet_quarantineFile p : quiet (quarantineTrafficRuntimeJournalFile p).
Proof. unfold quarantineTrafficRuntimeJournalFile. quietly. Qed.
Lemma quiet_quarantineInvalid ps : quiet (quarantineInvalidTrafficRuntimeJournalFiles ps).
Proof. apply quiet_forPaths, quiet_quarantineFile. Qed.
Lemma quiet_quarantineFiles : quiet quarantineTrafficRuntimeJournalFiles.
Proof. apply quiet_forPaths, quiet_quarantineFile. Qed.
Lemma quiet_removeFiles : quiet removeTrafficRuntimeJournalFiles.
Proof. apply quiet_forPaths. quietly. Qed.

Lemma quiet_append l : quiet (appendTrafficRuntimeArchive l).
Proof.
  unfold appendTrafficRuntimeArchive.
  assert (forall l, quiet (writeRecords l)) by (intros k; induction k; simpl; quietly).
  quietly.
Qed.
Lemma quiet_flushArchive b : quiet (flushArchive b).
Proof. unfold flushArchive. pose proof quiet_append. quietly. Qed.

Lemma quiet_flushTransaction g n l : quiet (flushTransaction g n l).
Proof.
  unfold flushTransaction, upsertStatsTrafficBatch, deleteTrafficRuntimeJournalStage.
  apply quiet_transaction.
  assert (forall n l, quiet (upsertChunks n l)).
  { intros k. induction k as [|k IH]; intros q; simpl; [quietly|]. destruct q; quietly. }
  quietly.
Qed.

Lemma flush_quiet w : calm w -> initialized (wMem w) = true -> exists w', flush w = (Ok tt, w') /\ calm w'.
Proof.
  intros Hw Hi. unfold flush. unfold bind at 1. rewrite ensureReady_ready by done. revert w Hw Hi.
  assert (quiet (bind EnsureHistoryStorageReady (fun _ => bind (get wMem) (fun j =>
    if bool_decide (pending j = ∅) then flushArchive true
    else bind (flushTransaction (generation j) (sequence j) (sortedTrafficRuntimePendingStats (pending j)))
      (fun _ => bind (modifyMem (fun j => raiseCheckpoint (sequence j) (setPending ∅ (sequence j) j)))
      (fun _ => bind (try (flushArchive true)) (fun a => bind (try removeTrafficRuntimeJournalFiles)
      (fun b => errorsJoin [a; b])))))))) as Hq.
  { pose proof quiet_flushArchive. pose proof quiet_flushTransaction. pose proof quiet_removeFiles.
    quietly. repeat match goal with u : unit |- _ => destruct u end. apply quiet_ret. }
  intros w Hw _. destruct (Hq w Hw) as ([] & w' & Hr & Hw'). by exists w'.
Qed.

Lemma quiet_restoreEntries g l : forall p n, quiet (restoreEntries g l p n).
Proof.
  induction l as [|[n raw] l IH]; intros p k; simpl; unfold deleteTrafficRuntimeJournalEntry; quietly.
Qed.

Lemma quiet_restoreIncremental : quiet restoreIncrementalEntries.
Proof. unfold restoreIncrementalEntries. pose proof quiet_restoreEntries. quietly. Qed.

(** Reading the two journal files fails only with a file to quarantine. *)
Definition readExplained (out : trafficRuntimeJournalReadResult * option jerr) : Prop :=
  out.2 = None \/ out.2 = Some ErrNotExist \/ (rrSource out.1 = "" /\ rrInvalid out.1 <> []).

Lemma readFiles_quiet w : calm w ->
  exists out w', readTrafficRuntimeJournalFileDetailed w = (Ok out, w') /\ readExplained out /\ calm w'.
Proof.
  unfold readTrafficRuntimeJournalFileDetailed.
  assert (forall ps inv e w, calm w -> e = ErrNotExist \/ inv <> [] ->
    exists out w', readJournalPaths ps inv e w = (Ok out, w') /\ readExplained out /\ calm w') as Hall.
  { induction ps as [|p ps IH]; intros inv e v Hv He.
    { eexists _, v. split; [done|]. split; [|done]. destruct He as [->|He]; unfold readExplained; auto. }
    cbn [readJournalPaths]. unfold bind at 1, try. rewrite step_calm by done. unfold bind at 1, get.
    assert (forall p e', exists out w', readJournalPaths ps (inv ++ [p]) e' v = (Ok out, w') /\
              readExplained out /\ calm w') as Hbad by (intros; apply IH; [done|right; by destruct inv]).
    destruct (wFiles v !! p) as [raw|]; [|by apply IH].
    case_match; [done|]. case_match; [|done].
    eexists _, v. split; [done|]. split; [by left|done]. }
  intros Hw. apply Hall; [done|by left].
Qed.
End Quiet.

Section Restart.
Context {codec : Codec} {laws : CodecLaws}.

Lemma load_quiet (row : database -> option string) (put : string -> database -> database) w :
  calm w -> wRandom w <> [] ->
  exists a w', bind (query (default "" ∘ row)) (fun x =>
      if String.eqb (trim_space x) "" then
        bind newTrafficRuntimeJournalGeneration (fun g => bind (exec (put g)) (fun _ => ret g))
      else ret x) w = (Ok a, w') /\ calm w' /\
    (length (wRandom w) <= S (length (wRandom w')))%nat.
Proof.
  intros Hw Hr. unfold bind at 1, query, bind at 1. rewrite step_calm by done. unfold get, compose.
  case_match; [|exists (default "" (row (wDb w))), w; split_and!; [done..|lia]].
  unfold bind at 1, newTrafficRuntimeJournalGeneration.
  destruct (wRandom w) as [|g l] eqn:E; [done|]. unfold bind at 1, exec, bind at 1.
  assert (calm (setRandom l w)) as Hl by done. rewrite step_calm by done.
  eexists _, _. split; [done|]. split; [done|]. simpl. lia.
Qed.

Lemma ensureReady_quiet w :
  calm w -> (2 <= length (wRandom w))%nat -> exists w', ensureReady w = (Ok tt, w') /\ calm w'.
Proof.
  intros Hw Hr. unfold ensureReady, bind at 1, get.
  destruct ((initialized ∘ wMem) w); [by exists w|]. unfold initializeJournal.
  assert (forall (k : M unit) v, calm v -> bind createTable (fun _ => k) v = k (setDb (wDb v) v)) as Hct.
  { intros k v Hv. unfold bind, createTable, exec, bind. by rewrite step_calm. }
  rewrite !Hct by done. cbn [wDb setDb].
  set (v := setDb (wDb w) (setDb (wDb w) (setDb (wDb w) (setDb (wDb w) (setDb (wDb w) w))))).
  assert (calm v) as Hv by done. assert (2 <= length (wRandom v))%nat as Hrv by done. clearbody v.
  destruct (load_quiet metaRow (fun g => setMeta (Some g)) v Hv) as (gen & v1 & H1 & Hv1 & Hl1);
    [by destruct (wRandom v); simpl in *; [lia|]|].
  unfold bind at 1. unfold loadGeneration. rewrite H1.
  destruct (load_quiet archiveKeyRow (fun k => setArchiveKey (Some k)) v1 Hv1) as (key & v2 & H2 & Hv2 & _);
    [by destruct (wRandom v1); simpl in *; [lia|]|].
  unfold bind at 1. unfold loadArchiveKey. rewrite H2.
  destruct (quiet_bind _ _ (quiet_query (default 0 ∘ checkpointRow))
              (fun cp => quiet_modifyMem (setReady gen key cp)) v2 Hv2) as ([] & v3 & H3 & Hv3).
  by exists v3.
Qed.

Lemma readStage_calm w :
  calm w -> stagingRow (wDb w) = None -> try readTrafficRuntimeJournalStage w = (Ok (Ok None), w).
Proof.
  intros Hw Hs. unfold try, readTrafficRuntimeJournalStage, bind, query, bind.
  rewrite step_calm by done. unfold get, compose. by rewrite Hs.
Qed.

Lemma restore_quiet w0 w :
  clockOk (nowUnix w0) -> pending (wMem w0) = ∅ -> durable one (wDb w0) <= max_i64 ->
  readyAt w0 w -> calm w -> exists w', restore w = (Ok tt, w') /\ calm w'.
Proof.
  intros Hn Hp Hmax Hr Hw. pose proof (restoreIncremental_spec w0 Hn Hp Hmax w Hr) as Hspec.
  destruct (quiet_restoreIncremental w Hw) as (b & w1 & Hrun & Hw1).
  unfold restore. unfold bind at 1. rewrite Hrun in *.
  destruct b; [by destruct (quiet_quarantineFiles w1 Hw1) as ([] & w2 & ? & ?); exists w2|].
  unfold bind at 1. rewrite readStage_calm by (done || apply Hspec).
  unfold bind at 1. destruct (readFiles_quiet w1 Hw1) as ([result err] & w2 & -> & Hex & Hw2).
  cbv beta iota. unfold bind at 1.
  destruct (quiet_quarantineInvalid (rrInvalid result) w2 Hw2) as ([] & w3 & -> & Hw3).
  cbv zeta. unfold bind at 1, get.
  assert (exists w', ret tt w3 = (Ok tt, w') /\ calm w') as Hret by by exists w3.
  destruct Hex as [He|[He|[Hs Hi]]]; simpl in *; subst.
  - assert ((if String.eqb (rrSource result) "" && negb (bool_decide (rrInvalid result = []))
             then None else None) = @None jerr) as -> by by case_match.
    repeat case_match; try done;
      [destruct (quiet_quarantineFiles w3 Hw3) as ([] & w4 & ? & ?)
      |destruct (quiet_removeFiles w3 Hw3) as ([] & w4 & ? & ?)
      |destruct (quiet_quarantineFiles w3 Hw3) as ([] & w4 & ? & ?)]; by exists w4.
  - destruct (String.eqb (rrSource result) "") eqn:Es; [|done].
    destruct (negb (bool_decide (rrInvalid result = []))); simpl; done.
  - rewrite Hs. rewrite String.eqb_refl. rewrite bool_decide_false by done. simpl. done.
Qed.
End Restart.

(** ** The contract *)

Section Contract.
Context {codec : Codec} {laws : CodecLaws}.


(** a flush that returns no error has moved everything: each bucket of
    the [stats] table is then the history plus the ledger, and a restart
    has nothing to replay. *)
Theorem flush_delivers t s e :
  historyOk t -> reachable t s -> jlive s = true -> envOk e ->
  (FlushTrafficRuntimeJournal (setEnv e (jw s))).1 = Ok tt ->
  forall b, let d := wDb (FlushTrafficRuntimeJournal (setEnv e (jw s))).2 in
    default 0 (statsRows d !! b) = default 0 (t !! b) + wsum (only b) (jledger s) /\
    tail (only b) d = 0.
Proof.
  intros Ht Hs Hl He Hok b d. destruct (reachable_ledgerInv t s Ht Hs) as [Hd Hsum Hr _].
  destruct (flush_spec (setEnv e (jw s)) Hd (Hr Hl)) as (_ & _ & _ & Hdur & Htail).
  specialize (Htail Hok (only b)). specialize (Hdur (only b)).
  change (wDb (flush (setEnv e (jw s))).2) with d in Htail, Hdur.
  split; [|done]. rewrite <- !tsum_only. unfold durable in Hdur.
  change (wDb (setEnv e (jw s))) with (wDb (jw s)) in Hdur.
  pose proof (Hsum (only b)) as Hb. unfold durable in Hb. lia.
Qed.

End Contract.

(** ** A concrete codec *)

(** A self-delimiting text form of a positive number, and its inverse. *)
Fixpoint bits (p : positive) : string :=
  match p with
  | xH => "."
  | xO q => String "0" (bits q)
  | xI q => String "1" (bits q)
  end.

Fixpoint unbits (s : string) : option positive :=
  match s with
  | EmptyString => None
  | String c s' =>
      if Ascii.eqb c "." then Some xH
      else match unbits s' with
           | Some q => Some (if Ascii.eqb c "0" then xO q else xI q)
           | None => None
           end
  end.

Lemma unbits_bits p : unbits (bits p) = Some p.
Proof. induction p as [p IH|p IH|]; simpl; by rewrite ?IH. Qed.

#[global] Instance Stats_countable : Countable Stats.
Proof.
  refine (inj_countable' (fun s => (Id s, DateTime s, Resource s, Tag s, Direction s, Traffic s))
    (fun '(i, d, r, g, dir, t) => mkStats i d r g dir t) _). by intros [].
Defined.

Definition demoCodec : Codec := {|
  marshalSamples l := bits (encode l);
  unmarshalSamples s := unbits s ≫= decode;
  marshalPayload p := bits (encode (Schema p, Generation p, Sequence p, Samples p, Checksum p));
  unmarshalPayload s := '(a, b, c, d, e) ← unbits s ≫= decode; Some (mkPayload a b c d e);
  marshalRecord r := bits (encode (arSequence r, arDateTime r, arNamespace r, arEntity r, arDirection r, arTraffic r));
  sha256Hex s := s;
  hmacToken k m := k +:+ m;
  journalPath := "/var/kwor.json";
  archivePath := "/var/kwor.jsonl" |}.

#[global] Instance demoCodec_laws : CodecLaws (H := demoCodec).
Proof.
  split.
  - intros l _. simpl. rewrite unbits_bits. simpl. apply decode_encode.
  - intros l. simpl. by destruct (encode l).
Qed.

Definition demoEnv (faults : list bool) : env :=
  mkEnv faults ["5f0c"; "9a1b"] (1700000000 * 1000000000).

Definition demoSample (tag : string) (traffic : Z) : Stats :=
  mkStats 0 1699999990 " inbound" tag true traffic.

Definition demoStart : jstate := stepJ (codec := demoCodec) (demoEnv []) OpStart (initialJ ∅ ∅).
Definition demoStaged : jstate :=
  stepJ (codec := demoCodec) (demoEnv [false; true]) (OpStage [demoSample "bob" 7])
    (stepJ (codec := demoCodec) (demoEnv []) (OpStage [demoSample "alice" 5]) demoStart).

Lemma demoEnv_ok l : envOk (demoEnv l).
Proof.
  split; [split; vm_compute; discriminate|]. repeat constructor; vm_compute; discriminate.
Qed.

Lemma demoSample_ok tag n :
  nulFree tag -> validUtf8 (trim_space tag) = true -> n <= max_i64 -> sampleOk (demoSample tag n).
Proof.
  intros H1 H2 H3. split; [right; split; vm_compute; discriminate|].
  split; [vm_compute; reflexivity|]. split; [done|]. split; [done|]. split; [vm_compute; reflexivity|done].
Qed.

Lemma historyOk_empty : historyOk ∅.
Proof. split; [intros b v; by rewrite lookup_empty|vm_compute; discriminate]. Qed.

Lemma demoStaged_reachable : reachable (codec := demoCodec) ∅ demoStaged.
Proof.
  unfold demoStaged, demoStart. repeat apply reach_step; [apply reach_init|..].
  - split; [apply demoEnv_ok|done].
  - split; [apply demoEnv_ok|]. split; [vm_compute; reflexivity|].
    split; [|vm_compute; discriminate].
    constructor; [apply demoSample_ok; vm_compute; (reflexivity || discriminate)|constructor].
  - split; [apply demoEnv_ok|]. split; [vm_compute; reflexivity|].
    split; [|vm_compute; discriminate].
    constructor; [apply demoSample_ok; vm_compute; (reflexivity || discriminate)|constructor].
Qed.

Definition demoBucket (tag : string) : bucket := (1699999980, "inbound", tag, true).


Lemma flush_delivers_witness :
  default 0 (statsRows (wDb (FlushTrafficRuntimeJournal (H := demoCodec) (setEnv (demoEnv []) (jw demoStaged))).2)
               !! demoBucket "alice") =
  default 0 ((∅ : statsTable) !! demoBucket "alice") + wsum (only (demoBucket "alice")) (jledger demoStaged).
Proof.
  exact (proj1 (flush_delivers (codec := demoCodec) ∅ demoStaged (demoEnv []) historyOk_empty demoStaged_reachable
    ltac:(vm_compute; reflexivity) (demoEnv_ok []) ltac:(vm_compute; reflexivity) (demoBucket "alice"))).
Defined.


(** ** What a failed recovery costs *)

(** The start of a crashed process whose entry query fails (the tenth step),
    followed by a staging call and a flush that all go through. *)
Definition demoFailedStart : jstate :=
  stepJ (codec := demoCodec) (demoEnv (repeat false 9 ++ [true])) OpStart
    (stepJ (codec := demoCodec) (demoEnv []) (OpStage [demoSample "alice" 5]) demoStart).
Definition demoLost : jstate :=
  stepJ (codec := demoCodec) (demoEnv []) OpFlush
    (stepJ (codec := demoCodec) (demoEnv []) (OpStage [demoSample "bob" 7]) demoFailedStart).

