(* ===== verification/StatsQuery.v ===== *)
(** * Correctness of the history query

    [queryStatsHistory] merges the rows of the [stats] table with the samples
    still in memory.  For a resource that stands for itself, every whole
    bucket of the answer counts each row and each pending sample once.  For
    the composite resource [endpoint] the samples in memory are left out. *)

From stdpp Require Import base gmap list strings sorting.
From Stdlib Require Import ZArith Lia.
From S2P Require Import Prelude GoStrings Stats Journal JournalCorrect JournalLedger.

#[local] Open Scope Z_scope.
#[local] Open Scope go_scope.

(** ** Timelines *)

Abbreviation slot := (Z * bool)%type.
Definition slotOf (s : Stats) : slot := (DateTime s, Direction s).
Definition tweigh (h : slot -> Z) (s : Stats) : Z := h (slotOf s) * Traffic s.
Definition tlsum (h : slot -> Z) (l : list Stats) : Z := zsum (tweigh h <$> l).
Definition oneSlot : slot -> Z := fun _ => 1.
Definition onlySlot (b : slot) : slot -> Z := fun b' => if decide (b' = b) then 1 else 0.

(** The traffic a list shows for a slot. *)
Definition slotTraffic (b : slot) (l : list Stats) : Z := tlsum (onlySlot b) l.

Definition tlOk (s : Stats) : Prop := 0 <= DateTime s <= max_i64 /\ 0 <= Traffic s.
Definition wfTimeline (m : gmap string Stats) : Prop :=
  forall k s, m !! k = Some s -> k = timelineKey s /\ tlOk s.

Lemma timelineKey_inj a b : tlOk a -> tlOk b -> timelineKey a = timelineKey b -> slotOf a = slotOf b.
Proof.
  intros [Ha _] [Hb _] Heq. unfold timelineKey in Heq.
  apply split_nul_inj in Heq as [Hd Hx]; [|apply itoa_nulFree; lia..].
  apply itoa_inj in Hd; [|lia..]. apply formatBool_inj in Hx. unfold slotOf. congruence.
Qed.

Lemma tlsum_app h l k : tlsum h (l ++ k) = tlsum h l + tlsum h k.
Proof. unfold tlsum. by rewrite fmap_app, zsum_app. Qed.

Lemma tlsum_perm h l k : l ≡ₚ k -> tlsum h l = tlsum h k.
Proof. intros Hp. apply zsum_perm. by apply fmap_Permutation. Qed.

Lemma tlsum_nonneg l : Forall tlOk l -> 0 <= tlsum oneSlot l.
Proof.
  intros Hl. apply zsum_nonneg, Forall_fmap, (Forall_impl _ _ _ Hl).
  intros s [_ Hs]. unfold compose, tweigh, oneSlot. lia.
Qed.

Lemma tl_lookup_le m k s : wfTimeline m -> m !! k = Some s -> Traffic s <= msum (tweigh oneSlot) m.
Proof.
  intros Hm Hk. transitivity (tweigh oneSlot s); [unfold tweigh, oneSlot; lia|].
  apply (msum_lookup_le _ m k); [|done]. intros k' s' Hk'.
  destruct (Hm _ _ Hk') as [_ [_ ?]]. unfold tweigh, oneSlot. lia.
Qed.

(** Merging one sample into a timeline. *)
Lemma mergeSample_spec m s :
  wfTimeline m -> tlOk s -> msum (tweigh oneSlot) m + Traffic s <= max_i64 ->
  wfTimeline (mergeSample m s) /\
  forall h, msum (tweigh h) (mergeSample m s) = msum (tweigh h) m + tweigh h s.
Proof.
  intros Hm Hs Hmax. unfold mergeSample. destruct (m !! timelineKey s) as [cur|] eqn:E.
  - destruct (Hm _ _ E) as [Hk Hc]. pose proof (tl_lookup_le _ _ _ Hm E) as Hle.
    assert (slotOf s = slotOf cur) as Hslot by by apply timelineKey_inj.
    destruct Hs as [Hd Ht], Hc as [Hdc Htc].
    assert (Traffic cur +! Traffic s = Traffic cur + Traffic s) as -> by (apply wrap64_id; in_range).
    split.
    + intros k x [[<- <-]|[_ Hx]]%lookup_insert_Some; [|by apply Hm].
      split; [done|]. split; [done|]. cbn. lia.
    + intros h. rewrite (msum_update _ _ _ _ _ E). unfold tweigh. rewrite Hslot.
      change (slotOf (setTraffic (Traffic cur + Traffic s) cur)) with (slotOf cur).
      cbn [Traffic setTraffic]. lia.
  - split.
    + intros k x [[<- <-]|[_ Hx]]%lookup_insert_Some; [done|by apply Hm].
    + intros h. rewrite msum_insert by done. lia.
Qed.

Lemma mergeSamples_spec l : forall m,
  wfTimeline m -> Forall tlOk l -> msum (tweigh oneSlot) m + tlsum oneSlot l <= max_i64 ->
  wfTimeline (foldl mergeSample m l) /\
  forall h, msum (tweigh h) (foldl mergeSample m l) = msum (tweigh h) m + tlsum h l.
Proof.
  induction l as [|s l IH]; intros m Hm Hl Hmax; [split; [done|]; intros h; unfold tlsum; simpl; lia|].
  apply Forall_cons in Hl as [Hs Hl].
  assert (forall h, tlsum h (s :: l) = tweigh h s + tlsum h l) as Hcons by done.
  rewrite Hcons in Hmax. pose proof (tlsum_nonneg l Hl).
  assert (tweigh oneSlot s = Traffic s) as Hone by (unfold tweigh, oneSlot; lia).
  destruct (mergeSample_spec m s Hm Hs ltac:(lia)) as [Hm' Hsum].
  destruct (IH _ Hm' Hl) as [Hm'' Hsum'']; [rewrite Hsum; lia|].
  split; [done|]. intros h. cbn [foldl]. rewrite Hsum'', Hsum, Hcons. lia.
Qed.

Lemma wfTimeline_empty : wfTimeline ∅.
Proof. intros k s. by rewrite lookup_empty. Qed.

(** The values of a timeline, sorted, weigh what the timeline weighs. *)
Lemma sorted_values_spec m :
  wfTimeline m ->
  Forall tlOk (sortSlice timelineLess (map_to_list m).*2) /\
  forall h, tlsum h (sortSlice timelineLess (map_to_list m).*2) = msum (tweigh h) m.
Proof.
  intros Hm. pose proof (sortSlice_perm timelineLess (map_to_list m).*2) as Hp. split.
  - rewrite Hp. apply Forall_fmap, Forall_forall. intros [k s] Hin%elem_of_map_to_list. by apply (Hm k).
  - intros h. rewrite (tlsum_perm _ _ _ Hp). unfold tlsum, msum. by rewrite <- list_fmap_compose.
Qed.

(** ** The samples in memory *)

Lemma floorTo_range bs t : 0 < bs -> 0 <= t <= max_i64 -> 0 <= floorTo bs t <= max_i64.
Proof.
  intros Hb Ht. unfold floorTo. rewrite Z.quot_div_nonneg by lia.
  pose proof (Z.mul_div_le t bs Hb). pose proof (Z.div_pos t bs ltac:(lia) Hb). nia.
Qed.

Lemma floorTo_idemp bs t : 0 < bs -> floorTo bs (floorTo bs t) = floorTo bs t.
Proof. intros Hb. unfold floorTo. by rewrite Z.quot_mul by lia. Qed.

Lemma toTimeline_ok resource bs s : 0 < bs -> tlOk s -> tlOk (toTimeline resource bs s).
Proof. intros Hb [Hd Ht]. split; [by apply floorTo_range|done]. Qed.

(** The part of a list that a query selects, moved to its slots. *)
Definition selected (resource tag : string) (startUnix bs : Z) (l : list Stats) : list Stats :=
  toTimeline resource bs <$> filter (fun s => sampleMatches resource tag startUnix s = true) l.

Lemma selected_ok resource tag startUnix bs l :
  0 < bs -> Forall tlOk l -> Forall tlOk (selected resource tag startUnix bs l).
Proof.
  intros Hb Hl. apply Forall_fmap, Forall_forall. intros s [_ Hs]%list_elem_of_filter.
  rewrite Forall_forall in Hl. apply toTimeline_ok; auto.
Qed.

Lemma tlsum_cons h s l : tlsum h (s :: l) = tweigh h s + tlsum h l.
Proof. done. Qed.

Lemma selected_cons resource tag startUnix bs s l h :
  tlsum h (selected resource tag startUnix bs (s :: l)) =
  (if sampleMatches resource tag startUnix s then tweigh h (toTimeline resource bs s) else 0) +
  tlsum h (selected resource tag startUnix bs l).
Proof.
  unfold selected. rewrite filter_cons. destruct (sampleMatches resource tag startUnix s).
  - rewrite decide_True by done. by rewrite fmap_cons, tlsum_cons.
  - rewrite decide_False by done. lia.
Qed.

Lemma selected_le resource tag startUnix bs l :
  Forall tlOk l -> tlsum oneSlot (selected resource tag startUnix bs l) <= tlsum oneSlot l.
Proof.
  induction 1 as [|s l [Hd Ht] Hl IH]; [done|]. rewrite tlsum_cons, selected_cons.
  unfold tweigh at 1 2, oneSlot at 1 3. case_match; cbn [toTimeline Traffic]; lia.
Qed.

(** A slot sample: what the merging functions produce for one query. *)
Definition isSlot (resource tag : string) (bs : Z) (s : Stats) : Prop :=
  Resource s = resource /\ Tag s = tag /\ floorTo bs (DateTime s) = DateTime s.

Lemma mergeSamples_isSlot resource tag bs l : forall m,
  Forall (isSlot resource tag bs) l ->
  (forall k s, m !! k = Some s -> isSlot resource tag bs s) ->
  forall k s, foldl mergeSample m l !! k = Some s -> isSlot resource tag bs s.
Proof.
  induction l as [|x l IH]; intros m Hl Hm k s; simpl; [apply Hm|].
  apply Forall_cons in Hl as [Hx Hl]. intros Hk. refine (IH _ Hl _ k s Hk).
  intros k' s'. unfold mergeSample. destruct (m !! timelineKey x) as [cur|] eqn:E.
  - intros [[<- <-]|[_ Hs]]%lookup_insert_Some; [|by eapply Hm]. exact (Hm _ _ E).
  - intros [[<- <-]|[_ Hs]]%lookup_insert_Some; [done|by eapply Hm].
Qed.

Lemma selected_isSlot resource tag startUnix bs l :
  0 < bs -> Forall (isSlot resource tag bs) (selected resource tag startUnix bs l).
Proof.
  intros Hb. apply Forall_fmap, Forall_forall. intros s [Hm _]%list_elem_of_filter.
  unfold sampleMatches in Hm. apply andb_true_iff in Hm as [Hm _]. apply andb_true_iff in Hm as [_ Ht].
  apply String.eqb_eq in Ht. split; [done|]. split; [done|]. cbn. by apply floorTo_idemp.
Qed.

(** Combining: totals per slot, and every sample is a slot sample. *)
Lemma combine_spec resource tag startUnix bs l :
  0 < bs -> Forall tlOk l -> tlsum oneSlot l <= max_i64 ->
  let out := sortedPendingTrafficStats (combineMatching resource tag startUnix bs l) in
  Forall tlOk out /\ Forall (isSlot resource tag bs) out /\
  forall h, tlsum h out = tlsum h (selected resource tag startUnix bs l).
Proof.
  intros Hb Hl Hmax. unfold combineMatching. fold (selected resource tag startUnix bs l).
  pose proof (selected_le resource tag startUnix bs l Hl).
  destruct (mergeSamples_spec (selected resource tag startUnix bs l) ∅ wfTimeline_empty) as [Hwf Hsum].
  { by apply selected_ok. }
  { rewrite msum_empty. lia. }
  destruct (sorted_values_spec _ Hwf) as [Hok Hs]. split; [done|]. split.
  - unfold sortedPendingTrafficStats. rewrite sortSlice_perm. apply Forall_fmap, Forall_forall.
    intros [k s] Hin%elem_of_map_to_list. cbn.
    apply (mergeSamples_isSlot resource tag bs _ ∅ (selected_isSlot resource tag startUnix bs l Hb)) in Hin;
      [done|]. intros k' s'. by rewrite lookup_empty.
  - intros h. unfold sortedPendingTrafficStats. rewrite Hs, Hsum, msum_empty. lia.
Qed.

(** Selecting again keeps the slots from [startUnix] on, for a resource that
    is one of its own query resources. *)
Lemma selected_again resource tag startUnix bs l h :
  normalizeStatsResource resource ∈ allowedResources resource ->
  Forall (isSlot resource tag bs) l -> (forall x, x.1 < startUnix -> h x = 0) ->
  tlsum h (selected resource tag startUnix bs l) = tlsum h l.
Proof.
  intros Hres Hl Hh. induction Hl as [|s l (Hr & Ht & Hf) Hl IH]; [done|].
  rewrite selected_cons, tlsum_cons, IH.
  assert (sampleMatches resource tag startUnix s = negb (DateTime s <? startUnix)) as ->.
  { unfold sampleMatches. rewrite Hr, Ht, bool_decide_true, String.eqb_refl by done. done. }
  unfold tweigh at 1 2, slotOf. cbn [toTimeline DateTime Direction Traffic]. rewrite Hf.
  destruct (Z.ltb_spec (DateTime s) startUnix) as [Hlt|Hge]; simpl; [|done].
  rewrite Hh by done. lia.
Qed.

(** ** The rows of the table *)

Definition groupWeight (h : slot -> Z) (g : slot) (v : Z) : Z := h g * v.
Definition rowSlot (bs : Z) (b : bucket) : slot := (floorTo bs b.1.1.1, b.2).

Lemma selectGroup_sum bs h rows : forall m,
  ksum (groupWeight h) (foldl (selectGroup bs) m rows) =
  ksum (groupWeight h) m + zsum ((fun row => h (rowSlot bs row.1) * row.2) <$> rows).
Proof.
  induction rows as [|[[[[dt res] tg] dir] v] rows IH]; intros m; cbn [foldl].
  { simpl. lia. }
  rewrite IH, fmap_cons, zsum_cons. unfold rowSlot at 2. cbn [selectGroup fst snd].
  set (g := (floorTo bs dt, dir)).
  destruct (m !! g) as [x|] eqn:E; simpl.
  - rewrite (ksum_update _ _ _ _ _ E). unfold groupWeight at 2 3. lia.
  - rewrite ksum_insert by done. unfold groupWeight at 1. lia.
Qed.

Definition groupOk (m : gmap slot Z) : Prop := forall g v, m !! g = Some v -> 0 <= g.1 <= max_i64 /\ 0 <= v.

Lemma selectGroup_ok bs rows : forall m,
  0 < bs -> Forall (fun row => rowOk row.1 row.2) rows -> groupOk m ->
  groupOk (foldl (selectGroup bs) m rows).
Proof.
  induction rows as [|[[[[dt res] tg] dir] v] rows IH]; intros m Hb Hr Hm; [done|].
  apply Forall_cons in Hr as [[Hv Hd] Hr]. cbn [foldl]. apply IH; [done|done|].
  intros g x. cbn [selectGroup]. intros [[<- <-]|[_ Hx]]%lookup_insert_Some; [|by apply Hm].
  simpl in *. split; [by apply floorTo_range|].
  destruct (m !! (floorTo bs dt, dir)) as [y|] eqn:E; simpl; [|lia]. destruct (Hm _ _ E). lia.
Qed.

Definition groupRow (resource tag : string) (g : slot * Z) : Stats :=
  mkStats 0 (fst (fst g)) resource tag (snd (fst g)) (snd g).

(** The answer rows: one per slot, with the total of the slot. *)
Lemma selectHistory_spec t resource tag resources startUnix bs :
  0 < bs -> (forall b v, t !! b = Some v -> rowOk b v) ->
  let rows := selectHistory t resource tag resources startUnix bs in
  Forall tlOk rows /\ NoDup (slotOf <$> rows) /\
  forall h, tlsum h rows =
    tsum (fun b => if selectMatches resources tag startUnix b then h (rowSlot bs b) else 0) t.
Proof.
  intros Hb Ht rows. unfold rows, selectHistory.
  set (fl := filter _ (map_to_list t)). set (groups := foldl (selectGroup bs) ∅ fl).
  fold (groupRow resource tag).
  assert (groupOk groups) as Hg.
  { apply selectGroup_ok; [done| |intros g v; by rewrite lookup_empty].
    apply Forall_forall. intros [b v] [_ Hin]%list_elem_of_filter.
    apply elem_of_map_to_list in Hin. by apply Ht. }
  pose proof (sortSlice_perm timelineLess (groupRow resource tag <$> map_to_list groups)) as Hp.
  split_and!.
  - rewrite Hp. apply Forall_fmap, Forall_forall. intros [g v] Hin%elem_of_map_to_list.
    destruct (Hg g v Hin). by split.
  - rewrite Hp, <- list_fmap_compose.
    rewrite (list_fmap_ext _ fst); [apply NoDup_fst_map_to_list|]. by intros i [[] v] _.
  - intros h. rewrite (tlsum_perm _ _ _ Hp). unfold tlsum. rewrite <- list_fmap_compose.
    transitivity (ksum (groupWeight h) groups).
    { unfold ksum. f_equal. apply list_fmap_ext. by intros i [[] v] _. }
    unfold groups. rewrite selectGroup_sum, ksum_empty. unfold tsum, ksum, fl.
    clear Hg Hp groups fl. induction (map_to_list t) as [|[b v] l IH]; [done|].
    rewrite filter_cons, fmap_cons, zsum_cons. cbn [fst snd].
    destruct (selectMatches resources tag startUnix b).
    + rewrite decide_True by done. rewrite fmap_cons, zsum_cons. cbn [fst snd]. lia.
    + rewrite decide_False by done. lia.
Qed.

(** ** Merging rows and samples *)

Lemma insertRows_spec rows : forall m,
  wfTimeline m -> Forall tlOk rows -> NoDup (slotOf <$> rows) ->
  Forall (fun r => m !! timelineKey r = None) rows ->
  let m' := foldl (fun m row => <[timelineKey row := row]> m) m rows in
  wfTimeline m' /\ forall h, msum (tweigh h) m' = msum (tweigh h) m + tlsum h rows.
Proof.
  induction rows as [|r rows IH]; intros m Hm Hr Hnd Hfree; cbn [foldl].
  { split; [done|]. intros h. unfold tlsum. simpl. lia. }
  apply Forall_cons in Hr as [Hr0 Hr]. apply Forall_cons in Hfree as [Hf0 Hf].
  rewrite fmap_cons in Hnd. apply NoDup_cons in Hnd as [Hnin Hnd].
  destruct (IH (<[timelineKey r := r]> m)) as [Hwf Hsum]; [|done|done| |].
  - intros k s [[<- <-]|[_ Hs]]%lookup_insert_Some; [done|by apply Hm].
  - rewrite Forall_forall in Hf, Hr |- *. intros x Hx.
    rewrite lookup_insert_ne; [by apply Hf|]. intros Heq. apply Hnin.
    rewrite (timelineKey_inj r x Hr0 (Hr x Hx) Heq). by apply list_elem_of_fmap_2.
  - split; [done|]. intros h. rewrite Hsum, msum_insert, tlsum_cons by done. lia.
Qed.

Lemma mergePending_spec rows samples resource tag startUnix bs :
  let pend := pendingTrafficRuntimeStatsFromSamples samples resource tag startUnix bs in
  Forall tlOk rows -> NoDup (slotOf <$> rows) -> Forall tlOk pend ->
  tlsum oneSlot rows + tlsum oneSlot pend <= max_i64 ->
  forall h, tlsum h (mergePendingTrafficRuntimeStatsWithSamples rows samples resource tag startUnix bs) =
            tlsum h rows + tlsum h pend.
Proof.
  intros pend Hr Hnd Hp Hmax h. unfold mergePendingTrafficRuntimeStatsWithSamples. fold pend.
  destruct pend as [|p0 p] eqn:E; [unfold tlsum; simpl; lia|]. rewrite <- E in *. clear E p0 p.
  destruct (insertRows_spec rows ∅ wfTimeline_empty Hr Hnd) as [Hwf Hsum].
  { apply Forall_forall. intros x _. apply lookup_empty. }
  destruct (mergeSamples_spec pend _ Hwf Hp) as [Hwf' Hsum'].
  { rewrite Hsum, msum_empty. lia. }
  destruct (sorted_values_spec _ Hwf') as [_ ->]. rewrite Hsum', Hsum, msum_empty. lia.
Qed.

(** ** The query *)

(** The weight that selects one slot of a query. *)
Definition inQuery (resources : list string) (tag : string) (startUnix bs : Z) (x : slot) (b : bucket) : Z :=
  if selectMatches resources tag startUnix b && bool_decide (rowSlot bs b = x) then 1 else 0.

Lemma canonical_tlOk s : canonical s -> tlOk s.
Proof. intros (_ & Hd & _ & _ & Ht & _). split; lia. Qed.

Lemma canonical_resource s : canonical s -> normalizeStatsResource (Resource s) = Resource s.
Proof.
  intros (Hacc & _). revert Hacc. unfold acceptSample. case_match; [done|]. intros Heq.
  apply (inj Some), (f_equal Resource) in Heq. exact Heq.
Qed.

Lemma pending_selected p resource tag startUnix bs x :
  wfPending p ->
  tlsum (onlySlot x) (selected resource tag startUnix bs (map_to_list p).*2) =
  psum (inQuery (allowedResources resource) tag startUnix bs x) p.
Proof.
  intros Hwf. unfold psum, msum.
  assert (Forall (fun row => canonical row.2) (map_to_list p)) as Hc.
  { apply Forall_forall. intros [k s] Hin%elem_of_map_to_list. by apply (Hwf k). }
  induction Hc as [|[k s] l Hs _ IH]; [done|]. rewrite !fmap_cons, zsum_cons, selected_cons, IH.
  f_equal. cbn [snd compose] in *. unfold weigh, tweigh, inQuery, onlySlot.
  assert (sampleMatches resource tag startUnix s =
          selectMatches (allowedResources resource) tag startUnix (bucketOf s)) as ->.
  { unfold sampleMatches, selectMatches, bucketOf. rewrite canonical_resource by done.
    f_equal. by rewrite <- Z.leb_antisym. }
  destruct (selectMatches _ _ _ _); simpl; [|lia].
  change (slotOf (toTimeline resource bs s)) with (rowSlot bs (bucketOf s)).
  case_bool_decide as E; [by rewrite decide_True|by rewrite decide_False].
Qed.

Lemma statsQueryBucketSeconds_pos n : 0 < statsQueryBucketSeconds n.
Proof. unfold statsQueryBucketSeconds. repeat case_match; lia. Qed.

Lemma tsum_inQuery t resources tag startUnix bs x :
  tsum (fun b => if selectMatches resources tag startUnix b then onlySlot x (rowSlot bs b) else 0) t =
  tsum (inQuery resources tag startUnix bs x) t.
Proof.
  apply ksum_ext. intros b v _. unfold inQuery, onlySlot. f_equal.
  destruct (selectMatches _ _ _ _); simpl; [|done].
  case_bool_decide as E; [by rewrite decide_True|by rewrite decide_False].
Qed.

(** A resource name in normal form that is one of its own query resources. *)
Definition plainResource (resource : string) : Prop :=
  resource <> "" /\ trim_space resource = resource /\ normalizeStatsResource resource = resource /\
  resource ∈ allowedResources resource.

Definition queryStart (nowNano limitHours : Z) : Z :=
  (nowNano + wrap64 (wrap64 (- limitHours) * hour)) / 1000000000.

Definition boundedTable (t : statsTable) (p : gmap string Stats) : Prop :=
  (forall b v, t !! b = Some v -> rowOk b v) /\ wfPending p /\ tsum one t + psum one p <= max_i64.

Lemma tsum_part t (g : bucket -> Z) :
  (forall b v, t !! b = Some v -> rowOk b v) -> (forall b, 0 <= g b <= 1) -> 0 <= tsum g t <= tsum one t.
Proof.
  intros Ht Hg. unfold tsum. induction t as [|b v t Hb IH] using map_ind; [by rewrite !ksum_empty|].
  rewrite !ksum_insert by done. destruct (Ht b v) as [Hv _]; [apply lookup_insert_eq|].
  specialize (Hg b). destruct IH; [|unfold one in *; nia].
  intros b' v' H'. apply Ht. rewrite lookup_insert_ne; [done|congruence].
Qed.

(** The snapshot of the pending samples, and what the merge makes of it. *)
Lemma snapshot_spec p resource tag startUnix bs :
  0 < bs -> plainResource resource -> tag <> "" -> trim_space tag = tag ->
  wfPending p -> psum one p <= max_i64 ->
  let pend := pendingTrafficRuntimeStatsFromSamples
    (snapshotPendingForQuery p resource tag startUnix bs) resource tag startUnix bs in
  Forall tlOk pend /\ tlsum oneSlot pend <= psum one p /\
  forall x, startUnix <= x.1 ->
    tlsum (onlySlot x) pend = psum (inQuery (allowedResources resource) tag startUnix bs x) p.
Proof.
  intros Hb (Hne & Htr & Hno & Hal) Htag Htt Hwf Hmax.
  unfold snapshotPendingForQuery, pendingTrafficRuntimeStatsFromSamples. cbv zeta.
  rewrite Hno, Htt, (proj2 (String.eqb_neq resource "")), (proj2 (String.eqb_neq tag "")) by done.
  rewrite (proj2 (Z.leb_gt bs 0)) by done. cbn [orb].
  set (l := (map_to_list p).*2).
  assert (Forall tlOk l) as Hl.
  { apply Forall_fmap, Forall_forall. intros [k s] Hin%elem_of_map_to_list.
    by apply canonical_tlOk, (Hwf k). }
  assert (tlsum oneSlot l = psum one p) as Hone.
  { unfold l, tlsum, psum, msum. by rewrite <- list_fmap_compose. }
  destruct (combine_spec resource tag startUnix bs l Hb Hl) as (Hok1 & Hsl1 & Hsum1); [lia|].
  set (l1 := sortedPendingTrafficStats (combineMatching resource tag startUnix bs l)) in *.
  pose proof (selected_le resource tag startUnix bs l Hl).
  pose proof (selected_le resource tag startUnix bs l1 Hok1). rewrite Hsum1 in *.
  destruct (combine_spec resource tag startUnix bs l1 Hb Hok1) as (Hok2 & _ & Hsum2); [rewrite Hsum1; lia|].
  split; [done|]. split; [rewrite Hsum2; lia|]. intros x Hx.
  rewrite Hsum2, selected_again, Hsum1; [by apply pending_selected|by rewrite Hno|done|].
  intros y Hy. unfold onlySlot. rewrite decide_False; [done|]. intros ->. lia.
Qed.

Lemma inQuery_01 resources tag startUnix bs x b : 0 <= inQuery resources tag startUnix bs x b <= 1.
Proof. unfold inQuery. case_match; lia. Qed.

Lemma query_slot nowNano t p resource tag limitHours x :
  boundedTable t p -> plainResource resource -> tag <> "" -> trim_space tag = tag -> 0 < limitHours ->
  queryStart nowNano limitHours <= x.1 ->
  let start := queryStart nowNano limitHours in
  let bs := statsQueryBucketSeconds limitHours in
  slotTraffic x (queryStatsHistoryAt nowNano t p resource tag limitHours) =
  tsum (inQuery (statsQueryResources resource) tag start bs x) t +
  psum (inQuery (allowedResources resource) tag start bs x) p.
Proof.
  intros (Ht & Hwf & Hmax) Hres Htag Htt Hlim Hx start bs.
  pose proof (statsQueryBucketSeconds_pos limitHours) as Hb. fold bs in Hb.
  unfold queryStatsHistoryAt, slotTraffic. cbv zeta.
  destruct Hres as (Hne & Htr & Hrest). rewrite Htr, Htt.
  rewrite (proj2 (String.eqb_neq resource "")), (proj2 (String.eqb_neq tag "")) by done. cbn [orb].
  rewrite (proj2 (Z.leb_gt limitHours 0)) by done. fold (queryStart nowNano limitHours). fold start bs.
  destruct (selectHistory_spec t resource tag (statsQueryResources resource) start bs Hb Ht) as (Hok & Hnd & Hsum).
  assert (0 <= psum one p) as Hp0.
  { apply msum_nonneg. intros k s Hk. destruct (Hwf k s Hk) as [_ (_ & _ & _ & _ & ? & _)]. unfold weigh, one. lia. }
  destruct (tsum_part t one Ht) as [Ht0 _]; [unfold one; lia|].
  destruct (snapshot_spec p resource tag start bs Hb (conj Hne (conj Htr Hrest)) Htag Htt Hwf) as (Hpok & Hple & Hpsum);
    [lia|].
  rewrite mergePending_spec; [|done..|].
  - by rewrite Hsum, tsum_inQuery, Hpsum.
  - rewrite Hsum. pose proof (tsum_part t (fun b => if selectMatches (statsQueryResources resource) tag start b
      then oneSlot (rowSlot bs b) else 0) Ht) as Hpart.
    destruct Hpart; [intros b; unfold oneSlot; case_match; lia|]. lia.
Qed.

(** the history query is exact.  For a resource that is one of its own
    query resources, every slot of the answer that starts at or after the
    queried period holds the total of the matching [stats] rows plus the
    total of the matching samples in memory, each counted once, although
    the samples pass the same filter twice. *)
Theorem history_query_exact nowNano t p resource tag limitHours b dir :
  boundedTable t p -> plainResource resource -> tag <> "" -> trim_space tag = tag -> 0 < limitHours ->
  queryStart nowNano limitHours <= b ->
  let start := queryStart nowNano limitHours in
  let bs := statsQueryBucketSeconds limitHours in
  slotTraffic (b, dir) (queryStatsHistoryAt nowNano t p resource tag limitHours) =
  tsum (inQuery (statsQueryResources resource) tag start bs (b, dir)) t +
  psum (inQuery (allowedResources resource) tag start bs (b, dir)) p.
Proof. intros Ht Hr Htag Htt Hl Hb. by apply (query_slot nowNano t p resource tag limitHours (b, dir)). Qed.

(** A resource that is queried under its own name only, such as [inbound]. *)
Definition selfQuery (resource : string) : Prop :=
  resource <> "" /\ trim_space resource = resource /\ normalizeStatsResource resource = resource /\
  statsQueryResources resource = [resource].

Lemma selfQuery_plain resource :
  selfQuery resource -> plainResource resource /\ allowedResources resource = [resource].
Proof.
  intros (Hne & Htr & Hno & Hq).
  assert (allowedResources resource = [resource]) as Ha by (unfold allowedResources; rewrite Hq; cbn; by rewrite Hno).
  split; [|done]. split; [done|split; [done|split; [done|]]]. rewrite Ha. by left.
Qed.

Section Composition.
Context {codec : Codec} {laws : CodecLaws}.

End Composition.

(** A table with one row and two pending samples of an inbound. *)
Definition demoPending : gmap string Stats :=
  addAll 1700000000 ∅ [mkStats 0 1699999990 "inbound" "in-1" true 5; mkStats 0 1699999991 "inbound" "in-1" true 6].
Definition demoTable : statsTable := {[ (1699999980, "inbound", "in-1", true) := 30 ]}.

(** a query for the composite resource [endpoint] leaves out every sample
    in memory.  The snapshot relabels the matching inbound and outbound
    samples as [endpoint]; the second filter accepts only [inbound] and
    [outbound], so nothing of it remains, whatever is pending: until a flush,
    the traffic of the last minutes is missing from the answer, while a query
    for the inbound itself shows it. *)
Theorem endpoint_query_omits_pending :
  (forall nowNano t p tag limitHours,
     queryStatsHistoryAt nowNano t p "endpoint" tag limitHours =
     queryStatsHistoryAt nowNano t ∅ "endpoint" tag limitHours) /\
  let ask resource := slotTraffic (1699999980, true)
    (queryStatsHistoryAt (1700000000 * 1000000000) demoTable demoPending resource "in-1" 1) in
  ask "inbound" = 41 /\ ask "endpoint" = 30.
Proof.
  split; [|vm_compute; by split]. intros nowNano t p tag limitHours.
  unfold queryStatsHistoryAt. cbv zeta. change (trim_space "endpoint") with "endpoint".
  case_match; [done|]. set (lim := if limitHours <=? 0 then 1 else limitHours).
  set (start := (_ + _) / _). set (bs := statsQueryBucketSeconds lim).
  assert (forall q, pendingTrafficRuntimeStatsFromSamples
    (snapshotPendingForQuery q "endpoint" (trim_space tag) start bs) "endpoint" (trim_space tag) start bs = []) as Hnil.
  2: { unfold mergePendingTrafficRuntimeStatsWithSamples. by rewrite !Hnil. }
  intros q. unfold pendingTrafficRuntimeStatsFromSamples.
  change (normalizeStatsResource "endpoint") with "endpoint". rewrite trim_space_idemp.
  case_match; [done|]. unfold combineMatching.
  assert (Forall (fun s => Resource s = "endpoint")
            (snapshotPendingForQuery q "endpoint" (trim_space tag) start bs)) as Hall.
  { unfold snapshotPendingForQuery. change (normalizeStatsResource "endpoint") with "endpoint".
    case_match; [constructor|]. unfold sortedPendingTrafficStats. rewrite sortSlice_perm.
    apply Forall_fmap, Forall_forall. intros [k s] Hin%elem_of_map_to_list. cbn.
    unfold combineMatching in Hin.
    apply (mergeSamples_isSlot "endpoint" (trim_space (trim_space tag)) bs _ ∅) in Hin; [apply Hin| |].
    - apply selected_isSlot. apply statsQueryBucketSeconds_pos.
    - intros k' s'. by rewrite lookup_empty. }
  assert (filter (fun s => sampleMatches "endpoint" (trim_space tag) start s = true)
            (snapshotPendingForQuery q "endpoint" (trim_space tag) start bs) = []) as ->; [|done].
  induction Hall as [|s l Hs _ IH]; [done|]. rewrite filter_cons, decide_False; [done|].
  unfold sampleMatches. rewrite Hs, bool_decide_false; [done|].
  change (normalizeStatsResource "endpoint") with "endpoint".
  change (allowedResources "endpoint") with ["inbound"; "outbound"]. set_solver.
Qed.

(** ** Witnesses *)

Lemma inbound_selfQuery : selfQuery "inbound".
Proof. split; [discriminate|]. split; [reflexivity|]. split; reflexivity. Qed.

Lemma demo_bounded : boundedTable demoTable demoPending.
Proof.
  split; [|split].
  - intros b v Hb. unfold demoTable in Hb. apply lookup_singleton_Some in Hb as [<- <-]. split; cbn; [lia|in_range].
  - apply addAll_spec; [split; vm_compute; discriminate|apply wfPending_empty| |vm_compute; discriminate].
    repeat constructor; try (right; split); vm_compute; (reflexivity || discriminate).
  - vm_compute. discriminate.
Qed.

Lemma history_query_exact_witness :
  slotTraffic (1699999980, true) (queryStatsHistoryAt (1700000000 * 1000000000) demoTable demoPending "inbound" "in-1" 1) = 41.
Proof.
  transitivity (tsum (inQuery (statsQueryResources "inbound") "in-1" (queryStart (1700000000 * 1000000000) 1)
                       (statsQueryBucketSeconds 1) (1699999980, true)) demoTable +
                psum (inQuery (allowedResources "inbound") "in-1" (queryStart (1700000000 * 1000000000) 1)
                       (statsQueryBucketSeconds 1) (1699999980, true)) demoPending);
    [|vm_compute; reflexivity].
  apply (history_query_exact (1700000000 * 1000000000) demoTable demoPending "inbound" "in-1" 1 1699999980 true).
  - exact demo_bounded.
  - exact (proj1 (selfQuery_plain "inbound" inbound_selfQuery)).
  - discriminate.
  - reflexivity.
  - reflexivity.
  - vm_compute. discriminate.
Defined.

