(* ===== verification/Uninstall.v ===== *)
(** * The uninstall state file ([service/lifecycle.go], [lifecycle_linux.go])

    An uninstall is run by a worker process of its own.  The panel that
    schedules it and the worker share one JSON file in the runtime directory:
    the panel reserves the uninstall, records the worker it started, or
    reports that it could not start one; the worker marks the phases it is
    in.  The file also tells every panel process to refuse new work.

    Each exported operation takes the file lock, reads, changes and replaces
    the file: it is one step on the file here, and its [io] argument says
    which of these steps fail.  A write goes to a temporary file that is
    renamed: a failure leaves the old file, except for the final directory
    sync, which fails with the new file in place.  The model is that of the
    Linux build; the other builds do nothing.  [encoding/json] is modelled by
    what a file decodes to: nothing ([BadFile]) or the value written.  The
    clock is read once per operation. *)

From S2P Require Import Prelude GoStrings.
From stdpp Require Import base sets list strings.
From Stdlib Require Import ZArith Lia.

#[local] Open Scope Z_scope.

(** ** Files of the runtime directory *)

Inductive lerr : Type :=
| ErrLock                   (* the metadata lock could not be taken *)
| ErrRead
| ErrDecode
| ErrVersion
| ErrWrite
| ErrRandom                 (* newHostOwnershipID *)
| ErrNoReservation          (* the reservation id is empty *)
| ErrTakenOver              (* the state belongs to another reservation *)
| ErrProcess                (* the identity of a process could not be read *)
| ErrUninstalling           (* an uninstall is pending *)
| ErrQuiescing              (* background work is being stopped *)
| ErrHandover               (* a blocking operation is starting *)
| ErrBlockingAlive          (* a blocking operation is running *)
| ErrEmptyKind
| ErrIncomplete             (* a record without id or kind *)
| ErrNoOperation            (* an operation that is not recorded *)
| ErrUnit                   (* a systemd unit that is not provably ours *)
| ErrSignal
| ErrStillRunning
| ErrForeignFile            (* the runtime directory holds a file that is not ours *)
| ErrRecordsLeft            (* operations are still recorded *)
| ErrFileKind               (* a path that is not a socket or not a regular file *)
| ErrSync.

Inductive jsonFile (A : Type) : Type :=
| NoFile
| BadFile
| JsonFile (a : A).
Arguments NoFile {A}.
Arguments BadFile {A}.
Arguments JsonFile {A} a.

Inductive writeResult : Type := Written | NotWritten | WrittenNotSynced.

Record io : Type := mkIo {
  ioLock : bool;
  ioRead : bool;
  ioWrite : writeResult }.

Definition calmIo : io := mkIo true true Written.

Definition writeKworLifecycleJSON {A} (o : io) (a : A) (f : jsonFile A) : res lerr unit * jsonFile A :=
  match ioWrite o with
  | Written => (Ok tt, JsonFile a)
  | NotWritten => (Err ErrWrite, f)
  | WrittenNotSynced => (Err ErrWrite, JsonFile a)
  end.

(** ** The state *)

Inductive uninstallStatus : Type := StatusNone | StatusScheduled | StatusRunning | StatusFailed.

Definition uninstallStatus_eqb (a b : uninstallStatus) : bool :=
  match a, b with
  | StatusNone, StatusNone | StatusScheduled, StatusScheduled
  | StatusRunning, StatusRunning | StatusFailed, StatusFailed => true
  | _, _ => false
  end.

(** A status text other than the three constants behaves like no status. *)
Record KworUninstallLifecycleState : Type := mkState {
  usVersion : Z;
  usStatus : uninstallStatus;
  usPhase : string;
  usError : string;
  usFailures : list string;
  usWarnings : list string;
  usBlockNewWork : bool;
  usReservationID : string;
  usWorkerPID : Z;
  usWorkerPGID : Z;
  usWorkerStartTime : Z;
  usWorkerUnit : string;
  usUpdatedAt : Z }.

Definition kworLifecycleStateVersion : Z := 1.
Definition kworUninstallStartupGrace : Z := 30 * 1000000000.

Definition stateFile : Type := jsonFile KworUninstallLifecycleState.

(** The first 32 distinct non-blank messages. *)
Fixpoint normalizeLoop (values result : list string) : list string :=
  match values with
  | [] => result
  | v :: rest =>
      let v := trim_space v in
      if String.eqb v "" then normalizeLoop rest result
      else if existsb (String.eqb v) result then normalizeLoop rest result
      else let result := result ++ [v] in
           if (length result =? 32)%nat then result else normalizeLoop rest result
  end.

Definition normalizeKworUninstallMessages (values : list string) : list string :=
  normalizeLoop values [].

Definition normalizeState (s : KworUninstallLifecycleState) : KworUninstallLifecycleState :=
  mkState (usVersion s) (usStatus s) (trim_space (usPhase s)) (trim_space (usError s))
    (normalizeKworUninstallMessages (usFailures s)) (normalizeKworUninstallMessages (usWarnings s))
    (usBlockNewWork s) (trim_space (usReservationID s))
    (usWorkerPID s) (usWorkerPGID s) (usWorkerStartTime s) (trim_space (usWorkerUnit s)) (usUpdatedAt s).

(** [None] when there is no file. *)
Definition loadKworUninstallLifecycleStateLocked (o : io) (f : stateFile)
  : res lerr (option KworUninstallLifecycleState) :=
  if negb (ioRead o) then Err ErrRead
  else match f with
       | NoFile => Ok None
       | BadFile => Err ErrDecode
       | JsonFile s =>
           if usVersion s =? kworLifecycleStateVersion then Ok (Some (normalizeState s)) else Err ErrVersion
       end.

Definition LoadKworUninstallLifecycleState (o : io) (f : stateFile)
  : res lerr (option KworUninstallLifecycleState) :=
  if negb (ioLock o) then Err ErrLock else loadKworUninstallLifecycleStateLocked o f.

Definition stamp (now : Z) (s : KworUninstallLifecycleState) : KworUninstallLifecycleState :=
  mkState kworLifecycleStateVersion (usStatus s) (usPhase s) (usError s) (usFailures s) (usWarnings s)
    (usBlockNewWork s) (usReservationID s) (usWorkerPID s) (usWorkerPGID s) (usWorkerStartTime s)
    (usWorkerUnit s) (now / 1000000000).

Definition saveKworUninstallLifecycleStateLocked (o : io) (now : Z) (s : KworUninstallLifecycleState)
  (f : stateFile) : res lerr unit * stateFile :=
  writeKworLifecycleJSON o (stamp now s) f.

(** ** The worker process

    What the panel sees of the host: process start times from [/proc], whether
    a PID exists, and systemd. *)
Record host : Type := mkHost {
  hostStartTime : Z -> res lerr (option Z);      (* None: no such process *)
  hostPidAlive : Z -> bool;
  hostEnvHasID : Z -> string -> res lerr bool;   (* the operation token in /proc/<pid>/environ *)
  hostSystemd : bool;
  hostSystemctl : bool;
  hostUnitOwned : string -> string -> bool -> res lerr bool;  (* verifyKworPanelUpdateSystemdUnit *)
  hostUnitActive : string -> res lerr bool }.

Definition lifecycleUninstallWorkerAlive (h : host) (s : KworUninstallLifecycleState) : bool :=
  let pidAlive :=
    if 0 <? usWorkerPID s then
      if 0 <? usWorkerStartTime s then
        match hostStartTime h (usWorkerPID s) with
        | Ok (Some t) => t =? usWorkerStartTime s
        | _ => hostPidAlive h (usWorkerPID s)
        end
      else hostPidAlive h (usWorkerPID s)
    else false in
  if pidAlive then true
  else if String.eqb (trim_space (usWorkerUnit s)) "" then false
  else if negb (hostSystemd h) then false
  else if negb (hostSystemctl h) then true
  else match hostUnitActive h (usWorkerUnit s) with
       | Ok active => active
       | Err _ => true
       end.

Definition lifecycleStateBlocksNewWork (s : KworUninstallLifecycleState) : bool :=
  if usBlockNewWork s then true
  else uninstallStatus_eqb (usStatus s) StatusScheduled || uninstallStatus_eqb (usStatus s) StatusRunning.

Definition lifecycleUninstallTakeoverBlocked (s : KworUninstallLifecycleState) (now : Z) (workerAlive : bool)
  : bool :=
  match usStatus s with
  | StatusScheduled =>
      if workerAlive then true
      else if usUpdatedAt s <=? 0 then false
      else now <? usUpdatedAt s * 1000000000 + kworUninstallStartupGrace
  | StatusRunning => workerAlive
  | StatusFailed => usBlockNewWork s && workerAlive
  | StatusNone => false
  end.

(** ** The operations of the scheduling panel *)

Definition emptyState (version : Z) : KworUninstallLifecycleState :=
  mkState version StatusNone "" "" [] [] false "" 0 0 0 "" 0.

(** [id]: the outcome of [newHostOwnershipID].  [Ok None] is the refusal. *)
Definition ReservePanelUninstallLifecycle (o : io) (h : host) (now : Z) (id : option string) (f : stateFile)
  : res lerr (option string) * stateFile :=
  if negb (ioLock o) then (Err ErrLock, f)
  else
    match loadKworUninstallLifecycleStateLocked o f with
    | Err e => (Err e, f)
    | Ok st =>
        let blocked := match st with
                       | Some s => lifecycleUninstallTakeoverBlocked s now (lifecycleUninstallWorkerAlive h s)
                       | None => false
                       end in
        if blocked then (Ok None, f)
        else
          match id with
          | None => (Err ErrRandom, f)
          | Some r =>
              let s := mkState kworLifecycleStateVersion StatusScheduled "等待独立卸载 worker 启动" "" [] []
                         true r 0 0 0 "" (now / 1000000000) in
              match saveKworUninstallLifecycleStateLocked o now s f with
              | (Err e, f') => (Err e, f')
              | (Ok _, f') => (Ok (Some r), f')
              end
          end
    end.

Definition applyPanelUninstallWorkerRecord (s : KworUninstallLifecycleState) (reservationID : string)
  (pid pgid startTime : Z) (unitName : string) : res lerr (option KworUninstallLifecycleState) :=
  if negb (String.eqb (usReservationID s) (trim_space reservationID)) then Err ErrTakenOver
  else if negb (uninstallStatus_eqb (usStatus s) StatusScheduled) then Ok None
  else Ok (Some (mkState (usVersion s) (usStatus s) "独立卸载 worker 已启动" "" (usFailures s) (usWarnings s)
                   (usBlockNewWork s) (usReservationID s) pid pgid startTime (trim_space unitName) (usUpdatedAt s))).

Definition RecordPanelUninstallLifecycleWorker (o : io) (h : host) (now : Z) (reservationID : string)
  (pid pgid : Z) (unitName : string) (f : stateFile) : res lerr unit * stateFile :=
  let reservationID := trim_space reservationID in
  if String.eqb reservationID "" then (Err ErrNoReservation, f)
  else if negb (ioLock o) then (Err ErrLock, f)
  else
    match loadKworUninstallLifecycleStateLocked o f with
    | Err e => (Err e, f)
    | Ok None => (Ok tt, f)
    | Ok (Some s) =>
        if negb (String.eqb (usReservationID s) reservationID) then (Err ErrTakenOver, f)
        else if negb (uninstallStatus_eqb (usStatus s) StatusScheduled) then (Ok tt, f)
        else
          let identity := if 0 <? pid then match hostStartTime h pid with
                                           | Ok (Some t) => Ok t
                                           | _ => Err ErrProcess
                                           end
                          else Ok 0 in
          match identity with
          | Err e => (Err e, f)
          | Ok startTime =>
              match applyPanelUninstallWorkerRecord s reservationID pid pgid startTime unitName with
              | Err e => (Err e, f)
              | Ok None => (Ok tt, f)
              | Ok (Some s') => saveKworUninstallLifecycleStateLocked o now s' f
              end
          end
    end.

(** [taskErr]: the text of the error, when there is one. *)
Definition applyPanelUninstallRollbackFailure (s : KworUninstallLifecycleState) (reservationID : string)
  (pid pgid startTime : Z) (unitName : string) (taskErr : option string)
  : res lerr (option KworUninstallLifecycleState) :=
  if negb (String.eqb (usReservationID s) (trim_space reservationID)) then Err ErrTakenOver
  else if negb (uninstallStatus_eqb (usStatus s) StatusScheduled) then Ok None
  else Ok (Some (mkState (usVersion s) StatusFailed "独立卸载 worker 回滚失败"
                   (match taskErr with Some e => trim_space e | None => usError s end)
                   (usFailures s) (usWarnings s) true (usReservationID s) pid pgid startTime
                   (trim_space unitName) (usUpdatedAt s))).

Definition RecordPanelUninstallLifecycleRollbackFailure (o : io) (now : Z) (reservationID : string)
  (pid pgid startTime : Z) (unitName : string) (taskErr : option string) (f : stateFile)
  : res lerr unit * stateFile :=
  let reservationID := trim_space reservationID in
  if String.eqb reservationID "" then (Err ErrNoReservation, f)
  else if negb (ioLock o) then (Err ErrLock, f)
  else
    match loadKworUninstallLifecycleStateLocked o f with
    | Err e => (Err e, f)
    | Ok None => (Ok tt, f)
    | Ok (Some s) =>
        match applyPanelUninstallRollbackFailure s reservationID pid pgid startTime unitName taskErr with
        | Err e => (Err e, f)
        | Ok None => (Ok tt, f)
        | Ok (Some s') => saveKworUninstallLifecycleStateLocked o now s' f
        end
    end.

(** ** The operations of the worker, and of a panel whose worker did not start *)

(** The read-modify-write all of them share; a missing file is created. *)
Definition updateKworUninstallLifecycleState (o : io) (now : Z)
  (update : KworUninstallLifecycleState -> KworUninstallLifecycleState) (f : stateFile)
  : res lerr unit * stateFile :=
  if negb (ioLock o) then (Err ErrLock, f)
  else
    match loadKworUninstallLifecycleStateLocked o f with
    | Err e => (Err e, f)
    | Ok st =>
        let s := match st with Some s => s | None => emptyState kworLifecycleStateVersion end in
        saveKworUninstallLifecycleStateLocked o now (update s) f
    end.

Definition markScheduleFailed (reservationID : string) (taskErr : option string)
  (s : KworUninstallLifecycleState) : KworUninstallLifecycleState :=
  if String.eqb reservationID "" || negb (String.eqb (usReservationID s) reservationID)
     || negb (uninstallStatus_eqb (usStatus s) StatusScheduled) then s
  else
    let error := match taskErr with Some e => trim_space e | None => usError s end in
    let failures := match taskErr with
                    | Some _ => normalizeKworUninstallMessages [error]
                    | None => usFailures s
                    end in
    mkState (usVersion s) StatusFailed "独立卸载 worker 未能启动" error failures (usWarnings s)
      false (usReservationID s) 0 0 0 "" (usUpdatedAt s).

Definition MarkPanelUninstallLifecycleScheduleFailed (o : io) (now : Z) (reservationID : string)
  (taskErr : option string) (f : stateFile) : stateFile :=
  (updateKworUninstallLifecycleState o now (markScheduleFailed (trim_space reservationID) taskErr) f).2.

(** [pid]: [os.Getpid()]. *)
Definition BeginKworUninstallLifecycle (o : io) (h : host) (now pid : Z) (phase : string) (f : stateFile)
  : res lerr unit * stateFile :=
  updateKworUninstallLifecycleState o now (fun s =>
    let wpid := if usWorkerPID s =? 0 then pid else usWorkerPID s in
    let wstart := if usWorkerPID s =? 0 then
                    match hostStartTime h pid with Ok (Some t) => t | _ => usWorkerStartTime s end
                  else usWorkerStartTime s in
    mkState (usVersion s) StatusRunning (trim_space phase) "" [] [] true (usReservationID s)
      wpid (usWorkerPGID s) wstart (usWorkerUnit s) (usUpdatedAt s)) f.

Definition UpdateKworUninstallLifecycle (o : io) (now : Z) (phase : string) (f : stateFile)
  : res lerr unit * stateFile :=
  updateKworUninstallLifecycleState o now (fun s =>
    mkState (usVersion s) StatusRunning (trim_space phase) "" (usFailures s) (usWarnings s) true
      (usReservationID s) (usWorkerPID s) (usWorkerPGID s) (usWorkerStartTime s) (usWorkerUnit s)
      (usUpdatedAt s)) f.

(** [report]: its failures and warnings. *)
Definition FailKworUninstallLifecycleWithReport (o : io) (now : Z) (taskErr : option string)
  (report : option (list string * list string)) (f : stateFile) : stateFile :=
  (updateKworUninstallLifecycleState o now (fun s =>
    let phase := if String.eqb (trim_space (usPhase s)) "" then "卸载未完成" else usPhase s in
    let error := match taskErr with Some e => trim_space e | None => usError s end in
    let failures := match report with
                    | Some (fs, _) => normalizeKworUninstallMessages fs
                    | None => usFailures s
                    end in
    let warnings := match report with
                    | Some (_, ws) => normalizeKworUninstallMessages ws
                    | None => usWarnings s
                    end in
    let failures := if bool_decide (failures = []) && negb (String.eqb error "") then [error] else failures in
    mkState (usVersion s) StatusFailed phase error failures warnings true (usReservationID s)
      (usWorkerPID s) (usWorkerPGID s) (usWorkerStartTime s) (usWorkerUnit s) (usUpdatedAt s)) f).2.

Definition FailKworUninstallLifecycle (o : io) (now : Z) (taskErr : option string) (f : stateFile) : stateFile :=
  FailKworUninstallLifecycleWithReport o now taskErr None f.

(** [owned]: the outcome of [IsKworUninstalling], the flag in the ownership
    manifest. *)
Definition KworServiceStartAllowed (o : io) (owned : res lerr bool) (f : stateFile) : res lerr unit :=
  match owned with
  | Err e => Err e
  | Ok true => Err ErrUninstalling
  | Ok false =>
      match LoadKworUninstallLifecycleState o f with
      | Err e => Err e
      | Ok (Some s) => if lifecycleStateBlocksNewWork s then Err ErrUninstalling else Ok tt
      | Ok None => Ok tt
      end
  end.

(** ** Traces

    The operations different processes apply to the file, in the order in
    which they hold its lock. *)
Inductive uop : Type :=
| UReserve (id : option string)
| URecordWorker (reservationID : string) (pid pgid : Z) (unitName : string)
| URollbackFailure (reservationID : string) (pid pgid startTime : Z) (unitName : string) (taskErr : option string)
| UScheduleFailed (reservationID : string) (taskErr : option string)
| UBegin (pid : Z) (phase : string)
| UUpdate (phase : string)
| UFail (taskErr : option string) (report : option (list string * list string))
| UClear.                     (* ClearKworUninstallLifecycle removed the file *)

Definition stepU (o : io) (h : host) (now : Z) (op : uop) (f : stateFile) : stateFile :=
  match op with
  | UReserve id => (ReservePanelUninstallLifecycle o h now id f).2
  | URecordWorker r pid pgid u => (RecordPanelUninstallLifecycleWorker o h now r pid pgid u f).2
  | URollbackFailure r pid pgid st u e =>
      (RecordPanelUninstallLifecycleRollbackFailure o now r pid pgid st u e f).2
  | UScheduleFailed r e => MarkPanelUninstallLifecycleScheduleFailed o now r e f
  | UBegin pid phase => (BeginKworUninstallLifecycle o h now pid phase f).2
  | UUpdate phase => (UpdateKworUninstallLifecycle o now phase f).2
  | UFail e report => FailKworUninstallLifecycleWithReport o now e report f
  | UClear => NoFile
  end.

(** The two ways an uninstall ends: its holder reports that no worker could be
    started, or the finished worker removes the file. *)
Definition releases (op : uop) (f : stateFile) : bool :=
  match op, f with
  | UClear, _ => true
  | UScheduleFailed r _, JsonFile s =>
      String.eqb (trim_space (usReservationID s)) (trim_space r) && uninstallStatus_eqb (usStatus s) StatusScheduled
  | _, _ => false
  end.

(** [held t f t' f']: from [f] at time [t] to [f'] at time [t'], by steps that
    do not end the uninstall. *)
Inductive held (t : Z) (f : stateFile) : Z -> stateFile -> Prop :=
| held_refl : held t f t f
| held_step t' f' o h now op :
    held t f t' f' -> t' <= now -> releases op f' = false -> held t f now (stepU o h now op f').

(** An uninstall that has begun: it blocks new work. *)
Definition standing (s : KworUninstallLifecycleState) : Prop :=
  lifecycleStateBlocksNewWork s = true /\ usStatus s <> StatusNone /\
  (usStatus s = StatusFailed -> usBlockNewWork s = true).

(** The file is readable and blocks new work; its time stamp is not older
    than [t]. *)
Definition blocking (t : Z) (f : stateFile) : Prop :=
  exists s, f = JsonFile s /\ usVersion s = kworLifecycleStateVersion /\
            standing s /\ t / 1000000000 <= usUpdatedAt s.

Lemma blocking_mono t t' f : t <= t' -> blocking t' f -> blocking t f.
Proof.
  intros Ht (s & -> & Hv & Hs & Hu). exists s. split_and!; try done.
  pose proof (Z.div_le_mono t t' 1000000000 eq_refl Ht). lia.
Qed.

(** A save of a blocking state leaves the file blocking, whatever fails. *)
Lemma save_blocking o now t s f :
  t <= now -> standing s -> blocking t f -> blocking t (saveKworUninstallLifecycleStateLocked o now s f).2.
Proof.
  intros Ht Hs Hblk. unfold saveKworUninstallLifecycleStateLocked, writeKworLifecycleJSON.
  assert (blocking t (JsonFile (stamp now s))) as H.
  { exists (stamp now s). split_and!; try done. simpl. by apply Z.div_le_mono. }
  by destruct (ioWrite o).
Qed.

Lemma load_blocking o t f :
  blocking t f ->
  match loadKworUninstallLifecycleStateLocked o f with
  | Ok (Some s) => standing s /\ t / 1000000000 <= usUpdatedAt s
  | Ok None => False
  | Err _ => True
  end.
Proof.
  intros (s & -> & Hv & Hs & Hu). unfold loadKworUninstallLifecycleStateLocked.
  destruct (ioRead o); simpl; [|done]. rewrite Hv. done.
Qed.

Lemma update_blocking o now t u f :
  t <= now ->
  (forall s, loadKworUninstallLifecycleStateLocked o f = Ok (Some s) -> standing (u s)) ->
  blocking t f -> blocking t (updateKworUninstallLifecycleState o now u f).2.
Proof.
  intros Ht Hu Hb. unfold updateKworUninstallLifecycleState. destruct (ioLock o); simpl; [|done].
  pose proof (load_blocking o t f Hb) as Hl.
  destruct (loadKworUninstallLifecycleStateLocked o f) as [[s|]|e]; [|done..].
  apply save_blocking; [done|by apply Hu|done].
Qed.

Lemma load_normal o f s :
  loadKworUninstallLifecycleStateLocked o f = Ok (Some s) -> exists s0, f = JsonFile s0 /\ s = normalizeState s0.
Proof.
  unfold loadKworUninstallLifecycleStateLocked. destruct (ioRead o); simpl; [|done].
  destruct f as [| |s0]; try done. case_match; [|done]. intros [= <-]. by exists s0.
Qed.

Lemma status_eqb_eq a b : uninstallStatus_eqb a b = true <-> a = b.
Proof. by destruct a, b. Qed.

(** The branches of an operation, outermost first. *)
Ltac branch :=
  cbv zeta;
  match goal with
  | |- context [if ?b then _ else _] => destruct b eqn:?
  end.

Lemma stepU_blocking o h now t op f :
  t <= now -> releases op f = false -> blocking t f -> blocking t (stepU o h now op f).
Proof.
  intros Ht Hr Hb. pose proof (load_blocking o t f Hb) as Hl. destruct op; simpl.
  - unfold ReservePanelUninstallLifecycle. destruct (ioLock o); simpl; [|done].
    destruct (loadKworUninstallLifecycleStateLocked o f) as [st|e]; [|done].
    match goal with |- context [if ?b then _ else _] => destruct b; [done|] end.
    destruct id as [r|]; [|done].
    match goal with |- context [saveKworUninstallLifecycleStateLocked o now ?s f] =>
      assert (blocking t (saveKworUninstallLifecycleStateLocked o now s f).2) as Hsave by (by apply save_blocking);
      revert Hsave; destruct (saveKworUninstallLifecycleStateLocked o now s f) as [[]] end; done.
  - unfold RecordPanelUninstallLifecycleWorker. do 2 (branch; [done|]).
    destruct (loadKworUninstallLifecycleStateLocked o f) as [[s|]|e]; [|done..].
    do 2 (branch; [done|]). case_match; [|done].
    unfold applyPanelUninstallWorkerRecord. do 2 (branch; [done|]). apply save_blocking; [done| |done]. unfold standing in *. naive_solver.
  - unfold RecordPanelUninstallLifecycleRollbackFailure. do 2 (branch; [done|]).
    destruct (loadKworUninstallLifecycleStateLocked o f) as [[s|]|e]; [|done..].
    unfold applyPanelUninstallRollbackFailure. do 2 (branch; [done|]). by apply save_blocking.
  - apply update_blocking; [done| |done]. intros s Hs. rewrite Hs in Hl.
    destruct (load_normal _ _ _ Hs) as (s0 & -> & ->). simpl in Hr. unfold markScheduleFailed.
    simpl. rewrite andb_false_iff in Hr.
    assert (String.eqb (trim_space reservationID) "" ||
      negb (String.eqb (trim_space (usReservationID s0)) (trim_space reservationID)) ||
      negb (uninstallStatus_eqb (usStatus s0) StatusScheduled) = true) as ->; [|by destruct Hl].
    destruct Hr as [->| ->]; by rewrite ?orb_true_r.
  - by apply update_blocking.
  - by apply update_blocking.
  - by apply update_blocking.
  - done.
Qed.

Lemma held_blocking t f t' f' : blocking t f -> held t f t' f' -> blocking t f' /\ t <= t'.
Proof.
  intros Hb. induction 1 as [|t' f' o h now op Hh [IH Hle] Ht Hr]; [split; [done|lia]|].
  split; [|lia]. apply stepU_blocking; [lia|done..].
Qed.

Lemma reserve_blocking o h t id f r f' :
  ReservePanelUninstallLifecycle o h t id f = (Ok (Some r), f') -> blocking t f'.
Proof.
  unfold ReservePanelUninstallLifecycle, saveKworUninstallLifecycleStateLocked, writeKworLifecycleJSON.
  branch; [done|]. destruct (loadKworUninstallLifecycleStateLocked o f) as [st|]; [|done].
  branch; [done|]. destruct id as [r0|]; [|done]. destruct (ioWrite o); [|done..].
  intros [= <- <-]. eexists. split_and!; done || apply Z.le_refl.
Qed.

(** ** Guarantees *)

(** C20: The reservation of an uninstall is exclusive and keeps the host still.
    From a successful reservation on, and until its holder reports that no
    worker could be started or the finished worker removes the file, through
    any operations of any processes with any file failures: no panel process
    may start services, and another reservation succeeds only when the worker
    recorded in the file is seen dead and, if it never reported to be
    running, more than 29 seconds after the reservation. *)
Theorem uninstall_exclusive o h t0 id f r f0 t f1 o' h' now id' r' f2 :
  ReservePanelUninstallLifecycle o h t0 id f = (Ok (Some r), f0) ->
  held t0 f0 t f1 ->
  t <= now -> 1000000000 <= t0 ->
  (forall o'' owned, KworServiceStartAllowed o'' owned f1 <> Ok tt) /\
  (ReservePanelUninstallLifecycle o' h' now id' f1 = (Ok (Some r'), f2) ->
   exists s, f1 = JsonFile s /\
     lifecycleUninstallWorkerAlive h' (normalizeState s) = false /\
     (usStatus s = StatusScheduled -> t0 + 29 * 1000000000 < now)).
Proof.
  intros Hres Hheld Ht Ht0. apply reserve_blocking in Hres.
  destruct (held_blocking _ _ _ _ Hres Hheld) as [(s & -> & Hv & (Hb & Hn & Hf) & Hu) Hle]. split.
  - intros o'' owned. unfold KworServiceStartAllowed, LoadKworUninstallLifecycleState,
      loadKworUninstallLifecycleStateLocked.
    destruct owned as [[]|]; [done| |done]. rewrite Hv.
    destruct (ioLock o''), (ioRead o''); simpl; try done.
    unfold lifecycleStateBlocksNewWork in *. simpl. by rewrite Hb.
  - unfold ReservePanelUninstallLifecycle. intros H. exists s. split; [done|]. revert H.
    unfold loadKworUninstallLifecycleStateLocked. rewrite Hv.
    destruct (ioLock o'), (ioRead o'); simpl; try done.
    destruct (lifecycleUninstallTakeoverBlocked _ _ _) eqn:E; [done|]. intros _.
    unfold lifecycleUninstallTakeoverBlocked in E. simpl in E.
    unfold lifecycleStateBlocksNewWork in Hb.
    destruct (usStatus s) eqn:Es; simpl in *.
    + done.
    + destruct (lifecycleUninstallWorkerAlive h' (normalizeState s)); [done|]. split; [done|]. intros _.
      pose proof (Z.div_mod t0 1000000000 ltac:(lia)). pose proof (Z.mod_pos_bound t0 1000000000 eq_refl).
      unfold kworUninstallStartupGrace in E. zcases; lia.
    + done.
    + rewrite Hf in E by done. simpl in E. done.
Qed.

(** A run that uses the theorem: a panel reserves at second 100, the worker
    reports in, and another panel takes over after the worker died. *)
Definition deadHost : host :=
  mkHost (fun _ => Ok None) (fun _ => false) (fun _ _ => Ok false) false false (fun _ _ _ => Ok false)
    (fun _ => Ok false).

Lemma uninstall_exclusive_witness :
  let t0 := 100 * 1000000000 in
  let f0 := (ReservePanelUninstallLifecycle calmIo deadHost t0 (Some "aa") NoFile).2 in
  let f1 := stepU calmIo deadHost (t0 + 5) (UBegin 42 "stopping") f0 in
  (forall o owned, KworServiceStartAllowed o owned f1 <> Ok tt) /\
  (ReservePanelUninstallLifecycle calmIo deadHost (t0 + 9) (Some "bb") f1).1 = Ok (Some "bb").
Proof.
  intros t0 f0 f1.
  destruct (uninstall_exclusive calmIo deadHost t0 (Some "aa") NoFile "aa" f0 (t0 + 5) f1
              calmIo deadHost (t0 + 9) (Some "bb") "bb"
              (ReservePanelUninstallLifecycle calmIo deadHost (t0 + 9) (Some "bb") f1).2) as [Hstart _].
  - reflexivity.
  - apply (held_step t0 f0 t0 f0 calmIo deadHost (t0 + 5) (UBegin 42 "stopping")); [apply held_refl|lia|reflexivity].
  - lia.
  - unfold t0. lia.
  - split; [exact Hstart|]. reflexivity.
Defined.

(** A panel that lost its reservation, or whose worker has reported in,
    cannot change the uninstall any more: recording its worker and recording
    a failed rollback leave the file as it is, and are errors when the
    reservation is another one; reporting that no worker started rewrites the
    same state, at most. *)
Theorem stale_reservation_powerless o h now r pid pgid st u e s :
  trim_space (usReservationID s) <> trim_space r \/ usStatus s <> StatusScheduled ->
  let f := JsonFile s in
  (RecordPanelUninstallLifecycleWorker o h now r pid pgid u f).2 = f /\
  (RecordPanelUninstallLifecycleRollbackFailure o now r pid pgid st u e f).2 = f /\
  (trim_space (usReservationID s) <> trim_space r ->
     (RecordPanelUninstallLifecycleWorker o h now r pid pgid u f).1 <> Ok tt /\
     (RecordPanelUninstallLifecycleRollbackFailure o now r pid pgid st u e f).1 <> Ok tt) /\
  MarkPanelUninstallLifecycleScheduleFailed o now r e f ∈ [f; JsonFile (stamp now (normalizeState s))].
Proof.
  intros Hs f.
  assert (negb (String.eqb (trim_space (usReservationID s)) (trim_space r)) = true \/
          negb (String.eqb (trim_space (usReservationID s)) (trim_space r)) = false /\
          negb (uninstallStatus_eqb (usStatus s) StatusScheduled) = true) as Hcase.
  { destruct (String.eqb_spec (trim_space (usReservationID s)) (trim_space r)) as [E|E]; [|by left].
    right. split; [done|]. destruct Hs as [Hs|Hs]; [done|]. by destruct (usStatus s). }
  unfold RecordPanelUninstallLifecycleWorker, RecordPanelUninstallLifecycleRollbackFailure,
    MarkPanelUninstallLifecycleScheduleFailed, updateKworUninstallLifecycleState,
    loadKworUninstallLifecycleStateLocked, applyPanelUninstallRollbackFailure,
    markScheduleFailed, saveKworUninstallLifecycleStateLocked, writeKworLifecycleJSON. subst f. cbv zeta.
  destruct (ioLock o), (ioRead o); cbn [negb]; rewrite ?trim_space_idemp;
    try (destruct (String.eqb (trim_space r) ""); split_and!; done || set_solver).
  destruct (usVersion s =? kworLifecycleStateVersion);
    [|destruct (String.eqb (trim_space r) ""); split_and!; done || set_solver].
  cbn [normalizeState usReservationID usStatus].
  destruct Hcase as [->|[Hr ->]]; [|rewrite Hr]; rewrite ?orb_true_r;
    destruct (String.eqb (trim_space r) ""), (ioWrite o); split_and!; try done; try set_solver.
  all: intros Hne; exfalso; apply Hne; apply String.eqb_eq; by destruct (String.eqb _ _).
Qed.

Lemma stale_reservation_powerless_witness :
  let s := mkState 1 StatusRunning "removing files" "" [] [] true "bb" 7 7 99 "" 100 in
  (RecordPanelUninstallLifecycleWorker calmIo deadHost (200 * 1000000000) "aa" 5 5 "" (JsonFile s)).2 = JsonFile s.
Proof.
  intros s.
  destruct (stale_reservation_powerless calmIo deadHost (200 * 1000000000) "aa" 5 5 0 "" None s) as [H _].
  - right. discriminate.
  - exact H.
Defined.
