(* ===== verification/ProcessIdentity.v ===== *)
(** * The identity of a process ([service/lifecycle_linux.go], [lifecycle.go])

    Process ids are reused.  The panel therefore records the start time of a
    worker and hands it a token in its environment, and reads both back from
    [/proc] before it trusts a recorded id.  This file models how the token
    is put into the environment of a command, how the two [/proc] files are
    read, and the view of the host ([Uninstall.host]) that results from
    them. *)

From S2P Require Import Prelude GoStrings Uninstall.
From stdpp Require Import base sets list strings.
From Stdlib Require Import Ascii ZArith Lia.

#[local] Open Scope Z_scope.

(** ** [strings.LastIndexByte], [strings.Fields] and [strconv.ParseUint] *)

(** The text after the last occurrence of [c]. *)
Fixpoint afterLast (c : ascii) (s : string) : option string :=
  match s with
  | EmptyString => None
  | String a s' =>
      match afterLast c s' with
      | Some r => Some r
      | None => if Ascii.eqb a c then Some s' else None
      end
  end.

(** [word]: the word that is being read, reversed; [skip]: the bytes left of a
    white-space character that has been seen. *)
Fixpoint fieldsLoop (skip : nat) (word s : string) : list string :=
  let flush := if String.eqb word "" then [] else [srev word] in
  match s with
  | EmptyString => flush
  | String a s' =>
      match skip with
      | S n => fieldsLoop n word s'
      | O => match strip_any spaces s with
             | Some r => flush ++ fieldsLoop (String.length s' - String.length r) "" s'
             | None => fieldsLoop 0 (String a word) s'
             end
      end
  end.

Definition fields (s : string) : list string := fieldsLoop 0 "" s.

Definition parseUint64 (s : string) : option Z :=
  if String.eqb s "" then None
  else match parse_digits 0 s with
       | Some z => if z <? 2 ^ 64 then Some z else None
       | None => None
       end.

(** ** [/proc] *)

(** Reading a file: [Ok None] is a file that does not exist. *)
Definition procFile : Type := res lerr (option string).

Definition parseStartTime (raw : string) : option Z :=
  match afterLast ")" raw with
  | None | Some EmptyString => None
  | Some rest =>
      match fields rest !! 19%nat with
      | None => None
      | Some f => match parseUint64 f with
                  | Some t => if t =? 0 then None else Some t
                  | None => None
                  end
      end
  end.

Definition kworLifecycleProcessStartTime (stat : Z -> procFile) (pid : Z) : res lerr (option Z) :=
  if pid <=? 0 then Err ErrProcess
  else match stat pid with
       | Err e => Err e
       | Ok None => Ok None
       | Ok (Some raw) => match parseStartTime raw with
                          | Some t => Ok (Some t)
                          | None => Err ErrProcess
                          end
       end.

Definition kworLifecycleOperationIDEnv : string := "KWOR_LIFECYCLE_OPERATION_ID".
Definition NUL : ascii := ascii_of_nat 0.

Definition kworProcessEnvironmentHasOperationID (environ : Z -> procFile) (pid : Z) (operationID : string)
  : res lerr bool :=
  match environ pid with
  | Err e => Err e
  | Ok None => Err ErrProcess
  | Ok (Some raw) =>
      let want := kworLifecycleOperationIDEnv +:+ "=" +:+ trim_space operationID in
      Ok (existsb (String.eqb want) (splitOn NUL raw))
  end.

(** The view of the host these two files give; systemd and [kill(pid, 0)] stay
    parameters. *)
Definition procHost (stat environ : Z -> procFile) (pidAlive : Z -> bool) (systemd systemctl : bool)
  (unitOwned : string -> string -> bool -> res lerr bool) (unitActive : string -> res lerr bool) : host :=
  mkHost (kworLifecycleProcessStartTime stat) pidAlive (kworProcessEnvironmentHasOperationID environ)
         systemd systemctl unitOwned unitActive.

(** One look of [kworManagedOperationProcessIdentity]; it looks again as long
    as the child has not yet executed its program and taken over the
    environment. *)
Definition processIdentityOnce (stat environ : Z -> procFile) (pid : Z) (operationID : string)
  : option (res lerr Z) :=
  match kworLifecycleProcessStartTime stat pid with
  | Err e => Some (Err e)
  | Ok None => Some (Err ErrProcess)
  | Ok (Some t) =>
      match kworProcessEnvironmentHasOperationID environ pid operationID with
      | Err e => Some (Err e)
      | Ok true => Some (Ok t)
      | Ok false => None
      end
  end.

(** The looks until the deadline; the last one decides. *)
Fixpoint kworManagedOperationProcessIdentity (looks : list ((Z -> procFile) * (Z -> procFile))) (pid : Z)
  (operationID : string) : res lerr Z :=
  match looks with
  | [] => Err ErrProcess
  | (stat, environ) :: looks' =>
      match processIdentityOnce stat environ pid operationID with
      | Some r => r
      | None => kworManagedOperationProcessIdentity looks' pid operationID
      end
  end.

(** ** The environment of a command *)

Definition setKworCommandEnvironment (environment : list string) (key value : string) : list string :=
  let key := trim_space key in
  if String.eqb key "" then environment
  else
    let prefix := key +:+ "=" in
    filter (fun entry => GoStrings.strip_prefix prefix entry = None) environment ++ [prefix +:+ value].

(** What the kernel shows of an environment. *)
Definition environText (environment : list string) : string :=
  String.concat "" ((fun entry => entry +:+ String NUL "") <$> environment).

(** ** Facts *)

Lemma afterLast_none c s : containsByte c s = false -> afterLast c s = None.
Proof.
  induction s as [|a s IH]; simpl; [done|]. intros [Ha Hs]%orb_false_iff. rewrite IH by done. by rewrite Ha.
Qed.

Lemma afterLast_app c s t : containsByte c t = false -> afterLast c (s +:+ String c t) = Some t.
Proof.
  intros Ht. induction s as [|a s IH]; simpl.
  - rewrite afterLast_none by done. by rewrite Ascii.eqb_refl.
  - by rewrite IH.
Qed.

Definition separator (c : ascii) : Prop := c = " "%char \/ c = ascii_of_nat 10.

Lemma fieldsLoop_word c rest : separator c -> forall w acc,
  allc plain w = true -> srev w +:+ acc <> "" ->
  fieldsLoop 0 acc (w +:+ String c rest) = srev (srev w +:+ acc) :: fields rest.
Proof.
  intros Hc. induction w as [|a w IH]; intros acc Hw Hne.
  - simpl (srev "" +:+ acc) in *. unfold fields.
    assert (strip_any spaces (String c rest) = Some rest) as Hs by (by destruct Hc as [->| ->]).
    change ("" +:+ String c rest) with (String c rest). cbn [fieldsLoop]. rewrite Hs, Nat.sub_diag.
    destruct (String.eqb_spec acc ""); done.
  - simpl in Hw. apply andb_true_iff in Hw as [Ha Hw]. rewrite app_cons. cbn [fieldsLoop].
    rewrite strip_spaces_plain by done.
    assert (srev (String a w) +:+ acc = srev w +:+ String a acc) as Heq.
    { change (String a w) with (String a "" +:+ w). rewrite srev_app.
      change (srev (String a "")) with (String a ""). clear. induction (srev w) as [|b t IH]; [done|].
      rewrite !app_cons. by rewrite IH. }
    rewrite Heq in *. by apply IH.
Qed.

(** Words, each followed by a blank or a line feed. *)
Definition layout (ws : list (string * ascii)) : string :=
  String.concat "" ((fun wc => wc.1 +:+ String wc.2 "") <$> ws).

Lemma concat_cons s l : String.concat "" (s :: l) = s +:+ String.concat "" l.
Proof. destruct l; simpl; [by rewrite sapp_nil_r|done]. Qed.

Lemma fields_layout ws :
  Forall (fun wc => wc.1 <> "" /\ allc plain wc.1 = true /\ separator wc.2) ws -> fields (layout ws) = ws.*1.
Proof.
  induction 1 as [|[w c] ws (Hne & Hw & Hc) _ IH]; [done|]. unfold layout in *. rewrite fmap_cons, concat_cons.
  simpl in *. rewrite sapp_assoc, app_cons. unfold fields. rewrite fieldsLoop_word; [|done..|].
  - change ("" +:+ ?x) with x in IH |- *. rewrite sapp_nil_r, srev_involutive. f_equal. exact IH.
  - rewrite sapp_nil_r. intros Hr. apply Hne. by rewrite <- (srev_involutive w), Hr.
Qed.

Lemma layout_no_byte c ws :
  Forall (fun wc => containsByte c wc.1 = false /\ wc.2 <> c) ws -> containsByte c (layout ws) = false.
Proof.
  induction 1 as [|[w d] ws [Hw Hd] _ IH]; [done|]. unfold layout in *. rewrite fmap_cons, concat_cons.
  simpl in *. rewrite !containsByte_app, Hw, IH. simpl. by destruct (Ascii.eqb_spec d c).
Qed.

Lemma splitOn_environ l :
  Forall (fun e => containsByte NUL e = false) l -> splitOn NUL (environText l) = l ++ [""].
Proof.
  induction 1 as [|e l He _ IH]; [done|]. unfold environText in *. rewrite fmap_cons, concat_cons, sapp_assoc.
  change (String NUL "" +:+ ?x) with (String NUL x). rewrite splitOn_app by done. by rewrite IH.
Qed.

(** The token of an operation is recognised, and no other.  A process that
    runs with the environment prepared for operation [id] is taken for a
    process of [id], and of no other operation, whatever tokens its
    parent's environment carried before. *)
Theorem operation_token_roundtrip environ pid environment id id' :
  environ pid = Ok (Some (environText (setKworCommandEnvironment environment kworLifecycleOperationIDEnv (trim_space id)))) ->
  Forall (fun e => containsByte NUL e = false) environment -> containsByte NUL id = false ->
  kworProcessEnvironmentHasOperationID environ pid id' = Ok true <-> trim_space id' = trim_space id.
Proof.
  intros Henv Hnul Hid. unfold kworProcessEnvironmentHasOperationID. rewrite Henv. cbv zeta.
  unfold setKworCommandEnvironment. cbv zeta.
  assert (trim_space kworLifecycleOperationIDEnv = kworLifecycleOperationIDEnv) as -> by (by vm_compute).
  destruct (String.eqb_spec kworLifecycleOperationIDEnv "") as [|_]; [done|].
  rewrite <- sapp_assoc. assert (containsByte NUL (kworLifecycleOperationIDEnv +:+ "=") = false) as Hkey by (by vm_compute).
  assert (kworLifecycleOperationIDEnv +:+ "=" <> "") as Hne by done.
  revert Hkey Hne. generalize (kworLifecycleOperationIDEnv +:+ "="). intros p Hkey Hne. rewrite splitOn_environ.
  2: { apply Forall_app. split.
       - rewrite Forall_forall in Hnul |- *. intros e [_ He]%list_elem_of_filter. auto.
       - constructor; [|constructor]. rewrite containsByte_app. apply orb_false_iff. split; [done|].
         by apply trim_space_contains. }
  assert (existsb (String.eqb (p +:+ trim_space id'))
     ((filter (fun e => GoStrings.strip_prefix p e = None) environment ++ [p +:+ trim_space id]) ++ [""]) = true
     <-> trim_space id' = trim_space id) as Hex.
  { rewrite existsb_exists. split.
    - intros (e & He & Heq%String.eqb_eq). apply list_elem_of_In in He. subst e.
      rewrite !elem_of_app, !list_elem_of_singleton, list_elem_of_filter in He.
      destruct He as [[[Hn _]|Heq]|Hnil].
      + by rewrite strip_prefix_of in Hn.
      + by apply sapp_inj in Heq.
      + by destruct p.
    - intros ->. exists (p +:+ trim_space id). rewrite <- list_elem_of_In.
      split; [set_solver|apply String.eqb_refl]. }
  rewrite <- Hex. split; [by intros [= ->]|by intros ->].
Qed.

Lemma operation_token_roundtrip_witness :
  let env := setKworCommandEnvironment ["PATH=/bin"; "KWOR_LIFECYCLE_OPERATION_ID=stale"]
               kworLifecycleOperationIDEnv (trim_space "update-ab") in
  let environ := fun _ : Z => Ok (Some (environText env)) : procFile in
  kworProcessEnvironmentHasOperationID environ 7 "update-ab" = Ok true /\
  kworProcessEnvironmentHasOperationID environ 7 "stale" = Ok false.
Proof.
  intros env environ. split.
  - apply (operation_token_roundtrip environ 7 ["PATH=/bin"; "KWOR_LIFECYCLE_OPERATION_ID=stale"] "update-ab" "update-ab").
    + reflexivity.
    + repeat constructor.
    + reflexivity.
    + reflexivity.
  - vm_compute. reflexivity.
Defined.

(** The name of a process cannot forge its start time.  From the text of
    [/proc/<pid>/stat], whose second field is a name in parentheses with any
    bytes in it, blanks and closing parentheses included, the start time
    read is the number in the 22nd field. *)
Theorem start_time_exact stat pid comm ws t :
  stat pid = Ok (Some (itoa pid +:+ " (" +:+ comm +:+ ") " +:+ layout ws)) ->
  0 < pid ->
  Forall (fun wc => wc.1 <> "" /\ allc plain wc.1 = true /\ containsByte ")" wc.1 = false /\ separator wc.2) ws ->
  ws.*1 !! 19%nat = Some (itoa t) -> 0 < t <= max_i64 ->
  kworLifecycleProcessStartTime stat pid = Ok (Some t).
Proof.
  intros Hstat Hpid Hws Ht Hrange. unfold kworLifecycleProcessStartTime. rewrite Hstat.
  destruct (Z.leb_spec pid 0); [lia|]. unfold parseStartTime.
  assert (itoa pid +:+ " (" +:+ comm +:+ ") " +:+ layout ws =
          (itoa pid +:+ " (" +:+ comm) +:+ String ")" (String " " (layout ws))) as -> by (by rewrite !sapp_assoc).
  rewrite afterLast_app.
  2: { simpl. apply layout_no_byte. eapply Forall_impl; [exact Hws|]. intros [w c] (_ & _ & ? & Hc). simpl in *.
       split; [done|]. by destruct Hc as [->| ->]. }
  assert (fields (String " " (layout ws)) = ws.*1) as ->.
  { rewrite <- fields_layout; [|eapply Forall_impl; [exact Hws|]; intros wc (? & ? & _ & ?); done].
    assert (strip_any spaces (String " " (layout ws)) = Some (layout ws)) as Hs by done.
    unfold fields at 1. cbn [fieldsLoop]. rewrite Hs, Nat.sub_diag. done. }
  rewrite Ht. unfold parseUint64.
  destruct (itoa_cons t ltac:(lia)) as (c & s & Hcs & _).
  destruct (String.eqb_spec (itoa t) "") as [E|_]; [by rewrite Hcs in E|].
  assert (parse_digits 0 (itoa t) = Some t) as ->.
  { unfold itoa. destruct (Z.ltb_spec t 0); [lia|]. rewrite parse_itoa_fuel; [done| |done].
    unfold max_i64 in Hrange. split; [lia|]. apply (Z.le_lt_trans _ (2 ^ 63)); [lia|reflexivity]. }
  assert (t < 2 ^ 64) as ->%Z.ltb_lt by (unfold max_i64 in *; lia).
  destruct (Z.eqb_spec t 0); [lia|done].
Qed.

Lemma start_time_exact_witness :
  let ws := ((fun w => (w, " "%char)) <$> repeat "1" 19) ++ [("4242", ascii_of_nat 10)] in
  let stat := fun _ : Z => Ok (Some (itoa 7 +:+ " (" +:+ "a) R 1 (b" +:+ ") " +:+ layout ws)) : procFile in
  kworLifecycleProcessStartTime stat 7 = Ok (Some 4242).
Proof.
  intros ws stat. apply (start_time_exact stat 7 "a) R 1 (b" ws 4242).
  - reflexivity.
  - lia.
  - cbn. repeat (apply Forall_cons; split;
      [split; [discriminate|split; [reflexivity|split; [reflexivity|first [left; reflexivity|right; reflexivity]]]]|]).
    apply Forall_nil. exact I.
  - reflexivity.
  - unfold max_i64. lia.
Defined.
