(* ===== verification/Lifecycle.v ===== *)
(** * Managed background operations ([service/lifecycle.go], [lifecycle_linux.go])

    Every background task of the panel is an operation: it is registered in
    the memory of the process, and, when it may outlive the process, in a
    file of the runtime directory.  An uninstall first quiesces the panel: it
    refuses new operations, cancels the registered ones, stops the processes
    of the recorded ones and waits for the workers to finish.

    The functions run concurrently.  A function is a thread here, and a step
    executes one of its critical sections: what it does while it holds
    [kworLifecycleFileMu], or one access to the memory under
    [kworLifecycleTaskMu].  [beginKworManagedOperation] keeps the second mutex
    over several steps, so other threads may change the file, and only the
    file, in between.  The file functions themselves (load, upsert, update,
    remove) are functions on the file, as in [Uninstall]. *)

From S2P Require Import Prelude GoStrings Uninstall.
From stdpp Require Import base gmap sets list strings sorting.
From Stdlib Require Import ZArith Lia.

#[local] Open Scope Z_scope.

(** ** The record file *)

Record KworManagedOperationRecord : Type := mkOp {
  ID : string;
  Kind : string;
  PID : Z;
  PGID : Z;
  ProcessStartTime : Z;
  Unit : string;
  BlockNewWork : bool;
  BlockingSince : Z;
  StartedAt : Z }.

Record kworManagedOperationsFile : Type := mkOpsFile {
  Version : Z;
  Operations : list KworManagedOperationRecord }.

Definition opsFile : Type := jsonFile kworManagedOperationsFile.

Definition trimRecord (r : KworManagedOperationRecord) : KworManagedOperationRecord :=
  mkOp (trim_space (ID r)) (trim_space (Kind r)) (PID r) (PGID r) (ProcessStartTime r)
       (trim_space (Unit r)) (BlockNewWork r) (BlockingSince r) (StartedAt r).

(** The complete records, the first one of each id. *)
Fixpoint completeRecords (seen : gset string) (l : list KworManagedOperationRecord)
  : list KworManagedOperationRecord :=
  match l with
  | [] => []
  | r :: l' =>
      let r := trimRecord r in
      if String.eqb (ID r) "" || String.eqb (Kind r) "" then completeRecords seen l'
      else if bool_decide (ID r ∈ seen) then completeRecords seen l'
      else r :: completeRecords ({[ID r]} ∪ seen) l'
  end.

Definition idLe (a b : KworManagedOperationRecord) : Prop := Is_true (String.leb (ID a) (ID b)).
#[global] Instance idLe_dec a b : Decision (idLe a b) := _.

Definition normalizeKworManagedOperations (l : list KworManagedOperationRecord)
  : list KworManagedOperationRecord :=
  merge_sort idLe (completeRecords ∅ l).

Definition loadKworManagedOperationsLocked (o : io) (f : opsFile)
  : res lerr (list KworManagedOperationRecord) :=
  if negb (ioRead o) then Err ErrRead
  else match f with
       | NoFile => Ok []
       | BadFile => Err ErrDecode
       | JsonFile file =>
           if Version file =? kworLifecycleStateVersion
           then Ok (normalizeKworManagedOperations (Operations file)) else Err ErrVersion
       end.

Definition saveKworManagedOperationsLocked (o : io) (l : list KworManagedOperationRecord) (f : opsFile)
  : res lerr unit * opsFile :=
  writeKworLifecycleJSON o (mkOpsFile kworLifecycleStateVersion (normalizeKworManagedOperations l)) f.

Definition loadKworManagedOperations (o : io) (f : opsFile) : res lerr (list KworManagedOperationRecord) :=
  if negb (ioLock o) then Err ErrLock else loadKworManagedOperationsLocked o f.

(** Read, change and write back under the lock; [None] is "not found". *)
Definition withOperations (o : io)
  (change : list KworManagedOperationRecord -> option (list KworManagedOperationRecord)) (f : opsFile)
  : res lerr unit * opsFile :=
  if negb (ioLock o) then (Err ErrLock, f)
  else
    match loadKworManagedOperationsLocked o f with
    | Err e => (Err e, f)
    | Ok l =>
        match change l with
        | None => (Err ErrNoOperation, f)
        | Some l' => saveKworManagedOperationsLocked o l' f
        end
    end.

(** The first record with the id, replaced. *)
Fixpoint replaceFirst (id : string) (g : KworManagedOperationRecord -> KworManagedOperationRecord)
  (l : list KworManagedOperationRecord) : option (list KworManagedOperationRecord) :=
  match l with
  | [] => None
  | r :: l' => if String.eqb (ID r) id then Some (g r :: l') else (cons r) <$> replaceFirst id g l'
  end.

Definition upsertKworManagedOperation (o : io) (record : KworManagedOperationRecord) (f : opsFile)
  : res lerr unit * opsFile :=
  let record := mkOp (trim_space (ID record)) (trim_space (Kind record)) (PID record) (PGID record)
                     (ProcessStartTime record) (Unit record) (BlockNewWork record)
                     (BlockingSince record) (StartedAt record) in
  if String.eqb (ID record) "" || String.eqb (Kind record) "" then (Err ErrIncomplete, f)
  else withOperations o (fun l =>
         Some (match replaceFirst (ID record) (fun _ => record) l with
               | Some l' => l'
               | None => l ++ [record]
               end)) f.

Definition updateKworManagedOperation (o : io) (id : string)
  (update : KworManagedOperationRecord -> KworManagedOperationRecord) (f : opsFile)
  : res lerr unit * opsFile :=
  let id := trim_space id in
  if String.eqb id "" then (Ok tt, f) else withOperations o (replaceFirst id update) f.

Definition removeKworManagedOperation (o : io) (id : string) (f : opsFile) : res lerr unit * opsFile :=
  let id := trim_space id in
  if String.eqb id "" then (Ok tt, f)
  else withOperations o (fun l => Some (filter (fun r => ID r <> id) l)) f.

(** ** What a worker records about itself *)

Definition setProcess (pid pgid startTime : Z) (r : KworManagedOperationRecord) : KworManagedOperationRecord :=
  mkOp (ID r) (Kind r) pid pgid startTime (Unit r) (BlockNewWork r) (BlockingSince r) (StartedAt r).
Definition setSystemdUnit (unitName : string) (r : KworManagedOperationRecord) : KworManagedOperationRecord :=
  mkOp (ID r) (Kind r) (PID r) (PGID r) (ProcessStartTime r) (trim_space unitName) (BlockNewWork r)
       (BlockingSince r) (StartedAt r).
Definition setBlockNewWork (now : Z) (block : bool) (r : KworManagedOperationRecord)
  : KworManagedOperationRecord :=
  mkOp (ID r) (Kind r) (PID r) (PGID r) (ProcessStartTime r) (Unit r) block
       (if block then now / 1000000000 else 0) (StartedAt r).

(** [identity]: the outcome of [kworManagedOperationProcessIdentity]. *)
Definition SetProcess (o : io) (identity : res lerr Z) (id : string) (pid pgid : Z) (f : opsFile)
  : res lerr unit * opsFile :=
  if String.eqb (trim_space id) "" then (Ok tt, f)
  else match identity with
       | Err e => (Err e, f)
       | Ok startTime => updateKworManagedOperation o id (setProcess pid pgid startTime) f
       end.
Definition SetSystemdUnit (o : io) (id unitName : string) (f : opsFile) : res lerr unit * opsFile :=
  if String.eqb (trim_space id) "" then (Ok tt, f)
  else updateKworManagedOperation o id (setSystemdUnit unitName) f.
Definition SetBlockNewWork (o : io) (now : Z) (id : string) (block : bool) (f : opsFile)
  : res lerr unit * opsFile :=
  if String.eqb (trim_space id) "" then (Ok tt, f)
  else updateKworManagedOperation o id (setBlockNewWork now block) f.

(** ** The process of an operation *)

Definition kworManagedOperationProcessMatches (h : host) (op : KworManagedOperationRecord) : res lerr bool :=
  if PID op <=? 0 then Ok false
  else if ProcessStartTime op =? 0 then
    if hostPidAlive h (PID op) then Err ErrProcess else Ok false
  else match hostStartTime h (PID op) with
       | Err e => Err e
       | Ok None => Ok false
       | Ok (Some startTime) =>
           if negb (startTime =? ProcessStartTime op) then Ok false
           else match hostEnvHasID h (PID op) (ID op) with
                | Err e => Err e
                | Ok false => Err ErrProcess
                | Ok true => Ok true
                end
       end.

Definition kworManagedOperationAlive (h : host) (op : KworManagedOperationRecord) : res lerr bool :=
  let unitName := trim_space (Unit op) in
  let unitAlive :=
    if negb (String.eqb unitName "") && hostSystemd h then
      if negb (hostSystemctl h) then Err ErrUnit
      else match hostUnitOwned h unitName (ID op) (negb (String.eqb (trim_space (ID op)) "")) with
           | Err e => Err e
           | Ok false => Err ErrUnit
           | Ok true => hostUnitActive h unitName
           end
    else Ok false in
  match unitAlive with
  | Err e => Err e
  | Ok true => Ok true
  | Ok false => kworManagedOperationProcessMatches h op
  end.

Definition managedOperationBlockingGraceActive (op : KworManagedOperationRecord) (now : Z) : bool :=
  if negb (BlockNewWork op) || (BlockingSince op <=? 0) then false
  else now <? BlockingSince op * 1000000000 + kworUninstallStartupGrace.

(** *** Termination

    [terminateKworManagedOperation] looks at the host several times; each
    look is a [host] of its own, and the polls of a wait are a list of them.
    The signals sent are returned, each with the look that preceded it. *)
Inductive signal : Type := SIGTERM | SIGKILL.
Inductive target : Type := Group (pgid : Z) | Process (pid : Z).

Record termEnv : Type := mkTermEnv {
  teUnit : host;            (* before the unit is stopped *)
  teStopped : host;         (* after *)
  teFirst : host;           (* before SIGTERM *)
  tePgrp : Z;               (* unix.Getpgrp() *)
  teTermOk : bool;
  teWait1 : list host;
  teSecond : host;          (* before SIGKILL *)
  teKillOk : bool;
  teWait2 : list host }.

Definition waitKworManagedOperationExit (polls : list host) (op : KworManagedOperationRecord) : bool :=
  existsb (fun h => match kworManagedOperationProcessMatches h op with Ok false => true | _ => false end) polls.

(** SIGTERM, a wait, a second look, SIGKILL, a wait. *)
Definition signalAndWait (e : termEnv) (op : KworManagedOperationRecord) (tg : target)
  : res lerr unit * list (signal * target * host) :=
  if negb (teTermOk e) then (Err ErrSignal, [(SIGTERM, tg, teFirst e)])
  else if waitKworManagedOperationExit (teWait1 e) op then (Ok tt, [(SIGTERM, tg, teFirst e)])
  else match kworManagedOperationProcessMatches (teSecond e) op with
       | Err err => (Err err, [(SIGTERM, tg, teFirst e)])
       | Ok false => (Ok tt, [(SIGTERM, tg, teFirst e)])
       | Ok true =>
           let sent := [(SIGTERM, tg, teFirst e); (SIGKILL, tg, teSecond e)] in
           if negb (teKillOk e) then (Err ErrSignal, sent)
           else if waitKworManagedOperationExit (teWait2 e) op then (Ok tt, sent)
           else (Err ErrStillRunning, sent)
       end.

Definition stopUnit (e : termEnv) (op : KworManagedOperationRecord) : res lerr unit :=
  let unitName := trim_space (Unit op) in
  if negb (String.eqb unitName "") && hostSystemd (teUnit e) then
    if negb (hostSystemctl (teUnit e)) then Err ErrUnit
    else match hostUnitOwned (teUnit e) unitName (ID op) (0 <? ProcessStartTime op) with
         | Err err => Err err
         | Ok false => Err ErrUnit
         | Ok true =>
             match hostUnitActive (teStopped e) unitName with
             | Err err => Err err
             | Ok true => Err ErrStillRunning
             | Ok false => Ok tt
             end
         end
  else Ok tt.

Definition terminateKworManagedOperation (e : termEnv) (op : KworManagedOperationRecord)
  : res lerr unit * list (signal * target * host) :=
  match stopUnit e op with
  | Err err => (Err err, [])
  | Ok _ =>
      match kworManagedOperationProcessMatches (teFirst e) op with
      | Err err => (Err err, [])
      | Ok false => (Ok tt, [])
      | Ok true =>
          if 0 <? PGID op then
            if PGID op =? tePgrp e then (Err ErrSignal, []) else signalAndWait e op (Group (PGID op))
          else if 0 <? PID op then signalAndWait e op (Process (PID op))
          else (Ok tt, [])
      end
  end.

(** The roll-back of a worker that was started but could not be recorded: its
    token is not known yet, only its start time.  The loops that wait do not
    decide anything: the look after each of them does. *)
Definition detachedMatches (h : host) (pid startTime : Z) : bool :=
  match hostStartTime h pid with
  | Ok (Some current) => current =? startTime
  | _ => false
  end.

Definition stopStartedKworDetachedWorker (e : termEnv) (last : host) (pid pgid startTime : Z)
  : res lerr unit * list (signal * target * host) :=
  if negb (detachedMatches (teFirst e) pid startTime) then (Ok tt, [])
  else if (pgid <=? 0) || (pgid =? tePgrp e) then (Err ErrSignal, [])
  else
    let term := [(SIGTERM, Group pgid, teFirst e)] in
    if negb (teTermOk e) then (Err ErrSignal, term)
    else if negb (detachedMatches (teSecond e) pid startTime) then (Ok tt, term)
    else
      let sent := term ++ [(SIGKILL, Group pgid, teSecond e)] in
      if negb (teKillOk e) then (Err ErrSignal, sent)
      else if detachedMatches last pid startTime then (Err ErrStillRunning, sent)
      else (Ok tt, sent).

(** ** Threads *)

(** [KworManagedOperationHandle]: its context is cancelled, [once] has fired,
    [done] is closed, [detachOnce] has fired. *)
Record handle : Type := mkHandle {
  hPersistent : bool;
  hCancelled : bool;
  hOnce : bool;
  hClosed : bool;
  hDetached : bool }.

Definition newHandle (persistent : bool) : handle := mkHandle persistent false false false false.
Definition cancelHandle (h : handle) : handle :=
  mkHandle (hPersistent h) true (hOnce h) (hClosed h) (hDetached h).
Definition onceHandle (h : handle) : handle :=
  mkHandle (hPersistent h) (hCancelled h) true (hClosed h) (hDetached h).
Definition closeHandle (h : handle) : handle :=
  mkHandle (hPersistent h) (hCancelled h) (hOnce h) true (hDetached h).
Definition detachHandle (h : handle) : handle :=
  mkHandle (hPersistent h) (hCancelled h) (hOnce h) (hClosed h) true.

(** A worker's calls that change its record. *)
Inductive recordUpdate : Type :=
| RUProcess (pid pgid : Z)
| RUUnit (unitName : string)
| RUBlock (block : bool).

(** Where a thread is.  The [B] points from [BState] to [BUpsert] hold
    [kworLifecycleTaskMu]. *)
Inductive pc : Type :=
| BEnter (kind id : string) (persistent : bool)
| BState (kind id : string) (persistent : bool)
| BOwner (kind id : string) (persistent : bool)
| BLoad (kind id : string) (persistent : bool)
| BBlocking (kind id : string) (persistent : bool) (todo : list KworManagedOperationRecord)
| BUpsert (kind id : string)
| BReturned (r : res lerr string)
| DEnter (id : string)
| DCancel (id : string)
| DDelete (id : string)
| DRemove (id : string)
| DClose (id : string)
| DReturned
| TEnter (id : string)
| TReturned
| FEnter (id : string)
| FRemove (id : string)
| FReturned (r : res lerr unit)
| UEnter (id : string) (u : recordUpdate)
| UReturned (r : res lerr unit)
| QEnter
| QCancel (todo handles : list string)
| QLoad (handles : list string)
| QTerminate (todo : list KworManagedOperationRecord) (handles : list string)
| QRemove (op : KworManagedOperationRecord) (todo : list KworManagedOperationRecord) (handles : list string)
| QWait (todo handles : list string)
| QReturned (r : res lerr unit) (handles : list string).

(** Why the record of an operation may go although the operation was not
    [Done] in this process. *)
Inductive verdict : Type := Finished | FoundDead | Terminated.

Record sys : Type := mkSys {
  sOps : opsFile;
  sState : stateFile;
  sTasks : gset string;                 (* kworLifecycleTasks *)
  sHandles : gmap string handle;
  sQuiescing : bool;
  sMu : option nat;                     (* kworLifecycleTaskMu and its owner *)
  sThreads : gmap nat pc;
  sLog : list (string * verdict) }.

Definition setPc (t : nat) (p : pc) (s : sys) : sys :=
  mkSys (sOps s) (sState s) (sTasks s) (sHandles s) (sQuiescing s) (sMu s) (<[t:=p]> (sThreads s)) (sLog s).
Definition setMu (m : option nat) (s : sys) : sys :=
  mkSys (sOps s) (sState s) (sTasks s) (sHandles s) (sQuiescing s) m (sThreads s) (sLog s).
Definition setOps (f : opsFile) (s : sys) : sys :=
  mkSys f (sState s) (sTasks s) (sHandles s) (sQuiescing s) (sMu s) (sThreads s) (sLog s).
Definition setTasks (x : gset string) (s : sys) : sys :=
  mkSys (sOps s) (sState s) x (sHandles s) (sQuiescing s) (sMu s) (sThreads s) (sLog s).
Definition setHandles (x : gmap string handle) (s : sys) : sys :=
  mkSys (sOps s) (sState s) (sTasks s) x (sQuiescing s) (sMu s) (sThreads s) (sLog s).
Definition setQuiescing (s : sys) : sys :=
  mkSys (sOps s) (sState s) (sTasks s) (sHandles s) true (sMu s) (sThreads s) (sLog s).
Definition logVerdict (id : string) (v : verdict) (s : sys) : sys :=
  mkSys (sOps s) (sState s) (sTasks s) (sHandles s) (sQuiescing s) (sMu s) (sThreads s) (sLog s ++ [(id, v)]).

Definition onHandle (id : string) (g : handle -> handle) (s : sys) : sys :=
  setHandles (alter g id (sHandles s)) s.

(** What a step finds around it. *)
Record senv : Type := mkEnv {
  eIo : io;
  eNow : Z;
  eHost : host;
  eOwned : res lerr bool;      (* IsKworUninstalling *)
  eIdentity : res lerr Z;      (* kworManagedOperationProcessIdentity *)
  eTerm : termEnv;
  eTimeout : bool }.           (* the select takes the deadline of the quiesce *)

(** *** [beginKworManagedOperation] *)

Definition operationID (kind idPart : string) : string := trim_space kind +:+ "-" +:+ idPart.

(** Its entry: [idPart] is the outcome of [newHostOwnershipID]. *)
Definition beginKworManagedOperation (kind : string) (idPart : option string) (persistent : bool) : pc :=
  let kind := trim_space kind in
  if String.eqb kind "" then BReturned (Err ErrEmptyKind)
  else match idPart with
       | None => BReturned (Err ErrRandom)
       | Some part => BEnter kind (operationID kind part) persistent
       end.

(** The exit with an error: the mutex is released. *)
Definition beginFails (t : nat) (e : lerr) (s : sys) : sys := setPc t (BReturned (Err e)) (setMu None s).

(** The check of one recorded operation in [ensureNoBlockingKworManagedOperations]. *)
Definition checkBlocking (e : senv) (op : KworManagedOperationRecord) : res lerr bool :=
  if negb (BlockNewWork op) then Ok false
  else if managedOperationBlockingGraceActive op (eNow e) then Err ErrHandover
  else match kworManagedOperationAlive (eHost e) op with
       | Err err => Err err
       | Ok true => Err ErrBlockingAlive
       | Ok false => Ok true                (* stale: remove the record *)
       end.

Definition register (t : nat) (kind id : string) (persistent : bool) (s : sys) : sys :=
  let s := setTasks ({[id]} ∪ sTasks s) (setHandles (<[id:=newHandle persistent]> (sHandles s)) s) in
  if persistent then setPc t (BUpsert kind id) s
  else setPc t (BReturned (Ok id)) (setMu None s).

(** [ensureKworLifecycleAcceptsNewWorkLocked], after its first test. *)
Definition stepAccept (e : senv) (t : nat) (p : pc) (s : sys) : sys :=
  match p with
  | BState kind id persistent =>
      match LoadKworUninstallLifecycleState (eIo e) (sState s) with
      | Err err => beginFails t err s
      | Ok (Some st) => if lifecycleStateBlocksNewWork st then beginFails t ErrUninstalling s
                        else setPc t (BOwner kind id persistent) s
      | Ok None => setPc t (BOwner kind id persistent) s
      end
  | BOwner kind id persistent =>
      match eOwned e with
      | Err err => beginFails t err s
      | Ok true => beginFails t ErrUninstalling s
      | Ok false => setPc t (BLoad kind id persistent) s
      end
  | _ => s
  end.

(** [ensureNoBlockingKworManagedOperations]; with no record left to check the
    operation is registered. *)
Definition stepNoBlocking (e : senv) (t : nat) (p : pc) (s : sys) : sys :=
  match p with
  | BLoad kind id persistent =>
      match loadKworManagedOperations (eIo e) (sOps s) with
      | Err err => beginFails t err s
      | Ok l => setPc t (BBlocking kind id persistent l) s
      end
  | BBlocking kind id persistent [] => register t kind id persistent s
  | BBlocking kind id persistent (op :: todo) =>
      match checkBlocking e op with
      | Err err => beginFails t err s
      | Ok false => setPc t (BBlocking kind id persistent todo) s
      | Ok true =>
          let s := logVerdict (ID op) FoundDead s in
          match removeKworManagedOperation (eIo e) (ID op) (sOps s) with
          | (Err err, f) => beginFails t err (setOps f s)
          | (Ok _, f) => setPc t (BBlocking kind id persistent todo) (setOps f s)
          end
      end
  | _ => s
  end.

Definition stepBegin (e : senv) (t : nat) (p : pc) (s : sys) : sys :=
  match p with
  | BEnter kind id persistent =>
      match sMu s with
      | Some _ => s                                          (* blocked on the mutex *)
      | None => if sQuiescing s then setPc t (BReturned (Err ErrQuiescing)) s
                else setPc t (BState kind id persistent) (setMu (Some t) s)
      end
  | BState _ _ _ | BOwner _ _ _ => stepAccept e t p s
  | BLoad _ _ _ | BBlocking _ _ _ _ => stepNoBlocking e t p s
  | BUpsert kind id =>
      match upsertKworManagedOperation (eIo e)
              (mkOp id kind 0 0 0 "" false 0 (eNow e / 1000000000)) (sOps s) with
      | (Err err, f) =>
          beginFails t err (onHandle id cancelHandle (setTasks (sTasks s ∖ {[id]}) (setOps f s)))
      | (Ok _, f) => setPc t (BReturned (Ok id)) (setMu None (setOps f s))
      end
  | _ => s
  end.

(** *** [Done], [Detach] and [FinishKworManagedOperation] *)

Definition stepDone (e : senv) (t : nat) (p : pc) (s : sys) : sys :=
  match p with
  | DEnter id =>
      match sHandles s !! id with
      | None => setPc t DReturned s
      | Some h => if hOnce h then setPc t DReturned s
                  else setPc t (DCancel id) (onHandle id onceHandle s)
      end
  | DCancel id => setPc t (DDelete id) (onHandle id cancelHandle s)
  | DDelete id =>
      match sMu s with
      | Some _ => s
      | None => setPc t (DRemove id) (setTasks (sTasks s ∖ {[id]}) s)
      end
  | DRemove id =>
      match sHandles s !! id with
      | Some h => if hPersistent h
                  then setPc t (DClose id) (setOps (removeKworManagedOperation (eIo e) id (sOps s)).2 s)
                  else setPc t (DClose id) s
      | None => setPc t (DClose id) s
      end
  | DClose id => setPc t DReturned (onHandle id closeHandle s)
  | _ => s
  end.

Definition stepDetach (t : nat) (p : pc) (s : sys) : sys :=
  match p with
  | TEnter id =>
      match sHandles s !! id with
      | None => setPc t TReturned s
      | Some h =>
          if hDetached h then setPc t TReturned s
          else match sMu s with
               | Some _ => s
               | None => setPc t TReturned (onHandle id detachHandle (setTasks (sTasks s ∖ {[id]}) s))
               end
      end
  | _ => s
  end.

(** The thread of a call that finds the handle continues as its [Done]. *)
Definition stepFinish (e : senv) (t : nat) (p : pc) (s : sys) : sys :=
  match p with
  | FEnter id =>
      if String.eqb (trim_space id) "" then setPc t (FReturned (Ok tt)) s
      else match sMu s with
           | Some _ => s
           | None => if bool_decide (trim_space id ∈ sTasks s) then setPc t (DEnter (trim_space id)) s
                     else setPc t (FRemove (trim_space id)) (logVerdict (trim_space id) Finished s)
           end
  | FRemove id =>
      let '(r, f) := removeKworManagedOperation (eIo e) id (sOps s) in
      setPc t (FReturned r) (setOps f s)
  | _ => s
  end.

Definition stepUpdate (e : senv) (t : nat) (p : pc) (s : sys) : sys :=
  match p with
  | UEnter id u =>
      let '(r, f) := match u with
                     | RUProcess pid pgid => SetProcess (eIo e) (eIdentity e) id pid pgid (sOps s)
                     | RUUnit unitName => SetSystemdUnit (eIo e) id unitName (sOps s)
                     | RUBlock block => SetBlockNewWork (eIo e) (eNow e) id block (sOps s)
                     end in
      setPc t (UReturned r) (setOps f s)
  | _ => s
  end.

(** *** [QuiesceKworManagedOperations] *)

Definition stepQuiesce (e : senv) (t : nat) (p : pc) (s : sys) : sys :=
  match p with
  | QEnter =>
      match sMu s with
      | Some _ => s
      | None => setPc t (QCancel (elements (sTasks s)) (elements (sTasks s))) (setQuiescing s)
      end
  | QCancel [] hs => setPc t (QLoad hs) s
  | QCancel (id :: todo) hs => setPc t (QCancel todo hs) (onHandle id cancelHandle s)
  | QLoad hs =>
      match loadKworManagedOperations (eIo e) (sOps s) with
      | Err err => setPc t (QReturned (Err err) hs) s
      | Ok l => setPc t (QTerminate l hs) s
      end
  | QTerminate [] hs => setPc t (QWait hs hs) s
  | QTerminate (op :: todo) hs =>
      match (terminateKworManagedOperation (eTerm e) op).1 with
      | Err err => setPc t (QReturned (Err err) hs) s
      | Ok _ => if bool_decide (ID op ∈ hs) then setPc t (QTerminate todo hs) s
                else setPc t (QRemove op todo hs) (logVerdict (ID op) Terminated s)
      end
  | QRemove op todo hs =>
      match removeKworManagedOperation (eIo e) (ID op) (sOps s) with
      | (Err err, f) => setPc t (QReturned (Err err) hs) (setOps f s)
      | (Ok _, f) => setPc t (QTerminate todo hs) (setOps f s)
      end
  | QWait [] hs => setPc t (QReturned (Ok tt) hs) s
  | QWait (id :: todo) hs =>
      match sHandles s !! id with
      | Some h => if eTimeout e then setPc t (QReturned (Err ErrStillRunning) hs) s
                  else if hClosed h then setPc t (QWait todo hs) s
                  else s                                       (* waiting *)
      | None => setPc t (QWait todo hs) s
      end
  | _ => s
  end.

(** One step of a thread. *)
Definition stepThread (e : senv) (t : nat) (s : sys) : sys :=
  match sThreads s !! t with
  | None => s
  | Some p =>
      match p with
      | BEnter _ _ _ | BState _ _ _ | BOwner _ _ _ | BLoad _ _ _ | BBlocking _ _ _ _ | BUpsert _ _ => stepBegin e t p s
      | DEnter _ | DCancel _ | DDelete _ | DRemove _ | DClose _ => stepDone e t p s
      | TEnter _ => stepDetach t p s
      | FEnter _ | FRemove _ => stepFinish e t p s
      | UEnter _ _ => stepUpdate e t p s
      | QEnter | QCancel _ _ | QLoad _ | QTerminate _ _ | QRemove _ _ _ | QWait _ _ => stepQuiesce e t p s
      | _ => s
      end
  end.

(** ** Runs

    A call starts a thread; the state file is changed by the uninstall, the
    record file also by worker processes that finish on their own. *)
Definition hexText (part : string) : Prop := part <> "" /\ allc plain part = true.

Definition ownId (p : pc) : option string :=
  match p with
  | BEnter _ id _ | BState _ id _ | BOwner _ id _ | BLoad _ id _ | BBlocking _ id _ _ | BUpsert _ id
  | BReturned (Ok id) => Some id
  | _ => None
  end.

(** The random identifier is one that was not drawn before. *)
Definition unused (id : string) (s : sys) : Prop :=
  sHandles s !! id = None /\ forall t p, sThreads s !! t = Some p -> ownId p <> Some id.

(** The calls a process makes, as the threads they start. *)
Inductive called (s : sys) : pc -> Prop :=
| called_begin kind idPart persistent :
    (forall part, idPart = Some part -> hexText part /\ unused (operationID (trim_space kind) part) s) ->
    called s (beginKworManagedOperation kind idPart persistent)
| called_done id : called s (DEnter id)
| called_detach id : called s (TEnter id)
| called_finish id : called s (FEnter id)
| called_update id u : called s (UEnter id u)
| called_quiesce : called s QEnter.

Definition initialSys (f : opsFile) (st : stateFile) : sys := mkSys f st ∅ ∅ false None ∅ [].

Inductive reachable : sys -> Prop :=
| reach_init f st : reachable (initialSys f st)
| reach_call s t p : reachable s -> sThreads s !! t = None -> called s p -> reachable (setPc t p s)
| reach_step s e t : reachable s -> reachable (stepThread e t s)
| reach_state s st :
    reachable s ->
    reachable (mkSys (sOps s) st (sTasks s) (sHandles s) (sQuiescing s) (sMu s) (sThreads s) (sLog s))
| reach_worker s o id :
    reachable s ->
    reachable (logVerdict (trim_space id) Finished (setOps (removeKworManagedOperation o id (sOps s)).2 s)).
