(* ===== verification/LifecycleCorrect.v ===== *)
(** * What quiescing guarantees

    The threads of [Lifecycle] are verified by rely and guarantee: each
    program point has an assertion about the shared state ([tinv]); a step
    establishes the assertion of its own next point and changes the shared
    state in a way ([evolves]) that keeps the assertions of all others. *)

From S2P Require Import Prelude GoStrings Uninstall Lifecycle.
From stdpp Require Import base gmap sets list strings sorting.
From Stdlib Require Import ZArith Lia.

#[local] Open Scope Z_scope.

(** ** Assertions *)

(** The operation is in the map, or its worker has called [Done] or detached
    it. *)
Definition registered (s : sys) (id : string) : Prop :=
  exists h, sHandles s !! id = Some h /\ (id ∈ sTasks s \/ hOnce h = true \/ hDetached h = true).

Definition flagged (g : handle -> bool) (s : sys) (id : string) : Prop :=
  exists h, sHandles s !! id = Some h /\ g h = true.

(** A quiesce has seen the handles [hs]. *)
Definition snap (s : sys) (hs : list string) : Prop :=
  sQuiescing s = true /\ (forall id, id ∈ sTasks s -> id ∈ hs) /\
  (forall id, id ∈ hs -> is_Some (sHandles s !! id)).

Definition begun (s : sys) (t : nat) (id : string) : Prop :=
  sHandles s !! id = None /\ sMu s = Some t /\ sQuiescing s = false.

Definition tinv (s : sys) (t : nat) (p : pc) : Prop :=
  match p with
  | BEnter _ id _ => sHandles s !! id = None
  | BState _ id _ | BOwner _ id _ | BLoad _ id _ | BBlocking _ id _ _ => begun s t id
  | BUpsert _ id => sMu s = Some t /\ sQuiescing s = false /\ registered s id
  | BReturned (Ok id) => registered s id
  | DCancel id | DDelete id => flagged hOnce s id
  | DRemove id | DClose id => flagged hOnce s id /\ id ∉ sTasks s
  | QCancel todo hs => snap s hs /\ forall id, id ∈ hs -> id ∈ todo \/ flagged hCancelled s id
  | QLoad hs | QTerminate _ hs | QRemove _ _ hs => snap s hs /\ forall id, id ∈ hs -> flagged hCancelled s id
  | QWait todo hs => snap s hs /\ (forall id, id ∈ hs -> flagged hCancelled s id) /\
                     forall id, id ∈ hs -> id ∈ todo \/ flagged hClosed s id
  | QReturned (Ok _) hs => snap s hs /\ (forall id, id ∈ hs -> flagged hCancelled s id) /\
                           forall id, id ∈ hs -> flagged hClosed s id
  | _ => True
  end.

Record inv (s : sys) : Prop := {
  inv_threads : forall t p, sThreads s !! t = Some p -> tinv s t p;
  inv_own : forall t1 t2 p1 p2 id,
    sThreads s !! t1 = Some p1 -> sThreads s !! t2 = Some p2 ->
    ownId p1 = Some id -> ownId p2 = Some id -> t1 = t2;
  inv_tasks : forall id, id ∈ sTasks s -> exists h, sHandles s !! id = Some h /\ hClosed h = false }.

(** ** What a step does to the others *)

Definition implb_le (a b : bool) : Prop := a = true -> b = true.
Definition hle (h h' : handle) : Prop :=
  hPersistent h' = hPersistent h /\ implb_le (hCancelled h) (hCancelled h') /\
  implb_le (hOnce h) (hOnce h') /\ implb_le (hClosed h) (hClosed h') /\ implb_le (hDetached h) (hDetached h').

Lemma hle_refl h : hle h h.
Proof. by unfold hle, implb_le. Qed.

Record evolves (t : nat) (p : pc) (s s' : sys) : Prop := {
  ev_mu : forall t', t' <> t -> sMu s = Some t' -> sMu s' = Some t' /\ sQuiescing s' = sQuiescing s;
  ev_q : sQuiescing s = true -> sQuiescing s' = true;
  ev_handles : forall id h, sHandles s !! id = Some h -> exists h', sHandles s' !! id = Some h' /\ hle h h';
  ev_new : forall id, sHandles s !! id = None -> is_Some (sHandles s' !! id) -> ownId p = Some id;
  ev_tasks : forall id, id ∈ sTasks s' ->
    id ∈ sTasks s \/ (sHandles s !! id = None /\ sQuiescing s = false);
  ev_drop : forall id, id ∈ sTasks s ->
    id ∈ sTasks s' \/ ownId p = Some id \/
    exists h', sHandles s' !! id = Some h' /\ (hOnce h' = true \/ hDetached h' = true);
  ev_threads : forall t', t' <> t -> sThreads s' !! t' = sThreads s !! t' }.

Section Stable.
Context (t : nat) (p : pc) (s s' : sys) (Hev : evolves t p s s').

Lemma flagged_stable (g : handle -> bool) id :
  (forall h h', hle h h' -> g h = true -> g h' = true) -> flagged g s id -> flagged g s' id.
Proof.
  intros Hg (h & Hh & Hf). destruct (ev_handles _ _ _ _ Hev _ _ Hh) as (h' & Hh' & Hle).
  exists h'. eauto.
Qed.

Lemma snap_stable hs : snap s hs -> snap s' hs.
Proof.
  intros (Hq & Ht & Hd). split; [by apply (ev_q _ _ _ _ Hev)|]. split.
  - intros id Hid. destruct (ev_tasks _ _ _ _ Hev id Hid) as [?|[_ ?]]; [by apply Ht|congruence].
  - intros id Hid. destruct (Hd id Hid) as [h Hh].
    destruct (ev_handles _ _ _ _ Hev _ _ Hh) as (h' & -> & _). by eexists.
Qed.

Lemma registered_stable id : ownId p <> Some id -> registered s id -> registered s' id.
Proof.
  intros Hp (h & Hh & Hin). destruct (ev_handles _ _ _ _ Hev _ _ Hh) as (h' & Hh' & Hle).
  exists h'. split; [done|]. destruct Hle as (_ & _ & Ho & _ & Hd).
  destruct Hin as [Hin|[?|?]]; [|by right; left; apply Ho|by right; right; apply Hd].
  destruct (ev_drop _ _ _ _ Hev id Hin) as [?|[?|(h2 & Hh2 & ?)]]; [by left|done|].
  right. congruence.
Qed.

Lemma absent_stable id : flagged hOnce s id -> id ∉ sTasks s -> id ∉ sTasks s'.
Proof.
  intros (h & Hh & _) Hid Hid'. destruct (ev_tasks _ _ _ _ Hev id Hid') as [?|[? _]]; congruence.
Qed.

Lemma fresh_stable id : ownId p <> Some id -> sHandles s !! id = None -> sHandles s' !! id = None.
Proof.
  intros Hp Hid. destruct (sHandles s' !! id) eqn:E; [|done].
  exfalso. apply Hp. apply (ev_new _ _ _ _ Hev id Hid). by rewrite E.
Qed.
End Stable.

#[export] Hint Resolve hle_refl : lifecycle.

Lemma tinv_stable t p s s' t' p' :
  evolves t p s s' -> t' <> t -> (forall id, ownId p' = Some id -> ownId p <> Some id) ->
  tinv s t' p' -> tinv s' t' p'.
Proof.
  intros Hev Ht Hown.
  assert (forall id, ownId p' = Some id -> begun s t' id -> begun s' t' id) as Hbegun.
  { intros id Hid (Hf & Hmu & Hq). destruct (ev_mu _ _ _ _ Hev t' Ht Hmu) as [? Hq'].
    split; [eapply fresh_stable; eauto|]. by rewrite Hq'. }
  assert (forall id, flagged hOnce s id -> flagged hOnce s' id) as Hon.
  { intros id. eapply flagged_stable; [done|]. by intros h h' (_ & _ & ? & _). }
  assert (forall id, flagged hCancelled s id -> flagged hCancelled s' id) as Hca.
  { intros id. eapply flagged_stable; [done|]. by intros h h' (_ & ? & _). }
  assert (forall id, flagged hClosed s id -> flagged hClosed s' id) as Hcl.
  { intros id. eapply flagged_stable; [done|]. by intros h h' (_ & _ & _ & ? & _). }
  pose proof (snap_stable _ _ _ _ Hev) as Hsn.
  assert (forall id, flagged hOnce s id /\ id ∉ sTasks s -> flagged hOnce s' id /\ id ∉ sTasks s') as Habs.
  { intros id [? ?]. split; [by apply Hon|]. eapply absent_stable; eauto. }
  destruct p' as [| | | | | |[]| | | | | | | | | | | | | | | | | | | |[]]; simpl;
    try exact (fun H => H); try solve [apply Hbegun; done]; try apply Hon; try apply Habs.
  - apply (fresh_stable _ _ _ _ Hev). by apply Hown.
  - intros (Hmu & Hq & Hr). destruct (ev_mu _ _ _ _ Hev t' Ht Hmu) as [? ->].
    split_and!; [done..|]. eapply registered_stable; eauto.
  - eapply registered_stable; eauto.
  - intros [? Hc]. split; [by apply Hsn|]. intros id Hid. destruct (Hc id Hid); auto.
  - intros [? ?]. auto.
  - intros [? ?]. auto.
  - intros [? ?]. auto.
  - intros (? & ? & Hc). split_and!; [by apply Hsn|by auto|]. intros id Hid. destruct (Hc id Hid); auto.
  - intros (? & ? & ?). auto.
Qed.

(** ** Steps that only move the thread or change the files *)

(** [s'] differs from [s] in the files, the log and the thread [t] only. *)
Record quiet (t : nat) (s s' : sys) : Prop := {
  qt_tasks : sTasks s' = sTasks s;
  qt_handles : sHandles s' = sHandles s;
  qt_q : sQuiescing s' = sQuiescing s;
  qt_mu : sMu s' = sMu s \/ sMu s' = None /\ sMu s = Some t \/ sMu s' = Some t /\ sMu s = None;
  qt_threads : forall t', t' <> t -> sThreads s' !! t' = sThreads s !! t' }.

Lemma quiet_evolves t p s s' : quiet t s s' -> evolves t p s s'.
Proof.
  intros [Ht Hh Hq Hm Hth]. split.
  - intros t' Ht' Hmu. split; [|done]. destruct Hm as [->|[[_ ?]|[_ ?]]]; congruence.
  - by rewrite Hq.
  - intros id h Hid. exists h. rewrite Hh. auto with lifecycle.
  - intros id Hid [h Hs]. rewrite Hh in Hs. congruence.
  - intros id. rewrite Ht. auto.
  - intros id. rewrite Ht. auto.
  - done.
Qed.

Lemma quiet_tinv_same t s s' id :
  quiet t s s' -> (registered s id -> registered s' id) /\ (forall g, flagged g s id -> flagged g s' id).
Proof.
  intros [Ht Hh _ _ _]. unfold registered, flagged. rewrite Ht, Hh. auto.
Qed.

(** A change of one existing handle; tasks may leave the map. *)
Lemma change_evolves t p g id (D : gset string) s s' :
  (forall h, hle h (g h)) ->
  sHandles s' = alter g id (sHandles s) -> sTasks s' = sTasks s ∖ D ->
  (forall x, x ∈ D -> ownId p = Some x \/ flagged hOnce s' x \/ flagged hDetached s' x) ->
  sQuiescing s' = sQuiescing s ->
  (sMu s' = sMu s \/ sMu s' = None /\ sMu s = Some t) ->
  (forall t', t' <> t -> sThreads s' !! t' = sThreads s !! t') ->
  evolves t p s s'.
Proof.
  intros Hg Hh Ht HD Hq Hm Hth. split.
  - intros t' Ht' Hs. split; [|done]. destruct Hm as [->|[_ ?]]; congruence.
  - by rewrite Hq.
  - intros id0 h Hid. rewrite Hh. destruct (decide (id = id0)) as [->|Hne].
    + exists (g h). rewrite lookup_alter_eq, Hid. auto.
    + exists h. rewrite lookup_alter_ne by done. auto with lifecycle.
  - intros id0 Hid [h Hs]. rewrite Hh in Hs. destruct (decide (id = id0)) as [->|Hne].
    + by rewrite lookup_alter_eq, Hid in Hs.
    + rewrite lookup_alter_ne in Hs by done. congruence.
  - intros id0. rewrite Ht. set_solver.
  - intros id0 Hid. rewrite Ht. destruct (decide (id0 ∈ D)) as [Hin|]; [|left; set_solver].
    destruct (HD id0 Hin) as [?|[(h & ? & ?)|(h & ? & ?)]]; [by right; left|right; right; exists h; auto..].
  - done.
Qed.

(** ** Every step keeps the invariant *)

Definition tasksOpen (s : sys) : Prop :=
  forall id, id ∈ sTasks s -> exists h, sHandles s !! id = Some h /\ hClosed h = false.

Definition good (t : nat) (p : pc) (s s' : sys) : Prop :=
  evolves t p s s' /\ tasksOpen s' /\
  exists p', sThreads s' !! t = Some p' /\ tinv s' t p' /\ (forall id, ownId p' = Some id -> ownId p = Some id).

Lemma good_inv t p s s' : inv s -> sThreads s !! t = Some p -> good t p s s' -> inv s'.
Proof.
  intros [Hth Hown Htk] Hp (Hev & Hopen & p' & Hp' & Hi & Hid). split; [| |done].
  - intros t' q Hq. destruct (decide (t' = t)) as [->|Hne]; [congruence|].
    rewrite (ev_threads _ _ _ _ Hev t' Hne) in Hq.
    apply (tinv_stable t p s); [done..| |by apply Hth].
    intros id Hq' Hpp. apply Hne. by eapply Hown.
  - assert (forall t' q id, sThreads s' !! t' = Some q -> ownId q = Some id ->
              exists q0, sThreads s !! t' = Some q0 /\ ownId q0 = Some id) as Hback.
    { intros t' q id Hq Hqi. destruct (decide (t' = t)) as [->|Hne].
      - exists p. simplify_eq. auto.
      - exists q. rewrite <- (ev_threads _ _ _ _ Hev t' Hne). auto. }
    intros t1 t2 p1 p2 id H1 H2 Ho1 Ho2.
    destruct (Hback _ _ _ H1 Ho1) as (q1 & ? & ?). destruct (Hback _ _ _ H2 Ho2) as (q2 & ? & ?). eauto.
Qed.

Lemma good_quiet t p p' s s' :
  tasksOpen s -> quiet t s s' -> sThreads s' !! t = Some p' -> tinv s' t p' ->
  (forall id, ownId p' = Some id -> ownId p = Some id) -> good t p s s'.
Proof.
  intros Ho Hq Hp' Hi Hid. split; [by apply quiet_evolves|]. split; [|by exists p'].
  intros id. rewrite (qt_tasks _ _ _ Hq), (qt_handles _ _ _ Hq). apply Ho.
Qed.

(** A step that moves the thread and changes at most files, log and mutex. *)
Ltac quiet_step :=
  eapply good_quiet;
  [ assumption
  | split; simpl; try (intros; rewrite lookup_insert_ne by done); auto
  | simpl; apply lookup_insert_eq
  | simpl
  | simpl; done ].

Lemma register_good t kind id persistent s :
  tasksOpen s -> begun s t id ->
  good t (BBlocking kind id persistent []) s (register t kind id persistent s).
Proof.
  intros Ho (Hf & Hm & Hq).
  set (s' := register t kind id persistent s).
  assert (sHandles s' = <[id:=newHandle persistent]> (sHandles s) /\ sTasks s' = {[id]} ∪ sTasks s /\
          sQuiescing s' = sQuiescing s) as (Hh' & Ht' & Hq') by (unfold s', register; by destruct persistent).
  assert (registered s' id) as Hreg.
  { exists (newHandle persistent). rewrite Hh', Ht', lookup_insert_eq. set_solver. }
  split; [split|split].
  - intros t' Hne. congruence.
  - by rewrite Hq'.
  - intros id0 h Hid. exists h. rewrite Hh', lookup_insert_ne by congruence. auto with lifecycle.
  - intros id0 Hn [h Hs]. rewrite Hh' in Hs. destruct (decide (id = id0)) as [->|?]; [done|].
    rewrite lookup_insert_ne in Hs by done. congruence.
  - intros id0. rewrite Ht'. intros [->%elem_of_singleton|?]%elem_of_union; auto.
  - intros id0 ?. left. rewrite Ht'. set_solver.
  - intros t' Hne. unfold s', register. destruct persistent; simpl; by rewrite lookup_insert_ne.
  - intros id0. rewrite Ht', Hh'. intros Hin. destruct (decide (id = id0)) as [->|Hne].
    + eexists. by rewrite lookup_insert_eq.
    + rewrite lookup_insert_ne by done. apply Ho. set_solver.
  - exists (if persistent then BUpsert kind id else BReturned (Ok id)). unfold s' in *; unfold register in *.
    destruct persistent; simpl in *; rewrite lookup_insert_eq; naive_solver.
Qed.

Lemma alter_same {A} (g : A -> A) i (m : gmap string A) : (forall x, g x = x) -> alter g i m = m.
Proof.
  intros Hg. apply map_eq. intros j. destruct (decide (i = j)) as [->|?].
  - rewrite lookup_alter_eq. destruct (m !! j); simpl; by rewrite ?Hg.
  - by rewrite lookup_alter_ne.
Qed.

Lemma tasksOpen_change g id (D : gset string) s s' :
  sHandles s' = alter g id (sHandles s) -> sTasks s' = sTasks s ∖ D ->
  (forall h, hClosed (g h) = hClosed h) \/ id ∉ sTasks s' ->
  tasksOpen s -> tasksOpen s'.
Proof.
  intros Hh Ht Hc Ho id0 Hin. destruct (Ho id0) as (h & Hid & Hcl); [set_solver|]. rewrite Hh.
  destruct (decide (id = id0)) as [->|Hne].
  - destruct Hc as [Hc|]; [|done]. exists (g h). rewrite lookup_alter_eq, Hid. by rewrite Hc.
  - exists h. by rewrite lookup_alter_ne.
Qed.

Lemma good_change t p p' g id (D : gset string) s s' :
  tasksOpen s ->
  (forall h, hle h (g h)) ->
  sHandles s' = alter g id (sHandles s) -> sTasks s' = sTasks s ∖ D ->
  sQuiescing s' = sQuiescing s ->
  (sMu s' = sMu s \/ sMu s' = None /\ sMu s = Some t) ->
  (forall t', t' <> t -> sThreads s' !! t' = sThreads s !! t') ->
  (forall h, hClosed (g h) = hClosed h) \/ id ∉ sTasks s' ->
  sThreads s' !! t = Some p' ->
  (forall i, ownId p' = Some i -> ownId p = Some i) ->
  (forall x, x ∈ D -> ownId p = Some x \/ flagged hOnce s' x \/ flagged hDetached s' x) ->
  tinv s' t p' -> good t p s s'.
Proof.
  intros. split; [by eapply change_evolves|]. split; [by eapply tasksOpen_change|]. by exists p'.
Qed.

(** A step that moves the thread and changes the handle [id]. *)
Ltac change_step g id D :=
  eapply (good_change _ _ _ g id D);
  [ assumption
  | by intros ?; unfold hle, implb_le
  | simpl; first [reflexivity | symmetry; by apply alter_same]
  | simpl; first [reflexivity | set_solver]
  | reflexivity
  | simpl; auto
  | simpl; intros; by rewrite lookup_insert_ne
  | simpl; first [by left | right; set_solver]
  | simpl; apply lookup_insert_eq
  | simpl; done
  | simpl
  | simpl ].

Lemma stepBegin_good e t p s :
  tasksOpen s -> sThreads s !! t = Some p -> tinv s t p ->
  match p with
  | BEnter _ _ _ | BState _ _ _ | BOwner _ _ _ | BLoad _ _ _ | BBlocking _ _ _ _ | BUpsert _ _ => True
  | _ => False
  end ->
  s = stepBegin e t p s \/ good t p s (stepBegin e t p s).
Proof.
  intros Ho Hp Hi. destruct p; try done; intros _; simpl in Hi.
  1: { cbn [stepBegin stepAccept stepNoBlocking]. destruct (sMu s) eqn:Em; [by left|right].
       destruct (sQuiescing s) eqn:Eq; quiet_step; done. }
  1-3: right; cbn [stepBegin stepAccept stepNoBlocking]; unfold begun in *; destruct Hi as (? & ? & ?);
       repeat case_match; subst; quiet_step; done.
  - right. destruct todo as [|op todo]; cbn [stepBegin stepAccept stepNoBlocking]; [by apply register_good|].
    unfold begun in *. destruct Hi as (? & ? & ?). repeat case_match; subst; quiet_step; done.
  - right. cbn [stepBegin stepAccept stepNoBlocking]. destruct Hi as (Hm & Hq & Hr).
    destruct (upsertKworManagedOperation _ _ _) as [[u|err] f]; [quiet_step; done|].
    change_step cancelHandle id ({[id]} : gset string); [set_solver|done].
Qed.

Lemma stepDone_good e t p s :
  tasksOpen s -> sThreads s !! t = Some p -> tinv s t p ->
  match p with DEnter _ | DCancel _ | DDelete _ | DRemove _ | DClose _ => True | _ => False end ->
  s = stepDone e t p s \/ good t p s (stepDone e t p s).
Proof.
  intros Ho Hp Hi. destruct p; try done; intros _; simpl in Hi; cbn [stepDone].
  - right. destruct (sHandles s !! id) as [h|] eqn:E; [|quiet_step; done].
    destruct (hOnce h); [quiet_step; done|].
    change_step onceHandle id (∅ : gset string); [set_solver|].
    exists (onceHandle h). simpl. by rewrite lookup_alter_eq, E.
  - right. change_step cancelHandle id (∅ : gset string); [set_solver|].
    destruct Hi as (h & Hh & Hon). exists (cancelHandle h). simpl. by rewrite lookup_alter_eq, Hh.
  - destruct (sMu s) eqn:Em; [by left|right].
    change_step (fun h : handle => h) id ({[id]} : gset string).
    + intros x ->%elem_of_singleton. right. by left.
    + split; [done|]. set_solver.
  - right. case_match; [case_match|]; quiet_step; done.
  - right. destruct Hi as [Hon Hid]. change_step closeHandle id (∅ : gset string); [set_solver|done].
Qed.

Lemma stepDetach_good t id s :
  tasksOpen s -> s = stepDetach t (TEnter id) s \/ good t (TEnter id) s (stepDetach t (TEnter id) s).
Proof.
  intros Ho. cbn [stepDetach]. destruct (sHandles s !! id) as [h|] eqn:E; [|right; quiet_step; done].
  destruct (hDetached h); [right; quiet_step; done|].
  destruct (sMu s) eqn:Em; [by left|right].
  change_step detachHandle id ({[id]} : gset string); [|done].
  intros x ->%elem_of_singleton. right. right. exists (detachHandle h). simpl. by rewrite lookup_alter_eq, E.
Qed.

Lemma stepFinish_good e t p s :
  tasksOpen s -> match p with FEnter _ | FRemove _ => True | _ => False end ->
  s = stepFinish e t p s \/ good t p s (stepFinish e t p s).
Proof.
  intros Ho Hp. destruct p; try done; cbn [stepFinish].
  - case_match; [right; quiet_step; done|]. destruct (sMu s) eqn:Em; [by left|right].
    case_match; quiet_step; done.
  - right. case_match. quiet_step. done.
Qed.

Lemma stepUpdate_good e t id u s : tasksOpen s -> good t (UEnter id u) s (stepUpdate e t (UEnter id u) s).
Proof. intros Ho. cbn [stepUpdate]. case_match. quiet_step. done. Qed.

Lemma stepQuiesce_good e t p s :
  tasksOpen s -> tinv s t p ->
  match p with
  | QEnter | QCancel _ _ | QLoad _ | QTerminate _ _ | QRemove _ _ _ | QWait _ _ => True
  | _ => False
  end ->
  s = stepQuiesce e t p s \/ good t p s (stepQuiesce e t p s).
Proof.
  intros Ho Hi. destruct p; try done; intros _; simpl in Hi.
  - cbn [stepQuiesce]. destruct (sMu s) eqn:Em; [by left|right].
    split; [split|split]; simpl; auto.
    + intros t' _. congruence.
    + intros id h ?. exists h. auto with lifecycle.
    + intros id Hn [h Hs]. congruence.
    + intros t' Hne. by rewrite lookup_insert_ne.
    + eexists. rewrite lookup_insert_eq. split; [done|]. split; [|done]. simpl. split; [split_and!|].
      * done.
      * intros id. by rewrite elem_of_elements.
      * intros id. rewrite elem_of_elements. intros Hin. destruct (Ho id Hin) as (h & ? & _). by eexists.
      * auto.
  - destruct Hi as [Hs Hc]. destruct todo as [|id todo]; cbn [stepQuiesce]; right.
    + quiet_step. split; [done|]. intros id Hid. destruct (Hc id Hid) as [?%not_elem_of_nil|?]; done.
    + change_step cancelHandle id (∅ : gset string); [set_solver|].
      destruct Hs as (Hq & Ht & Hex). split; [split_and!; [done..|]|]; intros id' Hid'; unfold flagged; simpl.
      * rewrite lookup_alter_is_Some. by apply Hex.
      * destruct (decide (id = id')) as [->|Hne].
        { right. destruct (Hex _ Hid') as [h Hh]. exists (cancelHandle h). by rewrite lookup_alter_eq, Hh. }
        rewrite lookup_alter_ne by done.
        destruct (Hc id' Hid') as [[->|?]%elem_of_cons|?]; [done|by left|by right].
  - right. destruct Hi as [Hs Hc]. cbn [stepQuiesce]. case_match; quiet_step; done.
  - right. destruct Hi as [Hs Hc]. destruct todo as [|op todo]; cbn [stepQuiesce].
    + quiet_step. split_and!; auto.
    + repeat case_match; quiet_step; done.
  - right. destruct Hi as [Hs Hc]. cbn [stepQuiesce]. repeat case_match; quiet_step; done.
  - destruct Hi as (Hs & Hc & Hd). destruct todo as [|id todo]; cbn [stepQuiesce].
    + right. quiet_step. split_and!; auto. intros id Hid. destruct (Hd id Hid) as [?%not_elem_of_nil|?]; done.
    + destruct (sHandles s !! id) as [h|] eqn:E.
      * destruct (eTimeout e); [right; quiet_step; done|]. destruct (hClosed h) eqn:Ec; [right|by left].
        quiet_step. split_and!; auto. intros id' Hid'.
        destruct (Hd id' Hid') as [[->|?]%elem_of_cons|?]; [|by left|by right]. right. by exists h.
      * right. quiet_step. split_and!; auto. intros id' Hid'.
        destruct (Hd id' Hid') as [[->|?]%elem_of_cons|?]; [|by left|by right].
        destruct Hs as (_ & _ & Hex). destruct (Hex _ Hid'). congruence.
Qed.

Lemma stepThread_good e t p s :
  inv s -> sThreads s !! t = Some p -> s = stepThread e t s \/ good t p s (stepThread e t s).
Proof.
  intros Hinv Hp. unfold stepThread. rewrite Hp.
  pose proof (inv_tasks _ Hinv : tasksOpen s) as Ho. pose proof (inv_threads _ Hinv _ _ Hp) as Hi.
  destruct p; try by left.
  all: try (apply stepBegin_good; done).
  all: try (apply stepDone_good; done).
  all: try (apply stepFinish_good; done).
  all: try (apply stepQuiesce_good; done).
  - by apply stepDetach_good.
  - right. by apply stepUpdate_good.
Qed.

Lemma stepThread_inv e t s : inv s -> inv (stepThread e t s).
Proof.
  intros Hinv. destruct (sThreads s !! t) as [p|] eqn:Hp; [|unfold stepThread; by rewrite Hp].
  destruct (stepThread_good e t p s Hinv Hp) as [<-|Hg]; [done|]. by eapply good_inv.
Qed.

Lemma call_inv t p s : inv s -> sThreads s !! t = None -> called s p -> inv (setPc t p s).
Proof.
  intros [Hth Hown Htk] Ht Hc.
  assert (tinv s t p /\ forall id t' q, ownId p = Some id -> sThreads s !! t' = Some q -> ownId q <> Some id)
    as [Hi Hf].
  { destruct Hc as [kind idPart persistent Hnew| | | | |]; [|by split..].
    unfold beginKworManagedOperation. cbv zeta. destruct (String.eqb _ _); [by split|].
    destruct idPart as [part|]; [|by split]. destruct (Hnew part eq_refl) as [_ [Hn Ho]].
    split; [done|]. simpl. intros id t' q [= <-]. apply Ho. }
  split; [| |done].
  - intros t' q. simpl. destruct (decide (t' = t)) as [->|Hne].
    + rewrite lookup_insert_eq. intros [= <-]. done.
    + rewrite lookup_insert_ne by done. apply Hth.
  - intros t1 t2 p1 p2 id. simpl.
    destruct (decide (t1 = t)) as [->|H1], (decide (t2 = t)) as [->|H2];
      rewrite ?lookup_insert_eq, ?lookup_insert_ne by done; [done| | |by apply Hown].
    + intros [= <-] Hq Ho1 Ho2. by destruct (Hf _ _ _ Ho1 Hq).
    + intros Hq [= <-] Ho1 Ho2. by destruct (Hf _ _ _ Ho2 Hq).
Qed.

Lemma reachable_inv s : reachable s -> inv s.
Proof.
  induction 1 as [f st|s t p _ IH Ht Hc|s e t _ IH|s st _ IH|s o id _ IH].
  - split; simpl; [done|done|set_solver].
  - by apply call_inv.
  - by apply stepThread_inv.
  - by destruct IH.
  - by destruct IH.
Qed.

(** ** Quiescing *)

(** C3: When a quiesce returns without an error, in whatever way other calls
    were interleaved with it and whatever failed before, no operation is
    registered any more and none ever will be: the map is empty, no call is
    past the gate of [beginKworManagedOperation], every operation that was
    ever accepted has been finished or handed over to a worker of its own,
    and every operation the quiesce had found was cancelled and has ended. *)
Theorem quiesce_drains s t hs :
  reachable s -> sThreads s !! t = Some (QReturned (Ok tt) hs) ->
  sTasks s = ∅ /\ sQuiescing s = true /\
  (forall t' p id, sThreads s !! t' = Some p -> ownId p = Some id ->
     (exists kind persistent, p = BEnter kind id persistent) \/
     p = BReturned (Ok id) /\ (flagged hOnce s id \/ flagged hDetached s id)) /\
  (forall id, id ∈ hs -> flagged hCancelled s id /\ flagged hClosed s id).
Proof.
  intros Hr Ht. destruct (reachable_inv s Hr) as [Hth _ Htk].
  destruct (Hth _ _ Ht) as ((Hq & Hin & _) & Hca & Hcl).
  assert (sTasks s = ∅) as Hempty.
  { apply set_eq. intros id. split; [|set_solver]. intros Hid.
    destruct (Htk id Hid) as (h & Hh & Hc). destruct (Hcl id (Hin id Hid)) as (h' & Hh' & Hc'). congruence. }
  split_and!; [done..| |auto].
  intros t' p id Hp Hid. pose proof (Hth _ _ Hp) as Hi.
  destruct p as [| | | | | |[]| | | | | | | | | | | | | | | | | | | |[]]; simplify_eq/=; unfold begun in Hi;
    try (destruct Hi as (? & ? & ?); congruence).
  - left. eauto.
  - right. split; [done|]. destruct Hi as (h & Hh & [Hin'|[?|?]]); [set_solver|left|right]; by exists h.
Qed.

(** ** The record file *)

Definition recorded (f : opsFile) (id : string) : Prop :=
  exists file, f = JsonFile file /\ Version file = kworLifecycleStateVersion /\
               id ∈ ID <$> normalizeKworManagedOperations (Operations file).

(** A record that [normalizeKworManagedOperations] keeps under the id. *)
Definition keepsId (id : string) (r : KworManagedOperationRecord) : Prop :=
  trim_space (ID r) = id /\ id <> "" /\ trim_space (Kind r) <> "".

Lemma completeRecords_ids id l : forall seen,
  id ∈ ID <$> completeRecords seen l <-> id ∉ seen /\ Exists (keepsId id) l.
Proof.
  induction l as [|r l IH]; intros seen; simpl.
  { rewrite Exists_nil. split; [by intros ?%elem_of_nil|tauto]. }
  rewrite Exists_cons. destruct (String.eqb_spec (trim_space (ID r)) "") as [E1|E1];
    [simpl; rewrite IH; unfold keepsId; naive_solver congruence|].
  destruct (String.eqb_spec (trim_space (Kind r)) "") as [E2|E2];
    [simpl; rewrite IH; unfold keepsId; naive_solver|]. simpl.
  case_bool_decide as E3.
  - rewrite IH. unfold keepsId. naive_solver.
  - rewrite fmap_cons, elem_of_cons, IH. simpl. rewrite not_elem_of_union, not_elem_of_singleton.
    unfold keepsId. split.
    + intros [->|[[? ?] ?]]; auto.
    + intros [? [(? & ? & ?)|?]]; [by left|]. destruct (decide (id = trim_space (ID r))); auto.
Qed.

Lemma normalize_ids id l :
  id ∈ ID <$> normalizeKworManagedOperations l <-> Exists (keepsId id) l.
Proof.
  unfold normalizeKworManagedOperations. rewrite (merge_sort_Permutation idLe).
  rewrite completeRecords_ids. set_solver.
Qed.

Definition normalRecord (r : KworManagedOperationRecord) : Prop :=
  trim_space (ID r) = ID r /\ ID r <> "" /\ trim_space (Kind r) <> "".

Lemma normalize_normal l : Forall normalRecord (normalizeKworManagedOperations l).
Proof.
  unfold normalizeKworManagedOperations. rewrite (merge_sort_Permutation idLe). generalize (∅ : gset string).
  induction l as [|r l IH]; intros seen; simpl; [done|].
  destruct (String.eqb_spec (trim_space (ID r)) "") as [E1|E1]; [apply IH|].
  destruct (String.eqb_spec (trim_space (Kind r)) "") as [E2|E2]; [apply IH|]. simpl.
  case_bool_decide; [apply IH|]. constructor; [|apply IH].
  split_and!; simpl; [apply trim_space_idemp|done|by rewrite trim_space_idemp].
Qed.

(** A change of the file that keeps the record keeps it whatever fails. *)
Lemma withOperations_recorded o change f id :
  (forall l l', Forall normalRecord l -> change l = Some l' -> id ∈ ID <$> l -> Exists (keepsId id) l') ->
  recorded f id -> recorded (withOperations o change f).2 id.
Proof.
  intros Hc (file & -> & Hv & Hid). unfold withOperations, loadKworManagedOperationsLocked.
  assert (recorded (JsonFile file) id) as Hf by (by exists file).
  destruct (ioLock o), (ioRead o); simpl; try done. rewrite Hv. simpl.
  destruct (change _) as [l'|] eqn:E; [|done]. simpl.
  assert (recorded (JsonFile (mkOpsFile kworLifecycleStateVersion (normalizeKworManagedOperations l'))) id).
  { eexists. split_and!; [done..|]. simpl.
    apply normalize_ids. pose proof (Hc _ _ (normalize_normal _) E Hid) as Hl.
    rewrite <- normalize_ids in Hl. apply list_elem_of_fmap in Hl as (r & -> & Hr).
    pose proof (normalize_normal l') as Hn. rewrite Forall_forall in Hn.
    apply Exists_exists. exists r. destruct (Hn r Hr) as (? & ? & ?). by split. }
  unfold saveKworManagedOperationsLocked, writeKworLifecycleJSON. by destruct (ioWrite o).
Qed.

Lemma normal_keeps id l : Forall normalRecord l -> id ∈ ID <$> l -> Exists (keepsId id) l.
Proof.
  intros Hn (r & -> & Hr)%list_elem_of_fmap. rewrite Forall_forall in Hn. apply Exists_exists.
  exists r. destruct (Hn r Hr) as (? & ? & ?). by split.
Qed.

Lemma remove_recorded o id id' f :
  trim_space id' <> id -> recorded f id -> recorded (removeKworManagedOperation o id' f).2 id.
Proof.
  intros Hne. unfold removeKworManagedOperation. cbv zeta. destruct (String.eqb _ _); [done|].
  apply withOperations_recorded. intros l l' Hl [= <-] Hid.
  apply normal_keeps; [rewrite Forall_forall in Hl |- *; intros r [_ ?]%list_elem_of_filter; by apply Hl|].
  apply list_elem_of_fmap in Hid as (r & -> & Hr). apply list_elem_of_fmap. exists r.
  split; [done|]. apply list_elem_of_filter. split; [congruence|done].
Qed.

Lemma replaceFirst_ids id u l l' id0 :
  (forall r, ID (u r) = ID r) -> replaceFirst id u l = Some l' -> id0 ∈ ID <$> l -> id0 ∈ ID <$> l'.
Proof.
  intros Hu. revert l'. induction l as [|r l IH]; intros l'; simpl; [done|].
  destruct (String.eqb (ID r) id).
  - intros [= <-]. simpl. by rewrite Hu.
  - destruct (replaceFirst id u l) as [k|]; [|done]. intros [= <-]. simpl.
    rewrite !elem_of_cons. intros [?|?]; [by left|right; by apply IH].
Qed.

Lemma replaceFirst_normal id u l l' :
  (forall r, normalRecord r -> normalRecord (u r)) -> Forall normalRecord l ->
  replaceFirst id u l = Some l' -> Forall normalRecord l'.
Proof.
  intros Hu. revert l'. induction l as [|r l IH]; intros l' Hl; simpl; [done|].
  apply Forall_cons in Hl as [Hr Hl]. destruct (String.eqb (ID r) id).
  - intros [= <-]. auto.
  - destruct (replaceFirst id u l) as [k|]; [|done]. intros [= <-]. auto.
Qed.

Lemma update_recorded o id u f id0 :
  (forall r, ID (u r) = ID r /\ Kind (u r) = Kind r) ->
  recorded f id0 -> recorded (updateKworManagedOperation o id u f).2 id0.
Proof.
  intros Hu. unfold updateKworManagedOperation. cbv zeta. destruct (String.eqb _ _); [done|].
  apply withOperations_recorded. intros l l' Hl Hr Hid. apply normal_keeps.
  - eapply replaceFirst_normal; [|done..]. intros r. unfold normalRecord.
    by destruct (Hu r) as [-> ->].
  - eapply replaceFirst_ids; [|done..]. apply Hu.
Qed.

Lemma replaceFirst_const id r l l' id0 :
  ID r = id -> replaceFirst id (fun _ => r) l = Some l' -> id0 ∈ ID <$> l -> id0 ∈ ID <$> l'.
Proof.
  intros Hr. revert l'. induction l as [|x l IH]; intros l'; simpl; [done|].
  destruct (String.eqb_spec (ID x) id) as [E|E].
  - intros [= <-]. simpl. by rewrite E, Hr.
  - destruct (replaceFirst id _ l) as [k|]; [|done]. intros [= <-]. simpl.
    rewrite !elem_of_cons. intros [?|?]; [by left|right; by apply IH].
Qed.

Definition cleanRecord (r : KworManagedOperationRecord) : KworManagedOperationRecord :=
  mkOp (trim_space (ID r)) (trim_space (Kind r)) (PID r) (PGID r) (ProcessStartTime r) (Unit r)
       (BlockNewWork r) (BlockingSince r) (StartedAt r).

(** The list an upsert writes. *)
Lemma upsert_list r l id :
  trim_space (ID r) <> "" -> trim_space (Kind r) <> "" ->
  let l' := match replaceFirst (ID (cleanRecord r)) (fun _ => cleanRecord r) l with
            | Some l' => l'
            | None => l ++ [cleanRecord r]
            end in
  Forall normalRecord l -> id ∈ ID <$> l \/ id = trim_space (ID r) -> Exists (keepsId id) l'.
Proof.
  intros Hi Hk l' Hl Hid.
  assert (normalRecord (cleanRecord r)) as Hr.
  { split_and!; simpl; [apply trim_space_idemp|done|by rewrite trim_space_idemp]. }
  apply normal_keeps; subst l'; destruct (replaceFirst _ _ l) as [k|] eqn:E.
  - eapply replaceFirst_normal; [|done..]. done.
  - apply Forall_app. split; [done|]. by constructor.
  - destruct Hid as [?| ->]; [by eapply (replaceFirst_const _ (cleanRecord r))|].
    clear -E. revert k E. induction l as [|x l IH]; intros k; simpl; [done|].
    case_match; [intros [= <-]; simpl; set_solver|].
    destruct (replaceFirst _ _ l) as [k'|]; [|done]. intros [= <-]. simpl. set_solver.
  - rewrite fmap_app. destruct Hid as [?| ->]; set_solver.
Qed.

Lemma withOperations_ok o change f f' :
  withOperations o change f = (Ok tt, f') ->
  exists l l', Forall normalRecord l /\ change l = Some l' /\
               f' = JsonFile (mkOpsFile kworLifecycleStateVersion (normalizeKworManagedOperations l')).
Proof.
  unfold withOperations, saveKworManagedOperationsLocked, writeKworLifecycleJSON.
  destruct (ioLock o); [|done]. cbn [negb].
  destruct (loadKworManagedOperationsLocked o f) as [l|] eqn:El; [|done].
  destruct (change l) as [l'|] eqn:Ec; [|done]. destruct (ioWrite o); [|done..]. intros [= <-].
  exists l, l'. split; [|done].
  revert El. unfold loadKworManagedOperationsLocked. destruct (ioRead o); [|done]. cbn [negb].
  destruct f as [| |file]; [intros [= <-]; constructor|done|].
  case_match; [|done]. intros [= <-]. apply normalize_normal.
Qed.

Lemma upsert_recorded o r f id :
  recorded f id -> recorded (upsertKworManagedOperation o r f).2 id.
Proof.
  unfold upsertKworManagedOperation. cbv zeta. cbn [ID Kind].
  destruct (String.eqb_spec (trim_space (ID r)) "") as [|Hi]; [done|].
  destruct (String.eqb_spec (trim_space (Kind r)) "") as [|Hk]; [done|]. cbn [orb].
  apply withOperations_recorded. intros l l' Hl [= <-] Hid. apply upsert_list; auto.
Qed.

Lemma upsert_adds o r f f' :
  upsertKworManagedOperation o r f = (Ok tt, f') -> recorded f' (trim_space (ID r)).
Proof.
  unfold upsertKworManagedOperation. cbv zeta. cbn [ID Kind].
  destruct (String.eqb_spec (trim_space (ID r)) "") as [|Hi]; [done|].
  destruct (String.eqb_spec (trim_space (Kind r)) "") as [|Hk]; [done|]. cbn [orb].
  intros (l & l' & Hl & [= Hl'] & ->)%withOperations_ok. eexists. split_and!; [done..|]. cbn [Operations].
  apply normalize_ids, normal_keeps; [apply normalize_normal|]. apply normalize_ids.
  subst l'. apply (upsert_list r l (trim_space (ID r))); auto.
Qed.

(** *** Records outlive their operations only with a reason *)

Definition excused (s : sys) (id : string) : Prop :=
  (id, Finished) ∈ sLog s \/ (id, FoundDead) ∈ sLog s \/ ((id, Terminated) ∈ sLog s /\ id ∉ sTasks s).

Definition kept (s : sys) (id : string) : Prop :=
  recorded (sOps s) id \/ flagged hOnce s id \/ excused s id.

Definition trimmed (id : string) : Prop := trim_space id = id.

(** The assertions about records. *)
Definition rinv (s : sys) (p : pc) : Prop :=
  match p with
  | BEnter _ id _ | BState _ id _ | BOwner _ id _ | BLoad _ id _ => trimmed id
  | BBlocking _ id _ todo => trimmed id /\ Forall (trimmed ∘ ID) todo
  | BUpsert _ id => trimmed id
  | BReturned (Ok id) => flagged hPersistent s id -> kept s id
  | FRemove id => trimmed id /\ (id, Finished) ∈ sLog s
  | QTerminate todo _ => Forall (trimmed ∘ ID) todo
  | QRemove op todo hs => trimmed (ID op) /\ Forall (trimmed ∘ ID) todo /\
                          (ID op, Terminated) ∈ sLog s /\ ID op ∉ hs
  | _ => True
  end.

Record recInv (s : sys) : Prop := {
  rec_threads : forall t p, sThreads s !! t = Some p -> rinv s p;
  rec_trimmed : forall id, is_Some (sHandles s !! id) -> trimmed id }.

(** What a step does to the records of others. *)
Record preserves (s s' : sys) : Prop := {
  pr_log : forall x, x ∈ sLog s -> x ∈ sLog s';
  pr_ops : forall id, is_Some (sHandles s !! id) -> recorded (sOps s) id -> kept s' id }.

Lemma load_trimmed o f l : loadKworManagedOperations o f = Ok l -> Forall (trimmed ∘ ID) l.
Proof.
  unfold loadKworManagedOperations, loadKworManagedOperationsLocked.
  destruct (ioLock o), (ioRead o); simpl; try done.
  destruct f as [| |file]; [intros [= <-]; constructor|done|]. case_match; [|done]. intros [= <-].
  eapply Forall_impl; [apply normalize_normal|]. by intros r (? & _).
Qed.

Lemma rinv_stable t p s s' q :
  evolves t p s s' -> preserves s s' ->
  (forall id, q = BReturned (Ok id) -> is_Some (sHandles s !! id)) ->
  rinv s q -> rinv s' q.
Proof.
  intros Hev [Hlog Hops] Hq. destruct q as [| | | | | |[id|]| | | | | | | | | | | | | | | | | | | |]; simpl;
    try exact (fun H => H).
  - destruct (Hq id eq_refl) as [h Hh]. intros Hk (h' & Hh' & Hp').
    destruct (ev_handles _ _ _ _ Hev _ _ Hh) as (h2 & Hh2 & Hle). simplify_eq.
    destruct Hk as [Hr|[Hon|He]].
    + exists h. split; [done|]. destruct Hle as [<- _]. done.
    + apply Hops; [by eexists|done].
    + right. left. eapply flagged_stable; [done| |done]. by intros ? ? (_ & _ & ? & _).
    + right. right. unfold excused in *. destruct He as [?|[?|[? Hn]]]; [by auto..|].
      right. right. split; [by auto|]. intros Hin.
      destruct (ev_tasks _ _ _ _ Hev id Hin) as [?|[? _]]; congruence.
  - intros [? ?]. auto.
  - intros (? & ? & ? & ?). auto.
Qed.

Lemma preserves_ops s s' :
  (forall x, x ∈ sLog s -> x ∈ sLog s') ->
  (forall id, recorded (sOps s) id -> recorded (sOps s') id) -> preserves s s'.
Proof. intros Hl Ho. split; [done|]. intros id _ Hr. left. auto. Qed.

Definition good2 (t : nat) (s s' : sys) : Prop :=
  preserves s s' /\ (forall p, sThreads s' !! t = Some p -> rinv s' p) /\
  (forall id, is_Some (sHandles s' !! id) -> is_Some (sHandles s !! id) \/ trimmed id).

Lemma good2_same t p s : recInv s -> sThreads s !! t = Some p -> good2 t s s.
Proof.
  intros [Hth _] Hp. split; [by apply preserves_ops|]. split; [|by left].
  intros q Hq. by apply (Hth t).
Qed.

(** A step that ends at a program point [q]. *)
Lemma good2_intro t q s s' :
  sThreads s' !! t = Some q -> rinv s' q -> preserves s s' ->
  (forall id, is_Some (sHandles s' !! id) -> is_Some (sHandles s !! id) \/ trimmed id) -> good2 t s s'.
Proof. intros Hq Hr Hp Hh. split; [done|]. split; [|done]. intros p Hp'. by simplify_eq. Qed.

Ltac step2 :=
  eapply good2_intro;
  [ simpl; apply lookup_insert_eq
  | simpl
  | 
  | simpl; intros ?; rewrite ?lookup_alter_is_Some; auto ].

Ltac files_kept := apply preserves_ops; simpl; [auto|auto].

Lemma log_app s id v x : x ∈ sLog s -> x ∈ sLog (logVerdict id v s).
Proof. simpl. set_solver. Qed.

Lemma stepBegin_good2 e t p s :
  recInv s -> sThreads s !! t = Some p -> tinv s t p ->
  match p with
  | BEnter _ _ _ | BState _ _ _ | BOwner _ _ _ | BLoad _ _ _ | BBlocking _ _ _ _ | BUpsert _ _ => True
  | _ => False
  end ->
  good2 t s (stepBegin e t p s).
Proof.
  intros Hinv Hp Hi. pose proof (rec_threads _ Hinv _ _ Hp) as Hr. pose proof (good2_same _ _ _ Hinv Hp) as Hsame.
  destruct p; try done; intros _; simpl in Hr.
  - cbn [stepBegin stepAccept stepNoBlocking]. repeat case_match; [done|step2; [done|files_kept]..].
  - cbn [stepBegin stepAccept stepNoBlocking]. repeat case_match; subst; step2; first [done|files_kept].
  - cbn [stepBegin stepAccept stepNoBlocking]. repeat case_match; subst; step2; first [done|files_kept].
  - cbn [stepBegin stepAccept stepNoBlocking]. case_match eqn:E; step2; [|files_kept|done|files_kept].
    split; [done|by eapply load_trimmed].
  - destruct Hr as [Hid Htodo]. destruct todo as [|op todo]; cbn [stepBegin stepAccept stepNoBlocking].
    + assert (forall i, is_Some (<[id:=newHandle persistent]> (sHandles s) !! i) ->
                is_Some (sHandles s !! i) \/ trimmed i) as Hh.
      { intros i. rewrite lookup_insert_is_Some. intros [->|[_ ?]]; auto. }
      unfold register. destruct persistent; eapply good2_intro;
        [simpl; apply lookup_insert_eq|done|files_kept|done|simpl; apply lookup_insert_eq| |files_kept|done].
      simpl. unfold flagged. simpl. rewrite lookup_insert_eq. by intros (h & [= <-] & ?).
    + apply Forall_cons in Htodo as [Hop Htodo].
      destruct (checkBlocking e op) as [[]|]; [|step2; [done|files_kept]..].
      cbv zeta. change (sOps (logVerdict (ID op) FoundDead s)) with (sOps s).
      assert (forall s', sLog s' = sLog s ++ [(ID op, FoundDead)] ->
        sOps s' = (removeKworManagedOperation (eIo e) (ID op) (sOps s)).2 -> preserves s s') as Hpr.
      { intros s' Hl Ho. split; [rewrite Hl; set_solver|]. intros i _ Hrec.
        destruct (decide (i = ID op)) as [->|Hne].
        - right. right. right. left. rewrite Hl. set_solver.
        - left. rewrite Ho. apply remove_recorded; [|done]. by rewrite Hop. }
      destruct (removeKworManagedOperation (eIo e) (ID op) (sOps s)) as [[u|err] f]; step2;
        first [done | by apply Hpr].
  - cbn [stepBegin stepAccept stepNoBlocking].
    assert (forall s', sLog s' = sLog s ->
      (forall i, recorded (sOps s) i -> recorded (sOps s') i) -> preserves s s') as Hpr.
    { intros s' Hl Ho. apply preserves_ops; [by rewrite Hl|done]. }
    match goal with |- context [upsertKworManagedOperation ?o ?r ?f] =>
      pose proof (upsert_recorded o r f) as Hrec; pose proof (upsert_adds o r f) as Hadd;
      destruct (upsertKworManagedOperation o r f) as [[[]|err] f'] end; step2.
    + intros _. left. rewrite <- Hr. by apply (Hadd f').
    + apply Hpr; [done|]. intros i Hi'. by apply (Hrec i).
    + done.
    + apply Hpr; [done|]. intros i Hi'. by apply (Hrec i).
Qed.

Lemma stepDone_good2 e t p s :
  recInv s -> sThreads s !! t = Some p -> tinv s t p ->
  match p with DEnter _ | DCancel _ | DDelete _ | DRemove _ | DClose _ => True | _ => False end ->
  good2 t s (stepDone e t p s).
Proof.
  intros Hinv Hp Hi. pose proof (good2_same _ _ _ Hinv Hp) as Hsame.
  destruct p; try done; intros _; simpl in Hi; cbn [stepDone].
  - repeat case_match; step2; first [done|files_kept].
  - step2; [done|files_kept].
  - case_match; [done|]. step2; [done|files_kept].
  - destruct Hi as [(h & Hh & Hon) _]. rewrite Hh. destruct (hPersistent h); step2; [done| |done|files_kept].
    split; [by auto|]. simpl. intros i _ Hrec. destruct (decide (i = id)) as [->|Hne].
    + right. left. by exists h.
    + left. apply remove_recorded; [|done]. rewrite (rec_trimmed _ Hinv id) by (by eexists). done.
  - step2; [done|files_kept].
Qed.

Lemma stepOther_good2 e t p s :
  recInv s -> sThreads s !! t = Some p -> tinv s t p ->
  match p with
  | TEnter _ => good2 t s (stepDetach t p s)
  | FEnter _ | FRemove _ => good2 t s (stepFinish e t p s)
  | UEnter _ _ => good2 t s (stepUpdate e t p s)
  | _ => True
  end.
Proof.
  intros Hinv Hp Hi. pose proof (good2_same _ _ _ Hinv Hp) as Hsame.
  pose proof (rec_threads _ Hinv _ _ Hp) as Hr. destruct p; try done; simpl in Hr; cbn [stepDetach stepFinish stepUpdate].
  - repeat case_match; try done; step2; first [done|files_kept].
  - case_match; [step2; [done|files_kept]|]. case_match; [done|]. case_match; step2.
    + done.
    + files_kept.
    + split; [apply trim_space_idemp|]. set_solver.
    + apply preserves_ops; simpl; [set_solver|auto].
  - destruct Hr as [Hid Hlog]. pose proof (remove_recorded (eIo e)) as Hrem.
    specialize (fun i => Hrem i id (sOps s)). destruct (removeKworManagedOperation _ _ _) as [r f]. step2; [done|].
    split; [by auto|]. intros i _ Hrec. destruct (decide (i = id)) as [->|Hne].
    + right. right. by left.
    + left. apply (Hrem i); [|done]. by rewrite Hid.
  - assert (forall i, recorded (sOps s) i -> recorded (match u with
                     | RUProcess pid pgid => SetProcess (eIo e) (eIdentity e) id pid pgid (sOps s)
                     | RUUnit unitName => SetSystemdUnit (eIo e) id unitName (sOps s)
                     | RUBlock block => SetBlockNewWork (eIo e) (eNow e) id block (sOps s)
                     end).2 i) as Hrec.
    { intros i Hrec. destruct u; unfold SetProcess, SetSystemdUnit, SetBlockNewWork;
        repeat case_match; try done; by apply update_recorded. }
    match goal with |- context [let '(_, _) := ?m in _] => destruct m as [r f] end.
    step2; [done|]. apply preserves_ops; simpl; [auto|]. exact Hrec.
Qed.

Lemma stepQuiesce_good2 e t p s :
  recInv s -> sThreads s !! t = Some p -> tinv s t p ->
  match p with
  | QEnter | QCancel _ _ | QLoad _ | QTerminate _ _ | QRemove _ _ _ | QWait _ _ => True
  | _ => False
  end ->
  good2 t s (stepQuiesce e t p s).
Proof.
  intros Hinv Hp Hi. pose proof (good2_same _ _ _ Hinv Hp) as Hsame.
  pose proof (rec_threads _ Hinv _ _ Hp) as Hr. destruct p; try done; intros _; simpl in Hr, Hi.
  - cbn [stepQuiesce]. case_match; [done|]. step2; [done|files_kept].
  - destruct todo; cbn [stepQuiesce]; step2; first [done|files_kept].
  - cbn [stepQuiesce]. case_match eqn:E; step2; [by eapply load_trimmed|files_kept|done|files_kept].
  - destruct todo as [|op todo]; cbn [stepQuiesce]; [step2; [done|files_kept]|].
    apply Forall_cons in Hr as [Hop Htodo]. case_match; [|step2; [done|files_kept]].
    case_bool_decide; step2; [done|files_kept| |].
    + split_and!; [done..| |done]. set_solver.
    + apply preserves_ops; simpl; [set_solver|auto].
  - destruct Hr as (Hop & Htodo & Hlog & Hnot). destruct Hi as [(_ & Hsub & _) _]. cbn [stepQuiesce].
    assert (forall s', sLog s' = sLog s -> sTasks s' = sTasks s ->
      sOps s' = (removeKworManagedOperation (eIo e) (ID op) (sOps s)).2 -> preserves s s') as Hpr.
    { intros s' Hl Ht Ho. split; [by rewrite Hl|]. intros i _ Hrec.
      destruct (decide (i = ID op)) as [->|Hne].
      - right. right. right. right. rewrite Hl, Ht. auto.
      - left. rewrite Ho. apply remove_recorded; [|done]. by rewrite Hop. }
    destruct (removeKworManagedOperation (eIo e) (ID op) (sOps s)) as [[u|err] f]; step2;
      first [done | by apply Hpr].
  - destruct todo as [|id todo]; cbn [stepQuiesce]; [step2; [done|files_kept]|].
    repeat case_match; try done; step2; first [done|files_kept].
Qed.

Lemma stepThread_good2 e t p s :
  recInv s -> tinv s t p -> sThreads s !! t = Some p -> good2 t s (stepThread e t s).
Proof.
  intros Hinv Hi Hp. unfold stepThread. rewrite Hp. pose proof (stepOther_good2 e t p s Hinv Hp Hi) as Ho.
  destruct p; try done; try by eapply good2_same.
  all: first [apply stepBegin_good2; done | apply stepDone_good2; done | apply stepQuiesce_good2; done].
Qed.

Lemma stepThread_recInv e t s : inv s -> recInv s -> recInv (stepThread e t s).
Proof.
  intros Hinv Hrec. destruct (sThreads s !! t) as [p|] eqn:Hp; [|unfold stepThread; by rewrite Hp].
  destruct (stepThread_good e t p s Hinv Hp) as [<-|(Hev & _)]; [done|].
  destruct (stepThread_good2 e t p s Hrec (inv_threads _ Hinv _ _ Hp) Hp) as (Hpr & Hown & Hh). split.
  - intros t' q Hq. destruct (decide (t' = t)) as [->|Hne]; [by apply Hown|].
    rewrite (ev_threads _ _ _ _ Hev t' Hne) in Hq.
    eapply rinv_stable; [done..| |by apply (rec_threads _ Hrec t')].
    intros id ->. destruct (inv_threads _ Hinv _ _ Hq) as (h & ? & _). by eexists.
  - intros id Hid. destruct (Hh id Hid) as [?|?]; [by apply (rec_trimmed _ Hrec)|done].
Qed.

Lemma reachable_recInv s : reachable s -> recInv s.
Proof.
  induction 1 as [f st|s t p Hs IH Ht Hc|s e t Hs IH|s st Hs IH|s o id Hs IH].
  - split; simpl; [done|]. by intros id [h Hh].
  - destruct IH as [Hth Htr]. split; [|done]. intros t' q. simpl.
    destruct (decide (t' = t)) as [->|Hne]; [|rewrite lookup_insert_ne by done; apply Hth].
    rewrite lookup_insert_eq. intros [= <-].
    destruct Hc as [kind idPart persistent Hnew| | | | |]; try done.
    unfold beginKworManagedOperation. cbv zeta. destruct (String.eqb _ _); [done|].
    destruct idPart as [part|]; [|done]. destruct (Hnew part eq_refl) as [[Hne Hplain] _].
    by apply trim_space_dash.
  - apply stepThread_recInv; [by apply reachable_inv|done].
  - by destruct IH.
  - pose proof (reachable_inv s Hs) as Hinv. destruct IH as [Hth Htr]. split; [|done].
    intros t q Hq. simpl in Hq. pose proof (Hth _ _ Hq) as Hr.
    assert (forall i, kept s i ->
      kept (logVerdict (trim_space id) Finished (setOps (removeKworManagedOperation o id (sOps s)).2 s)) i) as Hk.
    { intros i [Hrec|[?|He]]; [|by right; left|].
      - destruct (decide (trim_space id = i)) as [<-|Hne].
        + right. right. left. simpl. set_solver.
        + left. by apply remove_recorded.
      - right. right. unfold excused in *. simpl. set_solver. }
    destruct q as [| | | | | |[]| | | | | | | | | | | | | | | | | | | |]; simpl in *; try done.
    + intros Hf. by apply Hk, Hr.
    + set_solver.
    + set_solver.
Qed.

(** C6: A running operation cannot be lost sight of.  In every reachable state,
    with every interleaving and file failure, an accepted persistent
    operation that is not being finished by this process is in the record
    file, unless a worker process reported it finished, it was found dead
    when its start-up grace was over, or a quiesce stopped its process after
    the panel had let go of it; a quiesce that times out waiting for an
    operation leaves its record for the next one. *)
Theorem records_survive s t id :
  reachable s -> sThreads s !! t = Some (BReturned (Ok id)) -> flagged hPersistent s id ->
  recorded (sOps s) id \/ flagged hOnce s id \/
  (id, Finished) ∈ sLog s \/ (id, FoundDead) ∈ sLog s \/ ((id, Terminated) ∈ sLog s /\ id ∉ sTasks s).
Proof.
  intros Hr Ht Hp. exact (rec_threads _ (reachable_recInv s Hr) _ _ Ht Hp).
Qed.

(** ** Stopping a process *)

Lemma matches_true h op :
  kworManagedOperationProcessMatches h op = Ok true ->
  0 < PID op /\ hostStartTime h (PID op) = Ok (Some (ProcessStartTime op)) /\
  hostEnvHasID h (PID op) (ID op) = Ok true.
Proof.
  unfold kworManagedOperationProcessMatches. destruct (Z.leb_spec (PID op) 0); [done|].
  destruct (ProcessStartTime op =? 0); [by case_match|].
  destruct (hostStartTime h (PID op)) as [[st|]|]; [|done..].
  destruct (Z.eqb_spec st (ProcessStartTime op)) as [->|]; [|done]. simpl.
  destruct (hostEnvHasID h (PID op) (ID op)) as [[]|]; done.
Qed.

Definition looks (e : termEnv) : list host := teFirst e :: teSecond e :: teWait1 e ++ teWait2 e.

Lemma waitExit_gone polls op :
  waitKworManagedOperationExit polls op = true ->
  exists h, h ∈ polls /\ kworManagedOperationProcessMatches h op = Ok false.
Proof.
  unfold waitKworManagedOperationExit. rewrite existsb_exists. intros (h & Hin & Hm).
  exists h. rewrite list_elem_of_In. split; [done|]. by repeat case_match.
Qed.

Lemma signalAndWait_spec e op tg :
  kworManagedOperationProcessMatches (teFirst e) op = Ok true ->
  let '(r, sent) := signalAndWait e op tg in
  (forall sig tg' h, (sig, tg', h) ∈ sent -> tg' = tg /\ kworManagedOperationProcessMatches h op = Ok true) /\
  (r = Ok tt -> exists h, h ∈ looks e /\ kworManagedOperationProcessMatches h op = Ok false).
Proof.
  intros Hfirst. unfold signalAndWait, looks.
  assert (forall sig tg' h, (sig, tg', h) ∈ [(SIGTERM, tg, teFirst e)] ->
            tg' = tg /\ kworManagedOperationProcessMatches h op = Ok true) as Hone.
  { intros sig tg' h. rewrite list_elem_of_singleton. by intros [= -> -> ->]. }
  destruct (teTermOk e); simpl; [|by split].
  destruct (waitKworManagedOperationExit (teWait1 e) op) eqn:E1.
  { split; [done|]. intros _. destruct (waitExit_gone _ _ E1) as (h & ? & ?). exists h. set_solver. }
  destruct (kworManagedOperationProcessMatches (teSecond e) op) as [[]|] eqn:E2.
  - assert (forall sig tg' h, (sig, tg', h) ∈ [(SIGTERM, tg, teFirst e); (SIGKILL, tg, teSecond e)] ->
            tg' = tg /\ kworManagedOperationProcessMatches h op = Ok true) as Htwo.
    { intros sig tg' h. rewrite elem_of_cons. intros [[= -> -> ->]|H]; [done|].
      apply list_elem_of_singleton in H. by injection H as -> -> ->. }
    destruct (teKillOk e); simpl; [|by split].
    destruct (waitKworManagedOperationExit (teWait2 e) op) eqn:E3; [|by split].
    split; [done|]. intros _. destruct (waitExit_gone _ _ E3) as (h & ? & ?). exists h. set_solver.
  - split; [done|]. intros _. exists (teSecond e). set_solver.
  - by split.
Qed.

(** C27: Stopping a recorded operation is safe against reused process ids and
    is not reported too early.  Every signal is preceded by a look at the
    host in which the recorded process has the recorded start time and
    carries the token of the operation, and it goes to that process or its
    group, never to the group of the panel; when the call returns no error,
    the process was seen gone, and a recorded systemd unit was seen
    inactive. *)
Theorem terminate_safe e op :
  let '(r, sent) := terminateKworManagedOperation e op in
  (forall sig tg h, (sig, tg, h) ∈ sent ->
     0 < PID op /\ hostStartTime h (PID op) = Ok (Some (ProcessStartTime op)) /\
     hostEnvHasID h (PID op) (ID op) = Ok true /\
     (tg = Process (PID op) \/ tg = Group (PGID op)) /\ tg <> Group (tePgrp e)) /\
  (r = Ok tt ->
     (exists h, h ∈ looks e /\ kworManagedOperationProcessMatches h op = Ok false) /\
     (trim_space (Unit op) <> "" -> hostSystemd (teUnit e) = true ->
        hostUnitActive (teStopped e) (trim_space (Unit op)) = Ok false)).
Proof.
  unfold terminateKworManagedOperation.
  assert (stopUnit e op = Ok tt -> trim_space (Unit op) <> "" -> hostSystemd (teUnit e) = true ->
        hostUnitActive (teStopped e) (trim_space (Unit op)) = Ok false) as Hunit.
  { unfold stopUnit. intros Hs Hu%String.eqb_neq Hd. rewrite Hu, Hd in Hs. simpl in Hs. by repeat case_match. }
  destruct (stopUnit e op) as [[]|]; [|split; [set_solver|done]].
  assert (forall tg, kworManagedOperationProcessMatches (teFirst e) op = Ok true ->
    (tg = Process (PID op) \/ tg = Group (PGID op)) -> tg <> Group (tePgrp e) ->
    let '(r, sent) := signalAndWait e op tg in
    (forall sig tg h, (sig, tg, h) ∈ sent ->
     0 < PID op /\ hostStartTime h (PID op) = Ok (Some (ProcessStartTime op)) /\
     hostEnvHasID h (PID op) (ID op) = Ok true /\
     (tg = Process (PID op) \/ tg = Group (PGID op)) /\ tg <> Group (tePgrp e)) /\
    (r = Ok tt -> exists h, h ∈ looks e /\ kworManagedOperationProcessMatches h op = Ok false)) as Hsig.
  { intros tg Hm Htg Hne. pose proof (signalAndWait_spec e op tg Hm) as Hs.
    destruct (signalAndWait e op tg) as [r sent]. destruct Hs as [Hs Hg]. split; [|done].
    intros sig tg' h Hin. destruct (Hs sig tg' h Hin) as [-> Hmt].
    destruct (matches_true _ _ Hmt) as (? & ? & ?). auto. }
  destruct (kworManagedOperationProcessMatches (teFirst e) op) as [[]|] eqn:Em.
  - destruct (Z.ltb_spec 0 (PGID op)) as [Hg|Hg].
    + destruct (Z.eqb_spec (PGID op) (tePgrp e)); [split; [set_solver|done]|].
      specialize (Hsig (Group (PGID op)) eq_refl). destruct (signalAndWait e op _) as [r sent].
      destruct Hsig as [? ?]; [by right|congruence|]. split; [done|]. auto.
    + destruct (matches_true _ _ Em) as [Hpid _]. destruct (Z.ltb_spec 0 (PID op)); [|lia].
      specialize (Hsig (Process (PID op)) eq_refl). destruct (signalAndWait e op _) as [r sent].
      destruct Hsig as [? ?]; [by left|congruence|]. split; [done|]. auto.
  - split; [set_solver|]. intros _. split; [|by apply Hunit]. exists (teFirst e). unfold looks. set_solver.
  - split; [set_solver|done].
Qed.

(** The roll-back of a started worker signals its group only right after its
    start time was seen, never the group of the panel, and succeeds only when
    the worker was seen gone. *)
Lemma stop_detached_safe e last pid pgid startTime :
  let '(r, sent) := stopStartedKworDetachedWorker e last pid pgid startTime in
  (forall sig tg h, (sig, tg, h) ∈ sent ->
     hostStartTime h pid = Ok (Some startTime) /\ tg = Group pgid /\ 0 < pgid /\ pgid <> tePgrp e) /\
  (r = Ok tt -> exists h, h ∈ [teFirst e; teSecond e; last] /\ hostStartTime h pid <> Ok (Some startTime)).
Proof.
  assert (forall h, detachedMatches h pid startTime = true <-> hostStartTime h pid = Ok (Some startTime)) as Hm.
  { intros h. unfold detachedMatches. destruct (hostStartTime h pid) as [[t|]|]; [|done..].
    rewrite Z.eqb_eq. split; [by intros ->|by intros [= ->]]. }
  assert (forall h, detachedMatches h pid startTime = false -> hostStartTime h pid <> Ok (Some startTime)) as Hn.
  { intros h Hf Ht%Hm. congruence. }
  unfold stopStartedKworDetachedWorker.
  destruct (detachedMatches (teFirst e) pid startTime) eqn:E1; simpl; [|split; [set_solver|eauto using list_elem_of_here]].
  apply Hm in E1. destruct (Z.leb_spec pgid 0); simpl; [split; [set_solver|done]|].
  destruct (Z.eqb_spec pgid (tePgrp e)); [split; [set_solver|done]|].
  destruct (teTermOk e); simpl; [|split; [set_solver|done]].
  destruct (detachedMatches (teSecond e) pid startTime) eqn:E2; simpl.
  - apply Hm in E2. destruct (teKillOk e); simpl; [|split; [set_solver|done]].
    destruct (detachedMatches last pid startTime) eqn:E3; (split; [set_solver|]); [done|].
    exists last. split; [set_solver|by apply Hn].
  - split; [set_solver|]. exists (teSecond e). split; [set_solver|by apply Hn].
Qed.

(** ** A run *)

Definition calmTerm : termEnv :=
  mkTermEnv deadHost deadHost deadHost 1 true [deadHost] deadHost true [deadHost].
Definition calmEnv : senv := mkEnv calmIo (1000 * 1000000000) deadHost (Ok false) (Ok 1) calmTerm false.

Definition runThreads (ts : list nat) (s : sys) : sys := foldl (fun s t => stepThread calmEnv t s) s ts.

Lemma reachable_run ts : forall s, reachable s -> reachable (runThreads ts s).
Proof. induction ts as [|t ts IH]; intros s Hs; [done|]. apply IH. by apply reach_step. Qed.

(** An operation is accepted (thread 0); a quiesce (thread 1) cancels it and
    waits; its worker finishes it (thread 2); the quiesce returns. *)
Definition demoId : string := "update-ab".
Definition demo1 : sys :=
  runThreads [0; 0; 0; 0; 0; 0]%nat
    (setPc 0 (beginKworManagedOperation "update" (Some "ab") true) (initialSys NoFile NoFile)).
Definition demo2 : sys := runThreads [1; 1; 1; 1; 1; 1; 1]%nat (setPc 1 QEnter demo1).
Definition demo3 : sys := runThreads [2; 2; 2; 2; 2; 1; 1]%nat (setPc 2 (DEnter demoId) demo2).

Lemma demo1_reachable : reachable demo1.
Proof.
  apply reachable_run, reach_call; [apply reach_init|done|]. constructor. intros part [= <-].
  split; [by split|]. split; [done|]. intros t p. simpl. by rewrite lookup_empty.
Qed.
Lemma demo2_reachable : reachable demo2.
Proof. apply reachable_run, reach_call; [apply demo1_reachable|by vm_compute|constructor]. Qed.
Lemma demo3_reachable : reachable demo3.
Proof. apply reachable_run, reach_call; [apply demo2_reachable|by vm_compute|constructor]. Qed.

Lemma quiesce_drains_witness :
  sThreads demo3 !! 1%nat = Some (QReturned (Ok tt) [demoId]) /\ sTasks demo3 = ∅.
Proof.
  assert (sThreads demo3 !! 1%nat = Some (QReturned (Ok tt) [demoId])) as H by (vm_compute; reflexivity).
  split; [exact H|]. exact (proj1 (quiesce_drains demo3 1 [demoId] demo3_reachable H)).
Defined.

Lemma records_survive_witness :
  sThreads demo2 !! 0%nat = Some (BReturned (Ok demoId)) /\
  (recorded (sOps demo2) demoId \/ flagged hOnce demo2 demoId \/
   (demoId, Finished) ∈ sLog demo2 \/ (demoId, FoundDead) ∈ sLog demo2 \/
   ((demoId, Terminated) ∈ sLog demo2 /\ demoId ∉ sTasks demo2)).
Proof.
  assert (sThreads demo2 !! 0%nat = Some (BReturned (Ok demoId))) as H by (vm_compute; reflexivity).
  assert (flagged hPersistent demo2 demoId) as Hp.
  { exists (mkHandle true true false false false). split; vm_compute; reflexivity. }
  split; [exact H|]. exact (records_survive demo2 0 demoId demo2_reachable H Hp).
Defined.
