(* ===== verification/RuntimeDir.v ===== *)
(** * The runtime directory ([service/lifecycle.go], [lifecycle_linux.go])

    The uninstall state, the records of the operations, the control socket
    and the lock file live in one directory.  When an uninstall is complete,
    its worker removes the files it knows, then the lock files, then the
    directory.  The first part holds the metadata lock; between the two
    parts other processes may change the directory.

    The second half of this file is the lock itself: a mutex per process and
    [flock] on the file the path names when it is opened.  It justifies that
    the file operations of [Uninstall] and [Lifecycle] are atomic steps. *)

From stdpp Require Import base gmap sets list strings.
From Stdlib Require Import ZArith Lia.
From S2P Require Import Prelude GoStrings Uninstall Lifecycle LifecycleCorrect.

#[local] Open Scope Z_scope.

(** ** Files *)

(** What a file decodes to. *)
Inductive content : Type :=
| StateContent (s : KworUninstallLifecycleState)
| OpsContent (f : kworManagedOperationsFile)
| OtherContent.

Inductive dirEntry : Type :=
| Regular (c : content)
| Socket
| Special.

(** [None]: the directory does not exist. *)
Definition runtimeDir : Type := option (gmap string dirEntry).

Definition kworLifecycleStateFileName : string := "uninstall-v1.json".
Definition kworLifecycleOperationsFileName : string := "operations-v1.json".
Definition kworLifecycleControlSocketName : string := "lifecycle.sock".
Definition kworLifecycleMetadataLockName : string := "metadata.lock".
Definition legacyLockName : string := "lifecycle.lock".

Definition entryAt (n : string) (d : runtimeDir) : option dirEntry :=
  match d with Some m => m !! n | None => None end.
Definition removeEntry (n : string) (d : runtimeDir) : runtimeDir := delete n <$> d.

(** The two JSON files as [Uninstall] and [Lifecycle] see them. *)
Definition stateView (d : runtimeDir) : stateFile :=
  match entryAt kworLifecycleStateFileName d with
  | None => NoFile
  | Some (Regular (StateContent s)) => JsonFile s
  | Some _ => BadFile
  end.
Definition opsView (d : runtimeDir) : opsFile :=
  match entryAt kworLifecycleOperationsFileName d with
  | None => NoFile
  | Some (Regular (OpsContent f)) => JsonFile f
  | Some _ => BadFile
  end.

(** The data files are removed in this order, before the socket. *)
Definition dataFiles : list string :=
  [kworLifecycleStateFileName; kworLifecycleOperationsFileName;
   kworLifecycleStateFileName +:+ ".tmp"; kworLifecycleOperationsFileName +:+ ".tmp"].
Definition lockFiles : list string := [kworLifecycleMetadataLockName; legacyLockName].
Definition runtimeNames : list string := dataFiles ++ kworLifecycleControlSocketName :: lockFiles.

(** ** The clean-up *)

(** Which file operations succeed; the error of a missing file, which the code
    ignores, is not a failure. *)
Record cleanIo : Type := mkCleanIo {
  ciReadDir : bool;
  ciReadOps : bool;
  ciLstat : string -> bool;
  ciRemove : string -> bool;
  ciRemoveDir : bool;
  ciSync : bool }.

Definition calmCleanIo : cleanIo := mkCleanIo true true (fun _ => true) (fun _ => true) true true.

(** How far [acquireKworLifecycleMetadataLock] gets. *)
Inductive lockStage : Type := NoDirectory | NoDirectoryMode | NoLockFile | NoLock | LockTaken.

Definition makeDir (d : runtimeDir) : runtimeDir := match d with Some m => Some m | None => Some ∅ end.
Definition makeLockFile (d : runtimeDir) : runtimeDir :=
  match makeDir d with
  | Some m => Some (match m !! kworLifecycleMetadataLockName with
                    | Some _ => m
                    | None => <[kworLifecycleMetadataLockName := Regular OtherContent]> m
                    end)
  | None => None
  end.

Definition acquireKworLifecycleMetadataLock (st : lockStage) (d : runtimeDir) : bool * runtimeDir :=
  match st with
  | NoDirectory => (false, d)
  | NoDirectoryMode | NoLockFile => (false, makeDir d)
  | NoLock => (false, makeLockFile d)
  | LockTaken => (true, makeLockFile d)
  end.

Fixpoint removeFiles (c : cleanIo) (names : list string) (d : runtimeDir) : res lerr unit * runtimeDir :=
  match names with
  | [] => (Ok tt, d)
  | n :: names' => if ciRemove c n then removeFiles c names' (removeEntry n d) else (Err ErrWrite, d)
  end.

Definition removeSocket (c : cleanIo) (d : runtimeDir) : res lerr unit * runtimeDir :=
  let n := kworLifecycleControlSocketName in
  if negb (ciLstat c n) then (Err ErrRead, d)
  else match entryAt n d with
       | None => (Ok tt, d)
       | Some Socket => if ciRemove c n then (Ok tt, removeEntry n d) else (Err ErrWrite, d)
       | Some _ => (Err ErrFileKind, d)
       end.

Definition syncKworLifecycleDirectory (c : cleanIo) (d : runtimeDir) : res lerr unit :=
  match d with
  | None => Err ErrSync
  | Some _ => if ciSync c then Ok tt else Err ErrSync
  end.

(** Only files with known names are in the directory. *)
Definition recognised (d : runtimeDir) : bool :=
  match d with
  | None => true
  | Some m => bool_decide (dom m ⊆ (list_to_set runtimeNames : gset string))
  end.

Definition clearRecognised (c : cleanIo) (d : runtimeDir) : res lerr unit * runtimeDir :=
  match loadKworManagedOperationsLocked (mkIo true (ciReadOps c) Written) (opsView d) with
  | Err e => (Err e, d)
  | Ok (_ :: _) => (Err ErrRecordsLeft, d)
  | Ok [] =>
      match removeFiles c dataFiles d with
      | (Err e, d1) => (Err e, d1)
      | (Ok _, d1) =>
          match removeSocket c d1 with
          | (Err e, d2) => (Err e, d2)
          | (Ok _, d2) => (syncKworLifecycleDirectory c d2, d2)
          end
      end
  end.

Definition clearKworLifecycleRuntimeArtifactsLocked (c : cleanIo) (d : runtimeDir)
  : res lerr unit * runtimeDir :=
  match d with
  | None => clearRecognised c d
  | Some _ => if negb (ciReadDir c) then (Err ErrRead, d)
              else if negb (recognised d) then (Err ErrForeignFile, d)
              else clearRecognised c d
  end.

Fixpoint removeLockFiles (c : cleanIo) (names : list string) (d : runtimeDir) : res lerr unit * runtimeDir :=
  match names with
  | [] => (Ok tt, d)
  | n :: names' =>
      if negb (ciLstat c n) then (Err ErrRead, d)
      else match entryAt n d with
           | None => removeLockFiles c names' d
           | Some (Regular _) => if ciRemove c n then removeLockFiles c names' (removeEntry n d)
                                 else (Err ErrWrite, d)
           | Some _ => (Err ErrFileKind, d)
           end
  end.

Definition finishKworLifecycleRuntimeCleanup (c : cleanIo) (d : runtimeDir) : res lerr unit * runtimeDir :=
  match removeLockFiles c lockFiles d with
  | (Err e, d1) => (Err e, d1)
  | (Ok _, None) => (Ok tt, None)
  | (Ok _, Some m) =>
      if negb (ciReadDir c) then (Err ErrRead, Some m)
      else if negb (bool_decide (m = ∅)) then (Err ErrForeignFile, Some m)
      else if negb (ciRemoveDir c) then (Err ErrWrite, Some m)
      else (if ciSync c then Ok tt else Err ErrSync, None)
  end.

(** [c1], [unlocked], [c2]: what succeeds in the locked part, in releasing the
    lock, and after it; [other]: what other processes do in between. *)
Definition ClearKworUninstallLifecycle (st : lockStage) (c1 : cleanIo) (unlocked : bool)
  (other : runtimeDir -> runtimeDir) (c2 : cleanIo) (d : runtimeDir) : res lerr unit * runtimeDir :=
  let '(locked, d0) := acquireKworLifecycleMetadataLock st d in
  if negb locked then (Err ErrLock, d0)
  else match clearKworLifecycleRuntimeArtifactsLocked c1 d0 with
       | (Err e, d1) => (Err e, d1)
       | (Ok _, d1) => if negb unlocked then (Err ErrLock, d1)
                       else finishKworLifecycleRuntimeCleanup c2 (other d1)
       end.

(** *** Facts *)

Lemma entryAt_remove n n' d :
  entryAt n (removeEntry n' d) = if decide (n = n') then None else entryAt n d.
Proof.
  destruct d as [m|]; simpl; [|by case_decide].
  case_decide; [subst; apply lookup_delete_eq|by apply lookup_delete_ne].
Qed.

Lemma removeFiles_entry c n names d :
  entryAt n (removeFiles c names d).2 = entryAt n d \/
  (n ∈ names /\ entryAt n (removeFiles c names d).2 = None).
Proof.
  revert d. induction names as [|n' names IH]; intros d; simpl; [by left|].
  destruct (ciRemove c n'); simpl; [|by left].
  destruct (IH (removeEntry n' d)) as [E|[? E]]; rewrite E; [|right; set_solver].
  rewrite entryAt_remove. case_decide; [right; set_solver|by left].
Qed.

Lemma removeSocket_entry c n d :
  entryAt n (removeSocket c d).2 = entryAt n d \/
  (n = kworLifecycleControlSocketName /\ entryAt n (removeSocket c d).2 = None).
Proof.
  unfold removeSocket. destruct (ciLstat c _); simpl; [|by left].
  destruct (entryAt kworLifecycleControlSocketName d) as [[]|] eqn:E; simpl; [by left| |by left..].
  destruct (ciRemove c _); simpl; [|by left]. rewrite entryAt_remove. case_decide; [by right|by left].
Qed.

Lemma removeLockFiles_entry c n names d :
  entryAt n (removeLockFiles c names d).2 = entryAt n d \/
  (n ∈ names /\ entryAt n (removeLockFiles c names d).2 = None).
Proof.
  revert d. induction names as [|n' names IH]; intros d; simpl; [by left|].
  destruct (ciLstat c n'); simpl; [|by left].
  destruct (entryAt n' d) as [[x| |]|]; simpl; [|by left..|].
  - destruct (ciRemove c n'); simpl; [|by left].
    destruct (IH (removeEntry n' d)) as [E|[? E]]; rewrite E; [|right; set_solver].
    rewrite entryAt_remove. case_decide; [right; set_solver|by left].
  - destruct (IH d) as [E|[? E]]; rewrite E; [by left|right; set_solver].
Qed.

(** What the locked part can do to an entry; the data files come first. *)
Lemma clear_entry c n d :
  entryAt n (clearKworLifecycleRuntimeArtifactsLocked c d).2 = entryAt n d \/
  (n ∈ kworLifecycleControlSocketName :: dataFiles /\
   entryAt n (clearKworLifecycleRuntimeArtifactsLocked c d).2 = None).
Proof.
  assert (entryAt n (clearRecognised c d).2 = entryAt n d \/
          (n ∈ kworLifecycleControlSocketName :: dataFiles /\ entryAt n (clearRecognised c d).2 = None)) as H.
  { unfold clearRecognised. destruct (loadKworManagedOperationsLocked _ _) as [[|]|]; [|by left..].
    pose proof (removeFiles_entry c n dataFiles d) as H1.
    destruct (removeFiles c dataFiles d) as [[[]|e] d1]; cbn [snd] in *; [|set_solver].
    pose proof (removeSocket_entry c n d1) as H2.
    destruct (removeSocket c d1) as [[[]|e] d2]; cbn [snd] in *;
      (destruct H2 as [->|[-> ->]]; [destruct H1 as [->|[? ->]]|]; set_solver). }
  destruct d as [m|]; cbn [clearKworLifecycleRuntimeArtifactsLocked]; [|done].
  destruct (ciReadDir c); simpl; [|by left]. destruct (bool_decide _); [done|by left].
Qed.

Lemma makeLockFile_entry n d :
  n <> kworLifecycleMetadataLockName -> entryAt n (makeLockFile d) = entryAt n d.
Proof.
  intros Hn. unfold makeLockFile, makeDir. destruct d as [m|]; simpl.
  - destruct (m !! _); [done|]. by apply lookup_insert_ne.
  - rewrite lookup_empty. simpl. rewrite lookup_insert_ne by done. apply lookup_empty.
Qed.

Lemma acquire_entry st n d :
  n <> kworLifecycleMetadataLockName -> entryAt n (acquireKworLifecycleMetadataLock st d).2 = entryAt n d.
Proof. intros Hn. destruct st; simpl; try done; [by destruct d..|by apply makeLockFile_entry|by apply makeLockFile_entry]. Qed.

(** A foreign file, or a record, stops the locked part before it removes
    anything. *)
Lemma clear_foreign c n e d :
  entryAt n d = Some e -> n ∉ runtimeNames ->
  exists err, clearKworLifecycleRuntimeArtifactsLocked c d = (Err err, d).
Proof.
  intros He Hn. destruct d as [m|]; [|done]. cbn [clearKworLifecycleRuntimeArtifactsLocked].
  destruct (ciReadDir c); [|by eexists]. cbn [negb recognised].
  rewrite bool_decide_eq_false_2; [by eexists|]. intros Hs. apply Hn.
  apply (elem_of_list_to_set (C:=gset string)), Hs, elem_of_dom. by exists e.
Qed.

Lemma clear_recorded c id d :
  recorded (opsView d) id -> exists err, clearKworLifecycleRuntimeArtifactsLocked c d = (Err err, d).
Proof.
  intros (file & Hf & Hv & Hid).
  assert (exists err, clearRecognised c d = (Err err, d)) as (err & H).
  { unfold clearRecognised. rewrite Hf. unfold loadKworManagedOperationsLocked. cbn [ioRead].
    destruct (ciReadOps c); cbn [negb]; [|by eexists]. rewrite Hv, Z.eqb_refl.
    destruct (normalizeKworManagedOperations (Operations file)); [by apply elem_of_nil in Hid|by eexists]. }
  destruct d as [m|]; cbn [clearKworLifecycleRuntimeArtifactsLocked]; [|by eexists].
  destruct (ciReadDir c); [|by eexists]. destruct (recognised _); by eexists.
Qed.

(** The unlocked part removes lock files, and the directory when it is empty. *)
Lemma finish_entry c n e d :
  entryAt n d = Some e -> n ∉ lockFiles ->
  (exists err, (finishKworLifecycleRuntimeCleanup c d).1 = Err err) /\
  entryAt n (finishKworLifecycleRuntimeCleanup c d).2 = Some e.
Proof.
  intros He Hn. unfold finishKworLifecycleRuntimeCleanup.
  destruct (removeLockFiles_entry c n lockFiles d) as [E|[? _]]; [|done]. rewrite He in E.
  destruct (removeLockFiles c lockFiles d) as [[[]|err] [m|]]; cbn [snd] in E; try done; [|by eauto].
  destruct (ciReadDir c); simpl; [|by eauto].
  rewrite bool_decide_eq_false_2; [by eauto|]. intros ->. simpl in E. by rewrite (lookup_empty (M:=gmap string)) in E.
Qed.

Lemma finish_cases c n d :
  entryAt n (finishKworLifecycleRuntimeCleanup c d).2 = entryAt n d \/
  entryAt n (finishKworLifecycleRuntimeCleanup c d).2 = None.
Proof.
  unfold finishKworLifecycleRuntimeCleanup.
  pose proof (removeLockFiles_entry c n lockFiles d) as H.
  destruct (removeLockFiles c lockFiles d) as [[[]|err] [m|]]; cbn [snd] in *; try tauto.
  destruct (ciReadDir c); simpl; [|tauto]. destruct (bool_decide _); simpl; [|tauto].
  destruct (ciRemoveDir c); simpl; [by right|tauto].
Qed.

Lemma finish_ok_gone c d d' : finishKworLifecycleRuntimeCleanup c d = (Ok tt, d') -> d' = None.
Proof.
  unfold finishKworLifecycleRuntimeCleanup.
  destruct (removeLockFiles c lockFiles d) as [[[]|err] [m|]]; try done; [|by intros [= <-]].
  destruct (ciReadDir c); [|done]. destruct (bool_decide _); [|done].
  destruct (ciRemoveDir c); [|done]. simpl. destruct (ciSync c); [by intros [= <-]|done].
Qed.

(** C24: Cleaning up after an uninstall removes nothing it does not know and
    forgets no operation, whatever file operations fail.  A file with an
    unknown name, or an operation still recorded, makes it fail with
    everything but the lock file as it was; a file another process adds
    before the second part survives and makes it fail; when it succeeds the
    directory is gone.  For the uninstall state it is one atomic step: the
    file is untouched, or removed. *)
Theorem runtime_cleanup_safe st c1 unlocked other c2 d r d' :
  ClearKworUninstallLifecycle st c1 unlocked other c2 d = (r, d') ->
  let d0 := (acquireKworLifecycleMetadataLock st d).2 in
  (forall n e, entryAt n d = Some e -> n ∉ runtimeNames -> r <> Ok tt /\ d' = d0) /\
  (forall id, recorded (opsView d) id -> r <> Ok tt /\ d' = d0) /\
  (forall d1 n e, entryAt n d1 = Some e -> n ∉ runtimeNames ->
     (finishKworLifecycleRuntimeCleanup c2 d1).1 <> Ok tt /\
     entryAt n (finishKworLifecycleRuntimeCleanup c2 d1).2 = Some e) /\
  (r = Ok tt -> d' = None) /\
  ((forall x, other x = x) -> forall o h now,
     stateView d' = stateView d \/ stateView d' = stepU o h now UClear (stateView d)).
Proof.
  intros Hrun d0.
  assert (forall n, n <> kworLifecycleMetadataLockName -> entryAt n d0 = entryAt n d) as H0
    by (intros; by apply acquire_entry).
  unfold ClearKworUninstallLifecycle in Hrun. fold d0 in Hrun.
  destruct (acquireKworLifecycleMetadataLock st d) as [locked d0'] eqn:Ea. cbn [snd] in d0. subst d0.
  split_and!.
  - intros n e He Hn. destruct locked; cbn [negb] in Hrun; [|by injection Hrun as <- <-].
    rewrite <- H0 in He by set_solver. destruct (clear_foreign c1 n e d0' He Hn) as (err & E).
    rewrite E in Hrun. by injection Hrun as <- <-.
  - intros id Hid. destruct locked; cbn [negb] in Hrun; [|by injection Hrun as <- <-].
    assert (opsView d0' = opsView d) as Ho by (unfold opsView; by rewrite H0).
    rewrite <- Ho in Hid. destruct (clear_recorded c1 id d0' Hid) as (err & E).
    rewrite E in Hrun. by injection Hrun as <- <-.
  - intros d1 n e He Hn. destruct (finish_entry c2 n e d1 He) as [(err & ->) ?]; [|done].
    unfold runtimeNames in Hn. set_solver.
  - intros ->. destruct locked; cbn [negb] in Hrun; [|done].
    destruct (clearKworLifecycleRuntimeArtifactsLocked c1 d0') as [[[]|] d1]; [|done].
    destruct unlocked; cbn [negb] in Hrun; [|done]. by eapply finish_ok_gone.
  - intros Hother o h now. simpl.
    assert (entryAt kworLifecycleStateFileName d' = entryAt kworLifecycleStateFileName d \/
            entryAt kworLifecycleStateFileName d' = None) as [E|E];
      [|left; unfold stateView; by rewrite E|right; unfold stateView; by rewrite E].
    rewrite <- (H0 kworLifecycleStateFileName) by done.
    destruct locked; cbn [negb] in Hrun; [|injection Hrun as <- <-; by left].
    pose proof (clear_entry c1 kworLifecycleStateFileName d0') as Hc.
    destruct (clearKworLifecycleRuntimeArtifactsLocked c1 d0') as [[[]|] d1]; cbn [snd] in Hc;
      [|injection Hrun as <- <-; tauto].
    destruct unlocked; cbn [negb] in Hrun; [|injection Hrun as <- <-; tauto].
    rewrite Hother in Hrun. pose proof (finish_cases c2 kworLifecycleStateFileName d1) as Hf.
    rewrite Hrun in Hf. cbn [snd] in Hf. destruct Hf as [->| ->]; tauto.
Qed.

(** A finished uninstall, and one that finds a record of a running operation. *)
Definition demoDir (ops : list KworManagedOperationRecord) : runtimeDir :=
  Some (<[kworLifecycleStateFileName := Regular (StateContent (emptyState 1))]>
       (<[kworLifecycleOperationsFileName := Regular (OpsContent (mkOpsFile 1 ops))]>
       {[kworLifecycleControlSocketName := Socket]})).
Definition demoOp : KworManagedOperationRecord := mkOp "panel-update-1" "panel-update" 0 0 0 "" false 0 5.

Lemma runtime_cleanup_safe_witness :
  ClearKworUninstallLifecycle LockTaken calmCleanIo true id calmCleanIo (demoDir []) = (Ok tt, None) /\
  (ClearKworUninstallLifecycle LockTaken calmCleanIo true id calmCleanIo (demoDir [demoOp])).1 <> Ok tt /\
  (ClearKworUninstallLifecycle LockTaken calmCleanIo true id calmCleanIo (demoDir [demoOp])).2
    = makeLockFile (demoDir [demoOp]).
Proof.
  split; [vm_compute; reflexivity|].
  destruct (runtime_cleanup_safe LockTaken calmCleanIo true id calmCleanIo (demoDir [demoOp])
              _ _ (surjective_pairing _)) as (_ & Hrec & _).
  apply (Hrec "panel-update-1"). exists (mkOpsFile 1 [demoOp]).
  split; [reflexivity|]. split; [reflexivity|]. vm_compute. constructor.
Defined.

(** ** The metadata lock

    A thread is a process and a number.  [acquireKworLifecycleFileLock] takes
    the mutex of its process, opens the lock file, which it creates when the
    path names none, and waits for [flock] on that file, an inode here.  The
    clean-up unlinks the path without holding the lock. *)

Definition thread : Type := nat * nat.

Inductive lockPc : Type :=
| LkOpen                 (* holds kworLifecycleFileMu *)
| LkFlock (inode : nat)  (* has the file open *)
| LkHold (inode : nat)   (* returned: the caller is in its critical section *)
| LkUnlock.              (* released flock *)

Record lockState : Type := mkLock {
  lkMu : gmap nat nat;           (* kworLifecycleFileMu of a process, and its owner *)
  lkPath : option nat;           (* the inode metadata.lock names *)
  lkFlock : gmap nat thread;
  lkNext : nat;
  lkPc : gmap thread lockPc }.

Definition lkGoto (th : thread) (p : lockPc) (s : lockState) : lockState :=
  mkLock (lkMu s) (lkPath s) (lkFlock s) (lkNext s) (<[th:=p]> (lkPc s)).

(** The end of a call: the file is closed and the mutex released. *)
Definition lkLeave (th : thread) (s : lockState) : lockState :=
  mkLock (delete th.1 (lkMu s)) (lkPath s) (lkFlock s) (lkNext s) (delete th (lkPc s)).

(** [fails]: opening the file, or [flock], returns an error. *)
Definition acquireKworLifecycleFileLock (fails : bool) (th : thread) (s : lockState) : lockState :=
  match lkPc s !! th with
  | None =>
      match lkMu s !! th.1 with
      | Some _ => s
      | None => lkGoto th LkOpen (mkLock (<[th.1:=th.2]> (lkMu s)) (lkPath s) (lkFlock s) (lkNext s) (lkPc s))
      end
  | Some LkOpen =>
      if fails then lkLeave th s
      else match lkPath s with
           | Some i => lkGoto th (LkFlock i) s
           | None => lkGoto th (LkFlock (lkNext s))
                       (mkLock (lkMu s) (Some (lkNext s)) (lkFlock s) (S (lkNext s)) (lkPc s))
           end
  | Some (LkFlock i) =>
      if fails then lkLeave th s
      else match lkFlock s !! i with
           | Some _ => s
           | None => lkGoto th (LkHold i) (mkLock (lkMu s) (lkPath s) (<[i:=th]> (lkFlock s)) (lkNext s) (lkPc s))
           end
  | Some (LkHold _) | Some LkUnlock => s
  end.

(** The function it returns. *)
Definition releaseKworLifecycleFileLock (th : thread) (s : lockState) : lockState :=
  match lkPc s !! th with
  | Some (LkHold i) =>
      lkGoto th LkUnlock (mkLock (lkMu s) (lkPath s) (delete i (lkFlock s)) (lkNext s) (lkPc s))
  | Some LkUnlock => lkLeave th s
  | _ => s
  end.

Definition unlinkLock (s : lockState) : lockState :=
  mkLock (lkMu s) None (lkFlock s) (lkNext s) (lkPc s).

Definition initialLock : lockState := mkLock ∅ None ∅ 0 ∅.

(** Runs of any threads of any processes, before the clean-up. *)
Inductive lockRun : lockState -> Prop :=
| lock_init : lockRun initialLock
| lock_acquire s fails th : lockRun s -> lockRun (acquireKworLifecycleFileLock fails th s)
| lock_release s th : lockRun s -> lockRun (releaseKworLifecycleFileLock th s).

Record lockInv (s : lockState) : Prop := {
  li_mu : forall (th : thread) p, lkPc s !! th = Some p -> lkMu s !! th.1 = Some th.2;
  li_path : forall (th : thread) i, lkPc s !! th = Some (LkFlock i) \/ lkPc s !! th = Some (LkHold i) -> lkPath s = Some i;
  li_hold : forall (th : thread) i, lkPc s !! th = Some (LkHold i) <-> lkFlock s !! i = Some th }.

Lemma goto_inv (th : thread) p s s' :
  lockInv s -> (forall th' : thread, th' <> th -> lkPc s' !! th' = lkPc s !! th') -> lkPc s' !! th = Some p ->
  (lkMu s' = lkMu s /\ is_Some (lkPc s !! th) \/ lkMu s !! th.1 = None /\ lkMu s' = <[th.1:=th.2]> (lkMu s)) ->
  (lkPath s' = lkPath s \/ lkPath s = None) ->
  (forall i, p = LkFlock i \/ p = LkHold i -> lkPath s' = Some i) ->
  (forall (th' : thread) i, th' <> th -> lkFlock s' !! i = Some th' <-> lkFlock s !! i = Some th') ->
  (forall i, p = LkHold i <-> lkFlock s' !! i = Some th) ->
  lockInv s'.
Proof.
  intros [Hmu Hpath Hhold] Hpc Hp Hm Hpath' Hpi Hfl Hth. split.
  - intros th' q Hq. destruct Hm as [[-> [q0 Hq0]]|[Hnone ->]].
    + destruct (decide (th' = th)) as [->|Hne]; [by eapply Hmu|]. rewrite Hpc in Hq by done. by eapply Hmu.
    + destruct (decide (th' = th)) as [->|Hne]; [apply lookup_insert_eq|]. rewrite Hpc in Hq by done.
      apply Hmu in Hq. rewrite lookup_insert_ne; [done|]. intros E. by rewrite E, Hq in Hnone.
  - intros th' i Hi. destruct (decide (th' = th)) as [->|Hne].
    + apply Hpi. rewrite !Hp in Hi. destruct Hi as [[= ->]|[= ->]]; [by left|by right].
    + rewrite !Hpc in Hi by done. apply Hpath in Hi. destruct Hpath' as [->|E]; congruence.
  - intros th' i. destruct (decide (th' = th)) as [->|Hne].
    + rewrite Hp, <- Hth. split; [by intros [= ->]|by intros ->].
    + rewrite Hpc by done. rewrite Hfl by done. apply Hhold.
Qed.

Lemma leave_inv (th : thread) p s :
  lockInv s -> lkPc s !! th = Some p -> (forall i, p <> LkHold i) -> lockInv (lkLeave th s).
Proof.
  intros [Hmu Hpath Hhold] Hp Hno.
  assert (forall (th' : thread) q, delete th (lkPc s) !! th' = Some q -> th' <> th /\ lkPc s !! th' = Some q) as Hdel.
  { intros th' q. rewrite lookup_delete_Some. naive_solver. }
  split; simpl.
  - intros th' q [Hne Hq]%Hdel. pose proof (Hmu _ _ Hq) as H1. pose proof (Hmu _ _ Hp) as H2.
    rewrite lookup_delete_ne; [done|]. intros E. rewrite E in H2. apply Hne.
    destruct th, th'; simpl in *; congruence.
  - intros th' i [[_ Hq]%Hdel|[_ Hq]%Hdel]; eapply Hpath; eauto.
  - intros th' i. rewrite <- Hhold. split; [by intros [_ Hq]%Hdel|]. intros Hq.
    rewrite lookup_delete_ne; [done|]. intros <-. rewrite Hp in Hq. injection Hq as ->. by eapply Hno.
Qed.

Lemma lockRun_inv s : lockRun s -> lockInv s.
Proof.
  induction 1 as [|s fails th Hr IH|s th Hr IH].
  - split; simpl; [by intros ??|intros ?? [?|?]; done|by intros ??].
  - unfold acquireKworLifecycleFileLock. destruct (lkPc s !! th) as [[|i|i|]|] eqn:E.
    + destruct fails; [by eapply leave_inv|]. destruct (lkPath s) as [i|] eqn:Ep.
      * eapply (goto_inv th (LkFlock i) s); simpl; try done.
        -- intros; by apply lookup_insert_ne.
        -- apply lookup_insert_eq.
        -- left. by rewrite E.
        -- by left.
        -- intros j [[= <-]|?]; done.
        -- intros j. split; [done|]. rewrite <- (li_hold _ IH), E. done.
      * eapply (goto_inv th (LkFlock (lkNext s)) s); simpl; try done.
        -- intros; by apply lookup_insert_ne.
        -- apply lookup_insert_eq.
        -- left. by rewrite E.
        -- by right.
        -- intros j [[= <-]|?]; done.
        -- intros j. split; [done|]. rewrite <- (li_hold _ IH), E. done.
    + destruct fails; [by eapply leave_inv|]. destruct (lkFlock s !! i) as [o|] eqn:Ef; [done|].
      eapply (goto_inv th (LkHold i) s); simpl; try done.
      * intros; by apply lookup_insert_ne.
      * apply lookup_insert_eq.
      * left. by rewrite E.
      * by left.
      * intros j [?|[= <-]]; [done|]. apply (li_path _ IH th). by left.
      * intros th' j Hne. destruct (decide (j = i)) as [->|Hj]; [rewrite lookup_insert_eq; naive_solver|].
        by rewrite lookup_insert_ne.
      * intros j. destruct (decide (j = i)) as [->|Hj]; [by rewrite lookup_insert_eq|].
        rewrite lookup_insert_ne by done. rewrite <- (li_hold _ IH), E. naive_solver.
    + done.
    + done.
    + destruct (lkMu s !! th.1) eqn:Em; [done|].
      eapply (goto_inv th LkOpen s); simpl; try done.
      * intros; by apply lookup_insert_ne.
      * apply lookup_insert_eq.
      * by right.
      * by left.
      * by intros i [?|?].
      * intros j. split; [done|]. rewrite <- (li_hold _ IH), E. done.
  - unfold releaseKworLifecycleFileLock. destruct (lkPc s !! th) as [[|i|i|]|] eqn:E; [done..| | |done].
    + pose proof (proj1 (li_hold _ IH th i) E) as Hf.
      eapply (goto_inv th LkUnlock s); simpl; try done.
      * intros; by apply lookup_insert_ne.
      * apply lookup_insert_eq.
      * left. by rewrite E.
      * by left.
      * by intros j [?|?].
      * intros th' j Hne. destruct (decide (j = i)) as [->|Hj];
          [rewrite lookup_delete_eq; naive_solver|by rewrite lookup_delete_ne].
      * intros j. split; [done|]. rewrite lookup_delete_Some, <- (li_hold _ IH), E. naive_solver.
    + by eapply leave_inv.
Qed.

(** The lock of the runtime directory excludes.  Among all threads of all
    processes at most one is between the acquisition and the release, and it
    holds the file the path names; a thread of the same process is not even
    past the mutex; and a thread that waits for the file either gets it with
    its next step or waits for a thread that holds it. *)
Theorem metadata_lock_exclusive s :
  lockRun s ->
  (forall (th th' : thread) i i', lkPc s !! th = Some (LkHold i) -> lkPc s !! th' = Some (LkHold i') ->
     th = th' /\ lkPath s = Some i) /\
  (forall th th' : thread, is_Some (lkPc s !! th) -> is_Some (lkPc s !! th') -> th.1 = th'.1 -> th = th') /\
  (forall (th : thread) i, lkPc s !! th = Some (LkFlock i) ->
     lkPc (acquireKworLifecycleFileLock false th s) !! th = Some (LkHold i) \/
     exists th' : thread, lkPc s !! th' = Some (LkHold i)).
Proof.
  intros [Hmu Hpath Hhold]%lockRun_inv. split_and!.
  - intros th th' i i' H1 H2. assert (lkPath s = Some i) as E1 by (eapply Hpath; eauto).
    assert (lkPath s = Some i') as E2 by (eapply Hpath; eauto). rewrite E1 in E2. injection E2 as <-.
    apply Hhold in H1, H2. split; [congruence|done].
  - intros [p t] [p' t'] [q Hq] [q' Hq'] E. simpl in E. subst p'.
    apply Hmu in Hq, Hq'. simpl in *. congruence.
  - intros th i Hi. unfold acquireKworLifecycleFileLock. rewrite Hi.
    destruct (lkFlock s !! i) as [th'|] eqn:E; [right; exists th'; by apply Hhold|left]. apply lookup_insert_eq.
Qed.

Definition acquireSteps (th : thread) (k : nat) (s : lockState) : lockState :=
  Nat.iter k (acquireKworLifecycleFileLock false th) s.

Lemma acquireSteps_run th k s : lockRun s -> lockRun (acquireSteps th k s).
Proof. intros H. induction k as [|k IH]; [done|]. by apply lock_acquire. Qed.

Lemma metadata_lock_exclusive_witness :
  let s := acquireSteps (2, 1)%nat 3 (acquireSteps (1, 1)%nat 3 initialLock) in
  lkPc s !! (1, 1)%nat = Some (LkHold 0) /\ lkPc s !! (2, 1)%nat = Some (LkFlock 0) /\
  lkPath s = Some 0%nat.
Proof.
  intros s. assert (lkPc s !! (1, 1)%nat = Some (LkHold 0)) as E by reflexivity.
  split; [exact E|]. split; [reflexivity|].
  assert (lockRun s) as Hr by (apply acquireSteps_run, acquireSteps_run, lock_init).
  exact (proj2 (proj1 (metadata_lock_exclusive s Hr) _ _ _ _ E E)).
Defined.

(** The clean-up breaks the lock: a process that waited for the file before it
    was unlinked and one that comes after both hold a lock. *)
Lemma unlinked_lock_not_exclusive :
  let waiting := acquireSteps (2, 1)%nat 2 (acquireSteps (1, 1)%nat 3 initialLock) in
  let released := releaseKworLifecycleFileLock (1, 1)%nat (releaseKworLifecycleFileLock (1, 1)%nat waiting) in
  let s := acquireSteps (3, 1)%nat 3 (acquireSteps (2, 1)%nat 1 (unlinkLock released)) in
  lockRun released /\
  lkPc s !! (2, 1)%nat = Some (LkHold 0) /\ lkPc s !! (3, 1)%nat = Some (LkHold 1).
Proof.
  intros waiting released s. split; [|split; reflexivity].
  apply lock_release, lock_release, acquireSteps_run, acquireSteps_run, lock_init.
Qed.
