(* ===== verification/DownloadTasks.v ===== *)
(** * Managed download tasks ([service/managed_download_task.go])

    A manager keeps one active task per resource and the snapshots of
    finished ones for a while.  The worker that owns a task moves it through
    its phases, a browser may ask for a stop, timers end it and forget it, and
    a shutdown of the panel cancels its context from outside.

    All methods run under the manager's mutex up to their last unlock; what
    they do after it (cancelling the context, releasing the operation) and
    the callbacks of timers that have fired are pending actions of the world,
    executed at any later time.  So every interleaving of workers, requests
    and timers is a sequence of events here.  [BeginKworManagedOperation] is
    called inside [Start]; its outcome is an input of the event (it is
    modelled in [Lifecycle]).  Times are nanoseconds since 1970. *)

From S2P Require Import Prelude GoStrings.
From stdpp Require Import base gmap sets list strings.
From Stdlib Require Import ZArith Lia.

#[local] Open Scope Z_scope.

(** ** Data *)

Definition nanosecondsPerSecond : Z := 1000000000.
Definition managedDownloadTaskDeadline : Z := 20 * 60 * nanosecondsPerSecond.
Definition managedDownloadTaskTTL : Z := 30 * 60 * nanosecondsPerSecond.

Inductive taskState : Type :=
| Queued | Running | Stopping | Cancelled | TimedOut | Success | Failed | Idle.
#[global] Instance taskState_eq_dec : EqDecision taskState.
Proof. solve_decision. Defined.

Record ManagedDownloadTaskStatus : Type := mkStatus {
  ID : string;
  State : taskState;
  Phase : string;
  CanCancel : bool;
  StopRequested : bool;
  DeadlineExceeded : bool;
  StartedAt : Z;
  UpdatedAt : Z;
  DeadlineAt : Z;
  FinishedAt : Z;
  Error : string }.

(** The status of "no task". *)
Definition idleStatus : ManagedDownloadTaskStatus :=
  mkStatus "" Idle "" false false false 0 0 0 0 "".

(** [task.cancel != nil], the operation handle when the task still owns it,
    and the times at which the two timers fire when they are armed. *)
Record managedDownloadTask : Type := mkTask {
  status : ManagedDownloadTaskStatus;
  fingerprint : string;
  cancel : bool;
  operation : option string;
  deadline : option Z;
  expires : option Z;
  timeoutStop : bool;
  irreversible : bool }.

Record ManagedDownloadTaskManager : Type := mkManager {
  name : string;
  managerDeadline : Z;
  terminalTTL : Z;
  tasks : gmap string managedDownloadTask;
  activeID : string;
  latestID : string }.

(** What a method does after it has released the mutex, and timer callbacks. *)
Inductive action : Type :=
| ACancel (id : string)            (* cancel() of the task's context *)
| ADone (op : string)              (* operation.Done() *)
| ADetach (op : string)            (* operation.Detach() *)
| AStopOnDeadline (id : string)    (* the deadline timer's callback *)
| AExpire (id : string).           (* the expiry timer's callback *)

Record world : Type := mkWorld {
  mgr : ManagedDownloadTaskManager;
  cancelled : gset string;         (* contexts with ctx.Err() != nil *)
  pending : list action;
  released : list action;          (* the ADone and ADetach calls made so far *)
  started : gset string }.         (* the ids of all tasks ever created *)

Inductive terr : Type :=
| ErrKind                          (* the operation kind is empty *)
| ErrBusy (name : string)          (* another task is active *)
| ErrBegin                         (* BeginKworManagedOperation failed *)
| ErrTaskId                        (* the task id is empty *)
| ErrNotStoppable.

Definition NewManagedDownloadTaskManagerWithOptions (name : string) (optDeadline optTTL : Z)
  : ManagedDownloadTaskManager :=
  mkManager (trim_space name)
    (if optDeadline <=? 0 then managedDownloadTaskDeadline else optDeadline)
    (if optTTL <=? 0 then managedDownloadTaskTTL else optTTL) ∅ "" "".

Definition NewManagedDownloadTaskManager (name : string) : ManagedDownloadTaskManager :=
  NewManagedDownloadTaskManagerWithOptions name 0 0.

Definition taskDeadline (m : ManagedDownloadTaskManager) : Z :=
  if managerDeadline m <=? 0 then managedDownloadTaskDeadline else managerDeadline m.
Definition taskTerminalTTL (m : ManagedDownloadTaskManager) : Z :=
  if terminalTTL m <=? 0 then managedDownloadTaskTTL else terminalTTL m.

Definition isManagedDownloadTaskTerminal (s : taskState) : bool :=
  match s with
  | Cancelled | TimedOut | Success | Failed => true
  | _ => false
  end.

Definition firstManagedDownloadTaskName (name fallback : string) : string :=
  if String.eqb (trim_space name) "" then fallback else trim_space name.

Definition unix (now : Z) : Z := now / nanosecondsPerSecond.

Definition withTasks (ts : gmap string managedDownloadTask) (m : ManagedDownloadTaskManager)
  : ManagedDownloadTaskManager :=
  mkManager (name m) (managerDeadline m) (terminalTTL m) ts (activeID m) (latestID m).
Definition withIDs (active latest : string) (m : ManagedDownloadTaskManager) : ManagedDownloadTaskManager :=
  mkManager (name m) (managerDeadline m) (terminalTTL m) (tasks m) active latest.

(** ** Expiry *)

(** [now.Sub(t)], which saturates. *)
Definition timeSub (now t : Z) : Z := Z.max min_i64 (Z.min max_i64 (now - t)).

Definition expiredTask (m : ManagedDownloadTaskManager) (now : Z) (task : managedDownloadTask) : bool :=
  isManagedDownloadTaskTerminal (State (status task)) && negb (FinishedAt (status task) =? 0) &&
  negb (timeSub now (FinishedAt (status task) * nanosecondsPerSecond) <=? taskTerminalTTL m).

(** The loop over the map deletes the expired tasks, in any order. *)
Definition pruneExpiredLocked (now : Z) (m : ManagedDownloadTaskManager) : ManagedDownloadTaskManager :=
  let gone := match tasks m !! latestID m with
              | Some task => expiredTask m now task
              | None => false
              end in
  withIDs (activeID m) (if gone then "" else latestID m)
    (withTasks (filter (fun row => expiredTask m now row.2 = false) (tasks m)) m).

Definition expire (id : string) (m : ManagedDownloadTaskManager) : ManagedDownloadTaskManager :=
  match tasks m !! id with
  | None => m
  | Some task =>
      if negb (isManagedDownloadTaskTerminal (State (status task))) then m
      else withIDs (activeID m) (if String.eqb (latestID m) id then "" else latestID m)
             (withTasks (delete id (tasks m)) m)
  end.

(** ** [Start] *)

Definition newTask (m : ManagedDownloadTaskManager) (now : Z) (id fp : string) : managedDownloadTask :=
  mkTask (mkStatus id Queued "preparing" true false false (unix now) (unix now)
                   (unix (now + taskDeadline m)) 0 "")
         fp true (Some id) (Some (now + taskDeadline m)) None false false.

(** [begin]: the id of the operation that began, if it did.  The result is the
    handle's id, the status, and whether a task was created. *)
Definition Start (now : Z) (operationKind fp : string) (begin : option string)
  (m : ManagedDownloadTaskManager)
  : res terr (string * ManagedDownloadTaskStatus * bool) * ManagedDownloadTaskManager :=
  let fp := trim_space fp in
  let operationKind := trim_space operationKind in
  if String.eqb operationKind "" then (Err ErrKind, m)
  else
    let m := pruneExpiredLocked now m in
    match tasks m !! activeID m with
    | Some active =>
        if String.eqb (fingerprint active) fp
        then (Ok (ID (status active), status active, false), m)
        else (Err (ErrBusy (firstManagedDownloadTaskName (name m) operationKind)), m)
    | None =>
        match begin with
        | None => (Err ErrBegin, m)
        | Some id =>
            let task := newTask m now id fp in
            (Ok (id, status task, true), withIDs id id (withTasks (<[id:=task]> (tasks m)) m))
        end
    end.

(** ** The worker's methods *)

Definition updateTask (now : Z) (phase : string) (canCancel applying : bool) (task : managedDownloadTask)
  : managedDownloadTask :=
  let st := status task in
  let irr := if applying then true else irreversible task in
  let can := if applying then false else if irreversible task then false else canCancel in
  mkTask (mkStatus (ID st) (match State st with Queued => Running | s => s end)
                   (if String.eqb phase "" then Phase st else phase) can (StopRequested st)
                   (DeadlineExceeded st) (StartedAt st) (unix now) (DeadlineAt st) (FinishedAt st) (Error st))
         (fingerprint task) (cancel task) (operation task) (deadline task) (expires task)
         (timeoutStop task) irr.

(** [ctxErr]: [task.ctx.Err() != nil]. *)
Definition update (now : Z) (id phase : string) (canCancel applying ctxErr : bool)
  (m : ManagedDownloadTaskManager) : bool * ManagedDownloadTaskManager :=
  let phase := trim_space phase in
  match tasks m !! id with
  | None => (false, m)
  | Some task =>
      if bool_decide (State (status task) = Stopping) || isManagedDownloadTaskTerminal (State (status task)) || ctxErr
      then (false, m)
      else (true, withTasks (<[id:=updateTask now phase canCancel applying task]> (tasks m)) m)
  end.

Definition MarkRunning (now : Z) (id phase : string) := update now id phase true false.
Definition BeginApplying (now : Z) (id phase : string) := update now id phase false true.
Definition SetPhase (now : Z) (id phase : string) (canCancel : bool) := update now id phase canCancel false.

(** The state and message a task ends with; [None] is the choice of
    [FinishCancelled]. *)
Definition finishOutcome (state : option taskState) (message : string) (task : managedDownloadTask)
  : taskState * string :=
  match State (status task), state with
  | Stopping, _ | _, None =>
      if timeoutStop task
      then (TimedOut, if String.eqb message "" then "download task timed out" else message)
      else (Cancelled, if String.eqb message "" then "download task was stopped" else message)
  | _, Some st => (st, message)
  end.

Definition finishTask (now : Z) (ttl : Z) (state : option taskState) (phase message : string)
  (task : managedDownloadTask) : managedDownloadTask :=
  let st := status task in
  let '(state, message) := finishOutcome state message task in
  mkTask (mkStatus (ID st) state (if String.eqb phase "" then Phase st else phase) false (StopRequested st)
                   (DeadlineExceeded st) (StartedAt st) (unix now) (DeadlineAt st) (unix now) message)
         (fingerprint task) false None None (Some (now + ttl)) (timeoutStop task) (irreversible task).

(** The result lists what is left to do: the context is cancelled under the
    mutex, the operation released after it. *)
Definition finish (now : Z) (id : string) (state : option taskState) (phase message : string)
  (m : ManagedDownloadTaskManager) : ManagedDownloadTaskManager * bool * list action :=
  let phase := trim_space phase in
  let message := trim_space message in
  match tasks m !! id with
  | None => (m, false, [])
  | Some task =>
      if isManagedDownloadTaskTerminal (State (status task)) then (m, false, [])
      else
        let m' := withTasks (<[id:=finishTask now (taskTerminalTTL m) state phase message task]> (tasks m)) m in
        (withIDs (if String.eqb (activeID m) id then "" else activeID m) (latestID m) m',
         cancel task,
         match operation task with Some op => [ADone op] | None => [] end)
  end.

Definition FinishSuccess (now : Z) (id phase : string) := finish now id (Some Success) phase "".
Definition FinishError (now : Z) (id phase : string) (err : option string) :=
  finish now id (Some Failed) phase (match err with Some e => trim_space e | None => "" end).
Definition FinishCancelled (now : Z) (id phase : string) := finish now id None phase "".

(** A recovered panic ends the task with an error. *)
Definition finishManagedDownloadTaskPanic (now : Z) (id phase taskName recovered : string) :=
  let taskName := if String.eqb (trim_space taskName) "" then "managed download" else trim_space taskName in
  FinishError now id phase (Some (taskName +:+ " task panicked: " +:+ recovered)).

Definition dropOperation (task : managedDownloadTask) : managedDownloadTask :=
  mkTask (status task) (fingerprint task) (cancel task) None (deadline task) (expires task)
         (timeoutStop task) (irreversible task).

Definition DetachOperation (id : string) (m : ManagedDownloadTaskManager)
  : ManagedDownloadTaskManager * list action :=
  match tasks m !! id with
  | None => (m, [])
  | Some task => (withTasks (<[id:=dropOperation task]> (tasks m)) m,
                  match operation task with Some op => [ADetach op] | None => [] end)
  end.

(** ** Stop requests *)

Definition markDeadlineExceeded (now : Z) (task : managedDownloadTask) : managedDownloadTask :=
  let st := status task in
  mkTask (mkStatus (ID st) (State st) (Phase st) (CanCancel st) (StopRequested st) true (StartedAt st)
                   (unix now) (DeadlineAt st) (FinishedAt st) (Error st))
         (fingerprint task) (cancel task) (operation task) (deadline task) (expires task)
         (timeoutStop task) (irreversible task).

Definition stopTask (now : Z) (timeout : bool) (task : managedDownloadTask) : managedDownloadTask :=
  let st := status task in
  mkTask (mkStatus (ID st) Stopping "stopping" false true (DeadlineExceeded st || timeout) (StartedAt st)
                   (unix now) (DeadlineAt st) (FinishedAt st) (Error st))
         (fingerprint task) (cancel task) (operation task) (deadline task) (expires task)
         (timeoutStop task || timeout) (irreversible task).

Definition requestStop (now : Z) (id : string) (timeout : bool) (m : ManagedDownloadTaskManager)
  : ManagedDownloadTaskStatus * bool * ManagedDownloadTaskManager * list action :=
  let id := trim_space id in
  match tasks m !! id with
  | None => (idleStatus, false, m, [])
  | Some task =>
      let terminal := isManagedDownloadTaskTerminal (State (status task)) in
      if terminal || negb (CanCancel (status task)) then
        let task' := if timeout && negb terminal then markDeadlineExceeded now task else task in
        (status task', false, withTasks (<[id:=task']> (tasks m)) m, [])
      else
        let task' := stopTask now timeout task in
        (status task', true, withTasks (<[id:=task']> (tasks m)) m,
         if cancel task then [ACancel id] else [])
  end.

Definition Stop (now : Z) (id : string) (m : ManagedDownloadTaskManager)
  : res terr ManagedDownloadTaskStatus * ManagedDownloadTaskManager * list action :=
  let id := trim_space id in
  if String.eqb id "" then (Err ErrTaskId, m, [])
  else let '(st, ok, m', acts) := requestStop now id false m in
       (if ok then Ok st else Err ErrNotStoppable, m', acts).

(** ** Queries *)

Definition Get (now : Z) (id : string) (m : ManagedDownloadTaskManager)
  : ManagedDownloadTaskStatus * ManagedDownloadTaskManager :=
  let m := pruneExpiredLocked now m in
  let id := if String.eqb (trim_space id) "" then
              if String.eqb (activeID m) "" then latestID m else activeID m
            else id in
  (match tasks m !! trim_space id with
   | Some task => status task
   | None => idleStatus
   end, m).

Definition IsActive (m : ManagedDownloadTaskManager) : bool :=
  match tasks m !! activeID m with Some _ => true | None => false end.

(** ** Waiting for a mutex and copying, both under the task's context

    [lockManagedDownloadTaskMutex] as a function of what it meets: the
    context and the lock at its start, then what each turn of the [select]
    delivers.  [None] is a wait that has not ended. *)
Inductive lockTurn : Type := CtxDone | Tick (lockFree : bool).
Inductive lockResult : Type := Locked | CtxErr.

Fixpoint lockTurns (turns : list lockTurn) : option lockResult :=
  match turns with
  | [] => None
  | CtxDone :: _ => Some CtxErr
  | Tick true :: _ => Some Locked
  | Tick false :: turns' => lockTurns turns'
  end.

Definition lockManagedDownloadTaskMutex (ctxErr lockFree : bool) (turns : list lockTurn) : option lockResult :=
  if ctxErr then Some CtxErr else if lockFree then Some Locked else lockTurns turns.

(** The copy: [ctx] answers its checks of the context one after the other (no
    answer left means not cancelled); a read delivers bytes and the way it
    ended; a write takes some of the bytes offered (an [io.Writer] never
    takes more) and may fail. *)
Inductive readEnd : Type := ReadMore | ReadEOF | ReadFailed.
Inductive copyErr : Type := CopyCtx | CopyRead | CopyWrite | CopyShort.

Record copyState : Type := mkCopy {
  ctxAnswers : list bool;
  writeResults : list (nat * bool);
  written : list Z }.

Definition ctxCheck (s : copyState) : bool * copyState :=
  match ctxAnswers s with
  | [] => (false, s)
  | b :: l => (b, mkCopy l (writeResults s) (written s))
  end.

(** The inner loop; each turn takes at least one byte, so the number of bytes
    is enough fuel. *)
Fixpoint writeAll (fuel : nat) (remaining : list Z) (s : copyState) : option copyErr * copyState :=
  match remaining, fuel with
  | [], _ | _, O => (None, s)
  | _, S fuel' =>
      let '(cancelled, s) := ctxCheck s in
      if cancelled then (Some CopyCtx, s)
      else
        let '(count, failed, rest) := match writeResults s with
                                      | [] => (length remaining, false, [])
                                      | (c, e) :: l => (Nat.min c (length remaining), e, l)
                                      end in
        let s := mkCopy (ctxAnswers s) rest (written s ++ take count remaining) in
        if failed then (Some CopyWrite, s)
        else if (count =? 0)%nat then (Some CopyShort, s)
        else writeAll fuel' (drop count remaining) s
  end.

Fixpoint copyLoop (source : list (list Z * readEnd)) (s : copyState) : option copyErr * copyState :=
  match source with
  | [] => (None, s)                                  (* a reader at its end *)
  | (bytes, how) :: source' =>
      let '(cancelled, s) := ctxCheck s in
      if cancelled then (Some CopyCtx, s)
      else
        match writeAll (length bytes) bytes s with
        | (Some e, s) => (Some e, s)
        | (None, s) =>
            match how with
            | ReadEOF => (None, s)
            | ReadFailed => (Some CopyRead, s)
            | ReadMore => copyLoop source' s
            end
        end
  end.

(** The count and the error returned, and the bytes that reached the
    destination. *)
Definition copyManagedDownloadTaskContext (ctx : list bool) (source : list (list Z * readEnd))
  (writes : list (nat * bool)) : Z * option copyErr * list Z :=
  let '(cancelled, s) := ctxCheck (mkCopy ctx writes []) in
  if cancelled then (0, Some CopyCtx, [])
  else let '(err, s) := copyLoop source s in (Z.of_nat (length (written s)), err, written s).

(** ** Events *)

Inductive event : Type :=
| EStart (operationKind fp : string) (begin : option string)
| EUpdate (id phase : string) (canCancel applying : bool)
| EFinish (id : string) (state : option taskState) (phase message : string)
| EDetach (id : string)
| EStop (id : string)
| EGet (id : string)
| EShutdown (id : string)          (* the operation's context is cancelled from outside *)
| EDeadline (id : string)          (* an armed deadline timer fires *)
| EExpiry (id : string)            (* an armed expiry timer fires *)
| ERun (k : nat).                  (* the k-th pending action is executed *)

Definition setMgr (m : ManagedDownloadTaskManager) (w : world) : world :=
  mkWorld m (cancelled w) (pending w) (released w) (started w).
Definition addPending (l : list action) (w : world) : world :=
  mkWorld (mgr w) (cancelled w) (pending w ++ l) (released w) (started w).
Definition cancelContext (id : string) (w : world) : world :=
  mkWorld (mgr w) ({[id]} ∪ cancelled w) (pending w) (released w) (started w).

(** A fired timer is no longer armed; its callback is pending. *)
Definition disarm (deadlineTimer : bool) (task : managedDownloadTask) : managedDownloadTask :=
  mkTask (status task) (fingerprint task) (cancel task) (operation task)
         (if deadlineTimer then None else deadline task) (if deadlineTimer then expires task else None)
         (timeoutStop task) (irreversible task).

Definition fireTimer (now : Z) (id : string) (deadlineTimer : bool) (w : world) : world :=
  match tasks (mgr w) !! id with
  | None => w
  | Some task =>
      match (if deadlineTimer then deadline task else expires task) with
      | Some due =>
          if due <=? now then
            addPending [if deadlineTimer then AStopOnDeadline id else AExpire id]
              (setMgr (withTasks (<[id:=disarm deadlineTimer task]> (tasks (mgr w))) (mgr w)) w)
          else w
      | None => w
      end
  end.

Definition runAction (now : Z) (a : action) (w : world) : world :=
  match a with
  | ACancel id => cancelContext id w
  | ADone op =>
      let w := cancelContext op w in
      mkWorld (mgr w) (cancelled w) (pending w) (released w ++ [a]) (started w)
  | ADetach op => mkWorld (mgr w) (cancelled w) (pending w) (released w ++ [a]) (started w)
  | AStopOnDeadline id =>
      let '(_, _, m, acts) := requestStop now id true (mgr w) in addPending acts (setMgr m w)
  | AExpire id => setMgr (expire id (mgr w)) w
  end.

Definition stepW (now : Z) (ev : event) (w : world) : world :=
  match ev with
  | EStart kind fp begin =>
      let '(r, m) := Start now kind fp begin (mgr w) in
      let w := setMgr m w in
      match r with
      | Ok (id, _, true) => mkWorld (mgr w) (cancelled w) (pending w) (released w) ({[id]} ∪ started w)
      | _ => w
      end
  | EUpdate id phase canCancel applying =>
      setMgr (update now id phase canCancel applying (bool_decide (id ∈ cancelled w)) (mgr w)).2 w
  | EFinish id state phase message =>
      let '(m, cancelNow, acts) := finish now id state phase message (mgr w) in
      let w := addPending acts (setMgr m w) in
      if cancelNow then cancelContext id w else w
  | EDetach id => let '(m, acts) := DetachOperation id (mgr w) in addPending acts (setMgr m w)
  | EStop id => let '(_, m, acts) := Stop now id (mgr w) in addPending acts (setMgr m w)
  | EGet id => setMgr (Get now id (mgr w)).2 w
  | EShutdown id => cancelContext id w
  | EDeadline id => fireTimer now id true w
  | EExpiry id => fireTimer now id false w
  | ERun k =>
      match pending w !! k with
      | None => w
      | Some a => runAction now a (mkWorld (mgr w) (cancelled w) (delete k (pending w)) (released w) (started w))
      end
  end.

(** What the code around the manager provides: a new operation has a new
    trimmed id (see [Lifecycle]), and the workers finish with one of the three
    outcomes. *)
Definition eventOk (w : world) (ev : event) : Prop :=
  match ev with
  | EStart _ _ (Some id) => id ∉ started w /\ trim_space id = id /\ id <> ""
  | EFinish _ state _ _ => state = None \/ state = Some Success \/ state = Some Failed
  | _ => True
  end.

Definition initialW (name : string) (optDeadline optTTL : Z) : world :=
  mkWorld (NewManagedDownloadTaskManagerWithOptions name optDeadline optTTL) ∅ [] [] ∅.

Inductive steps (w : world) : world -> Prop :=
| steps_refl : steps w w
| steps_step w' now ev : steps w w' -> eventOk w' ev -> steps w (stepW now ev w').

Definition reachable (w : world) : Prop := exists name d ttl, steps (initialW name d ttl) w.
