(* ===== verification/DownloadTasksCorrect.v ===== *)
(** * What download tasks guarantee

    The invariant of a manager, the monotonicity of a task, and the release
    of its operation, over all event sequences of [DownloadTasks]. *)

From stdpp Require Import base gmap sets list strings.
From Stdlib Require Import ZArith Lia.
From S2P Require Import Prelude GoStrings DownloadTasks.

#[local] Open Scope Z_scope.

Definition terminal (t : managedDownloadTask) : bool := isManagedDownloadTaskTerminal (State (status t)).

(** ** One task *)

Record taskOk (id : string) (t : managedDownloadTask) : Prop := {
  ok_id : ID (status t) = id /\ trim_space id = id /\ id <> "";
  ok_op : operation t = None \/ operation t = Some id;
  ok_state : State (status t) <> Idle;
  ok_terminal : terminal t = true ->
    cancel t = false /\ operation t = None /\ deadline t = None /\ CanCancel (status t) = false;
  ok_open : terminal t = false -> cancel t = true /\ expires t = None /\ FinishedAt (status t) = 0;
  ok_irreversible : irreversible t = true -> CanCancel (status t) = false /\ StopRequested (status t) = false;
  ok_stop : StopRequested (status t) = true ->
    CanCancel (status t) = false /\ State (status t) ∈ [Stopping; Cancelled; TimedOut];
  ok_stopping : State (status t) = Stopping -> StopRequested (status t) = true;
  ok_timeout : timeoutStop t = true -> StopRequested (status t) = true /\ DeadlineExceeded (status t) = true;
  ok_timedout : State (status t) = TimedOut -> timeoutStop t = true }.

(** [t'] is a later state of the task [t]. *)
Record later (t t' : managedDownloadTask) : Prop := {
  lt_final : terminal t = true -> status t' = status t;
  lt_irreversible : irreversible t = true -> irreversible t' = true;
  lt_stop : StopRequested (status t) = true -> StopRequested (status t') = true;
  lt_op : operation t = None -> operation t' = None }.

Lemma later_refl t : later t t.
Proof. done. Qed.

Lemma later_trans t1 t2 t3 : later t1 t2 -> later t2 t3 -> later t1 t3.
Proof.
  intros [F1 I1 S1 O1] [F2 I2 S2 O2]. split; auto.
  intros H. rewrite F2; [by apply F1|]. unfold terminal in *. by rewrite F1.
Qed.

(** The transitions of a task. *)
Inductive tstep (id : string) (t : managedDownloadTask) : managedDownloadTask -> Prop :=
| ts_update now phase can applying :
    terminal t = false -> State (status t) <> Stopping -> tstep id t (updateTask now phase can applying t)
| ts_finish now ttl st phase msg :
    terminal t = false -> (st = None \/ st = Some Success \/ st = Some Failed) ->
    tstep id t (finishTask now ttl st phase msg t)
| ts_drop : tstep id t (dropOperation t)
| ts_mark now : terminal t = false -> CanCancel (status t) = false -> tstep id t (markDeadlineExceeded now t)
| ts_stop now timeout : terminal t = false -> CanCancel (status t) = true -> tstep id t (stopTask now timeout t)
| ts_disarm b : (b = true \/ terminal t = true) -> tstep id t (disarm b t)
| ts_same : tstep id t t.

Lemma finishOutcome_spec st msg t :
  st = None \/ st = Some Success \/ st = Some Failed ->
  let out := (finishOutcome st msg t).1 in
  isManagedDownloadTaskTerminal out = true /\ (out = TimedOut -> timeoutStop t = true) /\
  (State (status t) = Stopping -> out = Cancelled \/ out = TimedOut).
Proof.
  intros Hst. unfold finishOutcome.
  destruct (State (status t)), (timeoutStop t) eqn:E, Hst as [->|[->| ->]]; simpl; naive_solver.
Qed.

Lemma tstep_ok id t t' : taskOk id t -> tstep id t t' -> taskOk id t'.
Proof.
  intros Hok Hs. destruct Hs as [now phase can applying Ht Hns|now ttl st phase msg Ht Hst| |now Ht Hc|now b Ht Hc|b Hb|].
  - destruct Hok as [Hid Hop Hstt Hterm Hopen Hirr Hstop Hstg Hto Htd].
    assert (StopRequested (status t) = false) as Hsr.
    { destruct (StopRequested (status t)) eqn:E; [|done]. destruct (Hstop eq_refl) as [_ Hin].
      unfold terminal in Ht. destruct (State (status t)); set_solver. }
    assert (timeoutStop t = false) as Hts.
    { destruct (timeoutStop t) eqn:E; [|done]. destruct (Hto eq_refl). congruence. }
    assert (match State (status t) with Queued => Running | s => s end = Running) as Hrun.
    { unfold terminal in Ht. by destruct (State (status t)). }
    unfold updateTask. split; unfold terminal; simpl; rewrite ?Hrun, ?Hsr, ?Hts; auto; try done.
    destruct applying, (irreversible t); done.
  - destruct (finishOutcome_spec st msg t Hst) as (Hterm' & Htd' & Hsp').
    destruct Hok as [Hid Hop Hstt Hterm Hopen Hirr Hstop Hstg Hto Htd].
    unfold finishTask. destruct (finishOutcome st msg t) as [out m]. simpl in Hterm', Htd', Hsp'.
    split; unfold terminal in *; simpl; auto.
    + by destruct out.
    + congruence.
    + intros Hi. split; [done|]. by destruct (Hirr Hi).
    + intros Hsr. split; [done|]. destruct (Hstop Hsr) as [_ Hin].
      assert (State (status t) = Stopping) as Hs by (destruct (State (status t)); done || set_solver).
      destruct (Hsp' Hs) as [->| ->]; set_solver.
    + by destruct out.
  - destruct Hok. split; simpl; auto. intros H. destruct (ok_terminal0 H) as (? & ? & ? & ?). auto.
  - destruct Hok. split; simpl; auto; try congruence. intros H. by destruct (ok_timeout0 H).
  - destruct Hok as [Hid Hop Hstt Hterm Hopen Hirr Hstop Hstg Hto Htd].
    split; unfold terminal in *; simpl; auto; try done.
    + intros Hi. destruct (Hirr Hi). congruence.
    + intros _. split; [done|]. by left.
    + intros [Hts|Hts]%orb_true_iff; [destruct (Hto Hts) as [_ ->]|rewrite Hts, orb_true_r]; done.
  - destruct Hok as [Hid Hop Hstt Hterm Hopen Hirr Hstop Hstg Hto Htd].
    split; unfold terminal in *; simpl; auto.
    + intros Ht. destruct (Hterm Ht) as (? & ? & ? & ?). split_and!; auto. by destruct b.
    + intros Ht. destruct (Hopen Ht) as (? & ? & ?). split_and!; auto. destruct Hb as [->|?]; [done|congruence].
  - done.
Qed.

Lemma tstep_later id t t' : taskOk id t -> tstep id t t' -> later t t'.
Proof.
  intros Hok Hs. destruct Hs as [now phase can applying Ht Hns|now ttl st phase msg Ht Hst| |now Ht Hc|now b Ht Hc|b Hb|];
    split; simpl; try done; try congruence.
  - by intros ->; destruct applying.
  - unfold finishTask. destruct (finishOutcome st msg t). done.
  - unfold finishTask. destruct (finishOutcome st msg t). done.
  - unfold finishTask. destruct (finishOutcome st msg t). done.
Qed.

(** ** The manager *)

Record minv (m : ManagedDownloadTaskManager) : Prop := {
  m_task : forall id t, tasks m !! id = Some t -> taskOk id t;
  m_active : forall id t, tasks m !! id = Some t -> terminal t = false -> activeID m = id;
  m_activeID : activeID m = "" \/ exists t, tasks m !! activeID m = Some t /\ terminal t = false;
  m_latestID : latestID m = "" \/ is_Some (tasks m !! latestID m) }.

(** From [m] to [m'] every task stays and evolves, or was terminal and is
    forgotten; only [new] may appear. *)
Record mlater (new : option string) (m m' : ManagedDownloadTaskManager) : Prop := {
  ml_some : forall id t, tasks m !! id = Some t ->
    tasks m' !! id = None /\ terminal t = true \/ exists t', tasks m' !! id = Some t' /\ later t t';
  ml_none : forall id, tasks m !! id = None -> is_Some (tasks m' !! id) -> new = Some id }.

Lemma mlater_refl m : mlater None m m.
Proof. split; [|by intros id -> []]. intros id t Ht. right. by exists t. Qed.

Definition okStep (new : option string) (m m' : ManagedDownloadTaskManager) : Prop :=
  minv m' /\ mlater new m m'.

Lemma insert_later m id t t' a l :
  tasks m !! id = Some t -> later t t' ->
  mlater None m (withIDs a l (withTasks (<[id:=t']> (tasks m)) m)).
Proof.
  intros Ht Hl. split; simpl.
  - intros id0 t0 H0. right. destruct (decide (id = id0)) as [->|Hne].
    + exists t'. rewrite lookup_insert_eq. by simplify_eq.
    + exists t0. by rewrite lookup_insert_ne.
  - intros id0 H0. destruct (decide (id = id0)) as [->|Hne]; [congruence|].
    rewrite lookup_insert_ne by done. rewrite H0. by intros [].
Qed.

Lemma set_ok m id t t' :
  minv m -> tasks m !! id = Some t -> tstep id t t' -> terminal t' = terminal t ->
  okStep None m (withTasks (<[id:=t']> (tasks m)) m).
Proof.
  intros [Hok Hact Haid Hlat] Ht Hs Hterm. pose proof (Hok _ _ Ht) as Htk.
  split; [|exact (insert_later m id t t' (activeID m) (latestID m) Ht (tstep_later id t t' Htk Hs))].
  split; simpl.
  - intros id0 t0. destruct (decide (id = id0)) as [->|Hne].
    + rewrite lookup_insert_eq. intros [= <-]. by apply (tstep_ok id0 t).
    + rewrite lookup_insert_ne by done. apply Hok.
  - intros id0 t0. destruct (decide (id = id0)) as [->|Hne].
    + rewrite lookup_insert_eq. intros [= <-]. rewrite Hterm. by apply Hact.
    + rewrite lookup_insert_ne by done. apply Hact.
  - destruct Haid as [?|(ta & Hta & Hnt)]; [by left|right].
    destruct (decide (id = activeID m)) as [->|Hne].
    + exists t'. rewrite lookup_insert_eq, Hterm. by simplify_eq.
    + exists ta. by rewrite lookup_insert_ne.
  - destruct Hlat as [?|?]; [by left|right]. rewrite lookup_insert_is_Some'. by right.
Qed.

Lemma finish_ok now id st phase msg m :
  minv m -> st = None \/ st = Some Success \/ st = Some Failed ->
  okStep None m (finish now id st phase msg m).1.1.
Proof.
  intros Hinv Hst. unfold finish. cbv zeta. destruct (tasks m !! id) as [t|] eqn:Ht.
  2: { split; [done|apply mlater_refl]. }
  destruct (isManagedDownloadTaskTerminal _) eqn:Eterm; [split; [done|apply mlater_refl]|]. simpl.
  pose proof Hinv as [Hok Hact Haid Hlat]. pose proof (Hok _ _ Ht) as Htk.
  set (t' := finishTask _ _ _ _ _ _). assert (tstep id t t') as Hs by (by apply ts_finish).
  split; [|exact (insert_later m id t t' _ _ Ht (tstep_later id t t' Htk Hs))].
  rewrite (Hact _ _ Ht Eterm), String.eqb_refl.
  assert (terminal t' = true) as Hterm'.
  { destruct (finishOutcome_spec st (trim_space msg) t Hst) as [Hto _]. unfold t', finishTask, terminal.
    by destruct (finishOutcome st (trim_space msg) t). }
  split; simpl.
  - intros id0 t0. destruct (decide (id = id0)) as [->|Hne].
    + rewrite lookup_insert_eq. intros [= <-]. by apply (tstep_ok id0 t).
    + rewrite lookup_insert_ne by done. apply Hok.
  - intros id0 t0. destruct (decide (id = id0)) as [->|Hne].
    + rewrite lookup_insert_eq. intros [= <-]. congruence.
    + rewrite lookup_insert_ne by done. intros H0 Hnt. exfalso. apply Hne.
      rewrite <- (Hact _ _ Ht Eterm). by apply (Hact _ t0).
  - by left.
  - destruct Hlat as [?|?]; [by left|right]. rewrite lookup_insert_is_Some'. by right.
Qed.

Lemma prune_ok now m : minv m -> okStep None m (pruneExpiredLocked now m).
Proof.
  intros [Hok Hact Haid Hlat].
  assert (forall id t, tasks m !! id = Some t -> expiredTask m now t = true -> terminal t = true) as Hexp.
  { intros id t _. unfold expiredTask, terminal. by rewrite !andb_true_iff; intros [[? _] _]. }
  assert (forall id t, tasks (pruneExpiredLocked now m) !! id = Some t <->
            tasks m !! id = Some t /\ expiredTask m now t = false) as Hl.
  { intros id t. simpl. by rewrite map_lookup_filter_Some. }
  split; [split|split].
  - intros id t [? _]%Hl. auto.
  - intros id t [? _]%Hl. by apply Hact.
  - destruct Haid as [?|(t & Ht & Hnt)]; [by left|right]. exists t. split; [|done]. apply Hl. split; [done|].
    destruct (expiredTask m now t) eqn:E; [|done]. rewrite (Hexp _ _ Ht E) in Hnt. done.
  - simpl. destruct (tasks m !! latestID m) as [t|] eqn:E; [|destruct Hlat as [?|[? ?]]; [by left|congruence]].
    destruct (expiredTask m now t) eqn:Ee; [by left|right]. exists t. rewrite map_lookup_filter_Some. done.
  - intros id t Ht. destruct (expiredTask m now t) eqn:E.
    + left. split; [|by eapply Hexp]. destruct (tasks (pruneExpiredLocked now m) !! id) as [t'|] eqn:E'; [|done].
      apply Hl in E' as [? ?]. congruence.
    + right. exists t. split; [by apply Hl|done].
  - intros id Hn [t [? _]%Hl]. congruence.
Qed.

Lemma expire_ok id m : minv m -> okStep None m (expire id m).
Proof.
  intros Hinv. unfold expire. destruct (tasks m !! id) as [t|] eqn:Ht; [|by split; [|apply mlater_refl]].
  destruct (isManagedDownloadTaskTerminal _) eqn:E; simpl; [|by split; [|apply mlater_refl]].
  destruct Hinv as [Hok Hact Haid Hlat]. split; [split; simpl|split; simpl].
  - intros id0 t0 [_ ?]%lookup_delete_Some. auto.
  - intros id0 t0 [_ ?]%lookup_delete_Some. by apply Hact.
  - destruct Haid as [?|(ta & Hta & Hnt)]; [by left|right]. exists ta. split; [|done].
    rewrite lookup_delete_ne; [done|]. intros ->. unfold terminal in Hnt. congruence.
  - destruct (String.eqb_spec (latestID m) id) as [_|Hne]; [by left|].
    destruct Hlat as [?|?]; [by left|right]. by rewrite lookup_delete_ne.
  - intros id0 t0 H0. destruct (decide (id = id0)) as [->|Hne].
    + left. rewrite lookup_delete_eq. split; [done|]. unfold terminal. congruence.
    + right. exists t0. by rewrite lookup_delete_ne.
  - intros id0 Hn [t0 [_ ?]%lookup_delete_Some]. congruence.
Qed.

(** A new task joins after the expired ones were pruned. *)
Lemma start_ok now kind fp begin m :
  minv m -> (forall id, begin = Some id -> tasks m !! id = None /\ trim_space id = id /\ id <> "") ->
  let '(r, m') := Start now kind fp begin m in
  match r with
  | Ok (id, st, true) => begin = Some id /\ okStep (Some id) m m' /\
                         exists t, tasks m' !! id = Some t /\ operation t = Some id
  | _ => okStep None m m'
  end.
Proof.
  intros Hinv Hnew. unfold Start. cbv zeta. destruct (String.eqb _ ""); [by split; [|apply mlater_refl]|].
  pose proof (prune_ok now m Hinv) as Hp. set (m2 := pruneExpiredLocked now m) in *.
  destruct (tasks m2 !! activeID m2) as [ta|] eqn:Ea; [by destruct (String.eqb _ _)|].
  destruct begin as [id|]; [|done]. destruct (Hnew id eq_refl) as (Hfree & Htrim & Hne).
  split; [done|]. destruct Hp as [[Hok Hact Haid Hlat] [Hsome Hnone]].
  assert (activeID m2 = "") as Hempty.
  { destruct Haid as [?|(t & Ht & _)]; [done|]. congruence. }
  assert (tasks m2 !! id = None) as Hfree2.
  { destruct (tasks m2 !! id) eqn:E; [|done].
    assert (None = Some id) as Hbad by (apply Hnone; [done|by rewrite E]). done. }
  split; [split; [split|split]|]; simpl.
  - intros id0 t0. destruct (decide (id = id0)) as [->|Hne0].
    + rewrite lookup_insert_eq. intros [= <-]. split; simpl; try done. by right.
    + rewrite lookup_insert_ne by done. apply Hok.
  - intros id0 t0. destruct (decide (id = id0)) as [->|Hne0]; [done|].
    rewrite lookup_insert_ne by done. intros H0 Hnt. pose proof (Hact _ _ H0 Hnt) as He.
    rewrite Hempty in He. destruct (Hok _ _ H0) as [(_ & _ & ?) _ _ _ _ _ _ _ _ _]. congruence.
  - right. eexists. rewrite lookup_insert_eq. done.
  - right. rewrite lookup_insert_eq. done.
  - intros id0 t0 H0. rewrite lookup_insert_ne by congruence. by apply Hsome.
  - intros id0 H0. destruct (decide (id = id0)) as [->|Hne0]; [done|].
    rewrite lookup_insert_ne by done. intros Hs. by apply Hnone in Hs.
  - eexists. rewrite lookup_insert_eq. done.
Qed.

Lemma update_ok now id phase can applying ctxErr m :
  minv m -> okStep None m (update now id phase can applying ctxErr m).2.
Proof.
  intros Hinv. unfold update. cbv zeta. destruct (tasks m !! id) as [t|] eqn:Ht; [|by split; [|apply mlater_refl]].
  destruct (_ || _) eqn:E; [by split; [|apply mlater_refl]|]. simpl.
  apply orb_false_iff in E as [[Hs%bool_decide_eq_false Hterm]%orb_false_iff _].
  apply (set_ok m id t); [done..|by apply ts_update|]. unfold terminal, updateTask. simpl.
  by destruct (State (status t)).
Qed.

Lemma requestStop_ok now id timeout m : minv m -> okStep None m (requestStop now id timeout m).1.2.
Proof.
  intros Hinv. unfold requestStop. cbv zeta.
  destruct (tasks m !! trim_space id) as [t|] eqn:Ht; [|by split; [|apply mlater_refl]].
  destruct (_ || _) eqn:E; simpl.
  - apply (set_ok m _ t); [done..| |].
    + destruct timeout; [|apply ts_same]. simpl. destruct (isManagedDownloadTaskTerminal _) eqn:Et; [apply ts_same|].
      simpl in E. apply ts_mark; [done|]. by destruct (CanCancel (status t)).
    + by destruct (timeout && _).
  - apply orb_false_iff in E as [Et Ec]. apply (set_ok m _ t); [done..| |].
    + apply ts_stop; [done|]. by destruct (CanCancel (status t)).
    + unfold terminal. by rewrite Et.
Qed.

Lemma stop_ok now id m : minv m -> okStep None m (Stop now id m).1.2.
Proof.
  intros Hinv. unfold Stop. cbv zeta. destruct (String.eqb _ ""); [by split; [|apply mlater_refl]|].
  pose proof (requestStop_ok now (trim_space id) false m Hinv) as H.
  by destruct (requestStop now (trim_space id) false m) as [[[st ok] m'] acts].
Qed.

Lemma detach_ok id m : minv m -> okStep None m (DetachOperation id m).1.
Proof.
  intros Hinv. unfold DetachOperation. destruct (tasks m !! id) as [t|] eqn:Ht; [|by split; [|apply mlater_refl]].
  by apply (set_ok m id t); [..|apply ts_drop|].
Qed.

(** ** The operation of a task *)

Definition owned (id : string) (m : ManagedDownloadTaskManager) : nat :=
  match tasks m !! id with
  | Some t => match operation t with Some _ => 1 | None => 0 end
  | None => 0
  end.

Definition isRelease (id : string) (a : action) : Prop := a = ADone id \/ a = ADetach id.
#[global] Instance isRelease_dec id a : Decision (isRelease id a).
Proof.
  unfold isRelease. destruct a as [x|x|x|x|x]; try (right; intros [?|?]; discriminate).
  - destruct (decide (x = id)) as [->|]; [left; by left|right; intros [?|?]; congruence].
  - destruct (decide (x = id)) as [->|]; [left; by right|right; intros [?|?]; congruence].
Defined.

Definition releases (id : string) (l : list action) : nat := length (filter (isRelease id) l).

Lemma releases_app id l k : releases id (l ++ k) = (releases id l + releases id k)%nat.
Proof. unfold releases. by rewrite filter_app, length_app. Qed.

Lemma releases_nil id : releases id [] = 0%nat.
Proof. done. Qed.

#[global] Instance releases_proper id : Proper (Permutation ==> eq) (releases id).
Proof. intros l k Hlk. unfold releases. by rewrite Hlk. Qed.

Lemma releases_one id op : releases id [ADone op] = (if decide (op = id) then 1 else 0)%nat /\
                           releases id [ADetach op] = (if decide (op = id) then 1 else 0)%nat.
Proof.
  unfold releases. split; rewrite filter_cons; case_decide as H; case_decide; simpl; try done; exfalso;
    unfold isRelease in H; first [by destruct H; congruence|apply H; subst; auto].
Qed.

(** What a step takes from the tasks it hands on as an action. *)
Definition balanced (new : option string) (acts : list action) (m m' : ManagedDownloadTaskManager) : Prop :=
  forall id, (owned id m' + releases id acts = owned id m + if decide (new = Some id) then 1 else 0)%nat.

Lemma balanced_same m m' acts :
  (forall id, owned id m' = owned id m) -> (forall id, releases id acts = 0%nat) -> balanced None acts m m'.
Proof. intros Ho Ha id. rewrite Ho, Ha. case_decide; [done|lia]. Qed.

Lemma set_owned m id t t' :
  tasks m !! id = Some t -> operation t' = operation t ->
  forall i, owned i (withTasks (<[id:=t']> (tasks m)) m) = owned i m.
Proof.
  intros Ht Hop i. unfold owned. simpl. destruct (decide (id = i)) as [->|Hne].
  - by rewrite lookup_insert_eq, Ht, Hop.
  - by rewrite lookup_insert_ne.
Qed.

(** The owner of an operation lets go of it, and says so. *)
Lemma take_balanced m id t t' act a l :
  taskOk id t -> tasks m !! id = Some t -> operation t' = None ->
  (forall op, releases id [act op] = (if decide (op = id) then 1 else 0)%nat) ->
  (forall i op, i <> id -> op = id -> releases i [act op] = 0%nat) ->
  balanced None (match operation t with Some op => [act op] | None => [] end) m
           (withIDs a l (withTasks (<[id:=t']> (tasks m)) m)).
Proof.
  intros Hok Ht Hop Ha Hb i. unfold owned. simpl.
  destruct (decide (id = i)) as [->|Hne].
  - rewrite lookup_insert_eq, Ht, Hop. destruct (ok_op _ _ Hok) as [->| ->]; [done|].
    rewrite Ha, decide_True; done.
  - rewrite lookup_insert_ne by done. destruct (ok_op _ _ Hok) as [->| ->]; [unfold releases; simpl; lia|].
    rewrite Hb by done. lia.
Qed.

Lemma gone_owned m m' :
  minv m -> (forall id, tasks m' !! id = tasks m !! id \/
    exists t, tasks m !! id = Some t /\ terminal t = true /\ tasks m' !! id = None) ->
  forall id, owned id m' = owned id m.
Proof.
  intros Hinv Hm id. unfold owned. destruct (Hm id) as [->|(t & Ht & Hterm & ->)]; [done|].
  rewrite Ht. destruct (ok_terminal _ _ (m_task _ Hinv _ _ Ht) Hterm) as (_ & -> & _). done.
Qed.

Lemma prune_owned now m : minv m -> forall id, owned id (pruneExpiredLocked now m) = owned id m.
Proof.
  intros Hinv. apply gone_owned; [done|]. intros id. simpl.
  destruct (tasks m !! id) as [t|] eqn:Ht.
  - destruct (expiredTask m now t) eqn:E.
    + right. exists t. split; [done|]. split.
      * unfold expiredTask in E. by rewrite !andb_true_iff in E; destruct E as [[? _] _].
      * apply map_lookup_filter_None. right. intros x Hx. simplify_eq. simpl. by rewrite E.
    + left. by apply map_lookup_filter_Some.
  - left. apply map_lookup_filter_None. by left.
Qed.

Lemma finish_balanced now id st phase msg m :
  minv m -> let '(m', _, acts) := finish now id st phase msg m in balanced None acts m m'.
Proof.
  intros Hinv. unfold finish. cbv zeta. destruct (tasks m !! id) as [t|] eqn:Ht; [|by apply balanced_same].
  destruct (isManagedDownloadTaskTerminal _); [by apply balanced_same|].
  apply (take_balanced m id t); [by apply (m_task _ Hinv)|done| | |].
  - unfold finishTask. by destruct (finishOutcome _ _ _).
  - intros op. apply releases_one.
  - intros i op Hi ->. rewrite (proj1 (releases_one i id)). by rewrite decide_False.
Qed.

Lemma detach_balanced id m :
  minv m -> let '(m', acts) := DetachOperation id m in balanced None acts m m'.
Proof.
  intros Hinv. unfold DetachOperation. destruct (tasks m !! id) as [t|] eqn:Ht; [|by apply balanced_same].
  apply (take_balanced m id t (dropOperation t) ADetach (activeID m) (latestID m));
    [by apply (m_task _ Hinv)|done|done| |].
  - intros op. apply releases_one.
  - intros i op Hi ->. rewrite (proj2 (releases_one i id)). by rewrite decide_False.
Qed.

Lemma requestStop_balanced now id timeout m :
  let '(_, _, m', acts) := requestStop now id timeout m in balanced None acts m m'.
Proof.
  unfold requestStop. cbv zeta. destruct (tasks m !! trim_space id) as [t|] eqn:Ht; [|by apply balanced_same].
  destruct (_ || _); apply balanced_same; try done.
  - apply (set_owned m _ t); [done|]. by destruct (_ && _).
  - by apply (set_owned m _ t).
  - intros i. by destruct (cancel t).
Qed.

(** ** The world *)

Definition handedOn (id : string) (w : world) : nat :=
  (releases id (pending w) + releases id (released w))%nat.

Record winv (w : world) : Prop := {
  w_mgr : minv (mgr w);
  w_started : forall id, is_Some (tasks (mgr w) !! id) -> id ∈ started w;
  w_balance : forall id,
    (owned id (mgr w) + handedOn id w = if decide (id ∈ started w) then 1 else 0)%nat }.

(** A step of the world, seen from the manager. *)
Inductive wstep (w w' : world) : Prop :=
| wstep_mk new acts :
    (forall id, new = Some id -> id ∉ started w) ->
    okStep new (mgr w) (mgr w') -> balanced new acts (mgr w) (mgr w') ->
    (forall id, handedOn id w' = (handedOn id w + releases id acts)%nat) ->
    (forall id, id ∈ started w' <-> id ∈ started w \/ new = Some id) -> wstep w w'.

Lemma wstep_winv w w' : winv w -> wstep w w' -> winv w'.
Proof.
  intros [Hm Hs Hb] [new acts Hfresh [Hm' Hl] Hbal Hhand Hst]. split; [done| |].
  - intros id Hid. apply Hst. destruct (tasks (mgr w) !! id) eqn:E.
    + left. apply Hs. by rewrite E.
    + right. by apply (ml_none _ _ _ Hl).
  - intros id. specialize (Hb id). specialize (Hbal id). rewrite Hhand.
    assert (forall b, (if decide (id ∈ started w') then 1 else 0)%nat = b <->
                      (if decide (id ∈ started w \/ new = Some id) then 1 else 0)%nat = b) as Hdec.
    { intros b. pose proof (Hst id). by destruct (decide (id ∈ started w')), (decide (id ∈ started w \/ new = Some id)); try tauto. }
    symmetry. apply Hdec. destruct (decide (new = Some id)) as [Hn|Hn].
    + pose proof (Hfresh id Hn). rewrite decide_True by auto. rewrite decide_False in Hb by done. lia.
    + destruct (decide (id ∈ started w)); [rewrite decide_True by auto|rewrite decide_False by tauto]; lia.
Qed.

(** A step that creates no task. *)
Lemma wstep_intro acts w w' :
  okStep None (mgr w) (mgr w') -> balanced None acts (mgr w) (mgr w') ->
  (forall id, handedOn id w' = (handedOn id w + releases id acts)%nat) -> started w' = started w -> wstep w w'.
Proof.
  intros Hok Hbal Hh Hs. apply (wstep_mk _ _ None acts); try done. intros id. rewrite Hs. naive_solver.
Qed.

Lemma wstep_pure w w' :
  mgr w' = mgr w -> (forall id, handedOn id w' = handedOn id w) -> started w' = started w -> winv w -> wstep w w'.
Proof.
  intros Hm Hh Hs Hw. apply (wstep_intro []); [|by apply balanced_same; rewrite ?Hm| |done].
  - rewrite Hm. split; [apply (w_mgr _ Hw)|apply mlater_refl].
  - intros id. rewrite Hh. unfold releases. simpl. lia.
Qed.

Lemma handedOn_pending id l w : handedOn id (addPending l w) = (handedOn id w + releases id l)%nat.
Proof. unfold handedOn. simpl. rewrite releases_app. lia. Qed.

Lemma handedOn_perm id p r a k w :
  pending w !! k = Some a -> p = delete k (pending w) -> r = released w ++ [a] ->
  (releases id p + releases id r)%nat = handedOn id w.
Proof.
  intros Hk -> ->. unfold handedOn. rewrite releases_app.
  assert (releases id (pending w) = releases id ([a] ++ delete k (pending w))) as ->
    by (by apply releases_proper, delete_Permutation).
  rewrite releases_app. lia.
Qed.

Lemma fireTimer_wstep now id b w : winv w -> wstep w (fireTimer now id b w).
Proof.
  intros Hw. pose proof (w_mgr _ Hw) as Hinv. unfold fireTimer.
  destruct (tasks (mgr w) !! id) as [t|] eqn:Ht; [|by apply wstep_pure].
  destruct (if b then deadline t else expires t) as [due|] eqn:Ed; [|by apply wstep_pure].
  destruct (due <=? now); [|by apply wstep_pure].
  apply (wstep_intro []); simpl; [| | |done].
  - apply (set_ok _ id t); [done..| |done]. apply ts_disarm. destruct b; [by left|right].
    destruct (terminal t) eqn:E; [done|]. destruct (ok_open _ _ (m_task _ Hinv _ _ Ht) E) as (_ & ? & _). congruence.
  - apply balanced_same; [|done]. by apply (set_owned _ id t).
  - intros i. unfold handedOn. simpl. rewrite releases_app. by destruct b; unfold releases; simpl; lia.
Qed.

Lemma runAction_wstep now a k w :
  winv w -> pending w !! k = Some a ->
  wstep w (runAction now a (mkWorld (mgr w) (cancelled w) (delete k (pending w)) (released w) (started w))).
Proof.
  intros Hw Hk. pose proof (w_mgr _ Hw) as Hinv.
  assert (~ (exists id, isRelease id a) -> forall id, releases id (delete k (pending w)) = releases id (pending w)) as Hskip.
  { intros Hno id. rewrite (releases_proper id _ _ (delete_Permutation (pending w) k a Hk)).
    unfold releases at 2. rewrite filter_cons, decide_False; [done|]. intros ?. apply Hno. by exists id. }
  destruct a as [id|op|op|id|id]; simpl.
  - apply wstep_pure; try done. intros i. unfold handedOn. simpl. rewrite Hskip; [done|]. by intros [? [?|?]].
  - apply wstep_pure; try done. intros i. by eapply handedOn_perm.
  - apply wstep_pure; try done. intros i. by eapply handedOn_perm.
  - pose proof (requestStop_ok now id true (mgr w) Hinv) as Hok.
    pose proof (requestStop_balanced now id true (mgr w)) as Hbal.
    destruct (requestStop now id true (mgr w)) as [[[st ok] m] acts]. simpl in Hok.
    apply (wstep_intro acts); [done..| |done].
    intros i. rewrite handedOn_pending. unfold handedOn. simpl. rewrite Hskip; [done|]. by intros [? [?|?]].
  - apply (wstep_intro []); simpl; [by apply expire_ok| | |done].
    + apply balanced_same; [|done]. apply gone_owned; [done|]. intros i. unfold expire.
      destruct (tasks (mgr w) !! id) as [t|] eqn:Ht; [|by left].
      destruct (isManagedDownloadTaskTerminal _) eqn:E; simpl; [|by left].
      destruct (decide (id = i)) as [->|Hne]; [|left; by rewrite lookup_delete_ne].
      right. exists t. by rewrite lookup_delete_eq.
    + intros i. rewrite releases_nil. unfold handedOn. simpl. rewrite Hskip; [lia|]. by intros [? [?|?]].
Qed.

Lemma start_balanced now kind fp begin m :
  minv m -> (forall id, begin = Some id -> tasks m !! id = None) ->
  let '(r, m') := Start now kind fp begin m in
  match r with
  | Ok (id, _, true) => balanced (Some id) [] m m'
  | _ => balanced None [] m m'
  end.
Proof.
  intros Hinv Hnew. unfold Start. cbv zeta. destruct (String.eqb _ ""); [by apply balanced_same|].
  pose proof (prune_owned now m Hinv) as Ho. set (m2 := pruneExpiredLocked now m) in *.
  destruct (tasks m2 !! activeID m2) as [ta|]; [by destruct (String.eqb _ _); apply balanced_same|].
  destruct begin as [id|]; [|by apply balanced_same]. intros i. rewrite releases_nil.
  unfold owned at 1. simpl. destruct (decide (id = i)) as [->|Hne].
  - rewrite lookup_insert_eq. simpl. rewrite decide_True by done. unfold owned. by rewrite (Hnew i eq_refl).
  - rewrite lookup_insert_ne by done. rewrite decide_False by congruence.
    transitivity (owned i m2 + 0)%nat; [done|by rewrite Ho].
Qed.

Lemma start_wstep now kind fp begin w :
  winv w -> eventOk w (EStart kind fp begin) -> wstep w (stepW now (EStart kind fp begin) w).
Proof.
  intros Hw Hev. pose proof (w_mgr _ Hw) as Hinv. simpl.
  assert (forall id, begin = Some id -> tasks (mgr w) !! id = None /\ trim_space id = id /\ id <> "") as Hnew.
  { intros id ->. destruct Hev as (Hf & ? & ?). split; [|done].
    destruct (tasks (mgr w) !! id) eqn:E; [|done]. exfalso. apply Hf, (w_started _ Hw). by rewrite E. }
  pose proof (start_ok now kind fp begin (mgr w) Hinv Hnew) as Hs.
  pose proof (start_balanced now kind fp begin (mgr w) Hinv (fun id H => proj1 (Hnew id H))) as Hb.
  destruct (Start now kind fp begin (mgr w)) as [[[[id st] []]|err] m].
  - destruct Hs as (-> & Hok & _). destruct Hev as (Hf & _). apply (wstep_mk _ _ (Some id) []); try done.
    + by intros ? [= <-].
    + intros i. simpl. rewrite elem_of_union, elem_of_singleton. naive_solver.
  - by apply (wstep_intro []).
  - by apply (wstep_intro []).
Qed.

Lemma stepW_wstep now ev w : winv w -> eventOk w ev -> wstep w (stepW now ev w).
Proof.
  intros Hw Hev. pose proof (w_mgr _ Hw) as Hinv. destruct ev as [kind fp begin| | | | | | | | |]; simpl in Hev.
  - by apply start_wstep.
  - simpl. apply (wstep_intro []); simpl; [by apply update_ok| |done|done].
    apply balanced_same; [|done]. unfold update. cbv zeta.
    destruct (tasks (mgr w) !! id) as [t|] eqn:Ht; [|done]. destruct (_ || _); [done|]. simpl.
    by apply (set_owned _ id t).
  - simpl. pose proof (finish_ok now id state phase message (mgr w) Hinv Hev) as Hok.
    pose proof (finish_balanced now id state phase message (mgr w) Hinv) as Hbal.
    destruct (finish now id state phase message (mgr w)) as [[m c] acts]. simpl in Hok.
    apply (wstep_intro acts); destruct c; simpl; try done; intros i; by rewrite <- handedOn_pending.
  - simpl. pose proof (detach_ok id (mgr w) Hinv) as Hok. pose proof (detach_balanced id (mgr w) Hinv) as Hbal.
    destruct (DetachOperation id (mgr w)) as [m acts]. apply (wstep_intro acts); try done.
    intros i. by rewrite handedOn_pending.
  - simpl. pose proof (stop_ok now id (mgr w) Hinv) as Hok. unfold Stop in *. cbv zeta in *.
    destruct (String.eqb _ "").
    { apply wstep_pure; try done. intros i. rewrite handedOn_pending, releases_nil. apply Nat.add_0_r. }
    pose proof (requestStop_balanced now (trim_space id) false (mgr w)) as Hbal.
    destruct (requestStop now (trim_space id) false (mgr w)) as [[[st ok] m] acts]. simpl in Hok.
    apply (wstep_intro acts); try done. intros i. by rewrite handedOn_pending.
  - simpl. apply (wstep_intro []); simpl; [by apply prune_ok| |done|done].
    apply balanced_same; [|done]. by apply prune_owned.
  - by apply wstep_pure.
  - by apply fireTimer_wstep.
  - by apply fireTimer_wstep.
  - simpl. destruct (pending w !! k) as [a|] eqn:Hk; [|by apply wstep_pure]. by apply runAction_wstep.
Qed.

Lemma steps_winv w w' : winv w -> steps w w' -> winv w'.
Proof.
  intros Hw. induction 1 as [|w' now ev _ IH Hev]; [done|]. eapply wstep_winv; [done|]. by apply stepW_wstep.
Qed.

Lemma initial_winv name d ttl : winv (initialW name d ttl).
Proof.
  split; simpl.
  - split; simpl; [by intros id t|by intros id t|by left|by left].
  - by intros id [t Ht].
  - intros id. by rewrite decide_False by set_solver.
Qed.

Lemma reachable_winv w : reachable w -> winv w.
Proof. intros (n & d & ttl & Hs). eapply steps_winv; [apply initial_winv|done]. Qed.

Lemma reachable_step now ev w : reachable w -> eventOk w ev -> reachable (stepW now ev w).
Proof. intros (n & d & ttl & Hs) Hev. exists n, d, ttl. by apply steps_step. Qed.

(** A task that was seen is later still there, grown, or gone for good. *)
Lemma steps_later w w' id t :
  winv w -> steps w w' -> tasks (mgr w) !! id = Some t ->
  id ∈ started w' /\
  (tasks (mgr w') !! id = None \/ exists t', tasks (mgr w') !! id = Some t' /\ later t t').
Proof.
  intros Hw Hs Ht. induction Hs as [|w' now ev Hs [IHs IH] Hev].
  { split; [apply (w_started _ Hw); by rewrite Ht|]. right. by exists t. }
  assert (winv w') as Hw' by (by eapply steps_winv).
  destruct (stepW_wstep now ev w' Hw' Hev) as [new acts Hfresh [_ Hl] _ _ Hst].
  split; [apply Hst; by left|]. destruct IH as [Hn|(t' & Ht' & Hlt)].
  - left. destruct (tasks (mgr (stepW now ev w')) !! id) eqn:E; [|done]. exfalso.
    apply (Hfresh id); [|done]. apply (ml_none _ _ _ Hl); [done|by rewrite E].
  - destruct (ml_some _ _ _ Hl id t' Ht') as [[? _]|(t2 & ? & ?)]; [by left|right].
    exists t2. split; [done|]. by eapply later_trans.
Qed.

(** ** Guarantees *)

(** C19: In every reachable state of a manager, however workers, stop requests,
    timers and shutdowns interleave, at most one task is unfinished, and it
    is the active one ([IsActive] says so exactly); every task satisfies the
    state machine: a finished task holds no context, operation or deadline
    and cannot be cancelled, an irreversible task was never asked to stop and
    cannot be, a stopped task is stopping, cancelled or timed out, and only a
    task stopped by its deadline times out. *)
Theorem download_tasks_invariant w :
  reachable w ->
  (forall id t, tasks (mgr w) !! id = Some t -> taskOk id t) /\
  (forall id t, tasks (mgr w) !! id = Some t -> terminal t = false -> activeID (mgr w) = id) /\
  (IsActive (mgr w) = true <-> exists id t, tasks (mgr w) !! id = Some t /\ terminal t = false).
Proof.
  intros Hr. destruct (reachable_winv w Hr) as [[Hok Hact Haid _] _ _]. split; [done|]. split; [done|].
  unfold IsActive. split.
  - destruct (tasks (mgr w) !! activeID (mgr w)) as [t|] eqn:E; [|done]. intros _.
    destruct Haid as [He|(t' & Ht' & ?)]; [|simplify_eq; by exists (activeID (mgr w)), t'].
    destruct (ok_id _ _ (Hok _ _ E)) as (_ & _ & Hne). by rewrite He in Hne.
  - intros (id & t & Ht & Hnt). by rewrite (Hact _ _ Ht Hnt), Ht.
Qed.

Lemma later_status w w' id t :
  reachable w -> steps w w' -> tasks (mgr w) !! id = Some t ->
  forall t', tasks (mgr w') !! id = Some t' -> taskOk id t' /\ later t t'.
Proof.
  intros Hr Hs Ht t' Ht'. pose proof (reachable_winv w Hr) as Hw.
  split; [apply (m_task _ (w_mgr _ (steps_winv w w' Hw Hs)) _ _ Ht')|].
  destruct (steps_later w w' id t Hw Hs Ht) as [_ [?|(t2 & ? & ?)]]; congruence.
Qed.

(** The start of the irreversible phase and a stop exclude each other, in
    either order and for ever.  Once [BeginApplying] has returned true for a
    task, every later stop request and the deadline are refused.  Once a stop
    was accepted, every later phase change, [BeginApplying] included, returns
    false, and the task can only end as cancelled or timed out, whatever its
    worker reports. *)
Theorem stop_excludes_apply w id :
  reachable w ->
  (forall now phase m1,
     BeginApplying now id phase (bool_decide (id ∈ cancelled w)) (mgr w) = (true, m1) ->
     forall w2, steps (stepW now (EUpdate id phase false true) w) w2 ->
     forall now2 timeout, (requestStop now2 id timeout (mgr w2)).1.1.2 = false) /\
  (forall now st m1 acts,
     Stop now id (mgr w) = (Ok st, m1, acts) ->
     forall w2, steps (stepW now (EStop id) w) w2 ->
     (forall now2 phase can applying ctxErr,
        (update now2 (trim_space id) phase can applying ctxErr (mgr w2)).1 = false) /\
     (forall t, tasks (mgr w2) !! trim_space id = Some t -> terminal t = true ->
        State (status t) = Cancelled \/ State (status t) = TimedOut)).
Proof.
  intros Hr. pose proof (reachable_winv w Hr) as Hw. split.
  - intros now phase m1 Hap w2 Hs now2 timeout.
    set (w1 := stepW now (EUpdate id phase false true) w) in *.
    assert (reachable w1) as Hr1 by (by apply reachable_step).
    unfold BeginApplying, update in Hap. cbv zeta in Hap.
    destruct (tasks (mgr w) !! id) as [t|] eqn:Ht; [|done]. destruct (_ || _) eqn:E; [done|].
    assert (tasks (mgr w1) !! id = Some (updateTask now (trim_space phase) false true t)) as Ht1.
    { unfold w1. simpl. unfold update. cbv zeta. rewrite Ht, E. simpl. apply lookup_insert_eq. }
    destruct (ok_id _ _ (m_task _ (w_mgr _ Hw) _ _ Ht)) as (_ & Htr & _).
    unfold requestStop. cbv zeta. rewrite Htr.
    destruct (tasks (mgr w2) !! id) as [t2|] eqn:Ht2; [|done].
    destruct (later_status w1 w2 id _ Hr1 Hs Ht1 t2 Ht2) as [Hok Hlt].
    destruct (ok_irreversible _ _ Hok (lt_irreversible _ _ Hlt eq_refl)) as [-> _]. by rewrite orb_true_r.
  - intros now st m1 acts Hst w2 Hs. set (w1 := stepW now (EStop id) w) in *.
    assert (reachable w1) as Hr1 by (by apply reachable_step).
    assert (exists t1, tasks (mgr w1) !! trim_space id = Some t1 /\ StopRequested (status t1) = true)
      as (t1 & Ht1 & Hsr).
    { unfold w1. simpl. revert Hst. unfold Stop, requestStop. cbv zeta. rewrite trim_space_idemp.
      destruct (String.eqb _ ""); [done|]. destruct (tasks (mgr w) !! trim_space id) as [t|] eqn:Ht; [|done].
      destruct (_ || _) eqn:E; [done|]. intros _. eexists. simpl. by rewrite lookup_insert_eq. }
    assert (forall t2, tasks (mgr w2) !! trim_space id = Some t2 ->
      State (status t2) ∈ [Stopping; Cancelled; TimedOut]) as Hst2.
    { intros t2 Ht2. destruct (later_status w1 w2 _ _ Hr1 Hs Ht1 t2 Ht2) as [Hok Hlt].
      by destruct (ok_stop _ _ Hok (lt_stop _ _ Hlt Hsr)). }
    split.
    + intros now2 phase can applying ctxErr. unfold update. cbv zeta.
      destruct (tasks (mgr w2) !! trim_space id) as [t2|] eqn:Ht2; [|done]. specialize (Hst2 t2 eq_refl).
      destruct (State (status t2)); set_solver.
    + intros t2 Ht2 Hterm. specialize (Hst2 t2 Ht2). unfold terminal in Hterm.
      destruct (State (status t2)); set_solver.
Qed.

(** A finished task is final: once its status is terminal, no event changes
    it; it can only be forgotten, and then its id never comes back. *)
Theorem finished_is_final w w' id t :
  reachable w -> steps w w' -> tasks (mgr w) !! id = Some t -> terminal t = true ->
  (tasks (mgr w') !! id = None /\ forall w2, steps w' w2 -> tasks (mgr w2) !! id = None) \/
  exists t', tasks (mgr w') !! id = Some t' /\ status t' = status t.
Proof.
  intros Hr Hs Ht Hterm. pose proof (reachable_winv w Hr) as Hw.
  destruct (steps_later w w' id t Hw Hs Ht) as [Hst [Hn|(t' & Ht' & Hl)]].
  - left. split; [done|]. intros w2 Hs2.
    assert (winv w') as Hw' by (by eapply steps_winv). clear -Hw' Hst Hn Hs2.
    assert (id ∈ started w2 /\ tasks (mgr w2) !! id = None) as [_ ?]; [|done].
    induction Hs2 as [|w2 now ev Hs2 [IHs IHn] Hev]; [done|].
    destruct (stepW_wstep now ev w2 (steps_winv _ _ Hw' Hs2) Hev) as [new acts Hfresh [_ Hl] _ _ Hst'].
    split; [apply Hst'; by left|]. destruct (tasks (mgr (stepW now ev w2)) !! id) eqn:E; [|done]. exfalso.
    apply (Hfresh id); [|done]. apply (ml_none _ _ _ Hl); [done|by rewrite E].
  - right. exists t'. split; [done|]. by apply (lt_final _ _ Hl).
Qed.

(** The managed operation of a task is given back exactly once.  For every
    task that was ever created, the calls of [Done] and [Detach] that were
    made or are due number one if the task is finished, forgotten or
    detached, and none while the task still holds its operation. *)
Theorem operation_released_once w id :
  reachable w -> id ∈ started w ->
  (handedOn id w <= 1)%nat /\
  (handedOn id w = 0%nat <-> exists t, tasks (mgr w) !! id = Some t /\ operation t = Some id) /\
  (forall t, tasks (mgr w) !! id = Some t -> terminal t = true -> handedOn id w = 1%nat) /\
  (tasks (mgr w) !! id = None -> handedOn id w = 1%nat).
Proof.
  intros Hr Hin. destruct (reachable_winv w Hr) as [[Hok _ _ _] _ Hbal].
  specialize (Hbal id). rewrite decide_True in Hbal by done. unfold owned in Hbal.
  destruct (tasks (mgr w) !! id) as [t|] eqn:Ht; [|split_and!; [lia| |done|lia]; split; [lia|by intros (t & ? & _)]].
  pose proof (Hok _ _ Ht) as Htk. split_and!; [lia| | |done].
  - split.
    + intros H0. exists t. split; [done|]. destruct (ok_op _ _ Htk) as [E|E]; [rewrite E in Hbal; lia|done].
    + intros (t' & [= <-] & E). rewrite E in Hbal. lia.
  - intros t' [= <-] Hterm. destruct (ok_terminal _ _ Htk Hterm) as (_ & E & _). rewrite E in Hbal. lia.
Qed.

(** A worker that finishes always ends its task: the task becomes
    terminal, a query shows its final status (snapshots being kept for a
    second at least), and the slot is free, so the next start of any task of the resource whose
    operation can begin creates it. *)
Theorem finish_frees_slot w id t st now phase message kind fp id' now' :
  reachable w -> tasks (mgr w) !! id = Some t -> terminal t = false ->
  st = None \/ st = Some Success \/ st = Some Failed ->
  trim_space kind <> "" ->
  let w1 := stepW now (EFinish id st phase message) w in
  IsActive (mgr w1) = false /\
  (exists t', tasks (mgr w1) !! id = Some t' /\ terminal t' = true /\
     (nanosecondsPerSecond <= taskTerminalTTL (mgr w1) -> (Get now id (mgr w1)).1 = status t')) /\
  exists task m', Start now' kind fp (Some id') (mgr w1) = (Ok (id', task, true), m').
Proof.
  intros Hr Ht Hnt Hst Hkind w1. pose proof (reachable_winv w Hr) as Hw.
  assert (reachable w1) as Hr1 by (by apply reachable_step).
  destruct (reachable_winv w1 Hr1) as [Hm1 _ _].
  destruct (ok_id _ _ (m_task _ (w_mgr _ Hw) _ _ Ht)) as (_ & Htr & Hne).
  pose proof (m_active _ (w_mgr _ Hw) _ _ Ht Hnt) as Hact.
  assert (activeID (mgr w1) = "" /\
    tasks (mgr w1) !! id = Some (finishTask now (taskTerminalTTL (mgr w)) st (trim_space phase) (trim_space message) t) /\
    taskTerminalTTL (mgr w1) = taskTerminalTTL (mgr w)) as (Ha & Ht1 & Httl).
  { unfold w1. simpl. unfold finish. cbv zeta. rewrite Ht. unfold terminal in Hnt. rewrite Hnt.
    rewrite Hact, String.eqb_refl. destruct (cancel t); simpl; by rewrite lookup_insert_eq. }
  assert (tasks (mgr w1) !! "" = None) as Hempty.
  { destruct (tasks (mgr w1) !! "") eqn:E; [|done].
    by destruct (ok_id _ _ (m_task _ Hm1 _ _ E)) as (_ & _ & ?). }
  set (t' := finishTask _ _ _ _ _ _) in Ht1.
  destruct (finishOutcome_spec st (trim_space message) t Hst) as [Hout _].
  assert (terminal t' = true /\ FinishedAt (status t') = unix now) as [Hterm Hfin].
  { unfold t', finishTask, terminal. by destruct (finishOutcome st (trim_space message) t). }
  split; [|split].
  - unfold IsActive. by rewrite Ha, Hempty.
  - exists t'. split_and!; [done..|]. intros Hkeep. unfold Get. cbv zeta. rewrite Htr.
    destruct (String.eqb_spec id "") as [|_]; [done|]. rewrite Htr. simpl.
    assert (filter (fun row => expiredTask (mgr w1) now row.2 = false) (tasks (mgr w1)) !! id = Some t') as ->; [|done].
    apply map_lookup_filter_Some. split; [done|]. simpl. unfold expiredTask. rewrite Hfin.
    assert (timeSub now (unix now * nanosecondsPerSecond) <= taskTerminalTTL (mgr w1)) as Hk%Z.leb_le.
    { unfold timeSub, unix, nanosecondsPerSecond, min_i64, max_i64 in *.
      pose proof (Z.div_mod now 1000000000 ltac:(lia)). pose proof (Z.mod_pos_bound now 1000000000 eq_refl). lia. }
    by rewrite Hk, andb_false_r.
  - unfold Start. cbv zeta. apply String.eqb_neq in Hkind. rewrite Hkind.
    assert (tasks (pruneExpiredLocked now' (mgr w1)) !! activeID (pruneExpiredLocked now' (mgr w1)) = None) as ->.
    { simpl. rewrite Ha. apply map_lookup_filter_None. by left. }
    eauto.
Qed.

(** ** Copying *)

(** What a reader delivers up to its end. *)
Fixpoint delivered (source : list (list Z * readEnd)) : list Z :=
  match source with
  | [] => []
  | (bytes, ReadMore) :: source' => bytes ++ delivered source'
  | (bytes, _) :: _ => bytes
  end.

Lemma ctxCheck_written s : written (ctxCheck s).2 = written s.
Proof. unfold ctxCheck. by destruct (ctxAnswers s). Qed.

Lemma writeAll_spec fuel : forall remaining s, (length remaining <= fuel)%nat ->
  let '(err, s') := writeAll fuel remaining s in
  exists sent, written s' = written s ++ sent /\ sent `prefix_of` remaining /\ (err = None -> sent = remaining).
Proof.
  induction fuel as [|fuel IH]; intros remaining s Hlen.
  { destruct remaining; [|simpl in Hlen; lia]. exists []. rewrite app_nil_r. done. }
  destruct remaining as [|b remaining]; [exists []; by rewrite app_nil_r|].
  cbn [writeAll]. pose proof (ctxCheck_written s) as Hc. destruct (ctxCheck s) as [c s1]. simpl in Hc.
  destruct c; [exists []; rewrite app_nil_r; split_and!; [done|apply prefix_nil|done]|].
  destruct (match writeResults s1 with [] => _ | _ => _ end) as [[count failed] rest] eqn:E.
  set (data := b :: remaining) in *.
  assert (take count data `prefix_of` data) as Hpre by (exists (drop count data); by rewrite take_drop).
  destruct failed; [exists (take count data); simpl; by rewrite Hc|].
  destruct (Nat.eqb_spec count 0) as [->|Hn]; [exists []; simpl; rewrite Hc; split_and!; [done|apply prefix_nil|done]|].
  specialize (IH (drop count data) (mkCopy (ctxAnswers s1) rest (written s1 ++ take count data))).
  destruct (writeAll fuel (drop count data) _) as [err s']. destruct IH as (sent & Hw & Hp & He).
  { rewrite length_drop. simpl in Hlen |- *. lia. }
  exists (take count data ++ sent). simpl in Hw. rewrite Hw, Hc, <- app_assoc. split; [done|]. split.
  - rewrite <- (take_drop count data) at 2. by apply prefix_app.
  - intros He'. by rewrite He, take_drop.
Qed.

Lemma copyLoop_spec source : forall s,
  let '(err, s') := copyLoop source s in
  exists sent, written s' = written s ++ sent /\ sent `prefix_of` delivered source /\
               (err = None -> sent = delivered source).
Proof.
  induction source as [|[bytes how] source IH]; intros s; [exists []; by rewrite app_nil_r|].
  cbn [copyLoop]. pose proof (ctxCheck_written s) as Hc. destruct (ctxCheck s) as [c s1]. simpl in Hc.
  destruct c; [exists []; rewrite app_nil_r; split_and!; [done|apply prefix_nil|done]|].
  pose proof (writeAll_spec (length bytes) bytes s1 (le_n _)) as Hw.
  destruct (writeAll (length bytes) bytes s1) as [[e|] s2]; destruct Hw as (sent & Hs & Hp & He).
  - exists sent. rewrite Hs, Hc. split_and!; [done| |done].
    simpl. destruct how; [by apply prefix_app_r|done|done].
  - specialize (He eq_refl) as ->. rewrite Hc in Hs. destruct how.
    + specialize (IH s2). destruct (copyLoop source s2) as [err s3]. destruct IH as (sent & Hs3 & Hp3 & He3).
      exists (bytes ++ sent). rewrite Hs3, Hs, app_assoc. split_and!; [done|by apply prefix_app|].
      intros H. simpl. by rewrite He3.
    + exists bytes. by rewrite Hs.
    + exists bytes. by rewrite Hs.
Qed.

(** Copying under a context: what reached the destination is the beginning of
    what the source delivers, the count is its length, and without an error
    it is all of it. *)
Lemma copy_exact ctx source writes :
  let '(n, err, out) := copyManagedDownloadTaskContext ctx source writes in
  n = Z.of_nat (length out) /\ out `prefix_of` delivered source /\ (err = None -> out = delivered source).
Proof.
  unfold copyManagedDownloadTaskContext. destruct (ctxCheck _) as [c s] eqn:E.
  pose proof (ctxCheck_written (mkCopy ctx writes [])) as Hc. rewrite E in Hc. simpl in Hc.
  destruct c; [split_and!; [done|apply prefix_nil|done]|].
  pose proof (copyLoop_spec source s) as Hl. destruct (copyLoop source s) as [err s'].
  destruct Hl as (sent & -> & Hp & He). rewrite Hc. done.
Qed.

(** ** Runs *)

Definition demoNow : Z := 1700000000 * nanosecondsPerSecond.
Definition demoStart : world := stepW demoNow (EStart "core-update" "v1" (Some "core-update-1")) (initialW "core" 0 0).
Definition demoApply : world := stepW demoNow (EUpdate "core-update-1" "installing" false true) demoStart.
Definition demoDone : world := stepW demoNow (EFinish "core-update-1" (Some Success) "done" "") demoApply.

Lemma demoTask_reachable : reachable demoStart.
Proof.
  apply reachable_step; [by exists "core", 0, 0; constructor|]. simpl. split_and!; [set_solver|by vm_compute|done].
Qed.
Lemma demoDone_reachable : reachable demoDone.
Proof. apply reachable_step; [|by right; left]. by apply reachable_step; [apply demoTask_reachable|]. Qed.

Lemma download_tasks_invariant_witness : IsActive (mgr demoStart) = true /\ activeID (mgr demoStart) = "core-update-1".
Proof.
  destruct (download_tasks_invariant demoStart demoTask_reachable) as (_ & _ & Hact). split.
  - apply Hact. exists "core-update-1". eexists. split; vm_compute; reflexivity.
  - vm_compute. reflexivity.
Defined.

Lemma stop_excludes_apply_witness :
  (requestStop (demoNow + 1) "core-update-1" true (mgr demoApply)).1.1.2 = false /\
  (update (demoNow + 2) (trim_space "core-update-1") "installing" false true false
     (mgr (stepW (demoNow + 1) (EStop "core-update-1") demoStart))).1 = false.
Proof.
  destruct (stop_excludes_apply demoStart "core-update-1" demoTask_reachable) as [Ha Hs]. split.
  - assert (exists m1, BeginApplying demoNow "core-update-1" "installing"
      (bool_decide ("core-update-1" ∈ cancelled demoStart)) (mgr demoStart) = (true, m1)) as [m1 Hm1].
    { eexists. vm_compute. reflexivity. }
    exact (Ha demoNow "installing" m1 Hm1 demoApply (steps_refl _) (demoNow + 1) true).
  - assert (exists st m1 acts, Stop (demoNow + 1) "core-update-1" (mgr demoStart) = (Ok st, m1, acts))
      as (st & m1 & acts & Hst).
    { do 3 eexists. vm_compute. reflexivity. }
    destruct (Hs (demoNow + 1) st m1 acts Hst _ (steps_refl _)) as [Hu _]. apply Hu.
Defined.

Lemma finished_is_final_witness :
  exists t, tasks (mgr demoDone) !! "core-update-1" = Some t /\ terminal t = true /\
  let w' := stepW (demoNow + 5) (EStop "core-update-1") demoDone in
  ((tasks (mgr w') !! "core-update-1" = None /\ forall w2, steps w' w2 -> tasks (mgr w2) !! "core-update-1" = None) \/
   exists t', tasks (mgr w') !! "core-update-1" = Some t' /\ status t' = status t).
Proof.
  assert (exists t, tasks (mgr demoDone) !! "core-update-1" = Some t /\ terminal t = true) as (t & Ht & Hterm).
  { eexists. split; vm_compute; reflexivity. }
  exists t. split; [exact Ht|]. split; [exact Hterm|]. intros w'.
  apply (finished_is_final demoDone w' "core-update-1" t demoDone_reachable); [|exact Ht|exact Hterm].
  apply steps_step; [apply steps_refl|exact I].
Defined.

Lemma operation_released_once_witness :
  handedOn "core-update-1" demoStart = 0%nat /\ handedOn "core-update-1" demoDone = 1%nat.
Proof.
  assert ("core-update-1" ∈ started demoStart /\ "core-update-1" ∈ started demoDone) as [H1 H2].
  { split; apply elem_of_union_l, elem_of_singleton; reflexivity. }
  split.
  - apply (operation_released_once demoStart "core-update-1" demoTask_reachable H1).
    eexists. split; vm_compute; reflexivity.
  - assert (exists t, tasks (mgr demoDone) !! "core-update-1" = Some t /\ terminal t = true) as (t & Ht & Hterm).
    { eexists. split; vm_compute; reflexivity. }
    destruct (operation_released_once demoDone "core-update-1" demoDone_reachable H2) as (_ & _ & H & _).
    exact (H t Ht Hterm).
Defined.

Lemma finish_frees_slot_witness :
  IsActive (mgr (stepW demoNow (EFinish "core-update-1" None "gone" "") demoStart)) = false.
Proof.
  assert (exists t, tasks (mgr demoStart) !! "core-update-1" = Some t /\ terminal t = false) as (t & Ht & Hterm).
  { eexists. split; vm_compute; reflexivity. }
  destruct (finish_frees_slot demoStart "core-update-1" t None demoNow "gone" "" "core-update" "v2" "core-update-2"
              (demoNow + 1) demoTask_reachable Ht Hterm) as [H _].
  - left. reflexivity.
  - vm_compute. discriminate.
  - exact H.
Defined.
