(* ===== verification/Scheduler.v ===== *)
(** * The runtime sampler ([cronjob/runtime_sampler.go])

    One goroutine runs the panel's frequent jobs one after the other.  Each
    job has a period and a phase; its next run is a slot of its phase at
    least 800 ms away.  The first half of this file is the schedule: the
    slots, and what one turn of the loop runs and reschedules.  The second
    half is the control of the goroutine: [Start], [StopAndFlush] and [Wake]
    may be called concurrently.  Times are nanoseconds since 1970. *)

From S2P Require Import Prelude.
From stdpp Require Import base gmap sets list sorting.
From Stdlib Require Import ZArith Lia.

#[local] Open Scope Z_scope.

(** ** Slots *)

Definition second : Z := 1000000000.
Definition millisecond : Z := 1000000.

Inductive task : Type := Integrity | Traffic | PortForward | Deplete | Flush | Scavenge.
#[global] Instance task_eq_dec : EqDecision task.
Proof. solve_decision. Defined.

Definition interval (k : task) : Z :=
  match k with
  | Traffic => 10 * second
  | Integrity => 15 * second
  | PortForward => 15 * second
  | Deplete => 60 * second
  | Flush => 60 * second
  | Scavenge => 15 * 60 * second
  end.

Definition phase (k : task) : Z :=
  match k with
  | Traffic => 0 * second
  | Integrity => 3 * second
  | PortForward => 7 * second
  | Deplete => 12 * second
  | Flush => 26 * second
  | Scavenge => 45 * second
  end.

Definition nextPhaseSlot (now interval phase : Z) : Z :=
  let unixSec := now / second in
  let periodSec := Z.quot interval second in
  let phaseSec := Z.quot phase second in
  let rem := Z.rem (unixSec - phaseSec) periodSec in
  let rem := if rem <? 0 then rem + periodSec else rem in
  let deltaSec := periodSec - rem in
  let next := (unixSec + deltaSec) * second in
  if next - now <? 800 * millisecond then next + interval else next.

Definition earliestRuntimeSamplerDeadline (first : Z) (values : list Z) : Z :=
  fold_left (fun next value => if value <? next then value else next) values first.

(** ** One turn of the loop *)

Definition deadlines : Type := task -> Z.

Definition schedule (now : Z) (k : task) : Z := nextPhaseSlot now (interval k) (phase k).

Definition setDeadline (k : task) (t : Z) (d : deadlines) : deadlines :=
  fun k' => if decide (k' = k) then t else d k'.

(** The jobs of a turn, in the order of the code.  A turn that starts at [now]
    runs the jobs that are due; [after k] is the time when job [k] returns. *)
Definition jobOrder : list task := [Integrity; Traffic; PortForward; Deplete; Flush; Scavenge].

Fixpoint runDue (now : Z) (after : task -> Z) (jobs : list task) (d : deadlines) : list task * deadlines :=
  match jobs with
  | [] => ([], d)
  | k :: jobs' =>
      if now <? d k then runDue now after jobs' d
      else let '(ran, d') := runDue now after jobs' (setDeadline k (schedule (after k) k) d) in (k :: ran, d')
  end.

Definition timerTurn (now : Z) (after : task -> Z) (d : deadlines) : list task * deadlines :=
  runDue now after jobOrder d.

(** A wake runs the reconciliation jobs at once and reschedules everything
    from the time [now] at which they are done. *)
Definition wakeJobs : list task := [Integrity; Traffic; PortForward; Deplete; Flush].
Definition wakeTurn (now : Z) (d : deadlines) : list task * deadlines := (wakeJobs, schedule now).

(** The timer is set for the earliest deadline. *)
Definition nextTimer (d : deadlines) : Z :=
  earliestRuntimeSamplerDeadline (d Traffic) [d Integrity; d PortForward; d Deplete; d Flush; d Scavenge].

(** *** Facts about slots *)

(** Second [z] is a slot of job [k]. *)
Definition slot (k : task) (t : Z) : Prop := exists n, t = phase k + n * interval k.

Lemma schedule_slot now k :
  slot k (schedule now k) /\
  now + 800 * millisecond <= schedule now k < now + interval k + 800 * millisecond.
Proof.
  unfold schedule, nextPhaseSlot, slot.
  assert (exists p q, interval k = p * second /\ phase k = q * second /\ 1 <= p /\ 0 <= q) as
    (p & q & Hi & Hq & Hp1 & Hq0).
  { destruct k; simpl; eexists _, _; split_and!; try reflexivity; lia. }
  rewrite Hi, Hq. rewrite !Z.quot_mul by (unfold second; lia).
  assert ((if Z.rem (now / second - q) p <? 0 then Z.rem (now / second - q) p + p
           else Z.rem (now / second - q) p) = (now / second - q) mod p) as ->.
  { set (a := now / second - q). pose proof (Z.mod_pos_bound a p ltac:(lia)) as Hm.
    pose proof (Z.rem_bound_abs a p ltac:(lia)) as Hr. pose proof (Z.quot_rem a p ltac:(lia)) as Hd.
    pose proof (Z.div_mod a p ltac:(lia)) as He.
    destruct (Z.ltb_spec (Z.rem a p) 0) as [Hlt|Hge].
    - apply (Z.mod_unique_pos a p (Z.quot a p - 1)); lia.
    - apply (Z.mod_unique_pos a p (Z.quot a p)); lia. }
  set (u := now / second). set (m := (u - q) mod p).
  pose proof (Z.mod_pos_bound (u - q) p ltac:(lia)) as Hm. fold m in Hm.
  pose proof (Z.div_mod (u - q) p ltac:(lia)) as He. fold m in He. set (c := (u - q) / p) in *.
  pose proof (Z.div_mod now second ltac:(unfold second; lia)) as Hu. fold u in Hu.
  pose proof (Z.mod_pos_bound now second ltac:(unfold second; lia)) as Hn.
  assert (u + (p - m) = q + (c + 1) * p) as Hs by lia. rewrite Hs.
  destruct (Z.ltb_spec ((q + (c + 1) * p) * second - now) (800 * millisecond)) as [Hlt|Hge].
  - split; [exists (c + 2); lia|]. unfold second, millisecond in *. nia.
  - split; [exists (c + 1); lia|]. unfold second, millisecond in *. nia.
Qed.

Lemma slots_distinct a b t : slot a t -> slot b t -> a = b.
Proof.
  intros (n & ->) (m & H). destruct a, b; try done; exfalso; unfold phase, interval, second in H; lia.
Qed.

Lemma earliest_spec values : forall first,
  let e := earliestRuntimeSamplerDeadline first values in
  (forall v, v ∈ first :: values -> e <= v) /\ e ∈ first :: values.
Proof.
  unfold earliestRuntimeSamplerDeadline. induction values as [|v values IH]; intros first; simpl.
  { split; [|by left]. intros v [->|?%elem_of_nil]%elem_of_cons; [lia|done]. }
  destruct (IH (if v <? first then v else first)) as [H1 H2].
  set (e := fold_left _ _ _) in *. split.
  - assert (e <= (if v <? first then v else first)) as He by (apply H1; by left).
    intros x [->|[->|Hx]%elem_of_cons]%elem_of_cons; [| |apply H1; by right].
    + destruct (Z.ltb_spec v first); lia.
    + destruct (Z.ltb_spec v first); lia.
  - apply elem_of_cons in H2 as [->|?]; [|by right; right].
    destruct (v <? first); [right; by left|by left].
Qed.

Lemma nextTimer_spec d : (forall k, nextTimer d <= d k) /\ exists k, nextTimer d = d k.
Proof.
  destruct (earliest_spec [d Integrity; d PortForward; d Deplete; d Flush; d Scavenge] (d Traffic)) as [H1 H2].
  split.
  - intros k. apply H1. destruct k; set_solver.
  - unfold nextTimer. set_solver.
Qed.

(** *** Runs of the loop *)

(** [lNow]: the time when the last turn ended; [lLog]: the slots served. *)
Record loopState : Type := mkLoop {
  lNow : Z;
  lDl : deadlines;
  lLog : list (task * Z) }.

Inductive loopStep (s : loopState) : loopState -> Prop :=
| loop_timer now after fin :
    lNow s <= now -> (forall k, now <= after k <= fin) ->
    loopStep s (mkLoop fin (timerTurn now after (lDl s)).2
                       (lLog s ++ ((fun k => (k, lDl s k)) <$> (timerTurn now after (lDl s)).1)))
| loop_wake now :
    lNow s <= now -> loopStep s (mkLoop now (wakeTurn now (lDl s)).2 (lLog s)).

Inductive loopRun : loopState -> Prop :=
| run_init now : loopRun (mkLoop now (schedule now) [])
| run_step s s' : loopRun s -> loopStep s s' -> loopRun s'.

Definition servedBy (k : task) (l : list (task * Z)) : list Z := snd <$> filter (fun e => e.1 = k) l.

Lemma runDue_spec now after : forall jobs d, NoDup jobs ->
  (forall k, k ∈ (runDue now after jobs d).1 <-> k ∈ jobs /\ d k <= now) /\
  NoDup (runDue now after jobs d).1 /\
  (forall k, (runDue now after jobs d).2 k =
     if decide (k ∈ (runDue now after jobs d).1) then schedule (after k) k else d k).
Proof.
  induction jobs as [|k jobs IH]; intros d Hnd.
  { simpl. split_and!; [set_solver|constructor|done]. }
  apply NoDup_cons in Hnd as [Hk Hnd]. simpl. destruct (Z.ltb_spec now (d k)) as [Hlt|Hge].
  - destruct (IH d Hnd) as (H1 & H2 & H3). split_and!; [|done..].
    intros k'. rewrite H1, elem_of_cons. split; [tauto|]. intros [[->|?] ?]; [lia|done].
  - destruct (IH (setDeadline k (schedule (after k) k) d) Hnd) as (H1 & H2 & H3).
    destruct (runDue now after jobs _) as [ran d']. simpl in *.
    assert (k ∉ ran) as Hnot by (intros Hin; by apply H1 in Hin as [? _]).
    split_and!.
    + intros k'. rewrite !elem_of_cons, H1. unfold setDeadline. split.
      * intros [->|[Hin Hle]]; [auto|]. rewrite decide_False in Hle by congruence. auto.
      * intros [[->|Hin] Hle]; [by left|]. destruct (decide (k' = k)) as [->|?]; [by left|right]. auto.
    + by constructor.
    + intros k'. rewrite H3. unfold setDeadline. destruct (decide (k' = k)) as [->|Hne].
      * rewrite decide_False by done. rewrite decide_True by (by left). done.
      * destruct (decide (k' ∈ ran)); [rewrite decide_True by (by right)|rewrite decide_False by set_solver]; done.
Qed.

Lemma jobOrder_NoDup : NoDup jobOrder.
Proof. by apply (bool_decide_unpack _). Qed.

Lemma jobOrder_all k : k ∈ jobOrder.
Proof. destruct k; by apply (bool_decide_unpack _). Qed.

Record loopInv (s : loopState) : Prop := {
  li_slot : forall k, slot k (lDl s k);
  li_bound : forall k, lDl s k < lNow s + interval k + 800 * millisecond;
  li_log : forall k t, (k, t) ∈ lLog s -> slot k t /\ t < lDl s k /\ t <= lNow s;
  li_sorted : forall k, StronglySorted Z.lt (servedBy k (lLog s)) }.

Lemma servedBy_app k l l' : servedBy k (l ++ l') = servedBy k l ++ servedBy k l'.
Proof. unfold servedBy. by rewrite filter_app, fmap_app. Qed.

Lemma servedBy_ran k (d : deadlines) ran :
  NoDup ran -> servedBy k ((fun k => (k, d k)) <$> ran) = if decide (k ∈ ran) then [d k] else [].
Proof.
  induction 1 as [|x ran Hx Hnd IH]; [by rewrite decide_False by set_solver|].
  unfold servedBy in *. rewrite fmap_cons, filter_cons. simpl. destruct (decide (x = k)) as [->|Hne].
  - rewrite fmap_cons, IH, decide_False by done. rewrite decide_True by (by left). done.
  - rewrite IH. destruct (decide (k ∈ ran)); [rewrite decide_True by (by right)|rewrite decide_False by set_solver]; done.
Qed.

Lemma sorted_snoc (l : list Z) x :
  StronglySorted Z.lt l -> (forall y, y ∈ l -> y < x) -> StronglySorted Z.lt (l ++ [x]).
Proof.
  induction 1 as [|y l Hs IH Hf]; intros Hx; simpl; [repeat constructor|].
  constructor; [apply IH; intros; apply Hx; by right|].
  apply Forall_app. split; [done|]. constructor; [apply Hx; by left|constructor].
Qed.

Lemma loopInv_step s s' : loopInv s -> loopStep s s' -> loopInv s'.
Proof.
  intros [Hs Hb Hl Ho] Hstep. destruct Hstep as [now after fin Hnow Haft|now Hnow].
  - destruct (runDue_spec now after jobOrder (lDl s) jobOrder_NoDup) as (H1 & H2 & H3).
    unfold timerTurn. set (ran := (runDue now after jobOrder (lDl s)).1) in *.
    set (d := (runDue now after jobOrder (lDl s)).2) in *.
    assert (now <= fin) as Hfin by (specialize (Haft Flush); lia).
    split; simpl.
    + intros k. rewrite H3. destruct (decide (k ∈ ran)); [apply schedule_slot|apply Hs].
    + intros k. rewrite H3. destruct (decide (k ∈ ran)).
      * destruct (schedule_slot (after k) k) as [_ ?]. specialize (Haft k). lia.
      * specialize (Hb k). lia.
    + intros k t [Hin|Hin]%elem_of_app.
      * destruct (Hl k t Hin) as (Hsl & Hlt & Hle). split_and!; [done| |lia]. rewrite H3.
        destruct (decide (k ∈ ran)); [|done]. destruct (schedule_slot (after k) k) as [_ ?].
        specialize (Haft k). unfold millisecond in *. lia.
      * apply list_elem_of_fmap in Hin as (k' & [= <- ->] & Hin). split; [apply Hs|].
        pose proof Hin as [_ Hdue]%H1. rewrite H3, decide_True by done.
        destruct (schedule_slot (after k) k) as [_ ?]. specialize (Haft k). unfold millisecond in *. lia.
    + intros k. rewrite servedBy_app, servedBy_ran by done. destruct (decide (k ∈ ran)); [|by rewrite app_nil_r].
      apply sorted_snoc; [done|]. intros z (row & -> & [Hek He]%list_elem_of_filter)%list_elem_of_fmap.
      destruct row as [k' z]. simpl in *. subst k'. by destruct (Hl k z He) as (_ & ? & _).
  - split; simpl; [| | |done].
    + intros k. apply schedule_slot.
    + intros k. by destruct (schedule_slot now k) as [_ [_ ?]].
    + intros k t Hin. destruct (Hl k t Hin) as (Hsl & Hlt & Hle). split_and!; [done| |lia].
      destruct (schedule_slot now k) as [_ [? _]]. unfold millisecond in *. lia.
Qed.

Lemma loopRun_inv s : loopRun s -> loopInv s.
Proof.
  induction 1 as [now|s s' _ IH Hstep]; [|by eapply loopInv_step].
  split; simpl; [| |set_solver|constructor].
  - intros k. apply schedule_slot.
  - intros k. by destruct (schedule_slot now k) as [_ [_ ?]].
Qed.

(** The schedule staggers the jobs and starves none.  In every run of the
    loop, with any delays, job durations and wakes, each job is run on slots
    of its own phase, each slot at most once and in order, and no two jobs
    share a slot; a turn runs exactly the jobs whose slot has come; the next
    slot of a job is never later than one period and 800 ms after the last
    turn, and the timer is set for the earliest. *)
Theorem sampler_slots s now after :
  loopRun s ->
  (forall k, StronglySorted Z.lt (servedBy k (lLog s))) /\
  (forall k k' t, (k, t) ∈ lLog s -> (k', t) ∈ lLog s -> k = k') /\
  (forall k t, (k, t) ∈ lLog s -> slot k t /\ t <= lNow s) /\
  (forall k, k ∈ (timerTurn now after (lDl s)).1 <-> lDl s k <= now) /\
  (forall k, nextTimer (lDl s) <= lDl s k < lNow s + interval k + 800 * millisecond).
Proof.
  intros Hr. destruct (loopRun_inv s Hr) as [Hs Hb Hl Ho]. split_and!; [done| | | |].
  - intros k k' t H1 H2. apply (slots_distinct k k' t); [by destruct (Hl k t H1)|by destruct (Hl k' t H2)].
  - intros k t H. by destruct (Hl k t H) as (? & _ & ?).
  - intros k. destruct (runDue_spec now after jobOrder (lDl s) jobOrder_NoDup) as (H1 & _ & _).
    unfold timerTurn. rewrite H1. pose proof (jobOrder_all k). tauto.
  - intros k. split; [apply nextTimer_spec|apply Hb].
Qed.

Definition demoLoop : loopState := mkLoop (100 * second) (schedule (100 * second)) [].

Lemma sampler_slots_witness :
  loopRun demoLoop /\ nextTimer (lDl demoLoop) = 108 * second /\
  (timerTurn (108 * second) (fun _ => 108 * second) (lDl demoLoop)).1 = [Integrity].
Proof.
  assert (loopRun demoLoop) as H by apply run_init.
  destruct (sampler_slots demoLoop (108 * second) (fun _ => 108 * second) H) as (_ & _ & _ & Hdue & _).
  split; [exact H|]. split; [vm_compute; reflexivity|].
  assert (Integrity ∈ (timerTurn (108 * second) (fun _ => 108 * second) (lDl demoLoop)).1) as _.
  { apply Hdue. vm_compute. discriminate. }
  vm_compute. reflexivity.
Defined.

(** ** Starting and stopping the goroutine

    The four channels of a run are made and dropped together: [cChans] is the
    generation they belong to.  A generation has one goroutine, [cLoops]; the
    callers of [Start], [StopAndFlush] and [Wake] are threads.  A step is one
    critical section of the mutex, one channel operation, or one flush. *)

Inductive loopPc : Type :=
| LRun          (* in the loop *)
| LExit         (* left it, by the stop channel or a panic *)
| LClose        (* about to close doneCh *)
| LGone.

Inductive callPc : Type :=
| AStart
| AWait (g : option nat)               (* <-completeCh *)
| AReturned
| SEnter
| SFlushNow
| SWaitComplete (g : option nat)
| SReadErr
| SWaitDone (g : nat)
| SFlush (g : nat)
| SFinish (g : nat) (err : bool)
| SReturned (err : bool)
| WEnter
| WSend (g : nat)
| WReturned.

Record ctl : Type := mkCtl {
  cRunning : bool;
  cStopping : bool;
  cChans : option nat;
  cStopErr : bool;
  cStopClosed : gset nat;
  cDoneClosed : gset nat;
  cCompleteClosed : gset nat;
  cWake : gset nat;                    (* wake channels that hold a token *)
  cNext : nat;
  cLoops : gmap nat loopPc;
  cCalls : gmap nat callPc }.

Definition setCall (t : nat) (p : callPc) (c : ctl) : ctl :=
  mkCtl (cRunning c) (cStopping c) (cChans c) (cStopErr c) (cStopClosed c) (cDoneClosed c)
        (cCompleteClosed c) (cWake c) (cNext c) (cLoops c) (<[t:=p]> (cCalls c)).
Definition setLoop (g : nat) (p : loopPc) (c : ctl) : ctl :=
  mkCtl (cRunning c) (cStopping c) (cChans c) (cStopErr c) (cStopClosed c) (cDoneClosed c)
        (cCompleteClosed c) (cWake c) (cNext c) (<[g:=p]> (cLoops c)) (cCalls c).
Definition setFlags (running stopping : bool) (chans : option nat) (stopErr : bool) (c : ctl) : ctl :=
  mkCtl running stopping chans stopErr (cStopClosed c) (cDoneClosed c)
        (cCompleteClosed c) (cWake c) (cNext c) (cLoops c) (cCalls c).
Definition setClosed (stop done complete : gset nat) (c : ctl) : ctl :=
  mkCtl (cRunning c) (cStopping c) (cChans c) (cStopErr c) stop done complete (cWake c)
        (cNext c) (cLoops c) (cCalls c).
Definition setWake (w : gset nat) (c : ctl) : ctl :=
  mkCtl (cRunning c) (cStopping c) (cChans c) (cStopErr c) (cStopClosed c) (cDoneClosed c)
        (cCompleteClosed c) w (cNext c) (cLoops c) (cCalls c).

(** A new generation with its goroutine. *)
Definition launch (c : ctl) : ctl :=
  mkCtl true (cStopping c) (Some (cNext c)) false (cStopClosed c) (cDoneClosed c)
        (cCompleteClosed c) (cWake c) (S (cNext c)) (<[cNext c:=LRun]> (cLoops c)) (cCalls c).

Definition closeComplete (g : nat) (c : ctl) : ctl :=
  setClosed (cStopClosed c) (cDoneClosed c) ({[g]} ∪ cCompleteClosed c) c.

(** [Start]; when the goroutine runs already, it is woken. *)
Definition stepStart (t : nat) (p : callPc) (c : ctl) : ctl :=
  match p with
  | AStart =>
      if cRunning c then setCall t WEnter c
      else if cStopping c then setCall t (AWait (cChans c)) c
      else setCall t AReturned (launch c)
  | AWait None => setCall t AStart c
  | AWait (Some g) => if bool_decide (g ∈ cCompleteClosed c) then setCall t AStart c else c
  | _ => c
  end.

(** [StopAndFlush]; [flushErr]: whether the flush of this step fails. *)
Definition stepStop (flushErr : bool) (t : nat) (p : callPc) (c : ctl) : ctl :=
  match p with
  | SEnter =>
      if negb (cRunning c) && negb (cStopping c) then setCall t SFlushNow c
      else if cStopping c then setCall t (SWaitComplete (cChans c)) c
      else match cChans c with
           | Some g => setCall t (SWaitDone g)
                         (setClosed ({[g]} ∪ cStopClosed c) (cDoneClosed c) (cCompleteClosed c)
                            (setFlags false true (cChans c) (cStopErr c) c))
           | None => c
           end
  | SFlushNow => setCall t (SReturned flushErr) c
  | SWaitComplete None => setCall t SReadErr c
  | SWaitComplete (Some g) => if bool_decide (g ∈ cCompleteClosed c) then setCall t SReadErr c else c
  | SReadErr => setCall t (SReturned (cStopErr c)) c
  | SWaitDone g => if bool_decide (g ∈ cDoneClosed c) then setCall t (SFlush g) c else c
  | SFlush g => setCall t (SFinish g flushErr) c
  | SFinish g err =>
      if bool_decide (cChans c = Some g)
      then setCall t (SReturned err) (closeComplete g (setFlags (cRunning c) false None err c))
      else setCall t (SReturned err) c
  | _ => c
  end.

(** [Wake]: the channel holds one token, a second one is dropped. *)
Definition stepWake (t : nat) (p : callPc) (c : ctl) : ctl :=
  match p with
  | WEnter =>
      match cRunning c, cChans c with
      | true, Some g => setCall t (WSend g) c
      | _, _ => setCall t WReturned c
      end
  | WSend g => setCall t WReturned (setWake ({[g]} ∪ cWake c) c)
  | _ => c
  end.

Definition stepCall (flushErr : bool) (t : nat) (p : callPc) (c : ctl) : ctl :=
  match p with
  | AStart | AWait _ => stepStart t p c
  | SEnter | SFlushNow | SWaitComplete _ | SReadErr | SWaitDone _ | SFlush _ | SFinish _ _ => stepStop flushErr t p c
  | WEnter | WSend _ => stepWake t p c
  | AReturned | SReturned _ | WReturned => c
  end.

(** What the goroutine of a generation does next. *)
Inductive loopAct : Type := ActTurn | ActWake | ActStop | ActPanic | ActNext.

Definition stepLoop (a : loopAct) (g : nat) (p : loopPc) (c : ctl) : ctl :=
  match p, a with
  | LRun, ActTurn => c
  | LRun, ActWake => setWake (cWake c ∖ {[g]}) c
  | LRun, ActStop => if bool_decide (g ∈ cStopClosed c) then setLoop g LExit c else c
  | LRun, ActPanic => setLoop g LExit c
  | LExit, ActNext =>
      if bool_decide (cChans c = Some g) then
        if cStopping c then setLoop g LClose (setFlags false true (cChans c) (cStopErr c) c)
        else setLoop g LClose (closeComplete g (setFlags false false None (cStopErr c) c))
      else setLoop g LClose c
  | LClose, ActNext => setLoop g LGone (setClosed (cStopClosed c) ({[g]} ∪ cDoneClosed c) (cCompleteClosed c) c)
  | _, _ => c
  end.

Definition initialCtl : ctl := mkCtl false false None false ∅ ∅ ∅ ∅ 0 ∅ ∅.

Inductive ctlRun : ctl -> Prop :=
| ctl_init : ctlRun initialCtl
| ctl_call c t p : ctlRun c -> cCalls c !! t = None -> p ∈ [AStart; SEnter; WEnter] -> ctlRun (setCall t p c)
| ctl_step c t p flushErr : ctlRun c -> cCalls c !! t = Some p -> ctlRun (stepCall flushErr t p c)
| ctl_loop c g p a : ctlRun c -> cLoops c !! g = Some p -> ctlRun (stepLoop a g p c).

(** The call that stops the current generation. *)
Definition stopper (p : callPc) : option nat :=
  match p with
  | SWaitDone g | SFlush g | SFinish g _ => Some g
  | _ => None
  end.

Definition alive (p : loopPc) : bool := match p with LRun | LExit => true | _ => false end.

Record ctlInv (c : ctl) : Prop := {
  ci_alive : forall g p, cLoops c !! g = Some p -> alive p = true ->
    cChans c = Some g /\ (cRunning c = true \/ cStopping c = true);
  ci_done : forall g, g ∈ cDoneClosed c -> cLoops c !! g = Some LGone;
  ci_running : cRunning c = true -> cStopping c = false /\
    exists g p, cChans c = Some g /\ cLoops c !! g = Some p /\ alive p = true;
  ci_stopping : cStopping c = true ->
    exists g t p, cChans c = Some g /\ g ∈ cStopClosed c /\ is_Some (cLoops c !! g) /\
                  cCalls c !! t = Some p /\ stopper p = Some g;
  ci_stopper : forall t p g, cCalls c !! t = Some p -> stopper p = Some g ->
    cStopping c = true /\ cChans c = Some g /\
    (forall t' p', cCalls c !! t' = Some p' -> is_Some (stopper p') -> t' = t) /\
    (match p with SWaitDone _ => True | _ => g ∈ cDoneClosed c end);
  ci_fresh : forall g, is_Some (cLoops c !! g) -> (g < cNext c)%nat;
  ci_complete : forall g, g ∈ cCompleteClosed c -> cChans c <> Some g /\ (g < cNext c)%nat;
  ci_waiting : forall t g, cCalls c !! t = Some (SWaitComplete (Some g)) \/ cCalls c !! t = Some (AWait (Some g)) ->
    g ∈ cCompleteClosed c \/ (cStopping c = true /\ cChans c = Some g) }.

(** A call that moves on without touching the control state. *)
Lemma move_inv t p p' c :
  ctlInv c -> (cCalls c !! t = Some p \/ cCalls c !! t = None /\ stopper p = None) ->
  stopper p' = stopper p ->
  (forall g, stopper p' = Some g -> (exists h, p' = SWaitDone h) \/ g ∈ cDoneClosed c) ->
  (forall g, p' = SWaitComplete (Some g) \/ p' = AWait (Some g) -> cStopping c = true /\ cChans c = Some g) ->
  ctlInv (setCall t p' c).
Proof.
  intros [Ha Hd Hr Hs Hst Hf Hc Hw] Hp Heq Hdone Hwait.
  assert (forall t' q, cCalls (setCall t p' c) !! t' = Some q -> is_Some (stopper q) ->
            exists q0, cCalls c !! t' = Some q0 /\ stopper q0 = stopper q) as Hback.
  { intros t' q. simpl. destruct (decide (t' = t)) as [->|Hne].
    - rewrite lookup_insert_eq. intros [= <-] Hsq. destruct Hp as [Hp|[_ Hp]]; [|rewrite Heq, Hp in Hsq; by destruct Hsq].
      exists p. by rewrite Heq.
    - rewrite lookup_insert_ne by done. intros Hq _. by exists q. }
  split; try done.
  - intros H. destruct (Hs H) as (g & t' & q & Hch & Hcl & Hl & Hq & Hsq). exists g.
    destruct (decide (t' = t)) as [->|Hne].
    + exists t, p'. split_and!; try done; [apply lookup_insert_eq|]. destruct Hp as [Hp|[Hp _]]; congruence.
    + exists t', q. split_and!; try done. simpl. by rewrite lookup_insert_ne.
  - intros t' q g Hq Hsq. destruct (Hback t' q Hq (ex_intro _ g Hsq)) as (q0 & Hq0 & Hs0).
    destruct (Hst t' q0 g Hq0) as (H1 & H2 & H3 & H4); [by rewrite Hs0|]. split_and!; [done..| |].
    + intros t2 p2 Hp2 Hs2. destruct (Hback t2 p2 Hp2 Hs2) as (q2 & Hq2 & Hsq2).
      apply (H3 t2 q2 Hq2). by rewrite Hsq2.
    + simpl in Hq. destruct (decide (t' = t)) as [->|Hne].
      * rewrite lookup_insert_eq in Hq. injection Hq as <-. destruct (Hdone g Hsq) as [[h ->]|?]; [done|].
        simpl. by destruct p'.
      * rewrite lookup_insert_ne in Hq by done. simplify_eq. done.
  - intros t' g Hq. simpl in Hq. destruct (decide (t' = t)) as [->|Hne].
    + rewrite lookup_insert_eq in Hq. right. apply Hwait. naive_solver.
    + rewrite lookup_insert_ne in Hq by done. by apply (Hw t').
Qed.

Ltac move_step := eapply move_inv; [eassumption|left; eassumption|done|done|].

Lemma launch_inv t p c :
  ctlInv c -> cCalls c !! t = Some p -> stopper p = None -> cRunning c = false -> cStopping c = false ->
  ctlInv (setCall t AReturned (launch c)).
Proof.
  intros [Ha Hd Hr Hs Hst Hf Hc Hw] Hp Hsp Hrun Hstop.
  assert (forall t' p' g, cCalls c !! t' = Some p' -> stopper p' = Some g -> False) as Hno.
  { intros t' p' g Hq Hg. destruct (Hst t' p' g Hq Hg) as [? _]. congruence. }
  assert (forall g q, cLoops c !! g = Some q -> alive q = true -> False) as Hnoloop.
  { intros g q Hq Hal. destruct (Ha g q Hq Hal) as [_ [?|?]]; congruence. }
  split; simpl.
  - intros g q. destruct (decide (cNext c = g)) as [->|Hne]; [auto|]. rewrite lookup_insert_ne by done.
    intros Hq Hal. by destruct (Hnoloop g q).
  - intros g Hg. rewrite lookup_insert_ne; [by apply Hd|]. intros <-.
    assert (cNext c < cNext c)%nat; [|lia]. apply Hf. rewrite (Hd _ Hg). by eexists.
  - intros _. split; [done|]. exists (cNext c), LRun. by rewrite lookup_insert_eq.
  - congruence.
  - intros t' p' g. destruct (decide (t' = t)) as [->|Hne].
    + rewrite lookup_insert_eq. by intros [= <-].
    + rewrite lookup_insert_ne by done. intros Hq Hg. by destruct (Hno t' p' g).
  - intros g. rewrite lookup_insert_is_Some. intros [<-|[_ ?%Hf]]; lia.
  - intros g Hg. destruct (Hc g Hg). split; [intros [= <-]; lia|lia].
  - intros t' g Hq. destruct (decide (t' = t)) as [->|Hne]; [rewrite lookup_insert_eq in Hq; naive_solver|].
    rewrite lookup_insert_ne in Hq by done. destruct (Hw t' g Hq) as [?|[? _]]; [by left|congruence].
Qed.

Lemma stopBegin_inv t p g c :
  ctlInv c -> cCalls c !! t = Some p -> stopper p = None -> cRunning c = true -> cChans c = Some g ->
  ctlInv (setCall t (SWaitDone g)
            (setClosed ({[g]} ∪ cStopClosed c) (cDoneClosed c) (cCompleteClosed c)
               (setFlags false true (cChans c) (cStopErr c) c))).
Proof.
  intros [Ha Hd Hr Hs Hst Hf Hc Hw] Hp Hsp Hrun Hch.
  destruct (Hr Hrun) as (Hstop & g' & q & Hg' & Hq & Hal).
  assert (forall t' p', cCalls c !! t' = Some p' -> is_Some (stopper p') -> False) as Hno.
  { intros t' p' Hq' [g0 Hg]. destruct (Hst t' p' g0 Hq' Hg) as [? _]. congruence. }
  split; simpl.
  - intros g0 q0 H1 H2. destruct (Ha g0 q0 H1 H2) as [? _]. auto.
  - done.
  - done.
  - intros _. exists g, t, (SWaitDone g). split_and!; [done|set_solver| |apply lookup_insert_eq|done].
    simplify_eq. by eexists.
  - intros t' p' g0 Hq0 Hg0. destruct (decide (t' = t)) as [->|Hne].
    + rewrite lookup_insert_eq in Hq0. injection Hq0 as <-. injection Hg0 as <-. split_and!; [done..| |done].
      intros t2 p2. destruct (decide (t2 = t)) as [->|Hne2]; [done|]. rewrite lookup_insert_ne by done.
      intros H1 H2. by destruct (Hno t2 p2).
    + rewrite lookup_insert_ne in Hq0 by done. destruct (Hno t' p' Hq0). by eexists.
  - done.
  - done.
  - intros t' g0 Hq0. destruct (decide (t' = t)) as [->|Hne]; [rewrite lookup_insert_eq in Hq0; naive_solver|].
    rewrite lookup_insert_ne in Hq0 by done. destruct (Hw t' g0 Hq0) as [?|[? _]]; [by left|congruence].
Qed.

Lemma stopFinish_inv t g err c :
  ctlInv c -> cCalls c !! t = Some (SFinish g err) ->
  ctlInv (setCall t (SReturned err) (closeComplete g (setFlags (cRunning c) false None err c))).
Proof.
  intros [Ha Hd Hr Hs Hst Hf Hc Hw] Hp. destruct (Hst t _ g Hp eq_refl) as (Hstop & Hch & Hone & Hdone).
  assert (cRunning c = false) as Hrun.
  { destruct (cRunning c) eqn:E; [|done]. destruct (Hr eq_refl) as [? _]. congruence. }
  assert (forall g0 q, cLoops c !! g0 = Some q -> alive q = true -> False) as Hnoloop.
  { intros g0 q Hq Hal. destruct (Ha g0 q Hq Hal) as [Hg0 _]. rewrite Hch in Hg0. injection Hg0 as <-.
    rewrite (Hd g Hdone) in Hq. by injection Hq as <-. }
  split; simpl.
  - intros g0 q H1 H2. by destruct (Hnoloop g0 q).
  - done.
  - congruence.
  - done.
  - intros t' p' g0 Hq0 Hg0. destruct (decide (t' = t)) as [->|Hne].
    + rewrite lookup_insert_eq in Hq0. by injection Hq0 as <-.
    + rewrite lookup_insert_ne in Hq0 by done. destruct Hne. apply (Hone t' p' Hq0). by eexists.
  - done.
  - intros g0 [->%elem_of_singleton|Hg0]%elem_of_union; [|split; [done|by destruct (Hc g0 Hg0)]].
    split; [done|]. apply Hf. rewrite (Hd g Hdone). by eexists.
  - intros t' g0 Hq0. destruct (decide (t' = t)) as [->|Hne]; [rewrite lookup_insert_eq in Hq0; naive_solver|].
    rewrite lookup_insert_ne in Hq0 by done. left. destruct (Hw t' g0 Hq0) as [?|[_ ?]]; [set_solver|].
    simplify_eq. set_solver.
Qed.

Lemma stepCall_inv flushErr t p c : ctlInv c -> cCalls c !! t = Some p -> ctlInv (stepCall flushErr t p c).
Proof.
  intros Hi Hp. pose proof Hi as [Ha Hd Hr Hs Hst Hf Hc Hw]. destruct p as [|[g|]| | | |[g|]| |g|g|g err| | |g|]; simpl; try done.
  - destruct (cRunning c) eqn:Er; [move_step; naive_solver|].
    destruct (cStopping c) eqn:Es; [|by eapply launch_inv].
    move_step. intros g [?|[= ->]]; [done|]. done.
  - case_bool_decide; [|done]. move_step. naive_solver.
  - move_step. naive_solver.
  - destruct (cRunning c) eqn:Er, (cStopping c) eqn:Es; simpl.
    + by destruct (Hr eq_refl).
    + destruct (cChans c) as [g|] eqn:Eg; [|done]. rewrite <- Eg. by eapply stopBegin_inv.
    + move_step. intros g [[= ->]|?]; [|done]. done.
    + move_step. naive_solver.
  - move_step. naive_solver.
  - case_bool_decide; [|done]. move_step. naive_solver.
  - move_step. naive_solver.
  - move_step. naive_solver.
  - case_bool_decide as Hin; [|done]. eapply move_inv; [done|by left|done| |naive_solver].
    intros g0 [= <-]. by right.
  - destruct (Hst t _ g Hp eq_refl) as (_ & _ & _ & Hdone).
    eapply move_inv; [done|by left|done| |naive_solver]. intros g0 [= <-]. by right.
  - destruct (Hst t _ g Hp eq_refl) as (_ & Hch & _). rewrite bool_decide_eq_true_2 by done.
    by apply stopFinish_inv.
  - destruct (cRunning c), (cChans c); move_step; naive_solver.
  - assert (ctlInv (setCall t WReturned c)) as [] by (move_step; naive_solver). by split.
Qed.

Lemma stepLoop_inv a g p c : ctlInv c -> cLoops c !! g = Some p -> ctlInv (stepLoop a g p c).
Proof.
  intros Hi Hg. pose proof Hi as [Ha Hd Hr Hs Hst Hf Hc Hw].
  assert (p <> LGone -> g ∉ cDoneClosed c) as Hnd.
  { intros Hp Hin. rewrite (Hd g Hin) in Hg. by injection Hg as <-. }
  assert (forall q g', is_Some (<[g:=q]> (cLoops c) !! g') -> is_Some (cLoops c !! g')) as Hsome.
  { intros q g'. rewrite lookup_insert_is_Some. intros [->|[_ ?]]; [by rewrite Hg; eexists|done]. }
  assert (forall q g', is_Some (cLoops c !! g') -> is_Some (<[g:=q]> (cLoops c) !! g')) as Hsome'.
  { intros q g' H. rewrite lookup_insert_is_Some'. by right. }
  assert (p = LRun -> ctlInv (setLoop g LExit c)) as Hexit.
  { intros ->. split; simpl; try done.
    - intros g' q. destruct (decide (g = g')) as [->|Hne]; [intros _ _; by apply (Ha g' LRun)|].
      rewrite lookup_insert_ne by done. apply Ha.
    - intros g' Hin. destruct (decide (g = g')) as [->|Hne]; [by destruct (Hnd ltac:(done))|].
      rewrite lookup_insert_ne by done. by apply Hd.
    - intros Hrun. destruct (Hr Hrun) as (H1 & g' & q & H2 & H3 & H4). split; [done|].
      destruct (decide (g = g')) as [->|Hne]; [exists g', LExit|exists g', q];
        rewrite ?lookup_insert_eq, ?lookup_insert_ne; done.
    - intros H. destruct (Hs H) as (g' & t & q & H1 & H2 & H3 & H4 & H5). exists g', t, q. split_and!; auto.
    - intros g' H. eauto. }
  destruct p, a; simpl; try done.
  - case_bool_decide; [by apply Hexit|done].
  - by apply Hexit.
  - destruct (Ha g LExit Hg eq_refl) as [Hch Hor]. rewrite bool_decide_eq_true_2 by done.
    assert (forall g' q, <[g:=LClose]> (cLoops c) !! g' = Some q -> alive q = true -> False) as Hnone.
    { intros g' q. destruct (decide (g = g')) as [->|Hne]; [rewrite lookup_insert_eq; by intros [= <-]|].
      rewrite lookup_insert_ne by done. intros Hq Hal. destruct (Ha g' q Hq Hal). congruence. }
    assert (forall g', g' ∈ cDoneClosed c -> <[g:=LClose]> (cLoops c) !! g' = Some LGone) as Hdn.
    { intros g' Hin. rewrite lookup_insert_ne; [by apply Hd|]. intros ->. by destruct (Hnd ltac:(done)). }
    destruct (cStopping c) eqn:Es.
    + split; simpl; try done.
      * intros g' q H1 H2. by destruct (Hnone g' q).
      * intros _. destruct (Hs eq_refl) as (g' & t & q & H1 & H2 & H3 & H4 & H5). exists g', t, q. split_and!; auto.
      * intros g' H. eauto.
    + split; simpl; try done.
      * intros g' q H1 H2. by destruct (Hnone g' q).
      * intros t q g' H1 H2. destruct (Hst t q g' H1 H2) as [? _]. congruence.
      * intros g' H. eauto.
      * intros g' [->%elem_of_singleton|Hin]%elem_of_union; [|split; [done|by destruct (Hc g' Hin)]].
        split; [done|]. apply Hf. by rewrite Hg.
      * intros t g' Hq. left. destruct (Hw t g' Hq) as [?|[? _]]; [set_solver|congruence].
  - split; simpl; try done.
    + intros g' q. destruct (decide (g = g')) as [->|Hne]; [rewrite lookup_insert_eq; by intros [= <-]|].
      rewrite lookup_insert_ne by done. apply Ha.
    + intros g' Hin. destruct (decide (g = g')) as [->|Hne]; [apply lookup_insert_eq|].
      rewrite lookup_insert_ne by done. apply Hd. set_solver.
    + intros Hrun. destruct (Hr Hrun) as (H1 & g' & q & H2 & H3 & H4). split; [done|].
      exists g', q. split_and!; try done. rewrite lookup_insert_ne; [done|]. intros ->. rewrite Hg in H3. by simplify_eq.
    + intros H. destruct (Hs H) as (g' & t & q & H1 & H2 & H3 & H4 & H5). exists g', t, q. split_and!; auto.
    + intros t q g' H1 H2. destruct (Hst t q g' H1 H2) as (? & ? & ? & ?). split_and!; auto.
      destruct q; try done; set_solver.
    + intros g' H. eauto.
Qed.

Lemma ctlRun_inv c : ctlRun c -> ctlInv c.
Proof.
  induction 1 as [|c t p _ IH Ht Hp|c t p fe _ IH Hp|c g p a _ IH Hg].
  - split; simpl; try done; try set_solver; intros *; rewrite ?lookup_empty; first [by intros []|naive_solver].
  - apply (move_inv t p); [done| |done| |].
    + right. split; [done|]. set_solver.
    + set_solver.
    + set_solver.
  - by apply stepCall_inv.
  - by apply stepLoop_inv.
Qed.

(** C31: However [Start], [StopAndFlush] and [Wake] are called, and even when
    the goroutine panics, at most one goroutine is in the loop, and it is the
    current one; the final flush of a stop runs when no goroutine is in the
    loop and none can be started; only one call at a time carries out a stop,
    and every call that waits for it to complete is waiting for a channel
    that is closed or that this call will close. *)
Theorem sampler_control c :
  ctlRun c ->
  (forall g g', cLoops c !! g = Some LRun -> cLoops c !! g' = Some LRun -> g = g' /\ cChans c = Some g) /\
  (forall t g, cCalls c !! t = Some (SFlush g) ->
     (forall g', cLoops c !! g' <> Some LRun) /\
     (forall t' fe, cCalls c !! t' = Some AStart -> cLoops (stepCall fe t' AStart c) = cLoops c)) /\
  (forall t t' p p' g g', cCalls c !! t = Some p -> cCalls c !! t' = Some p' ->
     stopper p = Some g -> stopper p' = Some g' -> t = t') /\
  (forall t g, cCalls c !! t = Some (SWaitComplete (Some g)) \/ cCalls c !! t = Some (AWait (Some g)) ->
     g ∈ cCompleteClosed c \/
     exists t' p, cCalls c !! t' = Some p /\ stopper p = Some g /\ cChans c = Some g).
Proof.
  intros Hrun. destruct (ctlRun_inv c Hrun) as [Ha Hd Hr Hs Hst Hf Hc Hw]. split_and!.
  - intros g g' H1 H2. destruct (Ha g LRun H1 eq_refl) as [? _], (Ha g' LRun H2 eq_refl) as [? _].
    split; [congruence|done].
  - intros t g Ht. destruct (Hst t _ g Ht eq_refl) as (Hstop & Hch & _ & Hdone). split.
    + intros g' Hg'. destruct (Ha g' LRun Hg' eq_refl) as [Hg _]. rewrite Hch in Hg. injection Hg as <-.
      rewrite (Hd g Hdone) in Hg'. done.
    + intros t' fe _. simpl. rewrite Hstop. by destruct (cRunning c).
  - intros t t' p p' g g' H1 H2 H3 H4. destruct (Hst t' p' g' H2 H4) as (_ & _ & Hone & _).
    apply (Hone t p H1). by eexists.
  - intros t g Hq. destruct (Hw t g Hq) as [?|[Hstop Hch]]; [by left|right].
    destruct (Hs Hstop) as (g' & t' & p & H1 & _ & _ & H4 & H5). exists t', p. split_and!; congruence.
Qed.

Definition demoCtl : ctl :=
  let c := stepCall false 0 AStart (setCall 0 AStart initialCtl) in
  let c := stepCall false 1 SEnter (setCall 1 SEnter c) in
  let c := stepLoop ActNext 0 LClose (stepLoop ActNext 0 LExit (stepLoop ActStop 0 LRun c)) in
  stepCall false 1 (SWaitDone 0) c.

Lemma sampler_control_witness : cCalls demoCtl !! 1%nat = Some (SFlush 0) /\ cLoops demoCtl !! 0%nat <> Some LRun.
Proof.
  assert (ctlRun demoCtl) as Hrun.
  { apply (ctl_step _ 1 (SWaitDone 0)); [|vm_compute; reflexivity].
    apply (ctl_loop _ 0 LClose); [|vm_compute; reflexivity].
    apply (ctl_loop _ 0 LExit); [|vm_compute; reflexivity].
    apply (ctl_loop _ 0 LRun); [|vm_compute; reflexivity].
    apply (ctl_step _ 1 SEnter); [|vm_compute; reflexivity].
    apply ctl_call; [|vm_compute; reflexivity|right; left].
    apply (ctl_step _ 0 AStart); [|vm_compute; reflexivity].
    apply ctl_call; [apply ctl_init|reflexivity|left]. }
  assert (cCalls demoCtl !! 1%nat = Some (SFlush 0)) as Hf by (vm_compute; reflexivity).
  split; [exact Hf|]. destruct (sampler_control demoCtl Hrun) as (_ & H & _). apply (H 1%nat 0%nat Hf).
Defined.
