(* ===== verification/ProxyPaths.v ===== *)
(** * Paths of the reverse proxy ([service/reverse_proxy.go])

    A rule accepts a request by its path: an HTTP rule by a prefix of whole
    segments, a DNS-over-HTTPS rule by the exact path.  When a rule is saved,
    its condition is compared with those of the other rules on the same
    listener; when a request is forwarded, the matched prefix is cut off its
    path, in plain and in percent-encoded form. *)

From stdpp Require Import base list strings.
From Stdlib Require Import Ascii ZArith Lia.
From S2P Require Import Prelude GoStrings.

(** ** Normal forms *)

Definition normalizeReverseProxyPath (raw : string) : string :=
  let value := trim_space raw in
  if String.eqb value "" then ""
  else if has_prefix value "/" then value else "/" +:+ value.

(** The loop that cuts slashes off the end as long as more than one byte is
    left; on the reversed string. *)
Fixpoint dropSlashes (r : string) : string :=
  match r with
  | String c (String _ _ as t) => if Ascii.eqb c "/"%char then dropSlashes t else r
  | _ => r
  end.
Definition trimSlashes (value : string) : string := srev (dropSlashes (srev value)).

Definition reverseProxyNormalizePathPrefix (raw : string) : string :=
  let value := normalizeReverseProxyPath raw in
  if String.eqb value "" || String.eqb value "/" then "" else trimSlashes value.

Definition normalizeReverseProxyDNSPath (raw : string) : string :=
  let value := trim_space raw in
  if String.eqb value "" then ""
  else trimSlashes (if has_prefix value "/" then value else "/" +:+ value).

(** [reverseProxyDNSRulePath] of the stored path. *)
Definition reverseProxyDNSRulePath (listenDNSPath : string) : string :=
  let path := normalizeReverseProxyDNSPath listenDNSPath in
  if String.eqb path "" then "/dns-query" else path.

(** ** Overlap of two conditions *)

Definition reverseProxyRulePathsOverlap (a b : string) : bool :=
  let a := reverseProxyNormalizePathPrefix a in
  let b := reverseProxyNormalizePathPrefix b in
  if String.eqb a "" || String.eqb b "" then true
  else if String.eqb a b then true
  else has_prefix a (b +:+ "/") || has_prefix b (a +:+ "/").

Definition pathCondition (raw : string) (exact : bool) : string :=
  if exact then reverseProxyDNSRulePath raw else reverseProxyNormalizePathPrefix raw.

Definition reverseProxyHTTPPathConditionsOverlap (a : string) (aExact : bool) (b : string) (bExact : bool) : bool :=
  let a := pathCondition a aExact in
  let b := pathCondition b bExact in
  if aExact && bExact then String.eqb a b
  else if aExact then String.eqb b "" || String.eqb a b || has_prefix a (b +:+ "/")
  else if bExact then String.eqb a "" || String.eqb b a || has_prefix b (a +:+ "/")
  else reverseProxyRulePathsOverlap a b.

(** ** The match of a request *)

Definition reverseProxyRulePathMatch (pathPrefix path : string) : bool :=
  let expected := reverseProxyNormalizePathPrefix pathPrefix in
  if String.eqb expected "" then true
  else
    let actual := normalizeReverseProxyPath path in
    let actual := if String.eqb actual "" then "/" else actual in
    String.eqb actual expected || has_prefix actual (expected +:+ "/").

Definition dnsPathMatch (listenDNSPath path : string) : bool :=
  let actual := normalizeReverseProxyDNSPath path in
  let actual := if String.eqb actual "" then "/" else actual in
  String.eqb actual (reverseProxyDNSRulePath listenDNSPath).

(** [raw]: the path the rule has for its kind, exact for DNS over HTTPS. *)
Definition reverseProxyRuleRequestPathMatch (raw : string) (exact : bool) (path : string) : bool :=
  if exact then dnsPathMatch raw path else reverseProxyRulePathMatch raw path.

(** ** Facts about normal forms *)

(** A path: it begins with a slash. *)
Definition rooted (s : string) : Prop := exists t, s = String "/" t.
(** It does not end with one, unless it is the root. *)
Definition closed (s : string) : Prop := s = "/" \/ (rooted s /\ has_suffix s "/" = false).

Fixpoint slashes (n : nat) : string := match n with O => "" | S n => String "/" (slashes n) end.

Lemma normalizePath_rooted raw : normalizeReverseProxyPath raw = "" \/ rooted (normalizeReverseProxyPath raw).
Proof.
  unfold normalizeReverseProxyPath. destruct (String.eqb_spec (trim_space raw) ""); [by left|right].
  destruct (has_prefix (trim_space raw) "/") eqn:E; [|by exists (trim_space raw)].
  apply has_prefix_spec in E as [r ->]. by exists r.
Qed.

(** A string that starts with a slash and does not end in a space is trimmed. *)
Lemma trim_space_rooted s : rooted s -> strip_any (srev <$> spaces) (srev s) = None -> trim_space s = s.
Proof. intros [t ->] H. apply trim_space_both; [|done]. by apply strip_spaces_plain. Qed.

Lemma trim_space_slash s : rooted s -> trim_space (s +:+ "/") = s +:+ "/".
Proof.
  intros [t ->]. apply trim_space_rooted; [by exists (t +:+ "/")|]. rewrite srev_app. by apply strip_rev_spaces_plain.
Qed.

Lemma normalizePath_slash s : rooted s -> normalizeReverseProxyPath (s +:+ "/") = s +:+ "/".
Proof.
  intros Hs. unfold normalizeReverseProxyPath. rewrite trim_space_slash by done.
  destruct Hs as [t ->]. rewrite app_cons. simpl. done.
Qed.

Lemma dropSlashes_spec r c : exists n, r +:+ String c "" = slashes n +:+ dropSlashes (r +:+ String c "").
Proof.
  induction r as [|d r [n IH]]; [by exists 0%nat|]. rewrite app_cons.
  destruct (r +:+ String c "") as [|e t] eqn:E; [by destruct r|]. simpl.
  destruct (Ascii.eqb_spec d "/"%char) as [->|]; [|by exists 0%nat].
  exists (S n). simpl. rewrite app_cons. f_equal. exact IH.
Qed.

Lemma dropSlashes_end r : dropSlashes (r +:+ "/") = "/" \/ has_prefix (dropSlashes (r +:+ "/")) "/" = false.
Proof.
  induction r as [|d r IH]; [by left|]. rewrite app_cons.
  destruct (r +:+ "/") as [|e t] eqn:E; [by destruct r|]. simpl.
  destruct (Ascii.eqb_spec d "/"%char) as [->|Hd]; [exact IH|right]. unfold has_prefix. cbn [strip_prefix].
  destruct (Ascii.eqb_spec "/"%char d); [by subst|done].
Qed.

Lemma slashes_snoc n : slashes n +:+ "/" = String "/" (slashes n).
Proof. induction n as [|n IH]; [done|]. simpl. by rewrite app_cons, IH. Qed.

Lemma srev_slashes n : srev (slashes n) = slashes n.
Proof.
  induction n as [|n IH]; [done|]. simpl. change (String "/" (slashes n)) with ("/" +:+ slashes n) at 1.
  rewrite srev_app, IH. apply slashes_snoc.
Qed.

(** What the loop leaves, and what it cut off. *)
Lemma trimSlashes_spec s : rooted s -> closed (trimSlashes s) /\ exists n, s = trimSlashes s +:+ slashes n.
Proof.
  intros [t ->]. change (String "/" t) with ("/" +:+ t). unfold trimSlashes. rewrite srev_app.
  change (srev "/") with "/". destruct (dropSlashes_spec (srev t) "/") as [n Hn].
  assert ("/" +:+ t = srev (dropSlashes (srev t +:+ "/")) +:+ slashes n) as Hs.
  { rewrite <- (srev_slashes n), <- srev_app, <- Hn, srev_app, srev_involutive. done. }
  split; [|by exists n]. destruct (dropSlashes_end (srev t)) as [E|E]; [left; by rewrite E|right].
  split; [|unfold has_suffix; by rewrite srev_involutive].
  destruct (srev (dropSlashes (srev t +:+ "/"))) as [|c u] eqn:Eu.
  - exfalso. assert (dropSlashes (srev t +:+ "/") = "") as Ed
      by (by rewrite <- (srev_involutive (dropSlashes _)), Eu).
    rewrite Ed, sapp_nil_r in Hn. clear -Ed Hn. induction n as [|n IH]; [by destruct (srev t)|].
    rewrite Hn in Ed. clear -Ed. simpl in Ed. induction n as [|n IH]; [done|]. simpl in Ed. by apply IH.
  - rewrite !app_cons in Hs. injection Hs as <- _. by exists u.
Qed.

Lemma closed_slashes a n b : closed a -> closed b -> a +:+ slashes n = b -> a = b.
Proof.
  intros Ha Hb E. destruct n as [|n]; [simpl in E; by rewrite sapp_nil_r in E|]. exfalso.
  assert (has_suffix b "/" = true) as Hs.
  { apply has_suffix_spec. exists (a +:+ slashes n). subst b. simpl. by rewrite sapp_assoc, slashes_snoc. }
  destruct Hb as [->|[_ Hb]]; [|congruence]. destruct Ha as [->|[[t ->] _]].
  - simpl in E. by rewrite app_cons in E.
  - rewrite app_cons in E. injection E as E. apply sapp_eq_nil in E as [_ E]. done.
Qed.

Lemma closed_rooted a : closed a -> rooted a.
Proof. intros [->|[? _]]; [by exists ""|done]. Qed.

Lemma slashes_prefix k z w : slashes k = z +:+ w -> exists m, z = slashes m.
Proof.
  revert z. induction k as [|k IH]; intros z Ez; simpl in Ez.
  - symmetry in Ez. apply sapp_eq_nil in Ez as [-> _]. by exists 0%nat.
  - destruct z as [|c z]; [by exists 0%nat|]. rewrite app_cons in Ez. injection Ez as <- Ez.
    destruct (IH z Ez) as [m ->]. by exists (S m).
Qed.

Lemma trimSlashes_closed a n : closed a -> trimSlashes (a +:+ slashes n) = a.
Proof.
  intros Ha. destruct (closed_rooted _ Ha) as [t Et].
  destruct (trimSlashes_spec (a +:+ slashes n)) as [Hc [k Hk]]; [exists (t +:+ slashes n); by rewrite Et, app_cons|].
  destruct (sapp_split _ _ _ _ Hk) as [(z & E & Ez)|(z & E & Ez)].
  - destruct (slashes_prefix _ _ _ Ez) as [m ->]. by eapply (closed_slashes _ m); [..|symmetry].
  - destruct (slashes_prefix _ _ _ Ez) as [m ->]. symmetry. by eapply (closed_slashes _ m); [..|symmetry].
Qed.

Lemma prefix_closed raw :
  reverseProxyNormalizePathPrefix raw = "" \/ closed (reverseProxyNormalizePathPrefix raw).
Proof.
  unfold reverseProxyNormalizePathPrefix. destruct (normalizePath_rooted raw) as [->|Hr]; [by left|].
  destruct (String.eqb _ "" || _); [by left|right]. by apply trimSlashes_spec.
Qed.

(** The DNS form of a path is its normal form without the slashes at the end. *)
Lemma dnsPath_eq raw :
  normalizeReverseProxyDNSPath raw =
  if String.eqb (normalizeReverseProxyPath raw) "" then "" else trimSlashes (normalizeReverseProxyPath raw).
Proof.
  unfold normalizeReverseProxyDNSPath, normalizeReverseProxyPath.
  destruct (String.eqb_spec (trim_space raw) "") as [|Hne]; [done|].
  destruct (has_prefix (trim_space raw) "/"); [|done].
  by destruct (String.eqb_spec (trim_space raw) "").
Qed.

Lemma dnsRulePath_closed raw : closed (reverseProxyDNSRulePath raw).
Proof.
  unfold reverseProxyDNSRulePath. rewrite dnsPath_eq.
  assert (closed "/dns-query") as Hq by (right; split; [by eexists|vm_compute; reflexivity]).
  destruct (normalizePath_rooted raw) as [->|Hr]; [done|].
  destruct (String.eqb (normalizeReverseProxyPath raw) ""); [done|].
  destruct (String.eqb (trimSlashes _) ""); [done|]. by apply trimSlashes_spec.
Qed.

(** The path a request is matched with. *)
Definition actualPath (path : string) : string :=
  let actual := normalizeReverseProxyPath path in if String.eqb actual "" then "/" else actual.

Lemma actualPath_rooted path : rooted (actualPath path).
Proof.
  unfold actualPath. destruct (normalizePath_rooted path) as [->|Hr]; [by exists ""|].
  by destruct (String.eqb _ ""); [exists ""|].
Qed.

Lemma dnsPathMatch_spec raw path :
  dnsPathMatch raw path = true <-> exists n, actualPath path = reverseProxyDNSRulePath raw +:+ slashes n.
Proof.
  unfold dnsPathMatch. pose proof (dnsRulePath_closed raw) as Hc.
  set (a := reverseProxyDNSRulePath raw) in *. rewrite dnsPath_eq, String.eqb_eq. unfold actualPath.
  destruct (normalizePath_rooted path) as [->|Hr].
  - simpl. split.
    + intros <-. by exists 0%nat.
    + intros [n Hn]. symmetry. eapply closed_slashes; [done|by left|done].
  - destruct Hr as [t Et]. rewrite Et. simpl.
    destruct (trimSlashes_spec (String "/" t)) as [Hc' [n Hn]]; [by exists t|].
    destruct (String.eqb_spec (trimSlashes (String "/" t)) "") as [E|_].
    { rewrite E in Hc'. by destruct Hc' as [|[[? ?] _]]. }
    split; [intros <-; by exists n|]. intros [k Hk]. rewrite Hk. by apply trimSlashes_closed.
Qed.

Lemma prefixMatch_spec raw path :
  reverseProxyRulePathMatch raw path = true <->
  reverseProxyNormalizePathPrefix raw = "" \/
  actualPath path = reverseProxyNormalizePathPrefix raw \/
  exists r, actualPath path = reverseProxyNormalizePathPrefix raw +:+ String "/" r.
Proof.
  unfold reverseProxyRulePathMatch. destruct (String.eqb_spec (reverseProxyNormalizePathPrefix raw) "") as [->|Hne].
  { split; [by left|done]. }
  fold (actualPath path). rewrite orb_true_iff, String.eqb_eq, has_prefix_spec.
  setoid_rewrite sapp_assoc. tauto.
Qed.

(** ** Saving and matching agree *)

(** A prefix whose normal form is not changed by normalising it once more: no
    space before its trailing slashes, and not two or more slashes alone. *)
Definition stablePath (raw : string) (exact : bool) : Prop :=
  exact = true \/
  reverseProxyNormalizePathPrefix (reverseProxyNormalizePathPrefix raw) = reverseProxyNormalizePathPrefix raw.

(** The segments of one condition start with those of the other. *)
Definition extends (a b : string) : Prop := a = b \/ exists r, a = b +:+ String "/" r.

Lemma exact_prefix_common a b n :
  closed a -> closed b -> extends (a +:+ slashes n) b -> extends a b.
Proof.
  intros Ha Hb [E|[r E]]; [left; by eapply closed_slashes|].
  destruct (sapp_split _ _ _ _ E) as [(z & -> & Ez)|(z & -> & Ez)].
  - destruct z as [|c z]; [left; by rewrite sapp_nil_r|]. rewrite app_cons in Ez. injection Ez as <- _.
    right. by exists z.
  - destruct (slashes_prefix _ _ _ Ez) as [m ->]. left. by eapply closed_slashes.
Qed.

Lemma extends_common p a b : extends p a -> extends p b -> extends a b \/ extends b a.
Proof.
  assert (forall a b x y, a +:+ x = b +:+ y -> (x = "" \/ exists r, x = String "/" r) ->
            (y = "" \/ exists r, y = String "/" r) -> extends a b \/ extends b a) as H.
  { intros a' b' x y E Hx Hy. destruct (sapp_split _ _ _ _ E) as [(z & -> & Ez)|(z & -> & Ez)].
    - left. destruct z as [|c z]; [left; by rewrite sapp_nil_r|]. right.
      destruct Hy as [->|[r ->]]; [done|]. rewrite app_cons in Ez. injection Ez as <- _. by exists z.
    - right. destruct z as [|c z]; [left; by rewrite sapp_nil_r|]. right.
      destruct Hx as [->|[r ->]]; [done|]. rewrite app_cons in Ez. injection Ez as <- _. by exists z. }
  intros [->|[r1 ->]] [Hb|[r2 Hb]].
  - by left; left.
  - apply (H a b "" (String "/" r2)); [by rewrite sapp_nil_r|by left|right; by eexists].
  - apply (H a b (String "/" r1) ""); [by rewrite sapp_nil_r|right; by eexists|by left].
  - apply (H a b (String "/" r1) (String "/" r2)); [done|right; by eexists..].
Qed.

Lemma extends_slash a b : extends a b -> exists r, a +:+ "/" = b +:+ String "/" r.
Proof.
  intros [->|[r ->]]; [by exists ""|]. exists (r +:+ "/"). by rewrite sapp_assoc, app_cons.
Qed.

(** A request for a condition of its own, with a slash at the end, is accepted
    by every condition it extends. *)
Lemma condition_slash a raw (exact : bool) :
  closed a ->
  (if exact then a = pathCondition raw true
   else pathCondition raw false = "" \/ extends a (pathCondition raw false)) ->
  reverseProxyRuleRequestPathMatch raw exact (a +:+ "/") = true.
Proof.
  intros Ha H. assert (actualPath (a +:+ "/") = a +:+ "/") as Hp.
  { unfold actualPath. rewrite normalizePath_slash by (by apply closed_rooted).
    destruct (closed_rooted _ Ha) as [t ->]. by rewrite app_cons. }
  destruct exact; simpl.
  - rewrite dnsPathMatch_spec, Hp. exists 1%nat. by rewrite H.
  - rewrite prefixMatch_spec, Hp. simpl in H. destruct H as [H|H]; [by left|].
    right. right. by apply extends_slash.
Qed.

Lemma overlap_eq a b : String.eqb a b || has_prefix a (b +:+ "/") = true <-> extends a b.
Proof. rewrite orb_true_iff, String.eqb_eq, has_prefix_spec. unfold extends. by setoid_rewrite sapp_assoc. Qed.

(** The common content of the branches of the overlap test. *)
Lemma overlap_spec a aExact b bExact :
  stablePath a aExact -> stablePath b bExact ->
  let ca := pathCondition a aExact in
  let cb := pathCondition b bExact in
  reverseProxyHTTPPathConditionsOverlap a aExact b bExact = true <->
  match aExact, bExact with
  | true, true => ca = cb
  | true, false => cb = "" \/ extends ca cb
  | false, true => ca = "" \/ extends cb ca
  | false, false => ca = "" \/ cb = "" \/ extends ca cb \/ extends cb ca
  end.
Proof.
  intros Sa Sb ca cb. unfold reverseProxyHTTPPathConditionsOverlap. fold ca cb.
  destruct aExact, bExact; simpl.
  - apply String.eqb_eq.
  - rewrite <- orb_assoc, orb_true_iff, overlap_eq, String.eqb_eq. tauto.
  - rewrite <- orb_assoc, orb_true_iff, overlap_eq, String.eqb_eq. tauto.
  - destruct Sa as [?|Sa]; [done|]. destruct Sb as [?|Sb]; [done|].
    unfold reverseProxyRulePathsOverlap. simpl in ca, cb. fold ca in Sa. fold cb in Sb. rewrite Sa, Sb.
    destruct (String.eqb_spec ca "") as [|Na]; [simpl; tauto|].
    destruct (String.eqb_spec cb "") as [|Nb]; [simpl; tauto|]. simpl.
    pose proof (overlap_eq ca cb) as H1. pose proof (overlap_eq cb ca) as H2.
    rewrite orb_true_iff in H1, H2. rewrite String.eqb_sym in H2.
    destruct (String.eqb ca cb) eqn:E; [split; [|done]; intros _; right; right; left; by apply H1; left|].
    rewrite orb_true_iff. intuition discriminate.
Qed.

(** A request that two conditions accept makes them overlap. *)
Lemma path_overlap_complete a aExact b bExact path :
  stablePath a aExact -> stablePath b bExact ->
  reverseProxyRuleRequestPathMatch a aExact path = true -> reverseProxyRuleRequestPathMatch b bExact path = true ->
  reverseProxyHTTPPathConditionsOverlap a aExact b bExact = true.
Proof.
  intros Sa Sb Ha Hb. rewrite overlap_spec by done.
  pose proof (dnsRulePath_closed a) as Ea. pose proof (dnsRulePath_closed b) as Eb.
  pose proof (prefix_closed a) as Pa. pose proof (prefix_closed b) as Pb.
  destruct aExact, bExact; cbn [reverseProxyRuleRequestPathMatch pathCondition] in *.
  - apply dnsPathMatch_spec in Ha as [n Hn], Hb as [k Hk]. rewrite Hn in Hk.
    pose proof (trimSlashes_closed _ n Ea) as Ta. rewrite Hk in Ta. by rewrite <- Ta, trimSlashes_closed.
  - apply dnsPathMatch_spec in Ha as [n Hn]. apply prefixMatch_spec in Hb as [Hb|Hb]; [by left|].
    destruct Pb as [Zb|Pb]; [by left|right].
    apply (exact_prefix_common _ _ n); [done..|]. by rewrite <- Hn.
  - apply dnsPathMatch_spec in Hb as [n Hn]. apply prefixMatch_spec in Ha as [Ha|Ha]; [by left|].
    destruct Pa as [Za|Pa]; [by left|right].
    apply (exact_prefix_common _ _ n); [done..|]. by rewrite <- Hn.
  - apply prefixMatch_spec in Ha as [Ha|Ha]; [tauto|]. apply prefixMatch_spec in Hb as [Hb|Hb]; [tauto|].
    right. right. by eapply extends_common.
Qed.



(** A prefix that normalising changes once more escapes the check: both rules
    accept the request, and no overlap is reported. *)
Lemma unstable_overlap_missed :
  reverseProxyHTTPPathConditionsOverlap "/x /" false "/x /y" false = false /\
  reverseProxyRuleRequestPathMatch "/x /" false "/x /y" = true /\
  reverseProxyRuleRequestPathMatch "/x /y" false "/x /y" = true.
Proof. vm_compute. done. Qed.

(** ** Cutting the matched prefix off a request *)

Definition hexByte (n : nat) : ascii :=
  ascii_of_nat (if (n <? 10)%nat then 48 + n else 55 + n).

(** [url.URL.EscapedPath] of a path without a raw form. *)
Definition shouldEscape (c : ascii) : bool :=
  let n := nat_of_ascii c in
  negb (((97 <=? n) && (n <=? 122)) || ((65 <=? n) && (n <=? 90)) || ((48 <=? n) && (n <=? 57))
        || existsb (Ascii.eqb c) ["-"; "_"; "."; "~"; "$"; "&"; "+"; ","; "/"; ":"; ";"; "="; "@"]%char)%nat.

Fixpoint escapePath (s : string) : string :=
  match s with
  | EmptyString => EmptyString
  | String c s' =>
      if shouldEscape c
      then String "%" (String (hexByte (nat_of_ascii c / 16)) (String (hexByte (nat_of_ascii c mod 16)) (escapePath s')))
      else String c (escapePath s')
  end.
Definition escapedPath (path : string) : string := if String.eqb path "*" then "*" else escapePath path.

Definition fromHexDigit (value : ascii) : option nat :=
  let n := nat_of_ascii value in
  if ((48 <=? n) && (n <=? 57))%nat then Some (n - 48)%nat
  else if ((97 <=? n) && (n <=? 102))%nat then Some (n - 97 + 10)%nat
  else if ((65 <=? n) && (n <=? 70))%nat then Some (n - 65 + 10)%nat
  else None.

(** The decoded bytes, each with the raw text that follows it. *)
Fixpoint decodeEscaped (raw : string) : option (list (ascii * string)) :=
  match raw with
  | EmptyString => Some []
  | String c r =>
      if Ascii.eqb c "%"%char then
        match r with
        | String h (String l r') =>
            match fromHexDigit h, fromHexDigit l with
            | Some hi, Some lo => cons (ascii_of_nat (16 * hi + lo), r') <$> decodeEscaped r'
            | _, _ => None
            end
        | _ => None
        end
      else cons (c, r) <$> decodeEscaped r
  end.

Definition decodedText (d : list (ascii * string)) : string := String.string_of_list_ascii d.*1.

Definition reverseProxyTrimEscapedPathPrefix (rawPath prefix : string) : string * bool :=
  if String.eqb rawPath "" || String.eqb prefix "" then (rawPath, String.eqb prefix "")
  else match decodeEscaped rawPath with
       | None => ("", false)
       | Some d =>
           if negb (has_prefix (decodedText d) prefix) then ("", false)
           else
             let n := String.length prefix in
             if match d !! n with Some (c, _) => negb (Ascii.eqb c "/"%char) | None => false end then ("", false)
             else match d !! (n - 1)%nat with
                  | None => ("", false)
                  | Some (_, trimmed) =>
                      if String.eqb trimmed "" then ("/", true)
                      else (if has_prefix trimmed "/" then trimmed else "/" +:+ trimmed, true)
                  end
       end.

Definition reverseProxyTrimMatchedPathPrefix (path rawPath prefix : string) : string * string :=
  let normalizedPrefix := reverseProxyNormalizePathPrefix prefix in
  let normalizedPath := actualPath path in
  let normalizedRawPath := trim_space rawPath in
  if String.eqb normalizedPrefix "" then (normalizedPath, normalizedRawPath)
  else
    let normalizedRawPath :=
      if String.eqb normalizedRawPath "" then escapedPath normalizedPath else normalizedRawPath in
    if negb (String.eqb normalizedPath normalizedPrefix) && negb (has_prefix normalizedPath (normalizedPrefix +:+ "/"))
    then (normalizedPath, normalizedRawPath)
    else
      let trimmedPath := trim_prefix normalizedPath normalizedPrefix in
      if String.eqb trimmedPath normalizedPath then (normalizedPath, normalizedRawPath)
      else
        let trimmedPath := if String.eqb trimmedPath "" then "/"
                           else if has_prefix trimmedPath "/" then trimmedPath else "/" +:+ trimmedPath in
        if String.eqb normalizedRawPath "" then (trimmedPath, escapedPath trimmedPath)
        else match reverseProxyTrimEscapedPathPrefix normalizedRawPath normalizedPrefix with
             | (trimmedRawPath, true) => (trimmedPath, trimmedRawPath)
             | (_, false) => (trimmedPath, escapedPath trimmedPath)
             end.

(** What a server makes of a raw path. *)
Definition unescape (raw : string) : option string := decodedText <$> decodeEscaped raw.

Lemma decodedText_step c t d : decodedText ((c, t) :: d) = String c (decodedText d).
Proof. done. Qed.

Lemma escape_byte c s :
  decodeEscaped (escapePath (String c s)) =
  cons (c, escapePath s) <$> decodeEscaped (escapePath s).
Proof.
  cbn [escapePath]. destruct (shouldEscape c) eqn:E.
  - cbn [decodeEscaped]. change (Ascii.eqb "%" "%") with true. cbn iota.
    assert (fromHexDigit (hexByte (nat_of_ascii c / 16)) = Some (nat_of_ascii c / 16)%nat /\
            fromHexDigit (hexByte (nat_of_ascii c mod 16)) = Some (nat_of_ascii c mod 16)%nat /\
            ascii_of_nat (16 * (nat_of_ascii c / 16) + nat_of_ascii c mod 16) = c) as (-> & -> & ->); [|done].
    clear. destruct c as [[] [] [] [] [] [] [] []]; vm_compute; done.
  - cbn [decodeEscaped]. destruct (Ascii.eqb_spec c "%"%char) as [->|]; [by vm_compute in E|done].
Qed.

Lemma unescape_escape s : unescape (escapePath s) = Some s.
Proof.
  unfold unescape. induction s as [|c s IH]; [done|]. rewrite escape_byte.
  destruct (decodeEscaped (escapePath s)) as [d|]; [|done]. simpl in *. injection IH as IH.
  by rewrite decodedText_step, IH.
Qed.

(** The raw text behind the n-th byte decodes to what follows the byte. *)
Lemma decodeEscaped_tail raw : forall d n c t,
  decodeEscaped raw = Some d -> d !! n = Some (c, t) -> decodeEscaped t = Some (drop (S n) d).
Proof.
  induction raw as [raw IH] using (induction_ltof1 _ String.length). unfold ltof in IH.
  intros d n c t Hd Hn. destruct raw as [|a r]; simpl in Hd; [injection Hd as <-; done|].
  assert (forall b r' d', (String.length r' <= String.length r)%nat -> decodeEscaped r' = Some d' ->
            d = (b, r') :: d' -> decodeEscaped t = Some (drop (S n) d)) as Hstep.
  { intros b r' d' Hlen Hr' ->. destruct n as [|n]; simpl in Hn |- *.
    - injection Hn as <- <-. by rewrite drop_0.
    - eapply (IH r'); [simpl; lia|done..]. }
  destruct (Ascii.eqb a "%").
  - destruct r as [|h [|l r']]; [done..|]. destruct (fromHexDigit h) as [hi|]; [|done].
    destruct (fromHexDigit l) as [lo|]; [|done]. destruct (decodeEscaped r') as [d'|] eqn:E; [|done].
    injection Hd as <-. eapply (Hstep _ r' d'); [simpl; lia|done..].
  - destruct (decodeEscaped r) as [d'|] eqn:E; [|done]. injection Hd as <-. by eapply (Hstep _ r d').
Qed.

Lemma decodeEscaped_nil t : decodeEscaped t = Some [] -> t = "".
Proof.
  destruct t as [|a t]; [done|]. cbn [decodeEscaped].
  destruct (Ascii.eqb a "%"); [|by destruct (decodeEscaped t)].
  destruct t as [|h [|l t]]; [done..|]. destruct (fromHexDigit h); [|done]. destruct (fromHexDigit l); [|done].
  by destruct (decodeEscaped t).
Qed.

Lemma decodedText_drop p r d :
  decodedText d = p +:+ r -> decodedText (drop (String.length p) d) = r.
Proof.
  revert d. induction p as [|c p IH]; intros d H; simpl; [by rewrite drop_0|].
  destruct d as [|[a t] d]; [done|]. rewrite app_cons, decodedText_step in H.
  injection H as <- H. simpl. by apply IH.
Qed.

Lemma decodedText_cons d c s : decodedText d = String c s -> exists t d', d = (c, t) :: d' /\ decodedText d' = s.
Proof. destruct d as [|[a t] d]; [done|]. intros [= <- <-]. by exists t, d. Qed.

Lemma trimEscaped_spec raw p r :
  p <> "" -> unescape raw = Some (p +:+ r) -> r = "" \/ rooted r ->
  exists raw', reverseProxyTrimEscapedPathPrefix raw p = (raw', true) /\
    let rest := if String.eqb r "" then "/" else r in
    unescape raw' = Some rest \/ unescape raw' = Some (String "/" rest).
Proof.
  intros Hp Hraw Hr. unfold unescape in Hraw. destruct (decodeEscaped raw) as [d|] eqn:Ed; [|done].
  simpl in Hraw. injection Hraw as Hd.
  unfold reverseProxyTrimEscapedPathPrefix. rewrite Ed.
  destruct (String.eqb_spec raw "") as [->|_].
  { injection Ed as <-. symmetry in Hd. by apply sapp_eq_nil in Hd as [? _]. }
  destruct (String.eqb_spec p "") as [|_]; [done|]. simpl.
  assert (has_prefix (decodedText d) p = true) as -> by (apply has_prefix_spec; by exists r). simpl.
  pose proof (decodedText_drop _ _ _ Hd) as Hdrop.
  assert (exists c t, d !! (String.length p - 1)%nat = Some (c, t)) as (c & t & Hn).
  { destruct (d !! (String.length p - 1)%nat) as [[c t]|] eqn:E; [by exists c, t|]. exfalso.
    apply lookup_ge_None_1 in E. assert (String.length (decodedText d) = length d) as Hl.
    { clear. induction d as [|[a t] d IH]; [done|]. rewrite decodedText_step. simpl. by rewrite IH. }
    rewrite Hd, length_sapp in Hl. destruct p; [done|]. simpl in *. lia. }
  pose proof (decodeEscaped_tail _ _ _ _ _ Ed Hn) as Ht.
  assert (S (String.length p - 1) = String.length p) as El by (destruct p; [done|simpl; lia]). rewrite El in Ht.
  destruct Hr as [->|[r' ->]].
  - destruct (drop (String.length p) d) as [|[a u] d'] eqn:Edrop; [|done].
    assert (d !! String.length p = None) as ->.
    { apply lookup_ge_None_2. apply (f_equal length) in Edrop. rewrite length_drop in Edrop. simpl in Edrop. lia. }
    rewrite Hn, (decodeEscaped_nil t Ht).
    exists "/". split; [done|]. by left.
  - destruct (decodedText_cons _ _ _ Hdrop) as (u & d' & Edrop & Hd').
    assert (d !! String.length p = Some ("/"%char, u)) as ->.
    { rewrite <- (Nat.add_0_r (String.length p)), <- lookup_drop, Edrop. done. }
    simpl. rewrite Hn. destruct (String.eqb_spec t "") as [->|_]; [simpl in Ht; by rewrite Edrop in Ht|].
    assert (unescape t = Some (String "/" r')) as Hu.
    { unfold unescape. rewrite Ht. simpl. by rewrite Hdrop. }
    destruct (has_prefix t "/"); eexists; (split; [done|]); [by left|right].
    unfold unescape in *. cbn [decodeEscaped]. change ("/" +:+ t) with (String "/" t). cbn [decodeEscaped].
    change (Ascii.eqb "/" "%") with false. cbn iota. destruct (decodeEscaped t) as [dt|]; [|done].
    simpl in *. injection Hu as Hu. by rewrite decodedText_step, Hu.
Qed.

(** The part of a request path behind the matched prefix is forwarded
    intact.  For a request the rule accepts, the forwarded path begins with a
    slash and continues exactly where the prefix ends; the encoded form
    decodes to the same path, except that a slash is put in front of it when
    the slash behind the prefix was itself percent-encoded. *)
Theorem trim_prefix_exact path rawPath prefix :
  reverseProxyRulePathMatch prefix path = true ->
  trim_space rawPath = "" \/ unescape (trim_space rawPath) = Some (actualPath path) ->
  let P := reverseProxyNormalizePathPrefix prefix in
  let '(path', raw') := reverseProxyTrimMatchedPathPrefix path rawPath prefix in
  rooted path' /\
  (P +:+ path' = actualPath path \/ (path' = "/" /\ actualPath path = P)) /\
  (unescape raw' = Some path' \/ unescape raw' = Some (String "/" path') \/ (P = "" /\ raw' = "")).
Proof.
  intros Hm Hraw P. unfold reverseProxyTrimMatchedPathPrefix. fold P.
  pose proof (actualPath_rooted path) as Hroot.
  assert (unescape (escapedPath (actualPath path)) = Some (actualPath path)) as Hesc.
  { unfold escapedPath. destruct Hroot as [t ->]. simpl. apply (unescape_escape (String "/" t)). }
  destruct (String.eqb_spec P "") as [->|HP].
  { split; [done|]. split; [by left|]. destruct Hraw as [->|Hraw]; [right; right; done|by left]. }
  apply prefixMatch_spec in Hm as [?|Hm]; [done|]. fold P in Hm.
  set (raw := if String.eqb (trim_space rawPath) "" then escapedPath (actualPath path) else trim_space rawPath).
  assert (unescape raw = Some (actualPath path)) as Hr.
  { unfold raw. destruct (String.eqb_spec (trim_space rawPath) "") as [E|E]; [done|]. by destruct Hraw. }
  assert (exists r, actualPath path = P +:+ r /\ (r = "" \/ rooted r)) as (r & Hact & Hrr).
  { destruct Hm as [E|[u E]]; [exists ""; rewrite sapp_nil_r; auto|exists (String "/" u)].
    split; [done|right; by exists u]. }
  assert (negb (String.eqb (actualPath path) P) && negb (has_prefix (actualPath path) (P +:+ "/")) = false) as ->.
  { rewrite <- negb_orb. apply negb_false_iff. rewrite overlap_eq. unfold extends. tauto. }
  rewrite Hact, trim_prefix_app.
  destruct (String.eqb_spec r (P +:+ r)) as [E|_].
  { exfalso. apply HP. assert (String.length r = String.length (P +:+ r)) as El by (by rewrite <- E).
    rewrite length_sapp in El. destruct P; [done|]. simpl in El. lia. }
  rewrite Hact in Hr. destruct (trimEscaped_spec raw P r HP Hr Hrr) as (raw' & Et & Hu).
  destruct (String.eqb_spec raw "") as [E|_].
  { rewrite E in Hr. unfold unescape in Hr. simpl in Hr. injection Hr as Hr. symmetry in Hr.
    by apply sapp_eq_nil in Hr as [? _]. }
  rewrite Et. destruct Hrr as [->|[u ->]]; simpl in *.
  - split; [by exists ""|]. split; [right; by rewrite sapp_nil_r|]. tauto.
  - split; [by exists u|]. split; [by left|]. tauto.
Qed.

Lemma trim_prefix_exact_witness :
  let '(path', raw') := reverseProxyTrimMatchedPathPrefix "/api/a/b" "/api/a%2Fb" "/api/" in
  rooted path' /\ path' = "/a/b" /\ raw' = "/a%2Fb".
Proof.
  pose proof (trim_prefix_exact "/api/a/b" "/api/a%2Fb" "/api/") as H.
  specialize (H ltac:(vm_compute; reflexivity) ltac:(right; vm_compute; reflexivity)).
  vm_compute in H |- *. split; [apply H|]. done.
Defined.
