(* ===== verification/BodyRewrite.v ===== *)
(** * Rewriting response bodies ([service/reverse_proxy.go])

    The proxy replaces the origin of the upstream by its own in the bodies of
    text responses, and puts the path prefix of the rule in front of absolute
    paths.  The output must fit the memory that was reserved for it: both
    passes count the output first and give up, with the body unchanged, when
    it does not fit; then they fill a buffer of the exact size.

    A body is a string of bytes and a position in it the rest of the string;
    the loops take one unit of fuel per byte.  Filling a buffer front to back
    is appending to the output: [scan_length] shows that the buffer is filled
    exactly, so no write is out of range and none of it stays zero. *)

From stdpp Require Import base list strings.
From Stdlib Require Import Ascii ZArith Lia.
From S2P Require Import Prelude GoStrings ProxyPaths.

#[local] Open Scope Z_scope.

Definition blen (s : string) : Z := Z.of_nat (String.length s).

(** ** Scanning a body

    A step says what is written for the text at the current position, piece by
    piece, and where the scan goes on. *)

Definition scanStep : Type := string -> list string * string.

Definition appendLength (maximum outputLength : Z) (piece : string) : option Z :=
  if maximum - blen piece <? outputLength then None
  else if max_i64 <? outputLength + blen piece then None
  else Some (outputLength + blen piece).

Fixpoint appendLengths (maximum outputLength : Z) (pieces : list string) : option Z :=
  match pieces with
  | [] => Some outputLength
  | p :: pieces' => match appendLength maximum outputLength p with
                    | Some n => appendLengths maximum n pieces'
                    | None => None
                    end
  end.

Fixpoint countLoop (fuel : nat) (step : scanStep) (maximum outputLength : Z) (rest : string) : option Z :=
  match fuel with
  | O => Some outputLength
  | S fuel' =>
      if String.eqb rest "" then Some outputLength
      else let '(pieces, rest') := step rest in
           match appendLengths maximum outputLength pieces with
           | Some n => countLoop fuel' step maximum n rest'
           | None => None
           end
  end.

Definition join (pieces : list string) : string := foldr String.append "" pieces.

Fixpoint fillLoop (fuel : nat) (step : scanStep) (rest : string) : string :=
  match fuel with
  | O => ""
  | S fuel' =>
      if String.eqb rest "" then ""
      else let '(pieces, rest') := step rest in join pieces +:+ fillLoop fuel' step rest'
  end.

(** ** Origin replacements *)

Record reverseProxyStringReplacement : Type := mkReplacement { Old : string; New : string }.

Definition usefulReplacements (l : list reverseProxyStringReplacement) : list reverseProxyStringReplacement :=
  List.filter (fun r => negb (String.eqb (Old r) "" || String.eqb (Old r) (New r))) l.

(** The first replacement that applies at the position. *)
Fixpoint findReplacement (items : list reverseProxyStringReplacement) (rest : string)
  : option (reverseProxyStringReplacement * string) :=
  match items with
  | [] => None
  | i :: items' => match strip_prefix (Old i) rest with
                   | Some rest' => Some (i, rest')
                   | None => findReplacement items' rest
                   end
  end.

Definition replacementStep (items : list reverseProxyStringReplacement) : scanStep := fun rest =>
  match findReplacement items rest with
  | Some (i, rest') => ([New i], rest')
  | None => match rest with
            | String c rest' => ([String c ""], rest')
            | EmptyString => ([], "")
            end
  end.

Definition reverseProxyApplyBoundedBodyReplacements (body : string)
  (replacements : list reverseProxyStringReplacement) (maximum : Z) : string * bool :=
  if (maximum <? 0) || (maximum <? blen body) then (body, false)
  else match usefulReplacements replacements with
       | [] => (body, true)
       | items =>
           let step := replacementStep items in
           match countLoop (String.length body) step maximum 0 body with
           | None => (body, false)
           | Some _ => (fillLoop (String.length body) step body, true)
           end
       end.

(** ** Absolute paths *)

Definition quote : ascii := ascii_of_nat 34.
Definition backslash : ascii := ascii_of_nat 92.
Definition isQuote (c : ascii) : bool := Ascii.eqb c quote || Ascii.eqb c "'"%char.

(** What may follow a prefix that is already there. *)
Definition pathBoundary (rest : string) : bool :=
  match rest with
  | EmptyString => true
  | String c rest' =>
      if existsb (Ascii.eqb c)
           ["/"; quote; "'"; "?"; "#"; ")"; " "; ascii_of_nat 9; ascii_of_nat 10; ascii_of_nat 13]%char
      then true
      else if Ascii.eqb c backslash then has_prefix rest' "/" else false
  end.

(** [reverseProxyBodyPathHasPrefix(body, start, prefix)], with the text from
    [start] on. *)
Definition reverseProxyBodyPathHasPrefix (rest prefix : string) : bool :=
  let prefix := reverseProxyNormalizePathPrefix prefix in
  if String.eqb prefix "" || String.eqb rest "" then false
  else match strip_prefix prefix rest with
       | None => false
       | Some after => pathBoundary after
       end.

(** The text after [url(/], unless a second slash follows. *)
Definition needsCSSPrefix (rest : string) : option string :=
  match strip_prefix "url(/" rest with
  | Some after => if has_prefix after "/" then None else Some after
  | None => None
  end.

Definition needsQuotedPrefix (prefix rest : string) : bool :=
  match rest with
  | EmptyString => false
  | String c rest1 =>
      if negb (isQuote c) then false
      else if has_prefix rest1 "/" then
        negb (has_prefix rest1 "//") && negb (reverseProxyBodyPathHasPrefix rest1 prefix)
      else match rest1 with
           | String c1 rest2 =>
               if Ascii.eqb c1 backslash && has_prefix rest2 "/" then
                 negb (has_prefix rest2 (String "/" (String backslash "/"))) &&
                 negb (reverseProxyBodyPathHasPrefix rest2 prefix)
               else false
           | EmptyString => false
           end
  end.

Definition relativeStep (prefix : string) : scanStep := fun rest =>
  match needsCSSPrefix rest with
  | Some after => (["url(" +:+ prefix +:+ "/"], after)
  | None =>
      match rest with
      | EmptyString => ([], "")
      | String c rest' =>
          (if needsQuotedPrefix prefix rest then [String c ""; prefix] else [String c ""], rest')
      end
  end.

Definition reverseProxyRewriteRelativeBodyPathsBounded (body prefix : string) (maximum : Z) : string * bool :=
  let prefix := reverseProxyNormalizePathPrefix prefix in
  if String.eqb prefix "" || String.eqb body "" then (body, blen body <=? maximum)
  else if (maximum <? 0) || (maximum <? blen body) then (body, false)
  else
    let step := relativeStep prefix in
    match countLoop (String.length body) step maximum 0 body with
    | None => (body, false)
    | Some _ => (fillLoop (String.length body) step body, true)
    end.

(** ** Reference: what the two passes have to produce *)

(** At the start of [s] the replacement [i] is the first that applies. *)
Definition Applies (items : list reverseProxyStringReplacement) (i : reverseProxyStringReplacement)
  (s s' : string) : Prop :=
  s = Old i +:+ s' /\
  exists before after, items = before ++ i :: after /\
    Forall (fun j => forall r, s <> Old j +:+ r) before.

Inductive Replaced (items : list reverseProxyStringReplacement) : string -> string -> Prop :=
| replaced_end : Replaced items "" ""
| replaced_hit i s s' t :
    Applies items i s s' -> Old i <> "" -> Replaced items s' t ->
    Replaced items s (New i +:+ t)
| replaced_miss c s t :
    (forall i s', ~ Applies items i (String c s) s') -> Replaced items s t ->
    Replaced items (String c s) (String c t).

(** A quoted text that is an absolute path, plain or with its slash escaped,
    and does not carry the prefix yet. *)
Definition startsWith (p s : string) : Prop := exists r, s = p +:+ r.

Definition Prefixed (prefix path : string) : Prop :=
  exists after, path = prefix +:+ after /\ pathBoundary after = true.

Definition NeedsPrefix (prefix path : string) : Prop :=
  (startsWith "/" path /\ ~ startsWith "//" path /\ ~ Prefixed prefix path) \/
  (exists path', path = String backslash path' /\ startsWith "/" path' /\
     ~ startsWith (String "/" (String backslash "/")) path' /\ ~ Prefixed prefix path').

Definition CSSPath (s after : string) : Prop := s = "url(/" +:+ after /\ ~ startsWith "/" after.

Inductive Relocated (prefix : string) : string -> string -> Prop :=
| relocated_end : Relocated prefix "" ""
| relocated_css s after t :
    CSSPath s after -> Relocated prefix after t ->
    Relocated prefix s ("url(" +:+ prefix +:+ "/" +:+ t)
| relocated_quoted c s t :
    (forall after, ~ CSSPath (String c s) after) ->
    isQuote c = true -> NeedsPrefix prefix s -> Relocated prefix s t ->
    Relocated prefix (String c s) (String c (prefix +:+ t))
| relocated_other c s t :
    (forall after, ~ CSSPath (String c s) after) ->
    ~ (isQuote c = true /\ NeedsPrefix prefix s) -> Relocated prefix s t ->
    Relocated prefix (String c s) (String c t).

(** ** Counting and filling agree *)

Lemma blen_app s t : blen (s +:+ t) = blen s + blen t.
Proof. unfold blen. rewrite length_sapp. lia. Qed.

Lemma blen_nonneg s : 0 <= blen s.
Proof. unfold blen. lia. Qed.

Lemma appendLengths_spec maximum pieces : maximum <= max_i64 -> forall n, n <= maximum ->
  appendLengths maximum n pieces =
  if n + blen (join pieces) <=? maximum then Some (n + blen (join pieces)) else None.
Proof.
  intros Hmax. induction pieces as [|p pieces IH]; intros n Hn; simpl.
  - change (blen "") with 0. zcase; [f_equal|]; lia.
  - unfold appendLength. rewrite blen_app. pose proof (blen_nonneg p).
    pose proof (blen_nonneg (join pieces)).
    zcase; [zcase; [lia|done]|]. zcase; [lia|]. rewrite IH by lia. by rewrite Z.add_assoc.
Qed.

(** The counted length is exactly the length of what is written. *)
Lemma scan_length step maximum : maximum <= max_i64 -> forall fuel n rest, n <= maximum ->
  countLoop fuel step maximum n rest =
  if n + blen (fillLoop fuel step rest) <=? maximum
  then Some (n + blen (fillLoop fuel step rest)) else None.
Proof.
  intros Hmax. induction fuel as [|fuel IH]; intros n rest Hn; simpl.
  - change (blen "") with 0. zcase; [f_equal|]; lia.
  - destruct (String.eqb rest ""). { change (blen "") with 0. zcase; [f_equal|]; lia. }
    destruct (step rest) as [pieces rest']. rewrite appendLengths_spec by done. rewrite blen_app.
    pose proof (blen_nonneg (fillLoop fuel step rest')).
    destruct (Z.leb_spec (n + blen (join pieces)) maximum).
    + rewrite IH by done. by rewrite Z.add_assoc.
    + zcase; [lia|done].
Qed.

(** ** Origin replacements meet the reference *)

Lemma strip_prefix_iff p s r : strip_prefix p s = Some r <-> s = p +:+ r.
Proof. split; [apply strip_prefix_spec|]. intros ->. apply strip_prefix_of. Qed.

Lemma strip_prefix_none p s : strip_prefix p s = None <-> forall r, s <> p +:+ r.
Proof.
  split.
  - intros H r ->. by rewrite strip_prefix_of in H.
  - intros H. destruct (strip_prefix p s) as [r|] eqn:E; [|done].
    apply strip_prefix_iff in E. by destruct (H r).
Qed.

Lemma findReplacement_spec items s i s' :
  findReplacement items s = Some (i, s') <-> Applies items i s s'.
Proof.
  induction items as [|j items IH]; simpl.
  - split; [done|]. intros (_ & before & after & H & _). by destruct before.
  - destruct (strip_prefix (Old j) s) as [r|] eqn:E.
    + apply strip_prefix_iff in E. split.
      * intros [= -> ->]. split; [done|]. exists [], items. by rewrite Forall_nil.
      * intros (Hs & before & after & Hl & Hb). destruct before as [|j' before].
        -- injection Hl as -> ->. rewrite Hs in E. by rewrite (sapp_inj _ _ _ E).
        -- injection Hl as -> ->. apply Forall_cons in Hb as [Hj _]. by destruct (Hj r).
    + rewrite IH. rewrite strip_prefix_none in E. split.
      * intros (Hs & before & after & -> & Hb). split; [done|].
        exists (j :: before), after. split; [done|]. by constructor.
      * intros (Hs & before & after & Hl & Hb). destruct before as [|j' before].
        -- injection Hl as -> ->. by destruct (E s').
        -- injection Hl as -> ->. apply Forall_cons in Hb as [_ Hb]. split; [done|]. by exists before, after.
Qed.

Lemma findReplacement_none items s :
  findReplacement items s = None <-> forall i s', ~ Applies items i s s'.
Proof.
  split.
  - intros H i s' Ha%findReplacement_spec. congruence.
  - intros H. destruct (findReplacement items s) as [[i s']|] eqn:E; [|done].
    apply findReplacement_spec in E. by destruct (H i s').
Qed.

Lemma Applies_functional items s i s' j s'' : Applies items i s s' -> Applies items j s s'' -> i = j /\ s' = s''.
Proof. rewrite <-!findReplacement_spec. intros ->. by intros [= -> ->]. Qed.

Lemma Replaced_functional items s t : Replaced items s t -> forall t', Replaced items s t' -> t = t'.
Proof.
  induction 1 as [|i s s' t Ha Ho Hr IH|c s t Hn Hr IH]; intros t' Ht; inversion Ht as [|j ? s'' u Hb Ho' Hr'|? ? u Hn' Hr']; subst.
  - done.
  - destruct Hb as [Hb _]. symmetry in Hb. by apply sapp_eq_nil in Hb as [? _].
  - destruct Ha as [Ha _]. symmetry in Ha. by apply sapp_eq_nil in Ha as [? _].
  - destruct (Applies_functional _ _ _ _ _ _ Ha Hb) as [-> ->]. by rewrite (IH _ Hr').
  - by destruct (Hn' i s').
  - by destruct (Hn j s'').
  - by rewrite (IH _ Hr').
Qed.

Lemma join_single s : join [s] = s.
Proof. apply sapp_nil_r. Qed.

Lemma fill_replaced items : Forall (fun i => Old i <> "") items -> forall fuel s,
  (String.length s <= fuel)%nat -> Replaced items s (fillLoop fuel (replacementStep items) s).
Proof.
  intros Hold. induction fuel as [|fuel IH]; intros s Hs.
  { destruct s; [constructor|simpl in Hs; lia]. }
  cbn [fillLoop]. destruct (String.eqb_spec s "") as [->|Hne]; [constructor|].
  unfold replacementStep. destruct (findReplacement items s) as [[i s']|] eqn:E.
  - apply findReplacement_spec in E. rewrite join_single.
    assert (Old i <> "") as Ho.
    { destruct E as (_ & before & after & -> & _). rewrite Forall_app, Forall_cons in Hold. tauto. }
    eapply replaced_hit; [done|done|]. apply IH.
    destruct E as [-> _]. rewrite length_sapp in Hs.
    destruct (Old i); [done|]. simpl in Hs. lia.
  - rewrite findReplacement_none in E. destruct s as [|c s]; [done|].
    rewrite join_single. apply replaced_miss; [done|]. apply IH. simpl in Hs. lia.
Qed.

Lemma usefulReplacements_old l : Forall (fun i => Old i <> "") (usefulReplacements l).
Proof.
  apply List.Forall_forall. intros i Hi%List.filter_In. destruct Hi as [_ Hi].
  rewrite Bool.negb_true_iff, Bool.orb_false_iff, !String.eqb_neq in Hi. tauto.
Qed.

Lemma Replaced_nil s : Replaced [] s s.
Proof.
  induction s as [|c s IH]; constructor; [|done].
  intros i s' (_ & before & after & H & _). by destruct before.
Qed.

Lemma replaced_exists l body : exists t, Replaced (usefulReplacements l) body t.
Proof. eexists. apply fill_replaced; [apply usefulReplacements_old|done]. Qed.

(** The first pass is the reference, cut off at the limit. *)
Lemma replacements_spec body l maximum t :
  maximum <= max_i64 -> Replaced (usefulReplacements l) body t ->
  reverseProxyApplyBoundedBodyReplacements body l maximum =
  if (blen body <=? maximum) && (blen t <=? maximum) then (t, true) else (body, false).
Proof.
  intros Hmax Ht. unfold reverseProxyApplyBoundedBodyReplacements.
  pose proof (blen_nonneg body). destruct (Z.leb_spec (blen body) maximum); simpl.
  2:{ destruct (Z.ltb_spec maximum (blen body)); [|lia]. by rewrite orb_true_r. }
  destruct (Z.ltb_spec maximum 0); [lia|]. destruct (Z.ltb_spec maximum (blen body)); [lia|]. simpl.
  destruct (usefulReplacements l) as [|i items] eqn:E.
  - rewrite (Replaced_functional _ _ _ Ht _ (Replaced_nil body)). by zcase; [|lia].
  - rewrite <-E in *. rewrite scan_length, Z.add_0_l by lia.
    rewrite (Replaced_functional _ _ _ Ht _
      (fill_replaced _ (usefulReplacements_old l) _ body (Nat.le_refl _))).
    by destruct (_ <=? maximum).
Qed.

(** ** Absolute paths meet the reference *)

Lemma has_prefix_startsWith s p : has_prefix s p = true <-> startsWith p s.
Proof. apply has_prefix_spec. Qed.

Lemma has_prefix_not s p : negb (has_prefix s p) = true <-> ~ startsWith p s.
Proof. rewrite <-has_prefix_startsWith. destruct (has_prefix s p); naive_solver. Qed.

Lemma needsCSSPrefix_spec s after : needsCSSPrefix s = Some after <-> CSSPath s after.
Proof.
  unfold needsCSSPrefix, CSSPath. rewrite <-strip_prefix_iff, <-has_prefix_not.
  destruct (strip_prefix "url(/" s) as [r|]; [|naive_solver].
  destruct (has_prefix r "/") eqn:E; split; try done; intros H.
  - destruct H as [[= ->] H]. by rewrite E in H.
  - injection H as <-. by rewrite E.
  - by destruct H as [[= ->] H].
Qed.

Lemma needsCSSPrefix_none s : needsCSSPrefix s = None <-> forall after, ~ CSSPath s after.
Proof.
  split.
  - intros H after Hc%needsCSSPrefix_spec. congruence.
  - intros H. destruct (needsCSSPrefix s) as [r|] eqn:E; [|done].
    apply needsCSSPrefix_spec in E. by destruct (H r).
Qed.

Lemma CSSPath_functional s a b : CSSPath s a -> CSSPath s b -> a = b.
Proof. rewrite <-!needsCSSPrefix_spec. congruence. Qed.

Section Relocate.
Context (prefix : string) (Hstable : reverseProxyNormalizePathPrefix prefix = prefix) (Hne : prefix <> "").

Lemma bodyPathHasPrefix_spec path :
  negb (reverseProxyBodyPathHasPrefix path prefix) = true <-> ~ Prefixed prefix path.
Proof.
  unfold reverseProxyBodyPathHasPrefix, Prefixed. rewrite Hstable.
  destruct (String.eqb_spec prefix "") as [|_]; [done|]. simpl.
  destruct (String.eqb_spec path "") as [->|_].
  { split; [|done]. intros _ (after & H & _). symmetry in H. by apply sapp_eq_nil in H as [? _]. }
  setoid_rewrite <-strip_prefix_iff. destruct (strip_prefix prefix path) as [r|]; [|naive_solver].
  rewrite Bool.negb_true_iff. split.
  - intros H (after & [= ->] & H'). congruence.
  - intros H. destruct (pathBoundary r) eqn:E; [|done]. by destruct H; exists r.
Qed.

Lemma needsQuotedPrefix_spec c s :
  needsQuotedPrefix prefix (String c s) = true <-> isQuote c = true /\ NeedsPrefix prefix s.
Proof.
  cbn [needsQuotedPrefix]. destruct (isQuote c); [|naive_solver]. cbn [negb].
  transitivity (NeedsPrefix prefix s); [|tauto]. unfold NeedsPrefix.
  destruct (has_prefix s "/") eqn:E.
  - rewrite andb_true_iff, has_prefix_not, bodyPathHasPrefix_spec.
    apply has_prefix_startsWith in E. split; [tauto|]. intros [H|(path' & -> & _)]; [tauto|].
    by destruct E as [r [= Hr]].
  - assert (~ startsWith "/" s) as Hs by (rewrite <-has_prefix_startsWith; congruence).
    destruct s as [|c1 s]; [naive_solver|].
    destruct (Ascii.eqb_spec c1 backslash) as [->|Hb].
    + cbn [andb]. destruct (has_prefix s "/") eqn:E2.
      * rewrite andb_true_iff, has_prefix_not, bodyPathHasPrefix_spec.
        apply has_prefix_startsWith in E2. split.
        -- intros [? ?]. right. by exists s.
        -- intros [[? _]|(path' & [= <-] & _ & ? & ?)]; [done|by split].
      * split; [done|]. intros [[? _]|(path' & [= <-] & H & _)]; [done|].
        apply has_prefix_startsWith in H. congruence.
    + cbn [andb]. split; [done|]. intros [[? _]|(path' & [= ? ?] & _)]; done.
Qed.

Lemma fill_relocated : forall fuel s,
  (String.length s <= fuel)%nat -> Relocated prefix s (fillLoop fuel (relativeStep prefix) s).
Proof.
  induction fuel as [|fuel IH]; intros s Hs.
  { destruct s; [constructor|simpl in Hs; lia]. }
  cbn [fillLoop]. destruct (String.eqb_spec s "") as [->|Hs0]; [constructor|].
  unfold relativeStep at 1. destruct (needsCSSPrefix s) as [after|] eqn:E.
  - apply needsCSSPrefix_spec in E. rewrite join_single, !sapp_assoc.
    apply relocated_css with after; [done|]. apply IH.
    destruct E as [-> _]. rewrite length_sapp in Hs. simpl in Hs. lia.
  - rewrite needsCSSPrefix_none in E. destruct s as [|c s]; [done|].
    assert (Relocated prefix s (fillLoop fuel (relativeStep prefix) s)) by (apply IH; simpl in Hs; lia).
    destruct (needsQuotedPrefix prefix (String c s)) eqn:Eq.
    + apply needsQuotedPrefix_spec in Eq as [Hq Hn].
      change (join [String c ""; prefix]) with (String c (join [prefix])). rewrite join_single.
      by apply relocated_quoted.
    + rewrite join_single. apply relocated_other; [done| |done].
      rewrite <-needsQuotedPrefix_spec. congruence.
Qed.
End Relocate.

Lemma Relocated_functional prefix s t : Relocated prefix s t -> forall t', Relocated prefix s t' -> t = t'.
Proof.
  induction 1 as [|s after t Hc Hr IH|c s t Hn Hq Hp Hr IH|c s t Hn Hq Hr IH]; intros t' Ht;
    inversion Ht as [|? a u Hc' Hr'|? ? u Hn' Hq' Hp' Hr'|? ? u Hn' Hq' Hr']; subst;
    try (by destruct Hc as [? _]); try (by destruct Hc' as [? _]);
    try (by eapply Hn in Hc'); try (by eapply Hn' in Hc); try tauto.
  - rewrite (CSSPath_functional _ _ _ Hc' Hc) in Hr'. by rewrite (IH _ Hr').
  - by rewrite (IH _ Hr').
  - by rewrite (IH _ Hr').
Qed.

(** The reference of the second pass: nothing changes without a prefix. *)
Definition RelocatedBody (raw s t : string) : Prop :=
  let prefix := reverseProxyNormalizePathPrefix raw in
  if String.eqb prefix "" then t = s else Relocated prefix s t.

Lemma relocatedBody_exists raw s : stablePath raw false -> exists t, RelocatedBody raw s t.
Proof.
  intros [|Hst]; [done|]. unfold RelocatedBody. destruct (String.eqb_spec (reverseProxyNormalizePathPrefix raw) "").
  - by exists s.
  - eexists. by apply fill_relocated.
Qed.

(** The second pass is the reference, cut off at the limit. *)
Lemma relative_spec body raw maximum t :
  maximum <= max_i64 -> stablePath raw false -> RelocatedBody raw body t ->
  reverseProxyRewriteRelativeBodyPathsBounded body raw maximum =
  if (blen body <=? maximum) && (blen t <=? maximum) then (t, true) else (body, false).
Proof.
  intros Hmax [|Hst]; [done|]. unfold RelocatedBody, reverseProxyRewriteRelativeBodyPathsBounded.
  set (prefix := reverseProxyNormalizePathPrefix raw) in *.
  destruct (String.eqb_spec prefix "") as [|Hne]; simpl.
  { intros ->. by destruct (blen body <=? maximum). }
  intros Ht. pose proof (Relocated_functional _ _ _ Ht _
    (fill_relocated prefix Hst Hne _ body (Nat.le_refl _))) as Hf.
  destruct (String.eqb_spec body "") as [->|Hb].
  { cbn in Hf. subst t. by destruct (blen "" <=? maximum). }
  pose proof (blen_nonneg body). destruct (Z.leb_spec (blen body) maximum); simpl.
  2:{ destruct (Z.ltb_spec maximum (blen body)); [|lia]. by rewrite orb_true_r. }
  destruct (Z.ltb_spec maximum 0); [lia|]. destruct (Z.ltb_spec maximum (blen body)); [lia|]. simpl.
  rewrite scan_length, Z.add_0_l, <-Hf by lia. by destruct (_ <=? maximum).
Qed.


Definition demoPlan : list reverseProxyStringReplacement :=
  [mkReplacement "http://up:80" "https://ext/app"; mkReplacement "http://up" "https://ext/app"].
Definition demoBody : string :=
  "<a href='/x'>" +:+ "http://up:80/y" +:+ " url(/z) '/app/w' '//cdn'".

