(* ===== verification/ResponseRewrite.v ===== *)
(** * Rewriting a response ([service/reverse_proxy.go])

    [reverseProxyRewriteResponseBodyForRule] decides whether a response is
    rewritten, reserves memory for the peak of the work, reads the body,
    runs the two passes of [BodyRewrite] and hands the response on.  It must
    never truncate a body or lose the reservation.

    The body from the upstream is a reader: the bytes it still has, how it
    ends (end of file or an error), and whether it reports its end together
    with the last byte, as a Go reader may.  The function that parses a media
    type is a parameter.  The release function given to
    [reverseProxyRewriteResponseBodyWithLimits] acts on any state. *)

From stdpp Require Import base gmap list strings.
From Stdlib Require Import Ascii ZArith Lia.
From S2P Require Import Prelude GoStrings ProxyPaths BodyRewrite Memory Resources.

#[local] Open Scope Z_scope.

(** ** Readers *)

Inductive readError : Type := ErrEOF | ErrUnexpectedEOF | ReadFailed (code : Z).

Record stream : Type := mkStream {
  Data : string;                 (* the bytes not read yet *)
  End : option Z;                (* [None] at the end of file, else the error *)
  Eager : bool;                  (* the end is reported with the last byte *)
  Closed : bool }.

Definition closeStream (s : stream) : stream := mkStream (Data s) (End s) (Eager s) true.
Definition advance (rest : string) (s : stream) : stream := mkStream rest (End s) (Eager s) (Closed s).

Definition endError (s : stream) : readError :=
  match End s with None => ErrEOF | Some e => ReadFailed e end.

Fixpoint splitAt (n : nat) (s : string) : option (string * string) :=
  match n, s with
  | O, _ => Some ("", s)
  | S n', String c s' => match splitAt n' s' with
                         | Some (a, b) => Some (String c a, b)
                         | None => None
                         end
  | S _, EmptyString => None
  end.

(** [io.ReadFull] into a buffer of [n] bytes. *)
Definition readFull (n : Z) (s : stream) : (string + readError) * stream :=
  match splitAt (Z.to_nat n) (Data s) with
  | Some (a, b) => (inl a, advance b s)
  | None => (inr (match End s with
                  | Some e => ReadFailed e
                  | None => if String.eqb (Data s) "" then ErrEOF else ErrUnexpectedEOF
                  end), advance "" s)
  end.

(** [Read] into a buffer of one byte. *)
Definition readByte (s : stream) : option ascii * option readError * stream :=
  match Data s with
  | EmptyString => (None, Some (endError s), s)
  | String c rest =>
      (Some c, if Eager s && String.eqb rest "" then Some (endError s) else None, advance rest s)
  end.

(** ** Responses *)

Inductive respBody : Type :=
| UpstreamBody                               (* the reader of the upstream *)
| Replay (head : string) (fired : bool)      (* bytes read so far, then the upstream; releases on close *)
| Buffered (content : string) (fired : bool). (* a buffer; releases on close *)

Record httpRequest : Type := mkRequest { Method : string; Range : string }.

Record httpResponse : Type := mkResponse {
  StatusCode : Z;
  Request : option httpRequest;
  Header : gmap string (list string);
  TransferEncoding : list string;
  ContentLength : Z;
  Body : option respBody;
  origin : stream }.

Definition headerGet (key : string) (h : gmap string (list string)) : string :=
  match h !! key with Some (v :: _) => v | _ => "" end.
Definition headerValues (key : string) (h : gmap string (list string)) : list string := h !!! key.

Fixpoint foldBytes (s : string) : string :=
  match s with EmptyString => "" | String c s => String (lower_byte c) (foldBytes s) end.

Record rewritePlan : Type := mkPlan {
  Enabled : bool;
  Replacements : list reverseProxyStringReplacement;
  ExternalPathPrefix : string }.

(** The columns of [model.ReverseProxyRule] that are read here. *)
Record proxyRule : Type := mkProxyRule { rule_Id : Z; rule_MemoryLimitBytes : Z }.

Section Rewrite.
(** [mime.ParseMediaType]: the media type, or an error. *)
Context (parseMediaType : string -> option string).

Definition reverseProxyResponseMayContainOriginReferences (contentType : string) : bool :=
  let mediaType := match parseMediaType (trim_space contentType) with
                   | Some m => m
                   | None => to_lower (trim_space contentType)
                   end in
  let mediaType := to_lower (trim_space mediaType) in
  if String.eqb mediaType "text/event-stream" || has_prefix mediaType "multipart/" then false
  else if has_prefix mediaType "text/" then true
  else existsb (String.eqb mediaType)
         ["application/json"; "application/ld+json"; "application/javascript"; "application/x-javascript";
          "application/xml"; "application/rss+xml"; "application/atom+xml"; "application/xhtml+xml";
          "image/svg+xml"].

Definition reverseProxyResponseBodyEligible (resp : httpResponse) (plan : rewritePlan) (inputLimit : Z) : bool :=
  let status := StatusCode resp in
  if negb (Enabled plan) || (match Body resp with None => true | Some _ => false end) then false
  else if ((100 <=? status) && (status <? 200)) || (status =? 204) || (status =? 205) || (status =? 304) then false
  else if (match Request resp with
           | Some r => String.eqb (Method r) "HEAD" || negb (String.eqb (Range r) "")
           | None => false
           end) then false
  else if negb (String.eqb (headerGet "Content-Range" (Header resp)) "") then false
  else if negb (reverseProxyResponseMayContainOriginReferences (headerGet "Content-Type" (Header resp))) then false
  else
    let contentEncoding := trim_space (joinWith "," (headerValues "Content-Encoding" (Header resp))) in
    if negb (String.eqb contentEncoding "") && negb (String.eqb (foldBytes contentEncoding) "identity") then false
    else if (inputLimit <=? 0) || (ContentLength resp <? 0) || (inputLimit <? ContentLength resp) then false
    else true.

Definition setBody (body : respBody) (contentLength : Z) (te : list string)
  (header : gmap string (list string)) (s : stream) (resp : httpResponse) : httpResponse :=
  mkResponse (StatusCode resp) (Request resp) header te contentLength (Some body) s.

Definition setOrigin (s : stream) (resp : httpResponse) : httpResponse :=
  mkResponse (StatusCode resp) (Request resp) (Header resp) (TransferEncoding resp) (ContentLength resp)
    (Body resp) s.

Definition dropValidators (h : gmap string (list string)) : gmap string (list string) :=
  delete "Content-Digest" (delete "Digest" (delete "Content-MD5" (delete "ETag" h))).

Definition runRelease {W} (release : option (W -> W)) (w : W) : W :=
  match release with Some f => f w | None => w end.

Definition reverseProxyRewriteResponseBodyWithLimits {W} (resp : httpResponse) (plan : rewritePlan)
  (inputLimit outputLimit : Z) (release : option (W -> W)) (w : W) : option readError * httpResponse * W :=
  if negb (reverseProxyResponseBodyEligible resp plan inputLimit) then (None, resp, runRelease release w)
  else if outputLimit <? reverseProxyMinimumRewriteReservationBytes then (None, resp, runRelease release w)
  else
    let expectedLength := ContentLength resp in
    if (expectedLength <? 0) || (inputLimit <? expectedLength) then (None, resp, runRelease release w)
    else
      let '(result, s1) := readFull expectedLength (origin resp) in
      match result with
      | inr err => (Some err, setOrigin (closeStream s1) resp, runRelease release w)
      | inl body =>
          let '(extra, extraErr, s2) := readByte s1 in
          match extraErr with
          | Some ((ErrUnexpectedEOF | ReadFailed _) as e) =>
              (Some e, setOrigin (closeStream s2) resp, runRelease release w)
          | _ =>
              match extra with
              | Some c =>
                  (None, setBody (Replay (body +:+ String c "") false) (-1) (TransferEncoding resp)
                           (delete "Content-Length" (Header resp)) s2 resp, w)
              | None =>
                  let s3 := closeStream s2 in
                  let '(rewritten, ok) :=
                    reverseProxyApplyBoundedBodyReplacements body (Replacements plan) outputLimit in
                  let '(rewritten, ok) :=
                    if ok : bool
                    then reverseProxyRewriteRelativeBodyPathsBounded rewritten (ExternalPathPrefix plan) outputLimit
                    else (rewritten, ok) in
                  if ok : bool
                  then (None, setBody (Buffered rewritten false) (blen rewritten) []
                                (dropValidators (<["Content-Length" := [itoa (blen rewritten)]]> (Header resp)))
                                s3 resp, w)
                  else (None, setBody (Buffered body false) (blen body) []
                                (<["Content-Length" := [itoa (blen body)]]> (Header resp)) s3 resp, w)
              end
          end
      end.

(** The bytes reserved for the peak of the work. *)
Definition rewriteReserve (settings : ReverseProxyResourceSettings) (contentLength : Z) : Z :=
  let inputBytes := ResponseRewriteInputBytes settings in
  let outputBytes := ResponseRewriteOutputBytes settings in
  let reserve :=
    if (0 <=? contentLength) && (contentLength <? inputBytes)
    then reverseProxyRewriteReservationBytes contentLength outputBytes
    else reverseProxyRewriteReservationBytes inputBytes outputBytes in
  if reserve <? reverseProxyMinimumRewriteReservationBytes
  then reverseProxyMinimumRewriteReservationBytes else reserve.

Definition reverseProxyEffectiveRuleMemoryLimit (rule : option proxyRule) (k : controller) : Z :=
  match rule with
  | Some r => if 0 <? rule_MemoryLimitBytes r then rule_MemoryLimitBytes r
              else DefaultRuleMemoryLimitBytes (k_settings k)
  | None => DefaultRuleMemoryLimitBytes (k_settings k)
  end.

(** The lease with the flag of its [sync.Once]. *)
Definition releaseOnce (lease : leaseRef) (w : bool * controller) : bool * controller :=
  let '(fired, k) := w in if fired then w else (true, releaseRewrite (Some lease) k).

(** The error, the response, the lease that was taken with its flag, and the
    controller. *)
Definition reverseProxyRewriteResponseBodyForRule (resp : httpResponse) (plan : rewritePlan)
  (rule : option proxyRule) (k : controller)
  : option readError * httpResponse * option (leaseRef * bool) * controller :=
  let settings := k_settings k in
  if negb (reverseProxyResponseBodyEligible resp plan (ResponseRewriteInputBytes settings))
  then (None, resp, None, k)
  else
    let inputBytes := ResponseRewriteInputBytes settings in
    let outputBytes := ResponseRewriteOutputBytes settings in
    if (inputBytes <? reverseProxyMinimumRewriteReservationBytes) ||
       (outputBytes <? reverseProxyMinimumRewriteReservationBytes)
    then (None, resp, None, k)
    else
      let reserve := rewriteReserve settings (ContentLength resp) in
      let ruleID := match rule with Some r => rule_Id r | None => 0 end in
      let '(lease, k1) := tryAcquireRewrite ruleID (reverseProxyEffectiveRuleMemoryLimit rule k) reserve k in
      match lease with
      | None => (None, resp, None, k1)
      | Some ref =>
          let '(err, resp', (fired, k2)) :=
            reverseProxyRewriteResponseBodyWithLimits resp plan inputBytes outputBytes
              (Some (releaseOnce ref)) (false, k1) in
          (err, resp', Some (ref, fired), k2)
      end.

(** [resp.Body.Close()] by the server that copied the response. *)
Definition closeBody {W} (release : option (W -> W)) (resp : httpResponse) (w : W) : httpResponse * W :=
  match Body resp with
  | None => (resp, w)
  | Some UpstreamBody => (setOrigin (closeStream (origin resp)) resp, w)
  | Some (Replay head fired) =>
      (setBody (Replay head true) (ContentLength resp) (TransferEncoding resp) (Header resp)
         (closeStream (origin resp)) resp,
       if fired then w else runRelease release w)
  | Some (Buffered content fired) =>
      (setBody (Buffered content true) (ContentLength resp) (TransferEncoding resp) (Header resp)
         (origin resp) resp,
       if fired then w else runRelease release w)
  end.

Fixpoint closeBodies {W} (n : nat) (release : option (W -> W)) (resp : httpResponse) (w : W) : httpResponse * W :=
  match n with
  | O => (resp, w)
  | S n' => let '(resp', w') := closeBody release resp w in closeBodies n' release resp' w'
  end.
End Rewrite.

(** ** What the client receives *)

(** The bytes of the body and how they end. *)
Definition clientReads (resp : httpResponse) : string * option Z :=
  match Body resp with
  | None => ("", None)
  | Some UpstreamBody => (Data (origin resp), End (origin resp))
  | Some (Replay head _) => (head +:+ Data (origin resp), End (origin resp))
  | Some (Buffered content _) => (content, None)
  end.

(** The declared length, when there is one, is that of the body. *)
Definition lengthHonest (resp : httpResponse) : Prop :=
  ContentLength resp = -1 /\ Header resp !! "Content-Length" = None \/
  ContentLength resp = blen (clientReads resp).1 /\
  Header resp !! "Content-Length" = Some [itoa (ContentLength resp)].

(** The limiters and the counters of the pool are the same. *)
Definition sameCounters (k k' : controller) : Prop :=
  k_rewrite k' = k_rewrite k /\ m_pool (k_memory k') = m_pool (k_memory k) /\
  k_http k' = k_http k /\ k_dns k' = k_dns k /\ k_settings k' = k_settings k.

Lemma splitAt_spec n : forall s a b, splitAt n s = Some (a, b) -> s = a +:+ b /\ String.length a = n.
Proof.
  induction n as [|n IH]; intros s a b; simpl; [by intros [= <- <-]|].
  destruct s as [|c s]; [done|]. destruct (splitAt n s) as [[a' b']|] eqn:E; [|done].
  intros [= <- <-]. by destruct (IH _ _ _ E) as [-> <-].
Qed.

Lemma splitAt_none n : forall s, splitAt n s = None -> (String.length s < n)%nat.
Proof.
  induction n as [|n IH]; intros s; simpl; [done|]. destruct s as [|c s]; simpl; [lia|].
  destruct (splitAt n s) as [[]|] eqn:E; [done|]. apply IH in E. lia.
Qed.

Lemma readFull_spec n s : 0 <= n ->
  match readFull n s with
  | (inl body, s1) => Data s = body +:+ Data s1 /\ blen body = n /\ End s1 = End s /\ Eager s1 = Eager s
  | (inr _, _) => blen (Data s) < n
  end.
Proof.
  intros Hn. unfold readFull. destruct (splitAt (Z.to_nat n) (Data s)) as [[a b]|] eqn:E; simpl.
  - apply splitAt_spec in E as [-> E]. unfold blen. split_and!; try done. lia.
  - apply splitAt_none in E. unfold blen. lia.
Qed.

(** The failures of the upstream that end the response with an error. *)
Definition upstreamFails (contentLength : Z) (s : stream) : Prop :=
  blen (Data s) < contentLength \/
  (is_Some (End s) /\
   (blen (Data s) = contentLength \/ Eager s = true /\ blen (Data s) = contentLength + 1)).

(** The body that releases the reservation when it is closed. *)
Definition releasesOnClose (resp : httpResponse) : Prop :=
  exists b, Body resp = Some (Replay b false) \/ Body resp = Some (Buffered b false).

(** The bytes the client has to get for a body the reference rewrites to
    [t1] and then [t2]. *)
Definition expectedBody (resp : httpResponse) (outputLimit : Z) (t1 t2 : string) : string * option Z :=
  let data := Data (origin resp) in
  if (blen data =? ContentLength resp) && (blen data <=? outputLimit) &&
     (blen t1 <=? outputLimit) && (blen t2 <=? outputLimit)
  then (t2, None) else (data, End (origin resp)).

Lemma dropValidators_length h v :
  dropValidators (<["Content-Length" := v]> h) !! "Content-Length" = Some v.
Proof. unfold dropValidators. rewrite !lookup_delete_ne by done. apply lookup_insert_eq. Qed.

Lemma guard_true (b x : bool) : (if b then false else x) = true -> b = false /\ x = true.
Proof. by destruct b. Qed.

Section Safe.
Context (parseMediaType : string -> option string).

(** The tail of the rewrite, after the whole body was read. *)
Lemma passes_spec body l raw limit t1 t2 : limit <= max_i64 -> stablePath raw false ->
  Replaced (usefulReplacements l) body t1 -> RelocatedBody raw t1 t2 ->
  (let '(rewritten, ok) := reverseProxyApplyBoundedBodyReplacements body l limit in
   if ok : bool then reverseProxyRewriteRelativeBodyPathsBounded rewritten raw limit else (rewritten, ok)) =
  if (blen body <=? limit) && (blen t1 <=? limit) then
    if blen t2 <=? limit then (t2, true) else (t1, false)
  else (body, false).
Proof.
  intros Hl Hst H1 H2. rewrite (replacements_spec _ _ _ _ Hl H1).
  destruct (blen body <=? limit), (blen t1 <=? limit) eqn:E; simpl; try done.
  by rewrite (relative_spec _ _ _ _ Hl Hst H2), E.
Qed.

Lemma eligible_length resp plan inputLimit :
  reverseProxyResponseBodyEligible parseMediaType resp plan inputLimit = true ->
  0 <= ContentLength resp <= inputLimit.
Proof.
  unfold reverseProxyResponseBodyEligible. intros H. do 6 apply guard_true in H as [_ H].
  apply guard_true in H as [G _]. rewrite !orb_false_iff, !Z.ltb_ge in G. lia.
Qed.

Lemma withLimits_spec {W} resp plan inputLimit outputLimit (f : W -> W) w t1 t2 :
  reverseProxyResponseBodyEligible parseMediaType resp plan inputLimit = true ->
  reverseProxyMinimumRewriteReservationBytes <= outputLimit <= max_i64 ->
  Body resp = Some UpstreamBody -> stablePath (ExternalPathPrefix plan) false ->
  Replaced (usefulReplacements (Replacements plan)) (Data (origin resp)) t1 ->
  RelocatedBody (ExternalPathPrefix plan) t1 t2 ->
  let '(err, resp', w') :=
    reverseProxyRewriteResponseBodyWithLimits parseMediaType resp plan inputLimit outputLimit (Some f) w in
  match err with
  | Some _ => upstreamFails (ContentLength resp) (origin resp) /\ Closed (origin resp') = true /\ w' = f w
  | None => ~ upstreamFails (ContentLength resp) (origin resp) /\ w' = w /\ releasesOnClose resp' /\
            lengthHonest resp' /\ clientReads resp' = expectedBody resp outputLimit t1 t2
  end.
Proof.
  intros He [Ho Hmax] Hb Hst H1 H2. unfold reverseProxyRewriteResponseBodyWithLimits. rewrite He. cbn [negb].
  destruct (eligible_length _ _ _ He) as [Hcl Hcl'].
  destruct (Z.ltb_spec outputLimit reverseProxyMinimumRewriteReservationBytes); [lia|].
  destruct (Z.ltb_spec (ContentLength resp) 0); [lia|].
  destruct (Z.ltb_spec inputLimit (ContentLength resp)); [lia|]. cbn [orb].
  pose proof (readFull_spec (ContentLength resp) (origin resp) Hcl) as Hr.
  destruct (readFull (ContentLength resp) (origin resp)) as [[body|err] s1].
  2:{ split; [by left|done]. }
  destruct Hr as (Hd & Hlen & HE & Heag). unfold readByte, upstreamFails, expectedBody, endError.
  rewrite <-Hlen, <-HE, <-Heag. rewrite Hd in *. rewrite blen_app.
  destruct (Data s1) as [|c rest] eqn:Ed.
  - rewrite sapp_nil_r in *. change (blen "") with 0. rewrite Z.add_0_r, Z.eqb_refl. cbn [andb].
    destruct (End s1) as [e|] eqn:EE; cbn.
    { split; [|done]. right. split; [by eexists|by left]. }
    pose proof (passes_spec body (Replacements plan) _ outputLimit t1 t2 Hmax Hst H1 H2) as Hp.
    destruct (reverseProxyApplyBoundedBodyReplacements body (Replacements plan) outputLimit) as [r1 ok1].
    rewrite Hp. clear Hp r1 ok1.
    assert (~ (blen body < blen body \/ is_Some (@None Z) /\
               (blen body = blen body \/ Eager s1 = true /\ blen body = blen body + 1))) as Hok.
    { intros [?|[[? ?] _]]; [lia|done]. }
    destruct (blen body <=? outputLimit), (blen t1 <=? outputLimit), (blen t2 <=? outputLimit); cbn;
      (split; [exact Hok|]; split; [done|]; split; [eexists; right; done|]; split; [|done]; right; cbn;
       split; [done|]; try apply dropValidators_length; apply lookup_insert_eq).
  - change (blen (String c rest)) with (Z.of_nat (S (String.length rest))).
    assert (forall P : string, body +:+ String c P = (body +:+ String c "") +:+ P) as Hcat
      by (intros; by rewrite sapp_assoc).
    destruct (Z.eqb_spec (blen body + Z.of_nat (S (String.length rest))) (blen body)); [lia|]. cbn [andb].
    destruct (Eager s1) eqn:Eg, (String.eqb_spec rest "") as [->|Hne], (End s1) as [e|] eqn:EE; cbn.
    all: try (split; [right; split; [by eexists|right; split; [done|lia]]|done]).
    all: split; [|split; [done|]; split; [eexists; left; done|]; split;
           [left; split; [done|]; apply lookup_delete_eq|unfold clientReads; cbn; by rewrite EE, <-Hcat]].
    all: intros [Hlt|[[? ?] [Hq|[Hq' Hq]]]]; try done; try lia.
    all: destruct rest; [done|simpl in Hq; lia].
Qed.
Lemma closeBodies_fired {W} (f : W -> W) n : forall resp w b,
  Body resp = Some (Replay b true) \/ Body resp = Some (Buffered b true) ->
  (closeBodies n (Some f) resp w).2 = w.
Proof.
  induction n as [|n IH]; intros resp w b Hb; simpl; [done|].
  unfold closeBody. destruct Hb as [-> | ->]; cbn; apply IH with b; [by left|by right].
Qed.

Lemma closeBodies_once {W} (f : W -> W) n resp w :
  releasesOnClose resp -> (closeBodies (S n) (Some f) resp w).2 = f w.
Proof.
  intros [b Hb]. cbn [closeBodies]. unfold closeBody.
  destruct Hb as [-> | ->]; cbn; apply closeBodies_fired with b; [by left|by right].
Qed.

Lemma rewriteReserve_bounds v n : validateReverseProxyResourceSettings v = None ->
  0 <= n <= ResponseRewriteInputBytes v ->
  n + ResponseRewriteOutputBytes v * 2 <= rewriteReserve v n <= maxReservation /\
  reverseProxyMinimumRewriteReservationBytes <= ResponseRewriteInputBytes v /\
  reverseProxyMinimumRewriteReservationBytes <= ResponseRewriteOutputBytes v <= max_i64 /\
  0 < rewriteReserve v n.
Proof.
  intros Hv Hn. destruct (validated_bounds v Hv) as (Hi & Ho & Hres & Hlim & Hpool & _).
  unfold rewriteReserve, reverseProxyRewriteReservationBytes, reverseProxyMinimumRewriteReservationBytes,
    reverseProxyMaximumMemoryPoolBytes, maxReservation, max_i64 in *.
  assert (forall a, 0 <= a <= ResponseRewriteInputBytes v ->
    (if (a <? 0) || (ResponseRewriteOutputBytes v <? 0) then 0
     else wrap64 (a + wrap64 (ResponseRewriteOutputBytes v * 2))) = a + ResponseRewriteOutputBytes v * 2) as Hw.
  { intros a Ha. destruct (Z.ltb_spec a 0), (Z.ltb_spec (ResponseRewriteOutputBytes v) 0); try lia. simpl.
    rewrite (wrap64_id (_ * 2)) by in_range. apply wrap64_id. in_range. }
  rewrite !Hw by lia. destruct ((0 <=? n) && (n <? ResponseRewriteInputBytes v)) eqn:E; zcase; try lia;
    rewrite andb_false_iff, Z.leb_gt, Z.ltb_ge in E; lia.
Qed.

(** C23: Rewriting a response never truncates a body and never loses a
    reservation, under a validated policy and in every state of the memory
    pool.  When the response is not eligible or no memory is granted it is
    handed on unchanged and nothing is held.  Otherwise an error is returned
    exactly when the upstream fails before the declared end, with the
    upstream closed and the reservation given back; without an error the
    client gets the text the reference determines if the body has the
    declared length and every intermediate text fits, and the bytes of the
    upstream in every other case, with a declared length that is true or
    none; the buffers in use fit the reservation, and closing the body, once
    or several times, restores every counter of the controller. *)
Theorem response_rewrite_safe resp plan rule k t1 t2 :
  validateReverseProxyResourceSettings (k_settings k) = None ->
  poolRun (k_memory k) -> 0 <= active (k_rewrite k) < max_i64 ->
  Body resp = Some UpstreamBody -> stablePath (ExternalPathPrefix plan) false ->
  Replaced (usefulReplacements (Replacements plan)) (Data (origin resp)) t1 ->
  RelocatedBody (ExternalPathPrefix plan) t1 t2 ->
  let settings := k_settings k in
  let outputLimit := ResponseRewriteOutputBytes settings in
  let '(err, resp', held, k') := reverseProxyRewriteResponseBodyForRule parseMediaType resp plan rule k in
  match held with
  | None => err = None /\ resp' = resp /\ k' = k
  | Some (ref, fired) =>
      reverseProxyResponseBodyEligible parseMediaType resp plan (ResponseRewriteInputBytes settings) = true /\
      match err with
      | Some _ => upstreamFails (ContentLength resp) (origin resp) /\ Closed (origin resp') = true /\
                  fired = true /\ sameCounters k k'
      | None => ~ upstreamFails (ContentLength resp) (origin resp) /\ fired = false /\
                clientReads resp' = expectedBody resp outputLimit t1 t2 /\ lengthHonest resp' /\
                (blen t1 <= outputLimit -> blen t2 <= outputLimit ->
                 ContentLength resp + blen t1 + blen t2 <= rewriteReserve settings (ContentLength resp)) /\
                forall n, sameCounters k (closeBodies (S n) (Some (releaseOnce ref)) resp' (fired, k')).2.2
      end
  end.
Proof.
  intros Hv Hpool Hact Hb Hst H1 H2 settings outputLimit.
  unfold reverseProxyRewriteResponseBodyForRule. fold settings. fold outputLimit.
  destruct (reverseProxyResponseBodyEligible _ _ _ _) eqn:He; [|done]. cbn [negb].
  destruct (rewriteReserve_bounds settings (ContentLength resp) Hv (eligible_length _ _ _ He))
    as (Hres & Hin & Hout & Hpos).
  destruct (Z.ltb_spec (ResponseRewriteInputBytes settings) reverseProxyMinimumRewriteReservationBytes); [lia|].
  destruct (Z.ltb_spec outputLimit reverseProxyMinimumRewriteReservationBytes); [lia|].
  cbn [orb].
  set (ruleID := match rule with Some r => rule_Id r | None => 0 end).
  pose proof (rewrite_permit_and_lease ruleID (reverseProxyEffectiveRuleMemoryLimit rule k)
    (rewriteReserve settings (ContentLength resp)) k Hpool Hact ltac:(lia)) as Hlease.
  destruct (tryAcquireRewrite _ _ _ k) as [[ref|] k1]; [|by subst k1]. cbn zeta in Hlease.
  pose proof (withLimits_spec resp plan (ResponseRewriteInputBytes settings) outputLimit
    (releaseOnce ref) (false, k1) t1 t2 He Hout Hb Hst H1 H2) as Hw.
  destruct (reverseProxyRewriteResponseBodyWithLimits _ _ _ _ _ _ _) as [[err resp'] [fired k2]].
  split; [done|]. destruct err as [e|].
  - destruct Hw as (Hf & Hc & [= -> ->]). by split_and!.
  - destruct Hw as (Hf & [= -> ->] & Hrel & Hhon & Hread). split_and!; try done.
    + unfold outputLimit. lia.
    + intros n. rewrite closeBodies_once by done. exact Hlease.
Qed.
End Safe.

Definition demoResponse : httpResponse :=
  mkResponse 200 None {["Content-Type" := ["text/html"]]} ["chunked"] 28 (Some UpstreamBody)
    (mkStream "<a href='/x'>http://up:80/y " None true false).
Definition demoRewrite : rewritePlan := mkPlan true demoPlan "/app".
Definition demoText1 : string := "<a href='/x'>https://ext/app/y ".
Definition demoText2 : string := "<a href='/app/x'>https://ext/app/y ".

Lemma response_rewrite_safe_witness :
  let k := newReverseProxyResourceController (policy DefaultReverseProxySettings) in
  let '(err, resp', held, k') :=
    reverseProxyRewriteResponseBodyForRule Some demoResponse demoRewrite None k in
  clientReads resp' = (demoText2, None) /\
  match held with
  | None => err = None /\ resp' = demoResponse /\ k' = k
  | Some (ref, fired) =>
      reverseProxyResponseBodyEligible Some demoResponse demoRewrite
        (ResponseRewriteInputBytes (k_settings k)) = true /\
      match err with
      | Some _ => upstreamFails 28 (origin demoResponse) /\ Closed (origin resp') = true /\
                  fired = true /\ sameCounters k k'
      | None => ~ upstreamFails 28 (origin demoResponse) /\ fired = false /\
                clientReads resp' =
                  expectedBody demoResponse (ResponseRewriteOutputBytes (k_settings k)) demoText1 demoText2 /\
                lengthHonest resp' /\
                (blen demoText1 <= ResponseRewriteOutputBytes (k_settings k) ->
                 blen demoText2 <= ResponseRewriteOutputBytes (k_settings k) ->
                 28 + blen demoText1 + blen demoText2 <= rewriteReserve (k_settings k) 28) /\
                forall n, sameCounters k (closeBodies (S n) (Some (releaseOnce ref)) resp' (fired, k')).2.2
      end
  end.
Proof.
  intros k.
  pose proof (response_rewrite_safe Some demoResponse demoRewrite None k demoText1 demoText2) as H.
  assert ((let '(_, resp', _, _) := reverseProxyRewriteResponseBodyForRule Some demoResponse demoRewrite None k in
           clientReads resp') = (demoText2, None)) as Hc by (vm_compute; reflexivity).
  destruct (reverseProxyRewriteResponseBodyForRule Some demoResponse demoRewrite None k) as [[[err resp'] held] k'].
  split; [exact Hc|]. apply H.
  - vm_compute; reflexivity.
  - apply (pool_configure _ (mkMemory _ ∅ 0)); [apply pool_new|]; unfold maxReservation;
      cbn [MemoryPoolBytes policy DefaultReverseProxySettings]; lia.
  - change (0 <= 0 < max_i64). unfold max_i64. lia.
  - reflexivity.
  - right; vm_compute; reflexivity.
  - assert (demoText1 = fillLoop 28 (replacementStep (usefulReplacements demoPlan)) (Data (origin demoResponse)))
      as -> by (vm_compute; reflexivity).
    apply fill_replaced; [apply usefulReplacements_old|vm_compute; lia].
  - assert (demoText2 = fillLoop 31 (relativeStep "/app") demoText1) as -> by (vm_compute; reflexivity).
    apply fill_relocated; [vm_compute; reflexivity|done|vm_compute; lia].
Defined.
