(* ===== verification/LruTable.v ===== *)
(** * Bounded tables ordered by use

    The reverse proxy keeps several tables as a Go map together with a
    [container/list] of its keys, the front being the newest; the value in
    the map remembers its list element.  This file holds the list, with the
    identity of its elements, and the loops of [service/reverse_proxy.go] that
    shrink such a table from the back: by age and by size.

    The loops run while the list is not empty, and do not remove a list
    element whose key is missing from the map: that they end is a consequence
    of the invariant, not of their form. *)

From stdpp Require Import base gmap list strings sorting.
From Stdlib Require Import ZArith Lia.
From S2P Require Import Prelude.

Lemma filter_iff_in {A} (P Q : A -> Prop) `{!forall x, Decision (P x), !forall x, Decision (Q x)} (l : list A) :
  (forall x, x ∈ l -> P x <-> Q x) -> filter P l = filter Q l.
Proof.
  induction l as [|x l IH]; intros Hpq; [done|]. rewrite !filter_cons, IH by (intros; apply Hpq; by right).
  assert (P x <-> Q x) by (apply Hpq; by left). destruct (decide (P x)), (decide (Q x)); tauto.
Qed.

Lemma filter_nothing {A} (P : A -> Prop) `{!forall x, Decision (P x)} (l : list A) :
  Forall (fun x => ~ P x) l -> filter P l = [].
Proof. induction 1 as [|x l Hx Hl IH]; [done|]. by rewrite filter_cons_False. Qed.

Lemma omap_ext_in {A B} (f g : A -> option B) (l : list A) :
  (forall x, x ∈ l -> f x = g x) -> omap f l = omap g l.
Proof.
  induction l as [|x l IH]; intros Hfg; [done|]. cbn [omap list_omap]. rewrite (Hfg x) by (by left).
  rewrite IH; [done|]. intros y Hy. apply Hfg. by right.
Qed.

(** ** Lists whose elements have an identity *)

Section Elements.
Context {K : Type}.
Implicit Types (l : list (nat * K)) (e : nat) (k : K).

Definition listRemove (e : nat) (l : list (nat * K)) : list (nat * K) := filter (fun x => x.1 ≠ e) l.

Definition listMoveToFront (e : nat) (l : list (nat * K)) : list (nat * K) :=
  filter (fun x => x.1 = e) l ++ listRemove e l.

(** Elements are the entries of the list with distinct identities. *)
Lemma fst_unique l e k k' :
  NoDup (fst <$> l) -> (e, k) ∈ l -> (e, k') ∈ l -> k = k'.
Proof.
  induction l as [|[e0 k0] l IH]; simpl; [by intros _ ?%not_elem_of_nil|].
  rewrite NoDup_cons, !elem_of_cons. intros [Hn Hd] [H1|H1] [H2|H2]; simplify_eq; auto; destruct Hn;
    apply list_elem_of_fmap; eexists (_, _); done.
Qed.

Lemma elem_of_listRemove x e l : x ∈ listRemove e l <-> x ∈ l /\ x.1 <> e.
Proof. unfold listRemove. rewrite list_elem_of_filter. tauto. Qed.

Lemma listRemove_nodup e l : NoDup (fst <$> l) -> NoDup (fst <$> listRemove e l).
Proof.
  induction l as [|x l IH]; [done|]. cbn [fmap list_fmap]. rewrite NoDup_cons. intros [Hn Hd]. unfold listRemove.
  destruct (decide (x.1 = e)) as [He|He].
  - rewrite filter_cons_False by tauto. by apply IH.
  - rewrite filter_cons_True by done. cbn [fmap list_fmap]. apply NoDup_cons. split; [|by apply IH].
    rewrite list_elem_of_fmap in *. intros (y & Hy & [Hin _]%elem_of_listRemove). destruct Hn. by exists y.
Qed.

Lemma listRemove_notin e l : e ∉ fst <$> l -> listRemove e l = l.
Proof.
  induction l as [|x l IH]; [done|]. cbn [fmap list_fmap].
  rewrite elem_of_cons. intros H. unfold listRemove.
  rewrite filter_cons_True by (intros He; apply H; by left). f_equal. apply IH. tauto.
Qed.

Lemma length_listRemove e k l : NoDup (fst <$> l) -> (e, k) ∈ l -> length l = S (length (listRemove e l)).
Proof.
  induction l as [|[e0 k0] l IH]; [by intros _ ?%not_elem_of_nil|]. cbn [fmap list_fmap length].
  rewrite NoDup_cons, elem_of_cons. intros [Hn Hd] Hin. unfold listRemove.
  destruct (decide (e0 = e)) as [->|Hne].
  - rewrite filter_cons_False by (simpl; tauto). f_equal. fold (listRemove e l). by rewrite listRemove_notin.
  - rewrite filter_cons_True by done. simpl. f_equal. apply IH; [done|]. destruct Hin as [[= ? ?]|]; [done|done].
Qed.

Lemma listMoveToFront_elem e k l : NoDup (fst <$> l) -> (e, k) ∈ l ->
  listMoveToFront e l = (e, k) :: listRemove e l.
Proof.
  intros Hd Hin. unfold listMoveToFront. change ((e, k) :: listRemove e l) with ([(e, k)] ++ listRemove e l).
  f_equal. induction l as [|[e0 k0] l IH]; [by apply not_elem_of_nil in Hin|].
  cbn [fmap list_fmap] in Hd. rewrite NoDup_cons in Hd. rewrite elem_of_cons in Hin. destruct Hd as [Hn Hd].
  assert (forall l', e ∉ fst <$> l' -> filter (fun x : nat * K => x.1 = e) l' = []) as Hnone.
  { intros l' Hl. induction l' as [|x l' IH']; [done|]. cbn [fmap list_fmap] in Hl. rewrite elem_of_cons in Hl.
    rewrite filter_cons_False by (intros Hx; apply Hl; by left). apply IH'. tauto. }
  destruct (decide (e0 = e)) as [->|Hne].
  - rewrite filter_cons_True by done. rewrite Hnone by done. f_equal.
    destruct Hin as [[= ->]|Hin]; [done|]. destruct Hn. apply list_elem_of_fmap. by exists (e, k).
  - rewrite filter_cons_False by done. apply IH; [done|]. destruct Hin as [[= ? ?]|]; [done|done].
Qed.

(** The last element is removed from the end. *)
Lemma listRemove_last e k l : NoDup (fst <$> l ++ [(e, k)]) -> listRemove e (l ++ [(e, k)]) = l.
Proof.
  intros Hd. rewrite fmap_app, NoDup_app in Hd. destruct Hd as (_ & Hd & _).
  unfold listRemove. rewrite filter_app. rewrite (filter_cons_False _ (e, k)) by (simpl; tauto).
  rewrite filter_nil, app_nil_r. apply listRemove_notin. intros Hin. by eapply (Hd e), list_elem_of_singleton.
Qed.
End Elements.

(** ** Tables *)

Section Table.
Context {V : Type}.

Record lruTable : Type := mkTable {
  items : gmap string (V * nat);             (* the value and its list element *)
  order : list (nat * string);               (* the front first *)
  nextElement : nat }.

Definition emptyTable : lruTable := mkTable ∅ [] 0.

Implicit Types (t : lruTable) (key : string) (v : V).

Definition valueAt t key : option V := fst <$> items t !! key.

(** [if entry != nil { lru.Remove(entry.element) }; delete(entries, key)] *)
Definition dropKey key t : lruTable :=
  match items t !! key with
  | Some (_, e) => mkTable (delete key (items t)) (listRemove e (order t)) (nextElement t)
  | None => mkTable (delete key (items t)) (order t) (nextElement t)
  end.

(** [entry.element = lru.PushFront(key); entries[key] = entry] *)
Definition pushFront key v t : lruTable :=
  mkTable (<[key := (v, nextElement t)]> (items t)) ((nextElement t, key) :: order t) (S (nextElement t)).

(** [lru.MoveToFront(entry.element)] and the entry with another value. *)
Definition moveToFront key v t : lruTable :=
  match items t !! key with
  | Some (_, e) => mkTable (<[key := (v, e)]> (items t)) (listMoveToFront e (order t)) (nextElement t)
  | None => t
  end.

(** The loop that drops entries from the back as long as they are missing or
    stale; the values dropped, in order. *)
Fixpoint pruneBack (fuel : nat) (stale : V -> bool) t : lruTable * list V :=
  match fuel, last (order t) with
  | S fuel', Some (_, key) =>
      match valueAt t key with
      | Some v => if stale v
                  then let '(t', dropped) := pruneBack fuel' stale (dropKey key t) in (t', v :: dropped)
                  else (t, [])
      | None => pruneBack fuel' stale (dropKey key t)
      end
  | _, _ => (t, [])
  end.

(** The loop that drops entries from the back as long as the map is full. *)
Fixpoint evictBack (fuel : nat) (limit : nat) t : lruTable * list V :=
  match fuel, last (order t) with
  | S fuel', Some (_, key) =>
      if (limit <=? size (items t))%nat
      then let '(t', dropped) := evictBack fuel' limit (dropKey key t) in
           (t', match valueAt t key with Some v => v :: dropped | None => dropped end)
      else (t, [])
  | _, _ => (t, [])
  end.

(** ** Invariant *)

Record TableInv t : Prop := {
  ti_item : forall key v e, items t !! key = Some (v, e) -> (e, key) ∈ order t;
  ti_listed : forall e key, (e, key) ∈ order t -> exists v, items t !! key = Some (v, e);
  ti_nodup : NoDup (fst <$> order t);
  ti_next : forall e key, (e, key) ∈ order t -> (e < nextElement t)%nat }.

(** ** Abstraction: the entries, newest first *)

Definition view t : list (string * V) :=
  omap (fun x => (fun v => (x.2, v)) <$> valueAt t x.2) (order t).

Definition without key (l : list (string * V)) : list (string * V) := filter (fun kv => kv.1 ≠ key) l.

Lemma valueAt_Some t key v : valueAt t key = Some v <-> exists e, items t !! key = Some (v, e).
Proof.
  unfold valueAt. destruct (items t !! key) as [[v' e]|]; simpl; [|naive_solver].
  split; [intros [= ->]; by exists e|by intros [e' [= -> ->]]].
Qed.

Lemma elem_of_view t key v : TableInv t -> (key, v) ∈ view t <-> valueAt t key = Some v.
Proof.
  intros Hi. unfold view. rewrite list_elem_of_omap. split.
  - intros ([e k] & _ & H). simpl in H. destruct (valueAt t k) as [v'|] eqn:E; [|done]. by injection H as -> ->.
  - intros Hv. apply valueAt_Some in Hv as [e He]. exists (e, key). split; [by eapply ti_item|].
    simpl. assert (valueAt t key = Some v) as -> by (apply valueAt_Some; by exists e). done.
Qed.

(** Every element of the list has its entry, in the same order. *)
Lemma view_keys t : TableInv t -> fst <$> view t = snd <$> order t.
Proof.
  intros Hi. unfold view. assert (forall x, x ∈ order t -> is_Some (valueAt t x.2)) as Hs.
  { intros [e key] Hin. destruct (ti_listed t Hi e key Hin) as [v Hv]. exists v. apply valueAt_Some. by exists e. }
  induction (order t) as [|x l IH]; [done|]. cbn [omap list_omap fmap list_fmap].
  destruct (Hs x) as [v ->]; [by left|]. cbn. f_equal. apply IH. intros y Hy. apply Hs. by right.
Qed.

Lemma view_nodup t : TableInv t -> NoDup (fst <$> view t).
Proof.
  intros Hi. rewrite view_keys by done. apply NoDup_fmap_2_strong; [|eapply NoDup_fmap_1, ti_nodup, Hi].
  intros [e k] [e' k'] H1 H2. simpl. intros <-.
  destruct (ti_listed t Hi _ _ H1) as [v ?], (ti_listed t Hi _ _ H2) as [v' ?]. congruence.
Qed.

Lemma length_view t : TableInv t -> length (view t) = length (order t).
Proof. intros Hi. by rewrite <-(length_fmap fst), view_keys, length_fmap. Qed.

Lemma size_view t : TableInv t -> size (items t) = length (view t).
Proof.
  intros Hi. rewrite <-(length_fmap fst), <-size_dom, <-(size_list_to_set (C := gset string)) by by apply view_nodup.
  f_equal. apply leibniz_equiv. intros key. rewrite elem_of_dom, elem_of_list_to_set, list_elem_of_fmap. split.
  - intros [[v e] He]. exists (key, v). split; [done|]. apply elem_of_view; [done|]. apply valueAt_Some. by exists e.
  - intros ([k v] & -> & Hin). apply elem_of_view, valueAt_Some in Hin as [e He]; [|done]. by exists (v, e).
Qed.

Lemma valueAt_dropKey t key key' :
  valueAt (dropKey key t) key' = if decide (key' = key) then None else valueAt t key'.
Proof.
  assert (items (dropKey key t) = delete key (items t)) as Hd by (unfold dropKey; by destruct (items t !! key) as [[? ?]|]).
  unfold valueAt. rewrite Hd. destruct (decide (key' = key)) as [->|].
  - by rewrite lookup_delete_eq.
  - by rewrite lookup_delete_ne.
Qed.

Lemma dropKey_inv t key : TableInv t -> TableInv (dropKey key t).
Proof.
  intros Hi. unfold dropKey. destruct (items t !! key) as [[v e]|] eqn:E.
  - split; cbn [items order nextElement].
    + intros key' v' e' [Hne H]%lookup_delete_Some. apply elem_of_listRemove. split; [by eapply ti_item|].
      simpl. intros ->. destruct Hne. eapply fst_unique; [apply (ti_nodup t Hi)|by eapply ti_item|by eapply ti_item].
    + intros e' key' [Hin Hne]%elem_of_listRemove. destruct (ti_listed t Hi _ _ Hin) as [v' H]. exists v'.
      rewrite lookup_delete_ne; [done|]. intros ->. simpl in Hne. congruence.
    + apply listRemove_nodup, ti_nodup, Hi.
    + intros e' key' [Hin _]%elem_of_listRemove. by eapply ti_next.
  - rewrite delete_id by done. by destruct t.
Qed.

Lemma order_dropKey t key : TableInv t -> order (dropKey key t) = filter (fun x => x.2 ≠ key) (order t).
Proof.
  intros Hi. unfold dropKey. destruct (items t !! key) as [[v e]|] eqn:E; cbn [order]; unfold listRemove.
  - apply filter_iff_in. intros [e' k] Hin. simpl. destruct (ti_listed t Hi _ _ Hin) as [v' H].
    split; [intros Hne ->|intros Hne ->]; [congruence|].
    destruct Hne. eapply fst_unique; [apply (ti_nodup t Hi)|done|by eapply ti_item].
  - symmetry. apply filter_all. apply Forall_forall. intros [e k] Hin. simpl. intros ->.
    destruct (ti_listed t Hi _ _ Hin) as [v' H]. congruence.
Qed.

Lemma view_dropKey t key : TableInv t -> view (dropKey key t) = without key (view t).
Proof.
  intros Hi. unfold view. rewrite order_dropKey by done. unfold without.
  induction (order t) as [|[e k] l IH]; [done|]. destruct (decide (k = key)) as [->|Hne].
  - rewrite filter_cons_False by (simpl; tauto). rewrite IH. cbn [omap list_omap snd].
    destruct (valueAt t key) as [v|]; cbn [fmap option_fmap option_map]; [|done].
    by rewrite (filter_cons_False _ (key, v)) by (simpl; tauto).
  - rewrite filter_cons_True by done. cbn [omap list_omap snd]. rewrite valueAt_dropKey, decide_False by done.
    destruct (valueAt t k) as [v|]; cbn [fmap option_fmap option_map]; [|done].
    rewrite (filter_cons_True _ (k, v)) by done. by rewrite IH.
Qed.

Lemma emptyTable_inv : TableInv emptyTable.
Proof. split; try done; try (by intros ? ? ?%not_elem_of_nil). apply NoDup_nil_2. Qed.

(** The entry [key] written and put at the front of what is left of the list. *)
Lemma front_inv t key v e l0 n : TableInv t ->
  (forall e' k', (e', k') ∈ l0 <-> (e', k') ∈ order t /\ k' <> key) ->
  NoDup (fst <$> l0) -> e ∉ fst <$> l0 -> (e < n)%nat -> (nextElement t <= n)%nat ->
  TableInv (mkTable (<[key := (v, e)]> (items t)) ((e, key) :: l0) n).
Proof.
  intros Hi Hl Hd Hn Hlt Hle. split; cbn [items order nextElement].
  - intros key' v' e'. rewrite elem_of_cons, Hl. destruct (decide (key' = key)) as [->|Hne].
    + rewrite lookup_insert_eq. intros [= -> ->]. by left.
    + rewrite lookup_insert_ne by done. intros H. right. split; [by eapply ti_item|done].
  - intros e' key'. rewrite elem_of_cons, Hl. intros [[= -> ->]|[Hin Hne]].
    + rewrite lookup_insert_eq. by exists v.
    + rewrite lookup_insert_ne by done. by apply ti_listed.
  - cbn [fmap list_fmap]. by apply NoDup_cons.
  - intros e' key'. rewrite elem_of_cons, Hl. intros [[= -> ->]|[Hin%(ti_next t Hi) _]]; lia.
Qed.

Lemma view_front t key v e l0 n :
  (forall x, x ∈ l0 -> x.2 <> key) ->
  view (mkTable (<[key := (v, e)]> (items t)) ((e, key) :: l0) n) =
  (key, v) :: view (mkTable (items t) l0 n).
Proof.
  intros Hl. unfold view, valueAt. cbn [order items omap list_omap snd].
  rewrite lookup_insert_eq. cbn [fmap option_fmap option_map fst]. f_equal.
  apply omap_ext_in. intros x Hx. rewrite lookup_insert_ne; [done|]. intros He. by apply (Hl x).
Qed.

Lemma pushFront_inv t key v : TableInv t -> valueAt t key = None -> TableInv (pushFront key v t).
Proof.
  intros Hi Hk. apply front_inv; try done; try lia.
  - intros e' k'. split; [|tauto]. intros Hin. split; [done|]. intros ->.
    destruct (ti_listed t Hi _ _ Hin) as [v' H]. unfold valueAt in Hk. by rewrite H in Hk.
  - apply ti_nodup, Hi.
  - rewrite list_elem_of_fmap. intros ([e k] & Hx & Hin%(ti_next t Hi)). simpl in Hx. lia.
Qed.

Lemma view_pushFront t key v : TableInv t -> valueAt t key = None ->
  view (pushFront key v t) = (key, v) :: view t.
Proof.
  intros Hi Hk. unfold pushFront. rewrite view_front; [by destruct t|].
  intros [e k] Hin. simpl. intros ->. destruct (ti_listed t Hi _ _ Hin) as [v' H]. unfold valueAt in Hk. by rewrite H in Hk.
Qed.

Lemma order_moved t key v e : TableInv t -> items t !! key = Some (v, e) ->
  listMoveToFront e (order t) = (e, key) :: order (dropKey key t).
Proof.
  intros Hi E. rewrite (listMoveToFront_elem e key) by (apply ti_nodup, Hi || by eapply ti_item).
  unfold dropKey. by rewrite E.
Qed.

Lemma moveToFront_inv t key v : TableInv t -> is_Some (valueAt t key) -> TableInv (moveToFront key v t).
Proof.
  intros Hi [v0 Hv]. apply valueAt_Some in Hv as [e E]. unfold moveToFront. rewrite E.
  rewrite (order_moved t key v0 e) by done. pose proof (dropKey_inv t key Hi) as Hd.
  apply front_inv; try done.
  - intros e' k'. rewrite order_dropKey, list_elem_of_filter by done. simpl. tauto.
  - apply ti_nodup, Hd.
  - rewrite list_elem_of_fmap. intros ([e' k'] & Hx & Hin). cbn [fst] in Hx. subst e'.
    rewrite order_dropKey, list_elem_of_filter in Hin by done. destruct Hin as [Hne Hin]. destruct Hne.
    eapply fst_unique; [apply (ti_nodup t Hi)|done|by eapply ti_item].
  - by eapply ti_next, ti_item.
Qed.

Lemma view_moveToFront t key v : TableInv t -> is_Some (valueAt t key) ->
  view (moveToFront key v t) = (key, v) :: without key (view t).
Proof.
  intros Hi [v0 Hv]. apply valueAt_Some in Hv as [e E]. unfold moveToFront. rewrite E.
  rewrite (order_moved t key v0 e) by done. rewrite view_front.
  2:{ intros [e' k']. rewrite order_dropKey, list_elem_of_filter by done. tauto. }
  f_equal. rewrite <-view_dropKey by done. unfold view. cbn [order]. apply omap_ext_in.
  intros [e' k'] Hin. cbn [snd]. rewrite order_dropKey, list_elem_of_filter in Hin by done.
  rewrite valueAt_dropKey, decide_False by (simpl in Hin; tauto). done.
Qed.

(** ** The loops *)

(** The back of the list is the oldest entry, and dropping it shortens the
    view at the end. *)
Lemma drop_back t e key : TableInv t -> last (order t) = Some (e, key) ->
  exists l v, view t = l ++ [(key, v)] /\ valueAt t key = Some v /\ TableInv (dropKey key t) /\
    view (dropKey key t) = l /\ length (order t) = S (length (order (dropKey key t))).
Proof.
  intros Hi Hl. pose proof (view_keys t Hi) as Hk. pose proof (view_nodup t Hi) as Hd.
  assert (last (fst <$> view t) = Some key) as Hlast by (rewrite Hk, fmap_last, Hl; done).
  destruct (view t) as [|kv0 l0] eqn:Ev using rev_ind; [done|]. clear IHl0.
  rewrite fmap_app in Hlast. cbn [fmap list_fmap] in Hlast. rewrite last_snoc in Hlast. destruct kv0 as [key' v]. simpl in Hlast. injection Hlast as ->.
  exists l0, v. assert (without key (view t) = l0) as Hw.
  { rewrite Ev. unfold without. rewrite filter_app, (filter_cons_False _ (key, v)) by (simpl; tauto).
    rewrite filter_nil, app_nil_r. apply filter_all. apply Forall_forall. intros kv Hin He.
    rewrite fmap_app, NoDup_app in Hd. destruct Hd as (_ & Hd & _). apply (Hd key).
    - apply list_elem_of_fmap. by exists kv.
    - by left. }
  split_and!; try done.
  - apply elem_of_view; [done|]. rewrite Ev. apply elem_of_app. right. by left.
  - by apply dropKey_inv.
  - by rewrite view_dropKey.
  - pose proof (dropKey_inv t key Hi) as Hi'. rewrite <-!length_view by done. rewrite view_dropKey, Hw, Ev by done.
    rewrite length_app. simpl. lia.
Qed.

Lemma view_nil t : TableInv t -> last (order t) = None -> view t = [].
Proof. intros Hi Hl. apply last_None in Hl. unfold view. by rewrite Hl. Qed.

(** Pruning cuts a stale tail off and stops at a fresh entry. *)
Lemma pruneBack_spec stale fuel : forall t, TableInv t -> (length (order t) <= fuel)%nat ->
  let '(t', dropped) := pruneBack fuel stale t in
  TableInv t' /\ exists old, view t = view t' ++ old /\ dropped = reverse (snd <$> old) /\
    Forall (fun kv => stale kv.2 = true) old /\
    (forall kv, last (view t') = Some kv -> stale kv.2 = false).
Proof.
  induction fuel as [|fuel IH]; intros t Hi Hf; cbn [pruneBack].
  { split; [done|]. exists []. rewrite app_nil_r. split_and!; try done.
    rewrite view_nil; [done|done|]. destruct (order t) eqn:Eo; [done|simpl in Hf; lia]. }
  destruct (last (order t)) as [[e key]|] eqn:El.
  2:{ split; [done|]. exists []. rewrite app_nil_r. split_and!; try done. by rewrite view_nil. }
  destruct (drop_back t e key Hi El) as (l & v & Hv & Hval & Hi' & Hl & Hlen). rewrite Hval.
  destruct (stale v) eqn:Es.
  - specialize (IH (dropKey key t) Hi' ltac:(lia)). destruct (pruneBack fuel stale (dropKey key t)) as [t' dropped].
    destruct IH as (Ht' & old & Ho & -> & Hst & Hlast). split; [done|]. exists (old ++ [(key, v)]).
    rewrite Hv, <-Hl, Ho, app_assoc, fmap_app, reverse_app. split_and!; try done.
    apply Forall_app. split; [done|]. by constructor.
  - split; [done|]. exists []. rewrite app_nil_r. split_and!; try done.
    rewrite Hv, last_snoc. by intros kv [= <-].
Qed.

(** Evicting cuts the tail off that is beyond the limit. *)
Lemma evictBack_spec limit fuel : forall t, TableInv t -> (length (order t) <= fuel)%nat -> (0 < limit)%nat ->
  let '(t', dropped) := evictBack fuel limit t in
  TableInv t' /\ (length (view t') < limit)%nat /\
  exists old, view t = view t' ++ old /\ dropped = reverse (snd <$> old) /\
    (old = [] \/ S (length (view t')) = limit).
Proof.
  induction fuel as [|fuel IH]; intros t Hi Hf Hlim; cbn [evictBack].
  { assert (view t = []) as Hv by (apply view_nil; [done|]; destruct (order t) eqn:Eo; [done|simpl in Hf; lia]). split; [done|].
    rewrite Hv. split; [simpl; lia|]. exists []. split_and!; auto. }
  destruct (last (order t)) as [[e key]|] eqn:El.
  2:{ split; [done|]. rewrite view_nil by done. split; [simpl; lia|]. exists []. split_and!; auto. }
  destruct (Nat.leb_spec limit (size (items t))) as [Hle|Hlt]; rewrite size_view in * by done.
  - destruct (drop_back t e key Hi El) as (l & v & Hv & Hval & Hi' & Hl & Hlen). rewrite Hval.
    specialize (IH (dropKey key t) Hi' ltac:(lia) Hlim).
    destruct (evictBack fuel limit (dropKey key t)) as [t' dropped].
    destruct IH as (Ht' & Hsz & old & Ho & -> & Hend). split_and!; [done|done|]. exists (old ++ [(key, v)]).
    rewrite Hv, <-Hl, Ho, app_assoc, fmap_app, reverse_app. split_and!; try done. right.
    destruct Hend as [->|Hend]; [|done]. rewrite Hv, <-Hl, Ho, !length_app in Hle. simpl in Hle. lia.
  - split_and!; [done|done|]. exists []. rewrite app_nil_r. auto.
Qed.

Lemma valueAt_view t t' key : TableInv t -> TableInv t' ->
  (forall kv, kv ∈ view t' -> kv ∈ view t) -> valueAt t key = None -> valueAt t' key = None.
Proof.
  intros Hi Hi' Hsub Hn. destruct (valueAt t' key) as [v|] eqn:E; [|done].
  apply elem_of_view, Hsub, elem_of_view in E; [|done..]. congruence.
Qed.
End Table.
Arguments lruTable : clear implicits.

#[global] Instance lruTable_inhabited V : Inhabited (lruTable V) := populate emptyTable.
