(* ===== verification/CertBalance.v ===== *)
(** * Balancing certificates ([service/reverse_proxy_certificate_balance.go])

    A listener that has several certificates for a name hands them out in
    turn.  A shard keeps, per name, how many open connections each certificate
    has; an LRU list orders the entries for eviction, and all shards of the
    process share one counter of entries.

    The inner maps of [states] are Go maps, shared by reference: they live in
    a store [maps] and [states] holds references, since an operation keeps a
    reference to a map that eviction may have dropped from the shard.  List
    elements have an identity, which a state remembers.  A shard is the state
    after [ensureLocked] made its containers, which it only ever does on an
    empty shard.  The mutex makes the operations atomic; the counter is shared
    with the other shards, whose effect between two attempts to take a slot is
    the argument [others]. *)

From stdpp Require Import base gmap list strings.
From Stdlib Require Import Ascii ZArith Lia.
From S2P Require Import Prelude GoStrings LruTable.

#[local] Open Scope Z_scope.
#[local] Open Scope go_scope.

Definition reverseProxyRuntimeTableTTLSeconds : Z := 5 * 60.
Definition reverseProxyRuntimeTableMaxEntries : Z := 16384.
Definition reverseProxyRuntimeTableShardCount : Z := 16.
Definition reverseProxyCertificateBalanceShardLimit : Z :=
  reverseProxyRuntimeTableMaxEntries / reverseProxyRuntimeTableShardCount.
Definition nanosPerSecond : Z := 1000000000.

(** ** Names *)

Definition trimBrackets (s : string) : string :=
  srev (trim_left ["["; "]"] (srev (trim_left ["["; "]"] s))).

Definition reverseProxyNormalizeServerName (value : string) : string :=
  to_lower (trim_suffix (trimBrackets (trim_space value)) ".").

Definition reverseProxyCertBalanceNoSNIBucket : string := "_nosni".

Definition reverseProxyNormalizeSNIBucket (raw : string) : string :=
  let value := reverseProxyNormalizeServerName raw in
  if String.eqb value "" then reverseProxyCertBalanceNoSNIBucket else value.

(** ** Candidates *)

(** What the code reads of an [x509.Certificate]: its encoding, the end of its
    validity (the zero time is [None]), the addresses it is for, as bytes, and
    the names. *)
Record x509Certificate : Type := mkCertificate {
  cert_Raw : string;
  cert_NotAfter : option Z;
  IPAddresses : list (list Z);
  DNSNames : list string }.

(** [x509LeafState] *)
Record leafState : Type := mkLeaf {
  parsedLeaf : option x509Certificate;
  NotAfter : option Z;
  HasIPSAN : bool }.

Record reverseProxyRuleCertificateBinding : Type := mkBinding {
  RuleID : Z;
  CertificateRecordID : Z;
  Certificate : bool;                 (* not nil *)
  Leaf : option leafState }.

(** [now] is never the zero time: the callers pass [time.Now()]. *)
Definition reverseProxyCertificateBindingUsable (binding : option reverseProxyRuleCertificateBinding) (now : Z)
  : bool :=
  match binding with
  | None => false
  | Some b =>
      match Leaf b with
      | None => false
      | Some l =>
          match parsedLeaf l with
          | None => false
          | Some parsed =>
              Certificate b &&
              match (match NotAfter l with None => cert_NotAfter parsed | t => t end) with
              | None => true
              | Some t => now <? t
              end
          end
      end
  end.

Fixpoint uniqueBindings (now : Z) (seen : gset Z) (candidates : list (option reverseProxyRuleCertificateBinding))
  : list reverseProxyRuleCertificateBinding :=
  match candidates with
  | [] => []
  | item :: rest =>
      match item with
      | Some b =>
          if negb (reverseProxyCertificateBindingUsable item now) || (CertificateRecordID b =? 0)
          then uniqueBindings now seen rest
          else if decide (CertificateRecordID b ∈ seen) then uniqueBindings now seen rest
          else b :: uniqueBindings now ({[CertificateRecordID b]} ∪ seen) rest
      | None => uniqueBindings now seen rest
      end
  end.

Definition reverseProxyUniqueCertificateBindings (now : Z)
  (candidates : list (option reverseProxyRuleCertificateBinding)) : list reverseProxyRuleCertificateBinding :=
  uniqueBindings now ∅ candidates.

Record reverseProxyBalanceCandidateState : Type := mkCandidate {
  cand_Binding : reverseProxyRuleCertificateBinding;
  cand_ActiveConn : Z;
  cand_LastSelectedAt : Z }.

Definition reverseProxyBalanceCandidateLess (a b : reverseProxyBalanceCandidateState) : bool :=
  if negb (cand_ActiveConn a =? cand_ActiveConn b) then cand_ActiveConn a <? cand_ActiveConn b
  else if negb (cand_LastSelectedAt a =? cand_LastSelectedAt b)
  then cand_LastSelectedAt a <? cand_LastSelectedAt b
  else CertificateRecordID (cand_Binding a) <? CertificateRecordID (cand_Binding b).

(** ** A shard *)

Record runtimeState : Type := mkState {
  ActiveConn : Z;
  SelectedTotal : Z;
  LastSelectedAt : Z;
  UpdatedAtUnix : Z;
  element : option nat;
  globalSlot : bool }.

(** [reverseProxyCertificateBalanceLRUKey] *)
Definition lruKey : Type := string * Z.

Record reverseProxyCertificateBalanceShard : Type := mkShard {
  maps : gmap nat (gmap Z runtimeState);
  states : gmap string nat;
  lru : list (nat * lruKey);             (* the front first *)
  entries : Z;
  next : nat }.                          (* the next unused identity *)

Definition emptyShard : reverseProxyCertificateBalanceShard := mkShard ∅ ∅ [] 0 0.

Implicit Types (s : reverseProxyCertificateBalanceShard) (k : lruKey) (st : runtimeState).

(** [s.states[bucket]], a reference, and what is read through it; reading a
    nil map finds nothing. *)
Definition mapAt s (r : option nat) : gmap Z runtimeState :=
  match r with Some i => maps s !!! i | None => ∅ end.

Definition stateOf s k : option runtimeState := mapAt s (states s !! k.1) !! k.2.

Definition setMaps (m : gmap nat (gmap Z runtimeState)) s := mkShard m (states s) (lru s) (entries s) (next s).
Definition setStates (b : gmap string nat) s := mkShard (maps s) b (lru s) (entries s) (next s).
Definition setLru (l : list (nat * lruKey)) s := mkShard (maps s) (states s) l (entries s) (next s).
Definition setEntries (n : Z) s := mkShard (maps s) (states s) (lru s) n (next s).

(** [states[certificateID] = state] on the map behind a reference. *)
Definition putIn (r : nat) (c : Z) st s := setMaps (<[r := <[c := st]> (maps s !!! r)]> (maps s)) s.

(** ** The list *)

(** The last element with a key. *)
Definition lastWithKey k (l : list (nat * lruKey)) : option nat :=
  fst <$> last (filter (fun x => x.2 = k) l).

(** ** The counter of entries *)

Definition reserveReverseProxyCertificateBalanceEntry (count : Z) : bool * Z :=
  if reverseProxyRuntimeTableMaxEntries <=? count then (false, count) else (true, count + 1).

Definition releaseReverseProxyCertificateBalanceEntry (state : option runtimeState) (count : Z) : Z :=
  match state with
  | None => count
  | Some st => if negb (globalSlot st) then count else if count <=? 0 then count else count - 1
  end.

(** ** Operations under the mutex

    [state] is what the caller found under the key, as everywhere in the
    source; a removed state is not reachable any more, so its fields are not
    reset. *)

Definition removeStateLocked k (state : option runtimeState) s (count : Z)
  : reverseProxyCertificateBalanceShard * Z :=
  let '(removedLRU, s1) :=
    match state with
    | Some st => match element st with
                 | Some e => (true, setLru (listRemove e (lru s)) s)
                 | None => (false, s)
                 end
    | None => match lastWithKey k (lru s) with
              | Some e => (true, setLru (listRemove e (lru s)) s)
              | None => (false, s)
              end
    end in
  let '(removedState, state, s2) :=
    match states s1 !! k.1 with
    | None => (false, state, s1)
    | Some r =>
        let state := match state with None => maps s1 !!! r !! k.2 | some => some end in
        let removed := bool_decide (is_Some (maps s1 !!! r !! k.2)) in
        let m := delete k.2 (maps s1 !!! r) in
        let s' := setMaps (<[r := m]> (maps s1)) s1 in
        (removed, state, if decide (m = ∅) then setStates (delete k.1 (states s')) s' else s')
    end in
  let s3 := if (removedLRU || removedState) && (0 <? entries s2) then setEntries (entries s2 - 1) s2 else s2 in
  (s3, if removedState then releaseReverseProxyCertificateBalanceEntry state count else count).

(** The candidates from the back of the list. *)
Fixpoint inactiveFrom s (back : list (nat * lruKey)) : option lruKey :=
  match back with
  | [] => None
  | (_, k) :: rest =>
      match stateOf s k with
      | None => Some k
      | Some st => if ActiveConn st =? 0 then Some k else inactiveFrom s rest
      end
  end.

Definition evictOneInactiveLocked s (count : Z) : bool * reverseProxyCertificateBalanceShard * Z :=
  match inactiveFrom s (reverse (lru s)) with
  | None => (false, s, count)
  | Some k => let '(s', count') := removeStateLocked k (stateOf s k) s count in (true, s', count')
  end.

(** Each round removes an element of the list: [length (lru s)] rounds. *)
Fixpoint makeRoomLoop (fuel : nat) s (count : Z) : reverseProxyCertificateBalanceShard * Z :=
  if entries s <? reverseProxyCertificateBalanceShardLimit then (s, count)
  else match fuel with
       | O => (s, count)
       | S fuel' =>
           let '(ok, s', count') := evictOneInactiveLocked s count in
           if ok then makeRoomLoop fuel' s' count' else (s', count')
       end.
Definition makeRoomLocked s (count : Z) : reverseProxyCertificateBalanceShard * Z :=
  makeRoomLoop (length (lru s)) s count.

Fixpoint pruneLoop (fuel : nat) (staleBefore : Z) s (count : Z) : reverseProxyCertificateBalanceShard * Z :=
  match fuel, last (lru s) with
  | S fuel', Some (_, k) =>
      match stateOf s k with
      | None => let '(s', count') := removeStateLocked k None s count in pruneLoop fuel' staleBefore s' count'
      | Some st =>
          if negb (ActiveConn st =? 0) || ((0 <? UpdatedAtUnix st) && (staleBefore <=? UpdatedAtUnix st))
          then (s, count)
          else let '(s', count') := removeStateLocked k (Some st) s count in
               pruneLoop fuel' staleBefore s' count'
      end
  | _, _ => (s, count)
  end.

Definition pruneLocked (nowUnix : Z) s (count : Z) : reverseProxyCertificateBalanceShard * Z :=
  if decide (states s = ∅) then (s, count)
  else pruneLoop (length (lru s)) (nowUnix - reverseProxyRuntimeTableTTLSeconds) s count.

(** [touchLocked], on the state behind a reference to its map. *)
Definition touchLocked k (r : nat) st (nowUnix : Z) s : reverseProxyCertificateBalanceShard :=
  match element st with
  | Some e =>
      putIn r k.2 (mkState (ActiveConn st) (SelectedTotal st) (LastSelectedAt st) nowUnix (Some e) (globalSlot st))
        (setLru (listMoveToFront e (lru s)) s)
  | None =>
      let e := next s in
      putIn r k.2 (mkState (ActiveConn st) (SelectedTotal st) (LastSelectedAt st) nowUnix (Some e) (globalSlot st))
        (mkShard (maps s) (states s) ((e, k) :: lru s) (entries s) (S e))
  end.

(** [states = shard.states[bucket]], made when it is nil. *)
Definition ensureBucket (bucket : string) s : nat * reverseProxyCertificateBalanceShard :=
  match states s !! bucket with
  | Some r => (r, s)
  | None => let r := next s in
            (r, mkShard (<[r := ∅]> (maps s)) (<[bucket := r]> (states s)) (lru s) (entries s) (S r))
  end.

Definition candidateState (m : gmap Z runtimeState) (b : reverseProxyRuleCertificateBinding)
  : reverseProxyBalanceCandidateState :=
  match m !! CertificateRecordID b with
  | Some st => mkCandidate b (ActiveConn st) (LastSelectedAt st)
  | None => mkCandidate b 0 0
  end.

Fixpoint selectLoop (m : gmap Z runtimeState) (candidates : list reverseProxyRuleCertificateBinding)
  (selected : option reverseProxyBalanceCandidateState) : option reverseProxyBalanceCandidateState :=
  match candidates with
  | [] => selected
  | b :: rest =>
      if CertificateRecordID b =? 0 then selectLoop m rest selected
      else
        let candidate := candidateState m b in
        match selected with
        | None => selectLoop m rest (Some candidate)
        | Some sel => selectLoop m rest
                        (Some (if reverseProxyBalanceCandidateLess candidate sel then candidate else sel))
        end
  end.

(** The state to count on, made when it is missing; [None] when the process
    has no slot left. *)
Definition obtainState (bucket : string) (c others : Z) s (count : Z)
  : option (nat * runtimeState) * reverseProxyCertificateBalanceShard * Z :=
  let '(r0, s0) := ensureBucket bucket s in
  match maps s0 !!! r0 !! c with
  | Some st => (Some (r0, st), s0, count)
  | None =>
      let '(s1, count1) := makeRoomLocked s0 count in
      let '(r, s2) := ensureBucket bucket s1 in
      match maps s2 !!! r !! c with
      | Some st => (Some (r, st), s2, count1)
      | None =>
          let fresh := mkState 0 0 0 0 None true in
          let '(free, count2) := reserveReverseProxyCertificateBalanceEntry count1 in
          if free
          then (Some (r, fresh), setEntries (entries s2 + 1) (putIn r c fresh s2), count2)
          else
            let '(_, s3, count3) := evictOneInactiveLocked s2 (count2 + others) in
            let '(free, count4) := reserveReverseProxyCertificateBalanceEntry count3 in
            if free
            then (Some (r, fresh), setEntries (entries s3 + 1) (putIn r c fresh s3), count4)
            else (None, s3, count4)
      end
  end.

(** [reverseProxyCertificateSelection]: name and certificate; [None] is the
    empty selection, which nothing releases. *)
Definition reserveCertificateBalanceSelection (sniBucket : string)
  (candidates : list reverseProxyRuleCertificateBinding) (nowUnix others : Z) s (count : Z)
  : option reverseProxyRuleCertificateBinding * option lruKey * reverseProxyCertificateBalanceShard * Z :=
  if decide (candidates = []) then (None, None, s, count)
  else
    let bucket := reverseProxyNormalizeSNIBucket sniBucket in
    let '(s0, count0) := pruneLocked nowUnix s count in
    match selectLoop (mapAt s0 (states s0 !! bucket)) candidates None with
    | None => (None, None, s0, count0)
    | Some selected =>
        let b := cand_Binding selected in
        let c := CertificateRecordID b in
        let '(found, s1, count1) := obtainState bucket c others s0 count0 in
        match found with
        | None => (Some b, None, s1, count1)
        | Some (r, st) =>
            let st' := mkState (ActiveConn st +! 1) (SelectedTotal st +! 1) nowUnix (UpdatedAtUnix st)
                         (element st) (globalSlot st) in
            (Some b, Some (bucket, c), touchLocked (bucket, c) r st' nowUnix s1, count1)
        end
    end.

Definition selectBalancedCertificate (candidates : list (option reverseProxyRuleCertificateBinding))
  (sniBucket : string) (nowFilter now others : Z) s (count : Z)
  : option reverseProxyRuleCertificateBinding * option lruKey * reverseProxyCertificateBalanceShard * Z :=
  let filtered := reverseProxyUniqueCertificateBindings nowFilter candidates in
  if decide (filtered = []) then (None, None, s, count)
  else reserveCertificateBalanceSelection (reverseProxyNormalizeSNIBucket sniBucket) filtered
         (now / nanosPerSecond) others s count.

(** The group checks that the selection is its own; the key of the listener
    is not modelled. *)
Definition releaseCertificateBalanceSelection (selection : option lruKey) (nowUnix : Z) s
  : reverseProxyCertificateBalanceShard :=
  match selection with
  | None => s
  | Some (sni, c) =>
      if c =? 0 then s
      else
        let bucket := reverseProxyNormalizeSNIBucket sni in
        match states s !! bucket with
        | None => s
        | Some r =>
            match maps s !!! r !! c with
            | None => s
            | Some st =>
                let st' := mkState (if 0 <? ActiveConn st then ActiveConn st - 1 else ActiveConn st)
                             (SelectedTotal st) (LastSelectedAt st) (UpdatedAtUnix st)
                             (element st) (globalSlot st) in
                touchLocked (bucket, c) r st' nowUnix s
            end
        end
  end.

(** The keys in the order the nested [range] happens to visit them. *)
Fixpoint clearLoop (ks : list lruKey) s (count : Z) : reverseProxyCertificateBalanceShard * Z :=
  match ks with
  | [] => (s, count)
  | k :: rest =>
      let '(s', count') := match stateOf s k with
                           | Some st => removeStateLocked k (Some st) s count
                           | None => (s, count)
                           end in
      clearLoop rest s' count'
  end.

Definition clearCertificateBalanceStates (order : list lruKey) s (count : Z)
  : reverseProxyCertificateBalanceShard * Z :=
  let '(s', count') := clearLoop order s count in (setEntries 0 (setLru [] s'), count').

(** ** The invariant

    The map and the list hold the same entries, one element each, and every
    entry owns a slot of the counter. *)
Record ShardInv s : Prop := {
  si_ref : forall b r, states s !! b = Some r -> is_Some (maps s !! r) /\ (r < next s)%nat;
  si_inj : forall b b' r, states s !! b = Some r -> states s !! b' = Some r -> b = b';
  si_elem : forall k st, stateOf s k = Some st ->
    globalSlot st = true /\ exists e, element st = Some e /\ (e, k) ∈ lru s;
  si_state : forall e k, (e, k) ∈ lru s -> exists st, stateOf s k = Some st /\ element st = Some e;
  si_nodup : NoDup (fst <$> lru s);
  si_next : forall e k, (e, k) ∈ lru s -> (e < next s)%nat;
  si_entries : entries s = Z.of_nat (length (lru s)) }.

Lemma stateOf_eq s b c r : states s !! b = Some r -> stateOf s (b, c) = (maps s !!! r) !! c.
Proof. unfold stateOf, mapAt. simpl. by intros ->. Qed.

Lemma stateOf_bucket s k st : stateOf s k = Some st -> exists r, states s !! k.1 = Some r.
Proof. unfold stateOf, mapAt. destruct (states s !! k.1) as [r|]; [by exists r|]. by rewrite lookup_empty. Qed.

Lemma stateOf_setMap s b r m k : ShardInv s -> states s !! b = Some r ->
  stateOf (setMaps (<[r := m]> (maps s)) s) k = if decide (k.1 = b) then m !! k.2 else stateOf s k.
Proof.
  intros Hi Hr. unfold stateOf. simpl. destruct (decide (k.1 = b)) as [->|Hne].
  - rewrite Hr. simpl. by rewrite lookup_total_insert_eq.
  - destruct (states s !! k.1) as [r'|] eqn:E; [|done]. simpl. rewrite lookup_total_insert_ne; [done|].
    intros ->. destruct Hne. by eapply si_inj.
Qed.

Lemma stateOf_dropBucket s b k : mapAt s (states s !! b) = ∅ ->
  stateOf (setStates (delete b (states s)) s) k = stateOf s k.
Proof.
  intros Hm. unfold stateOf. simpl. destruct (decide (k.1 = b)) as [->|Hne].
  - rewrite lookup_delete_eq. simpl. by rewrite Hm.
  - by rewrite lookup_delete_ne by done.
Qed.

Lemma stateOf_lru s l k : stateOf (setLru l s) k = stateOf s k.
Proof. done. Qed.

(** What removing an entry that is in the map does. *)
Lemma removeState_spec s k st count : ShardInv s -> stateOf s k = Some st -> entries s <= count ->
  let '(s', count') := removeStateLocked k (Some st) s count in
  ShardInv s' /\ (forall k', stateOf s' k' = if decide (k' = k) then None else stateOf s k') /\
  entries s' = entries s - 1 /\ count' = count - 1 /\
  (forall b, b <> k.1 \/ (exists c, c <> k.2 /\ is_Some (stateOf s (k.1, c))) -> states s' !! b = states s !! b) /\
  next s' = next s.
Proof.
  intros Hi Hst Hc. destruct (si_elem s Hi k st Hst) as (Hslot & e & He & Hin).
  destruct (stateOf_bucket s k st Hst) as [r Hr].
  pose proof (si_entries s Hi) as Hent. pose proof (length_listRemove e k (lru s) (si_nodup s Hi) Hin) as Hlen.
  pose proof Hst as Hm. destruct k as [b c]. rewrite (stateOf_eq s b c r Hr) in Hm. simpl in Hr.
  unfold removeStateLocked. rewrite He. cbn [fst snd]. cbn [setLru states maps]. rewrite Hr, Hm.
  rewrite bool_decide_true by (by eexists). cbn [orb].
  set (m := delete c (maps s !!! r)). set (s1 := setMaps _ _).
  set (s2 := if decide (m = ∅) then _ else _).
  assert (lru s2 = listRemove e (lru s) /\ entries s2 = entries s /\ next s2 = next s) as (El & Ee & En).
  { unfold s2. by destruct (decide (m = ∅)). }
  assert (forall k', stateOf s2 k' = if decide (k' = (b, c)) then None else stateOf s k') as Hso.
  { intros k'. transitivity (if decide (k'.1 = b) then m !! k'.2 else stateOf s k').
    - transitivity (stateOf s1 k'); [|exact (stateOf_setMap s b r m k' Hi Hr)].
      unfold s2. destruct (decide (m = ∅)) as [Hm0|]; [|done]. apply stateOf_dropBucket.
      change (mapAt s1 (states s !! b) = ∅). rewrite Hr. change ((<[r := m]> (maps s)) !!! r = ∅).
      by rewrite lookup_total_insert_eq.
    - unfold m. destruct k' as [b' c']. cbn [fst snd]. destruct (decide (b' = b)) as [->|].
      + destruct (decide (c' = c)) as [->|].
        * by rewrite lookup_delete_eq, decide_True.
        * rewrite lookup_delete_ne by done. rewrite decide_False by congruence. by rewrite (stateOf_eq s b c' r Hr).
      + by rewrite decide_False by congruence. }
  assert (forall b' r', states s2 !! b' = Some r' -> states s !! b' = Some r') as Hsub.
  { intros b' r'. unfold s2. destruct (decide (m = ∅)); [|done]. cbn. by intros [_ ?]%lookup_delete_Some. }
  assert (maps s2 = <[r := m]> (maps s)) as Hms by (unfold s2; by destruct (decide (m = ∅))).
  assert (forall b', b' <> b \/ (exists c', c' <> c /\ is_Some (stateOf s (b, c'))) ->
    states s2 !! b' = states s !! b') as Hkeep.
  { intros b' Hb'. unfold s2. destruct (decide (m = ∅)) as [Hm0|]; [|done]. cbn.
    apply lookup_delete_ne. intros <-. destruct Hb' as [?|(c' & Hc' & [st' Hs'])]; [done|].
    rewrite (stateOf_eq s b c' r Hr) in Hs'. assert (m !! c' = Some st') as Hm' by (unfold m; by rewrite lookup_delete_ne).
    by rewrite Hm0, lookup_empty in Hm'. }
  clearbody s2. clear s1.
  rewrite Ee, Hent, Hlen. destruct (Z.ltb_spec 0 (Z.of_nat (S (length (listRemove e (lru s)))))); [|lia].
  cbn [releaseReverseProxyCertificateBalanceEntry setEntries entries states next]. rewrite Hslot. cbn [negb andb].
  destruct (Z.leb_spec count 0); [lia|]. split_and!; try done; try lia.
  split; cbn [setEntries maps states lru entries next].
  - intros b' r' Hb'%Hsub. destruct (si_ref s Hi b' r' Hb') as [[m' Hm'] Hn]. split; [|by rewrite En].
    rewrite Hms. destruct (decide (r = r')) as [<-|]; [rewrite lookup_insert_eq|rewrite lookup_insert_ne by done]; by eexists.
  - intros b1 b2 r' H1%Hsub H2%Hsub. by eapply si_inj.
  - intros k' st' Hk. change (stateOf s2 k' = Some st') in Hk. rewrite Hso in Hk.
    destruct (decide (k' = (b, c))) as [|Hne]; [done|]. destruct (si_elem s Hi k' st' Hk) as (? & e' & He' & Hin').
    split; [done|]. exists e'. split; [done|]. rewrite El. apply elem_of_listRemove. split; [done|].
    simpl. intros ->. destruct Hne. by eapply fst_unique; [apply si_nodup| |].
  - intros e' k'. rewrite El, elem_of_listRemove. intros [Hin' Hne]. change (stateOf (setEntries _ s2) k') with (stateOf s2 k').
    destruct (si_state s Hi e' k' Hin') as (st' & Hs' & He'). exists st'. split; [|done].
    rewrite Hso, decide_False; [done|]. intros ->. rewrite Hst in Hs'. injection Hs' as <-. simpl in Hne. congruence.
  - rewrite El. apply listRemove_nodup, si_nodup, Hi.
  - intros e' k'. rewrite El, En, elem_of_listRemove. intros [Hin' _]. by eapply si_next.
  - rewrite El. lia.
Qed.

(** Entries that nobody uses may go; the slots that were not the shard's stay
    where they were, and a map that holds an entry in use, or none at all,
    stays in the shard. *)
Definition inUse s (b : string) : Prop := exists c st, stateOf s (b, c) = Some st /\ ActiveConn st <> 0.
Definition vacant s (b : string) : Prop := forall c, stateOf s (b, c) = None.

Record Shrinks s (count : Z) s' (count' : Z) : Prop := {
  sh_inv : ShardInv s';
  sh_sub : forall k st, stateOf s' k = Some st -> stateOf s k = Some st;
  sh_used : forall k st, stateOf s k = Some st -> ActiveConn st <> 0 -> stateOf s' k = Some st;
  sh_bal : count' - entries s' = count - entries s;
  sh_less : entries s' <= entries s;
  sh_bucket : forall b, inUse s b \/ vacant s b -> states s' !! b = states s !! b }.

Lemma Shrinks_refl s count : ShardInv s -> Shrinks s count s count.
Proof. intros Hi. split; [done|auto|auto|lia|lia|done]. Qed.

Lemma Shrinks_trans s1 n1 s2 n2 s3 n3 : Shrinks s1 n1 s2 n2 -> Shrinks s2 n2 s3 n3 -> Shrinks s1 n1 s3 n3.
Proof.
  intros H1 H2. split.
  - by eapply sh_inv.
  - intros k st H. by eapply sh_sub, sh_sub.
  - intros k st H Ha. eapply sh_used; [done| |done]. by eapply sh_used.
  - pose proof (sh_bal _ _ _ _ H1). pose proof (sh_bal _ _ _ _ H2). lia.
  - pose proof (sh_less _ _ _ _ H1). pose proof (sh_less _ _ _ _ H2). lia.
  - intros b Hb. rewrite <-(sh_bucket _ _ _ _ H1) by done. apply (sh_bucket _ _ _ _ H2).
    destruct Hb as [(c & st & Hs & Ha)|Hv].
    + left. exists c, st. split; [by eapply sh_used|done].
    + right. intros c. destruct (stateOf s2 (b, c)) as [st|] eqn:E; [|done].
      apply (sh_sub _ _ _ _ H1) in E. by rewrite Hv in E.
Qed.

Lemma Shrinks_remove s k st count : ShardInv s -> stateOf s k = Some st -> ActiveConn st = 0 ->
  entries s <= count ->
  let '(s', count') := removeStateLocked k (Some st) s count in
  Shrinks s count s' count' /\ entries s' = entries s - 1.
Proof.
  intros Hi Hst Ha Hc. pose proof (removeState_spec s k st count Hi Hst Hc) as H.
  destruct (removeStateLocked k (Some st) s count) as [s' count'].
  destruct H as (Hi' & Hso & He & Hn & Hb & _). split; [|done]. split; try done; try lia.
  - intros k' st'. rewrite Hso. by destruct (decide (k' = k)).
  - intros k' st' Hk' Ha'. rewrite Hso, decide_False; [done|]. intros ->. by rewrite Hst in Hk'; injection Hk' as <-.
  - intros b [(c & st' & Hs' & Ha')|Hv]; apply Hb; (destruct (decide (b = k.1)) as [->|]; [|by left]).
    + right. exists c. split; [|by eexists]. intros ->. destruct k as [b' c']. simpl in Hs'.
      rewrite Hst in Hs'. by injection Hs' as <-.
    + destruct k as [b' c']. by rewrite Hv in Hst.
Qed.

Lemma inactiveFrom_spec s back k : inactiveFrom s back = Some k ->
  k ∈ (snd <$> back) /\ forall st, stateOf s k = Some st -> ActiveConn st = 0.
Proof.
  induction back as [|[e k'] back IH]; [done|]. cbn [inactiveFrom fmap list_fmap]. rewrite elem_of_cons.
  destruct (stateOf s k') as [st|] eqn:E.
  - destruct (Z.eqb_spec (ActiveConn st) 0) as [Ha|]; [|naive_solver].
    intros [= <-]. split; [by left|]. intros st'. rewrite E. by intros [= <-].
  - intros [= <-]. split; [by left|]. rewrite E. done.
Qed.

Lemma inactiveFrom_none s back : inactiveFrom s back = None ->
  forall k, k ∈ (snd <$> back) -> exists st, stateOf s k = Some st /\ ActiveConn st <> 0.
Proof.
  induction back as [|[e k'] back IH]; [by intros _ k ?%not_elem_of_nil|].
  cbn [inactiveFrom fmap list_fmap]. destruct (stateOf s k') as [st|] eqn:E; [|done].
  destruct (Z.eqb_spec (ActiveConn st) 0); [done|]. intros H k. rewrite elem_of_cons.
  intros [->|Hk]; [by exists st|by apply IH].
Qed.

Lemma elem_of_keys s k : ShardInv s -> k ∈ (snd <$> reverse (lru s)) <-> is_Some (stateOf s k).
Proof.
  intros Hi. rewrite list_elem_of_fmap. setoid_rewrite elem_of_reverse. split.
  - intros ([e k'] & -> & Hin). destruct (si_state s Hi e k' Hin) as (st & ? & _). by exists st.
  - intros [st Hst]. destruct (si_elem s Hi k st Hst) as (_ & e & _ & Hin). by exists (e, k).
Qed.

(** Eviction takes an entry nobody uses, unless there is none. *)
Lemma evictLeast_spec s count : ShardInv s -> entries s <= count ->
  let '(ok, s', count') := evictOneInactiveLocked s count in
  Shrinks s count s' count' /\
  if (ok : bool) then entries s' = entries s - 1
  else s' = s /\ forall k st, stateOf s k = Some st -> ActiveConn st <> 0.
Proof.
  intros Hi Hc. unfold evictOneInactiveLocked. destruct (inactiveFrom s (reverse (lru s))) as [k|] eqn:E.
  - apply inactiveFrom_spec in E as [Hk Ha]. apply (elem_of_keys s k Hi) in Hk as [st Hst]. rewrite Hst.
    pose proof (Shrinks_remove s k st count Hi Hst (Ha st Hst) Hc) as H.
    by destruct (removeStateLocked k (Some st) s count) as [s' count'].
  - split; [by apply Shrinks_refl|]. split; [done|]. intros k st Hst.
    destruct (inactiveFrom_none s _ E k) as (st' & Hst' & ?); [apply (elem_of_keys s k Hi); by eexists|].
    rewrite Hst in Hst'. by injection Hst' as <-.
Qed.

(** Making room ends below the limit, or with every entry in use. *)
Lemma makeRoom_spec fuel : forall s count, ShardInv s -> entries s <= count -> (length (lru s) <= fuel)%nat ->
  let '(s', count') := makeRoomLoop fuel s count in
  Shrinks s count s' count' /\
  (entries s' < reverseProxyCertificateBalanceShardLimit \/
   forall k st, stateOf s' k = Some st -> ActiveConn st <> 0).
Proof.
  induction fuel as [|fuel IH]; intros s count Hi Hc Hf; cbn [makeRoomLoop];
    destruct (Z.ltb_spec (entries s) reverseProxyCertificateBalanceShardLimit) as [Hl|Hl];
    try (split; [by apply Shrinks_refl|by left]); rewrite si_entries in Hl by done.
  - assert (reverseProxyCertificateBalanceShardLimit = 1024) by done. lia.
  - pose proof (evictLeast_spec s count Hi Hc) as He.
    destruct (evictOneInactiveLocked s count) as [[[] s'] count']; destruct He as [Hsh He].
    + pose proof (sh_bal _ _ _ _ Hsh). pose proof (si_entries _ (sh_inv _ _ _ _ Hsh)). pose proof (si_entries _ Hi).
      specialize (IH s' count' (sh_inv _ _ _ _ Hsh) ltac:(lia) ltac:(lia)).
      destruct (makeRoomLoop fuel s' count') as [s2 count2]. destruct IH as [Hs1 Hs2].
      split; [by eapply Shrinks_trans|done].
    + split; [done|]. right. destruct He as [-> He]. done.
Qed.

Lemma pruneShard_spec fuel staleBefore : forall s count, ShardInv s -> entries s <= count ->
  let '(s', count') := pruneLoop fuel staleBefore s count in Shrinks s count s' count'.
Proof.
  induction fuel as [|fuel IH]; intros s count Hi Hc; cbn [pruneLoop].
  { by apply Shrinks_refl. }
  destruct (last (lru s)) as [[e k]|] eqn:El; [|by apply Shrinks_refl].
  destruct (si_state s Hi e k) as (st & Hst & _); [by apply last_Some_elem_of|]. rewrite Hst.
  destruct (negb (ActiveConn st =? 0) || _) eqn:E; [by apply Shrinks_refl|].
  rewrite orb_false_iff, Bool.negb_false_iff, Z.eqb_eq in E. destruct E as [Ha _].
  pose proof (Shrinks_remove s k st count Hi Hst Ha Hc) as H.
  destruct (removeStateLocked k (Some st) s count) as [s' count']. destruct H as [Hsh He].
  pose proof (sh_bal _ _ _ _ Hsh). specialize (IH s' count' (sh_inv _ _ _ _ Hsh) ltac:(lia)).
  destruct (pruneLoop fuel staleBefore s' count'). by eapply Shrinks_trans.
Qed.

(** ** Adding entries and counting on them *)

Lemma ensureBucket_spec b s : ShardInv s ->
  let '(r, s') := ensureBucket b s in
  ShardInv s' /\ states s' !! b = Some r /\ (forall k, stateOf s' k = stateOf s k) /\
  lru s' = lru s /\ entries s' = entries s.
Proof.
  intros Hi. unfold ensureBucket. destruct (states s !! b) as [r|] eqn:E; [by split_and!|].
  set (s' := mkShard _ _ _ _ _).
  assert (forall k, stateOf s' k = stateOf s k) as Hso.
  { intros [b' c]. unfold stateOf. simpl. destruct (decide (b' = b)) as [->|Hne].
    - rewrite lookup_insert_eq, E. simpl. by rewrite lookup_total_insert_eq.
    - rewrite lookup_insert_ne by done. destruct (states s !! b') as [r'|] eqn:E'; [|done]. simpl.
      apply (si_ref s Hi) in E' as [_ ?]. rewrite lookup_total_insert_ne by lia. done. }
  split_and!; [|apply lookup_insert_eq|done|done|done].
  split; cbn [s' maps states lru entries next].
  - intros b' r'. destruct (decide (b' = b)) as [->|Hne].
    + rewrite lookup_insert_eq. intros [= <-]. rewrite lookup_insert_eq. split; [by eexists|lia].
    + rewrite lookup_insert_ne by done. intros [? ?]%(si_ref s Hi). rewrite lookup_insert_ne by lia.
      split; [done|lia].
  - intros b1 b2 r'. destruct (decide (b1 = b)) as [->|], (decide (b2 = b)) as [->|];
      rewrite ?lookup_insert_eq, ?lookup_insert_ne by done; [done| | |by apply si_inj].
    + intros [= <-] [_ ?]%(si_ref s Hi). lia.
    + intros [_ ?]%(si_ref s Hi) [= <-]. lia.
  - intros k st. rewrite Hso. apply si_elem, Hi.
  - intros e k Hin. setoid_rewrite Hso. by apply si_state.
  - apply si_nodup, Hi.
  - intros e k Hin%(si_next s Hi). lia.
  - apply si_entries, Hi.
Qed.

(** The entry [(b, c)] written with a new state and at the front of the list. *)
Lemma put_front s b c r fresh e l0 n : ShardInv s -> states s !! b = Some r ->
  element fresh = Some e -> globalSlot fresh = true ->
  (forall e' k', (e', k') ∈ l0 <-> (e', k') ∈ lru s /\ k' <> (b, c)) ->
  NoDup (fst <$> l0) -> e ∉ fst <$> l0 -> (e < n)%nat -> (next s <= n)%nat ->
  let s' := mkShard (<[r := <[c := fresh]> (maps s !!! r)]> (maps s)) (states s) ((e, (b, c)) :: l0)
              (Z.of_nat (S (length l0))) n in
  ShardInv s' /\ forall k, stateOf s' k = if decide (k = (b, c)) then Some fresh else stateOf s k.
Proof.
  intros Hi Hr He Hg Hl Hd Hn Hlt Hle s'.
  assert (forall k, stateOf s' k = if decide (k = (b, c)) then Some fresh else stateOf s k) as Hso.
  { intros k. transitivity (if decide (k.1 = b) then (<[c := fresh]> (maps s !!! r)) !! k.2 else stateOf s k).
    - exact (stateOf_setMap s b r _ k Hi Hr).
    - destruct k as [b' c']. simpl. destruct (decide (b' = b)) as [->|].
      + destruct (decide (c' = c)) as [->|].
        * by rewrite lookup_insert_eq, decide_True.
        * rewrite lookup_insert_ne, decide_False by congruence. by rewrite (stateOf_eq s b c' r Hr).
      + by rewrite decide_False by congruence. }
  split; [|done]. split; cbn [s' maps states lru entries next]; try setoid_rewrite Hso.
  - intros b' r' Hb'. destruct (si_ref s Hi b' r' Hb') as [? ?]. split; [|lia].
    destruct (decide (r = r')) as [<-|]; [rewrite lookup_insert_eq|rewrite lookup_insert_ne by done]; by eauto.
  - apply si_inj, Hi.
  - intros k st. destruct (decide (k = (b, c))) as [->|Hne].
    + intros [= <-]. split; [done|]. exists e. split; [done|]. by left.
    + intros Hk. destruct (si_elem s Hi _ _ Hk) as (? & e' & ? & Hin'). split; [done|]. exists e'. split; [done|].
      right. by apply Hl.
  - intros e' k'. rewrite elem_of_cons, Hl. intros [[= -> ->]|[Hin' Hne]].
    + rewrite decide_True by done. by exists fresh.
    + rewrite decide_False by done. by apply si_state.
  - cbn [fmap list_fmap]. by apply NoDup_cons.
  - intros e' k'. rewrite elem_of_cons, Hl. intros [[= -> ->]|[Hin%(si_next s Hi) _]]; lia.
  - done.
Qed.

(** An entry moved to the front with other numbers. *)
Lemma touch_known_spec s b c r st st' now : ShardInv s -> states s !! b = Some r ->
  stateOf s (b, c) = Some st -> element st' = element st -> globalSlot st' = globalSlot st ->
  let s' := touchLocked (b, c) r st' now s in
  ShardInv s' /\ entries s' = entries s /\
  forall k, stateOf s' k =
    if decide (k = (b, c))
    then Some (mkState (ActiveConn st') (SelectedTotal st') (LastSelectedAt st') now (element st') (globalSlot st'))
    else stateOf s k.
Proof.
  intros Hi Hr Hst He Hg. destruct (si_elem s Hi _ _ Hst) as (Hslot & e & Hel & Hin).
  pose proof (si_nodup s Hi) as Hd.
  unfold touchLocked. rewrite He, Hel. cbn [snd]. rewrite (listMoveToFront_elem e (b, c)) by done.
  unfold putIn, setMaps, setLru. cbn [maps states lru entries next].
  rewrite (si_entries s Hi), (length_listRemove (K := lruKey) e (b, c) (lru s)) by done.
  destruct (put_front s b c r (mkState (ActiveConn st') (SelectedTotal st') (LastSelectedAt st') now (Some e)
    (globalSlot st')) e (listRemove e (lru s)) (next s)) as [H1 H2]; try done.
  - simpl. congruence.
  - intros e' k'. rewrite elem_of_listRemove. simpl. split.
    + intros [Hin' Hne]. split; [done|]. intros ->. destruct (si_state s Hi _ _ Hin') as (st0 & ? & ?). congruence.
    + intros [Hin' Hne]. split; [done|]. intros ->. destruct Hne. by eapply fst_unique.
  - by apply listRemove_nodup.
  - rewrite list_elem_of_fmap. intros (x & Hx & [_ Hne]%elem_of_listRemove). by destruct Hne.
  - by eapply si_next.
Qed.

(** A new entry. *)
Lemma touch_new_spec s b c r st0 st' now : ShardInv s -> states s !! b = Some r ->
  stateOf s (b, c) = None -> element st' = None -> globalSlot st' = true ->
  let s' := touchLocked (b, c) r st' now (setEntries (entries s + 1) (putIn r c st0 s)) in
  ShardInv s' /\ entries s' = entries s + 1 /\
  forall k, stateOf s' k =
    if decide (k = (b, c))
    then Some (mkState (ActiveConn st') (SelectedTotal st') (LastSelectedAt st') now (Some (next s)) true)
    else stateOf s k.
Proof.
  intros Hi Hr Hst He Hg. unfold touchLocked. rewrite He, Hg. cbn [snd].
  unfold setEntries, putIn, setMaps. cbn [maps states lru entries next].
  rewrite lookup_total_insert_eq, !insert_insert_eq, (si_entries s Hi).
  replace (Z.of_nat (length (lru s)) + 1) with (Z.of_nat (S (length (lru s)))) by lia.
  destruct (put_front s b c r (mkState (ActiveConn st') (SelectedTotal st') (LastSelectedAt st') now
    (Some (next s)) true) (next s) (lru s) (S (next s))) as [H1 H2]; try done; try lia.
  - intros e' k'. split; [|tauto]. intros Hin. split; [done|]. intros ->.
    destruct (si_state s Hi _ _ Hin) as (st & ? & _). congruence.
  - apply si_nodup, Hi.
  - rewrite list_elem_of_fmap. intros ([e' k'] & Hx & Hin%(si_next s Hi)). simpl in Hx. lia.
Qed.

(** ** Selections *)

(** Some entries that nobody used may have gone. *)
Record Keeps s s' : Prop := {
  kp_inv : ShardInv s';
  kp_sub : forall k st, stateOf s' k = Some st -> stateOf s k = Some st;
  kp_used : forall k st, stateOf s k = Some st -> ActiveConn st <> 0 -> stateOf s' k = Some st }.

Lemma Keeps_trans s1 s2 s3 : Keeps s1 s2 -> Keeps s2 s3 -> Keeps s1 s3.
Proof.
  intros [_ S1 U1] [I2 S2 U2]. split; [done| |].
  - intros k st H. by apply S1, S2.
  - intros k st H Ha. apply U2; [by apply U1|done].
Qed.

Lemma Shrinks_Keeps s n s' n' : Shrinks s n s' n' -> Keeps s s'.
Proof. intros H. split; apply H. Qed.

Lemma Keeps_eq s s' : ShardInv s' -> (forall k, stateOf s' k = stateOf s k) -> Keeps s s'.
Proof. intros Hi H. split; [done| |]; intros k st; by rewrite H. Qed.

Lemma Keeps_occupied s s' b : Keeps s s' -> inUse s b \/ vacant s b -> inUse s' b \/ vacant s' b.
Proof.
  intros Hk [(c & st & Hs & Ha)|Hv].
  - left. exists c, st. split; [by apply Hk|done].
  - right. intros c. destruct (stateOf s' (b, c)) eqn:E; [|done]. apply (kp_sub _ _ Hk) in E. by rewrite Hv in E.
Qed.

(** A table of the process that is not full, or a name whose entries are in
    use or missing: then the map of the name stays in the shard while a slot
    is looked for. *)
Definition safeName s (b : string) (count : Z) : Prop :=
  count < reverseProxyRuntimeTableMaxEntries \/ inUse s b \/ vacant s b.

Definition freshState : runtimeState := mkState 0 0 0 0 None true.

Lemma obtainState_spec b c others s count :
  ShardInv s -> entries s <= count -> entries s <= count + others -> safeName s b count ->
  let '(found, s1, count1) := obtainState b c others s count in
  match found with
  | None => Keeps s s1 /\ entries s1 <= count1
  | Some (r, st) =>
      exists s2, Keeps s s2 /\ states s2 !! b = Some r /\
        ((stateOf s2 (b, c) = Some st /\ s1 = s2 /\ entries s2 <= count1) \/
         (stateOf s2 (b, c) = None /\ st = freshState /\ entries s2 + 1 <= count1 /\
          s1 = setEntries (entries s2 + 1) (putIn r c freshState s2)))
  end.
Proof.
  intros Hi Hc Ho Hsafe. unfold obtainState. pose proof (ensureBucket_spec b s Hi) as H0.
  destruct (ensureBucket b s) as [r0 s0]. destruct H0 as (Hi0 & Hr0 & Hso0 & Hl0 & He0).
  pose proof (Keeps_eq s s0 Hi0 Hso0) as K0. rewrite <-(stateOf_eq s0 b c r0 Hr0).
  destruct (stateOf s0 (b, c)) as [st|] eqn:E0.
  { exists s0. split; [done|]. split; [done|]. left. split_and!; [done|done|lia]. }
  unfold makeRoomLocked. pose proof (makeRoom_spec (length (lru s0)) s0 count Hi0 ltac:(lia) ltac:(lia)) as H1.
  destruct (makeRoomLoop (length (lru s0)) s0 count) as [s1 count1]. destruct H1 as [Sh1 _].
  pose proof (sh_bal _ _ _ _ Sh1). pose proof (sh_less _ _ _ _ Sh1).
  pose proof (ensureBucket_spec b s1 (sh_inv _ _ _ _ Sh1)) as H2.
  destruct (ensureBucket b s1) as [r s2]. destruct H2 as (Hi2 & Hr2 & Hso2 & Hl2 & He2).
  pose proof (Keeps_trans _ _ _ K0 (Keeps_trans _ _ _ (Shrinks_Keeps _ _ _ _ Sh1) (Keeps_eq s1 s2 Hi2 Hso2))) as K2.
  rewrite <-(stateOf_eq s2 b c r Hr2). destruct (stateOf s2 (b, c)) as [st|] eqn:E2.
  { exists s2. split; [done|]. split; [done|]. left. split_and!; [done|done|lia]. }
  unfold reserveReverseProxyCertificateBalanceEntry at 1.
  destruct (Z.leb_spec reverseProxyRuntimeTableMaxEntries count1) as [Hfull|Hfull].
  2:{ exists s2. split; [done|]. split; [done|]. right. split_and!; [done|done|lia|done]. }
  assert (inUse s2 b \/ vacant s2 b) as Hocc.
  { destruct Hsafe as [?|Hocc]; [lia|]. by eapply Keeps_occupied. }
  pose proof (evictLeast_spec s2 (count1 + others) Hi2 ltac:(lia)) as H3.
  destruct (evictOneInactiveLocked s2 (count1 + others)) as [[ok s3] count3]. destruct H3 as [Sh3 _].
  pose proof (sh_bal _ _ _ _ Sh3). pose proof (Keeps_trans _ _ _ K2 (Shrinks_Keeps _ _ _ _ Sh3)) as K3.
  unfold reserveReverseProxyCertificateBalanceEntry.
  destruct (Z.leb_spec reverseProxyRuntimeTableMaxEntries count3); [split; [done|lia]|].
  exists s3. split; [done|]. split; [by rewrite (sh_bucket _ _ _ _ Sh3)|]. right. split_and!; try done; [|lia].
  destruct (stateOf s3 (b, c)) eqn:E3; [|done]. apply (sh_sub _ _ _ _ Sh3) in E3. congruence.
Qed.

(** ** Open connections *)

Definition occurrences k (open : list lruKey) : Z := Z.of_nat (length (filter (fun k' => k' = k) open)).

Fixpoint closeOne k (open : list lruKey) : list lruKey :=
  match open with
  | [] => []
  | k' :: rest => if decide (k' = k) then rest else k' :: closeOne k rest
  end.

Lemma occurrences_cons k k' open :
  occurrences k (k' :: open) = occurrences k open + if decide (k' = k) then 1 else 0.
Proof.
  unfold occurrences. rewrite filter_cons. destruct (decide (k' = k)); cbn [length]; lia.
Qed.

Lemma occurrences_pos k open : k ∈ open <-> 0 < occurrences k open.
Proof.
  induction open as [|k' open IH].
  - split; [by intros ?%not_elem_of_nil|]. unfold occurrences. simpl. lia.
  - rewrite elem_of_cons, occurrences_cons, IH. assert (0 <= occurrences k open) by (unfold occurrences; lia).
    destruct (decide (k' = k)) as [->|]; [split; [lia|by left]|]. split; [intros [->|]; [done|lia]|intros; right; lia].
Qed.

Lemma occurrences_close k k' open : k' ∈ open ->
  occurrences k (closeOne k' open) = occurrences k open - if decide (k' = k) then 1 else 0.
Proof.
  induction open as [|k0 open IH]; [by intros ?%not_elem_of_nil|]. rewrite elem_of_cons. intros Hin.
  cbn [closeOne]. destruct (decide (k0 = k')) as [->|Hne].
  - rewrite occurrences_cons. destruct (decide (k' = k)); lia.
  - rewrite !occurrences_cons, IH by (destruct Hin; [by subst|done]). lia.
Qed.

Lemma occurrences_le k open : occurrences k open <= Z.of_nat (length open).
Proof. unfold occurrences. pose proof (length_filter (fun k' => k' = k) open). lia. Qed.

Lemma elem_of_closeOne k k' open : k ∈ closeOne k' open -> k ∈ open.
Proof.
  induction open as [|k0 open IH]; [done|]. cbn [closeOne]. destruct (decide (k0 = k')); rewrite !elem_of_cons; tauto.
Qed.

(** Everything a listener does with a shard.  [open]: the selections whose
    connection is still open. *)
Inductive balanceRun : reverseProxyCertificateBalanceShard -> Z -> list lruKey -> Prop :=
| run_new count : 0 <= count -> balanceRun emptyShard count []
| run_others s count count' open : balanceRun s count open -> entries s <= count' -> balanceRun s count' open
| run_select s count open candidates sni nowFilter now others b sel s' count' :
    balanceRun s count open ->
    let bucket := reverseProxyNormalizeSNIBucket (reverseProxyNormalizeSNIBucket sni) in
    reverseProxyNormalizeSNIBucket bucket = bucket ->
    safeName s bucket count -> entries s <= count + others -> Z.of_nat (length open) < max_i64 ->
    selectBalancedCertificate candidates sni nowFilter now others s count = (b, sel, s', count') ->
    balanceRun s' count' (option_list sel ++ open)
| run_release s count open k nowUnix :
    balanceRun s count open -> k ∈ open ->
    balanceRun (releaseCertificateBalanceSelection (Some k) nowUnix s) count (closeOne k open)
| run_prune s count open nowUnix s' count' :
    balanceRun s count open -> pruneLocked nowUnix s count = (s', count') -> balanceRun s' count' open
| run_clear s count open order s' count' :
    balanceRun s count open -> (forall k, is_Some (stateOf s k) -> k ∈ order) ->
    clearCertificateBalanceStates order s count = (s', count') -> balanceRun s' count' [].

Record BalanceInv s (count : Z) (open : list lruKey) : Prop := {
  bi_shard : ShardInv s;
  bi_count : entries s <= count;
  bi_active : forall k st, stateOf s k = Some st -> ActiveConn st = occurrences k open;
  bi_open : forall k, k ∈ open ->
    is_Some (stateOf s k) /\ k.2 <> 0 /\ reverseProxyNormalizeSNIBucket k.1 = k.1 }.

(** Losing entries nobody uses keeps the invariant. *)
Lemma BalanceInv_keeps s count open s' count' : BalanceInv s count open -> Keeps s s' -> entries s' <= count' ->
  BalanceInv s' count' open.
Proof.
  intros Hb Hk Hc. split; [apply Hk|done| |].
  - intros k st H%(kp_sub _ _ Hk). by apply (bi_active _ _ _ Hb).
  - intros k Hin. destruct (bi_open _ _ _ Hb k Hin) as ([st Hst] & ?). split; [|done].
    exists st. apply Hk; [done|]. rewrite (bi_active _ _ _ Hb k st Hst). apply occurrences_pos in Hin. lia.
Qed.

Lemma pruneLocked_spec nowUnix s count : ShardInv s -> entries s <= count ->
  let '(s', count') := pruneLocked nowUnix s count in Shrinks s count s' count'.
Proof.
  intros Hi Hc. unfold pruneLocked. destruct (decide (states s = ∅)); [by apply Shrinks_refl|].
  by apply pruneShard_spec.
Qed.

(** Opening a connection counts it on exactly one entry. *)
Lemma BalanceInv_count s count open k s' count' st' :
  BalanceInv s count open -> ShardInv s' -> entries s' <= count' -> k.2 <> 0 ->
  reverseProxyNormalizeSNIBucket k.1 = k.1 ->
  (forall k', stateOf s' k' = if decide (k' = k) then Some st' else stateOf s k') ->
  ActiveConn st' = occurrences k open + 1 -> BalanceInv s' count' (k :: open).
Proof.
  intros Hb Hi Hc Hk2 Hk1 Hso Ha. split; [done|done| |].
  - intros k' st. rewrite Hso, occurrences_cons. destruct (decide (k' = k)) as [->|Hne].
    + intros [= <-]. by rewrite decide_True.
    + intros H. rewrite decide_False by done. rewrite (bi_active _ _ _ Hb k' st H). lia.
  - intros k'. rewrite elem_of_cons, Hso. destruct (decide (k' = k)) as [->|Hne].
    + intros _. split; [by eexists|done].
    + intros [|Hin]; [done|]. by apply (bi_open _ _ _ Hb).
Qed.

Lemma selectLoop_id m candidates : forall sel c,
  selectLoop m candidates sel = Some c ->
  (forall c0, sel = Some c0 -> CertificateRecordID (cand_Binding c0) <> 0) ->
  CertificateRecordID (cand_Binding c) <> 0.
Proof.
  assert (forall b, cand_Binding (candidateState m b) = b) as Hb.
  { intros b. unfold candidateState. by destruct (m !! _). }
  induction candidates as [|b rest IH]; intros sel c; cbn [selectLoop].
  - intros H Hs. by apply Hs.
  - destruct (Z.eqb_spec (CertificateRecordID b) 0) as [|Hne]; [by apply IH|]. intros H Hs.
    destruct sel as [c0|]; apply IH in H; try done; intros c1 [= <-]; [|by rewrite Hb].
    destruct (reverseProxyBalanceCandidateLess _ _); [by rewrite Hb|by apply Hs].
Qed.

Lemma select_inv s count open candidates sni nowFilter now others b sel s' count' :
  BalanceInv s count open ->
  let bucket := reverseProxyNormalizeSNIBucket (reverseProxyNormalizeSNIBucket sni) in
  reverseProxyNormalizeSNIBucket bucket = bucket ->
  safeName s bucket count -> entries s <= count + others -> Z.of_nat (length open) < max_i64 ->
  selectBalancedCertificate candidates sni nowFilter now others s count = (b, sel, s', count') ->
  BalanceInv s' count' (option_list sel ++ open).
Proof.
  intros Hb bucket Hstable Hsafe Ho Hopen. pose proof (bi_shard _ _ _ Hb) as Hi. pose proof (bi_count _ _ _ Hb) as Hc.
  unfold selectBalancedCertificate, reserveCertificateBalanceSelection. fold bucket.
  destruct (decide _) as [|Hne]; [by intros [= <- <- <- <-]|].
  pose proof (pruneLocked_spec (now / nanosPerSecond) s count Hi Hc) as Sh.
  destruct (pruneLocked (now / nanosPerSecond) s count) as [s0 count0].
  pose proof (sh_bal _ _ _ _ Sh). pose proof (sh_less _ _ _ _ Sh). pose proof (Shrinks_Keeps _ _ _ _ Sh) as K0.
  pose proof (BalanceInv_keeps _ _ _ s0 count0 Hb K0 ltac:(lia)) as Hb0.
  destruct (selectLoop _ _ None) as [c|] eqn:Esel; [|by intros [= <- <- <- <-]].
  apply selectLoop_id in Esel; [|done]. set (id := CertificateRecordID (cand_Binding c)) in *.
  assert (safeName s0 bucket count0) as Hsafe0.
  { destruct Hsafe as [?|Hocc]; [left; lia|right]. by eapply Keeps_occupied. }
  pose proof (obtainState_spec bucket id others s0 count0 (sh_inv _ _ _ _ Sh) ltac:(lia) ltac:(lia) Hsafe0) as Hob.
  destruct (obtainState bucket id others s0 count0) as [[[[r st]|] s1] count1].
  2:{ intros [= <- <- <- <-]. destruct Hob as [K1 ?]. by eapply BalanceInv_keeps. }
  intros [= <- <- <- <-]. destruct Hob as (s2 & K2 & Hr & Hcase).
  assert (BalanceInv s2 (entries s2) open) as Hb2 by (by eapply BalanceInv_keeps).
  assert (0 <= occurrences (bucket, id) open < max_i64) as Hocc.
  { pose proof (occurrences_le (bucket, id) open). unfold occurrences in *. lia. }
  assert (forall x, 0 <= x < max_i64 -> wrap64 (x + 1) = x + 1) as Hw by (intros; apply wrap64_id; in_range).
  cbn [option_list option_rect app].
  set (st' := mkState _ _ _ _ _ _). destruct Hcase as [(Hst & -> & Hle)|(Hst & -> & Hle & ->)].
  - destruct (touch_known_spec s2 bucket id r st st' (now / nanosPerSecond)) as (Hi' & He' & Hso); try done; [apply K2|].
    eapply BalanceInv_count; [exact Hb2|done|by rewrite He'|done|done|exact Hso|]. cbn [ActiveConn st'].
    rewrite (bi_active _ _ _ Hb2 _ _ Hst). by apply Hw.
  - destruct (touch_new_spec s2 bucket id r freshState st' (now / nanosPerSecond)) as (Hi' & He' & Hso); try done; [apply K2|].
    eapply BalanceInv_count; [exact Hb2|done|by rewrite He'|done|done|exact Hso|]. cbn [ActiveConn st' freshState].
    destruct (decide ((bucket, id) ∈ open)) as [Hin|Hout].
    { destruct (bi_open _ _ _ Hb2 _ Hin) as [[? Hx] _]. congruence. }
    rewrite occurrences_pos in Hout. rewrite Hw by (unfold max_i64; lia). lia.
Qed.

Lemma release_inv s count open k nowUnix : BalanceInv s count open -> k ∈ open ->
  BalanceInv (releaseCertificateBalanceSelection (Some k) nowUnix s) count (closeOne k open).
Proof.
  intros Hb Hin. destruct (bi_open _ _ _ Hb k Hin) as ([st Hst] & Hk2 & Hk1).
  destruct k as [b c]. cbn [fst snd] in *. cbn [releaseCertificateBalanceSelection].
  destruct (Z.eqb_spec c 0); [done|]. rewrite Hk1.
  destruct (stateOf_bucket s _ _ Hst) as [r Hr]. cbn [fst] in Hr. rewrite Hr.
  pose proof Hst as Hm. rewrite (stateOf_eq s b c r Hr) in Hm. rewrite Hm.
  pose proof (bi_active _ _ _ Hb _ _ Hst) as Ha. pose proof Hin as Hpos. apply occurrences_pos in Hpos.
  destruct (Z.ltb_spec 0 (ActiveConn st)); [|lia]. set (st' := mkState _ _ _ _ _ _).
  destruct (touch_known_spec s b c r st st' nowUnix) as (Hi' & He' & Hso); try done; [apply Hb|].
  split; [done|rewrite He'; apply Hb| |].
  - intros k' st0. rewrite Hso, occurrences_close by done. destruct (decide (k' = (b, c))) as [->|Hne].
    + intros [= <-]. rewrite decide_True by done. cbn [ActiveConn st']. lia.
    + intros Hs0. rewrite decide_False by done. rewrite (bi_active _ _ _ Hb _ _ Hs0). lia.
  - intros k' Hk'%elem_of_closeOne. destruct (bi_open _ _ _ Hb _ Hk') as [? ?]. split; [|done].
    rewrite Hso. by destruct (decide (k' = (b, c))); [eexists|].
Qed.

Lemma clearLoop_spec order : forall s count, ShardInv s -> entries s <= count ->
  let '(s', count') := clearLoop order s count in
  ShardInv s' /\ count' - entries s' = count - entries s /\
  forall k, stateOf s' k = if decide (k ∈ order) then None else stateOf s k.
Proof.
  induction order as [|k order IH]; intros s count Hi Hc; cbn [clearLoop].
  { split_and!; [done|lia|]. intros k. by rewrite decide_False by apply not_elem_of_nil. }
  assert (exists s1 count1, match stateOf s k with
      | Some st => removeStateLocked k (Some st) s count
      | None => (s, count)
      end = (s1, count1) /\ ShardInv s1 /\ count1 - entries s1 = count - entries s /\
    forall k', stateOf s1 k' = if decide (k' = k) then None else stateOf s k') as (s1 & count1 & -> & Hi1 & Hb1 & Hso1).
  { destruct (stateOf s k) as [st|] eqn:E.
    - pose proof (removeState_spec s k st count Hi E Hc) as H.
      destruct (removeStateLocked k (Some st) s count) as [s1 count1]. exists s1, count1.
      destruct H as (? & ? & ? & ? & _). split_and!; try done. lia.
    - exists s, count. split_and!; try done. intros k'. by destruct (decide (k' = k)) as [->|]. }
  specialize (IH s1 count1 Hi1 ltac:(lia)). destruct (clearLoop order s1 count1) as [s2 count2].
  destruct IH as (Hi2 & Hb2 & Hso2). split_and!; [done|lia|]. intros k'. rewrite Hso2, Hso1.
  destruct (decide (k' ∈ order)), (decide (k' = k)), (decide (k' ∈ k :: order)) as [|Hn]; try done;
    rewrite elem_of_cons in *; tauto.
Qed.

Lemma clear_inv s count open order s' count' : BalanceInv s count open ->
  (forall k, is_Some (stateOf s k) -> k ∈ order) ->
  clearCertificateBalanceStates order s count = (s', count') -> BalanceInv s' count' [].
Proof.
  intros Hb Hall. pose proof (bi_count _ _ _ Hb) as Hc. unfold clearCertificateBalanceStates.
  pose proof (clearLoop_spec order s count (bi_shard _ _ _ Hb) Hc) as H.
  destruct (clearLoop order s count) as [s1 count1]. destruct H as (Hi & Hbal & Hso).
  assert (forall k, stateOf s1 k = None) as Hnone.
  { intros k. rewrite Hso. destruct (decide (k ∈ order)) as [|Hn]; [done|].
    destruct (stateOf s k) eqn:E; [|done]. destruct Hn. apply Hall. by rewrite E. }
  assert (lru s1 = []) as Hl.
  { destruct (lru s1) as [|[e k] l] eqn:E; [done|]. destruct (si_state s1 Hi e k) as (st & Hst & _); [rewrite E; by left|].
    by rewrite Hnone in Hst. }
  pose proof (si_entries _ Hi) as He. rewrite Hl in He. cbn [length] in He.
  intros [= <- <-]. assert (setEntries 0 (setLru [] s1) = s1) as ->.
  { destruct s1. unfold setEntries, setLru. cbn in *. by subst. }
  split; [done|lia| |by intros k ?%not_elem_of_nil]. intros k st. by rewrite Hnone.
Qed.

Lemma emptyShard_inv : ShardInv emptyShard.
Proof.
  split; try done; try (by intros ? ? ?%not_elem_of_nil). apply NoDup_nil_2.
Qed.

Lemma balanceRun_inv s count open : balanceRun s count open -> BalanceInv s count open.
Proof.
  induction 1 as [count Hc|s count count' open Hr IH Hc|s count open candidates sni nowFilter now others b sel s' count'
    Hr IH bucket Hst Hsafe Ho Hl Hsel|s count open k nowUnix Hr IH Hin|s count open nowUnix s' count' Hr IH Hp
    |s count open order s' count' Hr IH Hall Hcl].
  - split; [apply emptyShard_inv|done|done|by intros k ?%not_elem_of_nil].
  - by split; apply IH || done.
  - by eapply select_inv.
  - by apply release_inv.
  - pose proof (pruneLocked_spec nowUnix s count (bi_shard _ _ _ IH) (bi_count _ _ _ IH)) as Sh. rewrite Hp in Sh.
    pose proof (sh_bal _ _ _ _ Sh). pose proof (bi_count _ _ _ IH).
    eapply BalanceInv_keeps; [done|by eapply Shrinks_Keeps|lia].
  - by eapply clear_inv.
Qed.


(** ** The choice *)

(** The order certificates are taken in: fewest open connections, then longest
    not chosen, then the smallest record. *)
Definition rank (m : gmap Z runtimeState) (b : reverseProxyRuleCertificateBinding) : Z * Z * Z :=
  let c := candidateState m b in (cand_ActiveConn c, cand_LastSelectedAt c, CertificateRecordID b).

Definition rankLe (a b : Z * Z * Z) : Prop :=
  a.1.1 < b.1.1 \/ a.1.1 = b.1.1 /\ (a.1.2 < b.1.2 \/ a.1.2 = b.1.2 /\ a.2 <= b.2).

Lemma candidate_binding m b : cand_Binding (candidateState m b) = b.
Proof. unfold candidateState. by destruct (m !! _). Qed.

Lemma less_rank m a b :
  reverseProxyBalanceCandidateLess (candidateState m a) (candidateState m b) = false <-> rankLe (rank m b) (rank m a).
Proof.
  unfold reverseProxyBalanceCandidateLess, rankLe, rank. rewrite !candidate_binding. cbn [fst snd].
  repeat (case_match; try (rewrite Bool.negb_true_iff, Z.eqb_neq in * );
    try (rewrite Bool.negb_false_iff, Z.eqb_eq in * )); rewrite Z.ltb_ge; lia.
Qed.

Lemma less_rankLe m a b :
  reverseProxyBalanceCandidateLess (candidateState m a) (candidateState m b) = true -> rankLe (rank m a) (rank m b).
Proof.
  unfold reverseProxyBalanceCandidateLess, rankLe, rank. rewrite !candidate_binding. cbn [fst snd].
  repeat (case_match; try (rewrite Bool.negb_true_iff, Z.eqb_neq in * );
    try (rewrite Bool.negb_false_iff, Z.eqb_eq in * )); rewrite Z.ltb_lt; lia.
Qed.

Lemma selectLoop_least m candidates : forall sel,
  match selectLoop m candidates (candidateState m <$> sel) with
  | None => sel = None /\ Forall (fun b => CertificateRecordID b = 0) candidates
  | Some c => exists b, c = candidateState m b /\ (b ∈ candidates \/ sel = Some b) /\
      (forall b', b' ∈ candidates -> CertificateRecordID b' <> 0 -> rankLe (rank m b) (rank m b')) /\
      (forall b', sel = Some b' -> rankLe (rank m b) (rank m b'))
  end.
Proof.
  induction candidates as [|b rest IH]; intros sel; cbn [selectLoop].
  { destruct sel as [b|]; cbn; [|done]. exists b. split_and!; [done|by right|by intros ? ?%not_elem_of_nil|].
    intros b' [= <-]. unfold rankLe. lia. }
  destruct (Z.eqb_spec (CertificateRecordID b) 0) as [Hz|Hz].
  { specialize (IH sel). destruct (selectLoop _ _ _) as [c|].
    - destruct IH as (b0 & -> & Hb0 & Hall & Hsel). exists b0. rewrite elem_of_cons. split_and!; try done; [tauto|].
      intros b'. rewrite elem_of_cons. intros [->|]; [done|by apply Hall].
    - destruct IH as [? ?]. split; [done|]. by constructor. }
  set (sel' := match sel with
    | None => b
    | Some b0 => if reverseProxyBalanceCandidateLess (candidateState m b) (candidateState m b0) then b else b0
    end).
  assert (rankLe (rank m sel') (rank m b) /\ (forall b0, sel = Some b0 -> rankLe (rank m sel') (rank m b0))) as [Hb Hs].
  { unfold sel'. destruct sel as [b0|].
    - destruct (reverseProxyBalanceCandidateLess (candidateState m b) (candidateState m b0)) eqn:E.
      + split; [unfold rankLe; lia|]. intros ? [= <-]. by apply less_rankLe.
      + split; [by apply less_rank|]. intros ? [= <-]. unfold rankLe. lia.
    - split; [unfold rankLe; lia|done]. }
  specialize (IH (Some sel')). cbn [fmap option_fmap option_map] in IH |- *.
  assert (selectLoop m rest (Some (candidateState m sel')) =
    match candidateState m <$> sel with
    | None => selectLoop m rest (Some (candidateState m b))
    | Some c0 => selectLoop m rest
        (Some (if reverseProxyBalanceCandidateLess (candidateState m b) c0 then candidateState m b else c0))
    end) as <-.
  { unfold sel'. destruct sel as [b0|]; cbn; [|done]. by destruct (reverseProxyBalanceCandidateLess _ _). }
  destruct (selectLoop m rest (Some (candidateState m sel'))) as [c|]; [|by destruct IH].
  destruct IH as (b1 & -> & Hin & Hall & Hsel). specialize (Hsel sel' eq_refl). exists b1. split_and!.
  - done.
  - rewrite elem_of_cons. destruct Hin as [|[= <-]]; [tauto|]. unfold sel'. destruct sel as [b0|]; [|tauto].
    destruct (reverseProxyBalanceCandidateLess _ _); tauto.
  - intros b'. rewrite elem_of_cons. intros [->|Hin'] Hz'; [|by apply Hall]. unfold rankLe in *. lia.
  - intros b' Hb'. specialize (Hs b' Hb'). unfold rankLe in *. lia.
Qed.

Lemma elem_of_uniqueBindings now candidates : forall seen b,
  b ∈ uniqueBindings now seen candidates ->
  Some b ∈ candidates /\ reverseProxyCertificateBindingUsable (Some b) now = true /\ CertificateRecordID b <> 0.
Proof.
  induction candidates as [|[b0|] rest IH]; intros seen b; cbn [uniqueBindings]; rewrite ?elem_of_cons.
  - by intros ?%not_elem_of_nil.
  - destruct (reverseProxyCertificateBindingUsable (Some b0) now) eqn:E; cbn [negb orb]; [|naive_solver].
    destruct (Z.eqb_spec (CertificateRecordID b0) 0); [naive_solver|].
    destruct (decide _); [naive_solver|]. rewrite elem_of_cons. intros [->|H]; [naive_solver|].
    apply IH in H. naive_solver.
  - naive_solver.
Qed.

Lemma uniqueBindings_covers now candidates : forall seen b,
  Some b ∈ candidates -> reverseProxyCertificateBindingUsable (Some b) now = true -> CertificateRecordID b <> 0 ->
  CertificateRecordID b ∈ seen \/
  exists b', b' ∈ uniqueBindings now seen candidates /\ CertificateRecordID b' = CertificateRecordID b.
Proof.
  induction candidates as [|c rest IH]; intros seen b; [by intros ?%not_elem_of_nil|].
  rewrite elem_of_cons. intros [<-|Hin] Hu Hz; cbn [uniqueBindings].
  - rewrite Hu. cbn [negb orb]. destruct (Z.eqb_spec (CertificateRecordID b) 0); [done|].
    destruct (decide _); [by left|]. right. exists b. split; [by left|done].
  - destruct c as [b0|]; [|by apply IH].
    destruct (negb _ || _); [by apply IH|]. destruct (decide _); [by apply IH|].
    destruct (IH ({[CertificateRecordID b0]} ∪ seen) b Hin Hu Hz) as [Hs|(b' & ? & ?)].
    + apply elem_of_union in Hs as [->%elem_of_singleton|]; [|by left]. right. exists b0. split; [by left|done].
    + right. exists b'. split; [by right|done].
Qed.

(** The choice among the candidates that are usable and recorded. *)
Definition usableAmong (candidates : list (option reverseProxyRuleCertificateBinding)) (nowFilter : Z)
  (b : reverseProxyRuleCertificateBinding) : Prop :=
  Some b ∈ candidates /\ CertificateRecordID b <> 0 /\ reverseProxyCertificateBindingUsable (Some b) nowFilter = true.

Lemma selectBalanced_spec candidates sni nowFilter now others s count :
  let '(res, sel, s', count') := selectBalancedCertificate candidates sni nowFilter now others s count in
  let bucket := reverseProxyNormalizeSNIBucket (reverseProxyNormalizeSNIBucket sni) in
  let s0 := (pruneLocked (now / nanosPerSecond) s count).1 in
  let m := mapAt s0 (states s0 !! bucket) in
  match res with
  | None => sel = None /\ forall b, ~ usableAmong candidates nowFilter b
  | Some b => usableAmong candidates nowFilter b /\
      (forall b', usableAmong candidates nowFilter b' -> rankLe (rank m b) (rank m b')) /\
      (sel = None \/ sel = Some (bucket, CertificateRecordID b))
  end.
Proof.
  unfold selectBalancedCertificate, reserveCertificateBalanceSelection, reverseProxyUniqueCertificateBindings.
  set (filtered := uniqueBindings nowFilter ∅ candidates).
  assert (forall b, usableAmong candidates nowFilter b ->
    exists b', b' ∈ filtered /\ CertificateRecordID b' = CertificateRecordID b) as Hcov.
  { intros b (Hin & Hz & Hu). destruct (uniqueBindings_covers nowFilter candidates ∅ b Hin Hu Hz) as [H|H]; [|done].
    by apply elem_of_empty in H. }
  destruct (decide (filtered = [])) as [Hnil|Hne].
  { split; [done|]. intros b Hb. destruct (Hcov b Hb) as (b' & Hb' & _). rewrite Hnil in Hb'.
    by apply not_elem_of_nil in Hb'. }
  destruct (pruneLocked (now / nanosPerSecond) s count) as [s0 count0]. cbn [fst].
  set (bucket := reverseProxyNormalizeSNIBucket _). set (m := mapAt s0 (states s0 !! bucket)).
  pose proof (selectLoop_least m filtered None) as Hl. cbn [fmap option_fmap option_map] in Hl.
  destruct (selectLoop m filtered None) as [c|].
  2:{ split; [done|]. intros b Hb. destruct (Hcov b Hb) as (b' & Hb' & Hid). destruct Hl as [_ Hl].
      rewrite Forall_forall in Hl. apply Hl in Hb'. rewrite Hid in Hb'. by destruct Hb as (_ & ? & _). }
  destruct Hl as (b & -> & Hin & Hall & _). rewrite candidate_binding. destruct Hin as [Hin|]; [|done].
  destruct (obtainState _ _ _ _ _) as [[[[r st]|] s1] count1].
  all: apply elem_of_uniqueBindings in Hin as (? & ? & ?); split_and!; try done; try by auto.
  all: intros b' Hb'; destruct (Hcov b' Hb') as (b2 & Hb2 & Hid); destruct Hb' as (_ & Hz & _).
  all: assert (rank m b' = rank m b2) as -> by (unfold rank, candidateState; rewrite Hid; by destruct (m !! _)).
  all: apply Hall; congruence.
Qed.

(** A connection is given the least loaded certificate: one of the usable
    candidates (parsed and not expired), such that no other usable candidate
    has fewer open connections for the name, or as many and was chosen less
    recently, or the same and a smaller record; and it is given none exactly
    when no candidate is usable. *)
Theorem select_least_loaded candidates sni nowFilter now others s count :
  let '(res, sel, s', count') := selectBalancedCertificate candidates sni nowFilter now others s count in
  let bucket := reverseProxyNormalizeSNIBucket (reverseProxyNormalizeSNIBucket sni) in
  let s0 := (pruneLocked (now / nanosPerSecond) s count).1 in
  let m := mapAt s0 (states s0 !! bucket) in
  match res with
  | None => forall b, ~ usableAmong candidates nowFilter b
  | Some b => usableAmong candidates nowFilter b /\
      forall b', usableAmong candidates nowFilter b' -> rankLe (rank m b) (rank m b')
  end.
Proof.
  pose proof (selectBalanced_spec candidates sni nowFilter now others s count) as H.
  destruct (selectBalancedCertificate _ _ _ _ _ _ _) as [[[[b|] sel] s'] count']; [|by destruct H].
  by destruct H as (H1 & H2 & _).
Qed.

(** ** A full table *)

Definition demoBinding (id : Z) : option reverseProxyRuleCertificateBinding :=
  Some (mkBinding 1 id true (Some (mkLeaf (Some (mkCertificate "" None [] [])) None false))).
Definition demoCandidates : list (option reverseProxyRuleCertificateBinding) := [demoBinding 1; demoBinding 2].
Definition demoNow : Z := 1000 * nanosPerSecond.

(** One entry of this shard, idle, and the rest of the table elsewhere. *)
Definition demoFirst := selectBalancedCertificate demoCandidates "A.example." demoNow demoNow 0 emptyShard 16383.
Definition demoIdle : reverseProxyCertificateBalanceShard :=
  releaseCertificateBalanceSelection demoFirst.1.1.2 1000 demoFirst.1.2.

Lemma demoIdle_run : balanceRun demoIdle 16384 [].
Proof.
  assert (balanceRun demoFirst.1.2 demoFirst.2 [("a.example", 1)]) as H.
  { apply (run_select emptyShard 16383 [] demoCandidates "A.example." demoNow demoNow 0
      demoFirst.1.1.1 demoFirst.1.1.2).
    - by apply run_new.
    - vm_compute. reflexivity.
    - left. vm_compute. reflexivity.
    - vm_compute. discriminate.
    - vm_compute. reflexivity.
    - vm_compute. reflexivity. }
  apply (run_release _ _ _ ("a.example", 1) 1000) in H; [|by left].
  assert (demoFirst.2 = 16384) as <- by (vm_compute; reflexivity). exact H.
Qed.


Definition demoSecond := selectBalancedCertificate demoCandidates "a.example" (demoNow + 1) (demoNow + 1) 0 demoIdle 16384.

Lemma clearLoop_none order s count : (forall k, stateOf s k = None) -> clearLoop order s count = (s, count).
Proof. intros H. induction order as [|k order IH]; cbn [clearLoop]; [done|]. by rewrite H. Qed.


Definition allInUse s : Prop := forall k st, stateOf s k = Some st -> ActiveConn st <> 0.

Lemma prune_busy nowUnix s count : ShardInv s -> allInUse s -> pruneLocked nowUnix s count = (s, count).
Proof.
  intros Hi Hu. unfold pruneLocked. destruct (decide (states s = ∅)); [done|].
  destruct (length (lru s)); [done|]. cbn [pruneLoop]. destruct (last (lru s)) as [[e k]|] eqn:El; [|done].
  destruct (si_state s Hi e k) as (st & Hst & _); [by apply last_Some_elem_of|]. rewrite Hst.
  apply Hu in Hst. by destruct (Z.eqb_spec (ActiveConn st) 0).
Qed.

Lemma evict_busy s count : ShardInv s -> allInUse s -> evictOneInactiveLocked s count = (false, s, count).
Proof.
  intros Hi Hu. unfold evictOneInactiveLocked. destruct (inactiveFrom s (reverse (lru s))) as [k|] eqn:E; [|done].
  apply inactiveFrom_spec in E as [Hk Ha]. apply (elem_of_keys s k Hi) in Hk as [st Hst].
  by apply Hu in Hst as Hn; apply Ha in Hst.
Qed.

Lemma makeRoom_busy s count : ShardInv s -> allInUse s -> makeRoomLocked s count = (s, count).
Proof.
  intros Hi Hu. unfold makeRoomLocked. destruct (length (lru s)); cbn [makeRoomLoop].
  - by destruct (_ <? _).
  - destruct (_ <? _); [done|]. by rewrite evict_busy.
Qed.

(** A name that is refused a slot stays in the shard for ever.  When the
    table of the process is full and every entry of the shard is in use, a
    connection for a new name gets a certificate but no entry; the empty map
    made for the name stays under it, no later prune takes it away, and each
    further name adds another one: the number of names in a shard is not
    bounded by the size of the table. *)
Theorem refused_name_stays s count open candidates sni nowFilter now others :
  let bucket := reverseProxyNormalizeSNIBucket (reverseProxyNormalizeSNIBucket sni) in
  balanceRun s count open -> allInUse s -> states s !! bucket = None ->
  reverseProxyRuntimeTableMaxEntries <= count -> 0 <= others ->
  let '(res, sel, s', count') := selectBalancedCertificate candidates sni nowFilter now others s count in
  res <> None ->
  sel = None /\ entries s' = entries s /\ size (states s') = S (size (states s)) /\ vacant s' bucket /\
  forall nowUnix n, entries s' <= n -> is_Some (states (pruneLocked nowUnix s' n).1 !! bucket).
Proof.
  intros bucket Hb%balanceRun_inv Hu Hnew Hfull Ho. pose proof (bi_shard _ _ _ Hb) as Hi.
  unfold selectBalancedCertificate, reserveCertificateBalanceSelection. fold bucket. clearbody bucket.
  destruct (decide _) as [|_]; [done|]. rewrite prune_busy by done.
  destruct (selectLoop _ _ None) as [c|]; [|done].
  assert (vacant s bucket) as Hv. { intros c'. unfold stateOf. simpl. rewrite Hnew. apply lookup_empty. }
  pose proof (ensureBucket_spec bucket s Hi) as He. unfold obtainState.
  assert (size (states (ensureBucket bucket s).2) = S (size (states s))) as Hsize.
  { unfold ensureBucket. rewrite Hnew. by apply map_size_insert_None. }
  destruct (ensureBucket bucket s) as [r0 s0]. cbn [snd] in Hsize. destruct He as (Hi0 & Hr0 & Hso0 & _ & He0).
  assert (allInUse s0) as Hu0 by (intros k st; rewrite Hso0; apply Hu).
  rewrite <-(stateOf_eq s0 bucket _ r0 Hr0), Hso0, Hv, makeRoom_busy by done.
  assert (ensureBucket bucket s0 = (r0, s0)) as -> by (unfold ensureBucket; by rewrite Hr0).
  rewrite <-(stateOf_eq s0 bucket _ r0 Hr0), Hso0, Hv.
  unfold reserveReverseProxyCertificateBalanceEntry. destruct (Z.leb_spec reverseProxyRuntimeTableMaxEntries count); [|lia].
  rewrite evict_busy by done.
  destruct (Z.leb_spec reverseProxyRuntimeTableMaxEntries (count + others)); [|lia].
  assert (vacant s0 bucket) as Hv0 by (intros c'; by rewrite Hso0).
  intros _. split_and!; try done. intros nowUnix n Hn.
  pose proof (pruneLocked_spec nowUnix s0 n Hi0 Hn) as Sh. destruct (pruneLocked nowUnix s0 n) as [s1 n1]. cbn [fst].
  rewrite (sh_bucket _ _ _ _ Sh bucket) by (by right). by eexists.
Qed.

Lemma refused_name_stays_witness :
  let '(res, sel, s', count') := selectBalancedCertificate demoCandidates "b.example" demoNow demoNow 0 emptyShard 16384 in
  res <> None /\
  sel = None /\ entries s' = 0 /\ size (states s') = 1%nat /\ vacant s' "b.example" /\
  forall nowUnix n, entries s' <= n -> is_Some (states (pruneLocked nowUnix s' n).1 !! "b.example").
Proof.
  pose proof (refused_name_stays emptyShard 16384 [] demoCandidates "b.example" demoNow demoNow 0) as H.
  assert (reverseProxyNormalizeSNIBucket (reverseProxyNormalizeSNIBucket "b.example") = "b.example") as Hn
    by (vm_compute; reflexivity).
  rewrite Hn in H.
  assert ((selectBalancedCertificate demoCandidates "b.example" demoNow demoNow 0 emptyShard 16384).1.1.1 <> None) as Hres
    by (vm_compute; discriminate).
  destruct (selectBalancedCertificate demoCandidates "b.example" demoNow demoNow 0 emptyShard 16384)
    as [[[res sel] s'] count'].
  split; [exact Hres|]. apply H.
  - apply run_new. lia.
  - intros k st Hs. vm_compute in Hs. discriminate.
  - vm_compute. reflexivity.
  - unfold reverseProxyRuntimeTableMaxEntries. lia.
  - lia.
  - exact Hres.
Defined.
