(* ===== verification/RuntimeTables.v ===== *)
(** * Runtime tables of the reverse proxy ([service/reverse_proxy.go])

    Two tables keyed by what a client sends, bounded by age and by size: the
    addresses whose requests matched no rule, which are slowed down, and the
    certificates chosen for connections that have not been registered yet.
    Both are split into 16 shards by a checksum of the key; a shard is an
    [LruTable].  Times are nanoseconds; [None] is the zero time. *)

From stdpp Require Import base gmap list strings sorting.
From Stdlib Require Import Ascii ZArith Lia.
From S2P Require Import Prelude GoStrings LruTable CertBalance.

#[local] Open Scope Z_scope.
#[local] Open Scope go_scope.

Definition reverseProxyRuntimeTableTTL : Z := 5 * 60 * nanosPerSecond.
Definition reverseProxyMismatchFreeLimit : Z := 5.
Definition reverseProxyMismatchDelay : Z := 30 * nanosPerSecond.
Definition reverseProxyMismatchMaxEntries : Z := 16384.

(** ** [crc32.ChecksumIEEE] *)

Fixpoint crcBits (n : nat) (crc : Z) : Z :=
  match n with
  | O => crc
  | S n' => crcBits n' (if Z.testbit crc 0 then Z.lxor (Z.shiftr crc 1) 0xEDB88320 else Z.shiftr crc 1)
  end.
Fixpoint crcLoop (crc : Z) (s : string) : Z :=
  match s with
  | EmptyString => crc
  | String c s' => crcLoop (crcBits 8 (Z.lxor crc (Z.of_nat (nat_of_ascii c)))) s'
  end.
Definition checksumIEEE (s : string) : Z := Z.lxor (crcLoop 0xFFFFFFFF s) 0xFFFFFFFF.

Example checksum_check : checksumIEEE "123456789" = 0xCBF43926.
Proof. vm_compute. reflexivity. Qed.

Definition shardIndex (key : string) : nat := Z.to_nat (checksumIEEE key mod reverseProxyRuntimeTableShardCount).

(** ** Entries in the order of their time *)

Section Timed.
Context {V : Type} (time : V -> Z).

Definition newestFirst (l : list (string * V)) : Prop := StronglySorted (fun a b => time b.2 <= time a.2) l.

Definition fresh (now ttl : Z) (l : list (string * V)) : list (string * V) :=
  filter (fun kv => now - time kv.2 < ttl) l.

Lemma newestFirst_sub (l l' : list (string * V)) : newestFirst (l ++ l') -> newestFirst l.
Proof.
  unfold newestFirst. induction l as [|x l IH]; simpl; [constructor|].
  inversion 1 as [|? ? Hs Hf]; subst. constructor; [by apply IH|]. apply Forall_app in Hf. tauto.
Qed.

Lemma newestFirst_filter (P : string * V -> Prop) `{!forall x, Decision (P x)} l :
  newestFirst l -> newestFirst (filter P l).
Proof.
  unfold newestFirst. induction 1 as [|x l Hs IH Hf]; [constructor|].
  rewrite filter_cons. destruct (decide (P x)); [|done]. constructor; [done|].
  rewrite Forall_forall in *. intros y [_ Hy]%list_elem_of_filter. by apply Hf.
Qed.

Lemma newestFirst_take n (l : list (string * V)) : newestFirst l -> newestFirst (take n l).
Proof. intros H. rewrite <-(take_drop n l) in H. by apply newestFirst_sub in H. Qed.

Lemma newestFirst_cons key v l now :
  time v = now -> Forall (fun kv => time kv.2 <= now) l -> newestFirst l -> newestFirst ((key, v) :: l).
Proof. intros <- Hl Hs. by constructor. Qed.

(** In an ordered table a stale tail is all there is to drop. *)
Lemma newestFirst_split now ttl (l old : list (string * V)) :
  newestFirst (l ++ old) -> Forall (fun kv => ttl <= now - time kv.2) old ->
  (forall kv, last l = Some kv -> now - time kv.2 < ttl) -> l = fresh now ttl (l ++ old).
Proof.
  intros Hs Ho Hl. unfold fresh. rewrite filter_app.
  rewrite (filter_nothing _ old), app_nil_r.
  - symmetry. apply filter_all. apply newestFirst_sub in Hs. clear Ho.
    induction Hs as [|x l' Hs' IH Hf]; [constructor|]. destruct l' as [|y l'].
    + constructor; [by apply Hl|constructor].
    + specialize (IH Hl). constructor; [|done]. inversion IH as [|? ? H1 _]; inversion Hf as [|? ? H2 _]; subst. lia.
  - rewrite Forall_forall in *. intros kv Hin. specialize (Ho kv Hin). lia.
Qed.
End Timed.

(** ** Addresses that matched no rule *)

Record reverseProxyMismatchEntry : Type := mkMismatch {
  Count : Z;
  LastAttempt : option Z;
  DelayedUntil : option Z;
  LastReason : string }.

Definition mismatchShardLimit : nat :=
  Z.to_nat (reverseProxyMismatchMaxEntries / reverseProxyRuntimeTableShardCount).

Definition mismatchStale (now : Z) (e : reverseProxyMismatchEntry) : bool :=
  match LastAttempt e with None => true | Some t => reverseProxyRuntimeTableTTL <=? now - t end.

(** [shard.lru.Remove(entry.element)], the entry stays in the map. *)
Definition unlist {V} (key : string) (t : lruTable V) : lruTable V :=
  match items t !! key with
  | Some (_, e) => mkTable (items t) (listRemove e (order t)) (nextElement t)
  | None => t
  end.

Definition countMismatch (e : reverseProxyMismatchEntry) (reason : string) (now : Z) : reverseProxyMismatchEntry :=
  let count := Count e +! 1 in
  mkMismatch count (Some now)
    (if count <=? reverseProxyMismatchFreeLimit then None else Some (now + reverseProxyMismatchDelay))
    (trim_space reason).

Definition mismatchDelay (e : reverseProxyMismatchEntry) : Z :=
  if Count e <=? reverseProxyMismatchFreeLimit then 0 else reverseProxyMismatchDelay.

(** [registerMismatch] on the shard of the address. *)
Definition registerMismatchLocked (ip reason : string) (now : Z) (t : lruTable reverseProxyMismatchEntry)
  : Z * lruTable reverseProxyMismatchEntry :=
  let '(t1, _) := pruneBack (length (order t)) (mismatchStale now) t in
  let entry := valueAt t1 ip in
  match entry with
  | Some e =>
      if mismatchStale now e then
        let t2 := unlist ip t1 in
        let '(t3, _) := evictBack (length (order t2)) mismatchShardLimit t2 in
        let e' := countMismatch (mkMismatch 0 None None "") reason now in
        (mismatchDelay e', pushFront ip e' t3)
      else
        let e' := countMismatch e reason now in (mismatchDelay e', moveToFront ip e' t1)
  | None =>
      let '(t3, _) := evictBack (length (order t1)) mismatchShardLimit t1 in
      let e' := countMismatch (mkMismatch 0 None None "") reason now in
      (mismatchDelay e', pushFront ip e' t3)
  end.

Notation shards V := (list (lruTable V)).
Definition newShards (V : Type) : shards V := replicate 16 emptyTable.
Definition shardAt {V} (m : shards V) (key : string) : lruTable V := m !!! shardIndex key.
Definition setShard {V} (key : string) (t : lruTable V) (m : shards V) : shards V := <[shardIndex key := t]> m.

Definition registerMismatch (rawIP reason : string) (now : Z) (m : shards reverseProxyMismatchEntry)
  : Z * shards reverseProxyMismatchEntry :=
  let ip := trim_space rawIP in
  if String.eqb ip "" then (0, m)
  else let '(delay, t) := registerMismatchLocked ip reason now (shardAt m ip) in (delay, setShard ip t m).

Definition clearMismatch (rawIP : string) (m : shards reverseProxyMismatchEntry) : shards reverseProxyMismatchEntry :=
  let ip := trim_space rawIP in
  if String.eqb ip "" then m else setShard ip (dropKey ip (shardAt m ip)) m.

Definition resetMismatchTable (m : shards reverseProxyMismatchEntry) : shards reverseProxyMismatchEntry :=
  replicate (length m) emptyTable.

(** ** Certificates of connections not registered yet *)

Section Pending.
Context {Sel : Type}.

Record pendingSelection : Type := mkPending { Selection : Sel; CreatedAt : option Z }.

Definition pendingShardLimit : nat :=
  Z.to_nat (reverseProxyRuntimeTableMaxEntries / reverseProxyRuntimeTableShardCount).

Definition pendingStale (now : Z) (p : pendingSelection) : bool :=
  match CreatedAt p with None => true | Some t => reverseProxyRuntimeTableTTL <=? now - t end.

Definition pendingShardIndex (connAddrKey : string) : nat := shardIndex (trim_space connAddrKey).
Definition pendingShard (m : shards pendingSelection) (connAddrKey : string) : lruTable pendingSelection :=
  m !!! pendingShardIndex connAddrKey.
Definition setPendingShard (connAddrKey : string) (t : lruTable pendingSelection) (m : shards pendingSelection) :=
  <[pendingShardIndex connAddrKey := t]> m.

(** The selections to release, and the table. *)
Definition prunePending (now : Z) (t : lruTable pendingSelection) : lruTable pendingSelection * list Sel :=
  if decide (items t = ∅) then (t, [])
  else let '(t', dropped) := pruneBack (length (order t)) (pendingStale now) t in (t', Selection <$> dropped).

Definition putPending (connAddrKey : string) (sel : Sel) (now : Z) (t : lruTable pendingSelection)
  : lruTable pendingSelection * list Sel :=
  let '(t1, released) := prunePending now t in
  let '(t2, released) := match valueAt t1 connAddrKey with
                         | Some p => (dropKey connAddrKey t1, released ++ [Selection p])
                         | None => (t1, released)
                         end in
  let '(t3, evicted) := evictBack (length (order t2)) pendingShardLimit t2 in
  (pushFront connAddrKey (mkPending sel (Some now)) t3, released ++ (Selection <$> evicted)).

Definition prunePendingCertificateSelectionsLocked (connAddrKey : string) (now : Z) (m : shards pendingSelection)
  : shards pendingSelection * list Sel :=
  let '(t, released) := prunePending now (pendingShard m connAddrKey) in (setPendingShard connAddrKey t m, released).

Definition putPendingCertificateSelectionLocked (connAddrKey : string) (sel : Sel) (now : Z)
  (m : shards pendingSelection) : shards pendingSelection * list Sel :=
  if String.eqb (trim_space connAddrKey) "" then (m, [])
  else let '(t, released) := putPending connAddrKey sel now (pendingShard m connAddrKey) in
       (setPendingShard connAddrKey t m, released).

Definition takePendingCertificateSelectionLocked (connAddrKey : string) (m : shards pendingSelection)
  : shards pendingSelection * option Sel :=
  if String.eqb (trim_space connAddrKey) "" then (m, None)
  else match valueAt (pendingShard m connAddrKey) connAddrKey with
       | None => (m, None)
       | Some p => (setPendingShard connAddrKey (dropKey connAddrKey (pendingShard m connAddrKey)) m, Some (Selection p))
       end.
End Pending.
Arguments pendingSelection : clear implicits.

(** ** What the loops leave *)

Section Bounded.
Context {V : Type} (time : V -> Z).
Implicit Types (t : lruTable V).

Lemma without_absent key t : TableInv t -> valueAt t key = None -> without key (view t) = view t.
Proof.
  intros Hi Hn. apply filter_all. apply Forall_forall. intros [k v] Hin. simpl. intros ->.
  apply elem_of_view in Hin; [|done]. congruence.
Qed.

(** Evicting and adding a new key keeps the [limit] newest entries. *)
Lemma evict_push key v limit t : TableInv t -> valueAt t key = None -> (0 < limit)%nat ->
  let '(t', dropped) := evictBack (length (order t)) limit t in
  TableInv (pushFront key v t') /\ view (pushFront key v t') = take limit ((key, v) :: view t) /\
  exists old, view t = view t' ++ old /\ dropped = reverse (snd <$> old) /\
    view (pushFront key v t') = (key, v) :: view t'.
Proof.
  intros Hi Hn Hl. pose proof (evictBack_spec limit (length (order t)) t Hi (Nat.le_refl _) Hl) as H.
  destruct (evictBack (length (order t)) limit t) as [t' dropped].
  destruct H as (Hi' & Hlen & old & Hv & -> & Hend).
  assert (valueAt t' key = None) as Hn'.
  { eapply valueAt_view; [exact Hi|exact Hi'| |done]. intros kv Hin. rewrite Hv. apply elem_of_app. by left. }
  split; [by apply pushFront_inv|]. rewrite view_pushFront by done. split; [|by exists old].
  destruct limit as [|n]; [lia|]. cbn [take]. f_equal. rewrite Hv.
  destruct Hend as [->|Hend].
  - rewrite app_nil_r, take_ge; [done|lia].
  - injection Hend as <-. by rewrite take_app_length.
Qed.

(** Pruning an ordered table keeps exactly the fresh entries. *)
Lemma prune_fresh (stale : V -> bool) now ttl t : TableInv t -> newestFirst time (view t) ->
  Forall (fun kv => stale kv.2 = true <-> ttl <= now - time kv.2) (view t) ->
  let '(t', dropped) := pruneBack (length (order t)) stale t in
  TableInv t' /\ view t' = fresh time now ttl (view t) /\
  exists old, view t = view t' ++ old /\ dropped = reverse (snd <$> old).
Proof.
  intros Hi Hs Hst. pose proof (pruneBack_spec stale (length (order t)) t Hi (Nat.le_refl _)) as H.
  destruct (pruneBack (length (order t)) stale t) as [t' dropped].
  destruct H as (Hi' & old & Hv & Hd & Ho & Hl). split; [done|]. split; [|by exists old].
  rewrite Hv in *. rewrite Forall_app in Hst. destruct Hst as [Hst1 Hst2].
  apply newestFirst_split; [done| |].
  - rewrite Forall_forall in *. intros kv Hin. apply Hst2; [done|]. by apply Ho.
  - intros kv Hlast. specialize (Hl kv Hlast). rewrite Forall_forall in Hst1.
    apply last_Some_elem_of in Hlast. specialize (Hst1 kv Hlast). rewrite Hl in Hst1.
    destruct (Z.le_gt_cases ttl (now - time kv.2)) as [Hle|]; [|lia]. by apply Hst1 in Hle.
Qed.
End Bounded.

(** ** The table of mismatches *)

Definition attemptTime (e : reverseProxyMismatchEntry) : Z := default 0 (LastAttempt e).

(** A shard at a time: ordered, bounded, no attempt in the future. *)
Record MismatchInv (now : Z) (t : lruTable reverseProxyMismatchEntry) : Prop := {
  mi_table : TableInv t;
  mi_order : newestFirst attemptTime (view t);
  mi_size : (length (view t) <= mismatchShardLimit)%nat;
  mi_time : Forall (fun kv => exists u, LastAttempt kv.2 = Some u /\ u <= now) (view t) }.

Lemma mismatchStale_spec now t : MismatchInv now t -> forall now', 
  Forall (fun kv => mismatchStale now' kv.2 = true <-> reverseProxyRuntimeTableTTL <= now' - attemptTime kv.2) (view t).
Proof.
  intros Hi now'. eapply Forall_impl; [apply (mi_time _ _ Hi)|]. intros [k e] (u & Hu & _).
  unfold mismatchStale, attemptTime. simpl in *. rewrite Hu. simpl. apply Z.leb_le.
Qed.

(** The reference: forget the stale entries, count the attempt, keep the
    newest ones. *)
Definition mismatchEntryOf (ip : string) (now : Z) (l : list (string * reverseProxyMismatchEntry))
  : reverseProxyMismatchEntry :=
  default (mkMismatch 0 None None "")
    (snd <$> find (fun kv => String.eqb kv.1 ip) (fresh attemptTime now reverseProxyRuntimeTableTTL l)).

Definition mismatchReference (ip reason : string) (now : Z) (l : list (string * reverseProxyMismatchEntry))
  : list (string * reverseProxyMismatchEntry) :=
  take mismatchShardLimit
    ((ip, countMismatch (mismatchEntryOf ip now l) reason now) ::
     without ip (fresh attemptTime now reverseProxyRuntimeTableTTL l)).

Lemma find_view {V} (t : lruTable V) key : TableInv t ->
  snd <$> find (fun kv => String.eqb kv.1 key) (view t) = valueAt t key.
Proof.
  intros Hi. destruct (find (fun kv => String.eqb kv.1 key) (view t)) as [[k v]|] eqn:E.
  - apply find_some in E as [Hin He]. simpl in He. apply String.eqb_eq in He as ->. symmetry. simpl.
    apply elem_of_view; [done|]. by apply list_elem_of_In.
  - destruct (valueAt t key) as [v|] eqn:Ev; [|done]. apply elem_of_view in Ev; [|done].
    apply list_elem_of_In in Ev. pose proof (find_none _ _ E _ Ev) as Hf. simpl in Hf. by rewrite String.eqb_refl in Hf.
Qed.

Lemma length_without {V} key (l : list (string * V)) kv :
  kv ∈ l -> kv.1 = key -> (length (without key l) < length l)%nat.
Proof. intros Hin Hk. apply (length_filter_lt _ l kv Hin). by intros H. Qed.

Lemma mismatchShardLimit_pos : (0 < mismatchShardLimit)%nat.
Proof. apply Nat.ltb_lt. vm_compute. reflexivity. Qed.

(** A registration is the reference. *)
Lemma registerMismatchLocked_spec ip reason now now' t : MismatchInv now t -> now <= now' ->
  let '(delay, t') := registerMismatchLocked ip reason now' t in
  TableInv t' /\ view t' = mismatchReference ip reason now' (view t) /\
  delay = mismatchDelay (countMismatch (mismatchEntryOf ip now' (view t)) reason now').
Proof.
  intros Hi Hn. unfold registerMismatchLocked, mismatchReference, mismatchEntryOf.
  pose proof (prune_fresh attemptTime (mismatchStale now') now' reverseProxyRuntimeTableTTL t
    (mi_table _ _ Hi) (mi_order _ _ Hi) (mismatchStale_spec _ _ Hi now')) as Hp.
  destruct (pruneBack (length (order t)) (mismatchStale now') t) as [t1 dropped].
  destruct Hp as (Hi1 & Hv1 & old & Hv & _). rewrite <-Hv1, find_view by done.
  destruct (valueAt t1 ip) as [e|] eqn:Ee.
  - assert ((ip, e) ∈ view t1) as Hin by (by apply elem_of_view).
    assert (mismatchStale now' e = false) as Hst.
    { pose proof Hin as Hf. rewrite Hv1 in Hf. apply list_elem_of_filter in Hf as [Hf Hin0].
      pose proof (mismatchStale_spec _ _ Hi now') as Hs. rewrite Forall_forall in Hs. specialize (Hs _ Hin0).
      simpl in *. destruct (mismatchStale now' e); [|done]. destruct Hs as [Hs _]. specialize (Hs eq_refl). lia. }
    rewrite Hst. split_and!; [by apply moveToFront_inv| |done].
    rewrite view_moveToFront by done. symmetry. apply take_ge. cbn [length].
    pose proof (length_without ip (view t1) (ip, e) Hin eq_refl). pose proof (mi_size _ _ Hi) as Hsz.
    rewrite Hv, length_app in Hsz. lia.
  - pose proof (evict_push ip (countMismatch (mkMismatch 0 None None "") reason now') mismatchShardLimit t1 Hi1 Ee
      mismatchShardLimit_pos) as He.
    destruct (evictBack (length (order t1)) mismatchShardLimit t1) as [t3 dropped3].
    destruct He as (Hi3 & Hv3 & _). split_and!; [done| |done]. by rewrite Hv3, without_absent.
Qed.

Lemma registerMismatchLocked_inv ip reason now now' t : MismatchInv now t -> now <= now' ->
  MismatchInv now' (registerMismatchLocked ip reason now' t).2.
Proof.
  intros Hi Hn. pose proof (registerMismatchLocked_spec ip reason now now' t Hi Hn) as H.
  destruct (registerMismatchLocked ip reason now' t) as [delay t']. destruct H as (Ht & Hv & _). cbn [snd].
  assert (Forall (fun kv => exists u, LastAttempt kv.2 = Some u /\ u <= now')
    (without ip (fresh attemptTime now' reverseProxyRuntimeTableTTL (view t)))) as Htime.
  { apply Forall_forall. intros kv [_ [_ Hin]%list_elem_of_filter]%list_elem_of_filter.
    pose proof (mi_time _ _ Hi) as Hm. rewrite Forall_forall in Hm. destruct (Hm kv Hin) as (u & ? & ?).
    exists u. split; [done|lia]. }
  split; [done| | |]; rewrite Hv; unfold mismatchReference.
  - apply newestFirst_take, (newestFirst_cons attemptTime _ _ _ now'); [done| |].
    + eapply Forall_impl; [exact Htime|]. intros kv (u & Hu & Hle). unfold attemptTime. by rewrite Hu.
    + by apply newestFirst_filter, newestFirst_filter, (mi_order _ _ Hi).
  - rewrite length_take. lia.
  - apply Forall_take. constructor; [|done]. exists now'. split; [done|lia].
Qed.

(** Everything the runtime does with the table, at times that do not go back. *)
Inductive mismatchRun : Z -> shards reverseProxyMismatchEntry -> Prop :=
| mismatch_new now : mismatchRun now (newShards _)
| mismatch_register now now' ip reason m : mismatchRun now m -> now <= now' ->
    mismatchRun now' (registerMismatch ip reason now' m).2
| mismatch_clear now ip m : mismatchRun now m -> mismatchRun now (clearMismatch ip m)
| mismatch_reset now m : mismatchRun now m -> mismatchRun now (resetMismatchTable m).

Lemma emptyMismatch_inv now : MismatchInv now emptyTable.
Proof. split; [apply emptyTable_inv|constructor|simpl; lia|constructor]. Qed.

Lemma MismatchInv_later now now' t : MismatchInv now t -> now <= now' -> MismatchInv now' t.
Proof.
  intros Hi Hn. split; try apply Hi. eapply Forall_impl; [apply (mi_time _ _ Hi)|].
  intros kv (u & ? & ?). exists u. split; [done|lia].
Qed.

Lemma dropKey_mismatch_inv now key t : MismatchInv now t -> MismatchInv now (dropKey key t).
Proof.
  intros Hi. pose proof (mi_table _ _ Hi) as Ht. split; [by apply dropKey_inv| | |]; rewrite view_dropKey by done.
  - apply newestFirst_filter, Hi.
  - etransitivity; [apply length_filter|apply Hi].
  - apply Forall_forall. intros kv [_ Hin]%list_elem_of_filter. pose proof (mi_time _ _ Hi) as Hm.
    rewrite Forall_forall in Hm. by apply Hm.
Qed.

Lemma length_setShard {V} key (t : lruTable V) m : length (setShard key t m) = length m.
Proof. apply length_insert. Qed.

Lemma setShard_Forall {V} (P : lruTable V -> Prop) key t m : Forall P m -> P t -> Forall P (setShard key t m).
Proof. intros Hm Ht. unfold setShard. by apply Forall_insert. Qed.

Lemma shardIndex_lt key : (shardIndex key < 16)%nat.
Proof.
  unfold shardIndex, reverseProxyRuntimeTableShardCount.
  pose proof (Z.mod_pos_bound (checksumIEEE key) 16 ltac:(lia)). lia.
Qed.

Lemma shardAt_Forall {V} (P : lruTable V -> Prop) m key : Forall P m -> length m = 16%nat -> P (shardAt m key).
Proof.
  intros Hm Hl. unfold shardAt. destruct (lookup_lt_is_Some_2 m (shardIndex key)) as [t Ht].
  { rewrite Hl. apply shardIndex_lt. }
  rewrite (list_lookup_total_correct _ _ _ Ht). rewrite Forall_lookup in Hm. by eapply Hm.
Qed.

Lemma mismatchRun_inv now m : mismatchRun now m -> length m = 16%nat /\ Forall (MismatchInv now) m.
Proof.
  induction 1 as [now|now now' ip reason m _ [Hl IH] Hn|now ip m _ [Hl IH]|now m _ [Hl IH]].
  - split; [done|]. apply Forall_replicate, emptyMismatch_inv.
  - assert (Forall (MismatchInv now') m) as IH'.
    { eapply Forall_impl; [exact IH|]. intros t Ht. by eapply MismatchInv_later. }
    unfold registerMismatch. destruct (String.eqb (trim_space ip) ""); [done|].
    pose proof (registerMismatchLocked_inv (trim_space ip) reason now now' (shardAt m (trim_space ip))
      (shardAt_Forall _ _ _ IH Hl) Hn) as H.
    destruct (registerMismatchLocked _ _ _ _) as [delay t]. cbn [snd] in *.
    split; [by rewrite length_setShard|]. by apply setShard_Forall.
  - unfold clearMismatch. destruct (String.eqb (trim_space ip) ""); [done|].
    split; [by rewrite length_setShard|].
    apply setShard_Forall; [done|]. apply dropKey_mismatch_inv. by apply shardAt_Forall.
  - unfold resetMismatchTable. rewrite length_replicate. split; [done|]. apply Forall_replicate, emptyMismatch_inv.
Qed.

Lemma shardAt_setShard {V} (m : shards V) key key' t : length m = 16%nat ->
  shardAt (setShard key t m) key' = if decide (shardIndex key' = shardIndex key) then t else shardAt m key'.
Proof.
  intros Hl. unfold shardAt, setShard. destruct (decide (shardIndex key' = shardIndex key)) as [->|].
  - apply list_lookup_total_insert_eq. rewrite Hl. apply shardIndex_lt.
  - by apply list_lookup_total_insert_ne.
Qed.

(** A client whose requests match no rule is slowed down exactly as
    intended.  Whatever was registered, cleared and reset before, at times
    that do not go back, registering an address makes the table what the
    reference says: its attempts of the last five minutes without a gap are
    counted on, everything older is forgotten, and of the other addresses of
    its shard the newest 1023 stay as they are; the other shards do not
    change, no shard holds more than 1024 addresses, and the request is
    delayed if and only if it is at least the sixth counted attempt. *)
Theorem mismatch_penalty_exact now m rawIP reason now' :
  mismatchRun now m -> now <= now' ->
  let ip := trim_space rawIP in
  ip <> "" ->
  let entry := mismatchEntryOf ip now' (view (shardAt m ip)) in
  0 <= Count entry < max_i64 ->
  let '(delay, m') := registerMismatch rawIP reason now' m in
  view (shardAt m' ip) = mismatchReference ip reason now' (view (shardAt m ip)) /\
  (forall other, shardIndex other <> shardIndex ip -> shardAt m' other = shardAt m other) /\
  (forall other, (length (view (shardAt m' other)) <= 1024)%nat) /\
  delay = if Count entry <? 5 then 0 else 30 * nanosPerSecond.
Proof.
  intros Hr Hn ip Hip entry Hc. pose proof (mismatchRun_inv now m Hr) as [Hl Hm].
  pose proof (mismatchRun_inv now' _ (mismatch_register now now' rawIP reason m Hr Hn)) as [Hl' Hm'].
  revert Hl' Hm'. unfold registerMismatch. fold ip. rewrite (proj2 (String.eqb_neq ip "") Hip).
  pose proof (registerMismatchLocked_spec ip reason now now' (shardAt m ip) (shardAt_Forall _ _ _ Hm Hl) Hn) as H.
  destruct (registerMismatchLocked ip reason now' (shardAt m ip)) as [delay t].
  destruct H as (_ & Hv & ->). cbn [snd]. intros Hl' Hm'. split_and!.
  - by rewrite shardAt_setShard, decide_True.
  - intros other Hne. by rewrite shardAt_setShard, decide_False.
  - intros other. apply (mi_size now'), shardAt_Forall; done.
  - unfold mismatchDelay, countMismatch. fold entry. cbn [Count]. rewrite wrap64_id by in_range.
    change reverseProxyMismatchFreeLimit with 5. change reverseProxyMismatchDelay with (30 * nanosPerSecond).
    destruct (Z.leb_spec (Count entry + 1) 5), (Z.ltb_spec (Count entry) 5); lia || done.
Qed.

Fixpoint registerTimes (n : nat) (m : shards reverseProxyMismatchEntry) : shards reverseProxyMismatchEntry :=
  match n with O => m | S n' => (registerMismatch "192.0.2.7" "unrecognized_sni" 1000 (registerTimes n' m)).2 end.

Lemma registerTimes_run n : mismatchRun 1000 (registerTimes n (newShards _)).
Proof. induction n as [|n IH]; [apply mismatch_new|]. by apply (mismatch_register 1000 1000). Qed.

Lemma mismatch_penalty_exact_witness :
  let m := registerTimes 5 (newShards _) in
  let '(delay, m') := registerMismatch " 192.0.2.7" "path" 2000 m in
  delay = 30 * nanosPerSecond /\
  view (shardAt m' "192.0.2.7") = mismatchReference "192.0.2.7" "path" 2000 (view (shardAt m "192.0.2.7")) /\
  (forall other, shardIndex other <> shardIndex "192.0.2.7" -> shardAt m' other = shardAt m other) /\
  (forall other, (length (view (shardAt m' other)) <= 1024)%nat) /\
  delay = if Count (mismatchEntryOf "192.0.2.7" 2000 (view (shardAt m "192.0.2.7"))) <? 5 then 0 else 30 * nanosPerSecond.
Proof.
  pose proof (mismatch_penalty_exact 1000 (registerTimes 5 (newShards _)) " 192.0.2.7" "path" 2000
    (registerTimes_run 5)) as H.
  assert (trim_space " 192.0.2.7" = "192.0.2.7") as Ht by (vm_compute; reflexivity).
  cbv zeta in H |- *. rewrite Ht in H.
  assert (Count (mismatchEntryOf "192.0.2.7" 2000 (view (shardAt (registerTimes 5 (newShards _)) "192.0.2.7"))) = 5) as Hc
    by (vm_compute; reflexivity).
  rewrite Hc in H. specialize (H ltac:(lia) ltac:(discriminate) ltac:(unfold max_i64; lia)). rewrite Hc.
  destruct (registerMismatch " 192.0.2.7" "path" 2000 (registerTimes 5 (newShards _))) as [delay m'].
  split; [apply H|exact H].
Defined.

(** ** Pending selections are handed over, not lost *)

Section PendingSpec.
Context {Sel : Type}.
Implicit Types (t : lruTable (pendingSelection Sel)) (m : shards (pendingSelection Sel)).

Definition selections t : list Sel := Selection <$> (view t).*2.

Lemma selections_split t t' old : view t = view t' ++ old ->
  selections t ≡ₚ (Selection <$> reverse (snd <$> old)) ++ selections t'.
Proof.
  intros Hv. unfold selections. rewrite Hv, !fmap_app, (Permutation_app_comm (Selection <$> _)).
  apply Permutation_app_tail. by rewrite reverse_Permutation.
Qed.

Lemma selections_drop t key p : TableInv t -> valueAt t key = Some p ->
  selections t ≡ₚ Selection p :: selections (dropKey key t).
Proof.
  intros Hi Hp. unfold selections. rewrite view_dropKey by done.
  apply (elem_of_view t key p Hi) in Hp. pose proof (view_nodup t Hi) as Hd.
  induction (view t) as [|[k v] l IH]; [by apply not_elem_of_nil in Hp|].
  cbn [fmap list_fmap] in Hd. apply NoDup_cons in Hd as [Hn Hd]. unfold without.
  apply elem_of_cons in Hp as [[= -> ->]|Hp].
  - rewrite filter_cons_False by (simpl; tauto). cbn. rewrite filter_all; [done|].
    apply Forall_forall. intros kv Hin He. destruct Hn. apply list_elem_of_fmap. by exists kv.
  - rewrite filter_cons_True.
    + cbn. rewrite (IH Hp Hd). apply Permutation_swap.
    + simpl. intros ->. destruct Hn. apply list_elem_of_fmap. by exists (key, p).
Qed.

Lemma prunePending_spec now t : TableInv t ->
  let '(t', released) := prunePending now t in TableInv t' /\ selections t ≡ₚ released ++ selections t'.
Proof.
  intros Hi. unfold prunePending. destruct (decide (items t = ∅)); [done|].
  pose proof (pruneBack_spec (pendingStale now) (length (order t)) t Hi (Nat.le_refl _)) as H.
  destruct (pruneBack (length (order t)) (pendingStale now) t) as [t' dropped].
  destruct H as (Hi' & old & Hv & -> & _). split; [done|]. by apply selections_split.
Qed.

Lemma pendingShardLimit_pos : (0 < pendingShardLimit)%nat.
Proof. apply Nat.ltb_lt. vm_compute. reflexivity. Qed.

Lemma putPending_spec key sel now t : TableInv t ->
  let '(t', released) := putPending key sel now t in
  TableInv t' /\ sel :: selections t ≡ₚ released ++ selections t' /\ (length (view t') <= pendingShardLimit)%nat.
Proof.
  intros Hi. unfold putPending. pose proof (prunePending_spec now t Hi) as H1.
  destruct (prunePending now t) as [t1 rel1]. destruct H1 as [Hi1 Hp1].
  assert (exists t2 rel2, match valueAt t1 key with
      | Some p => (dropKey key t1, rel1 ++ [Selection p])
      | None => (t1, rel1)
      end = (t2, rel2) /\ TableInv t2 /\ valueAt t2 key = None /\ selections t ≡ₚ rel2 ++ selections t2)
    as (t2 & rel2 & -> & Hi2 & Hn2 & Hp2).
  { destruct (valueAt t1 key) as [p|] eqn:E; [|by exists t1, rel1].
    exists (dropKey key t1), (rel1 ++ [Selection p]). split_and!; [done|by apply dropKey_inv| |].
    - by rewrite valueAt_dropKey, decide_True.
    - rewrite Hp1, (selections_drop t1 key p Hi1 E). by rewrite <-app_assoc. }
  pose proof (evict_push key (mkPending sel (Some now)) pendingShardLimit t2 Hi2 Hn2 pendingShardLimit_pos) as H3.
  destruct (evictBack (length (order t2)) pendingShardLimit t2) as [t3 evicted].
  destruct H3 as (Hi3 & Hv3 & old & Hv & -> & Hpush). split_and!; [done| |].
  - rewrite Hp2, (selections_split t2 t3 old Hv). unfold selections at 2. rewrite Hpush. cbn [fmap list_fmap snd Selection].
    fold (selections t3). by rewrite <-app_assoc, <-!Permutation_middle.
  - rewrite Hv3, length_take. lia.
Qed.

(** All shards together. *)
Definition allSelections m : list Sel := concat (selections <$> m).

Lemma pendingShard_Forall (P : lruTable (pendingSelection Sel) -> Prop) m key :
  Forall P m -> length m = 16%nat -> P (pendingShard m key).
Proof. apply shardAt_Forall. Qed.

Lemma allSelections_set m key t rel extra : length m = 16%nat ->
  extra ++ selections (pendingShard m key) ≡ₚ rel ++ selections t ->
  extra ++ allSelections m ≡ₚ rel ++ allSelections (setPendingShard key t m).
Proof.
  intros Hl Hp. unfold allSelections, setPendingShard, pendingShard in *.
  assert (pendingShardIndex key < length m)%nat as Hlt by (rewrite Hl; apply shardIndex_lt).
  destruct (lookup_lt_is_Some_2 m (pendingShardIndex key) Hlt) as [t0 Ht0].
  rewrite (list_lookup_total_correct _ _ _ Ht0) in Hp. rewrite list_fmap_insert.
  rewrite <-(take_drop_middle _ _ _ Ht0) at 1.
  rewrite (insert_take_drop (selections <$> m)) by (by rewrite length_fmap).
  rewrite fmap_app, !concat_app. cbn [fmap list_fmap concat]. rewrite fmap_take, fmap_drop.
  set (a := concat (take _ _)). set (b := concat (drop _ _)).
  rewrite (Permutation_app_comm a), (Permutation_app_comm a), !app_assoc. by rewrite Hp.
Qed.

Lemma prunePendingLocked_spec key now m : length m = 16%nat -> Forall TableInv m ->
  let '(m', released) := prunePendingCertificateSelectionsLocked key now m in
  length m' = 16%nat /\ Forall TableInv m' /\ allSelections m ≡ₚ released ++ allSelections m'.
Proof.
  intros Hl Hm. unfold prunePendingCertificateSelectionsLocked.
  pose proof (prunePending_spec now (pendingShard m key) (pendingShard_Forall _ _ _ Hm Hl)) as H.
  destruct (prunePending now (pendingShard m key)) as [t released]. destruct H as [Hi Hp].
  split_and!; [by rewrite <-Hl; apply length_insert|by apply Forall_insert|].
  by apply (allSelections_set m key t released []).
Qed.

Lemma putPendingLocked_spec key sel now m : length m = 16%nat -> Forall TableInv m -> trim_space key <> "" ->
  let '(m', released) := putPendingCertificateSelectionLocked key sel now m in
  length m' = 16%nat /\ Forall TableInv m' /\ sel :: allSelections m ≡ₚ released ++ allSelections m'.
Proof.
  intros Hl Hm Hk. unfold putPendingCertificateSelectionLocked. rewrite (proj2 (String.eqb_neq _ _) Hk).
  pose proof (putPending_spec key sel now (pendingShard m key) (pendingShard_Forall _ _ _ Hm Hl)) as H.
  destruct (putPending key sel now (pendingShard m key)) as [t released]. destruct H as (Hi & Hp & _).
  split_and!; [by rewrite <-Hl; apply length_insert|by apply Forall_insert|].
  by apply (allSelections_set m key t released [sel]).
Qed.

Lemma takePendingLocked_spec key m : length m = 16%nat -> Forall TableInv m ->
  let '(m', taken) := takePendingCertificateSelectionLocked key m in
  length m' = 16%nat /\ Forall TableInv m' /\ allSelections m ≡ₚ option_list taken ++ allSelections m'.
Proof.
  intros Hl Hm. unfold takePendingCertificateSelectionLocked. destruct (String.eqb _ ""); [done|].
  destruct (valueAt (pendingShard m key) key) as [p|] eqn:E; [|done].
  pose proof (pendingShard_Forall _ _ key Hm Hl) as Hi.
  split_and!; [by rewrite <-Hl; apply length_insert|by apply Forall_insert; [|apply dropKey_inv]|].
  apply (allSelections_set m key _ [Selection p] []); [done|]. by apply selections_drop.
Qed.
End PendingSpec.
