(* ===== verification/ConnTracking.v ===== *)
(** * Tracking of client connections ([service/reverse_proxy.go])

    A listener group counts its client connections against a limit of the
    listener and of each rule, and remembers which certificate was chosen for
    a connection.  The maps are guarded by [statsMu]; permits and certificates
    are given back after the mutex is released, by whichever goroutine
    happens to close the connection.

    Each function is a critical section under [statsMu]; what it does after
    the mutex is released is queued in [todo] and runs as separate steps, in
    any order and between any other steps.  A connection is registered in two
    steps, the permit of the listener first ([inflight]).  Limiters are
    objects: [limiters] is the store they live in, a rule's map holds
    references, and so do connections, requests and upstream connections.
    Iteration over a Go map is in some order; here it is that of
    [map_to_list].  Certificates are abstract; giving one back appends it to
    [released]. *)

From stdpp Require Import base gmap list strings sorting.
From Stdlib Require Import Ascii ZArith Lia.
From S2P Require Import Prelude GoStrings Memory LruTable CertBalance RuntimeTables.

#[local] Open Scope Z_scope.
#[local] Open Scope go_scope.

Section Tracking.
Context {Sel : Type}.

Inductive action : Type :=
| FreeSlot                       (* [releaseListenerConnectionSlot] *)
| FreeLimiter (ref : nat)        (* [ruleLimiter.Release()] *)
| FreeSelection (sel : Sel)      (* [releaseCertificateSelection] *)
| ReleaseID (id : string).       (* [releaseLocalConnectionByID] *)

(** [reverseProxyLocalConnectionState]; a nil limiter is [None]. *)
Record connState : Type := mkConnState {
  RuleConnectionLimiters : gmap Z (option nat);
  HijackedRuleID : Z;
  cs_Selection : option Sel }.

Definition zeroState : connState := mkConnState ∅ 0 None.

Record tracking : Type := mkTracking {
  listenerLimiter : reverseProxyAdjustableLimiter;
  limiters : gmap nat reverseProxyAdjustableLimiter;
  nextLimiter : nat;
  ruleConnectionLimiters : gmap Z nat;
  requestLimiters : gmap Z nat;
  upstreamLimiters : gmap Z nat;
  connectionSlotIDs : gset string;
  localConnIDs : gmap nat string;
  localConnByID : gmap string nat;
  localConnStates : gmap string connState;
  localConnAddrToID : gmap string string;
  localConnAddrByID : gmap string string;
  hijackedConnections : gmap string nat;
  pendingShards : list (lruTable (pendingSelection Sel));
  connectionCounts : gmap Z (Z * Z);           (* local and upstream *)
  nextConnID : Z;
  (* what goroutines hold outside the maps *)
  inflight : nat;
  todo : list action;
  requestLeases : list nat;
  upstreamLeases : list (Z * option nat);
  released : list Sel }.

Implicit Types (g : tracking) (id : string) (st : connState).

(** ** Updates of single fields *)

Definition setListener l g := mkTracking l (limiters g) (nextLimiter g) (ruleConnectionLimiters g)
  (requestLimiters g) (upstreamLimiters g) (connectionSlotIDs g) (localConnIDs g) (localConnByID g)
  (localConnStates g) (localConnAddrToID g) (localConnAddrByID g) (hijackedConnections g) (pendingShards g)
  (connectionCounts g) (nextConnID g) (inflight g) (todo g) (requestLeases g) (upstreamLeases g) (released g).
Definition setLimiters ls g := mkTracking (listenerLimiter g) ls (nextLimiter g) (ruleConnectionLimiters g)
  (requestLimiters g) (upstreamLimiters g) (connectionSlotIDs g) (localConnIDs g) (localConnByID g)
  (localConnStates g) (localConnAddrToID g) (localConnAddrByID g) (hijackedConnections g) (pendingShards g)
  (connectionCounts g) (nextConnID g) (inflight g) (todo g) (requestLeases g) (upstreamLeases g) (released g).
Definition setConnections slots byConn byID sts toID ofID hij n g :=
  mkTracking (listenerLimiter g) (limiters g) (nextLimiter g) (ruleConnectionLimiters g)
  (requestLimiters g) (upstreamLimiters g) slots byConn byID sts toID ofID hij (pendingShards g)
  (connectionCounts g) n (inflight g) (todo g) (requestLeases g) (upstreamLeases g) (released g).
Definition setStates sts g := setConnections (connectionSlotIDs g) (localConnIDs g) (localConnByID g) sts
  (localConnAddrToID g) (localConnAddrByID g) (hijackedConnections g) (nextConnID g) g.
Definition setHijacked hij g := setConnections (connectionSlotIDs g) (localConnIDs g) (localConnByID g)
  (localConnStates g) (localConnAddrToID g) (localConnAddrByID g) hij (nextConnID g) g.
Definition setConnIDs byConn g := setConnections (connectionSlotIDs g) byConn (localConnByID g)
  (localConnStates g) (localConnAddrToID g) (localConnAddrByID g) (hijackedConnections g) (nextConnID g) g.
Definition setPendingShards m g := mkTracking (listenerLimiter g) (limiters g) (nextLimiter g)
  (ruleConnectionLimiters g) (requestLimiters g) (upstreamLimiters g) (connectionSlotIDs g) (localConnIDs g)
  (localConnByID g) (localConnStates g) (localConnAddrToID g) (localConnAddrByID g) (hijackedConnections g) m
  (connectionCounts g) (nextConnID g) (inflight g) (todo g) (requestLeases g) (upstreamLeases g) (released g).
Definition setCounts c g := mkTracking (listenerLimiter g) (limiters g) (nextLimiter g)
  (ruleConnectionLimiters g) (requestLimiters g) (upstreamLimiters g) (connectionSlotIDs g) (localConnIDs g)
  (localConnByID g) (localConnStates g) (localConnAddrToID g) (localConnAddrByID g) (hijackedConnections g)
  (pendingShards g) c (nextConnID g) (inflight g) (todo g) (requestLeases g) (upstreamLeases g) (released g).
(** What is held outside the maps. *)
Definition setOutside n td rq up rel g := mkTracking (listenerLimiter g) (limiters g) (nextLimiter g)
  (ruleConnectionLimiters g) (requestLimiters g) (upstreamLimiters g) (connectionSlotIDs g) (localConnIDs g)
  (localConnByID g) (localConnStates g) (localConnAddrToID g) (localConnAddrByID g) (hijackedConnections g)
  (pendingShards g) (connectionCounts g) (nextConnID g) n td rq up rel.
Definition queue (actions : list action) g :=
  setOutside (inflight g) (todo g ++ actions) (requestLeases g) (upstreamLeases g) (released g) g.

(** ** Registering a connection *)

Definition acquireListenerConnectionSlot g : bool * tracking :=
  let '(ok, l) := limiterTryAcquire (listenerLimiter g) in
  (ok, if ok then setOutside (S (inflight g)) (todo g) (requestLeases g) (upstreamLeases g) (released g) (setListener l g)
       else setListener l g).

Definition uint64 (z : Z) : Z := z mod 2 ^ 64.
Definition nextConnectionIDLocked g : string * Z := let n := uint64 (nextConnID g + 1) in (itoa n, n).

(** The address part of a registration, for TCP and QUIC alike. *)
Definition bindAddress (id addrKey : string) (now : Z) g : tracking :=
  if String.eqb addrKey "" then g
  else
    let g1 := setConnections (connectionSlotIDs g) (localConnIDs g) (localConnByID g) (localConnStates g)
                (<[addrKey := id]> (localConnAddrToID g)) (<[id := addrKey]> (localConnAddrByID g))
                (hijackedConnections g) (nextConnID g) g in
    let '(m1, expired) := prunePendingCertificateSelectionsLocked addrKey now (pendingShards g1) in
    let '(m2, taken) := takePendingCertificateSelectionLocked addrKey m1 in
    let g2 := setPendingShards m2 g1 in
    let g3 := match taken with
              | Some sel =>
                  let st := default zeroState (localConnStates g2 !! id) in
                  setStates (<[id := mkConnState (RuleConnectionLimiters st) (HijackedRuleID st) (Some sel)]>
                               (localConnStates g2)) g2
              | None => g2
              end in
    queue (FreeSelection <$> expired) g3.

(** [registerTCPConnectionContext] after the permit was taken; [conn] is
    [None] for [registerQUICConnectionContext]. *)
Definition registerConnectionContext (conn : option nat) (addrKey : string) (now : Z) g : string * tracking :=
  let '(id, n) := nextConnectionIDLocked g in
  let g1 := setConnections ({[id]} ∪ connectionSlotIDs g)
              (match conn with Some c => <[c := id]> (localConnIDs g) | None => localConnIDs g end)
              (match conn with Some c => <[id := c]> (localConnByID g) | None => localConnByID g end)
              (localConnStates g) (localConnAddrToID g) (localConnAddrByID g) (hijackedConnections g) n g in
  let g2 := setOutside (Nat.pred (inflight g1)) (todo g1) (requestLeases g1) (upstreamLeases g1) (released g1) g1 in
  (id, bindAddress id addrKey now g2).

(** [ruleLimiter]: what the map of the rule held before the mutex was taken. *)
Definition registerLocalConnectionRule (ruleID : Z) id (ruleLimiter : option nat) g : bool * tracking :=
  if (ruleID =? 0) || String.eqb id "" then (true, g)
  else
    let st := default zeroState (localConnStates g !! id) in
    match RuleConnectionLimiters st !! ruleID with
    | Some _ => (true, g)
    | None =>
        let enrol g :=
          let '(lo, up) := default (0, 0) (connectionCounts g !! ruleID) in
          setCounts (<[ruleID := (lo +! 1, up)]> (connectionCounts g))
            (setStates (<[id := mkConnState (<[ruleID := ruleLimiter]> (RuleConnectionLimiters st))
                                  (HijackedRuleID st) (cs_Selection st)]> (localConnStates g)) g) in
        match ruleLimiter ≫= fun r => limiters g !! r with
        | None => (true, enrol g)
        | Some l =>
            let '(ok, l') := limiterTryAcquire l in
            let g1 := match ruleLimiter with Some r => setLimiters (<[r := l']> (limiters g)) g | None => g end in
            if ok then (true, enrol g1) else (false, g1)
        end
    end.

Definition setHijackedConnectionRule id (ruleID : Z) g : tracking :=
  if String.eqb id "" || (ruleID =? 0) then g
  else let st := default zeroState (localConnStates g !! id) in
       setStates (<[id := mkConnState (RuleConnectionLimiters st) ruleID (cs_Selection st)]> (localConnStates g)) g.

Definition markHijackedConnection (conn : nat) (addrKey : string) g : tracking :=
  let id := match localConnIDs g !! conn with
            | Some id => id
            | None => default "" (localConnAddrToID g !! addrKey)
            end in
  if String.eqb id "" then g
  else setHijacked (<[id := default conn (localConnByID g !! id)]> (hijackedConnections g)) g.

(** ** The certificate of a connection *)

Definition bindCertificateSelectionToConnection (addrKey : string) (sel : Sel) (now now' : Z) g : tracking :=
  if String.eqb (trim_space addrKey) "" then queue [FreeSelection sel] g
  else
    let '(m1, expired) := prunePendingCertificateSelectionsLocked addrKey now (pendingShards g) in
    let id := trim_space (default "" (localConnAddrToID g !! addrKey)) in
    if negb (String.eqb id "") then
      let '(m2, taken) := takePendingCertificateSelectionLocked addrKey m1 in
      let st := default zeroState (localConnStates g !! id) in
      queue (FreeSelection <$> (expired ++ option_list taken ++ option_list (cs_Selection st)))
        (setStates (<[id := mkConnState (RuleConnectionLimiters st) (HijackedRuleID st) (Some sel)]>
                      (localConnStates g)) (setPendingShards m2 g))
    else
      let '(m2, dropped) := putPendingCertificateSelectionLocked addrKey sel now' m1 in
      queue (FreeSelection <$> (expired ++ dropped)) (setPendingShards m2 g).

(** ** Giving a connection up *)

(** One rule of the loop over [state.RuleConnectionLimiters]. *)
Definition closeRule (ruleID : Z) (counts : gmap Z (Z * Z)) : gmap Z (Z * Z) :=
  let '(lo, up) := default (0, 0) (counts !! ruleID) in
  let lo := if 0 <? lo then lo - 1 else lo in
  if (lo =? 0) && (up =? 0) then delete ruleID counts else <[ruleID := (lo, up)]> counts.

Definition closeRules (rules : list Z) (counts : gmap Z (Z * Z)) : gmap Z (Z * Z) := foldr closeRule counts rules.

Definition releaseLocalConnectionByID id g : tracking :=
  if String.eqb id "" then g
  else
    let st := default zeroState (localConnStates g !! id) in
    let rules := map_to_list (RuleConnectionLimiters st) in
    let slot := bool_decide (id ∈ connectionSlotIDs g) in
    let g1 := setConnections (connectionSlotIDs g ∖ {[id]})
                (match localConnByID g !! id with Some c => delete c (localConnIDs g) | None => localConnIDs g end)
                (delete id (localConnByID g)) (delete id (localConnStates g))
                (match localConnAddrByID g !! id with
                 | Some a => if String.eqb a "" then localConnAddrToID g else delete a (localConnAddrToID g)
                 | None => localConnAddrToID g
                 end)
                (match localConnAddrByID g !! id with
                 | Some a => if String.eqb a "" then localConnAddrByID g else delete id (localConnAddrByID g)
                 | None => localConnAddrByID g
                 end)
                (delete id (hijackedConnections g)) (nextConnID g) g in
    queue ((if slot then [FreeSlot] else []) ++ (FreeSelection <$> option_list (cs_Selection st)) ++
           (FreeLimiter <$> omap snd rules))
      (setCounts (closeRules rules.*1 (connectionCounts g)) g1).

Definition releaseLocalConnectionByConn (conn : nat) (addrKey : string) g : tracking :=
  let found := default "" (localConnIDs g !! conn) in
  let g1 := setConnIDs (delete conn (localConnIDs g)) g in
  let id := if String.eqb found ""
            then (if String.eqb addrKey "" then "" else default "" (localConnAddrToID g !! addrKey))
            else found in
  if String.eqb id "" then g1 else queue [ReleaseID id] g1.

Definition releaseLocalConnectionByAddrKey (addrKey : string) g : tracking :=
  if String.eqb (trim_space addrKey) "" then g
  else let id := default "" (localConnAddrToID g !! addrKey) in
       if String.eqb id "" then g else queue [ReleaseID id] g.

(** The tunnels of rules that are gone; closing the sockets is not modelled. *)
Definition closeHijackedConnectionsForRules (ruleIDs : gset Z) g : tracking :=
  let gone := List.filter (fun x => match localConnStates g !! x.1 with
                                    | Some st => bool_decide (HijackedRuleID st ∈ ruleIDs)
                                    | None => false
                                    end) (map_to_list (hijackedConnections g)) in
  queue (ReleaseID <$> gone.*1) g.

(** [shutdown], up to closing the servers. *)
Definition shutdown g : tracking :=
  let states := (map_to_list (localConnStates g)).*2 in
  let g1 := setConnections ∅ ∅ ∅ ∅ ∅ ∅ ∅ (nextConnID g) g in
  let g2 := setCounts ∅ (setPendingShards (replicate (length (pendingShards g)) emptyTable) g1) in
  queue (replicate (size (connectionSlotIDs g)) FreeSlot ++
         (FreeSelection <$> (omap cs_Selection states ++ allSelections (pendingShards g))) ++
         (FreeLimiter <$> (states ≫= fun st => omap snd (map_to_list (RuleConnectionLimiters st))))) g2.

(** ** Requests and upstream connections *)

Definition acquireRequestSlot (ruleID : Z) g : bool * tracking :=
  if ruleID =? 0 then (true, g)
  else match requestLimiters g !! ruleID with
       | None => (true, g)
       | Some r =>
           match limiters g !! r with
           | None => (true, g)
           | Some l => let '(ok, l') := limiterTryAcquire l in
                       let g1 := setLimiters (<[r := l']> (limiters g)) g in
                       (ok, if ok then setOutside (inflight g1) (todo g1) (r :: requestLeases g1) (upstreamLeases g1)
                                         (released g1) g1 else g1)
           end
       end.

Definition releaseRef (r : nat) (ls : gmap nat reverseProxyAdjustableLimiter) := alter limiterRelease r ls.

(** The [i]-th request under way ends. *)
Definition releaseRequestSlot (i : nat) g : tracking :=
  match requestLeases g !! i with
  | None => g
  | Some r => setOutside (inflight g) (todo g) (delete i (requestLeases g)) (upstreamLeases g) (released g)
                (setLimiters (releaseRef r (limiters g)) g)
  end.

Definition acquireUpstreamConnection (ruleID : Z) g : bool * tracking :=
  if ruleID =? 0 then (true, g)
  else
    let lease ref g :=
      let '(lo, up) := default (0, 0) (connectionCounts g !! ruleID) in
      setOutside (inflight g) (todo g) (requestLeases g) ((ruleID, ref) :: upstreamLeases g) (released g)
        (setCounts (<[ruleID := (lo, up +! 1)]> (connectionCounts g)) g) in
    match upstreamLimiters g !! ruleID with
    | None => (true, lease None g)
    | Some r =>
        match limiters g !! r with
        | None => (true, lease (Some r) g)
        | Some l => let '(ok, l') := limiterTryAcquire l in
                    let g1 := setLimiters (<[r := l']> (limiters g)) g in
                    if ok then (true, lease (Some r) g1) else (false, g1)
        end
    end.

Definition closeUpstream (ruleID : Z) (counts : gmap Z (Z * Z)) : gmap Z (Z * Z) :=
  let '(lo, up) := default (0, 0) (counts !! ruleID) in
  let up := if 0 <? up then up - 1 else up in
  if (lo =? 0) && (up =? 0) then delete ruleID counts else <[ruleID := (lo, up)]> counts.

Definition releaseUpstreamConnection (i : nat) g : tracking :=
  match upstreamLeases g !! i with
  | None => g
  | Some (ruleID, ref) =>
      let g1 := setCounts (closeUpstream ruleID (connectionCounts g)) g in
      setOutside (inflight g1) (todo g1) (requestLeases g1) (delete i (upstreamLeases g1)) (released g1)
        (match ref with Some r => setLimiters (releaseRef r (limiters g1)) g1 | None => g1 end)
  end.

(** ** Limits *)

(** The limiter of a rule with its new maximum, made when the rule is new. *)
Definition refreshLimiter (previous : gmap Z nat) (ruleID limit : Z)
  (s : gmap nat reverseProxyAdjustableLimiter * nat) : nat * (gmap nat reverseProxyAdjustableLimiter * nat) :=
  let '(ls, n) := s in
  match previous !! ruleID with
  | Some r => (r, (alter (limiterSetMax limit) r ls, n))
  | None => (n, (<[n := limiterSetMax limit (mkLimiter 0 0)]> ls, S n))
  end.

(** A rule and its three limits: connections, requests, upstream connections. *)
Record ruleLimit : Type := mkRuleLimit { rl_Id : Z; rl_Connections : Z; rl_Requests : Z; rl_Upstream : Z }.

Fixpoint refreshRules (g0 : tracking) (rules : list (option ruleLimit))
  (maps : gmap Z nat * gmap Z nat * gmap Z nat) (s : gmap nat reverseProxyAdjustableLimiter * nat)
  : gmap Z nat * gmap Z nat * gmap Z nat * (gmap nat reverseProxyAdjustableLimiter * nat) :=
  match rules with
  | [] => (maps, s)
  | None :: rest => refreshRules g0 rest maps s
  | Some rule :: rest =>
      if rl_Id rule =? 0 then refreshRules g0 rest maps s
      else
        let '(mc, mr, mu) := maps in
        let '(rc, s1) := refreshLimiter (ruleConnectionLimiters g0) (rl_Id rule) (reverseProxyRuleLimit (rl_Connections rule)) s in
        let '(rr, s2) := refreshLimiter (requestLimiters g0) (rl_Id rule) (reverseProxyRuleLimit (rl_Requests rule)) s1 in
        let '(ru, s3) := refreshLimiter (upstreamLimiters g0) (rl_Id rule) (reverseProxyRuleLimit (rl_Upstream rule)) s2 in
        refreshRules g0 rest (<[rl_Id rule := rc]> mc, <[rl_Id rule := rr]> mr, <[rl_Id rule := ru]> mu) s3
  end.

Definition configureRuleLimitersLocked (rules : list (option ruleLimit)) (listenerLimit : Z) g : tracking :=
  let '(mc, mr, mu, (ls, n)) := refreshRules g rules (∅, ∅, ∅) (limiters g, nextLimiter g) in
  mkTracking (limiterSetMax listenerLimit (listenerLimiter g)) ls n mc mr mu (connectionSlotIDs g) (localConnIDs g)
    (localConnByID g) (localConnStates g) (localConnAddrToID g) (localConnAddrByID g) (hijackedConnections g)
    (pendingShards g) (connectionCounts g) (nextConnID g) (inflight g) (todo g) (requestLeases g) (upstreamLeases g)
    (released g).

(** One queued action. *)
Definition runAction (a : action) g : tracking :=
  match a with
  | FreeSlot => setListener (limiterRelease (listenerLimiter g)) g
  | FreeLimiter r => setLimiters (releaseRef r (limiters g)) g
  | FreeSelection sel =>
      setOutside (inflight g) (todo g) (requestLeases g) (upstreamLeases g) (released g ++ [sel]) g
  | ReleaseID id => releaseLocalConnectionByID id g
  end.
Definition runQueued (i : nat) g : tracking :=
  match todo g !! i with
  | None => g
  | Some a => runAction a (setOutside (inflight g) (delete i (todo g)) (requestLeases g) (upstreamLeases g) (released g) g)
  end.
End Tracking.
Arguments tracking : clear implicits.
Arguments connState : clear implicits.
Arguments action : clear implicits.
