(* ===== verification/ConnTrackingCorrect.v ===== *)
(** * Tracking of client connections: nothing is lost

    Every permit of a limiter and every certificate a listener group has
    taken is held in exactly one place: by a registration under way, in one
    of the maps, in the queue of what is being given back, by a request or by
    an upstream connection.  The theorems count these holders. *)

From stdpp Require Import base gmap list strings sorting.
From Stdlib Require Import Ascii ZArith Lia Permutation.
From AAC_tactics Require Import AAC.
From AAC_tactics Require Instances.
Import Instances.Lists.
From S2P Require Import Prelude GoStrings Memory LruTable CertBalance RuntimeTables ConnTracking.

#[local] Open Scope Z_scope.
#[local] Open Scope go_scope.

(** Reordering of concatenations. *)
#[local] Instance permutation_lift A : AAC_lift (@Permutation A) (@Permutation A).
Proof. split; typeclasses eauto. Qed.

Section Correct.
Context {Sel : Type}.
Notation tracking := (tracking Sel).
Notation connState := (connState Sel).
Notation action := (action Sel).
Implicit Types (g : tracking) (id : string) (st : connState) (a : action).

(** Reads a field of an updated group. *)
Ltac fields := cbn [setListener setLimiters setConnections setStates setHijacked setConnIDs setPendingShards
  setCounts setOutside queue listenerLimiter limiters nextLimiter ruleConnectionLimiters requestLimiters
  upstreamLimiters connectionSlotIDs localConnIDs localConnByID localConnStates localConnAddrToID
  localConnAddrByID hijackedConnections pendingShards connectionCounts nextConnID inflight todo requestLeases
  upstreamLeases released].

(** ** Holders *)

Inductive resource : Type :=
| RSlot                       (* a permit of the listener *)
| RLimiter (ref : nat)        (* a permit of a limiter *)
| ROpen (ruleID : Z)          (* a connection counted for a rule *)
| RSel (sel : Sel).           (* a certificate *)

Definition ruleRes (x : Z * option nat) : list resource := ROpen x.1 :: option_list (RLimiter <$> x.2).

Definition stateRes st : list resource :=
  (map_to_list (RuleConnectionLimiters st) ≫= ruleRes) ++ (RSel <$> option_list (cs_Selection st)).

Definition actionRes a : list resource :=
  match a with
  | FreeSlot => [RSlot]
  | FreeLimiter r => [RLimiter r]
  | FreeSelection sel => [RSel sel]
  | ReleaseID _ => []
  end.

Definition statesRes (sts : gmap string connState) : list resource := (map_to_list sts).*2 ≫= stateRes.

Definition held g : list resource :=
  replicate (inflight g) RSlot ++ replicate (size (connectionSlotIDs g)) RSlot ++
  statesRes (localConnStates g) ++ (RSel <$> allSelections (pendingShards g)) ++
  (todo g ≫= actionRes) ++ (RLimiter <$> requestLeases g) ++ (RLimiter <$> omap snd (upstreamLeases g)).

Definition isSlot (x : resource) : bool := match x with RSlot => true | _ => false end.
Definition isLimiter (r : nat) (x : resource) : bool := match x with RLimiter r' => bool_decide (r' = r) | _ => false end.
Definition isOpen (ruleID : Z) (x : resource) : bool := match x with ROpen i => i =? ruleID | _ => false end.
Definition selOf (x : resource) : option Sel := match x with RSel s => Some s | _ => None end.

Definition count (p : resource -> bool) (l : list resource) : Z := Z.of_nat (length (List.filter p l)).

Lemma count_app p l k : count p (l ++ k) = count p l + count p k.
Proof. unfold count. rewrite List.filter_app, length_app. lia. Qed.

Lemma count_cons p x l : count p (x :: l) = (if p x then 1 else 0) + count p l.
Proof. unfold count. simpl. destruct (p x); simpl; lia. Qed.

Lemma count_nil p : count p [] = 0.
Proof. done. Qed.

Lemma count_nonneg p l : 0 <= count p l.
Proof. unfold count. lia. Qed.

Lemma count_perm p l k : l ≡ₚ k -> count p l = count p k.
Proof. induction 1; rewrite ?count_cons; lia. Qed.

Lemma count_le p l : count p l <= Z.of_nat (length l).
Proof. induction l as [|x l IH]; [done|]. rewrite count_cons. cbn [length]. destruct (p x); lia. Qed.

Lemma count_pos p x l : x ∈ l -> p x = true -> 0 < count p l.
Proof.
  intros Hin Hp. induction l as [|y l IH]; [by apply not_elem_of_nil in Hin|].
  rewrite count_cons. pose proof (count_nonneg p l). apply elem_of_cons in Hin as [<-|Hin]; [rewrite Hp; lia|].
  specialize (IH Hin). destruct (p y); lia.
Qed.

(** ** Balance *)

Definition localOpen (counts : gmap Z (Z * Z)) (ruleID : Z) : Z := (default (0, 0) (counts !! ruleID)).1.

(** The books of [g] agree with a list of holders. *)
Record Balanced g (bound : list Sel) (H : list resource) : Prop := {
  b_slot : active (listenerLimiter g) = count isSlot H;
  b_limiter : forall r l, limiters g !! r = Some l -> active l = count (isLimiter r) H;
  b_ref : forall r, RLimiter r ∈ H -> is_Some (limiters g !! r);
  b_open : forall ruleID, localOpen (connectionCounts g) ruleID = count (isOpen ruleID) H;
  b_sel : bound ≡ₚ omap selOf H ++ released g;
  b_small : Z.of_nat (length H) <= max_i64 }.

Lemma Balanced_perm g bound H H' : H ≡ₚ H' -> Balanced g bound H -> Balanced g bound H'.
Proof.
  intros Hp [H1 H2 H3 H4 H5 H6]. split.
  - by rewrite <-(count_perm _ _ _ Hp).
  - intros r l Hl. rewrite <-(count_perm _ _ _ Hp). by apply H2.
  - intros r. rewrite <-Hp. apply H3.
  - intros ruleID. by rewrite <-(count_perm _ _ _ Hp).
  - by rewrite <-Hp.
  - by rewrite <-Hp.
Qed.

(** Same books, other maps. *)
Lemma Balanced_frame g g' bound H :
  listenerLimiter g' = listenerLimiter g -> limiters g' = limiters g -> released g' = released g ->
  connectionCounts g' = connectionCounts g -> Balanced g bound H -> Balanced g' bound H.
Proof. intros E1 E2 E3 E4 [H1 H2 H3 H4 H5 H6]. split; rewrite ?E1, ?E2, ?E3, ?E4; done. Qed.

(** ** The structure of the maps *)

Definition issued g id : Prop := exists k, 1 <= k <= nextConnID g /\ id = itoa k.

Record Shape g : Prop := {
  s_next : 0 <= nextConnID g <= max_i64;
  s_slots : forall id, id ∈ connectionSlotIDs g -> issued g id;
  s_states : forall id, is_Some (localConnStates g !! id) -> issued g id;
  s_addr : forall key id, localConnAddrToID g !! key = Some id -> issued g id;
  s_shards : length (pendingShards g) = 16%nat;
  s_tables : Forall TableInv (pendingShards g);
  s_refs : forall i r, ruleConnectionLimiters g !! i = Some r \/ requestLimiters g !! i = Some r \/
                       upstreamLimiters g !! i = Some r -> is_Some (limiters g !! r);
  s_fresh : forall r, is_Some (limiters g !! r) -> (r < nextLimiter g)%nat }.

(** The books of [g] agree with what [g] holds. *)
Definition Inv g (bound : list Sel) : Prop := Shape g /\ Balanced g bound (held g).

Lemma itoa_trim k : 0 <= k -> trim_space (itoa k) = itoa k.
Proof.
  intros Hk. apply trim_space_plain. eapply allc_impl; [apply digit_plain|]. by apply itoa_all_digits.
Qed.

Lemma itoa_nonempty k : 0 <= k -> itoa k <> "".
Proof. intros Hk E. destruct (itoa_cons k Hk) as (c & s & H & _). congruence. Qed.

Lemma issued_nonempty g id : issued g id -> id <> "".
Proof. intros (k & Hk & ->). apply itoa_nonempty. lia. Qed.

(** ** Holders of the connections *)

Lemma statesRes_insert sts id st :
  statesRes (<[id := st]> sts) ≡ₚ stateRes st ++ statesRes (delete id sts).
Proof.
  unfold statesRes. rewrite <-insert_delete_eq, map_to_list_insert by apply lookup_delete_eq. done.
Qed.

Lemma statesRes_delete sts id :
  statesRes sts ≡ₚ stateRes (default zeroState (sts !! id)) ++ statesRes (delete id sts).
Proof.
  destruct (sts !! id) as [st|] eqn:E; simpl.
  - rewrite <-(insert_id sts id st E) at 1. apply statesRes_insert.
  - by rewrite delete_id.
Qed.

Lemma statesRes_update sts id st extra :
  stateRes st ≡ₚ extra ++ stateRes (default zeroState (sts !! id)) ->
  statesRes (<[id := st]> sts) ≡ₚ extra ++ statesRes sts.
Proof. intros H. by rewrite statesRes_insert, H, (statesRes_delete sts id), app_assoc. Qed.

Lemma stateRes_sel m h sel : stateRes (mkConnState m h (Some sel)) ≡ₚ RSel sel :: stateRes (mkConnState m h None).
Proof. unfold stateRes. simpl. by rewrite Permutation_app_comm, app_nil_r. Qed.

Lemma stateRes_none st : stateRes st ≡ₚ (RSel <$> option_list (cs_Selection st)) ++
  stateRes (mkConnState (RuleConnectionLimiters st) (HijackedRuleID st) None).
Proof. unfold stateRes. cbn. by rewrite app_nil_r, Permutation_app_comm. Qed.

Lemma actions_sel (l : list Sel) : (FreeSelection <$> l) ≫= actionRes = RSel <$> l.
Proof. induction l as [|s l IH]; [done|]. cbn. by rewrite <-IH. Qed.

Lemma actions_app (l k : list action) : (l ++ k) ≫= actionRes = (l ≫= actionRes) ++ (k ≫= actionRes).
Proof. apply bind_app. Qed.

Lemma actions_limiters (l : list nat) : (FreeLimiter <$> l : list action) ≫= actionRes = RLimiter <$> l.
Proof. induction l as [|s l IH]; [done|]. cbn. by rewrite <-IH. Qed.

Lemma actions_ids (l : list string) : (ReleaseID <$> l : list action) ≫= actionRes = [].
Proof. by induction l. Qed.

(** ** Changes of the holders *)

(** The parts of [held] that one operation does not touch stay as they are. *)
Definition heldWith (n s : nat) (st pd td rq up : list resource) : list resource :=
  replicate n RSlot ++ replicate s RSlot ++ st ++ pd ++ td ++ rq ++ up.

Lemma held_eq g : held g = heldWith (inflight g) (size (connectionSlotIDs g)) (statesRes (localConnStates g))
  (RSel <$> allSelections (pendingShards g)) (todo g ≫= actionRes) (RLimiter <$> requestLeases g)
  (RLimiter <$> omap snd (upstreamLeases g)).
Proof. done. Qed.

Lemma held_queue actions g : held (queue actions g) ≡ₚ (actions ≫= actionRes) ++ held g.
Proof. rewrite !held_eq. unfold heldWith. fields. rewrite actions_app. aac_reflexivity. Qed.

(** A permit taken. *)
Lemma Balanced_slot g bound H l : Balanced g bound H -> limiterTryAcquire (listenerLimiter g) = (true, l) ->
  Z.of_nat (length H) < max_i64 -> Balanced (setListener l g) bound (RSlot :: H).
Proof.
  intros [H1 H2 H3 H4 H5 H6] Hl Hb. unfold limiterTryAcquire in Hl. destruct (_ && _); [done|]. injection Hl as <-.
  pose proof (count_nonneg isSlot H). pose proof (count_le isSlot H). split; cbn.
  - rewrite wrap64_id by in_range. rewrite H1, count_cons. cbn. lia.
  - intros r l Hr. rewrite count_cons. cbn. by apply H2.
  - intros r. rewrite elem_of_cons. intros [|Hin]; [done|by apply H3].
  - intros ruleID. rewrite count_cons. cbn. by rewrite H4.
  - done.
  - lia.
Qed.

Lemma Balanced_limiter g bound H r l l' : Balanced g bound H -> limiters g !! r = Some l ->
  limiterTryAcquire l = (true, l') -> Z.of_nat (length H) < max_i64 ->
  Balanced (setLimiters (<[r := l']> (limiters g)) g) bound (RLimiter r :: H).
Proof.
  intros [H1 H2 H3 H4 H5 H6] Hr Hl Hb. unfold limiterTryAcquire in Hl. destruct (_ && _); [done|]. injection Hl as <-.
  pose proof (count_nonneg (isLimiter r) H). pose proof (count_le (isLimiter r) H). split; cbn.
  - by rewrite count_cons.
  - intros r' l0. rewrite count_cons. cbn. destruct (decide (r' = r)) as [->|Hne].
    + rewrite lookup_insert_eq, bool_decide_true by done. intros [= <-]. cbn.
      rewrite (H2 r l Hr). rewrite wrap64_id by in_range. lia.
    + rewrite lookup_insert_ne, bool_decide_false by done. intros Hr'. rewrite (H2 r' l0 Hr'). lia.
  - intros r'. rewrite elem_of_cons. intros Hin. destruct (decide (r' = r)) as [->|Hne].
    + rewrite lookup_insert_eq. by eexists.
    + rewrite lookup_insert_ne by done. destruct Hin as [[= ->]|Hin]; [done|by apply H3].
  - intros ruleID. rewrite count_cons. cbn. by rewrite H4.
  - done.
  - lia.
Qed.

(** A permit that was refused changes nothing. *)
Lemma refused_same g r l l' : limiters g !! r = Some l ->
  limiterTryAcquire l = (false, l') -> setLimiters (<[r := l']> (limiters g)) g = g.
Proof.
  intros Hr Hl. unfold limiterTryAcquire in Hl. destruct (_ && _); [|done]. injection Hl as <-.
  rewrite insert_id by done. by destruct g.
Qed.

(** A permit given back. *)
Lemma limiterRelease_active l n : active l = 1 + n -> 0 <= n <= max_i64 -> active (limiterRelease l) = n.
Proof.
  intros Ha Hn. unfold limiterRelease. destruct (Z.ltb_spec 0 (active l)); [|lia]. cbn. rewrite Ha.
  rewrite wrap64_id by in_range. lia.
Qed.

Lemma Balanced_freeSlot g bound H : Balanced g bound (RSlot :: H) ->
  Balanced (setListener (limiterRelease (listenerLimiter g)) g) bound H.
Proof.
  intros [H1 H2 H3 H4 H5 H6]. rewrite count_cons in H1. cbn in H1, H6. pose proof (count_nonneg isSlot H).
  pose proof (count_le isSlot H). split; cbn.
  - apply limiterRelease_active; [done|lia].
  - intros r l Hr. rewrite (H2 r l Hr), count_cons. done.
  - intros r Hin. apply H3. by right.
  - intros ruleID. rewrite H4, count_cons. done.
  - done.
  - lia.
Qed.

Lemma Balanced_freeLimiter g bound H r : Balanced g bound (RLimiter r :: H) ->
  Balanced (setLimiters (releaseRef r (limiters g)) g) bound H.
Proof.
  intros [H1 H2 H3 H4 H5 H6]. rewrite count_cons in H1. cbn in H1, H6. pose proof (count_nonneg (isLimiter r) H).
  pose proof (count_le (isLimiter r) H). unfold releaseRef. split; cbn.
  - done.
  - intros r' l. rewrite lookup_alter_Some. intros [(-> & l0 & Hl0 & ->)|[Hne Hl]].
    + apply limiterRelease_active; [|lia]. rewrite (H2 r' l0 Hl0), count_cons. cbn. by rewrite bool_decide_true.
    + rewrite (H2 r' l Hl), count_cons. cbn. rewrite bool_decide_false; [lia|done].
  - intros r' Hin. rewrite lookup_alter_is_Some. apply H3. by right.
  - intros ruleID. rewrite H4, count_cons. done.
  - done.
  - lia.
Qed.

Lemma Balanced_sel g bound H sel : Balanced g bound H -> Z.of_nat (length H) < max_i64 ->
  Balanced g (sel :: bound) (RSel sel :: H).
Proof.
  intros [H1 H2 H3 H4 H5 H6] Hb. split; cbn.
  - by rewrite count_cons.
  - intros r l Hr. rewrite count_cons. by apply H2.
  - intros r. rewrite elem_of_cons. intros [|Hin]; [done|by apply H3].
  - intros ruleID. rewrite count_cons. by rewrite H4.
  - by rewrite H5.
  - lia.
Qed.

Lemma Balanced_freeSel g bound H sel : Balanced g bound (RSel sel :: H) ->
  Balanced (setOutside (inflight g) (todo g) (requestLeases g) (upstreamLeases g) (released g ++ [sel]) g) bound H.
Proof.
  intros [H1 H2 H3 H4 H5 H6]. cbn in H6. split; cbn.
  - by rewrite H1, count_cons.
  - intros r l Hr. rewrite (H2 r l Hr), count_cons. done.
  - intros r Hin. apply H3. by right.
  - intros ruleID. rewrite H4, count_cons. done.
  - rewrite H5. cbn. by rewrite app_assoc, <-Permutation_cons_append.
  - lia.
Qed.

(** A connection counted for a rule, and not any more. *)
Lemma Balanced_open g bound H ruleID lo up : Balanced g bound H -> Z.of_nat (length H) < max_i64 ->
  default (0, 0) (connectionCounts g !! ruleID) = (lo, up) ->
  Balanced (setCounts (<[ruleID := (lo +! 1, up)]> (connectionCounts g)) g) bound (ROpen ruleID :: H).
Proof.
  intros [H1 H2 H3 H4 H5 H6] Hb Hc. pose proof (H4 ruleID) as Hlo. unfold localOpen in Hlo. rewrite Hc in Hlo.
  cbn in Hlo. pose proof (count_nonneg (isOpen ruleID) H). pose proof (count_le (isOpen ruleID) H). split; cbn.
  - by rewrite count_cons.
  - intros r l Hr. rewrite count_cons. by apply H2.
  - intros r. rewrite elem_of_cons. intros [|Hin]; [done|by apply H3].
  - intros i. rewrite count_cons. cbn. unfold localOpen. destruct (Z.eqb_spec ruleID i) as [<-|Hne].
    + rewrite lookup_insert_eq. cbn. rewrite wrap64_id by in_range. lia.
    + rewrite lookup_insert_ne by done. fold (localOpen (connectionCounts g) i). by rewrite H4.
  - done.
  - lia.
Qed.

Lemma localOpen_closeRule counts ruleID i : 0 < localOpen counts ruleID ->
  localOpen (closeRule ruleID counts) i = localOpen counts i - if ruleID =? i then 1 else 0.
Proof.
  unfold closeRule, localOpen. destruct (default (0, 0) (counts !! ruleID)) as [lo up] eqn:E. cbn. intros Hlo.
  destruct (Z.ltb_spec 0 lo); [|lia]. destruct (Z.eqb_spec ruleID i) as [<-|Hne].
  - rewrite E. cbn. destruct ((lo - 1 =? 0) && (up =? 0)) eqn:Ez.
    + rewrite lookup_delete_eq. cbn. rewrite andb_true_iff, Z.eqb_eq in Ez. lia.
    + by rewrite lookup_insert_eq.
  - destruct (_ && _); [rewrite lookup_delete_ne by done|rewrite lookup_insert_ne by done]; lia.
Qed.

Lemma Balanced_close rules : forall g bound H, Balanced g bound ((ROpen <$> rules) ++ H) ->
  Balanced (setCounts (closeRules rules (connectionCounts g)) g) bound H.
Proof.
  induction rules as [|i rules IH]; intros g bound H Hb.
  { apply (Balanced_frame g); [done..|exact Hb]. }
  assert (Balanced g bound ((ROpen <$> rules) ++ ROpen i :: H)) as Hb'.
  { eapply Balanced_perm; [|exact Hb]. cbn. by rewrite Permutation_middle. }
  apply IH in Hb'. destruct Hb' as [H1 H2 H3 H4 H5 H6]. cbn [length] in H6. split; fields.
  - exact H1.
  - exact H2.
  - intros r Hin. apply H3. by right.
  - intros j. cbn [closeRules foldr]. fold (closeRules rules (connectionCounts g)).
    revert H4. fields. intros H4. rewrite localOpen_closeRule.
    + rewrite H4, count_cons. cbn. lia.
    + rewrite H4, count_cons. cbn. rewrite Z.eqb_refl. pose proof (count_nonneg (isOpen i) H). lia.
  - done.
  - lia.
Qed.

(** ** The operations *)

Lemma Inv_queue g bound actions : Shape g -> Balanced g bound ((actions ≫= actionRes) ++ held g) ->
  Inv (queue actions g) bound.
Proof.
  intros Hs Hb. split; [by destruct Hs|]. eapply Balanced_perm; [symmetry; apply held_queue|].
  apply (Balanced_frame g); [done..|exact Hb].
Qed.

Lemma acquireSlot_inv g bound : Inv g bound -> Z.of_nat (length (held g)) < max_i64 ->
  Inv (acquireListenerConnectionSlot g).2 bound.
Proof.
  intros [Hs Hb] Hl. unfold acquireListenerConnectionSlot.
  destruct (limiterTryAcquire (listenerLimiter g)) as [[] l] eqn:E; cbn [snd].
  - split; [by destruct Hs|]. apply (Balanced_frame (setListener l g)); [done..|exact (Balanced_slot _ _ _ _ Hb E Hl)].
  - unfold limiterTryAcquire in E. destruct (_ && _); [|done]. injection E as <-. by destruct g.
Qed.

(** The states of a connection with another certificate or mark. *)
Lemma stateRes_fields st m h : RuleConnectionLimiters st = m ->
  stateRes (mkConnState m h (cs_Selection st)) = stateRes st.
Proof. by intros <-. Qed.

Lemma Shape_states g sts : Shape g -> (forall id, is_Some (sts !! id) -> issued g id) -> Shape (setStates sts g).
Proof. intros [? ? ? ? ? ? ? ?] H. by split. Qed.

Lemma Shape_insert g id st : Shape g -> issued g id -> Shape (setStates (<[id := st]> (localConnStates g)) g).
Proof.
  intros Hs Hid. apply Shape_states; [done|]. intros id'. rewrite lookup_insert_is_Some'.
  intros [<-|H]; [done|by apply (s_states g Hs)].
Qed.

Lemma Shape_pending g m : Shape g -> length m = 16%nat -> Forall TableInv m -> Shape (setPendingShards m g).
Proof. intros [? ? ? ? ? ? ? ?] ? ?. by split. Qed.

Lemma held_setStates g sts : held (setStates sts g) ++ statesRes (localConnStates g) ≡ₚ statesRes sts ++ held g.
Proof. rewrite !held_eq. unfold heldWith. fields. aac_reflexivity. Qed.

Lemma held_update g id st extra : stateRes st ≡ₚ extra ++ stateRes (default zeroState (localConnStates g !! id)) ->
  held (setStates (<[id := st]> (localConnStates g)) g) ≡ₚ extra ++ held g.
Proof.
  intros H. apply (Permutation_app_inv_r (statesRes (localConnStates g))).
  rewrite held_setStates, (statesRes_update _ _ _ _ H). aac_reflexivity.
Qed.

Lemma held_pending g m : held (setPendingShards m g) ++ (RSel <$> allSelections (pendingShards g)) ≡ₚ
  (RSel <$> allSelections m) ++ held g.
Proof. rewrite !held_eq. unfold heldWith. fields. aac_reflexivity. Qed.

(** Selections that leave the pending table. *)
Lemma held_unpend g m rel : allSelections (pendingShards g) ≡ₚ rel ++ allSelections m ->
  (RSel <$> rel) ++ held (setPendingShards m g) ≡ₚ held g.
Proof.
  intros H. apply (Permutation_app_inv_r (RSel <$> allSelections (pendingShards g))).
  rewrite <-app_assoc, held_pending, H, fmap_app. aac_reflexivity.
Qed.

Lemma Inv_frame g g' bound : Inv g bound -> Shape g' -> held g' ≡ₚ held g ->
  listenerLimiter g' = listenerLimiter g -> limiters g' = limiters g -> released g' = released g ->
  connectionCounts g' = connectionCounts g -> Inv g' bound.
Proof.
  intros [_ Hb] Hs Hh E1 E2 E3 E4. split; [done|]. eapply Balanced_perm; [by symmetry|].
  by apply (Balanced_frame g).
Qed.

(** The state of a connection that receives a certificate. *)
Lemma stateRes_give st sel : cs_Selection st = None ->
  stateRes (mkConnState (RuleConnectionLimiters st) (HijackedRuleID st) (Some sel)) ≡ₚ [RSel sel] ++ stateRes st.
Proof. intros E. rewrite stateRes_sel, (stateRes_none st), E. done. Qed.

Lemma bindAddress_inv id addrKey now g bound : Inv g bound -> issued g id ->
  cs_Selection (default zeroState (localConnStates g !! id)) = None -> Inv (bindAddress id addrKey now g) bound.
Proof.
  intros Hi Hid Hsel. unfold bindAddress. destruct (String.eqb addrKey ""); [done|].
  destruct Hi as [Hs Hb]. set (g1 := setConnections _ _ _ _ _ _ _ _ g).
  assert (Shape g1) as Hs1.
  { destruct Hs as [Sn Ss St Sa Sl Sf Sr Sx]. split; try done. intros key id'. cbn.
    destruct (decide (key = addrKey)) as [->|]; [rewrite lookup_insert_eq; by intros [= <-]|].
    rewrite lookup_insert_ne by done. apply Sa. }
  pose proof (prunePendingLocked_spec addrKey now (pendingShards g1) (s_shards _ Hs1) (s_tables _ Hs1)) as Hp.
  destruct (prunePendingCertificateSelectionsLocked addrKey now (pendingShards g1)) as [m1 expired].
  destruct Hp as (Hl1 & Ht1 & Hp1). pose proof (takePendingLocked_spec addrKey m1 Hl1 Ht1) as Hp.
  destruct (takePendingCertificateSelectionLocked addrKey m1) as [m2 taken]. destruct Hp as (Hl2 & Ht2 & Hp2).
  set (g2 := setPendingShards m2 g1).
  assert ((RSel <$> expired) ++ (RSel <$> option_list taken) ++ held g2 ≡ₚ held g) as Hh.
  { change (held g) with (held g1). rewrite app_assoc, <-fmap_app. apply held_unpend.
    rewrite Hp1, Hp2. aac_reflexivity. }
  assert (Shape g2) as Hs2 by (by apply Shape_pending).
  apply Inv_queue.
  - destruct taken as [sel|]; [|done]. by apply Shape_insert.
  - rewrite actions_sel. eapply Balanced_perm; [|eapply (Balanced_frame g); [..|exact Hb]];
      [|by destruct taken..].
    rewrite <-Hh. apply Permutation_app_head. destruct taken as [sel|]; [|done].
    symmetry. apply held_update. by apply stateRes_give.
Qed.

Lemma replicate_slot n : replicate (S n) RSlot = [RSlot] ++ replicate n RSlot.
Proof. done. Qed.

Lemma fresh_id g : Shape g -> nextConnID g < max_i64 -> itoa (nextConnID g + 1) ∉ connectionSlotIDs g /\
  localConnStates g !! itoa (nextConnID g + 1) = None.
Proof.
  intros Hs Hn. pose proof (s_next g Hs) as Hp.
  assert (~ issued g (itoa (nextConnID g + 1))) as Hni.
  { intros (k & Hk & E). apply itoa_inj in E; lia. }
  split; [intros H%(s_slots g Hs); done|].
  destruct (localConnStates g !! itoa (nextConnID g + 1)) eqn:E; [|done]. destruct Hni. apply (s_states g Hs). by rewrite E.
Qed.

Lemma registerConnection_inv conn addrKey now g bound : Inv g bound -> (0 < inflight g)%nat ->
  nextConnID g < max_i64 -> Inv (registerConnectionContext conn addrKey now g).2 bound.
Proof.
  intros [Hs Hb] Hin Hn. pose proof (s_next g Hs) as Hp. destruct (fresh_id g Hs Hn) as [Hslot Hst].
  unfold registerConnectionContext, nextConnectionIDLocked.
  assert (uint64 (nextConnID g + 1) = nextConnID g + 1) as Hu.
  { unfold uint64. apply Z.mod_small. unfold max_i64 in *. lia. }
  rewrite Hu. set (id := itoa (nextConnID g + 1)) in *. cbn [snd].
  set (g1 := setConnections _ _ _ _ _ _ _ _ g). set (g2 := setOutside _ _ _ _ _ g1).
  assert (forall x, issued g x -> issued g2 x) as Hmono.
  { intros x (k & Hk & ->). exists k. split; [cbn; lia|done]. }
  assert (issued g2 id) as Hid by (exists (nextConnID g + 1); split; [cbn; lia|done]).
  apply bindAddress_inv; [|done|cbn; by rewrite Hst].
  apply (Inv_frame g); try done.
  - destruct Hs as [Sn Ss St Sa Sl Sf Sr Sx]. split; try done.
    + cbn. lia.
    + intros x. cbn. rewrite elem_of_union, elem_of_singleton. intros [->|H]; [done|by apply Hmono, Ss].
    + intros x H. by apply Hmono, St.
    + intros key x H. by eapply Hmono, Sa.
  - rewrite !held_eq. unfold heldWith. unfold g2, g1. fields. rewrite size_union by set_solver. rewrite size_singleton.
    destruct (inflight g) as [|n]; [lia|]. cbn [Nat.pred].
    cbn [Nat.add]. rewrite !replicate_slot. aac_reflexivity.
Qed.

(** ** Rules of a connection *)

Lemma stateRes_enrol st ruleID ref : RuleConnectionLimiters st !! ruleID = None ->
  stateRes (mkConnState (<[ruleID := ref]> (RuleConnectionLimiters st)) (HijackedRuleID st) (cs_Selection st)) ≡ₚ
  ruleRes (ruleID, ref) ++ stateRes st.
Proof. intros E. unfold stateRes. cbn. rewrite map_to_list_insert by done. cbn. by rewrite app_comm_cons, app_assoc. Qed.

(** [enrol] of [registerLocalConnectionRule], with the permit already taken. *)
Lemma enrol_inv ruleID id ref st g bound lo up : Shape g -> issued g id ->
  st = default zeroState (localConnStates g !! id) -> RuleConnectionLimiters st !! ruleID = None ->
  default (0, 0) (connectionCounts g !! ruleID) = (lo, up) ->
  Balanced g bound (option_list (RLimiter <$> ref) ++ held g) ->
  Z.of_nat (length (option_list (RLimiter <$> ref) ++ held g)) < max_i64 ->
  Inv (setCounts (<[ruleID := (lo +! 1, up)]> (connectionCounts g))
        (setStates (<[id := mkConnState (<[ruleID := ref]> (RuleConnectionLimiters st)) (HijackedRuleID st)
                              (cs_Selection st)]> (localConnStates g)) g)) bound.
Proof.
  intros Hs Hid Hst Hr Hc Hb Hl. split.
  - pose proof (Shape_insert g id (mkConnState (<[ruleID := ref]> (RuleConnectionLimiters st)) (HijackedRuleID st)
      (cs_Selection st)) Hs Hid) as [? ? ? ? ? ? ? ?]. by split.
  - pose proof (Balanced_open _ _ _ _ _ _ Hb Hl Hc) as Hb'. eapply Balanced_perm.
    2:{ eapply (Balanced_frame (setCounts _ g)); [..|exact Hb']; done. }
    match goal with |- _ ≡ₚ held (setCounts ?c ?x) => change (held (setCounts c x)) with (held x) end.
    symmetry. apply (held_update g id _ (ruleRes (ruleID, ref))). rewrite <-Hst. by apply stateRes_enrol.
Qed.

Lemma registerRule_inv ruleID id ref g bound : Inv g bound -> issued g id ->
  (forall r, ref = Some r -> is_Some (limiters g !! r)) -> Z.of_nat (length (held g)) + 1 < max_i64 ->
  Inv (registerLocalConnectionRule ruleID id ref g).2 bound.
Proof.
  intros [Hs Hb] Hid Href Hl. unfold registerLocalConnectionRule. destruct (_ || _); [done|].
  set (st := default zeroState (localConnStates g !! id)).
  destruct (RuleConnectionLimiters st !! ruleID) eqn:Er; [done|].
  destruct (default (0, 0) (connectionCounts g !! ruleID)) as [lo up] eqn:Ec.
  destruct ref as [r|]; cbn [mbind option_bind].
  - destruct (Href r eq_refl) as [l El]. rewrite El. destruct (limiterTryAcquire l) as [[] l'] eqn:Et; cbn [snd].
    + fields. rewrite Ec. cbn [snd].
      apply (enrol_inv ruleID id (Some r) st (setLimiters (<[r := l']> (limiters g)) g)); try done.
      * destruct Hs as [Sn Ss St Sa Sl Sf Sr Sx]. split; try done; fields.
        -- intros i r' H%Sr. by rewrite lookup_insert_is_Some'; right.
        -- intros r'. rewrite lookup_insert_is_Some'. intros [<-|H]; apply Sx; [by rewrite El|done].
      * exact (Balanced_limiter g bound (held g) r l l' Hb El Et ltac:(lia)).
      * change (Z.of_nat (S (length (held g))) < max_i64). lia.
    + by rewrite (refused_same g r l l').
  - fields. rewrite ?Ec. cbn [snd]. apply enrol_inv; try done. cbn. lia.
Qed.

Lemma setHijackedRule_inv id ruleID g bound : Inv g bound -> issued g id ->
  Inv (setHijackedConnectionRule id ruleID g) bound.
Proof.
  intros [Hs Hb] Hid. unfold setHijackedConnectionRule. destruct (_ || _); [done|].
  apply (Inv_frame g); try done; [by apply Shape_insert|].
  apply (held_update g id _ []). by rewrite stateRes_fields.
Qed.

Lemma markHijacked_inv conn addrKey g bound : Inv g bound -> Inv (markHijackedConnection conn addrKey g) bound.
Proof.
  intros Hi. unfold markHijackedConnection. destruct (String.eqb _ ""); [done|].
  destruct Hi as [[? ? ? ? ? ? ? ?] Hb]. by apply (Inv_frame g).
Qed.

(** ** The certificate of a connection *)

Lemma bindCertificate_inv addrKey sel now now' g bound : Inv g bound -> Z.of_nat (length (held g)) < max_i64 ->
  Inv (bindCertificateSelectionToConnection addrKey sel now now' g) (sel :: bound).
Proof.
  intros [Hs Hb] Hl. unfold bindCertificateSelectionToConnection. pose proof (Balanced_sel _ _ _ sel Hb Hl) as Hb1.
  destruct (String.eqb_spec (trim_space addrKey) "") as [|Hk]; [by apply Inv_queue|].
  pose proof (prunePendingLocked_spec addrKey now (pendingShards g) (s_shards _ Hs) (s_tables _ Hs)) as Hp.
  destruct (prunePendingCertificateSelectionsLocked addrKey now (pendingShards g)) as [m1 expired].
  destruct Hp as (Hl1 & Ht1 & Hp1). destruct (localConnAddrToID g !! addrKey) as [id|] eqn:Ea.
  - change (default "" (Some id)) with id. pose proof (s_addr g Hs addrKey id Ea) as Hid.
    assert (trim_space id = id) as -> by (destruct Hid as (k & ? & ->); apply itoa_trim; lia).
    rewrite (proj2 (String.eqb_neq id "") (issued_nonempty g id Hid)). cbn [negb].
    pose proof (takePendingLocked_spec addrKey m1 Hl1 Ht1) as Hp.
    destruct (takePendingCertificateSelectionLocked addrKey m1) as [m2 taken]. destruct Hp as (Hl2 & Ht2 & Hp2).
    set (st := default zeroState (localConnStates g !! id)). set (g2 := setPendingShards m2 g).
    apply Inv_queue; [by apply (Shape_insert g2); [apply Shape_pending|]|].
    rewrite actions_sel. eapply Balanced_perm; [|apply (Balanced_frame g); [..|exact Hb1]; done].
    assert ((RSel <$> (expired ++ option_list taken)) ++ held g2 ≡ₚ held g) as Hh.
    { apply held_unpend. rewrite Hp1, Hp2. aac_reflexivity. }
    assert (held (setStates (<[id := mkConnState (RuleConnectionLimiters st) (HijackedRuleID st) (Some sel)]>
        (localConnStates g2)) g2) ++ (RSel <$> option_list (cs_Selection st)) ≡ₚ [RSel sel] ++ held g2) as Hu.
    { apply (Permutation_app_inv_r (statesRes (localConnStates g2))). rewrite <-app_assoc, (Permutation_app_comm (RSel <$> _)).
      rewrite app_assoc, held_setStates, statesRes_insert, stateRes_sel, (statesRes_delete (localConnStates g2) id).
      change (default zeroState (localConnStates g2 !! id)) with st. rewrite (stateRes_none st).
      set (a := stateRes (mkConnState _ _ None)). set (b := statesRes (delete id _)).
      change (RSel sel :: a) with ([RSel sel] ++ a). aac_reflexivity. }
    change (localConnStates g2) with (localConnStates g) in Hu.
    rewrite app_assoc, fmap_app, <-Hh. change (RSel sel :: ?x) with ([RSel sel] ++ x).
    set (x := RSel <$> (expired ++ option_list taken)) in *. set (y := RSel <$> option_list (cs_Selection st)) in *.
    transitivity (x ++ ([RSel sel] ++ held g2)); [aac_reflexivity|]. rewrite <-Hu. aac_reflexivity.
  - change (trim_space (default "" None)) with "". cbn [String.eqb negb].
    pose proof (putPendingLocked_spec addrKey sel now' m1 Hl1 Ht1 Hk) as Hp.
    destruct (putPendingCertificateSelectionLocked addrKey sel now' m1) as [m2 dropped]. destruct Hp as (Hl2 & Ht2 & Hp2).
    apply Inv_queue; [by apply Shape_pending|]. rewrite actions_sel.
    eapply Balanced_perm; [|apply (Balanced_frame g); [..|exact Hb1]; done].
    apply (Permutation_app_inv_r (RSel <$> allSelections (pendingShards g))).
    rewrite <-app_assoc, held_pending, Hp1, !fmap_app.
    transitivity ((RSel <$> expired) ++ (RSel <$> (sel :: allSelections m1)) ++ held g).
    { change (RSel <$> sel :: allSelections m1) with ([RSel sel] ++ (RSel <$> allSelections m1)).
      change (RSel sel :: held g) with ([RSel sel] ++ held g). aac_reflexivity. }
    rewrite Hp2, fmap_app. aac_reflexivity.
Qed.

(** ** Giving a connection up *)

Lemma rules_split (rules : list (Z * option nat)) :
  rules ≫= ruleRes ≡ₚ (ROpen <$> rules.*1) ++ (RLimiter <$> omap snd rules).
Proof.
  induction rules as [|[i [r|]] rules IH]; [done| |]; cbn; rewrite IH; [|done].
  by rewrite <-Permutation_middle.
Qed.

Lemma stateRes_split st : stateRes st ≡ₚ
  (ROpen <$> (map_to_list (RuleConnectionLimiters st)).*1) ++
  (RLimiter <$> omap snd (map_to_list (RuleConnectionLimiters st))) ++ (RSel <$> option_list (cs_Selection st)).
Proof. unfold stateRes. rewrite rules_split. aac_reflexivity. Qed.

Lemma slots_split (slots : gset string) id :
  replicate (size slots) RSlot =
  (if bool_decide (id ∈ slots) then [RSlot] else []) ++ replicate (size (slots ∖ {[id]})) RSlot.
Proof.
  case_bool_decide as Hin.
  - rewrite (union_difference_L {[id]} slots) at 1 by set_solver. rewrite size_union by set_solver.
    by rewrite size_singleton.
  - assert (slots ∖ {[id]} = slots) as -> by set_solver. done.
Qed.

Lemma releaseByID_inv id g bound : Inv g bound -> Inv (releaseLocalConnectionByID id g) bound.
Proof.
  intros [Hs Hb]. unfold releaseLocalConnectionByID. destruct (String.eqb id ""); [done|].
  set (st := default zeroState (localConnStates g !! id)). set (rules := map_to_list (RuleConnectionLimiters st)).
  set (g1 := setConnections _ _ _ _ _ _ _ _ g).
  assert (Shape g1) as Hs1.
  { destruct Hs as [Sn Ss St Sa Sl Sf Sr Sx]. split; try done; unfold g1; fields.
    - intros x Hx. apply Ss. set_solver.
    - intros x [y Hy]. apply lookup_delete_Some in Hy as [_ Hy]. apply St. by exists y.
    - intros key x. destruct (localConnAddrByID g !! id) as [addr|]; [|apply Sa].
      destruct (String.eqb addr ""); [apply Sa|]. intros [_ H]%lookup_delete_Some. by eapply Sa. }
  apply Inv_queue; [by destruct Hs1|]. apply (Balanced_close rules.*1 g1).
  eapply Balanced_perm; [|apply (Balanced_frame g); [..|exact Hb]; done].
  change (held (setCounts _ g1)) with (held g1). rewrite !held_eq. unfold heldWith, g1. fields.
  rewrite (slots_split (connectionSlotIDs g) id), (statesRes_delete _ id). fold st. rewrite (stateRes_split st). fold rules.
  rewrite !actions_app, actions_sel, actions_limiters.
  assert ((if bool_decide (id ∈ connectionSlotIDs g) then [FreeSlot] else [] : list action) ≫= actionRes =
    if bool_decide (id ∈ connectionSlotIDs g) then [RSlot] else []) as -> by (by case_bool_decide).
  aac_reflexivity.
Qed.

Lemma queueIDs_inv ids g bound : Inv g bound -> Inv (queue (ReleaseID <$> ids) g) bound.
Proof. intros [Hs Hb]. apply Inv_queue; [done|]. by rewrite actions_ids. Qed.

Lemma releaseByConn_inv conn addrKey g bound : Inv g bound -> Inv (releaseLocalConnectionByConn conn addrKey g) bound.
Proof.
  intros [[? ? ? ? ? ? ? ?] Hb]. unfold releaseLocalConnectionByConn.
  set (g1 := setConnIDs _ g). assert (Inv g1 bound) as Hi by (by apply (Inv_frame g)).
  destruct (String.eqb (if String.eqb _ _ then _ else _) ""); [done|]. by apply (queueIDs_inv [_]).
Qed.

Lemma releaseByAddr_inv addrKey g bound : Inv g bound -> Inv (releaseLocalConnectionByAddrKey addrKey g) bound.
Proof.
  intros Hi. unfold releaseLocalConnectionByAddrKey. destruct (String.eqb _ ""); [done|].
  destruct (String.eqb _ ""); [done|]. by apply (queueIDs_inv [_]).
Qed.

Lemma closeHijacked_inv ruleIDs g bound : Inv g bound -> Inv (closeHijackedConnectionsForRules ruleIDs g) bound.
Proof. apply queueIDs_inv. Qed.

(** Without counts no connection is counted for any rule. *)
Lemma allSelections_empty n : allSelections (Sel := Sel) (replicate n emptyTable) = [].
Proof. induction n as [|n IH]; [done|]. unfold allSelections in *. cbn. exact IH. Qed.

Lemma statesRes_split (sts : list connState) : sts ≫= stateRes ≡ₚ
  (ROpen <$> (sts ≫= fun st => (map_to_list (RuleConnectionLimiters st)).*1)) ++
  (RLimiter <$> (sts ≫= fun st => omap snd (map_to_list (RuleConnectionLimiters st)))) ++
  (RSel <$> omap cs_Selection sts).
Proof.
  induction sts as [|st sts IH]; [done|]. cbn [mbind list_bind]. rewrite IH, stateRes_split, !fmap_app.
  assert (omap cs_Selection (st :: sts) = option_list (cs_Selection st) ++ omap cs_Selection sts) as ->
    by (cbn; by destruct (cs_Selection st)).
  rewrite fmap_app. aac_reflexivity.
Qed.

(** Dropping every count and every counted connection at once. *)
Lemma Balanced_dropCounts g bound rules H : Balanced g bound ((ROpen <$> rules) ++ H) ->
  (forall i, count (isOpen i) H = 0) -> Balanced (setCounts ∅ g) bound H.
Proof.
  intros Hb Hz. apply Balanced_close in Hb. destruct Hb as [H1 H2 H3 H4 H5 H6]. split; fields.
  1,2,3,5,6: done.
  intros i. rewrite Hz. unfold localOpen. by rewrite lookup_empty.
Qed.

Lemma noOpen_repl i n : count (isOpen i) (replicate n RSlot) = 0.
Proof. induction n as [|n IH]; [done|]. by rewrite replicate_slot, count_app. Qed.

Lemma noOpen_sel i l : count (isOpen i) (RSel <$> l) = 0.
Proof. induction l as [|x l IH]; [done|]. cbn [fmap list_fmap]. by rewrite count_cons. Qed.

Lemma noOpen_limiter i l : count (isOpen i) (RLimiter <$> l) = 0.
Proof. induction l as [|x l IH]; [done|]. cbn [fmap list_fmap]. by rewrite count_cons. Qed.

Lemma noOpen_todo i (l : list action) : count (isOpen i) (l ≫= actionRes) = 0.
Proof. induction l as [|x l IH]; [done|]. cbn [mbind list_bind]. rewrite count_app, IH. by destruct x. Qed.

Lemma actions_slots n : (replicate n FreeSlot : list action) ≫= actionRes = replicate n RSlot.
Proof. induction n as [|n IH]; [done|]. cbn. by rewrite <-IH. Qed.

Lemma shutdown_inv g bound : Inv g bound -> Inv (shutdown g) bound.
Proof.
  intros [Hs Hb]. unfold shutdown. set (states := (map_to_list (localConnStates g)).*2).
  set (g1 := setConnections _ _ _ _ _ _ _ _ g). set (g2 := setPendingShards _ g1).
  apply Inv_queue.
  - destruct Hs as [Sn Ss St Sa Sl Sf Sr Sx]. unfold g2, g1. split; try done; fields.
    + intros id [x Hx]. by rewrite lookup_empty in Hx.
    + by rewrite length_replicate.
    + apply Forall_replicate, emptyTable_inv.
  - apply Balanced_dropCounts with (states ≫= fun st => (map_to_list (RuleConnectionLimiters st)).*1).
    + eapply Balanced_perm; [|apply (Balanced_frame g); [..|exact Hb]; done].
      change (held (setCounts _ g2)) with (held g2). rewrite !held_eq. unfold heldWith, g2, g1. fields.
      rewrite allSelections_empty, size_empty. unfold statesRes at 1. fold states. rewrite (statesRes_split states).
      rewrite !actions_app, actions_slots, actions_sel, actions_limiters, fmap_app. unfold statesRes.
      rewrite map_to_list_empty. cbn [fmap list_fmap mbind list_bind replicate]. aac_reflexivity.
    + intros i. change (held (setCounts _ g2)) with (held g2). rewrite held_eq. unfold heldWith, g2, g1. fields.
      unfold statesRes. rewrite map_to_list_empty. cbn [fmap list_fmap mbind list_bind]. rewrite !count_app.
      rewrite !noOpen_repl, !noOpen_sel, !noOpen_todo, !noOpen_limiter. done.
Qed.

(** ** Requests and upstream connections *)

Lemma Shape_limiters g r l : Shape g -> is_Some (limiters g !! r) -> Shape (setLimiters (<[r := l]> (limiters g)) g).
Proof.
  intros [Sn Ss St Sa Sl Sf Sr Sx] Hr. split; try done; fields.
  - intros i r' H%Sr. rewrite lookup_insert_is_Some'. by right.
  - intros r'. rewrite lookup_insert_is_Some'. intros [<-|H]; by apply Sx.
Qed.

Lemma Shape_release g r : Shape g -> Shape (setLimiters (releaseRef r (limiters g)) g).
Proof.
  intros [Sn Ss St Sa Sl Sf Sr Sx]. unfold releaseRef. split; try done; fields.
  - intros i r' H%Sr. by rewrite lookup_alter_is_Some.
  - intros r'. rewrite lookup_alter_is_Some. apply Sx.
Qed.

Lemma Shape_outside g n td rq up rel : Shape g -> Shape (setOutside n td rq up rel g).
Proof. by intros [? ? ? ? ? ? ? ?]. Qed.

Lemma Shape_counts g c : Shape g -> Shape (setCounts c g).
Proof. by intros [? ? ? ? ? ? ? ?]. Qed.

Lemma acquireRequest_inv ruleID g bound : Inv g bound -> Z.of_nat (length (held g)) < max_i64 ->
  Inv (acquireRequestSlot ruleID g).2 bound.
Proof.
  intros [Hs Hb] Hl. unfold acquireRequestSlot. destruct (ruleID =? 0); [done|].
  destruct (requestLimiters g !! ruleID) as [r|] eqn:Er; [|done].
  destruct (limiters g !! r) as [l|] eqn:El; [|done].
  destruct (limiterTryAcquire l) as [[] l'] eqn:Et; cbn [snd]; [|by rewrite (refused_same g r l l')].
  split; [apply Shape_outside, Shape_limiters; [done|by rewrite El]|].
  eapply Balanced_perm; [|apply (Balanced_frame (setLimiters (<[r := l']> (limiters g)) g));
    [..|exact (Balanced_limiter g bound (held g) r l l' Hb El Et Hl)]; done].
  rewrite !held_eq. unfold heldWith. fields. cbn [fmap list_fmap].
  change (RLimiter r :: ?x) with ([RLimiter r] ++ x). aac_reflexivity.
Qed.

Lemma releaseRequest_inv i g bound : Inv g bound -> Inv (releaseRequestSlot i g) bound.
Proof.
  intros [Hs Hb]. unfold releaseRequestSlot. destruct (requestLeases g !! i) as [r|] eqn:Er; [|done].
  split; [by apply Shape_outside, Shape_release|].
  apply (Balanced_frame (setLimiters (releaseRef r (limiters g)) g)); try done. apply Balanced_freeLimiter.
  eapply Balanced_perm; [|exact Hb]. rewrite !held_eq. unfold heldWith. fields.
  rewrite (delete_Permutation _ _ _ Er) at 1. cbn [fmap list_fmap].
  change (RLimiter r :: ?x) with ([RLimiter r] ++ x). aac_reflexivity.
Qed.

(** The other half of a count does not matter. *)
Lemma Balanced_counts g bound H c : Balanced g bound H -> (forall i, localOpen c i = localOpen (connectionCounts g) i) ->
  Balanced (setCounts c g) bound H.
Proof. intros [H1 H2 H3 H4 H5 H6] Hc. split; fields; try done. intros i. by rewrite Hc. Qed.

Lemma acquireUpstream_inv ruleID g bound : Inv g bound -> Z.of_nat (length (held g)) < max_i64 ->
  Inv (acquireUpstreamConnection ruleID g).2 bound.
Proof.
  intros [Hs Hb] Hl. unfold acquireUpstreamConnection. destruct (ruleID =? 0); [done|].
  assert (forall g' ref, Shape g' -> Balanced g' bound (option_list (RLimiter <$> ref) ++ held g') ->
    Inv (let '(lo, up) := default (0, 0) (connectionCounts g' !! ruleID) in
      setOutside (inflight g') (todo g') (requestLeases g') ((ruleID, ref) :: upstreamLeases g') (released g')
        (setCounts (<[ruleID := (lo, up +! 1)]> (connectionCounts g')) g')) bound) as Hlease.
  { intros g' ref Hs' Hb'. destruct (default (0, 0) (connectionCounts g' !! ruleID)) as [lo up] eqn:Ec.
    split; [by apply Shape_outside, Shape_counts|].
    eapply Balanced_perm; [|apply (Balanced_frame (setCounts (<[ruleID := (lo, up +! 1)]> (connectionCounts g')) g'));
      [done..|apply Balanced_counts; [exact Hb'|]]].
    - rewrite !held_eq. unfold heldWith. fields.
      assert (RLimiter <$> omap snd ((ruleID, ref) :: upstreamLeases g') =
        option_list (RLimiter <$> ref) ++ (RLimiter <$> omap snd (upstreamLeases g'))) as -> by (by destruct ref).
      aac_reflexivity.
    - intros i. unfold localOpen. destruct (decide (i = ruleID)) as [->|]; [|by rewrite lookup_insert_ne].
      by rewrite lookup_insert_eq, Ec. }
  destruct (upstreamLimiters g !! ruleID) as [r|] eqn:Er; [|by apply (Hlease g None)].
  destruct (s_refs g Hs ruleID r) as [l El]; [tauto|]. rewrite El.
  destruct (limiterTryAcquire l) as [[] l'] eqn:Et; cbn [snd]; [|by rewrite (refused_same g r l l')].
  apply (Hlease (setLimiters (<[r := l']> (limiters g)) g) (Some r)).
  - apply Shape_limiters; [done|by rewrite El].
  - exact (Balanced_limiter g bound (held g) r l l' Hb El Et Hl).
Qed.

Lemma localOpen_closeUpstream ruleID counts i : localOpen (closeUpstream ruleID counts) i = localOpen counts i.
Proof.
  unfold closeUpstream, localOpen. destruct (default (0, 0) (counts !! ruleID)) as [lo up] eqn:E.
  destruct (decide (i = ruleID)) as [->|].
  - rewrite E. destruct (_ && _) eqn:Ez.
    + rewrite lookup_delete_eq. rewrite andb_true_iff, Z.eqb_eq in Ez. cbn. lia.
    + by rewrite lookup_insert_eq.
  - destruct (_ && _); [by rewrite lookup_delete_ne|by rewrite lookup_insert_ne].
Qed.

Lemma releaseUpstream_inv i g bound : Inv g bound -> Inv (releaseUpstreamConnection i g) bound.
Proof.
  intros [Hs Hb]. unfold releaseUpstreamConnection. destruct (upstreamLeases g !! i) as [[ruleID ref]|] eqn:Er; [|done].
  set (g1 := setCounts (closeUpstream ruleID (connectionCounts g)) g).
  assert (Balanced g1 bound (held g)) as Hb1.
  { apply Balanced_counts; [done|]. intros j. apply localOpen_closeUpstream. }
  assert (held g ≡ₚ option_list (RLimiter <$> ref) ++ held (setOutside (inflight g1) (todo g1) (requestLeases g1)
    (delete i (upstreamLeases g1)) (released g1) g1)) as Hh.
  { rewrite !held_eq. unfold heldWith, g1. fields. rewrite (delete_Permutation _ _ _ Er) at 1.
    assert (RLimiter <$> omap snd ((ruleID, ref) :: delete i (upstreamLeases g)) =
      option_list (RLimiter <$> ref) ++ (RLimiter <$> omap snd (delete i (upstreamLeases g)))) as -> by (by destruct ref).
    aac_reflexivity. }
  apply (Balanced_perm _ _ _ _ Hh) in Hb1. destruct ref as [r|].
  - split; [by apply Shape_outside, (Shape_release g1), Shape_counts|].
    apply (Balanced_frame (setLimiters (releaseRef r (limiters g1)) g1)); try done. by apply Balanced_freeLimiter.
  - split; [by apply Shape_outside, Shape_counts|]. by apply (Balanced_frame g1).
Qed.

(** ** New limits *)

(** The store after a refresh: known limiters keep their permits, new ones
    have none. *)
Record Refreshed (ls0 : gmap nat reverseProxyAdjustableLimiter) (s : gmap nat reverseProxyAdjustableLimiter * nat)
  : Prop := {
  rf_active : forall r l, s.1 !! r = Some l ->
    active l = match ls0 !! r with Some l0 => active l0 | None => 0 end;
  rf_known : forall r, is_Some (ls0 !! r) -> is_Some (s.1 !! r);
  rf_next : forall r, is_Some (s.1 !! r) -> (r < s.2)%nat }.

Lemma refreshLimiter_spec previous ruleID limit ls0 s : Refreshed ls0 s ->
  (forall i r, previous !! i = Some r -> is_Some (ls0 !! r)) ->
  let '(r, s') := refreshLimiter previous ruleID limit s in
  Refreshed ls0 s' /\ is_Some (s'.1 !! r) /\ forall r', is_Some (s.1 !! r') -> is_Some (s'.1 !! r').
Proof.
  intros [Ha Hk Hn] Hp. unfold refreshLimiter. destruct s as [ls n]. cbn [fst snd] in *.
  destruct (previous !! ruleID) as [r|] eqn:Er; cbn [fst snd].
  - split_and!; [split; cbn [fst snd]| |].
    + intros r' l. rewrite lookup_alter_Some. intros [(-> & l0 & Hl & ->)|[_ Hl]]; cbn; by apply Ha.
    + intros r' H%Hk. by rewrite lookup_alter_is_Some.
    + intros r'. rewrite lookup_alter_is_Some. apply Hn.
    + rewrite lookup_alter_is_Some. by eapply Hk, Hp.
    + intros r'. by rewrite lookup_alter_is_Some.
  - assert (ls !! n = None) as Hfresh.
    { destruct (ls !! n) eqn:E; [|done]. pose proof (Hn n ltac:(by rewrite E)). lia. }
    assert (ls0 !! n = None) as Hfresh0.
    { destruct (ls0 !! n) eqn:E; [|done]. destruct (Hk n) as [? ?]; [by rewrite E|]. congruence. }
    split_and!; [split; cbn [fst snd]| |].
    + intros r' l. destruct (decide (r' = n)) as [->|].
      * rewrite lookup_insert_eq, Hfresh0. by intros [= <-].
      * rewrite lookup_insert_ne by done. apply Ha.
    + intros r' H%Hk. rewrite lookup_insert_is_Some'. by right.
    + intros r'. rewrite lookup_insert_is_Some'. intros [<-|H%Hn]; lia.
    + rewrite lookup_insert_eq. by eexists.
    + intros r' H. rewrite lookup_insert_is_Some'. by right.
Qed.

Definition refsIn (m : gmap Z nat) (ls : gmap nat reverseProxyAdjustableLimiter) : Prop :=
  forall i r, m !! i = Some r -> is_Some (ls !! r).

Lemma refsIn_insert m ls i r : refsIn m ls -> is_Some (ls !! r) -> refsIn (<[i := r]> m) ls.
Proof.
  intros Hm Hr j r'. destruct (decide (j = i)) as [->|]; [rewrite lookup_insert_eq; by intros [= <-]|].
  rewrite lookup_insert_ne by done. apply Hm.
Qed.

Lemma refsIn_mono m ls ls' : refsIn m ls -> (forall r, is_Some (ls !! r) -> is_Some (ls' !! r)) -> refsIn m ls'.
Proof. intros Hm H i r Hi. by eapply H, Hm. Qed.

Lemma refreshRules_spec g0 rules : Shape g0 -> forall mc mr mu s,
  Refreshed (limiters g0) s -> refsIn mc s.1 -> refsIn mr s.1 -> refsIn mu s.1 ->
  let '(mc', mr', mu', s') := refreshRules g0 rules (mc, mr, mu) s in
  Refreshed (limiters g0) s' /\ refsIn mc' s'.1 /\ refsIn mr' s'.1 /\ refsIn mu' s'.1.
Proof.
  intros Hs0. pose proof (s_refs g0 Hs0) as Hrefs.
  induction rules as [|[rule|] rules IH]; intros mc mr mu s Hs Hc Hr Hu; cbn [refreshRules]; [done| |by apply IH].
  destruct (rl_Id rule =? 0); [by apply IH|].
  pose proof (refreshLimiter_spec (ruleConnectionLimiters g0) (rl_Id rule) (reverseProxyRuleLimit (rl_Connections rule)) (limiters g0) s Hs
    ltac:(intros; eapply Hrefs; eauto)) as S1.
  destruct (refreshLimiter (ruleConnectionLimiters g0) _ _ s) as [rc s1]. destruct S1 as (Hs1 & Hrc & M1).
  pose proof (refreshLimiter_spec (requestLimiters g0) (rl_Id rule) (reverseProxyRuleLimit (rl_Requests rule)) (limiters g0) s1 Hs1
    ltac:(intros; eapply Hrefs; eauto)) as S2.
  destruct (refreshLimiter (requestLimiters g0) _ _ s1) as [rr s2]. destruct S2 as (Hs2 & Hrr & M2).
  pose proof (refreshLimiter_spec (upstreamLimiters g0) (rl_Id rule) (reverseProxyRuleLimit (rl_Upstream rule)) (limiters g0) s2 Hs2
    ltac:(intros; eapply Hrefs; eauto)) as S3.
  destruct (refreshLimiter (upstreamLimiters g0) _ _ s2) as [ru s3]. destruct S3 as (Hs3 & Hru & M3).
  apply IH; [done|..]; apply refsIn_insert; auto; eapply refsIn_mono; eauto.
Qed.

Lemma configure_inv rules limit g bound : Inv g bound -> Inv (configureRuleLimitersLocked rules limit g) bound.
Proof.
  intros [Hs Hb]. unfold configureRuleLimitersLocked.
  assert (Refreshed (limiters g) (limiters g, nextLimiter g)) as Hr0.
  { split; cbn; [intros r l ->; done|done|apply (s_fresh g Hs)]. }
  assert (forall ls, refsIn ∅ ls) as He by (by intros ls i r; rewrite lookup_empty).
  pose proof (refreshRules_spec g rules Hs ∅ ∅ ∅ _ Hr0 (He _) (He _) (He _)) as H.
  destruct (refreshRules g rules (∅, ∅, ∅) (limiters g, nextLimiter g)) as [[[mc mr] mu] [ls n]].
  destruct H as ([Ha Hk Hn] & Hc & Hr & Hu). cbn [fst snd] in *. split.
  - destruct Hs as [Sn Ss St Sa Sl Sf Sr Sx]. split; try done; fields.
    intros i r [H|[H|H]]; [by eapply Hc|by eapply Hr|by eapply Hu].
  - match goal with |- Balanced ?g' _ _ => change (held g') with (held g) end.
    destruct Hb as [H1 H2 H3 H4 H5 H6]. split; fields; try done.
    + intros r l Hl. rewrite (Ha r l Hl). destruct (limiters g !! r) as [l0|] eqn:E; [by apply H2|].
      assert (count (isLimiter r) (held g) = 0 \/ 0 < count (isLimiter r) (held g)) as [->|Hpos]; [|done|].
      { pose proof (count_nonneg (isLimiter r) (held g)). lia. }
      assert (exists x, x ∈ held g /\ isLimiter r x = true) as (x & Hx & Hix).
      { clear -Hpos. induction (held g) as [|y l IH]; [done|]. rewrite count_cons in Hpos.
        destruct (isLimiter r y) eqn:Ey; [exists y; split; [by left|done]|].
        destruct IH as (x & ? & ?); [lia|]. exists x. split; [by right|done]. }
      destruct x as [|r'| |]; try done. cbn in Hix. apply bool_decide_eq_true in Hix as ->.
      apply H3 in Hx. rewrite E in Hx. by destruct Hx.
    + intros r Hx. by apply Hk, H3.
Qed.

(** ** What was queued *)

Lemma runQueued_inv i g bound : Inv g bound -> Inv (runQueued i g) bound.
Proof.
  intros [Hs Hb]. unfold runQueued. destruct (todo g !! i) as [a|] eqn:Ea; [|done].
  set (g1 := setOutside _ _ _ _ _ g).
  assert (held g ≡ₚ actionRes a ++ held g1) as Hh.
  { rewrite !held_eq. unfold heldWith, g1. fields. rewrite (delete_Permutation _ _ _ Ea) at 1.
    change ((a :: delete i (todo g)) ≫= actionRes) with (actionRes a ++ (delete i (todo g) ≫= actionRes)). aac_reflexivity. }
  assert (Shape g1) as Hs1 by (by apply Shape_outside).
  apply (Balanced_perm _ _ _ _ Hh) in Hb. apply (Balanced_frame g g1) in Hb; [|done..].
  destruct a as [|r|sel|id]; cbn [runAction actionRes app] in *.
  - split; [by destruct Hs1|]. by apply (Balanced_freeSlot g1).
  - split; [by apply Shape_release|]. by apply (Balanced_freeLimiter g1).
  - split; [by apply Shape_outside|]. by apply (Balanced_freeSel g1).
  - by apply releaseByID_inv.
Qed.

(** ** Runs *)

Definition emptyGroup (limit : Z) : tracking :=
  mkTracking (limiterSetMax limit (mkLimiter 0 0)) ∅ 0 ∅ ∅ ∅ ∅ ∅ ∅ ∅ ∅ ∅ ∅ (newShards _) ∅ 0 0 [] [] [] [].

(** Room for two more holders than fit a machine integer is never used up. *)
Definition roomy g : Prop := Z.of_nat (length (held g)) + 1 < max_i64.

Inductive step : tracking -> list Sel -> tracking -> list Sel -> Prop :=
| step_acquire g bound : roomy g -> step g bound (acquireListenerConnectionSlot g).2 bound
| step_register g bound conn addrKey now : (0 < inflight g)%nat -> nextConnID g < max_i64 ->
    step g bound (registerConnectionContext conn addrKey now g).2 bound
| step_rule g bound ruleID id ref : roomy g -> issued g id -> (forall r, ref = Some r -> is_Some (limiters g !! r)) ->
    step g bound (registerLocalConnectionRule ruleID id ref g).2 bound
| step_hijackRule g bound id ruleID : issued g id -> step g bound (setHijackedConnectionRule id ruleID g) bound
| step_hijack g bound conn addrKey : step g bound (markHijackedConnection conn addrKey g) bound
| step_bind g bound addrKey sel now now' : roomy g ->
    step g bound (bindCertificateSelectionToConnection addrKey sel now now' g) (sel :: bound)
| step_releaseConn g bound conn addrKey : step g bound (releaseLocalConnectionByConn conn addrKey g) bound
| step_releaseAddr g bound addrKey : step g bound (releaseLocalConnectionByAddrKey addrKey g) bound
| step_releaseID g bound id : step g bound (releaseLocalConnectionByID id g) bound
| step_closeHijacked g bound ruleIDs : step g bound (closeHijackedConnectionsForRules ruleIDs g) bound
| step_shutdown g bound : step g bound (shutdown g) bound
| step_request g bound ruleID : roomy g -> step g bound (acquireRequestSlot ruleID g).2 bound
| step_requestDone g bound i : step g bound (releaseRequestSlot i g) bound
| step_upstream g bound ruleID : roomy g -> step g bound (acquireUpstreamConnection ruleID g).2 bound
| step_upstreamDone g bound i : step g bound (releaseUpstreamConnection i g) bound
| step_configure g bound rules limit : step g bound (configureRuleLimitersLocked rules limit g) bound
| step_queued g bound i : step g bound (runQueued i g) bound.

Inductive trackingRun (limit : Z) : tracking -> list Sel -> Prop :=
| tr_new : trackingRun limit (emptyGroup limit) []
| tr_step g bound g' bound' : trackingRun limit g bound -> step g bound g' bound' -> trackingRun limit g' bound'.

Lemma emptyGroup_inv limit : Inv (emptyGroup limit) [].
Proof.
  assert (held (emptyGroup limit) = []) as Hh by done.
  split; [split|split]; rewrite ?Hh; cbn.
  - unfold max_i64. lia.
  - set_solver.
  - intros id [st H]. by rewrite lookup_empty in H.
  - intros key id H. by rewrite lookup_empty in H.
  - done.
  - apply (Forall_replicate TableInv 16), emptyTable_inv.
  - intros i r [H|[H|H]]; by rewrite lookup_empty in H.
  - intros r [l H]. by rewrite lookup_empty in H.
  - done.
  - intros r l H. by rewrite lookup_empty in H.
  - by intros r ?%not_elem_of_nil.
  - intros i. unfold localOpen. by rewrite lookup_empty.
  - done.
  - unfold max_i64. lia.
Qed.

Lemma step_inv g bound g' bound' : step g bound g' bound' -> Inv g bound -> Inv g' bound'.
Proof.
  destruct 1; intros Hi; unfold roomy in *;
    eauto using markHijacked_inv, releaseByConn_inv, releaseByAddr_inv, releaseByID_inv, closeHijacked_inv,
      shutdown_inv, releaseRequest_inv, releaseUpstream_inv, configure_inv, runQueued_inv, setHijackedRule_inv,
      registerConnection_inv, registerRule_inv.
  - apply acquireSlot_inv; [done|lia].
  - apply bindCertificate_inv; [done|lia].
  - apply acquireRequest_inv; [done|lia].
  - apply acquireUpstream_inv; [done|lia].
Qed.

Lemma trackingRun_inv limit g bound : trackingRun limit g bound -> Inv g bound.
Proof. induction 1 as [|g bound g' bound' _ IH Hs]; [apply emptyGroup_inv|by eapply step_inv]. Qed.

(** C4: No permit and no certificate of a listener group is ever lost or given
    back twice, however registrations, certificate choices, rule changes,
    closes, tunnels, requests, upstream connections, a shutdown and the work
    they leave queued interleave: the count of every limiter is exactly the
    number of its permits that some registration, connection, request,
    upstream connection or queued release still holds; the connections
    counted for a rule are those registered with it; and every certificate
    ever bound is either held in one place or was released once. *)
Theorem connection_accounting limit g bound : trackingRun limit g bound ->
  active (listenerLimiter g) = count isSlot (held g) /\
  (forall r l, limiters g !! r = Some l -> active l = count (isLimiter r) (held g)) /\
  (forall ruleID, localOpen (connectionCounts g) ruleID = count (isOpen ruleID) (held g)) /\
  bound ≡ₚ omap selOf (held g) ++ released g.
Proof. intros [_ [H1 H2 _ H4 H5 _]]%trackingRun_inv. by split_and!. Qed.

(** ** Shutting down *)

Fixpoint runAll (n : nat) g : tracking := match n with O => g | S n' => runAll n' (runQueued 0 g) end.

(** Nothing but queued work. *)
Definition emptied g : Prop :=
  inflight g = 0%nat /\ connectionSlotIDs g = ∅ /\ localConnStates g = ∅ /\ allSelections (pendingShards g) = [] /\
  requestLeases g = [] /\ upstreamLeases g = [].

Lemma emptied_queued g : emptied g -> (0 < length (todo g))%nat ->
  emptied (runQueued 0 g) /\ length (todo (runQueued 0 g)) = Nat.pred (length (todo g)).
Proof.
  intros (E1 & E2 & E3 & E4 & E5 & E6) Hl. unfold runQueued. destruct (todo g) as [|a l] eqn:Et; [cbn in Hl; lia|].
  cbn [lookup list_lookup delete list_delete length Nat.pred]. destruct a as [|r|sel|id]; cbn [runAction]; try by split.
  unfold releaseLocalConnectionByID. destruct (String.eqb id ""); [by split|]. fields. rewrite E2, E3, lookup_empty.
  cbn [default from_option zeroState RuleConnectionLimiters cs_Selection option_list option_rect fmap list_fmap].
  rewrite map_to_list_empty. cbn [omap list_omap fmap list_fmap app].
  rewrite bool_decide_false by set_solver. split; [|fields; by rewrite app_nil_r].
  unfold emptied. fields. rewrite delete_empty. split_and!; try done. set_solver.
Qed.

Lemma runAll_emptied n : forall g, emptied g -> length (todo g) = n -> emptied (runAll n g) /\ todo (runAll n g) = [].
Proof.
  induction n as [|n IH]; intros g He Hl; cbn [runAll]; [by split; [|apply nil_length_inv]|].
  destruct (emptied_queued g He) as [He' Hl']; [lia|]. apply IH; [done|]. rewrite Hl', Hl. done.
Qed.

Lemma runAll_run limit n : forall g bound, trackingRun limit g bound -> trackingRun limit (runAll n g) bound.
Proof. induction n as [|n IH]; intros g bound Hr; [done|]. apply IH. eapply tr_step; [done|constructor]. Qed.

(** A shutdown gives everything back.  Whatever the group has been through,
    once it is shut down and no registration, request or upstream connection
    is under way, running what is queued ends with every limiter at zero, no
    connection counted, and every certificate that was ever bound released
    exactly once. *)
Theorem shutdown_returns_all limit g bound :
  trackingRun limit g bound -> inflight g = 0%nat -> requestLeases g = [] -> upstreamLeases g = [] ->
  let g' := runAll (length (todo (shutdown g))) (shutdown g) in
  todo g' = [] /\ active (listenerLimiter g') = 0 /\
  (forall r l, limiters g' !! r = Some l -> active l = 0) /\
  (forall ruleID, localOpen (connectionCounts g') ruleID = 0) /\ bound ≡ₚ released g'.
Proof.
  intros Hr E1 E5 E6 g'.
  assert (emptied (shutdown g)) as He.
  { unfold emptied, shutdown. fields. rewrite allSelections_empty. by split_and!. }
  destruct (runAll_emptied _ _ He eq_refl) as [(F1 & F2 & F3 & F4 & F5 & F6) Htodo]. fold g' in F1, F2, F3, F4, F5, F6, Htodo.
  assert (trackingRun limit g' bound) as Hr'.
  { apply runAll_run. eapply tr_step; [exact Hr|constructor]. }
  apply trackingRun_inv in Hr' as [_ [H1 H2 _ H4 H5 _]].
  assert (held g' = []) as Hh.
  { unfold held. rewrite F1, F2, F3, F4, F5, F6, Htodo, size_empty. unfold statesRes. by rewrite map_to_list_empty. }
  rewrite Hh in *. by split_and!.
Qed.
End Correct.

(** ** A concrete listener *)

Definition demoStart : tracking nat := configureRuleLimitersLocked [Some (mkRuleLimit 7 1 0 0)] 100 (emptyGroup 100).
Definition demoTaken : tracking nat := (acquireListenerConnectionSlot demoStart).2.
Definition demoOpen : tracking nat := (registerConnectionContext (Some 5%nat) "a|b" 1000 demoTaken).2.
Definition demoBound : tracking nat := bindCertificateSelectionToConnection "a|b" 42%nat 1000 1000 demoOpen.
Definition demoRule : tracking nat := (registerLocalConnectionRule 7 "1" (Some 0%nat) demoBound).2.

Lemma demo_roomy (g : tracking nat) n : length (held g) = n -> (n < 100)%nat -> roomy g.
Proof. intros <- Hl. unfold roomy, max_i64. lia. Qed.

Lemma demoBound_run : trackingRun 100 demoBound [42%nat].
Proof.
  eapply tr_step; [eapply tr_step; [eapply tr_step; [eapply tr_step; [apply tr_new|]|]|]|].
  - apply (step_configure _ _ [Some (mkRuleLimit 7 1 0 0)] 100).
  - apply step_acquire. apply (demo_roomy _ 0); [vm_compute; reflexivity|lia].
  - apply (step_register _ _ (Some 5%nat) "a|b" 1000); vm_compute; [lia|reflexivity].
  - apply (step_bind _ _ "a|b" 42%nat 1000 1000). apply (demo_roomy _ 1); [vm_compute; reflexivity|lia].
Qed.

Lemma demoRule_run : trackingRun 100 demoRule [42%nat].
Proof.
  eapply tr_step; [apply demoBound_run|]. apply step_rule.
  - apply (demo_roomy _ 2); [vm_compute; reflexivity|lia].
  - exists 1. split; [vm_compute; split; discriminate|vm_compute; reflexivity].
  - intros r [= <-]. vm_compute. by eexists.
Qed.

Lemma connection_accounting_witness :
  length (held demoRule) = 4%nat /\
  active (listenerLimiter demoRule) = count isSlot (held demoRule) /\
  (forall r l, limiters demoRule !! r = Some l -> active l = count (isLimiter r) (held demoRule)) /\
  (forall ruleID, localOpen (connectionCounts demoRule) ruleID = count (isOpen ruleID) (held demoRule)) /\
  [42%nat] ≡ₚ omap selOf (held demoRule) ++ released demoRule.
Proof. split; [vm_compute; reflexivity|]. apply (connection_accounting 100 demoRule [42%nat] demoRule_run). Defined.

Lemma shutdown_returns_all_witness :
  let g' := runAll (length (todo (shutdown demoRule))) (shutdown demoRule) in
  todo g' = [] /\ active (listenerLimiter g') = 0 /\
  (forall r l, limiters g' !! r = Some l -> active l = 0) /\
  (forall ruleID, localOpen (connectionCounts g') ruleID = 0) /\ [42%nat] ≡ₚ released g'.
Proof.
  apply (shutdown_returns_all 100 demoRule [42%nat] demoRule_run); vm_compute; reflexivity.
Defined.

(** The connection is closed before the rule registers it. *)
Definition demoClosed : tracking nat :=
  runAll 3 (releaseLocalConnectionByConn 5%nat "a|b" demoBound).
Definition demoLate : bool * tracking nat := registerLocalConnectionRule 7 "1" (Some 0%nat) demoClosed.

(** A request that registers its rule after its connection was closed
    keeps a permit of the rule until the listener is shut down.  Closing the
    connection has released everything and forgotten it; the late
    registration is accepted, makes a new state under the old identifier and
    takes the rule's permit, and nothing is queued to give it back; closing
    the connection again, by the connection or by its address, finds
    nothing; and with a limit of one the next connection is refused. *)
Theorem late_registration_leaks :
  trackingRun 100 demoClosed [42%nat] /\ held demoClosed = [] /\ released demoClosed = [42%nat] /\
  let '(ok, g) := demoLate in
  trackingRun 100 g [42%nat] /\ ok = true /\ todo g = [] /\ connectionSlotIDs g = ∅ /\
  held g = [ROpen 7; RLimiter 0] /\
  releaseLocalConnectionByConn 5%nat "a|b" g = g /\ releaseLocalConnectionByAddrKey "a|b" g = g /\
  let g2 := (registerConnectionContext (Some 6%nat) "c|d" 2000 (acquireListenerConnectionSlot g).2).2 in
  (registerLocalConnectionRule 7 "2" (Some 0%nat) g2).1 = false.
Proof.
  assert (trackingRun 100 demoClosed [42%nat]) as Hr.
  { apply runAll_run. eapply tr_step; [apply demoBound_run|apply step_releaseConn]. }
  split; [done|]. split; [vm_compute; reflexivity|]. split; [vm_compute; reflexivity|].
  assert (trackingRun 100 demoLate.2 [42%nat]) as Hr2.
  { eapply tr_step; [exact Hr|]. apply step_rule.
    - apply (demo_roomy _ 0); [vm_compute; reflexivity|lia].
    - exists 1. split; [vm_compute; split; discriminate|vm_compute; reflexivity].
    - intros r [= <-]. vm_compute. by eexists. }
  destruct demoLate as [ok g] eqn:E. cbn [snd] in Hr2. split; [done|].
  vm_compute in E. injection E as <- <-. vm_compute. split_and!; reflexivity.
Qed.
