(* ===== verification/UpstreamCache.v ===== *)
(** * Cached upstream transports ([service/reverse_proxy.go])

    A listener group keeps one transport per rule and shares it between
    requests.  A transport that is replaced, expired or invalidated is closed
    when its last request is done, by the goroutine that finds the count at
    zero.  The fields are guarded by the mutex of the group; closing happens
    outside it.

    Transports are objects in the store [ups]; each operation is one critical
    section.  The calls of [disposeCachedUpstream] that follow a critical
    section are queued in [disposals] and run as steps of their own, between
    any other steps.  [users] are the requests that hold a transport,
    [cleaned] the transports whose cleanup function was taken out to be run,
    in order.  A request that finds no transport keeps the target of the rule
    it was matched with while it resolves it ([resolving]); [targets] is the
    current target of each rule. *)

From stdpp Require Import base gmap list strings.
From Stdlib Require Import ZArith Lia.
From S2P Require Import Prelude Memory CertBalance.

#[local] Open Scope Z_scope.
#[local] Open Scope go_scope.

Definition reverseProxyUpstreamResolveCacheTTL : Z := 60 * nanosPerSecond.

Record cachedUpstream : Type := mkUpstream {
  ResolvedAddress : string;
  ResolvedAt : option Z;             (* [None] is the zero time *)
  RoundTripper : bool;               (* not nil *)
  Cleanup : bool;                    (* not nil *)
  refs : Z;
  closing : bool }.

Record cacheGroup : Type := mkGroup {
  ups : gmap nat cachedUpstream;
  nextUp : nat;
  upstreamByRule : gmap Z nat;
  targets : gmap Z string;
  closed : bool;
  disposals : list nat;
  users : list nat;
  resolving : list (Z * string);
  cleaned : list nat }.

Implicit Types (g : cacheGroup) (u : cachedUpstream).

Definition setUps m g := mkGroup m (nextUp g) (upstreamByRule g) (targets g) (closed g) (disposals g) (users g)
  (resolving g) (cleaned g).
Definition setByRule m g := mkGroup (ups g) (nextUp g) m (targets g) (closed g) (disposals g) (users g)
  (resolving g) (cleaned g).
Definition setDisposals l g := mkGroup (ups g) (nextUp g) (upstreamByRule g) (targets g) (closed g) l (users g)
  (resolving g) (cleaned g).
Definition setUsers l g := mkGroup (ups g) (nextUp g) (upstreamByRule g) (targets g) (closed g) (disposals g) l
  (resolving g) (cleaned g).
Definition setResolving l g := mkGroup (ups g) (nextUp g) (upstreamByRule g) (targets g) (closed g) (disposals g)
  (users g) l (cleaned g).
Definition setCleaned l g := mkGroup (ups g) (nextUp g) (upstreamByRule g) (targets g) (closed g) (disposals g)
  (users g) (resolving g) l.

Definition setRefs n u := mkUpstream (ResolvedAddress u) (ResolvedAt u) (RoundTripper u) (Cleanup u) n (closing u).
Definition setClosing u := mkUpstream (ResolvedAddress u) (ResolvedAt u) (RoundTripper u) (Cleanup u) (refs u) true.
Definition takeCleanup u := mkUpstream (ResolvedAddress u) (ResolvedAt u) (RoundTripper u) false (refs u) (closing u).

(** The tail of [releaseCachedUpstream] and [disposeCachedUpstream]: the
    cleanup is taken when nobody uses a transport that is closing. *)
Definition settle (id : nat) u g : cacheGroup :=
  if (refs u =? 0) && closing u && Cleanup u
  then setCleaned (cleaned g ++ [id]) (setUps (<[id := takeCleanup u]> (ups g)) g)
  else setUps (<[id := u]> (ups g)) g.

Definition disposeCachedUpstream (id : nat) g : cacheGroup :=
  match ups g !! id with None => g | Some u => settle id (setClosing u) g end.

Definition releaseUpstream (id : nat) g : cacheGroup :=
  match ups g !! id with
  | None => g
  | Some u => settle id (setRefs (if 0 <? refs u then refs u - 1 else refs u) u) g
  end.

Definition expired (now : Z) u : bool :=
  match ResolvedAt u with None => false | Some t => reverseProxyUpstreamResolveCacheTTL <=? now - t end.

Definition acquireCachedUpstream (ruleID now : Z) g : option nat * cacheGroup :=
  if ruleID =? 0 then (None, g)
  else match upstreamByRule g !! ruleID with
       | None => (None, g)
       | Some id =>
           match ups g !! id with
           | None => (None, g)
           | Some u =>
               if closing u || negb (RoundTripper u) then (None, g)
               else if expired now u
               then (None, setDisposals (id :: disposals g) (setByRule (delete ruleID (upstreamByRule g)) g))
               else (Some id, setUsers (id :: users g) (setUps (<[id := setRefs (refs u +! 1) u]> (ups g)) g))
           end
       end.

(** The transport a request uses is given back. *)
Definition releaseCachedUpstream (i : nat) g : cacheGroup :=
  match users g !! i with
  | None => g
  | Some id => releaseUpstream id (setUsers (delete i (users g)) g)
  end.

(** The rules whose transport satisfies [p] lose it. *)
Definition dropWhere (p : Z -> nat -> bool) g : cacheGroup :=
  let gone := filter (fun x => p x.1 x.2 = true) (map_to_list (upstreamByRule g)) in
  setDisposals (disposals g ++ gone.*2) (setByRule (filter (fun x => p x.1 x.2 = false) (upstreamByRule g)) g).

Definition pruneExpiredCachedUpstreams (now : Z) g : cacheGroup :=
  dropWhere (fun _ id => match ups g !! id with Some u => expired now u | None => false end) g.

(** The loop of [applyResourceSettings] over the rules, each with its limit of
    idle connections: a rule that is not found uses the default. *)
Fixpoint usesDefault (rules : list (option (Z * Z))) (ruleID : Z) : bool :=
  match rules with
  | [] => true
  | Some (id, idle) :: rest => if id =? ruleID then reverseProxyRuleLimit idle =? 0 else usesDefault rest ruleID
  | None :: rest => usesDefault rest ruleID
  end.

(** What [applyResourceSettings] does to the transports; [previous] and [next]
    are the old and the new default of idle connections. *)
Definition applyResourceSettings (rules : list (option (Z * Z))) (previous next : Z) g : cacheGroup :=
  if previous =? next then g else dropWhere (fun ruleID _ => usesDefault rules ruleID) g.

Definition invalidateCachedUpstream (ruleID : Z) g : cacheGroup :=
  if ruleID =? 0 then g
  else match upstreamByRule g !! ruleID with
       | None => g
       | Some id => setDisposals (id :: disposals g) (setByRule (delete ruleID (upstreamByRule g)) g)
       end.

(** [storeCachedUpstream] of a new transport. *)
Definition storeCachedUpstream (ruleID : Z) u g : nat * cacheGroup :=
  let id := nextUp g in
  let g1 := mkGroup (<[id := u]> (ups g)) (S id) (upstreamByRule g) (targets g) (closed g) (disposals g) (users g)
              (resolving g) (cleaned g) in
  if (ruleID =? 0) || negb (RoundTripper u) then (id, g1)
  else
    let previous := upstreamByRule g !! ruleID in
    (id, setDisposals (option_list previous ++ disposals g1)
           (setByRule (<[ruleID := id]> (upstreamByRule g1))
              (setUps (<[id := setRefs (refs u +! 1) u]> (ups g1)) g1))).

(** [buildUpstream] before and after the target is resolved; [rule] is a rule
    of the group at the time of the first part. *)
Definition beginBuild (ruleID now : Z) g : option nat * cacheGroup :=
  let '(found, g1) := acquireCachedUpstream ruleID now g in
  match found with
  | Some id => (Some id, g1)
  | None => (None, setResolving ((ruleID, default "" (targets g1 !! ruleID)) :: resolving g1) g1)
  end.

(** The [i]-th request that was resolving has a transport now. *)
Definition finishBuild (i : nat) (now : Z) g : cacheGroup :=
  match resolving g !! i with
  | None => g
  | Some (ruleID, target) =>
      let '(id, g1) := storeCachedUpstream ruleID (mkUpstream target (Some now) true true 0 false)
                         (setResolving (delete i (resolving g)) g) in
      setUsers (id :: users g1) g1
  end.

(** The rules are replaced ([refreshListenerGroup]). *)
Definition refreshUpstreams (rules : gmap Z string) g : cacheGroup :=
  let g1 := dropWhere (fun _ _ => true) g in
  mkGroup (ups g1) (nextUp g1) (upstreamByRule g1) rules (closed g1) (disposals g1) (users g1) (resolving g1) (cleaned g1).

(** The part of [shutdown] that concerns the transports. *)
Definition shutdownUpstreams g : cacheGroup :=
  let g1 := dropWhere (fun _ _ => true) g in
  mkGroup (ups g1) (nextUp g1) (upstreamByRule g1) (targets g1) true (disposals g1) (users g1) (resolving g1) (cleaned g1).

Definition runDisposal (i : nat) g : cacheGroup :=
  match disposals g !! i with
  | None => g
  | Some id => disposeCachedUpstream id (setDisposals (delete i (disposals g)) g)
  end.

(** ** Runs *)

Definition emptyCache (rules : gmap Z string) : cacheGroup := mkGroup ∅ 0 ∅ rules false [] [] [] [].

Inductive cacheStep : cacheGroup -> cacheGroup -> Prop :=
| cs_begin g ruleID now : ruleID <> 0 -> Z.of_nat (length (users g)) < max_i64 ->
    cacheStep g (beginBuild ruleID now g).2
| cs_finish g i now : Z.of_nat (length (users g)) < max_i64 -> cacheStep g (finishBuild i now g)
| cs_release g i : cacheStep g (releaseCachedUpstream i g)
| cs_prune g now : cacheStep g (pruneExpiredCachedUpstreams now g)
| cs_settings g rules previous next : cacheStep g (applyResourceSettings rules previous next g)
| cs_invalidate g ruleID : cacheStep g (invalidateCachedUpstream ruleID g)
| cs_refresh g rules : cacheStep g (refreshUpstreams rules g)
| cs_shutdown g : cacheStep g (shutdownUpstreams g)
| cs_dispose g i : cacheStep g (runDisposal i g).

Inductive cacheRun (rules : gmap Z string) : cacheGroup -> Prop :=
| cr_new : cacheRun rules (emptyCache rules)
| cr_step g g' : cacheRun rules g -> cacheStep g g' -> cacheRun rules g'.

(** ** The invariant *)

Definition usersOf (l : list nat) (id : nat) : Z := Z.of_nat (length (filter (fun x => x = id) l)).

Lemma usersOf_cons l x id : usersOf (x :: l) id = usersOf l id + if decide (x = id) then 1 else 0.
Proof. unfold usersOf. rewrite filter_cons. destruct (decide (x = id)); cbn [length]; lia. Qed.

Lemma usersOf_pos l id : id ∈ l <-> 0 < usersOf l id.
Proof.
  induction l as [|x l IH].
  - split; [by intros ?%not_elem_of_nil|]. unfold usersOf. simpl. lia.
  - rewrite elem_of_cons, usersOf_cons, IH. assert (0 <= usersOf l id) by (unfold usersOf; lia).
    destruct (decide (x = id)) as [->|]; [split; [lia|by left]|]. split; [intros [->|]; [done|lia]|intros; right; lia].
Qed.

Lemma usersOf_delete l i x id : l !! i = Some x ->
  usersOf l id = usersOf (delete i l) id + if decide (x = id) then 1 else 0.
Proof.
  intros H. rewrite <-usersOf_cons. unfold usersOf. by rewrite <-(delete_Permutation _ _ _ H).
Qed.

Record CacheInv g : Prop := {
  ci_refs : forall id u, ups g !! id = Some u -> refs u = usersOf (users g) id;
  ci_users : forall id, id ∈ users g -> is_Some (ups g !! id);
  ci_rule : forall r id, upstreamByRule g !! r = Some id -> is_Some (ups g !! id);
  ci_next : forall id, is_Some (ups g !! id) <-> (id < nextUp g)%nat;
  ci_clean : forall id u, ups g !! id = Some u -> Cleanup u = false <-> id ∈ cleaned g;
  ci_once : NoDup (cleaned g);
  ci_idle : forall id, id ∈ cleaned g -> exists u, ups g !! id = Some u /\ closing u = true /\ refs u = 0;
  ci_kept : forall id u, ups g !! id = Some u -> Cleanup u = true ->
    (exists r, upstreamByRule g !! r = Some id) \/ id ∈ disposals g \/ (closing u = true /\ 0 < refs u);
  ci_resolving : forall r t, (r, t) ∈ resolving g -> r <> 0;
  ci_small : Z.of_nat (length (users g)) <= max_i64 }.

(** One transport rewritten with its books in order. *)
Lemma put_inv g id u us ds cl : CacheInv g -> is_Some (ups g !! id) ->
  (forall x, usersOf us x = if decide (x = id) then refs u else usersOf (users g) x) ->
  (forall x, x ∈ us -> is_Some (ups g !! x)) -> Z.of_nat (length us) <= max_i64 ->
  (forall x, x <> id -> x ∈ disposals g -> x ∈ ds) ->
  NoDup cl -> (forall x, x <> id -> x ∈ cl <-> x ∈ cleaned g) ->
  (Cleanup u = false <-> id ∈ cl) -> (id ∈ cl -> closing u = true /\ refs u = 0) ->
  (Cleanup u = true -> (exists r, upstreamByRule g !! r = Some id) \/ id ∈ ds \/ (closing u = true /\ 0 < refs u)) ->
  CacheInv (mkGroup (<[id := u]> (ups g)) (nextUp g) (upstreamByRule g) (targets g) (closed g) ds us (resolving g) cl).
Proof.
  intros Hi Hid Hus Hsub Hsm Hds Hnd Hcl Hc Hidle Hkept.
  assert (forall x, is_Some (<[id := u]> (ups g) !! x) <-> is_Some (ups g !! x)) as Hdom.
  { intros x. rewrite lookup_insert_is_Some'. split; [by intros [<-|]|by right]. }
  split; cbn [ups nextUp upstreamByRule disposals users resolving cleaned].
  - intros x v. rewrite Hus. destruct (decide (x = id)) as [->|Hne].
    + rewrite lookup_insert_eq. by intros [= <-].
    + rewrite lookup_insert_ne by done. apply (ci_refs g Hi).
  - intros x Hx. by apply Hdom, Hsub.
  - intros r x Hx. by eapply Hdom, (ci_rule g Hi).
  - intros x. rewrite Hdom. apply (ci_next g Hi).
  - intros x v. destruct (decide (x = id)) as [->|Hne].
    + rewrite lookup_insert_eq. by intros [= <-].
    + rewrite lookup_insert_ne by done. intros Hv. rewrite Hcl by done. by apply (ci_clean g Hi).
  - done.
  - intros x Hx. destruct (decide (x = id)) as [->|Hne].
    + rewrite lookup_insert_eq. exists u. split; [done|by apply Hidle].
    + rewrite lookup_insert_ne by done. apply (ci_idle g Hi). by apply Hcl.
  - intros x v. destruct (decide (x = id)) as [->|Hne].
    + rewrite lookup_insert_eq. by intros [= <-].
    + rewrite lookup_insert_ne by done. intros Hv Hcv. destruct (ci_kept g Hi x v Hv Hcv) as [?|[?|?]]; [by left| |by auto].
      right. left. by apply Hds.
  - apply (ci_resolving g Hi).
  - done.
Qed.

(** Settling the books of a transport that loses a user or a place. *)
Lemma settle_inv g id u0 u us ds : CacheInv g -> ups g !! id = Some u0 ->
  Cleanup u = Cleanup u0 -> (closing u0 = true -> closing u = true) ->
  (forall x, usersOf us x = if decide (x = id) then refs u else usersOf (users g) x) ->
  (forall x, x ∈ us -> x ∈ users g) -> Z.of_nat (length us) <= max_i64 ->
  (forall x, x <> id -> x ∈ disposals g -> x ∈ ds) ->
  (Cleanup u = true -> (exists r, upstreamByRule g !! r = Some id) \/ id ∈ ds \/ closing u = true) ->
  CacheInv (settle id u (setDisposals ds (setUsers us g))).
Proof.
  intros Hi Hu Hcl Hclose Hus Hsub Hsm Hds Hkept.
  assert (0 <= refs u) as Hpos by (specialize (Hus id); rewrite decide_True in Hus by done; unfold usersOf in Hus; lia).
  assert (is_Some (ups g !! id)) as Hid by (by rewrite Hu).
  assert (forall x, x ∈ us -> is_Some (ups g !! x)) as Hsub' by (intros x Hx; by apply (ci_users g Hi), Hsub).
  pose proof (ci_clean g Hi id u0 Hu) as Hc0. rewrite <-Hcl in Hc0.
  assert (id ∈ cleaned g -> closing u = true /\ refs u = 0) as Hid0.
  { intros Hin. destruct (ci_idle g Hi id Hin) as (u1 & Hu1 & Hc1 & Hr1). rewrite Hu in Hu1. injection Hu1 as <-.
    split; [by apply Hclose|]. specialize (Hus id). rewrite decide_True in Hus by done.
    destruct (decide (id ∈ us)) as [Hx%Hsub|Hx]; rewrite usersOf_pos in Hx; [|lia].
    rewrite <-(ci_refs g Hi id u0 Hu) in Hx. lia. }
  unfold settle. destruct ((refs u =? 0) && closing u && Cleanup u) eqn:E;
    unfold setCleaned, setUps, setDisposals, setUsers;
    cbn [ups nextUp upstreamByRule targets closed disposals users resolving cleaned].
  - rewrite !andb_true_iff, Z.eqb_eq in E. destruct E as [[E1 E2] E3].
    assert (id ∉ cleaned g) as Hnot by (rewrite <-Hc0; congruence).
    apply put_inv; try done.
    + apply NoDup_app. split_and!; [apply (ci_once g Hi)| |apply NoDup_singleton].
      intros x Hx ->%list_elem_of_singleton. done.
    + intros x Hne. rewrite elem_of_app, list_elem_of_singleton. tauto.
    + cbn. rewrite elem_of_app, list_elem_of_singleton. tauto.
  - apply put_inv; try done; [apply (ci_once g Hi)|].
    intros Hct. destruct (Hkept Hct) as [?|[?|Hcc]]; [by left|by auto|]. right. right. split; [done|].
    rewrite Hcc, Hct, !andb_true_r, Z.eqb_neq in E. lia.
Qed.

(** Rules that lose their transport, which is queued. *)
Lemma dropRules_inv g m ds : CacheInv g ->
  (forall r id, m !! r = Some id -> upstreamByRule g !! r = Some id) ->
  (forall x, x ∈ disposals g -> x ∈ ds) ->
  (forall r id, upstreamByRule g !! r = Some id -> m !! r = Some id \/ id ∈ ds) ->
  CacheInv (setDisposals ds (setByRule m g)).
Proof.
  intros Hi Hm Hds Hgone. split; cbn [setDisposals setByRule ups nextUp upstreamByRule disposals users resolving cleaned];
    try apply Hi.
  - intros r id H. eapply (ci_rule g Hi). by apply Hm.
  - intros id u Hu Hc. destruct (ci_kept g Hi id u Hu Hc) as [[r Hr]|[?|?]]; auto.
    destruct (Hgone r id Hr); [left; by exists r|auto].
Qed.

Lemma dropWhere_inv p g : CacheInv g -> CacheInv (dropWhere p g).
Proof.
  intros Hi. unfold dropWhere. apply dropRules_inv; [done| | |].
  - intros r id H%map_lookup_filter_Some. tauto.
  - intros x Hx. apply elem_of_app. by left.
  - intros r id H. destruct (p r id) eqn:E.
    + right. apply elem_of_app. right. apply list_elem_of_fmap. exists (r, id). split; [done|].
      apply list_elem_of_filter. split; [done|]. by apply elem_of_map_to_list.
    + left. by apply map_lookup_filter_Some.
Qed.

Lemma invalidate_inv ruleID g : CacheInv g -> CacheInv (invalidateCachedUpstream ruleID g).
Proof.
  intros Hi. unfold invalidateCachedUpstream. destruct (ruleID =? 0); [done|].
  destruct (upstreamByRule g !! ruleID) as [id|] eqn:E; [|done]. apply dropRules_inv; [done| | |].
  - intros r x H%lookup_delete_Some. tauto.
  - intros x Hx. by right.
  - intros r x H. destruct (decide (r = ruleID)) as [->|]; [|left; by rewrite lookup_delete_ne].
    right. rewrite E in H. injection H as <-. by left.
Qed.

Lemma disposal_inv i g : CacheInv g -> CacheInv (runDisposal i g).
Proof.
  intros Hi. unfold runDisposal. destruct (disposals g !! i) as [id|] eqn:Ed; [|done].
  unfold disposeCachedUpstream. cbn [setDisposals ups]. destruct (ups g !! id) as [u|] eqn:Eu.
  - replace (setDisposals (delete i (disposals g)) g) with
      (setDisposals (delete i (disposals g)) (setUsers (users g) g)) by (by destruct g).
    eapply settle_inv; try done; [| | |]; cbn [setClosing refs closing Cleanup].
    + intros x. destruct (decide (x = id)) as [->|]; [|done]. by rewrite (ci_refs g Hi id u Eu).
    + apply (ci_small g Hi).
    + intros x Hne Hx. rewrite (delete_Permutation _ _ _ Ed), elem_of_cons in Hx. by destruct Hx.
    + intros _. by auto.
  - replace (setDisposals (delete i (disposals g)) g) with
      (setDisposals (delete i (disposals g)) (setByRule (upstreamByRule g) g)) by (by destruct g).
    destruct Hi as [Hr Hu Hru Hn Hc Ho Hid Hk Hres Hs]. split; cbn; try done.
    intros x v Hv Hcv. destruct (Hk x v Hv Hcv) as [?|[Hx|?]]; auto.
    rewrite (delete_Permutation _ _ _ Ed), elem_of_cons in Hx. destruct Hx as [->|]; [congruence|auto].
Qed.

Lemma release_cached_inv i g : CacheInv g -> CacheInv (releaseCachedUpstream i g).
Proof.
  intros Hi. unfold releaseCachedUpstream. destruct (users g !! i) as [id|] eqn:Ed; [|done].
  destruct (ci_users g Hi id) as [u Eu]; [by eapply list_elem_of_lookup_2|].
  unfold releaseUpstream. cbn [setUsers ups]. rewrite Eu.
  replace (setUsers (delete i (users g)) g) with
    (setDisposals (disposals g) (setUsers (delete i (users g)) g)) by (by destruct g).
  pose proof (ci_refs g Hi id u Eu) as Hr. pose proof (usersOf_delete _ _ _ id Ed) as Hd.
  rewrite decide_True in Hd by done. assert (0 <= usersOf (delete i (users g)) id) by (unfold usersOf; lia).
  destruct (Z.ltb_spec 0 (refs u)); [|lia].
  eapply settle_inv; try done; cbn [setRefs refs closing Cleanup].
  - intros x. destruct (decide (x = id)) as [->|Hne]; [lia|].
    rewrite (usersOf_delete _ _ _ x Ed), decide_False; [lia|done].
  - intros x Hx. rewrite (delete_Permutation _ _ _ Ed). by right.
  - pose proof (ci_small g Hi) as Hs. rewrite (delete_Permutation _ _ _ Ed) in Hs. cbn in Hs. lia.
  - intros Hc. destruct (ci_kept g Hi id u Eu Hc) as [?|[?|[? ?]]]; auto.
Qed.

Lemma acquire_inv ruleID now g : CacheInv g -> Z.of_nat (length (users g)) < max_i64 ->
  CacheInv (acquireCachedUpstream ruleID now g).2.
Proof.
  intros Hi Hl. unfold acquireCachedUpstream. destruct (ruleID =? 0); [done|].
  destruct (upstreamByRule g !! ruleID) as [id|] eqn:Er; [|done].
  destruct (ups g !! id) as [u|] eqn:Eu; [|done].
  destruct (closing u || negb (RoundTripper u)) eqn:Ec; [done|]. apply orb_false_iff in Ec as [Ec _].
  destruct (expired now u); cbn [snd].
  - pose proof (invalidate_inv ruleID g Hi) as H. unfold invalidateCachedUpstream in H. rewrite Er in H.
    destruct (Z.eqb_spec ruleID 0) as [->|]; [|done]. apply dropRules_inv; [done| | |].
    + intros r x Hx%lookup_delete_Some. tauto.
    + intros x Hx. by right.
    + intros r x Hx. destruct (decide (r = 0)) as [->|]; [|left; by rewrite lookup_delete_ne].
      right. rewrite Er in Hx. injection Hx as <-. by left.
  - pose proof (ci_refs g Hi id u Eu) as Hr. pose proof (ci_clean g Hi id u Eu) as Hc.
    assert (0 <= refs u <= Z.of_nat (length (users g))) as Hb.
    { rewrite Hr. unfold usersOf. pose proof (length_filter (fun x => x = id) (users g)). lia. }
    unfold setUsers, setUps. cbn [ups nextUp upstreamByRule targets closed disposals users resolving cleaned].
    assert (is_Some (ups g !! id)) as Hid by (by rewrite Eu).
    apply put_inv; try done; cbn [setRefs refs closing Cleanup].
    + intros x. rewrite usersOf_cons. rewrite wrap64_id by in_range.
      destruct (decide (x = id)), (decide (id = x)); try congruence; subst; lia.
    + intros x. rewrite elem_of_cons. intros [->|Hx]; [by rewrite Eu|by apply (ci_users g Hi)].
    + cbn [length]. lia.
    + apply (ci_once g Hi).
    + intros Hin. destruct (ci_idle g Hi id Hin) as (v & Hv & Hcv & _). congruence.
    + intros _. left. by exists ruleID.
Qed.

Lemma begin_inv ruleID now g : CacheInv g -> ruleID <> 0 -> Z.of_nat (length (users g)) < max_i64 ->
  CacheInv (beginBuild ruleID now g).2.
Proof.
  intros Hi Hr Hl. pose proof (acquire_inv ruleID now g Hi Hl) as H. unfold beginBuild.
  destruct (acquireCachedUpstream ruleID now g) as [[id|] g1]; cbn [snd] in *; [done|].
  split; cbn [setResolving ups nextUp upstreamByRule disposals users resolving cleaned]; try apply H.
  intros r t. rewrite elem_of_cons. intros [[= -> _]|Hx]; [done|by eapply (ci_resolving g1 H)].
Qed.

(** A new transport, stored for its rule and used by the request that made it. *)
Lemma store_inv ruleID target now g : CacheInv g -> ruleID <> 0 -> Z.of_nat (length (users g)) < max_i64 ->
  let '(id, g1) := storeCachedUpstream ruleID (mkUpstream target (Some now) true true 0 false) g in
  CacheInv (setUsers (id :: users g1) g1).
Proof.
  intros Hi Hr Hl. unfold storeCachedUpstream. destruct (Z.eqb_spec ruleID 0); [done|]. cbn [RoundTripper negb orb].
  set (id := nextUp g). set (u := mkUpstream _ _ _ _ _ _).
  unfold setUsers, setDisposals, setByRule, setUps.
  cbn [ups nextUp upstreamByRule targets closed disposals users resolving cleaned]. rewrite insert_insert_eq.
  cbn [setRefs refs u]. rewrite wrap64_id by in_range. set (u1 := setRefs (0 + 1) u).
  assert (ups g !! id = None) as Hfresh.
  { destruct (ups g !! id) eqn:E; [|done]. assert (id < nextUp g)%nat by (apply (ci_next g Hi); by rewrite E). unfold id in *. lia. }
  assert (usersOf (users g) id = 0) as Hz.
  { destruct (decide (id ∈ users g)) as [Hx|Hx]; [apply (ci_users g Hi) in Hx; rewrite Hfresh in Hx; by destruct Hx|].
    rewrite usersOf_pos in Hx. unfold usersOf in *. lia. }
  assert (id ∉ cleaned g) as Hnc.
  { intros Hx. destruct (ci_idle g Hi id Hx) as (v & Hv & _). congruence. }
  split; cbn [ups nextUp upstreamByRule disposals users resolving cleaned].
  - intros x v. rewrite usersOf_cons. destruct (decide (x = id)) as [->|Hne].
    + rewrite lookup_insert_eq, decide_True by done. intros [= <-]. cbn. lia.
    + rewrite lookup_insert_ne, decide_False by done. intros Hv. rewrite (ci_refs g Hi x v Hv). lia.
  - intros x. rewrite elem_of_cons, lookup_insert_is_Some'. intros [->|Hx]; [by left|right; by apply (ci_users g Hi)].
  - intros r x. rewrite lookup_insert_is_Some'. destruct (decide (r = ruleID)) as [->|].
    + rewrite lookup_insert_eq. intros [= <-]. by left.
    + rewrite lookup_insert_ne by done. intros Hx. right. by eapply (ci_rule g Hi).
  - intros x. rewrite lookup_insert_is_Some', (ci_next g Hi). unfold id. lia.
  - intros x v. destruct (decide (x = id)) as [->|Hne].
    + rewrite lookup_insert_eq. intros [= <-]. cbn. split; [done|]. intros Hx. by destruct Hnc.
    + rewrite lookup_insert_ne by done. apply (ci_clean g Hi).
  - apply (ci_once g Hi).
  - intros x Hx. rewrite lookup_insert_ne; [by apply (ci_idle g Hi)|]. by intros <-.
  - intros x v. destruct (decide (x = id)) as [->|Hne].
    + intros _ _. left. exists ruleID. apply lookup_insert_eq.
    + rewrite lookup_insert_ne by done. intros Hv Hcv. destruct (ci_kept g Hi x v Hv Hcv) as [[r Hx]|[Hx|?]]; [| |auto].
      * destruct (decide (r = ruleID)) as [->|]; [|left; exists r; by rewrite lookup_insert_ne].
        right. left. rewrite Hx. by left.
      * right. left. apply elem_of_app. by right.
  - apply (ci_resolving g Hi).
  - cbn [length]. lia.
Qed.

Lemma finish_build_inv i now g : CacheInv g -> Z.of_nat (length (users g)) < max_i64 -> CacheInv (finishBuild i now g).
Proof.
  intros Hi Hl. unfold finishBuild. destruct (resolving g !! i) as [[ruleID target]|] eqn:E; [|done].
  assert (ruleID <> 0) as Hr by (eapply (ci_resolving g Hi), list_elem_of_lookup_2, E).
  assert (CacheInv (setResolving (delete i (resolving g)) g)) as Hi1.
  { split; cbn [setResolving ups nextUp upstreamByRule disposals users resolving cleaned]; try apply Hi.
    intros r t Hx. eapply (ci_resolving g Hi r t). rewrite (delete_Permutation _ _ _ E). by right. }
  pose proof (store_inv ruleID target now _ Hi1 Hr Hl) as H.
  by destruct (storeCachedUpstream ruleID _ _).
Qed.

Lemma cacheRun_inv rules g : cacheRun rules g -> CacheInv g.
Proof.
  induction 1 as [|g g' _ IH Hs].
  - split; cbn; try done; try (by intros *; rewrite lookup_empty); try (by intros * ?%not_elem_of_nil).
    + intros id. rewrite lookup_empty. split; [by intros []|lia].
    + constructor.
  - destruct Hs; eauto using begin_inv, finish_build_inv, release_cached_inv, dropWhere_inv, invalidate_inv, disposal_inv.
    + unfold applyResourceSettings. destruct (_ =? _); [done|by apply dropWhere_inv].
    + pose proof (dropWhere_inv (fun _ _ => true) g IH) as H. destruct H. by split.
    + pose proof (dropWhere_inv (fun _ _ => true) g IH) as H. destruct H. by split.
Qed.

(** ** The claims *)

Lemma acquire_open ruleID now g id : (acquireCachedUpstream ruleID now g).1 = Some id ->
  exists u, ups g !! id = Some u /\ closing u = false.
Proof.
  unfold acquireCachedUpstream. destruct (ruleID =? 0); [done|].
  destruct (upstreamByRule g !! ruleID) as [x|]; [|done]. destruct (ups g !! x) as [u|] eqn:E; [|done].
  destruct (closing u) eqn:Ec, (RoundTripper u), (expired now u); cbn; try done. intros [= <-]. by exists u.
Qed.

(** C9: However requests, refreshes, expiry, invalidation, shutdown and the
    disposals they leave behind interleave, the count of a transport is the
    number of requests that hold it; a transport is cleaned up at most once,
    never while a request holds it, and is not handed out afterwards; and one
    that was not cleaned up is held by a request, is the transport of a rule
    or awaits its disposal. *)
Theorem upstream_cleanup_exact rules g : cacheRun rules g ->
  (forall id u, ups g !! id = Some u -> refs u = usersOf (users g) id) /\
  NoDup (cleaned g) /\
  (forall id, id ∈ cleaned g -> id ∉ users g /\ forall ruleID now, (beginBuild ruleID now g).1 <> Some id) /\
  (forall id, (id < nextUp g)%nat ->
     id ∈ cleaned g \/ id ∈ users g \/ id ∈ disposals g \/ exists r, upstreamByRule g !! r = Some id).
Proof.
  intros Hi%cacheRun_inv. split_and!.
  - apply (ci_refs g Hi).
  - apply (ci_once g Hi).
  - intros id Hc. destruct (ci_idle g Hi id Hc) as (u & Hu & Hcl & Hz). split.
    + rewrite usersOf_pos, <-(ci_refs g Hi id u Hu). lia.
    + intros ruleID now Hb. pose proof (acquire_open ruleID now g id) as Ha. unfold beginBuild in Hb.
      destruct (acquireCachedUpstream ruleID now g) as [[x|] g1]; [|done]. destruct (Ha Hb) as (v & Hv & ?). congruence.
  - intros id [u Hu]%(ci_next g Hi). destruct (Cleanup u) eqn:E; [|left; by apply (ci_clean g Hi id u)].
    destruct (ci_kept g Hi id u Hu E) as [?|[?|[_ Hr]]]; auto.
    right. left. apply usersOf_pos. by rewrite <-(ci_refs g Hi id u Hu).
Qed.

Definition oldTargets : gmap Z string := {[1 := "old"%string]}.

(** Two requests for one rule resolve its target; the transport of the second
    replaces that of the first, which is cleaned up when its request is done. *)
Definition replacedCache : cacheGroup :=
  releaseCachedUpstream 1 (runDisposal 0 (finishBuild 0 7 (finishBuild 0 5
    (beginBuild 1 0 (beginBuild 1 0 (emptyCache oldTargets)).2).2))).

Lemma replacedCache_run : cacheRun oldTargets replacedCache.
Proof. repeat (eapply cr_step; [|constructor; done]). constructor. Qed.

Lemma upstream_cleanup_exact_witness :
  cleaned replacedCache = [0%nat] /\ users replacedCache = [1%nat] /\ NoDup (cleaned replacedCache) /\
  (beginBuild 1 8 replacedCache).1 = Some 1%nat /\ 0%nat ∉ users replacedCache.
Proof.
  destruct (upstream_cleanup_exact oldTargets replacedCache replacedCache_run) as (_ & H1 & H2 & _).
  split_and!; [vm_compute; reflexivity|vm_compute; reflexivity|exact H1|vm_compute; reflexivity|].
  apply H2. vm_compute. by left.
Defined.

(** The target is resolved before, and stored after, the rules are replaced. *)
Definition refreshedCache : cacheGroup :=
  releaseCachedUpstream 0 (finishBuild 0 5 (refreshUpstreams {[1 := "new"%string]} (beginBuild 1 0 (emptyCache oldTargets)).2)).

(** The same around a shutdown. *)
Definition shutCache : cacheGroup :=
  releaseCachedUpstream 0 (finishBuild 0 5 (shutdownUpstreams (beginBuild 1 0 (emptyCache oldTargets)).2)).

(** A transport that is stored after a refresh or a shutdown of the group
    survives it: with nothing else going on, a request for a rule whose target
    was changed is sent to the old target, and a group that was shut down
    keeps a transport that nobody disposes of. *)
Theorem late_store_stale :
  (cacheRun oldTargets refreshedCache /\ targets refreshedCache !! 1 = Some "new"%string /\
   disposals refreshedCache = [] /\ users refreshedCache = [] /\ resolving refreshedCache = [] /\
   exists u, (beginBuild 1 6 refreshedCache).1 = Some 0%nat /\ ups refreshedCache !! 0%nat = Some u /\
             ResolvedAddress u = "old"%string) /\
  (cacheRun oldTargets shutCache /\ closed shutCache = true /\
   disposals shutCache = [] /\ users shutCache = [] /\ resolving shutCache = [] /\
   nextUp shutCache = 1%nat /\ cleaned shutCache = []).
Proof.
  split; split_and!; try (vm_compute; reflexivity).
  - repeat (eapply cr_step; [|constructor; done]). constructor.
  - eexists. split_and!; [vm_compute; reflexivity|vm_compute; reflexivity|reflexivity].
  - repeat (eapply cr_step; [|constructor; done]). constructor.
Qed.
