(* ===== verification/Routing.v ===== *)
(** * Routing of requests ([service/reverse_proxy.go])

    A listener group serves many rules on one socket.  During the TLS
    handshake [getCertificate] picks a certificate for the name or the address
    the client asks for; a request is then given to the rule that matches its
    host, its path and, on TLS, the certificate the connection was given.
    When a rule is saved its condition is compared with those of the others.

    The parsers and printers of addresses ([net.ParseIP], [IP.Equal],
    [IP.String], [netip]), the decoder of JSON lists and
    [x509.Certificate.VerifyHostname] are parameters; no theorem assumes
    anything of them.  The calls of [time.Now] in one lookup read one time. *)

From stdpp Require Import base gmap list strings.
From Stdlib Require Import Ascii ZArith Lia.
From S2P Require Import Prelude GoStrings ProxyPaths LruTable CertBalance.

#[local] Open Scope Z_scope.

Definition reverseProxyProtocolHTTPS : string := "https".
Definition reverseProxyDNSProtocolDoH : string := "dns_doh".
Definition reverseProxyDNSProtocolDoHH3 : string := "dns_doh3".
Definition reverseProxyDNSProtocolDoQ : string := "dns_doq".
Definition reverseProxyDNSProtocolDoT : string := "dns_dot".
Definition reverseProxyDNSProtocolUDP : string := "dns_udp".
Definition reverseProxyDNSProtocolTCP : string := "dns_tcp".

(** [reverseProxyTLSClientDomain], [reverseProxyTLSClientIP] and
    [reverseProxyTLSClientNoSNI]; the empty kind is that of a selection that
    was never made. *)
Inductive clientKind : Type := KindNone | KindDomain | KindIP | KindNoSNI.

#[export] Instance clientKind_dec : EqDecision clientKind.
Proof. solve_decision. Defined.

Record reverseProxyCertificateSelection : Type := mkSelection {
  ListenerKey : string;
  SNIBucket : string;
  sel_CertificateRecordID : Z;
  ClientKind : clientKind;
  RequestedIP : string }.

(** What routing reads of a [model.ReverseProxyRule]. *)
Record ReverseProxyRule : Type := mkRule {
  Id : Z;
  HostList : string;
  ListenProtocol : string;
  ListenProtocolAlias : string;
  PathPrefix : string;
  ListenDNSPath : string }.

Record reverseProxyRuleMatchData : Type := mkMatchData {
  serverNames : list string;
  listenAlias : string;
  pathPrefix : string;
  dnsPath : string }.

Record listenerGroup : Type := mkListener {
  key : string;
  protocol : string;
  rules : list (option ReverseProxyRule);
  ruleMatchData : gmap Z reverseProxyRuleMatchData;
  certBindingsByRule : gmap Z (list (option reverseProxyRuleCertificateBinding));
  orderedCertBindings : list (option reverseProxyRuleCertificateBinding);
  ipCertBindings : gmap string (list (option reverseProxyRuleCertificateBinding));
  ipCertificateUniverse : gset string;
  natFallbackCertBindings : gmap string (list (option reverseProxyRuleCertificateBinding)) }.

Implicit Types (g : listenerGroup) (r : ReverseProxyRule) (sel : reverseProxyCertificateSelection).

(** ** Lists of names *)

(** Keep the first of equal keys. *)
Fixpoint dedupe {A} (keyOf : A -> option string) (seen : gset string) (l : list A) : list string :=
  match l with
  | [] => []
  | a :: rest =>
      match keyOf a with
      | None => dedupe keyOf seen rest
      | Some k => if decide (k ∈ seen) then dedupe keyOf seen rest else k :: dedupe keyOf ({[k]} ∪ seen) rest
      end
  end.

Definition nonEmpty (s : string) : option string := if String.eqb s "" then None else Some s.

Definition reverseProxyCleanServerNames (values : list string) : list string :=
  dedupe (fun v => nonEmpty (reverseProxyNormalizeServerName v)) ∅ values.

(** ** Protocols *)

Definition reverseProxyIsHTTPDNSAlias (alias : string) : bool :=
  let a := to_lower (trim_space alias) in
  String.eqb a reverseProxyDNSProtocolDoH || String.eqb a reverseProxyDNSProtocolDoHH3.

Definition knownAlias (a : string) : bool :=
  existsb (String.eqb a) ["ws"; "wss"; reverseProxyDNSProtocolDoH; reverseProxyDNSProtocolDoHH3;
    reverseProxyDNSProtocolDoQ; reverseProxyDNSProtocolDoT; reverseProxyDNSProtocolUDP; reverseProxyDNSProtocolTCP].

Definition normalizeReverseProxyProtocolAlias (alias protocolRaw : string) : string :=
  let rawAlias := to_lower (trim_space alias) in
  if knownAlias rawAlias then rawAlias
  else
    let rawProtocol := to_lower (trim_space protocolRaw) in
    if knownAlias rawProtocol then rawProtocol else "".

Definition aliasOf r : string := normalizeReverseProxyProtocolAlias (ListenProtocolAlias r) (ListenProtocol r).
Definition isDNSRule r : bool := reverseProxyIsHTTPDNSAlias (aliasOf r).
(** The path a rule has for its kind. *)
Definition rulePath r : string := if isDNSRule r then ListenDNSPath r else PathPrefix r.

(** ** Patterns of names *)

Definition hostTokenByte (c : ascii) : bool :=
  let n := nat_of_ascii c in
  ((65 <=? n) && (n <=? 90) || (97 <=? n) && (n <=? 122) || (48 <=? n) && (n <=? 58) ||
   (n =? 46) || (n =? 45) || (n =? 91) || (n =? 93))%nat.

(** [reverseProxyHostTokenRe.MatchString]; the class holds [:], next to [9]. *)
Definition reverseProxyHostTokenRe (s : string) : bool := negb (String.eqb s "") && allc hostTokenByte s.

Fixpoint countByte (c : ascii) (s : string) : Z :=
  match s with EmptyString => 0 | String a s' => (if Ascii.eqb a c then 1 else 0) + countByte c s' end.

Definition reverseProxyIsStandardWildcardHost (value : string) : bool :=
  has_prefix value "*." && (countByte "*" value =? 1) &&
  let suffix := trim_prefix value "*." in
  negb (String.eqb suffix "") && containsByte "." suffix && reverseProxyHostTokenRe suffix.

(** The form both sides of a comparison are brought to. *)
Definition hostCore (s : string) : string := to_lower (trim_suffix (trim_space s) ".").

(** ** Addresses

    A [net.IP] is a slice of bytes, 4 or 16 of them for an address; an address
    of 4 bytes and its form in 16 are equal. *)

Definition unmapPrefix : list Z := replicate 10 0 ++ [255; 255].

(** [IP.To4] and [netip.Addr.Unmap] *)
Definition unmap (ip : list Z) : list Z :=
  if decide (length ip = 16%nat /\ take 12 ip = unmapPrefix) then drop 12 ip else ip.

(** [IP.Equal] *)
Definition ipEqual (a b : list Z) : bool :=
  if (length a =? length b)%nat then bool_decide (a = b)
  else if ((length a =? 4) && (length b =? 16))%nat then bool_decide (unmapPrefix ++ a = b)
  else if ((length a =? 16) && (length b =? 4))%nat then bool_decide (a = unmapPrefix ++ b)
  else false.

(** The predicates of [netip.Addr] on an address that was unmapped. *)
Definition isUnspecified (a : list Z) : bool := forallb (Z.eqb 0) a.
Definition isLoopback (a : list Z) : bool :=
  match a with [x; _; _; _] => x =? 127 | _ => bool_decide (a = replicate 15 0 ++ [1]) end.
Definition isPrivate (a : list Z) : bool :=
  match a with
  | [x; y; _; _] => (x =? 10) || (x =? 172) && (Z.land y 240 =? 16) || (x =? 192) && (y =? 168)
  | x :: _ => Z.land x 254 =? 252
  | [] => false
  end.
Definition isLinkLocalUnicast (a : list Z) : bool :=
  match a with
  | [x; y; _; _] => (x =? 169) && (y =? 254)
  | x :: y :: _ => (x =? 254) && (Z.land y 192 =? 128)
  | _ => false
  end.
Definition isSharedAddress (a : list Z) : bool :=      (* 100.64.0.0/10 *)
  match a with [x; y; _; _] => (x =? 100) && (Z.land y 192 =? 64) | _ => false end.

Definition reverseProxyLocalAddressMayHidePublicTarget (ip : list Z) : bool :=
  if negb ((length ip =? 4) || (length ip =? 16))%nat then true
  else
    let addr := unmap ip in
    isUnspecified addr || isLoopback addr || isPrivate addr || isLinkLocalUnicast addr || isSharedAddress addr.

Section Model.
Context (ParseIP : string -> option (list Z)) (ipString : list Z -> string).
Context (ParseAddr : string -> option (list Z)) (addrString : list Z -> string).
Context (unmarshalList : string -> option (list string)).
Context (VerifyHostname : x509Certificate -> string -> bool).

Definition decodeReverseProxyList (raw : string) : list string :=
  let raw := trim_space raw in
  if String.eqb raw "" then []
  else match unmarshalList raw with
       | None => []
       | Some result => dedupe (fun item => option_map to_lower (nonEmpty (trim_space item))) ∅ result
       end.

Definition reverseProxyRuleServerNames r : list string :=
  reverseProxyCleanServerNames (decodeReverseProxyList (HostList r)).

Definition reverseProxyParseIPLiteral (value : string) : option (list Z) :=
  let value := trim_space (trimBrackets value) in
  if String.eqb value "" then None else ParseIP value.

Definition reverseProxyIPLiteralEqual (a b : string) : bool :=
  match reverseProxyParseIPLiteral a, reverseProxyParseIPLiteral b with
  | Some x, Some y => ipEqual x y
  | _, _ => false
  end.

(** [reverseProxyHostPatternMatches] of two names in the form of [hostCore]. *)
Definition coreMatches (pattern host : string) : bool :=
  if String.eqb pattern "" || String.eqb host "" then false
  else if reverseProxyIPLiteralEqual pattern host then true
  else if String.eqb pattern host then true
  else if negb (reverseProxyIsStandardWildcardHost pattern) then false
  else
    let suffix := trim_prefix pattern "*." in
    if negb (has_suffix host ("." +:+ suffix)) then false
    else
      let remainder := trim_suffix host ("." +:+ suffix) in
      negb (String.eqb remainder "") && negb (containsByte "." remainder).

Definition reverseProxyHostPatternMatches (pattern host : string) : bool :=
  coreMatches (hostCore pattern) (hostCore host).

Definition reverseProxyRuleNamesOverlap (a b : list string) : bool :=
  match a, b with
  | [], _ | _, [] => match a, b with [], [] => true | _, _ => false end
  | _, _ => existsb (fun item => existsb (fun candidate =>
              reverseProxyHostPatternMatches item candidate || reverseProxyHostPatternMatches candidate item) b) a
  end.

(** [reverseProxyExistingNormalizedHTTPConditionsOverlap]; the new rule is
    given as it is stored. *)
Definition reverseProxyExistingNormalizedHTTPConditionsOverlap (existing row : ReverseProxyRule) : bool :=
  reverseProxyRuleNamesOverlap (reverseProxyRuleServerNames existing) (reverseProxyRuleServerNames row) &&
  reverseProxyHTTPPathConditionsOverlap (rulePath existing) (isDNSRule existing) (rulePath row) (isDNSRule row).

Definition reverseProxyRequestNameMatchesAny (candidates : list string) (name : string) : bool :=
  let name := reverseProxyNormalizeServerName name in
  negb (String.eqb name "") && existsb (fun candidate => reverseProxyHostPatternMatches candidate name) candidates.

Definition reverseProxyRuleServerNameMatch (r : ReverseProxyRule) (serverName : string) : bool :=
  let serverName := reverseProxyNormalizeServerName serverName in
  negb (String.eqb serverName "") &&
  existsb (fun candidate => reverseProxyHostPatternMatches candidate serverName) (reverseProxyRuleServerNames r).
(** ** Certificates *)

Section Lookup.
Context (now : Z).

Definition parsedOf (b : reverseProxyRuleCertificateBinding) : option x509Certificate := Leaf b ≫= parsedLeaf.

Definition reverseProxyLeafMatchesServerName (leaf : x509Certificate) (serverName : string) : bool :=
  let serverName := reverseProxyNormalizeServerName serverName in
  negb (String.eqb serverName "") && VerifyHostname leaf serverName.

Definition reverseProxyCertificateBindingHasIPSAN (binding : option reverseProxyRuleCertificateBinding) : bool :=
  match binding ≫= Leaf with Some l => HasIPSAN l | None => false end.

Definition reverseProxyCertificateBindingMatchesServerName (binding : option reverseProxyRuleCertificateBinding)
  (serverName : string) : bool :=
  reverseProxyCertificateBindingUsable binding now &&
  match binding ≫= parsedOf with
  | Some leaf => reverseProxyLeafMatchesServerName leaf serverName
  | None => false
  end.

(** [sort.Strings] is left out: the result is only counted and indexed. *)
Definition reverseProxyCertificateBindingIPNames (binding : option reverseProxyRuleCertificateBinding) : list string :=
  match binding ≫= parsedOf with
  | None => []
  | Some leaf => dedupe (fun raw => if ((length raw =? 4) || (length raw =? 16))%nat
                                    then Some (addrString (unmap raw)) else None) ∅ (IPAddresses leaf)
  end.

Inductive reverseProxySNIMatchCategory : Type := SNIMatchNone | SNIMatchExact | SNIMatchWildcard.

Definition reverseProxyCertificateBindingSNIMatchType (binding : option reverseProxyRuleCertificateBinding) (serverName : string) : reverseProxySNIMatchCategory :=
  if negb (reverseProxyCertificateBindingUsable binding now) then SNIMatchNone
  else match binding ≫= parsedOf with
       | None => SNIMatchNone
       | Some leaf =>
           let serverName := reverseProxyNormalizeServerName serverName in
           if String.eqb serverName "" then SNIMatchNone
           else if negb (VerifyHostname leaf serverName) then SNIMatchNone
           else match reverseProxyParseIPLiteral serverName with
                | Some _ => SNIMatchExact
                | None =>
                    if existsb (fun dnsName => let candidate := reverseProxyNormalizeServerName dnsName in
                                  negb (String.eqb candidate "") && String.eqb candidate serverName) (DNSNames leaf)
                    then SNIMatchExact else SNIMatchWildcard
                end
       end.

(** The bindings that match exactly and those that match by a wildcard. *)
Definition reverseProxySplitSNICertificateCandidates (bindings : list (option reverseProxyRuleCertificateBinding))
  (serverName : string)
  : list (option reverseProxyRuleCertificateBinding) * list (option reverseProxyRuleCertificateBinding) :=
  let serverName := reverseProxyNormalizeServerName serverName in
  if String.eqb serverName "" then ([], [])
  else (List.filter (fun b => match reverseProxyCertificateBindingSNIMatchType b serverName with
                              | SNIMatchExact => true | _ => false end) bindings,
        List.filter (fun b => match reverseProxyCertificateBindingSNIMatchType b serverName with
                              | SNIMatchWildcard => true | _ => false end) bindings).

(** ** The indexes of a group *)

Definition reverseProxyIPLiteralFamily (value : string) : string :=
  match ParseAddr (trimBrackets (trim_space value)) with
  | None => ""
  | Some addr => if (length (unmap addr) =? 4)%nat then "4" else "6"
  end.

Record ipIndex : Type := mkIndex {
  ix_bindings : gmap string (list (option reverseProxyRuleCertificateBinding));
  ix_universe : gset string;
  ix_byFamily : gmap string (gset string);
  ix_certIPs : gmap Z (gset string) }.

Definition indexName (binding : reverseProxyRuleCertificateBinding) (ix : ipIndex) (value : string) : ipIndex :=
  let family := reverseProxyIPLiteralFamily value in
  let c := CertificateRecordID binding in
  mkIndex (<[value := default [] (ix_bindings ix !! value) ++ [Some binding]]> (ix_bindings ix))
    ({[value]} ∪ ix_universe ix)
    (if String.eqb family "" then ix_byFamily ix
     else <[family := {[value]} ∪ default ∅ (ix_byFamily ix !! family)]> (ix_byFamily ix))
    (<[c := {[value]} ∪ default ∅ (ix_certIPs ix !! c)]> (ix_certIPs ix)).

Definition indexBinding (ix : ipIndex) (binding : option reverseProxyRuleCertificateBinding) : ipIndex :=
  match binding with
  | None => ix
  | Some b => if CertificateRecordID b =? 0 then ix
              else foldl (indexName b) ix (reverseProxyCertificateBindingIPNames binding)
  end.

(** The bindings whose certificate is for every address of the family. *)
Definition coversFamily (ix : ipIndex) (universe : gset string) (binding : option reverseProxyRuleCertificateBinding)
  : bool :=
  match binding with
  | None => false
  | Some b => bool_decide (universe ⊆ default ∅ (ix_certIPs ix !! CertificateRecordID b))
  end.

Definition configureIPCertificateIndexesLocked g : listenerGroup :=
  let ix := foldl indexBinding (mkIndex ∅ ∅ (<["4" := ∅]> (<["6" := ∅]> ∅)) ∅) (orderedCertBindings g) in
  let nat := (fun universe => List.filter (coversFamily ix universe) (orderedCertBindings g))
               <$> filter (fun x => x.2 <> ∅) (ix_byFamily ix) in
  mkListener (key g) (protocol g) (rules g) (ruleMatchData g) (certBindingsByRule g) (orderedCertBindings g)
    (ix_bindings ix) (ix_universe ix) (filter (fun x => x.2 <> []) nat).

Definition natFallbackCertificatesForLocalIP g (ip : list Z) : list (option reverseProxyRuleCertificateBinding) :=
  default [] (natFallbackCertBindings g !! reverseProxyIPLiteralFamily (ipString ip)).

Definition buildReverseProxyRuleMatchData (rules : list (option ReverseProxyRule)) : gmap Z reverseProxyRuleMatchData :=
  foldl (fun data rule =>
    match rule with
    | None => data
    | Some r =>
        if Id r =? 0 then data
        else <[Id r := mkMatchData (reverseProxyRuleServerNames r) (aliasOf r)
                         (reverseProxyNormalizePathPrefix (PathPrefix r))
                         (if isDNSRule r then reverseProxyDNSRulePath (ListenDNSPath r) else "")]> data
    end) ∅ rules.

(** ** The match of a rule *)

Definition ruleServerNamesLocked g r : list string :=
  match (if Id r =? 0 then None else ruleMatchData g !! Id r) with
  | Some data => serverNames data
  | None => reverseProxyRuleServerNames r
  end.

Definition ruleRequestPathMatchLocked g r (path : string) : bool :=
  match (if Id r =? 0 then None else ruleMatchData g !! Id r) with
  | None => reverseProxyRuleRequestPathMatch (rulePath r) (isDNSRule r) path
  | Some data =>
      if reverseProxyIsHTTPDNSAlias (listenAlias data) then
        let actual := normalizeReverseProxyDNSPath path in
        let actual := if String.eqb actual "" then "/" else actual in
        String.eqb actual (dnsPath data)
      else if String.eqb (pathPrefix data) "" then true
      else
        let actual := normalizeReverseProxyPath path in
        let actual := if String.eqb actual "" then "/" else actual in
        String.eqb actual (pathPrefix data) || has_prefix actual (pathPrefix data +:+ "/")
  end.

Definition bindingsOf g r : list (option reverseProxyRuleCertificateBinding) :=
  default [] (certBindingsByRule g !! Id r).

Definition isSelected sel (binding : option reverseProxyRuleCertificateBinding) : bool :=
  match binding with Some b => CertificateRecordID b =? sel_CertificateRecordID sel | None => false end.

Definition ruleHasCertificateSelectionLocked g r sel (serverName : string) : bool :=
  negb (sel_CertificateRecordID sel =? 0) &&
  existsb (fun b => isSelected sel b && reverseProxyCertificateBindingMatchesServerName b serverName) (bindingsOf g r).

Definition ruleHasMatchingIPCertificateLocked g r (ip : string) : bool :=
  match reverseProxyParseIPLiteral ip with
  | None => false
  | Some _ => existsb (fun b => reverseProxyCertificateBindingHasIPSAN b &&
                                reverseProxyCertificateBindingMatchesServerName b ip) (bindingsOf g r)
  end.

Definition certificateSelectionCoversIPLocked g sel (ip : string) : bool :=
  match (if sel_CertificateRecordID sel =? 0 then None else reverseProxyParseIPLiteral ip) with
  | None => false
  | Some addr => existsb (fun b => isSelected sel b && reverseProxyCertificateBindingMatchesServerName b ip)
                   (default [] (ipCertBindings g !! ipString addr))
  end.

Definition specificityStep (ip : string) (best : Z) (binding : option reverseProxyRuleCertificateBinding) : Z :=
  if negb (reverseProxyCertificateBindingMatchesServerName binding ip) then best
  else
    let count := Z.of_nat (length (reverseProxyCertificateBindingIPNames binding)) in
    if (0 <? count) && (count <? best) then count else best.

Definition ruleIPSpecificityLocked g r (ip : string) : Z := foldl (specificityStep ip) max_i64 (bindingsOf g r).

(** [selection] is [None] when the request has none. *)
Definition ruleRequestNameMatchWithSelectionLocked g (rule : option ReverseProxyRule) (host sni : string)
  (requireSNI : bool) (selection : option reverseProxyCertificateSelection) : bool * bool :=
  match rule with
  | None => (false, false)
  | Some r =>
      let candidates := ruleServerNamesLocked g r in
      let host := reverseProxyNormalizeServerName host in
      let sni := reverseProxyNormalizeServerName sni in
      let hostIP := reverseProxyParseIPLiteral host in
      let sniIP := reverseProxyParseIPLiteral sni in
      if negb requireSNI then
        match hostIP with
        | Some _ => (bool_decide (candidates = []), true)
        | None =>
            let matched := negb (String.eqb host "") && negb (bool_decide (candidates = [])) &&
                           reverseProxyRequestNameMatchesAny candidates host in
            (matched, matched)
        end
      else if String.eqb sni "" || bool_decide (is_Some sniIP) then
        match hostIP with
        | None => (false, false)
        | Some addr =>
            let requestedIP := ipString addr in
            if match sniIP with Some s => negb (ipEqual addr s) | None => false end then (false, true)
            else
              let refused :=
                match selection with
                | None => None
                | Some sel =>
                    if String.eqb sni "" && negb (bool_decide (ClientKind sel = KindNoSNI)) then Some (false, false)
                    else if bool_decide (is_Some sniIP) && negb (bool_decide (ClientKind sel = KindIP))
                    then Some (false, false)
                    else if negb (certificateSelectionCoversIPLocked g sel requestedIP) then Some (false, true)
                    else if negb (ruleHasCertificateSelectionLocked g r sel requestedIP) then Some (false, true)
                    else None
                end in
              match refused with
              | Some answer => answer
              | None => let matched := ruleHasMatchingIPCertificateLocked g r requestedIP in (matched, matched)
              end
        end
      else if bool_decide (candidates = []) || String.eqb host "" || bool_decide (is_Some hostIP) then (false, false)
      else
        let hostMatch := reverseProxyRequestNameMatchesAny candidates host in
        let sniMatch := reverseProxyRequestNameMatchesAny candidates sni in
        let partial := hostMatch || sniMatch in
        if negb hostMatch || negb sniMatch || negb (String.eqb (to_lower host) (to_lower sni)) then (false, partial)
        else match selection with
             | None => (true, true)
             | Some sel =>
                 if negb (bool_decide (ClientKind sel = KindDomain)) then (false, true)
                 else if negb (ruleHasCertificateSelectionLocked g r sel sni) then (false, true)
                 else (true, true)
             end
  end.

(** The loop of [findRuleWithSelection]. *)
Fixpoint findLoop g (host sni path : string) (requireSNI : bool) (selection : option reverseProxyCertificateSelection)
  (l : list (option ReverseProxyRule)) (best : option ReverseProxyRule) (bestSpecificity : Z) (nameMatched : bool)
  : option ReverseProxyRule * bool :=
  match l with
  | [] => (best, nameMatched)
  | rule :: rest =>
      match rule with
      | Some r =>
          if negb (ruleRequestNameMatchWithSelectionLocked g rule host sni requireSNI selection).1
          then findLoop g host sni path requireSNI selection rest best bestSpecificity nameMatched
          else if negb (ruleRequestPathMatchLocked g r path)
          then findLoop g host sni path requireSNI selection rest best bestSpecificity true
          else match reverseProxyParseIPLiteral (reverseProxyNormalizeServerName host) with
               | None => (Some r, true)
               | Some hostIP =>
                   let specificity := ruleIPSpecificityLocked g r (ipString hostIP) in
                   if specificity <? bestSpecificity
                   then findLoop g host sni path requireSNI selection rest (Some r) specificity true
                   else findLoop g host sni path requireSNI selection rest best bestSpecificity true
               end
      | None => findLoop g host sni path requireSNI selection rest best bestSpecificity nameMatched
      end
  end.

Definition findRuleWithSelection g (host sni path : string) (selection : option reverseProxyCertificateSelection)
  : option ReverseProxyRule * bool :=
  let requireSNI := String.eqb (to_lower (protocol g)) (to_lower reverseProxyProtocolHTTPS) in
  findLoop g host sni path requireSNI selection (rules g) None max_i64 false.

(** ** The certificate of a handshake *)

Inductive handshake : Type :=
| Served (b : reverseProxyRuleCertificateBinding) (sel : reverseProxyCertificateSelection)
| Refused (mismatch message : string).

(** The selection a choice of the balancer stands for: the zero selection when
    the choice was not recorded. *)
Definition makeSelection g (chosen : option lruKey) (kind : clientKind) (requestedIP : string)
  : reverseProxyCertificateSelection :=
  match chosen with
  | Some (bucket, c) => mkSelection (key g) bucket c kind requestedIP
  | None => mkSelection "" "" 0 kind requestedIP
  end.

Definition selectAndBindCertificate g (candidates : list (option reverseProxyRuleCertificateBinding))
  (sniBucket : string) (kind : clientKind) (requestedIP : string) (others : Z)
  (s : reverseProxyCertificateBalanceShard) (count : Z)
  : option handshake * reverseProxyCertificateBalanceShard * Z :=
  let usable := List.filter (fun c => reverseProxyCertificateBindingUsable c now) candidates in
  let '(selected, chosen, s', count') := selectBalancedCertificate usable sniBucket now now others s count in
  (option_map (fun b => Served b (makeSelection g chosen kind (trim_space requestedIP))) selected, s', count').

(** The candidates of the rules for a name. *)
Fixpoint nameCandidates g (serverName : string) (l : list (option ReverseProxyRule))
  : bool * list (option reverseProxyRuleCertificateBinding) * list (option reverseProxyRuleCertificateBinding) :=
  match l with
  | [] => (false, [], [])
  | Some r :: rest =>
      let '(matched, exact, wildcard) := nameCandidates g serverName rest in
      if reverseProxyRuleServerNameMatch r serverName then
        let '(e, w) := reverseProxySplitSNICertificateCandidates (bindingsOf g r) serverName in
        (true, e ++ exact, w ++ wildcard)
      else (matched, exact, wildcard)
  | None :: rest => nameCandidates g serverName rest
  end.

(** [s] is the shard of the name or address asked for; what is registered as a
    mismatch is part of the answer. *)
Definition getCertificate g (helloName localIP : string) (others : Z)
  (s : reverseProxyCertificateBalanceShard) (count : Z) : handshake * reverseProxyCertificateBalanceShard * Z :=
  let serverName := reverseProxyNormalizeServerName helloName in
  if String.eqb serverName "" then
    let '(requestedIP, candidates) :=
      match reverseProxyParseIPLiteral localIP with
      | None => ("", [])
      | Some localAddr =>
          let canonical := ipString localAddr in
          if decide (canonical ∈ ipCertificateUniverse g)
          then (canonical, default [] (ipCertBindings g !! canonical))
          else if reverseProxyLocalAddressMayHidePublicTarget localAddr
          then ("", natFallbackCertificatesForLocalIP g localAddr)
          else ("", [])
      end in
    let '(answer, s', count') := selectAndBindCertificate g candidates requestedIP KindNoSNI requestedIP others s count in
    (default (Refused "missing_sni" "tls listener has no unambiguous ip certificate for an empty sni") answer, s', count')
  else
    match reverseProxyParseIPLiteral serverName with
    | Some sniIP =>
        let requestedIP := ipString sniIP in
        let crossed :=
          match reverseProxyParseIPLiteral localIP with
          | None => false
          | Some localAddr =>
              (bool_decide (ipString localAddr ∈ ipCertificateUniverse g) ||
               negb (reverseProxyLocalAddressMayHidePublicTarget localAddr)) && negb (ipEqual sniIP localAddr)
          end in
        if crossed then (Refused "cross_ip_sni" "tls ip sni does not match the visible local target ip", s, count)
        else
          let candidates := default [] (ipCertBindings g !! requestedIP) in
          let '(answer, s', count') := selectAndBindCertificate g candidates requestedIP KindIP requestedIP others s count in
          (default (if decide (candidates = [])
                    then Refused "cross_ip_sni" "tls listener has no certificate covering the ip sni"
                    else Refused "ip_sni" "tls listener ip certificate is unavailable") answer, s', count')
    | None =>
        let '(matchedRule, exact, wildcard) := nameCandidates g serverName (rules g) in
        let '(selected, chosen, s1, count1) := selectBalancedCertificate exact serverName now now others s count in
        match selected with
        | Some b => (Served b (makeSelection g chosen KindDomain ""), s1, count1)
        | None =>
            let '(selected, chosen, s2, count2) := selectBalancedCertificate wildcard serverName now now others s1 count1 in
            match selected with
            | Some b => (Served b (makeSelection g chosen KindDomain ""), s2, count2)
            | None => (Refused "unrecognized_sni"
                         (if matchedRule : bool then "tls listener certificate is unavailable" else "unrecognized tls sni"),
                       s2, count2)
            end
        end
    end.

(** ** Lookups *)

(** A rule that takes a request. *)
Definition takes g (host sni path : string) (selection : option reverseProxyCertificateSelection) r : bool :=
  (ruleRequestNameMatchWithSelectionLocked g (Some r) host sni
     (String.eqb (to_lower (protocol g)) (to_lower reverseProxyProtocolHTTPS)) selection).1 &&
  ruleRequestPathMatchLocked g r path.

Lemma findLoop_found g host sni path requireSNI selection l : forall best bs nm r,
  (findLoop g host sni path requireSNI selection l best bs nm).1 = Some r ->
  best = Some r \/
  (Some r ∈ l /\ (ruleRequestNameMatchWithSelectionLocked g (Some r) host sni requireSNI selection).1 = true /\
   ruleRequestPathMatchLocked g r path = true).
Proof.
  induction l as [|[r0|] l IH]; intros best bs nm r; cbn [findLoop]; [by left| |].
  2:{ intros [?|(? & ?)]%IH; [by left|right]. split; [by right|done]. }
  destruct (ruleRequestNameMatchWithSelectionLocked g (Some r0) host sni requireSNI selection).1 eqn:En; cbn [negb].
  2:{ intros [?|(? & ?)]%IH; [by left|right]. split; [by right|done]. }
  destruct (ruleRequestPathMatchLocked g r0 path) eqn:Ep; cbn [negb].
  2:{ intros [?|(? & ?)]%IH; [by left|right]. split; [by right|done]. }
  assert (forall b, b = Some r \/ (Some r ∈ l /\
            (ruleRequestNameMatchWithSelectionLocked g (Some r) host sni requireSNI selection).1 = true /\
            ruleRequestPathMatchLocked g r path = true) -> (b = best \/ b = Some r0) ->
          best = Some r \/ (Some r ∈ Some r0 :: l /\
            (ruleRequestNameMatchWithSelectionLocked g (Some r) host sni requireSNI selection).1 = true /\
            ruleRequestPathMatchLocked g r path = true)) as Hstep.
  { intros b [->|(? & ?)] [Hb|Hb]; try (by left); try (right; split; [by right|done]).
    injection Hb as ->. right. split; [by left|done]. }
  destruct (reverseProxyParseIPLiteral _) as [hostIP|].
  - destruct (_ <? bs); intros H%IH; eapply Hstep; eauto.
  - intros H. eapply Hstep; eauto.
Qed.

(** For a host that is no address the first rule that takes the request wins. *)
Lemma findLoop_first g host sni path selection l : forall bs nm,
  reverseProxyParseIPLiteral (reverseProxyNormalizeServerName host) = None ->
  (findLoop g host sni path (String.eqb (to_lower (protocol g)) (to_lower reverseProxyProtocolHTTPS)) selection l
     None bs nm).1 = head (List.filter (takes g host sni path selection) (omap id l)).
Proof.
  intros bs nm Hip. revert nm. induction l as [|[r0|] l IH]; intros nm; cbn [findLoop]; [done| |apply IH].
  change (omap id (Some r0 :: l)) with (r0 :: omap id l). cbn [List.filter]. unfold takes at 1.
  destruct (ruleRequestNameMatchWithSelectionLocked g (Some r0) _ _ _ _).1; cbn [negb andb]; [|apply IH].
  destruct (ruleRequestPathMatchLocked g r0 path); cbn [negb]; [by rewrite Hip|apply IH].
Qed.

(** ** Names *)

Lemma wildcard_form pattern : reverseProxyIsStandardWildcardHost pattern = true ->
  pattern = "*." +:+ trim_prefix pattern "*.".
Proof.
  unfold reverseProxyIsStandardWildcardHost. rewrite !andb_true_iff. intros [[H%has_prefix_spec _] _].
  destruct H as [x ->]. by rewrite trim_prefix_app.
Qed.

Lemma dotless_split l1 l2 s1 s2 : containsByte "." l1 = false -> containsByte "." l2 = false ->
  l1 +:+ String "." s1 = l2 +:+ String "." s2 -> s1 = s2.
Proof.
  revert l2. induction l1 as [|c l1 IH]; intros [|d l2]; cbn [containsByte String.append].
  - by intros _ _ [= ->].
  - intros _ H [= <- _]. by rewrite Ascii.eqb_refl in H.
  - intros H _ [= -> _]. by rewrite Ascii.eqb_refl in H.
  - intros [_ H1]%orb_false_iff [_ H2]%orb_false_iff [= _ E]. by eapply IH.
Qed.

(** A pattern matches a name that is no address by being it or by its one
    wildcard label. *)
Lemma coreMatches_domain pattern host : reverseProxyParseIPLiteral host = None ->
  coreMatches pattern host = true ->
  pattern <> "" /\ host <> "" /\
  (pattern = host \/ exists l s, pattern = "*." +:+ s /\ host = l +:+ String "." s /\ containsByte "." l = false).
Proof.
  intros Hip. unfold coreMatches.
  destruct (String.eqb_spec pattern ""); [done|]. destruct (String.eqb_spec host ""); [done|]. cbn [orb].
  assert (reverseProxyIPLiteralEqual pattern host = false) as ->.
  { unfold reverseProxyIPLiteralEqual. rewrite Hip. by destruct (reverseProxyParseIPLiteral pattern). }
  destruct (String.eqb_spec pattern host); [by auto|].
  destruct (reverseProxyIsStandardWildcardHost pattern) eqn:Ew; [|done]. cbn [negb].
  apply wildcard_form in Ew. set (s := trim_prefix pattern "*.") in *. clearbody s.
  destruct (has_suffix host ("." +:+ s)) eqn:Es; [|done]. apply has_suffix_spec in Es as [l ->].
  cbn [negb]. rewrite trim_suffix_app, andb_true_iff, !negb_true_iff. intros [_ Hl].
  split_and!; try done. right. by exists l, s.
Qed.

Lemma coreMatches_refl pattern : pattern <> "" -> coreMatches pattern pattern = true.
Proof.
  intros H. unfold coreMatches. destruct (String.eqb_spec pattern ""); [done|]. cbn [orb].
  destruct (reverseProxyIPLiteralEqual _ _); [done|]. by rewrite String.eqb_refl.
Qed.

(** Two patterns of one name match each other. *)
Lemma patterns_meet x y host : reverseProxyParseIPLiteral host = None ->
  coreMatches x host = true -> coreMatches y host = true -> coreMatches x y = true \/ coreMatches y x = true.
Proof.
  intros Hip Hx Hy. pose proof (coreMatches_domain x host Hip Hx) as (Nx & _ & [->|(l1 & s1 & -> & E1 & D1)]); [by auto|].
  pose proof (coreMatches_domain y host Hip Hy) as (Ny & _ & [->|(l2 & s2 & -> & E2 & D2)]); [by auto|].
  rewrite E1 in E2. apply dotless_split in E2 as ->; [|done..]. left. by apply coreMatches_refl.
Qed.

(** The name a request is compared by. *)
Definition requestKey (host : string) : string :=
  hostCore (reverseProxyNormalizeServerName (reverseProxyNormalizeServerName host)).

Lemma matchesAny_key a host :
  reverseProxyRequestNameMatchesAny a (reverseProxyNormalizeServerName host) = true ->
  exists x, In x a /\ coreMatches (hostCore x) (requestKey host) = true.
Proof.
  unfold reverseProxyRequestNameMatchesAny. intros [_ H]%andb_true_iff. apply existsb_exists in H as (x & Hx & Mx).
  exists x. split; [exact Hx|exact Mx].
Qed.

Lemma names_meet a b host : reverseProxyParseIPLiteral (requestKey host) = None ->
  reverseProxyRequestNameMatchesAny a (reverseProxyNormalizeServerName host) = true ->
  reverseProxyRequestNameMatchesAny b (reverseProxyNormalizeServerName host) = true ->
  reverseProxyRuleNamesOverlap a b = true.
Proof.
  intros Hip (x & Hx & Mx)%matchesAny_key (y & Hy & My)%matchesAny_key.
  assert (existsb (fun item => existsb (fun candidate =>
            reverseProxyHostPatternMatches item candidate || reverseProxyHostPatternMatches candidate item) b) a = true) as H.
  { apply existsb_exists. exists x. split; [done|]. apply existsb_exists. exists y. split; [done|].
    apply orb_true_iff.
    exact (patterns_meet _ _ (requestKey host) Hip Mx My). }
  unfold reverseProxyRuleNamesOverlap. by destruct a as [|a1 a], b as [|b1 b].
Qed.

(** The rule of a request for a name lists a pattern of the name. *)
Lemma nameMatch_domain g r host sni requireSNI selection :
  reverseProxyParseIPLiteral (reverseProxyNormalizeServerName host) = None ->
  (ruleRequestNameMatchWithSelectionLocked g (Some r) host sni requireSNI selection).1 = true ->
  reverseProxyRequestNameMatchesAny (ruleServerNamesLocked g r) (reverseProxyNormalizeServerName host) = true.
Proof.
  intros Hip. unfold ruleRequestNameMatchWithSelectionLocked. rewrite Hip.
  destruct requireSNI; cbn [negb].
  - destruct (String.eqb (reverseProxyNormalizeServerName sni) "" || _); [done|].
    destruct (_ || _ || _); [done|].
    destruct (reverseProxyRequestNameMatchesAny _ (reverseProxyNormalizeServerName host)); [done|]. by cbn [negb orb].
  - intros H. cbv zeta in H. cbn [fst] in H. by apply andb_true_iff in H as [_ H].
Qed.

(** ** The data kept for matching *)

Definition matchDataOf r : reverseProxyRuleMatchData :=
  mkMatchData (reverseProxyRuleServerNames r) (aliasOf r) (reverseProxyNormalizePathPrefix (PathPrefix r))
    (if isDNSRule r then reverseProxyDNSRulePath (ListenDNSPath r) else "").

(** The data of the group are those of its rules, which have identifiers of
    their own. *)
Definition matchDataCurrent g : Prop :=
  ruleMatchData g = buildReverseProxyRuleMatchData (rules g) /\
  forall r r', Some r ∈ rules g -> Some r' ∈ rules g -> Id r = Id r' -> r = r'.

Lemma build_lookup l r : (forall r', Some r' ∈ l -> Id r' = Id r -> r' = r) -> Some r ∈ l -> Id r <> 0 ->
  buildReverseProxyRuleMatchData l !! Id r = Some (matchDataOf r).
Proof.
  induction l as [|x l IH] using rev_ind; intros Hu Hin Hz; [by apply not_elem_of_nil in Hin|].
  unfold buildReverseProxyRuleMatchData. rewrite foldl_app. cbn [foldl].
  fold (buildReverseProxyRuleMatchData l).
  assert (Some r ∈ l -> buildReverseProxyRuleMatchData l !! Id r = Some (matchDataOf r)) as IH'.
  { intros H. apply IH; [|done..]. intros r' Hr'. apply Hu, elem_of_app. by left. }
  apply elem_of_app in Hin.
  destruct x as [r0|]; [|destruct Hin as [|Hin%list_elem_of_singleton]; [by apply IH'|done]].
  destruct (decide (Id r0 = Id r)) as [E|Hne].
  - assert (r0 = r) as -> by (apply Hu; [apply elem_of_app; right; by apply list_elem_of_singleton|done]).
    destruct (Z.eqb_spec (Id r) 0); [done|]. apply lookup_insert_eq.
  - destruct Hin as [Hin|[= <-]%list_elem_of_singleton]; [|done].
    destruct (Z.eqb_spec (Id r0) 0); [by apply IH'|]. rewrite lookup_insert_ne by done. by apply IH'.
Qed.

Lemma matchData_lookup g r : matchDataCurrent g -> Some r ∈ rules g ->
  (if Id r =? 0 then None else ruleMatchData g !! Id r) = if Id r =? 0 then None else Some (matchDataOf r).
Proof.
  intros [Hd Hu] Hin. destruct (Z.eqb_spec (Id r) 0); [done|]. rewrite Hd. apply build_lookup; [|done..].
  intros r' Hr' E. by apply Hu.
Qed.

Lemma serverNames_current g r : matchDataCurrent g -> Some r ∈ rules g ->
  ruleServerNamesLocked g r = reverseProxyRuleServerNames r.
Proof.
  intros Hm Hin. unfold ruleServerNamesLocked. rewrite matchData_lookup by done. by destruct (Id r =? 0).
Qed.

Lemma pathMatch_current g r path : matchDataCurrent g -> Some r ∈ rules g ->
  ruleRequestPathMatchLocked g r path = reverseProxyRuleRequestPathMatch (rulePath r) (isDNSRule r) path.
Proof.
  intros Hm Hin. unfold ruleRequestPathMatchLocked. rewrite matchData_lookup by done.
  destruct (Id r =? 0); [done|]. cbn [matchDataOf listenAlias dnsPath pathPrefix]. unfold rulePath.
  fold (isDNSRule r). by destruct (isDNSRule r).
Qed.

(** No two rules of a group were reported to overlap. *)
Definition conflictFree (l : list (option ReverseProxyRule)) : Prop :=
  forall i j r r', i <> j -> l !! i = Some (Some r) -> l !! j = Some (Some r') ->
    reverseProxyExistingNormalizedHTTPConditionsOverlap r r' = false.

Definition pathsStable (l : list (option ReverseProxyRule)) : Prop :=
  forall r, Some r ∈ l -> stablePath (rulePath r) (isDNSRule r).

Lemma takes_one g host sni path selection i j r r' :
  conflictFree (rules g) -> pathsStable (rules g) -> matchDataCurrent g ->
  reverseProxyParseIPLiteral (reverseProxyNormalizeServerName host) = None ->
  reverseProxyParseIPLiteral (requestKey host) = None ->
  rules g !! i = Some (Some r) -> rules g !! j = Some (Some r') ->
  takes g host sni path selection r = true -> takes g host sni path selection r' = true -> i = j.
Proof.
  intros Hc Hp Hm Hip Hkey Hi Hj [N1 P1]%andb_true_iff [N2 P2]%andb_true_iff.
  destruct (decide (i = j)) as [|Hne]; [done|]. pose proof (Hc i j r r' Hne Hi Hj) as Ho.
  assert (Some r ∈ rules g) as Hr by (by eapply list_elem_of_lookup_2).
  assert (Some r' ∈ rules g) as Hr' by (by eapply list_elem_of_lookup_2).
  apply nameMatch_domain in N1, N2; [|done..]. rewrite serverNames_current in N1, N2 by done.
  rewrite pathMatch_current in P1, P2 by done.
  unfold reverseProxyExistingNormalizedHTTPConditionsOverlap in Ho.
  rewrite (names_meet _ _ host Hkey N1 N2) in Ho. cbn [andb] in Ho.
  by rewrite (path_overlap_complete _ _ _ _ path (Hp r Hr) (Hp r' Hr') P1 P2) in Ho.
Qed.

(** The group with its rules in another order. *)
Definition setRules (l : list (option ReverseProxyRule)) g : listenerGroup :=
  mkListener (key g) (protocol g) l (ruleMatchData g) (certBindingsByRule g) (orderedCertBindings g)
    (ipCertBindings g) (ipCertificateUniverse g) (natFallbackCertBindings g).

Lemma head_unique {A} (F : list A) : (forall x y, x ∈ F -> y ∈ F -> x = y) -> forall x, head F = Some x <-> x ∈ F.
Proof.
  intros Hu x. destruct F as [|y F]; cbn [head]; [split; [done|by intros ?%not_elem_of_nil]|].
  split; [intros [= ->]; by left|]. intros Hx. f_equal. apply Hu; [by left|done].
Qed.

Lemma elem_of_takers g host sni path selection l r :
  r ∈ List.filter (takes g host sni path selection) (omap id l) <-> Some r ∈ l /\ takes g host sni path selection r = true.
Proof.
  rewrite list_elem_of_In, filter_In, <-list_elem_of_In, list_elem_of_omap. unfold id.
  split; [intros [(x & ? & ->) ?]; done|]. intros [? ?]. split; [by exists (Some r)|done].
Qed.


Lemma hasSelection_spec g r sel name : ruleHasCertificateSelectionLocked g r sel name = true ->
  sel_CertificateRecordID sel <> 0 /\
  exists b leaf, Some b ∈ bindingsOf g r /\ CertificateRecordID b = sel_CertificateRecordID sel /\
    reverseProxyCertificateBindingUsable (Some b) now = true /\ parsedOf b = Some leaf /\
    VerifyHostname leaf (reverseProxyNormalizeServerName name) = true.
Proof.
  unfold ruleHasCertificateSelectionLocked. intros [Hz%negb_true_iff%Z.eqb_neq H]%andb_true_iff. split; [done|].
  apply existsb_exists in H as ([b|] & Hin & [Hid Hm]%andb_true_iff); [|done].
  unfold isSelected in Hid. apply Z.eqb_eq in Hid.
  unfold reverseProxyCertificateBindingMatchesServerName in Hm. apply andb_true_iff in Hm as [Hu Hm].
  cbn [mbind option_bind] in Hm. destruct (parsedOf b) as [leaf|] eqn:Ep; [|done].
  unfold reverseProxyLeafMatchesServerName in Hm. apply andb_true_iff in Hm as [_ Hv].
  exists b, leaf. split_and!; try done. by apply list_elem_of_In.
Qed.

(** A match on TLS that a recorded certificate confirmed. *)
Lemma nameMatch_selected g r host sni sel :
  (ruleRequestNameMatchWithSelectionLocked g (Some r) host sni true (Some sel)).1 = true ->
  match reverseProxyParseIPLiteral (reverseProxyNormalizeServerName host) with
  | Some addr => ruleHasCertificateSelectionLocked g r sel (ipString addr) = true /\ ClientKind sel <> KindDomain
  | None => ruleHasCertificateSelectionLocked g r sel (reverseProxyNormalizeServerName sni) = true /\
            to_lower (reverseProxyNormalizeServerName host) = to_lower (reverseProxyNormalizeServerName sni) /\
            ClientKind sel = KindDomain
  end.
Proof.
  unfold ruleRequestNameMatchWithSelectionLocked. cbn [negb].
  set (h := reverseProxyNormalizeServerName host). set (n := reverseProxyNormalizeServerName sni). clearbody h n.
  destruct (String.eqb n "" || bool_decide (is_Some (reverseProxyParseIPLiteral n))) eqn:E.
  - destruct (reverseProxyParseIPLiteral h) as [addr|]; [|done].
    destruct (match reverseProxyParseIPLiteral n with Some _ => _ | None => _ end); [done|].
    destruct (String.eqb n "" && negb (bool_decide (ClientKind sel = KindNoSNI))) eqn:E1; [done|].
    destruct (bool_decide (is_Some (reverseProxyParseIPLiteral n)) && negb (bool_decide (ClientKind sel = KindIP)))
      eqn:E2; [done|].
    destruct (certificateSelectionCoversIPLocked g sel (ipString addr)); [|done]. cbn [negb].
    destruct (ruleHasCertificateSelectionLocked g r sel (ipString addr)); [|done]. intros _. split; [done|].
    destruct (ClientKind sel); try done.
    destruct (String.eqb n ""), (bool_decide (is_Some (reverseProxyParseIPLiteral n))); done.
  - destruct (_ || _ || bool_decide (is_Some (reverseProxyParseIPLiteral h))) eqn:E1; [done|].
    apply orb_false_iff in E1 as [_ E1]. apply bool_decide_eq_false in E1.
    destruct (reverseProxyParseIPLiteral h); [by destruct E1|].
    destruct (_ || _ || negb (String.eqb (to_lower h) (to_lower n))) eqn:E2; [done|].
    apply orb_false_iff in E2 as [_ E2%negb_false_iff%String.eqb_eq].
    clear E. case_bool_decide; cbn [negb fst]; [|done].
    by destruct (ruleHasCertificateSelectionLocked g r sel n).
Qed.

(** C21: A request is only answered by a rule that owns the certificate of its
    connection.  Whatever the host, the name in the handshake and the rules,
    a rule that is found for a request on a connection with a recorded
    certificate has a binding of that very certificate, which is usable and
    valid for the name or address the request is for; and for a name the
    handshake asked for the same name. *)
Theorem routed_rule_owns_certificate g host sni path sel r :
  to_lower (protocol g) = reverseProxyProtocolHTTPS ->
  (findRuleWithSelection g host sni path (Some sel)).1 = Some r ->
  Some r ∈ rules g /\ sel_CertificateRecordID sel <> 0 /\
  exists b leaf, Some b ∈ bindingsOf g r /\ CertificateRecordID b = sel_CertificateRecordID sel /\
    reverseProxyCertificateBindingUsable (Some b) now = true /\ parsedOf b = Some leaf /\
    match reverseProxyParseIPLiteral (reverseProxyNormalizeServerName host) with
    | Some addr => VerifyHostname leaf (reverseProxyNormalizeServerName (ipString addr)) = true /\
                   ClientKind sel <> KindDomain
    | None => VerifyHostname leaf (reverseProxyNormalizeServerName (reverseProxyNormalizeServerName sni)) = true /\
              to_lower (reverseProxyNormalizeServerName host) = to_lower (reverseProxyNormalizeServerName sni) /\
              ClientKind sel = KindDomain
    end.
Proof.
  intros Hs H. unfold findRuleWithSelection in H. rewrite Hs in H.
  apply findLoop_found in H as [?|(Hin & Hn & _)]; [done|]. split; [exact Hin|].
  change (String.eqb reverseProxyProtocolHTTPS (to_lower reverseProxyProtocolHTTPS)) with true in Hn.
  apply nameMatch_selected in Hn.
  destruct (reverseProxyParseIPLiteral (reverseProxyNormalizeServerName host)) as [addr|].
  - destruct Hn as [(Hz & b & leaf & H)%hasSelection_spec Hk]. split; [done|]. exists b, leaf. by destruct H as (? & ? & ? & ? & ?).
  - destruct Hn as [(Hz & b & leaf & H)%hasSelection_spec Hk]. split; [done|]. exists b, leaf. by destruct H as (? & ? & ? & ? & ?).
Qed.

(** A rule without names cannot be reached.  On a plain listener such a rule
    matches exactly the requests whose host is an address, but among those
    the rule with the most specific certificate is looked for, and without
    certificates no rule is ever better than none: the lookup finds no rule,
    although it reports that a name matched whenever there is such a rule. *)
Theorem hostless_rule_unreachable g host sni path selection addr :
  to_lower (protocol g) <> reverseProxyProtocolHTTPS -> certBindingsByRule g = ∅ ->
  reverseProxyParseIPLiteral (reverseProxyNormalizeServerName host) = Some addr ->
  (findRuleWithSelection g host sni path selection).1 = None /\
  ((findRuleWithSelection g host sni path selection).2 = true <->
   exists r, Some r ∈ rules g /\ ruleServerNamesLocked g r = []).
Proof.
  intros Hp Hb Hip. unfold findRuleWithSelection.
  assert (String.eqb (to_lower (protocol g)) (to_lower reverseProxyProtocolHTTPS) = false) as ->.
  { apply String.eqb_neq. exact Hp. }
  assert (forall l nm, findLoop g host sni path false selection l None max_i64 nm =
            (None, nm || existsb (fun x => match x with Some r => bool_decide (ruleServerNamesLocked g r = [])
                                                      | None => false end) l)) as ->.
  { induction l as [|[r|] l IH]; intros nm; cbn [findLoop existsb]; [by rewrite orb_false_r| |by rewrite IH].
    unfold ruleRequestNameMatchWithSelectionLocked at 1. cbn [negb]. rewrite Hip. cbn [fst].
    destruct (bool_decide (ruleServerNamesLocked g r = [])); cbn [negb orb]; [|apply IH].
    assert (ruleIPSpecificityLocked g r (ipString addr) = max_i64) as ->.
    { unfold ruleIPSpecificityLocked, bindingsOf. by rewrite Hb, lookup_empty. }
    rewrite Z.ltb_irrefl, !IH. rewrite orb_true_r. by destruct (negb (ruleRequestPathMatchLocked g r path)). }
  cbn [fst snd orb]. split; [done|]. rewrite existsb_exists. split.
  - intros ([r|] & Hin & H); [|done]. exists r. split; [by apply list_elem_of_In|by apply bool_decide_eq_true in H].
  - intros (r & Hin & H). exists (Some r). split; [by apply list_elem_of_In|by apply bool_decide_eq_true].
Qed.

(** ** The indexes by address *)

Lemma elem_of_dedupe {A} (keyOf : A -> option string) l : forall seen k,
  k ∈ dedupe keyOf seen l <-> k ∉ seen /\ exists a, a ∈ l /\ keyOf a = Some k.
Proof.
  induction l as [|a l IH]; intros seen k; cbn [dedupe].
  { split; [by intros ?%not_elem_of_nil|]. by intros (_ & a & ?%not_elem_of_nil & _). }
  destruct (keyOf a) as [k0|] eqn:Ek; [|].
  - destruct (decide (k0 ∈ seen)) as [Hin|Hnot].
    + rewrite IH. split; [intros (? & x & ? & ?); split; [done|]; exists x; split; [by right|done]|].
      intros (Hk & x & [->|Hx]%elem_of_cons & E); [congruence|]. split; [done|]. by exists x.
    + rewrite elem_of_cons, IH. split.
      * intros [->|(Hk & x & ? & ?)]; [split; [done|]; exists a; split; [by left|done]|].
        split; [set_solver|]. exists x. split; [by right|done].
      * intros (Hk & x & [->|Hx]%elem_of_cons & E); [left; congruence|].
        destruct (decide (k = k0)) as [|Hne]; [by left|right]. split; [set_solver|]. by exists x.
  - rewrite IH. split; [intros (? & x & ? & ?); split; [done|]; exists x; split; [by right|done]|].
    intros (Hk & x & [->|Hx]%elem_of_cons & E); [congruence|]. split; [done|]. by exists x.
Qed.

Lemma NoDup_dedupe {A} (keyOf : A -> option string) l : forall seen, NoDup (dedupe keyOf seen l).
Proof.
  induction l as [|a l IH]; intros seen; cbn [dedupe]; [constructor|].
  destruct (keyOf a) as [k|]; [|apply IH]. destruct (decide _); [apply IH|].
  constructor; [|apply IH]. rewrite elem_of_dedupe. set_solver.
Qed.

(** A binding that is indexed and lists the address. *)
Definition lists (v : string) (binding : option reverseProxyRuleCertificateBinding) : bool :=
  match binding with
  | Some b => negb (CertificateRecordID b =? 0) && bool_decide (v ∈ reverseProxyCertificateBindingIPNames binding)
  | None => false
  end.

Record Indexed (L : list (option reverseProxyRuleCertificateBinding)) (ix : ipIndex) : Prop := {
  ix_at : forall v, default [] (ix_bindings ix !! v) = List.filter (lists v) L;
  ix_all : forall v, v ∈ ix_universe ix <-> exists b, b ∈ L /\ lists v b = true;
  ix_fam : forall v f, f <> "" -> v ∈ default ∅ (ix_byFamily ix !! f) <->
    reverseProxyIPLiteralFamily v = f /\ exists b, b ∈ L /\ lists v b = true;
  ix_cert : forall v c, v ∈ default ∅ (ix_certIPs ix !! c) <->
    exists b, Some b ∈ L /\ CertificateRecordID b = c /\ lists v (Some b) = true }.

(** Adding the names of one binding, given that they are new. *)
Lemma indexNames_spec b : CertificateRecordID b <> 0 -> forall names ix, NoDup names ->
  let ix' := foldl (indexName b) ix names in
  (forall v, default [] (ix_bindings ix' !! v) =
     default [] (ix_bindings ix !! v) ++ if decide (v ∈ names) then [Some b] else []) /\
  (forall v, v ∈ ix_universe ix' <-> v ∈ ix_universe ix \/ v ∈ names) /\
  (forall v f, f <> "" -> v ∈ default ∅ (ix_byFamily ix' !! f) <->
     v ∈ default ∅ (ix_byFamily ix !! f) \/ (v ∈ names /\ reverseProxyIPLiteralFamily v = f)) /\
  (forall v c, v ∈ default ∅ (ix_certIPs ix' !! c) <->
     v ∈ default ∅ (ix_certIPs ix !! c) \/ (v ∈ names /\ c = CertificateRecordID b)).
Proof.
  intros Hz. induction names as [|n names IH]; intros ix Hnd; cbn [foldl].
  { split_and!; intros; rewrite ?decide_False, ?app_nil_r by apply not_elem_of_nil;
      rewrite ?elem_of_nil; naive_solver. }
  apply NoDup_cons in Hnd as [Hn Hnd]. destruct (IH (indexName b ix n) Hnd) as (H1 & H2 & H3 & H4).
  split_and!.
  - intros v. rewrite H1. cbn [indexName ix_bindings]. destruct (decide (v = n)) as [->|Hne].
    + assert (n ∈ n :: names) as Hh by left.
      by rewrite lookup_insert_eq, (decide_False _ _ Hn), (decide_True _ _ Hh), app_nil_r.
    + rewrite lookup_insert_ne by done. f_equal. destruct (decide (v ∈ names)) as [Hv|Hv].
      * rewrite decide_True; [done|by right].
      * rewrite decide_False; [done|]. by rewrite elem_of_cons; intros [?|?].
  - intros v. rewrite H2. cbn [indexName ix_universe]. set_solver.
  - intros v f Hf. rewrite (H3 v f Hf). cbn [indexName ix_byFamily]. rewrite elem_of_cons.
    destruct (String.eqb_spec (reverseProxyIPLiteralFamily n) "") as [E|E].
    + naive_solver.
    + destruct (decide (reverseProxyIPLiteralFamily n = f)) as [<-|Hne].
      * rewrite lookup_insert_eq. cbn [default from_option]. set_solver.
      * rewrite lookup_insert_ne by done. naive_solver.
  - intros v c. rewrite H4. cbn [indexName ix_certIPs]. rewrite elem_of_cons.
    destruct (decide (CertificateRecordID b = c)) as [<-|Hne].
    + rewrite lookup_insert_eq. cbn [default from_option]. set_solver.
    + rewrite lookup_insert_ne by done. naive_solver.
Qed.

Lemma indexBinding_spec ix x : let ix' := indexBinding ix x in
  (forall v, default [] (ix_bindings ix' !! v) = default [] (ix_bindings ix !! v) ++ if lists v x then [x] else []) /\
  (forall v, v ∈ ix_universe ix' <-> v ∈ ix_universe ix \/ lists v x = true) /\
  (forall v f, f <> "" -> v ∈ default ∅ (ix_byFamily ix' !! f) <->
     v ∈ default ∅ (ix_byFamily ix !! f) \/ (lists v x = true /\ reverseProxyIPLiteralFamily v = f)) /\
  (forall v c, v ∈ default ∅ (ix_certIPs ix' !! c) <->
     v ∈ default ∅ (ix_certIPs ix !! c) \/ exists b, x = Some b /\ CertificateRecordID b = c /\ lists v x = true).
Proof.
  assert ((forall v, lists v x = false) -> let ix' := ix in
    (forall v, default [] (ix_bindings ix' !! v) = default [] (ix_bindings ix !! v) ++ if lists v x then [x] else []) /\
    (forall v, v ∈ ix_universe ix' <-> v ∈ ix_universe ix \/ lists v x = true) /\
    (forall v f, f <> "" -> v ∈ default ∅ (ix_byFamily ix' !! f) <->
       v ∈ default ∅ (ix_byFamily ix !! f) \/ (lists v x = true /\ reverseProxyIPLiteralFamily v = f)) /\
    (forall v c, v ∈ default ∅ (ix_certIPs ix' !! c) <->
       v ∈ default ∅ (ix_certIPs ix !! c) \/ exists b, x = Some b /\ CertificateRecordID b = c /\ lists v x = true))
    as Hskip.
  { intros Hno. cbv zeta. split_and!.
    - intros v. by rewrite Hno, app_nil_r.
    - intros v. rewrite Hno. split; [by left|]. by intros [|].
    - intros v f _. rewrite Hno. split; [by left|]. by intros [|[? _]].
    - intros v c. rewrite Hno. split; [by left|]. by intros [|(? & _ & _ & ?)]. }
  destruct x as [b|]; cbn [indexBinding]; [|by apply Hskip].
  destruct (Z.eqb_spec (CertificateRecordID b) 0) as [Ez|Ez].
  { apply Hskip. intros v. cbn [lists]. by rewrite Ez. }
  assert (forall v, lists v (Some b) = bool_decide (v ∈ reverseProxyCertificateBindingIPNames (Some b))) as Hl.
  { intros v. cbn [lists]. by rewrite (proj2 (Z.eqb_neq _ _) Ez). }
  assert (NoDup (reverseProxyCertificateBindingIPNames (Some b))) as Hnd.
  { unfold reverseProxyCertificateBindingIPNames. destruct (_ ≫= _); [apply NoDup_dedupe|constructor]. }
  destruct (indexNames_spec b Ez _ ix Hnd) as (H1 & H2 & H3 & H4). split_and!.
  - intros v. rewrite H1, Hl. f_equal. by destruct (decide _); [rewrite bool_decide_true|rewrite bool_decide_false].
  - intros v. rewrite Hl, bool_decide_eq_true. apply H2.
  - intros v f Hf. rewrite Hl, bool_decide_eq_true. by apply H3.
  - intros v c. specialize (Hl v). rewrite (H4 v c). split.
    + intros [?|[Hv ->]]; [by left|right]. exists b. by rewrite Hl, bool_decide_true.
    + intros [?|(b' & [= <-] & <- & Hv)]; [by left|right]. by rewrite Hl, bool_decide_eq_true in Hv.
Qed.

Lemma index_spec L : Indexed L (foldl indexBinding (mkIndex ∅ ∅ (<["4" := ∅]> (<["6" := ∅]> ∅)) ∅) L).
Proof.
  induction L as [|x L IH] using rev_ind; [split; cbn [foldl ix_bindings ix_universe ix_byFamily ix_certIPs]|].
  - intros v. by rewrite lookup_empty.
  - intros v. split; [by intros ?%elem_of_empty|]. by intros (? & ?%not_elem_of_nil & _).
  - intros v f Hf. split; [|by intros (_ & ? & ?%not_elem_of_nil & _)].
    rewrite !lookup_insert. destruct (decide _); [done|]. destruct (decide _); [done|]. by rewrite lookup_empty.
  - intros v c. rewrite lookup_empty. split; [by intros ?%elem_of_empty|]. by intros (? & ?%not_elem_of_nil & _).
  - rewrite foldl_app. cbn [foldl]. set (ix := foldl _ _ L) in *. clearbody ix. destruct IH as [I1 I2 I3 I4].
    destruct (indexBinding_spec ix x) as (H1 & H2 & H3 & H4). split.
    + intros v. rewrite H1, I1, List.filter_app. cbn [List.filter]. by destruct (lists v x).
    + intros v. rewrite H2, I2. setoid_rewrite elem_of_app. setoid_rewrite list_elem_of_singleton. naive_solver.
    + intros v f Hf. rewrite (H3 v f Hf), (I3 v f Hf). setoid_rewrite elem_of_app.
      setoid_rewrite list_elem_of_singleton. naive_solver.
    + intros v c. rewrite H4, I4. setoid_rewrite elem_of_app. setoid_rewrite list_elem_of_singleton. naive_solver.
Qed.

(** What the lookups by address return. *)
Lemma bindings_at g v : let g' := configureIPCertificateIndexesLocked g in
  default [] (ipCertBindings g' !! v) = List.filter (lists v) (orderedCertBindings g).
Proof. apply ix_at, index_spec. Qed.

Lemma fallback_covers g v b : let g' := configureIPCertificateIndexesLocked g in
  reverseProxyIPLiteralFamily v <> "" ->
  b ∈ default [] (natFallbackCertBindings g' !! reverseProxyIPLiteralFamily v) ->
  b ∈ orderedCertBindings g /\
  exists b0, b = Some b0 /\ forall b' w, b' ∈ orderedCertBindings g -> lists w b' = true ->
    reverseProxyIPLiteralFamily w = reverseProxyIPLiteralFamily v ->
    exists b1, Some b1 ∈ orderedCertBindings g /\ CertificateRecordID b1 = CertificateRecordID b0 /\ lists w (Some b1) = true.
Proof.
  cbv zeta. intros Hf. unfold configureIPCertificateIndexesLocked. cbn [natFallbackCertBindings].
  pose proof (index_spec (orderedCertBindings g)) as Hi. set (ix := foldl _ _ _) in *. clearbody ix.
  set (f := reverseProxyIPLiteralFamily v) in *. clearbody f.
  destruct (filter _ (_ <$> _) !! f) as [l|] eqn:El; [|by intros ?%not_elem_of_nil].
  apply map_lookup_filter_Some in El as [El _]. rewrite lookup_fmap_Some in El. destruct El as (universe & <- & Hu).
  apply map_lookup_filter_Some in Hu as [Hu _]. cbn [default from_option id].
  rewrite list_elem_of_In, List.filter_In. intros [Hin Hc]. apply list_elem_of_In in Hin. split; [done|].
  destruct b as [b0|]; [|done]. exists b0. split; [done|]. intros b' w Hb' Hw Hfw.
  cbn [coversFamily] in Hc. apply bool_decide_eq_true in Hc.
  assert (w ∈ universe) as Hwu.
  { pose proof (ix_fam _ _ Hi w f Hf) as H. rewrite Hu in H. apply H. split; [done|]. by exists b'. }
  apply Hc, (ix_cert _ _ Hi) in Hwu as (b1 & H1 & H2 & H3). by exists b1.
Qed.

(** ** The certificate that is served *)

(** A binding of a rule for the name whose certificate the name verifies. *)
Definition offered g (serverName : string) (b : reverseProxyRuleCertificateBinding) (kind : reverseProxySNIMatchCategory)
  : Prop :=
  exists r, Some r ∈ rules g /\ reverseProxyRuleServerNameMatch r serverName = true /\ Some b ∈ bindingsOf g r /\
    reverseProxyCertificateBindingSNIMatchType (Some b) (reverseProxyNormalizeServerName serverName) = kind /\
    kind <> SNIMatchNone.

Lemma matchType_none name : reverseProxyCertificateBindingSNIMatchType None name = SNIMatchNone.
Proof. done. Qed.

Lemma matchType_verified b name :
  reverseProxyCertificateBindingSNIMatchType (Some b) name <> SNIMatchNone ->
  reverseProxyCertificateBindingUsable (Some b) now = true /\ reverseProxyNormalizeServerName name <> "" /\
  exists leaf, parsedOf b = Some leaf /\ VerifyHostname leaf (reverseProxyNormalizeServerName name) = true.
Proof.
  unfold reverseProxyCertificateBindingSNIMatchType.
  destruct (reverseProxyCertificateBindingUsable (Some b) now); [|done]. cbn [negb mbind option_bind].
  destruct (parsedOf b) as [leaf|]; [|done]. set (n := reverseProxyNormalizeServerName name). clearbody n.
  destruct (String.eqb_spec n ""); [done|]. destruct (VerifyHostname leaf n) eqn:Ev; [|done].
  intros _. split_and!; try done. by exists leaf.
Qed.

Lemma exists_rule_cons (P : ReverseProxyRule -> Prop) x l :
  (exists r, Some r ∈ x :: l /\ P r) <-> (exists r, x = Some r /\ P r) \/ exists r, Some r ∈ l /\ P r.
Proof. setoid_rewrite elem_of_cons. naive_solver. Qed.

Lemma nameCandidates_spec g serverName l :
  let '(matched, exact, wildcard) := nameCandidates g serverName l in
  let has kind r b := reverseProxyRuleServerNameMatch r serverName = true /\ Some b ∈ bindingsOf g r /\
    reverseProxyCertificateBindingSNIMatchType (Some b) (reverseProxyNormalizeServerName serverName) = kind in
  (forall b, Some b ∈ exact <-> exists r, Some r ∈ l /\ has SNIMatchExact r b) /\
  (forall b, Some b ∈ wildcard <-> exists r, Some r ∈ l /\ has SNIMatchWildcard r b).
Proof.
  induction l as [|x l IH]; cbn [nameCandidates].
  { by split; intros b; (split; [intros ?%not_elem_of_nil|intros (? & ?%not_elem_of_nil & _)]). }
  destruct x as [r|].
  2:{ destruct (nameCandidates g serverName l) as [[matched exact] wildcard]. destruct IH as [IH1 IH2].
      split; intros b; rewrite exists_rule_cons; [rewrite IH1|rewrite IH2]; naive_solver. }
  destruct (nameCandidates g serverName l) as [[matched exact] wildcard]. destruct IH as [IH1 IH2].
  destruct (reverseProxyRuleServerNameMatch r serverName) eqn:Em.
  2:{ split; intros b; rewrite exists_rule_cons; [rewrite IH1|rewrite IH2];
        (split; [by right|]; intros [(? & [= <-] & ? & _)|?]; [congruence|done]). }
  assert (reverseProxyNormalizeServerName serverName <> "") as Hne.
  { unfold reverseProxyRuleServerNameMatch in Em. apply andb_true_iff in Em as [Hn _].
    by apply negb_true_iff, String.eqb_neq in Hn. }
  unfold reverseProxySplitSNICertificateCandidates. rewrite (proj2 (String.eqb_neq _ _) Hne).
  set (asked := reverseProxyNormalizeServerName serverName) in *. clearbody asked.
  split; intros b; rewrite exists_rule_cons, elem_of_app, list_elem_of_In, List.filter_In, <-list_elem_of_In;
    [rewrite IH1|rewrite IH2]; apply or_iff_compat_r.
  all: split; [intros [Hb Ht]; exists r; split_and!; try done|intros (? & [= <-] & _ & Hb & ->); done].
  all: by destruct (reverseProxyCertificateBindingSNIMatchType (Some b) asked).
Qed.

Lemma selectAndBind_spec g candidates bucket kind ip others s count :
  let '(answer, s', count') := selectAndBindCertificate g candidates bucket kind ip others s count in
  match answer with
  | Some (Served b sel) => usableAmong candidates now b /\ ClientKind sel = kind /\
      (sel_CertificateRecordID sel = 0 \/ sel_CertificateRecordID sel = CertificateRecordID b)
  | Some (Refused _ _) => False
  | None => forall b, ~ usableAmong candidates now b
  end.
Proof.
  unfold selectAndBindCertificate. set (usable := List.filter _ candidates).
  assert (forall b, usableAmong usable now b <-> usableAmong candidates now b) as Hu.
  { intros b. unfold usableAmong, usable. rewrite list_elem_of_In, List.filter_In, <-list_elem_of_In. tauto. }
  pose proof (selectBalanced_spec usable bucket now now others s count) as H.
  destruct (selectBalancedCertificate _ _ _ _ _ _ _) as [[[[b|] chosen] s'] count']; cbn [option_map].
  - destruct H as (Hb & _ & Hc). rewrite Hu in Hb. split; [done|].
    destruct Hc as [-> | ->]; cbn [makeSelection ClientKind sel_CertificateRecordID]; auto.
  - destruct H as [_ H]. intros b. by rewrite <-Hu.
Qed.

Lemma offered_elem g name b exact wildcard matched :
  nameCandidates g name (rules g) = (matched, exact, wildcard) ->
  (Some b ∈ exact <-> offered g name b SNIMatchExact) /\ (Some b ∈ wildcard <-> offered g name b SNIMatchWildcard).
Proof.
  intros E. pose proof (nameCandidates_spec g name (rules g)) as H. rewrite E in H. destruct H as [H1 H2].
  unfold offered. split; [rewrite H1|rewrite H2]; naive_solver.
Qed.

(** What the balancer returns among the candidates of one kind. *)
Lemma select_offered g name candidates kind others s count :
  (forall b, Some b ∈ candidates <-> offered g name b kind) ->
  let '(selected, chosen, s', count') := selectBalancedCertificate candidates name now now others s count in
  match selected with
  | Some b => offered g name b kind /\ reverseProxyCertificateBindingUsable (Some b) now = true /\
      forall k ip, let sel := makeSelection g chosen k ip in
        ClientKind sel = k /\ (sel_CertificateRecordID sel = 0 \/ sel_CertificateRecordID sel = CertificateRecordID b)
  | None => forall b, CertificateRecordID b <> 0 -> ~ offered g name b kind
  end.
Proof.
  intros Hc. pose proof (selectBalanced_spec candidates name now now others s count) as H.
  destruct (selectBalancedCertificate _ _ _ _ _ _ _) as [[[[b|] chosen] s'] count'].
  - destruct H as ((Hin & Hz & Hu) & _ & Hsel). split_and!; [by apply Hc|done|].
    intros k ip. destruct Hsel as [-> | ->]; cbn [makeSelection ClientKind sel_CertificateRecordID]; auto.
  - destruct H as [_ H]. intros b Hz Ho. apply (H b). split_and!; [by apply Hc|done|].
    destruct Ho as (r & _ & _ & _ & <- & Hk). by apply matchType_verified in Hk as (? & _).
Qed.

Lemma served_name g helloName localIP others s count :
  let name := reverseProxyNormalizeServerName helloName in
  name <> "" -> reverseProxyParseIPLiteral name = None ->
  match (getCertificate g helloName localIP others s count).1.1 with
  | Served b sel =>
      ClientKind sel = KindDomain /\ reverseProxyCertificateBindingUsable (Some b) now = true /\
      (sel_CertificateRecordID sel = 0 \/ sel_CertificateRecordID sel = CertificateRecordID b) /\
      (offered g name b SNIMatchExact \/
       (offered g name b SNIMatchWildcard /\ forall b', CertificateRecordID b' <> 0 -> ~ offered g name b' SNIMatchExact))
  | Refused _ _ => forall b kind, CertificateRecordID b <> 0 -> ~ offered g name b kind
  end.
Proof.
  intros name Hn Hip. unfold getCertificate. fold name. clearbody name.
  rewrite (proj2 (String.eqb_neq _ _) Hn), Hip.
  destruct (nameCandidates g name (rules g)) as [[matched exact] wildcard] eqn:En.
  pose proof (select_offered g name exact SNIMatchExact others s count
    (fun b => proj1 (offered_elem g name b exact wildcard matched En))) as H1.
  destruct (selectBalancedCertificate exact _ _ _ _ _ _) as [[[[b|] chosen] s1] count1]; cbn [fst].
  { destruct H1 as (Ho & Hu & Hs). destruct (Hs KindDomain "") as [? ?]. by auto. }
  pose proof (select_offered g name wildcard SNIMatchWildcard others s1 count1
    (fun b => proj2 (offered_elem g name b exact wildcard matched En))) as H2.
  destruct (selectBalancedCertificate wildcard _ _ _ _ _ _) as [[[[b|] chosen2] s2] count2]; cbn [fst].
  { destruct H2 as (Ho & Hu & Hs). destruct (Hs KindDomain "") as [? ?]. split_and!; try done. by right. }
  intros b kind Hz Ho. destruct kind; [|exact (H1 b Hz Ho)|exact (H2 b Hz Ho)].
  destruct Ho as (r & _ & _ & _ & _ & Hk). by apply Hk.
Qed.

(** The certificate of [b] is for every address of the family of [v] that the
    listener has certificates for. *)
Definition servesFamily g (v : string) (b : reverseProxyRuleCertificateBinding) : Prop :=
  reverseProxyIPLiteralFamily v <> "" ->
  forall b' w, b' ∈ orderedCertBindings g -> lists w b' = true ->
    reverseProxyIPLiteralFamily w = reverseProxyIPLiteralFamily v ->
    exists b1, Some b1 ∈ orderedCertBindings g /\ CertificateRecordID b1 = CertificateRecordID b /\ lists w (Some b1) = true.

Lemma lists_among g v b : let g' := configureIPCertificateIndexesLocked g in
  usableAmong (default [] (ipCertBindings g' !! v)) now b -> lists v (Some b) = true.
Proof.
  intros g' (Hin & _). unfold g' in Hin. rewrite bindings_at in Hin.
  by apply list_elem_of_In, List.filter_In in Hin as [_ ?].
Qed.

(** An answer made of the candidates for an address. *)
Lemma bind_answer g candidates ip kind mismatch message (P : reverseProxyRuleCertificateBinding -> Prop) others s count :
  (forall b, usableAmong candidates now b -> P b) ->
  match default (Refused mismatch message) (selectAndBindCertificate g candidates ip kind ip others s count).1.1 with
  | Served b sel => ClientKind sel = kind /\ reverseProxyCertificateBindingUsable (Some b) now = true /\
      (sel_CertificateRecordID sel = 0 \/ sel_CertificateRecordID sel = CertificateRecordID b) /\ P b
  | Refused _ _ => True
  end.
Proof.
  intros HP. pose proof (selectAndBind_spec g candidates ip kind ip others s count) as H.
  destruct (selectAndBindCertificate _ _ _ _ _ _ _ _) as [[[[b sel|? ?]|] s'] count']; cbn [default from_option id fst]; try done.
  destruct H as (Hb & Hk & Hs). split_and!; try done; [apply Hb|by apply HP].
Qed.

Lemma served_address g0 helloName localIP addr others s count :
  let g := configureIPCertificateIndexesLocked g0 in
  let name := reverseProxyNormalizeServerName helloName in
  name <> "" -> reverseProxyParseIPLiteral name = Some addr ->
  match (getCertificate g helloName localIP others s count).1.1 with
  | Served b sel => ClientKind sel = KindIP /\ reverseProxyCertificateBindingUsable (Some b) now = true /\
      (sel_CertificateRecordID sel = 0 \/ sel_CertificateRecordID sel = CertificateRecordID b) /\
      lists (ipString addr) (Some b) = true
  | Refused _ _ => True
  end.
Proof.
  intros g name Hn Hip. unfold getCertificate. fold name. clearbody name.
  rewrite (proj2 (String.eqb_neq _ _) Hn), Hip. destruct (match reverseProxyParseIPLiteral localIP with Some _ => _ | None => _ end); [done|].
  set (candidates := default [] (ipCertBindings g !! ipString addr)).
  set (refusal := if decide (candidates = []) then _ else _).
  assert (exists m t, refusal = Refused m t) as (m & t & ->) by (unfold refusal; destruct (decide _); by eexists _, _).
  pose proof (bind_answer g candidates (ipString addr) KindIP m t (fun b => lists (ipString addr) (Some b) = true) others s
    count (fun b => lists_among g0 (ipString addr) b)) as H.
  by destruct (selectAndBindCertificate _ _ _ _ _ _ _ _) as [[answer s'] count'].
Qed.

Lemma served_without_name g0 helloName localIP others s count :
  let g := configureIPCertificateIndexesLocked g0 in
  reverseProxyNormalizeServerName helloName = "" ->
  match (getCertificate g helloName localIP others s count).1.1 with
  | Served b sel => ClientKind sel = KindNoSNI /\ reverseProxyCertificateBindingUsable (Some b) now = true /\
      (sel_CertificateRecordID sel = 0 \/ sel_CertificateRecordID sel = CertificateRecordID b) /\
      exists addr, reverseProxyParseIPLiteral localIP = Some addr /\
        (lists (ipString addr) (Some b) = true \/ servesFamily g (ipString addr) b)
  | Refused _ _ => True
  end.
Proof.
  intros g Hn. unfold getCertificate. rewrite Hn. cbn [String.eqb].
  set (pick := match reverseProxyParseIPLiteral localIP with Some _ => _ | None => _ end).
  assert (forall b, usableAmong pick.2 now b -> exists addr, reverseProxyParseIPLiteral localIP = Some addr /\
            (lists (ipString addr) (Some b) = true \/ servesFamily g (ipString addr) b)) as Hc.
  { unfold pick. intros b. destruct (reverseProxyParseIPLiteral localIP) as [addr|]; [|by intros (?%not_elem_of_nil & _)].
    destruct (decide (ipString addr ∈ ipCertificateUniverse g)); cbn [snd].
    - intros Hb. exists addr. split; [done|]. left. by apply (lists_among g0).
    - destruct (reverseProxyLocalAddressMayHidePublicTarget addr); cbn [snd]; [|by intros (?%not_elem_of_nil & _)].
      intros (Hin & _). exists addr. split; [done|]. right. intros Hf.
      apply fallback_covers in Hin as (_ & b0 & [= <-] & Hall); [exact Hall|exact Hf]. }
  destruct pick as [ip candidates]. cbn [snd] in Hc.
  pose proof (bind_answer g candidates ip KindNoSNI "missing_sni"
    "tls listener has no unambiguous ip certificate for an empty sni" _ others s count Hc) as H.
  by destruct (selectAndBindCertificate _ _ _ _ _ _ _ _) as [[answer s'] count'].
Qed.

(** C22: A client is served a certificate for what it asked for, and only refused
    when there is none.  For a name, it is a usable certificate of a rule for
    that name that the name verifies, by its own name if any such rule offers
    one and by a wildcard only otherwise, and a refusal means that no rule
    for the name has a usable certificate that the name verifies.  For an
    address in the handshake it lists the address; without a name it lists
    the local address, or every address of its family that the listener has
    certificates for.  The certificate recorded for the connection is the one
    served, unless none is recorded. *)
Theorem certificate_served_exact g0 helloName localIP others s count :
  let g := configureIPCertificateIndexesLocked g0 in
  let name := reverseProxyNormalizeServerName helloName in
  let '(answer, s', count') := getCertificate g helloName localIP others s count in
  match answer with
  | Served b sel =>
      reverseProxyCertificateBindingUsable (Some b) now = true /\
      (sel_CertificateRecordID sel = 0 \/ sel_CertificateRecordID sel = CertificateRecordID b) /\
      match ClientKind sel with
      | KindDomain => name <> "" /\ reverseProxyParseIPLiteral name = None /\
          (offered g name b SNIMatchExact \/
           (offered g name b SNIMatchWildcard /\
            forall b', CertificateRecordID b' <> 0 -> ~ offered g name b' SNIMatchExact))
      | KindIP => exists addr, reverseProxyParseIPLiteral name = Some addr /\ lists (ipString addr) (Some b) = true
      | KindNoSNI => name = "" /\ exists addr, reverseProxyParseIPLiteral localIP = Some addr /\
          (lists (ipString addr) (Some b) = true \/ servesFamily g (ipString addr) b)
      | KindNone => False
      end
  | Refused _ _ =>
      name <> "" -> reverseProxyParseIPLiteral name = None ->
      forall b kind, CertificateRecordID b <> 0 -> ~ offered g name b kind
  end.
Proof.
  intros g name. destruct (decide (name = "")) as [En|En].
  { pose proof (served_without_name g0 helloName localIP others s count En) as H.
    destruct (getCertificate _ _ _ _ _ _) as [[[b sel|? ?] s'] count']; [|done]. cbn [fst] in H.
    destruct H as (-> & ? & ? & ?). by split_and!. }
  destruct (reverseProxyParseIPLiteral name) as [addr|] eqn:Eip.
  - pose proof (served_address g0 helloName localIP addr others s count En Eip) as H.
    destruct (getCertificate _ _ _ _ _ _) as [[[b sel|? ?] s'] count']; [|done]. cbn [fst] in H.
    destruct H as (-> & ? & ? & ?). split_and!; try done. by exists addr.
  - pose proof (served_name g helloName localIP others s count En Eip) as H.
    destruct (getCertificate _ _ _ _ _ _) as [[[b sel|? ?] s'] count']; cbn [fst] in H; [|by intros _ _].
    destruct H as (-> & ? & ? & ?). by split_and!.
Qed.
End Lookup.
End Model.

(** ** A concrete listener *)

Definition demoParse (s : string) : option (list Z) := if String.eqb s "192.0.2.1" then Some [192; 0; 2; 1] else None.
Definition demoPrint (a : list Z) : string := if decide (a = [192; 0; 2; 1]) then "192.0.2.1" else "?".
Definition demoUnmarshal (s : string) : option (list string) := Some (splitOn "," s).
Definition demoVerify (c : x509Certificate) (name : string) : bool := existsb (String.eqb name) (DNSNames c).

Definition demoRule1 : ReverseProxyRule := mkRule 1 "a.example.com" "https" "" "/x" "".
Definition demoRule2 : ReverseProxyRule := mkRule 2 "*.example.com,B.Example.org" "https" "" "/y" "".
Definition demoRule3 : ReverseProxyRule := mkRule 3 "*.example.com" "https" "dns_doh" "" "/q".
Definition demoRules : list (option ReverseProxyRule) := [Some demoRule1; Some demoRule2; Some demoRule3].

Definition demoCert : x509Certificate := mkCertificate "der" (Some 100) [[192; 0; 2; 1]] ["a.example.com"].
Definition demoBind : reverseProxyRuleCertificateBinding :=
  mkBinding 1 7 true (Some (mkLeaf (Some demoCert) (Some 100) true)).

Definition demoListener (protocol : string) (rules : list (option ReverseProxyRule))
  (bindings : gmap Z (list (option reverseProxyRuleCertificateBinding))) : listenerGroup :=
  configureIPCertificateIndexesLocked demoParse demoPrint
    (mkListener "l" protocol rules (buildReverseProxyRuleMatchData demoUnmarshal rules) bindings
       (default [] (bindings !! 1)) ∅ ∅ ∅).

Definition demoTLS : listenerGroup := demoListener "https" demoRules {[1 := [Some demoBind]]}.

Lemma demo_conflictFree : conflictFree demoParse demoUnmarshal demoRules.
Proof.
  intros [|[|[|i]]] [|[|[|j]]] r r' Hne Hi Hj; try done; injection Hi as <-; injection Hj as <-; vm_compute; reflexivity.
Qed.

Lemma demo_paths : pathsStable demoRules.
Proof.
  intros r Hr. unfold demoRules in Hr. rewrite !elem_of_cons in Hr.
  destruct Hr as [[= ->]|[[= ->]|[[= ->]|?%not_elem_of_nil]]]; [right|right|left|done]; vm_compute; reflexivity.
Qed.

Lemma demo_current : matchDataCurrent demoUnmarshal demoTLS.
Proof.
  split; [vm_compute; reflexivity|]. intros r r'. change (rules demoTLS) with demoRules. unfold demoRules.
  rewrite !elem_of_cons.
  intros [[= ->]|[[= ->]|[[= ->]|?%not_elem_of_nil]]] [[= ->]|[[= ->]|[[= ->]|?%not_elem_of_nil]]]; done.
Qed.


Definition demoSelection : reverseProxyCertificateSelection := mkSelection "l" "a.example.com" 7 KindDomain "".

Lemma routed_rule_owns_certificate_witness :
  exists b leaf, Some b ∈ bindingsOf demoTLS demoRule1 /\ CertificateRecordID b = 7 /\ parsedOf b = Some leaf /\
    demoVerify leaf "a.example.com" = true.
Proof.
  destruct (routed_rule_owns_certificate demoParse demoPrint demoPrint demoUnmarshal demoVerify 50 demoTLS
    "a.example.com" "a.example.com" "/x" demoSelection demoRule1) as (_ & _ & b & leaf & H1 & H2 & _ & H3 & H4);
    [vm_compute; reflexivity|vm_compute; reflexivity|].
  exists b, leaf. split; [exact H1|]. split; [exact H2|]. split; [exact H3|].
  change (reverseProxyParseIPLiteral demoParse (reverseProxyNormalizeServerName "a.example.com")) with
    (@None (list Z)) in H4. exact (proj1 H4).
Defined.

Definition demoPlain : listenerGroup := demoListener "http" [Some (mkRule 4 "" "http" "" "/" "")] ∅.

Lemma hostless_rule_unreachable_witness :
  findRuleWithSelection demoParse demoPrint demoPrint demoUnmarshal demoVerify 50 demoPlain "192.0.2.1" "" "/" None =
  (None, true).
Proof.
  destruct (hostless_rule_unreachable demoParse demoPrint demoPrint demoUnmarshal demoVerify 50 demoPlain
    "192.0.2.1" "" "/" None [192; 0; 2; 1]) as [H1 H2]; [vm_compute; discriminate|vm_compute; reflexivity|vm_compute; reflexivity|].
  destruct (findRuleWithSelection _ _ _ _ _ _ _ _ _ _ _) as [r b]. cbn [fst snd] in *. subst r. f_equal.
  apply H2. exists (mkRule 4 "" "http" "" "/" ""). split; [by left|vm_compute; reflexivity].
Defined.

(** The handshake of a client that names the rule, and of one that connects to
    the address of the certificate. *)
Example demo_handshakes :
  let ask name local := (getCertificate demoParse demoPrint demoParse demoUnmarshal demoVerify 50 demoTLS name local 0
                           emptyShard 0).1.1 in
  ask "A.example.com." "10.0.0.1" = Served demoBind demoSelection /\
  ask "" "192.0.2.1" = Served demoBind (mkSelection "l" "192.0.2.1" 7 KindNoSNI "192.0.2.1") /\
  ask "c.example.com" "" = Refused "unrecognized_sni" "tls listener certificate is unavailable" /\
  ask "other.org" "" = Refused "unrecognized_sni" "unrecognized tls sni".
Proof. vm_compute. split_and!; reflexivity. Qed.
