(* ===== verification/Overview.v ===== *)
(** * The traffic overview ([service/traffic_overview.go])

    The panel shows how much traffic the host has used in the current billing
    period and since the last full reset, and cuts the host off when a limit
    is reached.  The raw figures come from vnstat, which lags, and from the
    kernel's interface counters, which restart at a reboot; the code merges
    the two into one counter and keeps baselines to subtract from it.  The
    baselines are persisted through a write-behind cache.

    An operation is a computation in [M] over a [world]: the settings table,
    the caches, the cap rules of nftables, the clock (nanoseconds) and a
    schedule of faults, one per access to the settings or to nft.  What the
    operation learns from the machine (platform, selected interfaces, vnstat's
    totals, the kernel's counters, the ports to keep open) is a [host].  The
    operations run one at a time: the panel serialises them with
    [trafficOverviewOperationMu] and [trafficOverviewStateMu], except that a
    flush ([flushRuntimeState]) may be overtaken between its read and its
    save, which [takePending] and [saveRuntimeState] model separately.
    Starting and stopping the vnstat daemon, the log and the settings that the
    code does not read back are left out. *)

From stdpp Require Import base gmap list strings sorting.
From Stdlib Require Import ZArith Lia Ascii.
From Stdlib Require SpecFloat.
From S2P Require Import Prelude GoStrings PortRanges Calendar.

#[local] Open Scope Z_scope.
#[local] Open Scope go_scope.

(** ** Floating point

    [float64] is IEEE binary64, as [SpecFloat] computes it. *)

Notation float64 := SpecFloat.spec_float.

Definition prec : Z := 53.
Definition emax : Z := 1024.
Definition float_of_Z (z : Z) : float64 := SpecFloat.binary_normalize prec emax z 0 false.
Definition fmul (x y : float64) : float64 := SpecFloat.SFmul prec emax x y.
Definition fdiv (x y : float64) : float64 := SpecFloat.SFdiv prec emax x y.
Definition fzero : float64 := SpecFloat.S754_zero false.

(** [math.Round]: half away from zero. *)
Definition mathRound (x : float64) : float64 :=
  match x with
  | SpecFloat.S754_finite s m e =>
      if 0 <=? e then x
      else
        let d := 2 ^ (- e) in
        match (Z.pos m + d / 2) / d with
        | Z.pos p => SpecFloat.binary_normalize prec emax (if s then Z.neg p else Z.pos p) 0 s
        | _ => SpecFloat.S754_zero s
        end
  | _ => x
  end.

(** The conversion [int64(x)] of a value in range: towards zero. *)
Definition float_to_int64 (x : float64) : Z :=
  match x with
  | SpecFloat.S754_finite s m e =>
      let v := if 0 <=? e then Z.pos m * 2 ^ e else Z.pos m / 2 ^ (- e) in
      if s then - v else v
  | _ => 0
  end.

Definition isFiniteFloat (value : float64) : bool :=
  match value with
  | SpecFloat.S754_infinity _ | SpecFloat.S754_nan => false
  | _ => true
  end.

(** The literal 0.01: the double nearest to one hundredth. *)
Definition trafficOverviewMinDisplayGiB : float64 := fdiv (float_of_Z 1) (float_of_Z 100).

Definition normalizeLimitGiB (value : float64) : float64 :=
  if negb (isFiniteFloat value) || SpecFloat.SFltb value fzero then fzero
  else
    let rounded := fdiv (mathRound (fmul value (float_of_Z 100))) (float_of_Z 100) in
    if SpecFloat.SFltb fzero rounded && SpecFloat.SFltb rounded trafficOverviewMinDisplayGiB
    then trafficOverviewMinDisplayGiB
    else rounded.

(** [limit > 0]. *)
Definition isPositive (x : float64) : bool := SpecFloat.SFltb fzero x.

Definition limitGiBToBytes (limitGiB : float64) : Z :=
  let normalized := normalizeLimitGiB limitGiB in
  if SpecFloat.SFleb normalized fzero then 0
  else
    let k := float_of_Z 1024 in
    let total := fmul (fmul (fmul normalized k) k) k in
    if SpecFloat.SFleb (float_of_Z max_i64) total then max_i64
    else if SpecFloat.SFleb total fzero then 0
    else float_to_int64 total.

Example limit_one_and_a_half : limitGiBToBytes (fdiv (float_of_Z 3) (float_of_Z 2)) = 1610612736.
Proof. vm_compute. reflexivity. Qed.

(** A limit below half a hundredth is no limit, one above is at least 0.01 GiB. *)
Example limit_tiny :
  limitGiBToBytes (fdiv (float_of_Z 4) (float_of_Z 1000)) = 0 /\
  limitGiBToBytes (fdiv (float_of_Z 6) (float_of_Z 1000)) = 10737418.
Proof. vm_compute. split; reflexivity. Qed.

(** ** Data *)

Record trafficOverviewRuntimeState : Type := mkState {
  Interface : string;
  ManualBaseUp : Z;
  ManualBaseDown : Z;
  PeriodBaseUp : Z;
  PeriodBaseDown : Z;
  PeriodTag : string;
  PeriodResetDay : Z;
  LastFullResetAt : Z;
  LastPeriodReset : Z;
  KernelOffsetUp : Z;
  KernelOffsetDown : Z;
  LastKernelUp : Z;
  LastKernelDown : Z }.

Definition zeroState : trafficOverviewRuntimeState := mkState "" 0 0 0 0 "" 0 0 0 0 0 0 0.

Record trafficOverviewSnapshot : Type := mkSnapshot {
  snSource : string;
  snInterface : string;
  snAvailable : bool;
  snUp : Z;
  snDown : Z;
  snTotal : Z;
  snAccumUp : Z;
  snAccumDown : Z;
  snAccumTotal : Z;
  snUpdatedAt : Z }.

Definition zeroSnapshot : trafficOverviewSnapshot := mkSnapshot "" "" false 0 0 0 0 0 0 0.

Record trafficOverviewPauseState : Type := mkPause {
  pzPaused : bool;
  pzInterface : string;
  pzCurrentUp : Z;
  pzCurrentDown : Z;
  pzPeriodBaseUp : Z;
  pzPeriodBaseDown : Z;
  pzManualBaseUp : Z;
  pzManualBaseDown : Z;
  pzLastVnstatUp : Z;
  pzLastVnstatDown : Z;
  pzSnapshot : trafficOverviewSnapshot;
  pzPausedAt : Z }.

Record trafficOverviewCapState : Type := mkCap {
  capActive : bool;
  capLimitReached : bool;
  capAllowedPorts : list Z;
  capUpdatedAt : Z }.

#[global] Instance state_eq_dec : EqDecision trafficOverviewRuntimeState.
Proof. solve_decision. Defined.
#[global] Instance snapshot_eq_dec : EqDecision trafficOverviewSnapshot.
Proof. solve_decision. Defined.

(** The two write-behind caches; the zero [time.Time] is [None]. *)
Record trafficOverviewRuntimeStateCacheState : Type := mkCache {
  Loaded : bool;
  HasPersisted : bool;
  Persisted : trafficOverviewRuntimeState;
  HasPending : bool;
  Pending : trafficOverviewRuntimeState;
  LastFlushAt : option Z }.

Definition emptyCache : trafficOverviewRuntimeStateCacheState :=
  mkCache false false zeroState false zeroState None.

Record trafficOverviewSnapshotState : Type := mkSnapCache {
  scLoaded : bool;
  scHasPersisted : bool;
  scPersisted : trafficOverviewSnapshot;
  scHasPending : bool;
  scPending : trafficOverviewSnapshot;
  scLastFlushAt : option Z }.

Definition emptySnapCache : trafficOverviewSnapshotState :=
  mkSnapCache false false zeroSnapshot false zeroSnapshot None.

(** What [getOverviewConfig] returns. *)
Record overviewConfig : Type := mkConfig {
  cfgLimitGiB : float64;
  cfgResetDay : Z;
  cfgExpiryDate : string;
  cfgExpiryBoundary : option Z;
  cfgEnabled : bool }.

Definition second : Z := 1000000000.
Definition trafficOverviewFlushDelta : Z := 1024 * 1024.
Definition trafficOverviewFlushInterval : Z := 30 * second.
Definition trafficOverviewConfigCacheTTL : Z := 5 * 60 * second.
Definition trafficOverviewCapEvaluateInterval : Z := 30 * second.

Definition trafficOverviewLimitGiBKey : string := "trafficOverviewLimitGiB".
Definition trafficOverviewStateKey : string := "trafficOverviewState".
Definition trafficOverviewEnabledKey : string := "trafficOverviewEnabled".
Definition trafficOverviewResetDayKey : string := "trafficOverviewResetDay".
Definition trafficOverviewExpiryDateKey : string := "trafficOverviewExpiryDate".
Definition trafficOverviewSnapshotKey : string := "trafficOverviewSnapshot".
Definition trafficOverviewCapStateKey : string := "trafficOverviewCapState".
Definition trafficOverviewPauseStateKey : string := "trafficOverviewPauseState".

(** The entries of [defaultValueMap] for these keys. *)
Definition defaultSettingValue (key : string) : string :=
  if decide (key = trafficOverviewLimitGiBKey \/ key = trafficOverviewResetDayKey) then "0"
  else if decide (key = trafficOverviewEnabledKey) then "true"
  else if decide (key = trafficOverviewExpiryDateKey) then ""
  else "{}".

(** The error values; only whether there is one matters to the callers. *)
Inductive oerr : Type :=
| ErrSettings           (* the settings table failed *)
| ErrJson               (* a stored value does not parse *)
| ErrExpiryDate
| ErrUnsupported        (* vnstat is supported on linux only *)
| ErrNotInstalled
| ErrNoInterface
| ErrVnstat             (* vnstat gave no totals *)
| ErrKernel             (* no kernel counters for the interfaces *)
| ErrNft                (* an nft command failed *)
| ErrAllowlist.         (* the allowlist of the cap is empty *)

(** ** The rules of the traffic cap in nftables *)

Inductive nftChain : Type := nftChainIn | nftChainOut | nftChainForward.
Inductive capTag : Type := trafficCapTagLoopback | trafficCapTagDropExcept | trafficCapTagDropForward.
#[global] Instance nftChain_eq_dec : EqDecision nftChain.
Proof. solve_decision. Defined.
#[global] Instance capTag_eq_dec : EqDecision capTag.
Proof. solve_decision. Defined.

(** A rule with a cap comment: its chain, its tag, and the ports it spares. *)
Record capRule : Type := mkRule { ruleChain : nftChain; ruleTag : capTag; rulePorts : list Z }.
Record nftTables : Type := mkNft { nftTableExists : bool; capRules : list capRule }.

(** ** The world and the machine *)

Record world : Type := mkWorld {
  wSettings : gmap string string;
  wRuntime : trafficOverviewRuntimeStateCacheState;
  wSnapshot : trafficOverviewSnapshotState;
  wConfig : option (overviewConfig * Z);   (* trafficOverviewConfigCache, with updatedAt *)
  wCapChecked : bool;                      (* trafficOverviewCapStartupChecked *)
  wCapAt : option Z;                       (* trafficOverviewCapLastEvaluatedAt *)
  wNft : nftTables;
  wFaults : list bool;
  wNano : Z }.

(** [psnet.IOCounters(true)]: name, bytes sent, bytes received. *)
Record host (L : Type) : Type := mkHost {
  isLinux : bool;
  nftSupported : bool;
  manifestTrusted : bool;                  (* loadTrustedVnstatManifest *)
  vnstatInstalled : bool;                  (* GetVnstatStatus().Installed *)
  selectedInterfaces : list string;        (* GetSelectedTrafficInterfaces *)
  interfaceMode : string;
  vnstatTotals : option (Z * Z);           (* loadVnstatTrafficTotals: sent, received *)
  ioCounters : option (list (string * Z * Z));
  defaultPorts : list Z;                   (* resolveFirewallDefaultPorts().All *)
  location : L }.                          (* the panel's time zone *)
Arguments isLinux {L} h : rename.
Arguments nftSupported {L} h : rename.
Arguments manifestTrusted {L} h : rename.
Arguments vnstatInstalled {L} h : rename.
Arguments selectedInterfaces {L} h : rename.
Arguments interfaceMode {L} h : rename.
Arguments vnstatTotals {L} h : rename.
Arguments ioCounters {L} h : rename.
Arguments defaultPorts {L} h : rename.
Arguments location {L} h : rename.

(** [encoding/json] on the four stored structs, and [strconv.ParseFloat]. *)
Class OverviewCodec : Type := {
  marshalState : trafficOverviewRuntimeState -> string;
  unmarshalState : string -> option trafficOverviewRuntimeState;
  marshalSnapshot : trafficOverviewSnapshot -> string;
  unmarshalSnapshot : string -> option trafficOverviewSnapshot;
  marshalPause : trafficOverviewPauseState -> string;
  unmarshalPause : string -> option trafficOverviewPauseState;
  marshalCap : trafficOverviewCapState -> string;
  unmarshalCap : string -> option trafficOverviewCapState;
  parseFloat : string -> option float64 }.

(** ** Computations *)

Definition M (A : Type) : Type := world -> res oerr A * world.

Definition ret {A} (a : A) : M A := fun w => (Ok a, w).
Definition throw {A} (e : oerr) : M A := fun w => (Err e, w).
Definition bind {A B} (m : M A) (k : A -> M B) : M B := fun w =>
  match m w with
  | (Ok a, w') => k a w'
  | (Err e, w') => (Err e, w')
  end.
(** The result of [m] as a value: [if err := m(); err != nil]. *)
Definition try {A} (m : M A) : M (res oerr A) := fun w => let '(r, w') := m w in (Ok r, w').
Definition get {A} (f : world -> A) : M A := fun w => (Ok (f w), w).
Definition modify (f : world -> world) : M unit := fun w => (Ok tt, f w).

Notation "'let!' x ':=' m 'in' k" := (bind m (fun x => k))
  (at level 200, x pattern, m at level 100, k at level 200, right associativity).
Notation "m ';;' k" := (bind m (fun _ => k)) (at level 100, right associativity).

Definition setSettings (m : gmap string string) (w : world) : world :=
  mkWorld m (wRuntime w) (wSnapshot w) (wConfig w) (wCapChecked w) (wCapAt w) (wNft w) (wFaults w) (wNano w).
Definition setRuntime (c : trafficOverviewRuntimeStateCacheState) (w : world) : world :=
  mkWorld (wSettings w) c (wSnapshot w) (wConfig w) (wCapChecked w) (wCapAt w) (wNft w) (wFaults w) (wNano w).
Definition setSnapshot (c : trafficOverviewSnapshotState) (w : world) : world :=
  mkWorld (wSettings w) (wRuntime w) c (wConfig w) (wCapChecked w) (wCapAt w) (wNft w) (wFaults w) (wNano w).
Definition setConfig (c : option (overviewConfig * Z)) (w : world) : world :=
  mkWorld (wSettings w) (wRuntime w) (wSnapshot w) c (wCapChecked w) (wCapAt w) (wNft w) (wFaults w) (wNano w).
Definition setCapChecked (b : bool) (w : world) : world :=
  mkWorld (wSettings w) (wRuntime w) (wSnapshot w) (wConfig w) b (wCapAt w) (wNft w) (wFaults w) (wNano w).
Definition setCapAt (t : option Z) (w : world) : world :=
  mkWorld (wSettings w) (wRuntime w) (wSnapshot w) (wConfig w) (wCapChecked w) t (wNft w) (wFaults w) (wNano w).
Definition setNft (n : nftTables) (w : world) : world :=
  mkWorld (wSettings w) (wRuntime w) (wSnapshot w) (wConfig w) (wCapChecked w) (wCapAt w) n (wFaults w) (wNano w).
Definition setFaults (l : list bool) (w : world) : world :=
  mkWorld (wSettings w) (wRuntime w) (wSnapshot w) (wConfig w) (wCapChecked w) (wCapAt w) (wNft w) l (wNano w).
Definition setNano (t : Z) (w : world) : world :=
  mkWorld (wSettings w) (wRuntime w) (wSnapshot w) (wConfig w) (wCapChecked w) (wCapAt w) (wNft w) (wFaults w) t.

(** A step that may fail: it takes the next fault of the schedule. *)
Definition step (e : oerr) : M unit := fun w =>
  match wFaults w with
  | true :: l => (Err e, setFaults l w)
  | false :: l => (Ok tt, setFaults l w)
  | [] => (Ok tt, w)
  end.

Definition nowUnix : M Z := get (fun w => wNano w / second).

(** [SettingService.getString] and [setString] on these keys. *)
Definition getString (key : string) : M string :=
  step ErrSettings ;; get (fun w => default (defaultSettingValue key) (wSettings w !! key)).
Definition setString (key value : string) : M unit :=
  step ErrSettings ;; modify (fun w => setSettings (<[key := value]> (wSettings w)) w).

(** [strconv.ParseBool]. *)
Definition parseBool (s : string) : option bool :=
  if decide (s ∈ ["1"; "t"; "T"; "TRUE"; "true"; "True"]) then Some true
  else if decide (s ∈ ["0"; "f"; "F"; "FALSE"; "false"; "False"]) then Some false
  else None.

Definition getBool (key : string) : M bool :=
  let! str := getString key in
  match parseBool (trim_space str) with
  | Some val => ret val
  | None => match parseBool (trim_space (defaultSettingValue key)) with
            | Some val => ret val
            | None => throw ErrSettings
            end
  end.

(** ** The counter *)

Definition maxInt64 (value floor : Z) : Z := if value <? floor then floor else value.
Definition nonNegativeDiff (current baseline : Z) : Z :=
  let diff := current -! baseline in
  if diff <? 0 then 0 else diff.
Definition absInt64 (value : Z) : Z := if value <? 0 then wrap64 (- value) else value.

(** [reconcileKernelRealtimeCounter]: [changed], the merged counter, and the
    new [*offset] and [*lastKernel]. *)
Definition reconcileKernelRealtimeCounter (offset lastKernel : Z) (ifaceChanged : bool)
    (vnstatCurrent kernelCurrent : Z) : bool * Z * Z * Z :=
  let vnstatCurrent := maxInt64 vnstatCurrent 0 in
  let kernelCurrent := maxInt64 kernelCurrent 0 in
  if ifaceChanged then
    let nextOffset := nonNegativeDiff vnstatCurrent kernelCurrent in
    let changed := negb (offset =? nextOffset) || negb (lastKernel =? kernelCurrent) in
    (changed, maxInt64 vnstatCurrent (nextOffset +! kernelCurrent), nextOffset, kernelCurrent)
  else
    let previousSynthetic := maxInt64 offset 0 +! maxInt64 lastKernel 0 in
    let '(changed, offset) :=
      if kernelCurrent <? lastKernel then
        let nextSyntheticBase := maxInt64 previousSynthetic vnstatCurrent in
        let nextOffset := nonNegativeDiff nextSyntheticBase kernelCurrent in
        (negb (offset =? nextOffset), nextOffset)
      else (false, offset) in
    let current := maxInt64 vnstatCurrent (maxInt64 offset 0 +! kernelCurrent) in
    let desiredOffset := nonNegativeDiff current kernelCurrent in
    (changed || negb (offset =? desiredOffset) || negb (lastKernel =? kernelCurrent),
     current, desiredOffset, kernelCurrent).

(** [sort.Strings]: lexicographic on bytes. *)
Definition joinSortedInterfaces (ifaces : list string) : string :=
  joinWith "," (merge_sort String.le
    (filter (fun s => s <> "") (trim_space <$> ifaces))).

Definition uint64ToSafeInt64 (value : Z) : Z := if max_i64 <? value then max_i64 else value.

Definition addCounter (target : list string) (acc : Z * Z * bool) (stat : string * Z * Z) : Z * Z * bool :=
  let '(sent, recv, found) := acc in
  let '(name, s, r) := stat in
  if decide (name ∈ target) then ((sent + s) mod 2 ^ 64, (recv + r) mod 2 ^ 64, true) else acc.

Definition loadKernelTrafficTotals (ifaces : list string)
    (ioStats : option (list (string * Z * Z))) : res oerr (Z * Z) :=
  if decide (ifaces = []) then Err ErrNoInterface
  else match ioStats with
       | None => Err ErrKernel
       | Some stats =>
           let target := filter (fun s => s <> "") (trim_space <$> ifaces) in
           let '(sent, recv, found) := foldl (addCounter target) (0, 0, false) stats in
           if found then Ok (uint64ToSafeInt64 sent, uint64ToSafeInt64 recv) else Err ErrKernel
       end.

Definition setKernel (ou od lu ld : Z) (s : trafficOverviewRuntimeState) : trafficOverviewRuntimeState :=
  mkState (Interface s) (ManualBaseUp s) (ManualBaseDown s) (PeriodBaseUp s) (PeriodBaseDown s)
          (PeriodTag s) (PeriodResetDay s) (LastFullResetAt s) (LastPeriodReset s) ou od lu ld.

(** The state after, the two counters, the source and whether the state changed. *)
Definition deriveCurrentAlltimeTotals {L : Type} (h : host L) (state : trafficOverviewRuntimeState)
    (ifaces : list string) (vnstatUp vnstatDown : Z)
  : trafficOverviewRuntimeState * Z * Z * string * bool :=
  let vnstatUp := maxInt64 vnstatUp 0 in
  let vnstatDown := maxInt64 vnstatDown 0 in
  let joinedIfaces := joinSortedInterfaces ifaces in
  let ifaceChanged := bool_decide (trim_space (Interface state) = "") ||
                      negb (bool_decide (Interface state = joinedIfaces)) in
  match loadKernelTrafficTotals ifaces (ioCounters h) with
  | Err _ => (state, vnstatUp, vnstatDown, "vnstat", false)
  | Ok (kernelUp, kernelDown) =>
      let '(upChanged, currentUp, ou, lu) :=
        reconcileKernelRealtimeCounter (KernelOffsetUp state) (LastKernelUp state) ifaceChanged vnstatUp kernelUp in
      let '(downChanged, currentDown, od, ld) :=
        reconcileKernelRealtimeCounter (KernelOffsetDown state) (LastKernelDown state) ifaceChanged vnstatDown kernelDown in
      (setKernel ou od lu ld state, currentUp, currentDown, "vnstat+kernel", upChanged || downChanged)
  end.

(** ** Baselines *)

Definition normalizeTrafficOverviewRuntimeState (s : trafficOverviewRuntimeState) : trafficOverviewRuntimeState :=
  mkState (Interface s) (maxInt64 (ManualBaseUp s) 0) (maxInt64 (ManualBaseDown s) 0)
    (maxInt64 (PeriodBaseUp s) 0) (maxInt64 (PeriodBaseDown s) 0) (PeriodTag s)
    (normalizeResetDay (PeriodResetDay s)) (maxInt64 (LastFullResetAt s) 0) (maxInt64 (LastPeriodReset s) 0)
    (maxInt64 (KernelOffsetUp s) 0) (maxInt64 (KernelOffsetDown s) 0)
    (maxInt64 (LastKernelUp s) 0) (maxInt64 (LastKernelDown s) 0).

(** [now] is [time.Now().Unix()]. *)
Definition normalizeStateForTotals (state : trafficOverviewRuntimeState) (iface : string) (up down now : Z)
  : trafficOverviewRuntimeState * bool :=
  let up := maxInt64 up 0 in
  let down := maxInt64 down 0 in
  let needsReset :=
    bool_decide (trim_space (Interface state) = "") || negb (bool_decide (Interface state = iface)) ||
    (up <? ManualBaseUp state) || (down <? ManualBaseDown state) ||
    (up <? PeriodBaseUp state) || (down <? PeriodBaseDown state) in
  if needsReset then
    (mkState iface up down up down "" 0 (LastFullResetAt state) now
       (KernelOffsetUp state) (KernelOffsetDown state) (LastKernelUp state) (LastKernelDown state), true)
  else (state, false).

Definition setPeriod (tag : string) (day : Z) (s : trafficOverviewRuntimeState) : trafficOverviewRuntimeState :=
  mkState (Interface s) (ManualBaseUp s) (ManualBaseDown s) (PeriodBaseUp s) (PeriodBaseDown s)
          tag day (LastFullResetAt s) (LastPeriodReset s)
          (KernelOffsetUp s) (KernelOffsetDown s) (LastKernelUp s) (LastKernelDown s).

Definition applyPeriodResetIfNeeded {L : Type} `{!Location L} (state : trafficOverviewRuntimeState)
    (resetDay up down : Z) (loc : L) (now : Z) : trafficOverviewRuntimeState * bool :=
  let resetDay := normalizeResetDay resetDay in
  if resetDay <=? 0 then
    (setPeriod "" 0 state, negb (bool_decide (PeriodTag state = "")) || negb (PeriodResetDay state =? 0))
  else
    let expectedTag := computePeriodTag resetDay loc now in
    if negb (PeriodResetDay state =? resetDay) then
      (setPeriod expectedTag resetDay state,
       negb (PeriodResetDay state =? resetDay) || negb (bool_decide (PeriodTag state = expectedTag)))
    else if decide (trim_space (PeriodTag state) = "") then
      (setPeriod expectedTag (PeriodResetDay state) state, true)
    else if decide (PeriodTag state = expectedTag) then (state, false)
    else
      (mkState (Interface state) (ManualBaseUp state) (ManualBaseDown state) (maxInt64 up 0) (maxInt64 down 0)
         expectedTag (PeriodResetDay state) (LastFullResetAt state) now
         (KernelOffsetUp state) (KernelOffsetDown state) (LastKernelUp state) (LastKernelDown state), true).

(** ** Snapshots *)

Definition normalizeOverviewSnapshot (s : trafficOverviewSnapshot) : trafficOverviewSnapshot :=
  let source := trim_space (snSource s) in
  mkSnapshot (if decide (source = "") then "vnstat" else source) (trim_space (snInterface s)) (snAvailable s)
    (maxInt64 (snUp s) 0) (maxInt64 (snDown s) 0) (maxInt64 (snTotal s) 0)
    (maxInt64 (snAccumUp s) 0) (maxInt64 (snAccumDown s) 0) (maxInt64 (snAccumTotal s) 0)
    (maxInt64 (snUpdatedAt s) 0).

Definition snapshotDeltaBytes (current previous : trafficOverviewSnapshot) : Z :=
  let totalDelta := absInt64 (snTotal current -! snTotal previous) in
  let accumDelta := absInt64 (snAccumTotal current -! snAccumTotal previous) in
  if totalDelta <? accumDelta then accumDelta else totalDelta.

(** [TrafficOverview] without the list of interfaces of the machine and the
    status of the vnstat package, which are copied from the host. *)
Record trafficOverview : Type := mkOverview {
  ovSource : string;
  ovInterface : string;
  ovInterfaces : list string;
  ovInterfaceMode : string;
  ovEnabled : bool;
  ovStatus : string;
  ovAvailable : bool;
  ovUp : Z;
  ovDown : Z;
  ovTotal : Z;
  ovAccumUp : Z;
  ovAccumDown : Z;
  ovAccumTotal : Z;
  ovLimitGiB : float64;
  ovResetDay : Z;
  ovExpiryDate : string;
  ovExpired : bool;
  ovNextResetAt : Z;
  ovUpdatedAt : Z;
  ovError : option oerr }.

Definition snapshotFromOverview (o : trafficOverview) : trafficOverviewSnapshot :=
  normalizeOverviewSnapshot
    (mkSnapshot (ovSource o) (ovInterface o) (ovAvailable o) (ovUp o) (ovDown o) (ovTotal o)
       (ovAccumUp o) (ovAccumDown o) (ovAccumTotal o) (ovUpdatedAt o)).

Definition applySnapshotToOverview (o : trafficOverview) (snapshot : trafficOverviewSnapshot) : trafficOverview :=
  let s := normalizeOverviewSnapshot snapshot in
  mkOverview (snSource s) (snInterface s) (ovInterfaces o) (ovInterfaceMode o) (ovEnabled o) (ovStatus o)
    (snAvailable s) (snUp s) (snDown s) (snTotal s) (snAccumUp s) (snAccumDown s) (snAccumTotal s)
    (ovLimitGiB o) (ovResetDay o) (ovExpiryDate o) (ovExpired o) (ovNextResetAt o)
    (if 0 <? snUpdatedAt s then snUpdatedAt s else ovUpdatedAt o) (ovError o).

(** ** The write-behind caches *)

(** The state a loaded cache stands for. *)
Definition cachedState (c : trafficOverviewRuntimeStateCacheState) : trafficOverviewRuntimeState :=
  if HasPending c then Pending c else if HasPersisted c then Persisted c else zeroState.

Section Operations.
Context {codec : OverviewCodec} {L : Type} `{!Location L}.
Implicit Types h : host L.

(** A stored struct: the empty string and [{}] are the zero value. *)
Definition isBlankJson (trimmed : string) : bool := bool_decide (trimmed = "" \/ trimmed = "{}").

Definition loadRuntimeState : M trafficOverviewRuntimeState :=
  let! cache := get wRuntime in
  if Loaded cache then ret (cachedState cache)
  else
    let! raw := getString trafficOverviewStateKey in
    let trimmed := trim_space raw in
    let! state :=
      (if isBlankJson trimmed then ret zeroState
       else match unmarshalState trimmed with
            | None => throw ErrJson
            | Some state => ret state
            end) in
    let state := normalizeTrafficOverviewRuntimeState state in
    modify (fun w =>
      if Loaded (wRuntime w) then w
      else setRuntime (mkCache true true state false zeroState None) w) ;;
    get (fun w =>
      let c := wRuntime w in
      if HasPending c then Pending c else if HasPersisted c then Persisted c else state).

(** The cache after the value was written to the settings. *)
Definition cacheSaved (state : trafficOverviewRuntimeState) (now : Z)
    (c : trafficOverviewRuntimeStateCacheState) : trafficOverviewRuntimeStateCacheState :=
  let pendingChanged := HasPending c && negb (bool_decide (Pending c = state)) in
  mkCache true true state
    (if pendingChanged then HasPending c else false)
    (if pendingChanged then Pending c else zeroState)
    (Some now).

Definition saveRuntimeState (state : trafficOverviewRuntimeState) : M unit :=
  let state := normalizeTrafficOverviewRuntimeState state in
  setString trafficOverviewStateKey (marshalState state) ;;
  modify (fun w => setRuntime (cacheSaved state (wNano w) (wRuntime w)) w).

(** The first critical section of [flushRuntimeState]. *)
Definition takePending : M (option trafficOverviewRuntimeState) :=
  get (fun w => if HasPending (wRuntime w) then Some (Pending (wRuntime w)) else None).

Definition flushRuntimeState : M unit :=
  let! pending := takePending in
  match pending with
  | None => ret tt
  | Some pending => saveRuntimeState pending
  end.

Definition stageRuntimeState (state : trafficOverviewRuntimeState) (force : bool) : M unit :=
  let state := normalizeTrafficOverviewRuntimeState state in
  let! cache := get wRuntime in
  (if Loaded cache then ret tt else loadRuntimeState ;; ret tt) ;;
  modify (fun w =>
    let c := wRuntime w in
    setRuntime (mkCache (Loaded c) (HasPersisted c) (Persisted c) true state (LastFlushAt c)) w) ;;
  let! shouldFlush := get (fun w =>
    let c := wRuntime w in
    force || negb (HasPersisted c) ||
    match LastFlushAt c with
    | None => true
    | Some t => trafficOverviewFlushInterval <=? wNano w - t
    end) in
  if shouldFlush then flushRuntimeState else ret tt.

Definition loadSnapshotCacheLocked : M unit :=
  let! cache := get wSnapshot in
  if scLoaded cache then ret tt
  else
    modify (fun w =>
      let c := wSnapshot w in
      setSnapshot (mkSnapCache true (scHasPersisted c) (scPersisted c) (scHasPending c) (scPending c)
                     (scLastFlushAt c)) w) ;;
    let! raw := getString trafficOverviewSnapshotKey in
    let trimmed := trim_space raw in
    if isBlankJson trimmed then ret tt
    else match unmarshalSnapshot trimmed with
         | None => throw ErrJson
         | Some snapshot =>
             modify (fun w =>
               let c := wSnapshot w in
               setSnapshot (mkSnapCache (scLoaded c) true (normalizeOverviewSnapshot snapshot)
                              (scHasPending c) (scPending c) (scLastFlushAt c)) w)
         end.

(** [None] is the second result [false]. *)
Definition getSnapshotForDisplay : M (option trafficOverviewSnapshot) :=
  let! r := try loadSnapshotCacheLocked in
  match r with
  | Err _ => ret None
  | Ok _ => get (fun w =>
      let c := wSnapshot w in
      if scHasPending c then Some (scPending c)
      else if scHasPersisted c then Some (scPersisted c) else None)
  end.

Definition saveOverviewSnapshot (snapshot : trafficOverviewSnapshot) : M unit :=
  setString trafficOverviewSnapshotKey (marshalSnapshot snapshot).

(** Enough has changed, or enough time has passed, to write [s]. *)
Definition snapshotDue (s : trafficOverviewSnapshot) (w : world) : bool :=
  let c := wSnapshot w in
  match scHasPersisted c, scLastFlushAt c with
  | true, Some t => (trafficOverviewFlushInterval <=? wNano w - t) ||
                    (trafficOverviewFlushDelta <=? snapshotDeltaBytes s (scPersisted c))
  | _, _ => true
  end.

Definition flushOverviewSnapshot (force : bool) : M unit :=
  loadSnapshotCacheLocked ;;
  let! cache := get wSnapshot in
  if negb (scHasPending cache) then ret tt
  else
    let pending := scPending cache in
    let! due := get (snapshotDue pending) in
    if negb force && negb due then ret tt
    else
      saveOverviewSnapshot pending ;;
      modify (fun w =>
        let c := wSnapshot w in
        let keep := scHasPending c && negb (bool_decide (scPending c = pending)) in
        setSnapshot (mkSnapCache (scLoaded c) true pending keep (scPending c) (Some (wNano w))) w).

Definition stageOverviewSnapshot (snapshot : trafficOverviewSnapshot) (force : bool) : M unit :=
  let snapshot := normalizeOverviewSnapshot snapshot in
  loadSnapshotCacheLocked ;;
  modify (fun w =>
    let c := wSnapshot w in
    setSnapshot (mkSnapCache (scLoaded c) (scHasPersisted c) (scPersisted c) true snapshot (scLastFlushAt c)) w) ;;
  let! due := get (snapshotDue snapshot) in
  if force || due then flushOverviewSnapshot force else ret tt.

Definition FlushPendingSnapshot : M unit := flushRuntimeState ;; flushOverviewSnapshot true.

(** ** Configuration *)

Definition getOverviewConfigUncached h : M overviewConfig :=
  let! limitRaw := getString trafficOverviewLimitGiBKey in
  let limitGiB := default fzero
    (if decide (trim_space limitRaw = "") then None else parseFloat (trim_space limitRaw)) in
  let! resetRaw := getString trafficOverviewResetDayKey in
  let resetDay := default 0
    (if decide (trim_space resetRaw = "") then None else atoi (trim_space resetRaw)) in
  let! expiryRaw := getString trafficOverviewExpiryDateKey in
  match parseTrafficOverviewExpiryDate expiryRaw (location h) with
  | Err _ => throw ErrExpiryDate
  | Ok (expiryDate, expiryBoundary) =>
      let! enabled := getBool trafficOverviewEnabledKey in
      ret (mkConfig (normalizeLimitGiB limitGiB) (normalizeResetDay resetDay) expiryDate expiryBoundary enabled)
  end.

Definition getOverviewConfig h : M overviewConfig :=
  let! cached := get (fun w =>
    match wConfig w with
    | Some (c, updatedAt) =>
        if wNano w - updatedAt <? trafficOverviewConfigCacheTTL then Some c else None
    | None => None
    end) in
  match cached with
  | Some c => ret c
  | None =>
      let! c := getOverviewConfigUncached h in
      modify (fun w => setConfig (Some (c, wNano w)) w) ;;
      ret c
  end.

Definition invalidateTrafficOverviewConfigCache : M unit := modify (setConfig None).

Definition isOverviewEnabled : M bool := getBool trafficOverviewEnabledKey.

(** ** Pausing and resuming *)

(** The normalisation [loadPauseState] and [savePauseState] share. *)
Definition normalizePauseState (s : trafficOverviewPauseState) : trafficOverviewPauseState :=
  mkPause (pzPaused s) (trim_space (pzInterface s)) (maxInt64 (pzCurrentUp s) 0) (maxInt64 (pzCurrentDown s) 0)
    (maxInt64 (pzPeriodBaseUp s) 0) (maxInt64 (pzPeriodBaseDown s) 0)
    (maxInt64 (pzManualBaseUp s) 0) (maxInt64 (pzManualBaseDown s) 0)
    (maxInt64 (pzLastVnstatUp s) 0) (maxInt64 (pzLastVnstatDown s) 0)
    (normalizeOverviewSnapshot (pzSnapshot s)) (maxInt64 (pzPausedAt s) 0).

(** [Some] is the second result [true]: a state that is paused. *)
Definition loadPauseState : M (option trafficOverviewPauseState) :=
  let! r := try (getString trafficOverviewPauseStateKey) in
  match r with
  | Err _ => ret None
  | Ok raw =>
      let trimmed := trim_space raw in
      if isBlankJson trimmed then ret None
      else match unmarshalPause trimmed with
           | None => ret None
           | Some s => let s := normalizePauseState s in
                       ret (if pzPaused s then Some s else None)
           end
  end.

Definition savePauseState (s : trafficOverviewPauseState) : M unit :=
  setString trafficOverviewPauseStateKey (marshalPause (normalizePauseState s)).

Definition clearPauseState : M unit := setString trafficOverviewPauseStateKey "{}".

Definition pauseTrafficOverviewWithCachedSnapshot : M unit :=
  let! now := nowUnix in
  let! cached := getSnapshotForDisplay in
  let snapshot := match cached with
                  | Some s => normalizeOverviewSnapshot s
                  | None => mkSnapshot "vnstat" "" false 0 0 0 0 0 0 now
                  end in
  let snapshot :=
    if snUpdatedAt snapshot <=? 0
    then mkSnapshot (snSource snapshot) (snInterface snapshot) (snAvailable snapshot) (snUp snapshot)
           (snDown snapshot) (snTotal snapshot) (snAccumUp snapshot) (snAccumDown snapshot)
           (snAccumTotal snapshot) now
    else snapshot in
  stageOverviewSnapshot snapshot true ;;
  savePauseState (mkPause true "" 0 0 0 0 0 0 0 0 snapshot now).

(** The usage figures of a state at two counters: period, then accumulated. *)
Definition usageSnapshot (source iface : string) (s : trafficOverviewRuntimeState) (up down now : Z)
  : trafficOverviewSnapshot :=
  let u := nonNegativeDiff up (PeriodBaseUp s) in
  let d := nonNegativeDiff down (PeriodBaseDown s) in
  let au := nonNegativeDiff up (ManualBaseUp s) in
  let ad := nonNegativeDiff down (ManualBaseDown s) in
  mkSnapshot source iface true u d (u +! d) au ad (au +! ad) now.

Definition pauseTrafficOverviewAccounting h : M unit :=
  if negb (isLinux h) then pauseTrafficOverviewWithCachedSnapshot
  else if negb (manifestTrusted h) then pauseTrafficOverviewWithCachedSnapshot
  else
    let ifaces := selectedInterfaces h in
    if decide (ifaces = []) then pauseTrafficOverviewWithCachedSnapshot
    else
      let ifaceStr := joinWith ", " ifaces in
      let joinedIfaces := joinSortedInterfaces ifaces in
      match vnstatTotals h with
      | None => throw ErrVnstat
      | Some (vnstatUp, vnstatDown) =>
          let! cfg := getOverviewConfig h in
          let! now := nowUnix in
          let! state := loadRuntimeState in
          let '(state, currentUp, currentDown, source, derivedChanged) :=
            deriveCurrentAlltimeTotals h state ifaces vnstatUp vnstatDown in
          let '(state, normalizedChanged) := normalizeStateForTotals state joinedIfaces currentUp currentDown now in
          let '(state, periodChanged) :=
            applyPeriodResetIfNeeded state (cfgResetDay cfg) currentUp currentDown (location h) now in
          (if derivedChanged || normalizedChanged || periodChanged then saveRuntimeState state else ret tt) ;;
          let snapshot := usageSnapshot source ifaceStr state currentUp currentDown now in
          stageOverviewSnapshot snapshot true ;;
          savePauseState
            (mkPause true ifaceStr currentUp currentDown (PeriodBaseUp state) (PeriodBaseDown state)
               (ManualBaseUp state) (ManualBaseDown state) vnstatUp vnstatDown snapshot now)
      end.

(** The baselines under which the counters show the paused usage. *)
Definition resumedState (joinedIfaces : string) (pz : trafficOverviewPauseState) (tag : string) (resetDay : Z)
    (up down : Z) (s : trafficOverviewRuntimeState) : trafficOverviewRuntimeState :=
  let snap := pzSnapshot pz in
  mkState joinedIfaces (nonNegativeDiff up (snAccumUp snap)) (nonNegativeDiff down (snAccumDown snap))
    (nonNegativeDiff up (snUp snap)) (nonNegativeDiff down (snDown snap))
    tag (normalizeResetDay resetDay) (LastFullResetAt s) (maxInt64 (LastPeriodReset s) (pzPausedAt pz))
    (KernelOffsetUp s) (KernelOffsetDown s) (LastKernelUp s) (LastKernelDown s).

Definition resumeTrafficOverviewAccounting h : M unit :=
  let! pause := loadPauseState in
  match pause with
  | None => ret tt
  | Some pz =>
      if negb (isLinux h) then clearPauseState
      else if negb (manifestTrusted h) then clearPauseState
      else
        let ifaces := selectedInterfaces h in
        if decide (ifaces = []) then clearPauseState
        else
          let joinedIfaces := joinSortedInterfaces ifaces in
          match vnstatTotals h with
          | None => throw ErrVnstat
          | Some (vnstatUp, vnstatDown) =>
              let! cfg := getOverviewConfig h in
              let! now := nowUnix in
              let! state := loadRuntimeState in
              let '(state, currentUp, currentDown, _, _) :=
                deriveCurrentAlltimeTotals h state ifaces vnstatUp vnstatDown in
              let state := resumedState joinedIfaces pz
                (computePeriodTag (cfgResetDay cfg) (location h) now) (cfgResetDay cfg)
                currentUp currentDown state in
              saveRuntimeState state ;;
              clearPauseState ;;
              stageOverviewSnapshot (pzSnapshot pz) true
          end
  end.

(** ** The overview *)

Definition withConfig (cfg : overviewConfig) (expired : bool) (next : Z) (o : trafficOverview) : trafficOverview :=
  mkOverview (ovSource o) (ovInterface o) (ovInterfaces o) (ovInterfaceMode o) (cfgEnabled cfg) (ovStatus o)
    (ovAvailable o) (ovUp o) (ovDown o) (ovTotal o) (ovAccumUp o) (ovAccumDown o) (ovAccumTotal o)
    (cfgLimitGiB cfg) (cfgResetDay cfg) (cfgExpiryDate cfg) expired next (ovUpdatedAt o) (ovError o).

(** [overview.Available = false] with a status, and an error unless it is stopped. *)
Definition unavailable (status : string) (e : option oerr) (o : trafficOverview) : trafficOverview :=
  mkOverview (ovSource o) (ovInterface o) (ovInterfaces o) (ovInterfaceMode o) (ovEnabled o) status
    false (ovUp o) (ovDown o) (ovTotal o) (ovAccumUp o) (ovAccumDown o) (ovAccumTotal o)
    (ovLimitGiB o) (ovResetDay o) (ovExpiryDate o) (ovExpired o) (ovNextResetAt o) (ovUpdatedAt o) e.

Definition withInterfaces (ifaces : list string) (mode : string) (o : trafficOverview) : trafficOverview :=
  mkOverview (ovSource o) (joinWith ", " ifaces) ifaces mode (ovEnabled o) (ovStatus o)
    (ovAvailable o) (ovUp o) (ovDown o) (ovTotal o) (ovAccumUp o) (ovAccumDown o) (ovAccumTotal o)
    (ovLimitGiB o) (ovResetDay o) (ovExpiryDate o) (ovExpired o) (ovNextResetAt o) (ovUpdatedAt o) (ovError o).

Definition withUsage (source : string) (s : trafficOverviewRuntimeState) (up down : Z) (o : trafficOverview)
  : trafficOverview :=
  let u := nonNegativeDiff up (PeriodBaseUp s) in
  let d := nonNegativeDiff down (PeriodBaseDown s) in
  let au := nonNegativeDiff up (ManualBaseUp s) in
  let ad := nonNegativeDiff down (ManualBaseDown s) in
  mkOverview source (ovInterface o) (ovInterfaces o) (ovInterfaceMode o) (ovEnabled o) "running"
    true u d (u +! d) au ad (au +! ad)
    (ovLimitGiB o) (ovResetDay o) (ovExpiryDate o) (ovExpired o) (ovNextResetAt o) (ovUpdatedAt o) (ovError o).

(** The part of [getTrafficOverviewUncached] after vnstat answered. *)
Definition accountOverview h (cfg : overviewConfig) (vnstatUp vnstatDown : Z) (o : trafficOverview)
  : M trafficOverview :=
  let ifaces := selectedInterfaces h in
  let! now := nowUnix in
  let! r := try loadRuntimeState in
  match r with
  | Err e => ret (unavailable "error" (Some e) o)
  | Ok state =>
      let '(state, currentUp, currentDown, source, derivedChanged) :=
        deriveCurrentAlltimeTotals h state ifaces vnstatUp vnstatDown in
      let '(state, normalizedChanged) :=
        normalizeStateForTotals state (joinSortedInterfaces ifaces) currentUp currentDown now in
      let '(state, periodChanged) :=
        applyPeriodResetIfNeeded state (cfgResetDay cfg) currentUp currentDown (location h) now in
      let o := withUsage source state currentUp currentDown o in
      (if derivedChanged || normalizedChanged || periodChanged
       then try (stageRuntimeState state periodChanged) ;; ret tt
       else ret tt) ;;
      try (stageOverviewSnapshot (snapshotFromOverview o) false) ;;
      ret o
  end.

(** It never returns an error: a failure is reported in the overview. *)
Definition getTrafficOverviewUncached h : M trafficOverview :=
  let! now := nowUnix in
  let o := mkOverview "vnstat" "" [] "" true "stopped" false 0 0 0 0 0 0 fzero 0 "" false 0 now None in
  let! c := try (getOverviewConfig h) in
  match c with
  | Err e => ret (mkOverview (ovSource o) (ovInterface o) [] "" true (ovStatus o) false 0 0 0 0 0 0
                    fzero 0 "" false 0 now (Some e))
  | Ok cfg =>
      let o := withConfig cfg (isTrafficOverviewExpired (cfgExpiryBoundary cfg) now)
                 (default 0 (nextClientMonthlyResetBoundary (cfgResetDay cfg) (location h) now)) o in
      let! cached := getSnapshotForDisplay in
      let o := match cached with Some s => applySnapshotToOverview o s | None => o end in
      let! pause := loadPauseState in
      if negb (cfgEnabled cfg) then
        let o := match pause with Some pz => applySnapshotToOverview o (pzSnapshot pz) | None => o end in
        ret (unavailable "stopped" (ovError o) o)
      else
        let! resumed := (if bool_decide (is_Some pause) then try (resumeTrafficOverviewAccounting h) else ret (Ok tt)) in
        match resumed with
        | Err e => ret (unavailable "error" (Some e) o)
        | Ok _ =>
            if negb (isLinux h) then ret (unavailable "unsupported" (Some ErrUnsupported) o)
            else if negb (vnstatInstalled h) then ret (unavailable "missing" (Some ErrNotInstalled) o)
            else if decide (selectedInterfaces h = []) then ret (unavailable "error" (Some ErrNoInterface) o)
            else
              let o := withInterfaces (selectedInterfaces h) (interfaceMode h) o in
              match vnstatTotals h with
              | None => ret (unavailable "error" (Some ErrVnstat) o)
              | Some (vnstatUp, vnstatDown) => accountOverview h cfg vnstatUp vnstatDown o
              end
        end
  end.

(** ** The cap rules

    [probe] is an nft command whose failure the code sees as a value. *)

Definition probe : M bool := fun w =>
  match wFaults w with
  | b :: l => (Ok (negb b), setFaults l w)
  | [] => (Ok true, w)
  end.

Definition modifyRules (f : list capRule -> list capRule) : M unit :=
  modify (fun w => setNft (mkNft (nftTableExists (wNft w)) (f (capRules (wNft w)))) w).

(** [nftTableExists()]: false also when the table cannot be inspected. *)
Definition tableExists : M bool :=
  let! inspected := probe in
  get (fun w => inspected && nftTableExists (wNft w)).

(** [findHandleByComment(chain, comment) > 0]. *)
Definition findHandleByComment (c : nftChain) (t : capTag) : M bool :=
  let! listed := probe in
  get (fun w => listed &&
    bool_decide (Exists (fun r => ruleChain r = c /\ ruleTag r = t) (capRules (wNft w)))).

(** The rules of one chain, deleted one by one by handle: the rules that are
    left and whether a deletion failed. *)
Fixpoint deleteRulesByHandle (c : nftChain) (rules : list capRule) : M (list capRule * bool) :=
  match rules with
  | [] => ret ([], false)
  | r :: rest =>
      if decide (ruleChain r = c) then
        let! deleted := probe in
        let! (kept, failed) := deleteRulesByHandle c rest in
        ret (if deleted then kept else r :: kept, negb deleted || failed)
      else
        let! (kept, failed) := deleteRulesByHandle c rest in
        ret (r :: kept, failed)
  end.

Definition deleteChainRules (c : nftChain) : M bool :=
  let! listed := probe in
  if negb listed then ret true
  else
    let! rules := get (fun w => capRules (wNft w)) in
    let! (kept, failed) := deleteRulesByHandle c rules in
    modifyRules (fun _ => kept) ;;
    ret failed.

(** [deleteRulesByCommentPrefix] with the prefix of the cap: no cap rule is in
    the NAT chains, whose listing may fail too. *)
Definition deleteRulesByCommentPrefix : M unit :=
  let! exists_ := tableExists in
  if negb exists_ then ret tt
  else
    let! e1 := deleteChainRules nftChainIn in
    let! e2 := deleteChainRules nftChainOut in
    let! e3 := deleteChainRules nftChainForward in
    let! redirects := probe in
    if e1 || e2 || e3 || negb redirects then throw ErrNft else ret tt.

Definition cleanupTrafficCapRules h : M unit :=
  if negb (isLinux h) || negb (nftSupported h) then ret tt else deleteRulesByCommentPrefix.

Definition hasTrafficCapRules h : M bool :=
  if negb (isLinux h) || negb (nftSupported h) then ret false
  else
    let! exists_ := tableExists in
    if negb exists_ then ret false
    else
      let! inHandle := findHandleByComment nftChainIn trafficCapTagDropExcept in
      let! outHandle := findHandleByComment nftChainOut trafficCapTagDropExcept in
      let! forwardHandle := findHandleByComment nftChainForward trafficCapTagDropForward in
      ret (inHandle && outHandle && forwardHandle).

(** [ensureNftBase] creates the table and its chains; adding a rule ensures
    them again, then runs [nft add rule]. *)
Definition ensureNftBase : M unit :=
  step ErrNft ;; modify (fun w => setNft (mkNft true (capRules (wNft w))) w).

Definition addRule (r : capRule) : M unit :=
  ensureNftBase ;; step ErrNft ;; modifyRules (fun l => l ++ [r]).

Definition applyTrafficCapRules h (allowedPorts : list Z) : M unit :=
  if negb (isLinux h) || negb (nftSupported h) then ret tt
  else
    let normalized := normalizePortList allowedPorts in
    if decide (normalized = []) then throw ErrAllowlist
    else
      cleanupTrafficCapRules h ;;
      ensureNftBase ;;
      addRule (mkRule nftChainIn trafficCapTagLoopback []) ;;
      addRule (mkRule nftChainOut trafficCapTagLoopback []) ;;
      addRule (mkRule nftChainIn trafficCapTagDropExcept normalized) ;;
      addRule (mkRule nftChainOut trafficCapTagDropExcept normalized) ;;
      addRule (mkRule nftChainForward trafficCapTagDropForward []).

(** ** The cap *)

Definition zeroCap : trafficOverviewCapState := mkCap false false [] 0.

Definition loadCapStateLocked : M trafficOverviewCapState :=
  let! raw := getString trafficOverviewCapStateKey in
  let trimmed := trim_space raw in
  if isBlankJson trimmed then ret zeroCap
  else match unmarshalCap trimmed with
       | None => throw ErrJson
       | Some s => ret (mkCap (capActive s) (capLimitReached s) (normalizePortList (capAllowedPorts s))
                          (maxInt64 (capUpdatedAt s) 0))
       end.

Definition saveCapStateLocked (s : trafficOverviewCapState) : M unit :=
  setString trafficOverviewCapStateKey
    (marshalCap (mkCap (capActive s) (capLimitReached s) (normalizePortList (capAllowedPorts s))
                   (maxInt64 (capUpdatedAt s) 0))).

Definition trafficCapUsageBytes (o : option trafficOverview) : Z :=
  match o with None => 0 | Some o => maxInt64 (ovTotal o) 0 end.

Definition evaluateTrafficOverviewCapReached (previous : bool) (limitGiB : float64) (periodTotal : Z)
    (available : bool) (error : option oerr) (expired hasOverview : bool) : bool :=
  if expired then true
  else
    let normalizedLimitGiB := normalizeLimitGiB limitGiB in
    if negb (isPositive normalizedLimitGiB) then false
    else if hasOverview && available && bool_decide (error = None)
    then limitGiBToBytes normalizedLimitGiB <=? periodTotal
    else previous.

Definition resolveTrafficCapAllowedPorts h : list Z :=
  if decide (defaultPorts h = []) then [22] else defaultPorts h.

Definition intSliceEqual (left right : list Z) : bool :=
  (length left =? length right)%nat && forallb (fun p => p.1 =? p.2) (zip left right).

Definition reconcileTrafficCapFromOverview h (overview : option trafficOverview) : M unit :=
  if negb (isLinux h) || negb (nftSupported h) then ret tt
  else
    let limitGiB := match overview with Some o => normalizeLimitGiB (ovLimitGiB o) | None => fzero end in
    let expired := match overview with Some o => ovExpired o | None => false end in
    let! (limitGiB, expired) :=
      (if isPositive limitGiB then ret (limitGiB, expired)
       else
         let! c := try (getOverviewConfig h) in
         match c with
         | Err _ => ret (limitGiB, expired)
         | Ok cfg =>
             let! now := nowUnix in
             ret (normalizeLimitGiB (cfgLimitGiB cfg),
                  match overview with
                  | None => isTrafficOverviewExpired (cfgExpiryBoundary cfg) now
                  | Some _ => expired
                  end)
         end) in
    let allowedPorts := resolveTrafficCapAllowedPorts h in
    let allowedPorts := if decide (allowedPorts = []) then [22] else allowedPorts in
    let! loaded := loadCapStateLocked in
    let state := mkCap (capActive loaded) (capLimitReached loaded) (normalizePortList (capAllowedPorts loaded))
                       (capUpdatedAt loaded) in
    let active := capActive state in
    let! checked := get wCapChecked in
    let! legacyRules := (if checked then ret false
                         else let! b := hasTrafficCapRules h in modify (setCapChecked true) ;; ret b) in
    let limitReached := evaluateTrafficOverviewCapReached (capLimitReached state) limitGiB
      (trafficCapUsageBytes overview)
      (match overview with Some o => ovAvailable o | None => false end)
      (match overview with Some o => ovError o | None => None end)
      expired (bool_decide (is_Some overview)) in
    let desiredActive := (isPositive limitGiB || expired) && limitReached in
    let! now := nowUnix in
    if desiredActive then
      let! hasRules := (if legacyRules then ret true else if active then hasTrafficCapRules h else ret false) in
      let needsRuleRefresh := negb active || negb (intSliceEqual (capAllowedPorts state) allowedPorts) ||
                              negb hasRules in
      let! hasRules := (if needsRuleRefresh then applyTrafficCapRules h allowedPorts ;; ret true
                        else ret hasRules) in
      if bool_decide (capActive state = hasRules) && capLimitReached state &&
         intSliceEqual (capAllowedPorts state) allowedPorts
      then ret tt
      else saveCapStateLocked (mkCap hasRules true allowedPorts now)
    else
      (if active || legacyRules then cleanupTrafficCapRules h else ret tt) ;;
      if negb (capActive state) && negb (capLimitReached state) && bool_decide (capAllowedPorts state = [])
      then ret tt
      else saveCapStateLocked (mkCap false false [] now).

Definition reconcileInactiveTrafficCap h : M unit :=
  let! checked := get wCapChecked in
  if checked then ret tt
  else
    let! state := loadCapStateLocked in
    let supported := isLinux h && nftSupported h in
    let! hasRules := (if capActive state && supported then ret true
                      else if supported then hasTrafficCapRules h else ret false) in
    (if hasRules then cleanupTrafficCapRules h else ret tt) ;;
    modify (setCapChecked true) ;;
    if negb (capActive state) && negb (capLimitReached state) && bool_decide (capAllowedPorts state = [])
    then ret tt
    else
      let! now := nowUnix in
      saveCapStateLocked (mkCap false false [] now).

Definition markTrafficOverviewCapReconcileNeeded : M unit :=
  modify (fun w => setConfig None (setCapAt None (setCapChecked false w))).

Definition shouldEvaluateTrafficCapNow : M bool :=
  let! w := get id in
  match wCapAt w with
  | Some t =>
      if wNano w - t <? trafficOverviewCapEvaluateInterval then ret false
      else modify (setCapAt (Some (wNano w))) ;; ret true
  | None => modify (setCapAt (Some (wNano w))) ;; ret true
  end.

Definition ReconcileTrafficCap h : M unit :=
  let! cfg := getOverviewConfig h in
  let! now := nowUnix in
  let expired := isTrafficOverviewExpired (cfgExpiryBoundary cfg) now in
  if negb (cfgEnabled cfg) || (negb (isPositive (cfgLimitGiB cfg)) && negb expired)
  then reconcileInactiveTrafficCap h
  else
    let! due := shouldEvaluateTrafficCapNow in
    if negb due then ret tt
    else
      let! overview := getTrafficOverviewUncached h in
      reconcileTrafficCapFromOverview h (Some overview).

Definition CleanupTrafficCapOnShutdown h : M unit :=
  if negb (isLinux h && nftSupported h) then ret tt
  else
    cleanupTrafficCapRules h ;;
    let! state := loadCapStateLocked in
    let! now := nowUnix in
    saveCapStateLocked (mkCap false (capLimitReached state) (capAllowedPorts state) now).

(** ** Resets and the switch *)

(** What the three resets share: the guards, reading the totals and merging
    them into the state, then storing the state [update] gives and showing the
    usage that state stands for. *)
Definition resetStats h
    (update : Z -> Z -> Z -> Z -> trafficOverviewRuntimeState -> trafficOverviewRuntimeState)
    (needsConfig : bool) : M unit :=
  if negb (isLinux h) then ret tt
  else
    let! enabled := isOverviewEnabled in
    if negb enabled then ret tt
    else
      let ifaces := selectedInterfaces h in
      if decide (ifaces = []) then throw ErrNoInterface
      else
        match vnstatTotals h with
        | None => throw ErrVnstat
        | Some (vnstatUp, vnstatDown) =>
            let! resetDay := (if needsConfig then let! cfg := getOverviewConfig h in ret (cfgResetDay cfg)
                              else ret 0) in
            let! now := nowUnix in
            let! state := loadRuntimeState in
            let '(state, currentUp, currentDown, source, _) :=
              deriveCurrentAlltimeTotals h state ifaces vnstatUp vnstatDown in
            let '(state, _) :=
              normalizeStateForTotals state (joinSortedInterfaces ifaces) currentUp currentDown now in
            let state := update resetDay currentUp currentDown now state in
            saveRuntimeState state ;;
            stageOverviewSnapshot
              (usageSnapshot source (joinWith ", " ifaces) state currentUp currentDown now) true ;;
            markTrafficOverviewCapReconcileNeeded ;;
            try (ReconcileTrafficCap h) ;;
            ret tt
        end.

Definition ResetAllTrafficOverviewStats h : M unit :=
  resetStats h (fun resetDay up down now s =>
    mkState (joinSortedInterfaces (selectedInterfaces h)) up down up down
      (computePeriodTag resetDay (location h) now) (normalizeResetDay resetDay) now now
      (KernelOffsetUp s) (KernelOffsetDown s) (LastKernelUp s) (LastKernelDown s)) true.

Definition ResetPeriodTrafficOverviewStats h : M unit :=
  resetStats h (fun resetDay up down now s =>
    mkState (joinSortedInterfaces (selectedInterfaces h)) (ManualBaseUp s) (ManualBaseDown s) up down
      (computePeriodTag resetDay (location h) now) (normalizeResetDay resetDay) (LastFullResetAt s) now
      (KernelOffsetUp s) (KernelOffsetDown s) (LastKernelUp s) (LastKernelDown s)) true.

Definition ResetTotalTrafficOverviewStats h : M unit :=
  resetStats h (fun _ up down now s =>
    mkState (joinSortedInterfaces (selectedInterfaces h)) up down (PeriodBaseUp s) (PeriodBaseDown s)
      (PeriodTag s) (PeriodResetDay s) now (LastPeriodReset s)
      (KernelOffsetUp s) (KernelOffsetDown s) (LastKernelUp s) (LastKernelDown s)) false.

(** [daemonReady]: whether [ensureVnstatTracking] on the default interface
    succeeds, if there is one. *)
Definition SetTrafficOverviewEnabled h (daemonReady enabled : bool) : M unit :=
  let! currentEnabled := isOverviewEnabled in
  if bool_decide (currentEnabled = enabled) then
    if enabled then resumeTrafficOverviewAccounting h else ret tt
  else if negb enabled then
    pauseTrafficOverviewAccounting h ;;
    setString trafficOverviewEnabledKey "false" ;;
    invalidateTrafficOverviewConfigCache ;;
    markTrafficOverviewCapReconcileNeeded ;;
    try (cleanupTrafficCapRules h) ;;
    ret tt
  else
    resumeTrafficOverviewAccounting h ;;
    setString trafficOverviewEnabledKey "true" ;;
    invalidateTrafficOverviewConfigCache ;;
    markTrafficOverviewCapReconcileNeeded ;;
    if negb (isLinux h) then ret tt
    else if negb (manifestTrusted h) then ret tt
    else if negb daemonReady then throw ErrVnstat
    else try (ReconcileTrafficCap h) ;; ret tt.
End Operations.
