(* ===== verification/OverviewCounter.v ===== *)
(** * The merged traffic counter of the overview

    What [reconcileKernelRealtimeCounter] of [Overview] computes, and how it
    follows a machine: an interface carries bytes, the kernel counts them
    since boot, vnstat records them later, the panel polls both.  The theorem
    bounds the merged counter by vnstat's figure from below and by the bytes
    the interface ever carried from above, through reboots. *)

From stdpp Require Import base list.
From Stdlib Require Import ZArith Lia.
From S2P Require Import Prelude Overview.

#[local] Open Scope Z_scope.
#[local] Open Scope go_scope.

Lemma maxInt64_max a b : maxInt64 a b = Z.max a b.
Proof. unfold maxInt64. zcases; lia. Qed.

Lemma nonNegativeDiff_spec a b :
  0 <= a <= max_i64 -> 0 <= b <= max_i64 -> nonNegativeDiff a b = Z.max 0 (a - b).
Proof. intros. unfold nonNegativeDiff. i64. zcases; lia. Qed.

Lemma nonNegativeDiff_le a b : 0 <= b <= a -> a <= max_i64 -> nonNegativeDiff a b = a - b.
Proof. intros. rewrite nonNegativeDiff_spec by lia. lia. Qed.

Lemma nonNegativeDiff_self a : nonNegativeDiff a a = 0.
Proof. unfold nonNegativeDiff. by rewrite Z.sub_diag. Qed.

Create HintDb overview.
#[export] Hint Rewrite maxInt64_max : overview.

(** The counter, in the two branches. *)
Definition mergedCounter (offset lastKernel v k : Z) : Z :=
  if k <? lastKernel then Z.max (offset + lastKernel) v else Z.max v (offset + k).

Lemma reconcile_same offset lastKernel v k :
  0 <= offset -> 0 <= lastKernel -> 0 <= v <= max_i64 -> 0 <= k ->
  offset + lastKernel <= max_i64 -> offset + k <= max_i64 ->
  exists changed,
    reconcileKernelRealtimeCounter offset lastKernel false v k =
      (changed, mergedCounter offset lastKernel v k, mergedCounter offset lastKernel v k - k, k) /\
    0 <= mergedCounter offset lastKernel v k - k /\
    (changed = false -> mergedCounter offset lastKernel v k - k = offset /\ k = lastKernel).
Proof.
  intros Ho Hl Hv Hk H1 H2. unfold reconcileKernelRealtimeCounter, mergedCounter.
  rewrite !(maxInt64_max v), !(maxInt64_max k), (Z.max_l v 0), (Z.max_l k 0) by lia.
  destruct (Z.ltb_spec k lastKernel); cbv beta iota zeta; autorewrite with overview.
  - rewrite (Z.max_l offset 0), (Z.max_l lastKernel 0), (wrap64_id (offset + lastKernel)) by in_range.
    rewrite (nonNegativeDiff_spec (Z.max _ _) k) by lia.
    set (n := Z.max (offset + lastKernel) v - k).
    rewrite (Z.max_r 0 n), (Z.max_l n 0) by lia. rewrite (wrap64_id (n + k)) by in_range.
    replace (Z.max v (n + k)) with (Z.max (offset + lastKernel) v) by lia.
    rewrite nonNegativeDiff_spec by lia. rewrite Z.max_r by lia. fold n.
    eexists. split; [done|]. split; [lia|]. rewrite !orb_false_iff, !negb_false_iff, !Z.eqb_eq. lia.
  - rewrite (Z.max_l offset 0) by lia. rewrite (wrap64_id (offset + k)) by in_range. rewrite nonNegativeDiff_spec by lia. rewrite Z.max_r by lia.
    eexists. split; [done|]. split; [lia|]. simpl. rewrite !orb_false_iff, !negb_false_iff, !Z.eqb_eq. lia.
Qed.

Lemma reconcile_changed offset lastKernel v k :
  0 <= v <= max_i64 -> 0 <= k <= max_i64 ->
  exists changed,
    reconcileKernelRealtimeCounter offset lastKernel true v k = (changed, Z.max v k, Z.max 0 (v - k), k) /\
    (changed = false -> Z.max 0 (v - k) = offset /\ k = lastKernel).
Proof.
  intros Hv Hk. unfold reconcileKernelRealtimeCounter. autorewrite with overview.
  rewrite !(Z.max_l v 0), !(Z.max_l k 0) by lia. rewrite nonNegativeDiff_spec by lia.
  rewrite wrap64_id by in_range.
  replace (Z.max v (Z.max 0 (v - k) + k)) with (Z.max v k) by lia.
  eexists. split; [done|]. rewrite orb_false_iff, !negb_false_iff, !Z.eqb_eq. lia.
Qed.

(** ** A machine

    One direction of one set of interfaces, with the counter's two stored
    numbers and the figure it last gave. *)
Record machine : Type := mkMachine {
  carried : Z;              (* bytes the interfaces ever carried *)
  kernel : Z;               (* the kernel's counter *)
  vnstat : Z;               (* vnstat's total *)
  offset : Z;
  lastKernel : Z;
  shown : Z;                (* the merged counter at the last poll *)
  carriedThen : Z;          (* [carried] at the last poll *)
  rebooted : bool }.        (* since the last poll *)

Inductive happening : Type :=
| Traffic (n : Z)
| VnstatUpdate (v : Z)      (* vnstat's total after an update *)
| Reboot
| Poll.

Definition pollMachine (m : machine) : machine :=
  let '(_, current, offset', last') :=
    reconcileKernelRealtimeCounter (offset m) (lastKernel m) false (vnstat m) (kernel m) in
  mkMachine (carried m) (kernel m) (vnstat m) offset' last' current (carried m) false.

(** vnstat never records more than was carried, and its total never shrinks. *)
Definition possible (e : happening) (m : machine) : Prop :=
  match e with
  | Traffic n => 0 <= n /\ carried m + n <= max_i64
  | VnstatUpdate v => vnstat m <= v <= carried m
  | Reboot | Poll => True
  end.

Definition happen (e : happening) (m : machine) : machine :=
  match e with
  | Traffic n => mkMachine (carried m + n) (kernel m + n) (vnstat m) (offset m) (lastKernel m) (shown m)
                   (carriedThen m) (rebooted m)
  | VnstatUpdate v => mkMachine (carried m) (kernel m) v (offset m) (lastKernel m) (shown m)
                        (carriedThen m) (rebooted m)
  | Reboot => mkMachine (carried m) 0 (vnstat m) (offset m) (lastKernel m) (shown m) (carriedThen m) true
  | Poll => pollMachine m
  end.

(** The first poll of newly selected interfaces. *)
Definition firstPoll (carried kernel vnstat o l : Z) : machine :=
  let '(_, current, offset', last') := reconcileKernelRealtimeCounter o l true vnstat kernel in
  mkMachine carried kernel vnstat offset' last' current carried false.

Inductive follows : machine -> machine -> Prop :=
| follows_refl m : follows m m
| follows_step m m' e : follows m m' -> possible e m' -> follows m (happen e m').

Record machineOk (m : machine) : Prop := {
  ok_bounds : 0 <= kernel m <= carried m /\ 0 <= vnstat m <= carried m /\ carried m <= max_i64;
  ok_offset : 0 <= offset m /\ 0 <= lastKernel m;
  ok_shown : offset m + lastKernel m = shown m;
  ok_above : offset m + kernel m <= carried m /\ shown m <= carriedThen m /\ carriedThen m <= carried m;
  ok_delta : rebooted m = false -> kernel m - lastKernel m = carried m - carriedThen m }.

Lemma firstPoll_ok c k v o l :
  0 <= k <= c -> 0 <= v <= c -> c <= max_i64 -> machineOk (firstPoll c k v o l).
Proof.
  intros Hk Hv Hc. unfold firstPoll. destruct (reconcile_changed o l v k ltac:(lia) ltac:(lia)) as (b & -> & _).
  split; simpl; lia.
Qed.

Lemma poll_spec m :
  machineOk m ->
  let c := mergedCounter (offset m) (lastKernel m) (vnstat m) (kernel m) in
  pollMachine m = mkMachine (carried m) (kernel m) (vnstat m) (c - kernel m) (kernel m) c (carried m) false /\
  0 <= c - kernel m /\ Z.max (shown m) (vnstat m) <= c <= carried m /\
  (rebooted m = false -> carried m - c <= carriedThen m - shown m).
Proof.
  intros [Hb Ho Hs Ha Hd] c. unfold pollMachine.
  destruct (reconcile_same (offset m) (lastKernel m) (vnstat m) (kernel m)) as (b & -> & Hn & _); [lia..|].
  split; [done|]. split; [done|]. unfold c, mergedCounter in *.
  destruct (Z.ltb_spec (kernel m) (lastKernel m)).
  - split; [lia|]. intros Hr. specialize (Hd Hr). lia.
  - split; [lia|]. intros Hr. specialize (Hd Hr). lia.
Qed.

Lemma happen_ok e m : machineOk m -> possible e m -> machineOk (happen e m).
Proof.
  intros Hm Hp. destruct e as [n|v| |]; simpl in *.
  4: { destruct (poll_spec m Hm) as (-> & Hn & Hle & _). destruct Hm. split; simpl; lia. }
  all: destruct Hm as [Hb Ho Hs Ha Hd]; split; simpl in *; try lia; intros Hr; try specialize (Hd Hr); try done; lia.
Qed.

Lemma follows_ok m m' : machineOk m -> follows m m' -> machineOk m'.
Proof. intros Hm. induction 1; auto using happen_ok. Qed.

(** C11: the merged traffic counter is bounded by the machine: whatever traffic,
    reboots and vnstat updates happened since the interfaces were first
    polled, a poll gives a figure that is at least the last one and at least
    vnstat's, and at most the bytes the interfaces ever carried; and unless
    the machine rebooted since the last poll, it grew by at least the bytes
    carried since. *)
Theorem counter_tracks_traffic c k v o l m :
  0 <= k <= c -> 0 <= v <= c -> c <= max_i64 ->
  follows (firstPoll c k v o l) m ->
  let m' := happen Poll m in
  Z.max (shown m) (vnstat m) <= shown m' <= carried m' /\
  (rebooted m = false -> carried m' - carriedThen m <= shown m' - shown m) /\
  (forall changed current offset' last',
     reconcileKernelRealtimeCounter (offset m) (lastKernel m) false (vnstat m) (kernel m) =
       (changed, current, offset', last') ->
     shown m' = current /\ (changed = false -> offset' = offset m /\ last' = lastKernel m)).
Proof.
  intros Hk Hv Hc Hf. cbv zeta.
  pose proof (follows_ok _ _ (firstPoll_ok c k v o l Hk Hv Hc) Hf) as Hm.
  destruct (poll_spec m Hm) as (Hp & _ & Hle & Hg). cbn [happen]. rewrite Hp. cbn [shown carried].
  split; [lia|]. split; [intros Hr; specialize (Hg Hr); lia|].
  intros b cur o' l' Heq. destruct Hm as [Hb Ho Hs Ha Hd].
  destruct (reconcile_same (offset m) (lastKernel m) (vnstat m) (kernel m)) as (b' & Hr & _ & Hch); [lia..|].
  rewrite Hr in Heq. injection Heq as <- <- <- <-. auto.
Qed.

(** A reboot that vnstat has not caught up with. *)
Definition demoMachine : machine :=
  happen Reboot (happen (Traffic 500) (happen Poll (happen (Traffic 1000) (firstPoll 5000 4000 3000 0 0)))).

Lemma counter_tracks_traffic_witness :
  Z.max (shown demoMachine) (vnstat demoMachine) <= shown (happen Poll demoMachine) <= 6500.
Proof.
  refine (proj1 (counter_tracks_traffic 5000 4000 3000 0 0 demoMachine _ _ _ _)); [unfold max_i64; lia..|].
  unfold demoMachine. repeat (apply follows_step; [|vm_compute; intuition discriminate]). apply follows_refl.
Defined.
