(* ===== verification/OverviewCorrect.v ===== *)
(** * The traffic overview: its cache, its resets, pausing and resuming

    [cache_refines_register]: through the write-behind cache of [Overview] the
    baselines behave as one register with a durable copy, for loading, staging
    and flushing under every schedule of faults.  Saving directly, as the
    resets and resuming do, behaves so only when nothing older is staged:
    [reset_takes_effect] and [pause_resume_preserves_usage] are proved under
    that condition, and [reset_undone_by_pending] shows what happens
    otherwise. *)

From stdpp Require Import base gmap list strings countable.
From Stdlib Require Import ZArith Lia Ascii.
From S2P Require Import Prelude GoStrings Calendar Overview OverviewCounter.

#[local] Open Scope Z_scope.
#[local] Open Scope go_scope.

(** ** A program logic for [M] *)

(** A predicate on worlds that an operation keeps, whether it succeeds or not. *)
Definition keeps {A} (P : world -> Prop) (m : M A) : Prop := forall w, P w -> P (m w).2.

Section Keeps.
Context (P : world -> Prop).

Lemma keep_ret {A} (a : A) : keeps P (ret a).
Proof. by intros w. Qed.
Lemma keep_throw {A} e : keeps P (throw (A := A) e).
Proof. by intros w. Qed.
Lemma keep_get {A} (f : world -> A) : keeps P (get f).
Proof. by intros w. Qed.
Lemma keep_modify f : (forall w, P w -> P (f w)) -> keeps P (modify f).
Proof. intros H w. apply H. Qed.
Lemma keep_bind {A B} (m : M A) (k : A -> M B) :
  keeps P m -> (forall a, keeps P (k a)) -> keeps P (bind m k).
Proof.
  intros Hm Hk w Hw. specialize (Hm w Hw). unfold bind. destruct (m w) as [[a|e] w']; [by apply Hk|done].
Qed.
Lemma keep_try {A} (m : M A) : keeps P m -> keeps P (try m).
Proof. intros Hm w Hw. specialize (Hm w Hw). unfold try. by destruct (m w). Qed.
End Keeps.

(** Inversion of a successful sequence. *)
Lemma bind_run_inv {A B} (m : M A) (k : A -> M B) w b w' :
  bind m k w = (Ok b, w') -> exists a w1, m w = (Ok a, w1) /\ k a w1 = (Ok b, w').
Proof. unfold bind. destruct (m w) as [[a|e] w1]; [eauto|discriminate]. Qed.

Lemma bind_run_ok {A B} (m : M A) (k : A -> M B) w a w' : m w = (Ok a, w') -> bind m k w = k a w'.
Proof. unfold bind. by intros ->. Qed.
Lemma bind_run_err {A B} (m : M A) (k : A -> M B) w e w' : m w = (Err e, w') -> bind m k w = (Err e, w').
Proof. unfold bind. by intros ->. Qed.
Lemma bind_get {A B} (f : world -> A) (k : A -> M B) w : bind (get f) k w = k (f w) w.
Proof. reflexivity. Qed.
Lemma bind_modify {B} (f : world -> world) (k : unit -> M B) w : bind (modify f) k w = k tt (f w).
Proof. reflexivity. Qed.
Lemma bind_ret {A B} (a : A) (k : A -> M B) w : bind (ret a) k w = k a w.
Proof. reflexivity. Qed.

Lemma step_cases e w : exists l, step e w = (Ok tt, setFaults l w) \/ step e w = (Err e, setFaults l w).
Proof. unfold step. destruct w as [? ? ? ? ? ? ? [|[] l] ?]; simpl; eauto. Qed.

Lemma getString_cases key w :
  exists l, getString key w = (Ok (default (defaultSettingValue key) (wSettings w !! key)), setFaults l w) \/
            getString key w = (Err ErrSettings, setFaults l w).
Proof.
  unfold getString, bind. destruct (step_cases ErrSettings w) as (l & [-> | ->]); exists l; [left|right]; done.
Qed.

Lemma setString_cases key v w :
  exists l, setString key v w = (Ok tt, setSettings (<[key := v]> (wSettings w)) (setFaults l w)) \/
            setString key v w = (Err ErrSettings, setFaults l w).
Proof.
  unfold setString, bind. destruct (step_cases ErrSettings w) as (l & [-> | ->]); exists l; [left|right]; done.
Qed.

(** ** JSON

    [json.Marshal] of a struct with fields is an object with fields, without
    blanks around it, and round-trips text (printable ASCII here). *)

Definition text (s : string) : bool := allc (fun c => (32 <=? nat_of_ascii c) && (nat_of_ascii c <=? 126))%nat s.

Definition stateText (s : trafficOverviewRuntimeState) : bool := text (Interface s) && text (PeriodTag s).
Definition pauseText (p : trafficOverviewPauseState) : bool :=
  text (pzInterface p) && text (snSource (pzSnapshot p)) && text (snInterface (pzSnapshot p)).

Definition reads {A} (marshal : A -> string) (unmarshal : string -> option A) (a : A) : Prop :=
  isBlankJson (trim_space (marshal a)) = false /\ unmarshal (trim_space (marshal a)) = Some a.

Class OverviewCodecLaws (codec : OverviewCodec) : Prop := {
  state_json s : stateText s = true -> reads marshalState unmarshalState s;
  pause_json p : pauseText p = true -> reads marshalPause unmarshalPause p;
  cap_json c : reads marshalCap unmarshalCap c }.

(** ** Normalisation *)

Lemma maxInt64_idemp a b : maxInt64 (maxInt64 a b) b = maxInt64 a b.
Proof. rewrite !maxInt64_max. lia. Qed.

Lemma normalizeResetDay_idemp a : normalizeResetDay (normalizeResetDay a) = normalizeResetDay a.
Proof. unfold normalizeResetDay. zcases; lia. Qed.

Lemma normalize_idemp s :
  normalizeTrafficOverviewRuntimeState (normalizeTrafficOverviewRuntimeState s) =
  normalizeTrafficOverviewRuntimeState s.
Proof.
  destruct s. unfold normalizeTrafficOverviewRuntimeState; simpl.
  by rewrite !maxInt64_idemp, normalizeResetDay_idemp.
Qed.

(** A state that normalisation leaves alone. *)
Definition normal (s : trafficOverviewRuntimeState) : Prop := normalizeTrafficOverviewRuntimeState s = s.

(** ** The cache as a register *)

Section Cache.
Context {codec : OverviewCodec} {laws : OverviewCodecLaws codec}.

(** The baselines a restart would load. *)
Definition stored (w : world) : option trafficOverviewRuntimeState :=
  let trimmed := trim_space (default (defaultSettingValue trafficOverviewStateKey)
                               (wSettings w !! trafficOverviewStateKey)) in
  if isBlankJson trimmed then Some zeroState
  else normalizeTrafficOverviewRuntimeState <$> unmarshalState trimmed.

(** The baselines in force. *)
Definition effective (w : world) : option trafficOverviewRuntimeState :=
  if Loaded (wRuntime w) then Some (cachedState (wRuntime w)) else stored w.

Record cacheInv (w : world) : Prop := {
  ci_loaded : HasPersisted (wRuntime w) = Loaded (wRuntime w);
  ci_persisted : Loaded (wRuntime w) = true -> stored w = Some (Persisted (wRuntime w));
  ci_unloaded : Loaded (wRuntime w) = false -> HasPending (wRuntime w) = false;
  ci_pending : HasPending (wRuntime w) = true ->
               normal (Pending (wRuntime w)) /\ stateText (Pending (wRuntime w)) = true;
  ci_stored : is_Some (stored w) }.

(** The operations, and what else may happen to the cache. *)
Inductive cacheOp : Type :=
| CLoad
| CStage (s : trafficOverviewRuntimeState) (force : bool)
| CFlush
| CElse (t : Z) (faults : list bool)    (* time passes; which accesses will fail *)
| CRestart.

Definition runCache (op : cacheOp) (w : world) : res oerr (option trafficOverviewRuntimeState) * world :=
  match op with
  | CLoad => let '(r, w') := loadRuntimeState w in
             (match r with Ok s => Ok (Some s) | Err e => Err e end, w')
  | CStage s force => (stageRuntimeState s force ;; ret None) w
  | CFlush => (flushRuntimeState ;; ret None) w
  | CElse t l => (Ok None, setNano t (setFaults l w))
  | CRestart => (Ok None, setRuntime emptyCache w)
  end.

(** The register: the value in force and its durable copy. *)
Record cell : Type := mkCell { mem : trafficOverviewRuntimeState; disk : trafficOverviewRuntimeState }.

Inductive cellStep : cacheOp -> cell -> res oerr (option trafficOverviewRuntimeState) -> cell -> Prop :=
| cell_load c : cellStep CLoad c (Ok (Some (mem c))) c
| cell_load_fail c e : cellStep CLoad c (Err e) c
| cell_stage s force c r d :
    d = disk c \/ d = normalizeTrafficOverviewRuntimeState s ->
    (force = true -> r = Ok None -> d = normalizeTrafficOverviewRuntimeState s) ->
    cellStep (CStage s force) c r (mkCell (normalizeTrafficOverviewRuntimeState s) d)
| cell_stage_fail s force c e : cellStep (CStage s force) c (Err e) c
| cell_flush c : cellStep CFlush c (Ok None) (mkCell (mem c) (mem c))
| cell_flush_fail c e : cellStep CFlush c (Err e) c
| cell_else t l c : cellStep (CElse t l) c (Ok None) c
| cell_restart c : cellStep CRestart c (Ok None) (mkCell (disk c) (disk c)).

Definition cellOf (w : world) : option cell :=
  match effective w, stored w with
  | Some m, Some d => Some (mkCell m d)
  | _, _ => None
  end.

Definition okCacheOp (op : cacheOp) : Prop :=
  match op with CStage s _ => stateText s = true | _ => True end.

Lemma stored_settings w w' : wSettings w = wSettings w' -> stored w = stored w'.
Proof. unfold stored. by intros ->. Qed.

Lemma stored_saved s w :
  normal s -> stateText s = true ->
  wSettings w !! trafficOverviewStateKey = Some (marshalState s) -> stored w = Some s.
Proof.
  intros Hn Ht Hs. unfold stored. rewrite Hs. cbn [from_option id].
  destruct (state_json s Ht) as [-> ->]. simpl. by rewrite Hn.
Qed.

Lemma load_cases w :
  cacheInv w ->
  exists l c', (Loaded (wRuntime w) = true -> c' = wRuntime w /\ l = wFaults w) /\
    ((exists s, loadRuntimeState w = (Ok s, setRuntime c' (setFaults l w)) /\ effective w = Some s /\
       Loaded c' = true /\ cachedState c' = s /\ HasPersisted c' = true /\
       (Loaded (wRuntime w) = false -> c' = mkCache true true s false zeroState None)) \/
     (loadRuntimeState w = (Err ErrSettings, setFaults l w) /\ c' = wRuntime w /\
      Loaded (wRuntime w) = false)).
Proof.
  intros [Hl Hp Hu Hpe [d Hd]]. unfold loadRuntimeState. rewrite bind_get.
  destruct (Loaded (wRuntime w)) eqn:Hw.
  { exists (wFaults w), (wRuntime w). split; [done|]. left. eexists. split.
    { unfold ret. f_equal. destruct w; reflexivity. }
    unfold effective. rewrite Hw. repeat split; congruence. }
  destruct (getString_cases trafficOverviewStateKey w) as (l & [Hg|Hg]).
  2: { rewrite (bind_run_err _ _ _ _ _ Hg). exists l, (wRuntime w). split; [done|]. by right. }
  rewrite (bind_run_ok _ _ _ _ _ Hg). unfold effective. rewrite Hw. unfold stored in Hd |- *.
  set (trimmed := trim_space _) in *. clearbody trimmed.
  exists l, (mkCache true true d false zeroState None). split; [done|]. left. exists d.
  split; [|repeat split; done].
  destruct (isBlankJson trimmed).
  - injection Hd as <-. rewrite bind_ret, bind_modify. unfold get. simpl. rewrite Hw. reflexivity.
  - destruct (unmarshalState trimmed) as [s|]; [|discriminate]. injection Hd as <-.
    rewrite bind_ret, bind_modify. unfold get. simpl. rewrite Hw. reflexivity.
Qed.

Lemma save_cases s w :
  exists l, saveRuntimeState s w = (Err ErrSettings, setFaults l w) \/
  (let s' := normalizeTrafficOverviewRuntimeState s in
   saveRuntimeState s w =
     (Ok tt, setRuntime (cacheSaved s' (wNano w) (wRuntime w))
               (setSettings (<[trafficOverviewStateKey := marshalState s']> (wSettings w)) (setFaults l w)))).
Proof.
  unfold saveRuntimeState.
  destruct (setString_cases trafficOverviewStateKey (marshalState (normalizeTrafficOverviewRuntimeState s)) w)
    as (l & [Hs|Hs]); exists l; [right|left].
  - cbv zeta. by rewrite (bind_run_ok _ _ _ _ _ Hs).
  - by rewrite (bind_run_err _ _ _ _ _ Hs).
Qed.

(** Saving what is pending makes it durable. *)
Lemma flush_cases w :
  cacheInv w ->
  exists r w', flushRuntimeState w = (r, w') /\ cacheInv w' /\ effective w' = effective w /\
    Loaded (wRuntime w') = Loaded (wRuntime w) /\
    match r with Ok _ => stored w' = effective w | Err _ => stored w' = stored w end.
Proof.
  intros Hinv. pose proof Hinv as [Hl Hp Hu Hpe Hd]. unfold flushRuntimeState, takePending. unfold bind at 1. simpl.
  destruct (HasPending (wRuntime w)) eqn:Hpend.
  2: { do 2 eexists. split; [done|]. split; [done|]. split; [done|]. split; [done|].
       unfold effective. destruct (Loaded (wRuntime w)) eqn:Hw; [|done].
       rewrite (Hp eq_refl). unfold cachedState. by rewrite Hpend, Hl. }
  assert (Loaded (wRuntime w) = true) as Hw by (destruct (Loaded (wRuntime w)); [done|]; specialize (Hu eq_refl); congruence).
  destruct (Hpe eq_refl) as [Hn Ht].
  destruct (save_cases (Pending (wRuntime w)) w) as (l & [-> | Heq]).
  { do 2 eexists. split; [done|]. split; [by destruct Hinv; constructor|]. repeat split. }
  cbv zeta in Heq. rewrite Hn in Heq. rewrite Heq. clear Heq. do 2 eexists. split; [done|].
  set (w' := setRuntime _ _).
  assert (stored w' = Some (Pending (wRuntime w))) as Hst.
  { apply stored_saved; [done..|]. simpl. apply lookup_insert_eq. }
  assert (wRuntime w' = mkCache true true (Pending (wRuntime w)) false zeroState (Some (wNano w))) as Hc.
  { subst w'. simpl. unfold cacheSaved. rewrite Hpend, bool_decide_eq_true_2 by done. done. }
  assert (effective w = Some (Pending (wRuntime w))) as He.
  { unfold effective, cachedState. by rewrite Hw, Hpend. }
  split; [|split; [|split; [|]]].
  - constructor; rewrite ?Hc; simpl; try done; by rewrite Hst.
  - unfold effective at 1, cachedState. rewrite Hc. simpl. congruence.
  - rewrite Hc, Hw. done.
  - congruence.
Qed.

Lemma stage_cases s force w :
  cacheInv w -> stateText s = true ->
  exists r w', stageRuntimeState s force w = (r, w') /\ cacheInv w' /\
    ((is_Some (stored w) /\ effective w' = Some (normalizeTrafficOverviewRuntimeState s) /\
      (stored w' = stored w \/ stored w' = Some (normalizeTrafficOverviewRuntimeState s)) /\
      (force = true -> r = Ok tt -> stored w' = Some (normalizeTrafficOverviewRuntimeState s))) \/
     (exists e, r = Err e /\ effective w' = effective w /\ stored w' = stored w)).
Proof.
  intros Hinv Ht. unfold stageRuntimeState. set (n := normalizeTrafficOverviewRuntimeState s).
  assert (normal n) as Hn by apply normalize_idemp.
  rewrite bind_get.
  assert (exists r1 w1, (if Loaded (wRuntime w) then ret tt else loadRuntimeState ;; ret tt) w = (r1, w1) /\
    cacheInv w1 /\ wSettings w1 = wSettings w /\ effective w1 = effective w /\
    match r1 with Ok _ => Loaded (wRuntime w1) = true | Err _ => True end) as (r1 & w1 & Hr & Hi1 & Hset & Heff & Hl1).
  { destruct (Loaded (wRuntime w)) eqn:Hw; [by exists (Ok tt), w|].
    destruct (load_cases w Hinv) as (l & c' & _ & [(s0 & Hload & He & Hlc & Hcc & Hpc & Hc)|(Hload & _ & _)]).
    - rewrite (bind_run_ok _ _ _ _ _ Hload). do 2 eexists. split; [done|].
      specialize (Hc Hw). subst c'. simpl in *.
      assert (stored w = Some s0) as Hst by (unfold effective in He; by rewrite Hw in He).
      split; [|by repeat split].
      constructor; simpl; try done; by rewrite <- (stored_settings w).
    - rewrite (bind_run_err _ _ _ _ _ Hload). do 2 eexists. split; [done|]. split; [|by repeat split].
      destruct Hinv; by constructor. }
  destruct r1 as [[]|e].
  2: { rewrite (bind_run_err _ _ _ _ _ Hr). do 2 eexists. split; [done|]. split; [done|]. right.
       exists e. split; [done|]. split; [done|]. by apply stored_settings. }
  rewrite (bind_run_ok _ _ _ _ _ Hr), bind_modify, bind_get.
  set (w2 := setRuntime _ w1). pose proof Hi1 as [Hh1 Hp1 Hu1 Hpe1 Hd1].
  assert (stored w2 = stored w) as Hst2 by (by apply stored_settings).
  assert (stored w1 = stored w) as Hst1 by (by apply stored_settings).
  assert (effective w2 = Some n) as Heff2.
  { unfold effective, w2, cachedState. simpl. by rewrite Hl1. }
  assert (cacheInv w2) as Hi2.
  { constructor; simpl; try done; congruence. }
  destruct (flush_cases w2 Hi2) as (r3 & w3 & Hf & Hi3 & He3 & _ & Hs3).
  destruct (force || _ || _) eqn:Hflush.
  - exists r3, w3. split; [done|]. split; [done|]. left.
    split; [by rewrite <- Hst1|]. split; [congruence|]. destruct r3; split; try congruence; [right|left]; congruence.
  - exists (Ok tt), w2. split; [done|]. split; [done|]. left.
    split; [by rewrite <- Hst1|]. split; [done|]. split; [by left|]. intros ->. discriminate Hflush.
Qed.

Lemma cellOf_Some w : cacheInv w -> exists c, cellOf w = Some c.
Proof.
  intros [? ? ? ? [d Hd]]. unfold cellOf, effective. rewrite Hd. destruct (Loaded _); eauto.
Qed.

Lemma cellOf_mem w c : cellOf w = Some c -> effective w = Some (mem c) /\ stored w = Some (disk c).
Proof.
  unfold cellOf. destruct (effective w), (stored w); try discriminate. by intros [= <-].
Qed.

Lemma cellOf_intro w m d : effective w = Some m -> stored w = Some d -> cellOf w = Some (mkCell m d).
Proof. unfold cellOf. by intros -> ->. Qed.

Lemma cache_step op w c :
  cacheInv w -> okCacheOp op -> cellOf w = Some c ->
  exists c', cacheInv (runCache op w).2 /\ cellOf (runCache op w).2 = Some c' /\
             cellStep op c (runCache op w).1 c'.
Proof.
  intros Hinv Hok Hc. pose proof (cellOf_mem _ _ Hc) as [Hm Hd]. destruct op as [|s force| |t l|]; simpl.
  - destruct (load_cases w Hinv) as (l & c' & Hsame & [(s & -> & He & Hlc & Hcc & Hpc & Hnew)|(-> & -> & _)]); simpl.
    2: { exists c. split; [by destruct Hinv; constructor|]. split; [exact Hc|]. constructor. }
    exists c. assert (s = mem c) as -> by congruence.
    destruct (Loaded (wRuntime w)) eqn:Hw.
    + destruct (Hsame eq_refl) as [-> ->]. split; [by destruct Hinv; constructor|].
      split; [|constructor]. rewrite <- Hc. by destruct w.
    + rewrite (Hnew eq_refl). split; [|split; [|constructor]].
      * constructor; simpl; try done.
        { unfold effective in He. rewrite Hw in He. by rewrite <- (stored_settings w). }
      * destruct c as [m d]. apply cellOf_intro; [done|]. by rewrite <- (stored_settings w).
  - destruct (stage_cases s force w Hinv Hok) as (r & w' & Heq & Hi & Hcase).
    assert ((stageRuntimeState s force ;; ret None) w = (match r with Ok _ => Ok None | Err e => Err e end, w'))
      as -> by (unfold bind; rewrite Heq; by destruct r). simpl.
    destruct Hcase as [(_ & He & Hs & Hforce)|(e & -> & He & Hs)].
    + assert (exists d, stored w' = Some d /\ (d = disk c \/ d = normalizeTrafficOverviewRuntimeState s)) as (d & Hd' & Hor).
      { destruct Hs as [Hs|Hs]; eexists; (split; [exact Hs || (rewrite Hs; exact Hd)|auto]). }
      exists (mkCell (normalizeTrafficOverviewRuntimeState s) d). split; [done|].
      split; [by apply cellOf_intro|]. constructor; [done|].
      intros Hf Hr. destruct r as [[]|]; [|discriminate]. specialize (Hforce Hf eq_refl). congruence.
    + exists c. split; [done|]. split; [|constructor]. destruct c. apply cellOf_intro; simpl in *; congruence.
  - destruct (flush_cases w Hinv) as (r & w' & Heq & Hi & He & _ & Hs).
    assert ((flushRuntimeState ;; ret None) w =
            (match r with Ok _ => Ok (A := option trafficOverviewRuntimeState) None | Err e => Err e end, w'))
      as -> by (unfold bind; rewrite Heq; by destruct r). simpl.
    destruct r as [[]|e].
    + exists (mkCell (mem c) (mem c)). split; [done|]. split; [|constructor]. apply cellOf_intro; congruence.
    + exists c. split; [done|]. split; [|constructor]. destruct c. apply cellOf_intro; simpl in *; congruence.
  - exists c. split; [by destruct Hinv; constructor|]. split; [exact Hc|constructor].
  - exists (mkCell (disk c) (disk c)). split; [|split; [|constructor]].
    + constructor; simpl; try done.
    + apply cellOf_intro; [unfold effective; simpl|]; by rewrite (stored_settings _ w).
Qed.

(** A run of operations, with the result of each. *)
Inductive cellRuns : list cacheOp -> cell -> list (res oerr (option trafficOverviewRuntimeState)) -> cell -> Prop :=
| runs_nil c : cellRuns [] c [] c
| runs_cons op ops c r c' rs c'' :
    cellStep op c r c' -> cellRuns ops c' rs c'' -> cellRuns (op :: ops) c (r :: rs) c''.

Fixpoint runCaches (ops : list cacheOp) (w : world)
  : list (res oerr (option trafficOverviewRuntimeState)) * world :=
  match ops with
  | [] => ([], w)
  | op :: rest => let '(r, w1) := runCache op w in
                  let '(rs, w2) := runCaches rest w1 in (r :: rs, w2)
  end.

(** C10: through its write-behind cache the traffic baselines are one register
    with a durable copy: whatever sequence of loads, stagings, flushes,
    restarts and failing settings accesses runs from a fresh start, each load
    that succeeds returns the value last staged, or after a restart the value
    last made durable, and a forced staging or a flush that succeeds makes
    the value durable. *)
Theorem cache_refines_register ops w d :
  wRuntime w = emptyCache -> stored w = Some d -> Forall okCacheOp ops ->
  exists c, cellRuns ops (mkCell d d) (runCaches ops w).1 c /\ cellOf (runCaches ops w).2 = Some c.
Proof.
  intros He Hs Hok.
  assert (cacheInv w) as Hi by (constructor; rewrite ?He; simpl; try done; by rewrite Hs).
  assert (cellOf w = Some (mkCell d d)) as Hc
    by (apply cellOf_intro; [unfold effective; by rewrite He|done]).
  clear He Hs. revert w Hi Hc. generalize (mkCell d d) as c.
  induction Hok as [|op ops Hop Hok IH]; intros c w Hi Hc; simpl.
  - exists c. split; [constructor|done].
  - destruct (cache_step op w c Hi Hop Hc) as (c' & Hi' & Hc' & Hstep).
    destruct (runCache op w) as [r w1]. simpl in *.
    destruct (IH c' w1 Hi' Hc') as (c'' & Hr & Hc''). destruct (runCaches ops w1). simpl in *.
    exists c''. split; [by econstructor|done].
Qed.
End Cache.

(** ** Operations that leave the baselines alone *)

(** The cache, the stored baselines and pause state, and the clock are these. *)
Definition calm (w0 w : world) : Prop :=
  wRuntime w = wRuntime w0 /\
  wSettings w !! trafficOverviewStateKey = wSettings w0 !! trafficOverviewStateKey /\
  wSettings w !! trafficOverviewPauseStateKey = wSettings w0 !! trafficOverviewPauseStateKey /\
  wNano w = wNano w0.

#[export] Hint Resolve keep_ret keep_throw keep_get : overview.

Ltac keep :=
  repeat first
    [ progress intros
    | progress cbv zeta
    | solve [auto with overview]
    | match goal with
      | |- keeps _ (bind _ _) => apply keep_bind
      | |- keeps _ (try _) => apply keep_try
      | |- keeps _ (let '(_, _) := ?x in _) => destruct x
      | |- keeps _ (if ?b then _ else _) => destruct b
      | |- keeps _ (match ?x with _ => _ end) => destruct x
      end ].

Section Calm.
Context {codec : OverviewCodec} {L : Type} `{!Location L}.
Implicit Types h : host L.

Lemma calm_refl w : calm w w.
Proof. done. Qed.

Lemma calm_modify w0 f :
  (forall w, wRuntime (f w) = wRuntime w /\ wSettings (f w) = wSettings w /\ wNano (f w) = wNano w) ->
  keeps (calm w0) (modify f).
Proof.
  intros Hf. apply keep_modify. intros w (H1 & H2 & H3 & H4). destruct (Hf w) as (E1 & E2 & E3).
  unfold calm. rewrite E1, E2, E3. done.
Qed.

Lemma calm_step w0 e : keeps (calm w0) (step e).
Proof. intros w Hw. destruct (step_cases e w) as (l & [-> | ->]); exact Hw. Qed.

Lemma calm_probe w0 : keeps (calm w0) probe.
Proof. intros w Hw. unfold probe. by destruct (wFaults w). Qed.
#[local] Hint Resolve calm_step calm_probe : overview.

Lemma calm_getString w0 key : keeps (calm w0) (getString key).
Proof. unfold getString. keep. Qed.

Lemma calm_setString w0 key v :
  key <> trafficOverviewStateKey -> key <> trafficOverviewPauseStateKey -> keeps (calm w0) (setString key v).
Proof.
  intros H1 H2. unfold setString. keep. apply keep_modify. intros w (E1 & E2 & E3 & E4). unfold calm. simpl.
  rewrite !lookup_insert_ne by done. done.
Qed.
#[local] Hint Resolve calm_getString : overview.

Ltac other_key := apply calm_setString; discriminate.
Ltac calms := keep; try other_key; try (apply calm_modify; done).

Lemma calm_getBool w0 key : keeps (calm w0) (getBool key).
Proof. unfold getBool. calms. Qed.
#[local] Hint Resolve calm_getBool : overview.

Lemma calm_loadSnapshot w0 : keeps (calm w0) loadSnapshotCacheLocked.
Proof. unfold loadSnapshotCacheLocked. calms. Qed.
#[local] Hint Resolve calm_loadSnapshot : overview.

Lemma calm_displaySnapshot w0 : keeps (calm w0) getSnapshotForDisplay.
Proof. unfold getSnapshotForDisplay. calms. Qed.

Lemma calm_flushSnapshot w0 force : keeps (calm w0) (flushOverviewSnapshot force).
Proof. unfold flushOverviewSnapshot, saveOverviewSnapshot. calms. Qed.
#[local] Hint Resolve calm_flushSnapshot : overview.

Lemma calm_stageSnapshot w0 s force : keeps (calm w0) (stageOverviewSnapshot s force).
Proof. unfold stageOverviewSnapshot. calms. Qed.

Lemma calm_getOverviewConfig w0 h : keeps (calm w0) (getOverviewConfig h).
Proof. unfold getOverviewConfig, getOverviewConfigUncached. calms. Qed.

Lemma calm_nowUnix w0 : keeps (calm w0) nowUnix.
Proof. unfold nowUnix. calms. Qed.

Lemma calm_loadPause w0 : keeps (calm w0) loadPauseState.
Proof. unfold loadPauseState. calms. Qed.

Lemma calm_capState w0 c : keeps (calm w0) loadCapStateLocked /\ keeps (calm w0) (saveCapStateLocked c).
Proof. split; [unfold loadCapStateLocked|unfold saveCapStateLocked]; calms. Qed.

Lemma calm_loadCap w0 : keeps (calm w0) loadCapStateLocked.
Proof. apply (calm_capState w0 zeroCap). Qed.
Lemma calm_saveCap w0 c : keeps (calm w0) (saveCapStateLocked c).
Proof. apply calm_capState. Qed.
#[local] Hint Resolve calm_loadCap calm_saveCap calm_getOverviewConfig calm_nowUnix : overview.

Lemma calm_deleteRulesByHandle w0 c l : keeps (calm w0) (deleteRulesByHandle c l).
Proof. induction l; simpl; calms. Qed.
#[local] Hint Resolve calm_deleteRulesByHandle : overview.

Lemma calm_cleanup w0 h : keeps (calm w0) (cleanupTrafficCapRules h).
Proof. unfold cleanupTrafficCapRules, deleteRulesByCommentPrefix, tableExists, deleteChainRules, modifyRules. calms. Qed.

Lemma calm_hasRules w0 h : keeps (calm w0) (hasTrafficCapRules h).
Proof. unfold hasTrafficCapRules, tableExists, findHandleByComment. calms. Qed.
#[local] Hint Resolve calm_cleanup calm_hasRules : overview.

Lemma calm_apply w0 h l : keeps (calm w0) (applyTrafficCapRules h l).
Proof. unfold applyTrafficCapRules, addRule, ensureNftBase, modifyRules. calms. Qed.
#[local] Hint Resolve calm_apply : overview.

Lemma calm_inactive w0 h : keeps (calm w0) (reconcileInactiveTrafficCap h).
Proof. unfold reconcileInactiveTrafficCap. calms. Qed.

Lemma calm_fromOverview w0 h o : keeps (calm w0) (reconcileTrafficCapFromOverview h o).
Proof. unfold reconcileTrafficCapFromOverview. calms. Qed.

Lemma calm_due w0 : keeps (calm w0) shouldEvaluateTrafficCapNow.
Proof. unfold shouldEvaluateTrafficCapNow. calms. Qed.

Lemma calm_mark w0 : keeps (calm w0) markTrafficOverviewCapReconcileNeeded.
Proof. unfold markTrafficOverviewCapReconcileNeeded. calms. Qed.
End Calm.

(** ** Counting a state at a machine *)

Section Accounting.
Context {L : Type} `{!Location L}.
Implicit Types (h : host L) (s : trafficOverviewRuntimeState).

(** The counters and the stored numbers stay within 64 digits. *)
Definition fits (o l v k : Z) : Prop :=
  0 <= o /\ 0 <= l /\ 0 <= v <= max_i64 /\ 0 <= k <= max_i64 /\ o + l <= max_i64 /\ o + k <= max_i64.

Definition kernelOk s : Prop :=
  0 <= KernelOffsetUp s /\ 0 <= KernelOffsetDown s /\ 0 <= LastKernelUp s /\ 0 <= LastKernelDown s.

Definition countersFit h s (vu vd : Z) : Prop :=
  0 <= vu <= max_i64 /\ 0 <= vd <= max_i64 /\ kernelOk s /\
  forall ku kd, loadKernelTrafficTotals (selectedInterfaces h) (ioCounters h) = Ok (ku, kd) ->
    fits (KernelOffsetUp s) (LastKernelUp s) vu ku /\ fits (KernelOffsetDown s) (LastKernelDown s) vd kd.

Definition sameKernel s s' : Prop :=
  KernelOffsetUp s' = KernelOffsetUp s /\ KernelOffsetDown s' = KernelOffsetDown s /\
  LastKernelUp s' = LastKernelUp s /\ LastKernelDown s' = LastKernelDown s.

(** Counting twice at the same readings changes nothing. *)
Lemma reconcile_unchanged o k v :
  0 <= o -> 0 <= k -> 0 <= v <= o + k -> o + k <= max_i64 ->
  reconcileKernelRealtimeCounter o k false v k = (false, o + k, o, k).
Proof.
  intros Ho Hk Hv Hs. unfold reconcileKernelRealtimeCounter.
  rewrite !(maxInt64_max v), !(maxInt64_max k), (Z.max_l v 0), (Z.max_l k 0), Z.ltb_irrefl by lia.
  cbv beta iota zeta. autorewrite with overview. rewrite (Z.max_l o 0), (wrap64_id (o + k)) by in_range.
  rewrite Z.max_r by lia. rewrite nonNegativeDiff_spec by lia.
  replace (Z.max 0 (o + k - k)) with o by lia. by rewrite !Z.eqb_refl.
Qed.
Lemma reconcile_stable o l b v k changed current o' l' :
  fits o l v k -> reconcileKernelRealtimeCounter o l b v k = (changed, current, o', l') ->
  0 <= o' /\ 0 <= l' /\ v <= current <= max_i64 /\
  reconcileKernelRealtimeCounter o' l' false v k = (false, current, o', l').
Proof.
  intros (Ho & Hl & Hv & Hk & H1 & H2) Heq.
  assert (0 <= o' /\ l' = k /\ o' + k = current /\ v <= current <= max_i64) as (Ho' & -> & Hs & Hc).
  { destruct b.
    - destruct (reconcile_changed o l v k ltac:(lia) ltac:(lia)) as (b & E & _). rewrite E in Heq.
      injection Heq as <- <- <- <-. lia.
    - destruct (reconcile_same o l v k) as (b & E & Hn & _); [lia..|]. rewrite E in Heq.
      injection Heq as <- <- <- <-. unfold mergedCounter in *. destruct (k <? l); lia. }
  split; [done|]. split; [lia|]. split; [done|].
  rewrite <- Hs. apply reconcile_unchanged; lia.
Qed.


(** The state [s] counts as these totals at [h], and counting changes nothing. *)
Definition countsAs h (vu vd up down : Z) (source : string) s : Prop :=
  Interface s = joinSortedInterfaces (selectedInterfaces h) /\ kernelOk s /\
  deriveCurrentAlltimeTotals h s (selectedInterfaces h) vu vd = (s, up, down, source, false).

Lemma setKernel_same s : setKernel (KernelOffsetUp s) (KernelOffsetDown s) (LastKernelUp s) (LastKernelDown s) s = s.
Proof. by destruct s. Qed.

Lemma derive_stable h s vu vd s1 up down source ch :
  countersFit h s vu vd ->
  trim_space (joinSortedInterfaces (selectedInterfaces h)) <> "" ->
  deriveCurrentAlltimeTotals h s (selectedInterfaces h) vu vd = (s1, up, down, source, ch) ->
  0 <= up <= max_i64 /\ 0 <= down <= max_i64 /\ (source = "vnstat" \/ source = "vnstat+kernel") /\
  (exists ou od lu ld, s1 = setKernel ou od lu ld s) /\
  forall s', sameKernel s1 s' -> Interface s' = joinSortedInterfaces (selectedInterfaces h) ->
             countsAs h vu vd up down source s'.
Proof.
  intros (Hvu & Hvd & Hk & Hfit) Hblank Heq. unfold countsAs. unfold deriveCurrentAlltimeTotals in *.
  rewrite (maxInt64_max vu), (maxInt64_max vd), (Z.max_l vu 0), (Z.max_l vd 0) in * by lia.
  set (joined := joinSortedInterfaces _) in *. clearbody joined.
  destruct (loadKernelTrafficTotals _ _) as [[ku kd]|e].
  2: { injection Heq as <- <- <- <- <-. split; [done|]. split; [done|]. split; [by left|]. split.
       { do 4 eexists. symmetry. apply setKernel_same. }
       intros s' (E1 & E2 & E3 & E4) Hi. split; [done|]. split; [|done]. unfold kernelOk in *. lia. }
  destruct (Hfit ku kd eq_refl) as [Hu Hd].
  destruct (reconcileKernelRealtimeCounter (KernelOffsetUp s) _ _ _ _) as [[[cu up'] ou] lu] eqn:Eu.
  destruct (reconcileKernelRealtimeCounter (KernelOffsetDown s) _ _ _ _) as [[[cd down'] od] ld] eqn:Ed.
  injection Heq as <- <- <- <- <-.
  destruct (reconcile_stable _ _ _ _ _ _ _ _ _ Hu Eu) as (Hou & Hlu & Hup & Ru).
  destruct (reconcile_stable _ _ _ _ _ _ _ _ _ Hd Ed) as (Hod & Hld & Hdown & Rd).
  split; [lia|]. split; [lia|]. split; [by right|]. split; [by do 4 eexists|].
  intros s' (E1 & E2 & E3 & E4) Hi. cbn [KernelOffsetUp KernelOffsetDown LastKernelUp LastKernelDown setKernel] in *.
  split; [done|]. split; [unfold kernelOk; lia|].
  rewrite Hi, (bool_decide_eq_false_2 (trim_space joined = "")), (bool_decide_eq_true_2 (joined = joined)) by done.
  cbn [orb negb]. rewrite E1, E2, E3, E4, Ru, Rd. cbn [orb].
  by rewrite <- E1, <- E2, <- E3, <- E4, setKernel_same.
Qed.

(** Counting looks only at the interface and the kernel's numbers. *)
Lemma countsAs_ext h vu vd up down source s s' :
  countsAs h vu vd up down source s -> sameKernel s s' -> Interface s' = Interface s ->
  countsAs h vu vd up down source s'.
Proof.
  intros (Hi & Hk & Hd) (E1 & E2 & E3 & E4) Hi'. split; [by rewrite Hi'|].
  split; [unfold kernelOk in *; lia|]. unfold deriveCurrentAlltimeTotals in *.
  rewrite Hi', E1, E2, E3, E4. set (joined := joinSortedInterfaces _) in *. clearbody joined.
  set (bs := bool_decide (trim_space (Interface s) = "")) in *. clearbody bs.
  destruct (loadKernelTrafficTotals _ _) as [[ku kd]|e]; [|by injection Hd as -> -> <-].
  destruct (reconcileKernelRealtimeCounter (KernelOffsetUp s) _ _ _ _) as [[[cu up'] ou] lu].
  destruct (reconcileKernelRealtimeCounter (KernelOffsetDown s) _ _ _ _) as [[[cd down'] od] ld].
  injection Hd as Hs -> -> <- ->. do 4 f_equal. unfold setKernel in Hs.
  assert (ou = KernelOffsetUp s /\ od = KernelOffsetDown s /\ lu = LastKernelUp s /\ ld = LastKernelDown s)
    as (-> & -> & -> & ->) by (rewrite <- Hs; done).
  rewrite <- E1, <- E2, <- E3, <- E4. apply setKernel_same.
Qed.

Lemma normalizeState_id s up down now :
  trim_space (Interface s) <> "" ->
  ManualBaseUp s <= up -> ManualBaseDown s <= down -> PeriodBaseUp s <= up -> PeriodBaseDown s <= down ->
  normalizeStateForTotals s (Interface s) up down now = (s, false).
Proof.
  intros Hb H1 H2 H3 H4. unfold normalizeStateForTotals. autorewrite with overview.
  rewrite bool_decide_eq_false_2 by done. rewrite bool_decide_eq_true_2 by done. zcases; try lia. done.
Qed.

Definition basesOk s : Prop :=
  0 <= ManualBaseUp s /\ 0 <= ManualBaseDown s /\ 0 <= PeriodBaseUp s /\ 0 <= PeriodBaseDown s.

Lemma normalizeTotals_fields s iface up down now :
  basesOk s -> 0 <= up -> 0 <= down ->
  let s' := (normalizeStateForTotals s iface up down now).1 in
  Interface s' = iface /\ sameKernel s s' /\
  0 <= ManualBaseUp s' <= up /\ 0 <= ManualBaseDown s' <= down /\
  0 <= PeriodBaseUp s' <= up /\ 0 <= PeriodBaseDown s' <= down.
Proof.
  intros (H1 & H2 & H3 & H4) Hu Hd. unfold normalizeStateForTotals, sameKernel. cbv zeta.
  rewrite !maxInt64_max, !Z.max_l by lia. destruct (_ || _) eqn:E; [simpl; lia || (split; [done|lia])|].
  rewrite !orb_false_iff, negb_false_iff, !bool_decide_eq_false, bool_decide_eq_true, !Z.ltb_ge in E.
  destruct E as (((((_ & Hi) & E1) & E2) & E3) & E4). simpl. split; [done|]. lia.
Qed.

(** The period rules touch only the period's fields, and the baseline they
    choose is the current total. *)
Lemma applyPeriod_fields s resetDay up down loc now :
  let s' := (applyPeriodResetIfNeeded (L := L) s resetDay up down loc now).1 in
  Interface s' = Interface s /\ ManualBaseUp s' = ManualBaseUp s /\ ManualBaseDown s' = ManualBaseDown s /\
  sameKernel s s' /\
  (PeriodBaseUp s' = PeriodBaseUp s /\ PeriodBaseDown s' = PeriodBaseDown s \/
   PeriodBaseUp s' = maxInt64 up 0 /\ PeriodBaseDown s' = maxInt64 down 0).
Proof.
  unfold applyPeriodResetIfNeeded, sameKernel. cbv zeta. set (tag := computePeriodTag _ _ _). clearbody tag.
  destruct (normalizeResetDay resetDay <=? 0); [simpl; repeat split; auto|].
  destruct (PeriodResetDay s =? normalizeResetDay resetDay); cbn [negb]; [|simpl; repeat split; auto].
  destruct (decide (trim_space (PeriodTag s) = "")); [simpl; repeat split; auto|].
  destruct (decide (PeriodTag s = tag)); simpl; repeat split; auto.
Qed.

Lemma normalize_fields s :
  let s' := normalizeTrafficOverviewRuntimeState s in
  Interface s' = Interface s /\ (kernelOk s -> sameKernel s s') /\
  (0 <= ManualBaseUp s -> ManualBaseUp s' = ManualBaseUp s) /\
  (0 <= ManualBaseDown s -> ManualBaseDown s' = ManualBaseDown s) /\
  (0 <= PeriodBaseUp s -> PeriodBaseUp s' = PeriodBaseUp s) /\
  (0 <= PeriodBaseDown s -> PeriodBaseDown s' = PeriodBaseDown s).
Proof. unfold kernelOk, sameKernel. simpl. rewrite !maxInt64_max. split; [done|lia]. Qed.
End Accounting.

(** ** Resets *)

Section Resets.
Context {codec : OverviewCodec} {laws : OverviewCodecLaws codec} {L : Type} `{!Location L}.
Implicit Types (h : host L) (Q : trafficOverviewRuntimeState -> Prop).

(** No pause state is stored. *)
Definition notPaused (w : world) : Prop :=
  isBlankJson (trim_space (default (defaultSettingValue trafficOverviewPauseStateKey)
                             (wSettings w !! trafficOverviewPauseStateKey))) = true.

Definition holds Q (w : world) : Prop :=
  Loaded (wRuntime w) = true /\ Q (cachedState (wRuntime w)) /\ notPaused w.

Lemma holds_calm {A} Q (m : M A) : (forall w0, keeps (calm w0) m) -> keeps (holds Q) m.
Proof.
  intros Hm w (H1 & H2 & H3). destruct (Hm w w (calm_refl w)) as (E1 & _ & E3 & _).
  unfold holds, notPaused. rewrite E1, E3. done.
Qed.

Lemma load_loaded w : Loaded (wRuntime w) = true -> loadRuntimeState w = (Ok (cachedState (wRuntime w)), w).
Proof. intros Hl. unfold loadRuntimeState. rewrite bind_get, Hl. done. Qed.

Lemma loadPause_none w : notPaused w -> exists l, loadPauseState w = (Ok None, setFaults l w).
Proof.
  intros Hn. unfold loadPauseState, try.
  destruct (getString_cases trafficOverviewPauseStateKey w) as (l & [Hg|Hg]); exists l; unfold bind; rewrite Hg; [|done].
  unfold notPaused in Hn. by rewrite Hn.
Qed.

Lemma stage_loaded Q s force :
  Q (normalizeTrafficOverviewRuntimeState s) -> keeps (holds Q) (stageRuntimeState s force).
Proof.
  intros HQ w (H1 & H2 & H3). unfold stageRuntimeState.
  rewrite bind_get, H1, bind_ret, bind_modify, bind_get.
  set (w1 := setRuntime _ w). assert (holds Q w1) as Hw1 by (unfold holds, cachedState; simpl; done).
  destruct (force || _ || _); [|exact Hw1].
  unfold flushRuntimeState.
  rewrite (bind_run_ok _ _ _ (Some (normalizeTrafficOverviewRuntimeState s)) w1) by done.
  destruct (save_cases (normalizeTrafficOverviewRuntimeState s) w1) as (l & [-> | ->]); [exact Hw1|].
  rewrite normalize_idemp. unfold holds, cachedState, cacheSaved, notPaused. simpl.
  rewrite bool_decide_eq_true_2 by done. simpl.
  rewrite lookup_insert_ne by discriminate. done.
Qed.

(** A state that counts as [up], [down] at [h] and whose baselines are as said. *)
Record shape h (vu vd up down : Z) (source : string) (man per : Z -> Z -> Prop)
    (s : trafficOverviewRuntimeState) : Prop := {
  sh_counts : countsAs h vu vd up down source s;
  sh_man : man (ManualBaseUp s) (ManualBaseDown s);
  sh_per : per (PeriodBaseUp s) (PeriodBaseDown s) }.

Definition below (up down : Z) (p : Z -> Z -> Prop) : Prop := forall a b, p a b -> 0 <= a <= up /\ 0 <= b <= down.

Section Shape.
Context h (vu vd up down : Z) (source : string) (man per : Z -> Z -> Prop).
Hypotheses (Hup : 0 <= up) (Hdown : 0 <= down).
Hypotheses (Hman : below up down man) (Hper : below up down per) (Hnow : per up down).
Hypothesis Hblank : trim_space (joinSortedInterfaces (selectedInterfaces h)) <> "".
Local Notation Q := (shape h vu vd up down source man per).

Lemma shape_fields s s' :
  Q s -> sameKernel s s' -> Interface s' = Interface s -> man (ManualBaseUp s') (ManualBaseDown s') ->
  per (PeriodBaseUp s') (PeriodBaseDown s') -> Q s'.
Proof. intros [Hc _ _] Hk Hi Hm Hp. split; eauto using countsAs_ext. Qed.

Lemma shape_normalize s : Q s -> Q (normalizeTrafficOverviewRuntimeState s).
Proof.
  intros HQ. pose proof HQ as [(_ & Hk & _) Hm Hp].
  destruct (Hman _ _ Hm), (Hper _ _ Hp). destruct (normalize_fields s) as (Hi & Hsk & E1 & E2 & E3 & E4).
  apply (shape_fields s); [done|by apply Hsk|done|rewrite E1, E2 by lia; done|rewrite E3, E4 by lia; done].
Qed.

Lemma shape_period s resetDay now :
  Q s -> Q (applyPeriodResetIfNeeded s resetDay up down (location h) now).1.
Proof.
  intros HQ. pose proof HQ as [_ Hm Hp].
  destruct (applyPeriod_fields s resetDay up down (location h) now) as (Hi & E1 & E2 & Hk & Hc).
  apply (shape_fields s); [done..| |].
  - rewrite E1, E2. done.
  - destruct Hc as [[-> ->]|[-> ->]]; [done|]. rewrite !maxInt64_max, !Z.max_l by lia. done.
Qed.

Lemma account_tail_keeps s changed o :
  Q s -> keeps (holds Q)
    ((if false || false || changed then try (stageRuntimeState s changed) ;; ret tt else ret tt) ;;
     try (stageOverviewSnapshot (snapshotFromOverview (withUsage source s up down o)) false) ;;
     ret (withUsage source s up down o)).
Proof.
  intros HQ. apply keep_bind; [destruct changed; simpl; [|apply keep_ret]|intros _].
  - apply keep_bind; [|intros; apply keep_ret]. apply keep_try, stage_loaded. by apply shape_normalize.
  - apply keep_bind; [|intros; apply keep_ret]. apply keep_try, holds_calm. intros. apply calm_stageSnapshot.
Qed.

Lemma account_keeps cfg o : keeps (holds Q) (accountOverview h cfg vu vd o).
Proof.
  intros w Hw. pose proof Hw as (Hl & HQ & Hn). unfold accountOverview, nowUnix. rewrite bind_get.
  rewrite (bind_run_ok _ _ _ (Ok (cachedState (wRuntime w))) w) by (unfold try; by rewrite load_loaded).
  set (s := cachedState (wRuntime w)) in *. pose proof HQ as [(Hi & Hk & Hd) Hm Hp]. rewrite Hd.
  rewrite <- Hi. destruct (Hman _ _ Hm), (Hper _ _ Hp).
  rewrite normalizeState_id by (rewrite ?Hi; done || lia).
  pose proof (shape_period s (cfgResetDay cfg) (wNano w / second) HQ) as HQ'.
  destruct (applyPeriodResetIfNeeded _ _ _ _ _ _) as [s' changed]. by apply account_tail_keeps.
Qed.

Lemma overview_keeps : vnstatTotals h = Some (vu, vd) -> keeps (holds Q) (getTrafficOverviewUncached h).
Proof.
  intros Hv. unfold getTrafficOverviewUncached, nowUnix.
  apply keep_bind; [apply keep_get|intros now].
  apply keep_bind; [apply keep_try, holds_calm; intros; apply calm_getOverviewConfig|intros [cfg|e]; [|apply keep_ret]].
  cbv zeta. apply keep_bind; [apply holds_calm; intros; apply calm_displaySnapshot|intros cached].
  intros w Hw. destruct (loadPause_none w) as [l Hp]; [apply Hw|]. rewrite (bind_run_ok _ _ _ _ _ Hp).
  assert (holds Q (setFaults l w)) as Hw' by exact Hw. revert Hw'. generalize (setFaults l w). clear w Hw Hp.
  rewrite bool_decide_eq_false_2 by (intros [? ?]; discriminate).
  destruct (negb (cfgEnabled cfg)); [by intros w|]. intros w Hw. rewrite bind_ret. revert w Hw. rewrite Hv.
  destruct (negb (isLinux h)); [by intros w|]. destruct (negb (vnstatInstalled h)); [by intros w|].
  destruct (decide _); [by intros w|]. apply account_keeps.
Qed.

Lemma reconcile_keeps : vnstatTotals h = Some (vu, vd) -> keeps (holds Q) (ReconcileTrafficCap h).
Proof.
  intros Hv. unfold ReconcileTrafficCap.
  apply keep_bind; [apply holds_calm; intros; apply calm_getOverviewConfig|intros cfg].
  apply keep_bind; [apply keep_get|intros now]. cbv zeta.
  destruct (_ || _); [apply holds_calm; intros; apply calm_inactive|].
  apply keep_bind; [apply holds_calm; intros; apply calm_due|intros []]; [|apply keep_ret].
  apply keep_bind; [by apply overview_keeps|intros o]. apply holds_calm. intros. apply calm_fromOverview.
Qed.
End Shape.

(** *** The skeleton of a reset *)

Definition enabledSetting (w : world) : Prop :=
  parseBool (trim_space (default (defaultSettingValue trafficOverviewEnabledKey)
                           (wSettings w !! trafficOverviewEnabledKey))) <> Some false.

Lemma isOverviewEnabled_true w b w' : enabledSetting w -> isOverviewEnabled w = (Ok b, w') -> b = true.
Proof.
  unfold enabledSetting, isOverviewEnabled, getBool. intros He Heq.
  destruct (bind_run_inv _ _ _ _ _ Heq) as (str & w1 & Hg & Hr).
  destruct (getString_cases trafficOverviewEnabledKey w) as (l & [E|E]); rewrite E in Hg; [|discriminate].
  injection Hg as <- <-. destruct (parseBool _) as [[]|]; [by injection Hr as <- _|done|].
  replace (parseBool (trim_space (defaultSettingValue trafficOverviewEnabledKey))) with (Some true) in Hr
    by (vm_compute; reflexivity).
  by injection Hr as <- _.
Qed.

Lemma cacheInv_calm w w' : calm w w' -> cacheInv w -> cacheInv w' /\ effective w' = effective w.
Proof.
  intros (E1 & E2 & _ & _) [H1 H2 H3 H4 H5].
  assert (stored w' = stored w) as Hs by (unfold stored; by rewrite E2).
  split; [constructor; rewrite ?E1, ?Hs; done|]. unfold effective. by rewrite E1, Hs.
Qed.

Lemma calm_ok {A} (m : M A) w a w' : (forall w0, keeps (calm w0) m) -> m w = (Ok a, w') -> calm w w'.
Proof. intros Hm Heq. specialize (Hm w w (calm_refl w)). by rewrite Heq in Hm. Qed.

Lemma calm_trans w1 w2 w3 : calm w1 w2 -> calm w2 w3 -> calm w1 w3.
Proof. unfold calm. intros (-> & -> & -> & ->). done. Qed.

(** Loading and then saving with nothing staged puts the saved state in force. *)
Lemma load_save_state w wa wb wc s R :
  cacheInv w -> HasPending (wRuntime w) = false -> calm w wa ->
  loadRuntimeState wa = (Ok s, wb) -> saveRuntimeState R wb = (Ok tt, wc) ->
  effective w = Some s /\ Loaded (wRuntime wc) = true /\
  cachedState (wRuntime wc) = normalizeTrafficOverviewRuntimeState R /\
  wSettings wc !! trafficOverviewPauseStateKey = wSettings w !! trafficOverviewPauseStateKey.
Proof.
  intros Hinv Hpend Hcalm Hload Hsave. pose proof Hcalm as (E1 & E2 & E3 & E4).
  destruct (cacheInv_calm _ _ Hcalm Hinv) as [Hia Hea].
  destruct (load_cases wa Hia) as (l & c' & Hsame & [(s' & Hl & He & Hlc & Hcc & Hpc & Hnew)|(Hl & _)]);
    rewrite Hl in Hload; [|discriminate]. injection Hload as <- <-.
  assert (HasPending c' = false) as Hpc'.
  { destruct (Loaded (wRuntime wa)) eqn:El; [destruct (Hsame eq_refl) as [-> _]; by rewrite E1|by rewrite Hnew]. }
  split; [congruence|].
  destruct (save_cases R (setRuntime c' (setFaults l wa))) as (l' & [Hs|Hs]); rewrite Hs in Hsave; [discriminate|].
  injection Hsave as <-. unfold cachedState, cacheSaved. simpl. rewrite Hpc'. simpl.
  rewrite lookup_insert_ne by discriminate. rewrite E3. done.
Qed.

Lemma resetStats_effect h update needsConfig w w' s vu vd s1 up down source ch :
  cacheInv w -> HasPending (wRuntime w) = false -> notPaused w -> effective w = Some s ->
  isLinux h = true -> enabledSetting w -> vnstatTotals h = Some (vu, vd) ->
  deriveCurrentAlltimeTotals h s (selectedInterfaces h) vu vd = (s1, up, down, source, ch) ->
  forall man per, 0 <= up -> 0 <= down -> below up down man -> below up down per -> per up down ->
  trim_space (joinSortedInterfaces (selectedInterfaces h)) <> "" ->
  (forall resetDay, shape h vu vd up down source man per
     (normalizeTrafficOverviewRuntimeState (update resetDay up down (wNano w / second)
        (normalizeStateForTotals s1 (joinSortedInterfaces (selectedInterfaces h)) up down (wNano w / second)).1))) ->
  resetStats h update needsConfig w = (Ok tt, w') ->
  holds (shape h vu vd up down source man per) w'.
Proof.
  intros Hinv Hpend Hnp Heff Hlin Hen Hv Hd man per Hup Hdown Hman Hper Hnow Hblank Hshape Heq.
  unfold resetStats in Heq. rewrite Hlin in Heq. cbn [negb] in Heq.
  destruct (bind_run_inv _ _ _ _ _ Heq) as (b & wa & H1 & Heq1). clear Heq.
  rewrite (isOverviewEnabled_true w b wa Hen H1) in Heq1. cbn [negb] in Heq1.
  assert (calm w wa) as Hca by (eapply calm_ok; [intros; apply calm_getBool|exact H1]).
  destruct (decide (selectedInterfaces h = [])); [discriminate|]. rewrite Hv in Heq1.
  destruct (bind_run_inv _ _ _ _ _ Heq1) as (resetDay & wb & H2 & Heq2). clear Heq1.
  assert (calm w wb) as Hcb.
  { eapply calm_trans; [exact Hca|]. eapply calm_ok; [|exact H2]. intros.
    destruct needsConfig; [|apply keep_ret]. apply keep_bind; [apply calm_getOverviewConfig|intros; apply keep_ret]. }
  unfold nowUnix in Heq2. rewrite bind_get in Heq2.
  replace (wNano wb) with (wNano w) in Heq2 by (symmetry; apply Hcb).
  destruct (bind_run_inv _ _ _ _ _ Heq2) as (s0 & wc & H3 & Heq3). clear Heq2.
  assert (s0 = s) as ->.
  { destruct (cacheInv_calm _ _ Hcb Hinv) as [Hib Heb].
    destruct (load_cases wb Hib) as (l & c' & _ & [(s' & Hl & He & _)|(Hl & _)]); rewrite Hl in H3; [|discriminate].
    injection H3 as <- _. congruence. }
  rewrite Hd in Heq3. specialize (Hshape resetDay).
  destruct (normalizeStateForTotals _ _ _ _ _) as [s2 ch2]. simpl in Hshape.
  destruct (bind_run_inv _ _ _ _ _ Heq3) as ([] & wd & H4 & Heq4). clear Heq3.
  destruct (load_save_state w wb wc wd s _ Hinv Hpend Hcb H3 H4) as (_ & Hl & Hc & Hp).
  assert (holds (shape h vu vd up down source man per) wd) as Hholds
    by (unfold holds, notPaused; by rewrite Hl, Hc, Hp).
  assert (keeps (holds (shape h vu vd up down source man per))
    (stageOverviewSnapshot (usageSnapshot source (joinWith ", " (selectedInterfaces h))
       (update resetDay up down (wNano w / second) s2) up down (wNano w / second)) true ;;
     markTrafficOverviewCapReconcileNeeded ;; try (ReconcileTrafficCap h) ;; ret tt)) as Hk.
  { apply keep_bind; [apply holds_calm; intros; apply calm_stageSnapshot|intros _].
    apply keep_bind; [apply holds_calm; intros; apply calm_mark|intros _].
    apply keep_bind; [by apply keep_try, reconcile_keeps|intros _; apply keep_ret]. }
  specialize (Hk wd Hholds). by rewrite Heq4 in Hk.
Qed.

Inductive resetKind : Type := ResetAll | ResetPeriod | ResetTotal.

Definition runReset (k : resetKind) h : M unit :=
  match k with
  | ResetAll => ResetAllTrafficOverviewStats h
  | ResetPeriod => ResetPeriodTrafficOverviewStats h
  | ResetTotal => ResetTotalTrafficOverviewStats h
  end.

(** What a reset leaves of the baselines: [s2] is the state it found, made
    consistent with the counters. *)
Definition manAfter (k : resetKind) (up down : Z) (s2 : trafficOverviewRuntimeState) (a b : Z) : Prop :=
  match k with
  | ResetPeriod => a = ManualBaseUp s2 /\ b = ManualBaseDown s2
  | _ => a = up /\ b = down
  end.
Definition perAfter (k : resetKind) (up down : Z) (a b : Z) : Prop :=
  match k with
  | ResetTotal => 0 <= a <= up /\ 0 <= b <= down
  | _ => a = up /\ b = down
  end.


(** ** Pausing and resuming *)

(** The period and accumulated usage a state shows at two counters. *)
Definition usageOf (s : trafficOverviewRuntimeState) (up down : Z) : Z * Z * Z * Z :=
  (nonNegativeDiff up (PeriodBaseUp s), nonNegativeDiff down (PeriodBaseDown s),
   nonNegativeDiff up (ManualBaseUp s), nonNegativeDiff down (ManualBaseDown s)).

(** The state and the counters an overview would show now. *)
Definition accounted h (resetDay vu vd now : Z) (s : trafficOverviewRuntimeState)
  : trafficOverviewRuntimeState * Z * Z * string :=
  let '(s1, up, down, source, _) := deriveCurrentAlltimeTotals h s (selectedInterfaces h) vu vd in
  let '(s2, _) := normalizeStateForTotals s1 (joinSortedInterfaces (selectedInterfaces h)) up down now in
  let '(s3, _) := applyPeriodResetIfNeeded s2 resetDay up down (location h) now in
  (s3, up, down, source).

Lemma nonNegativeDiff_nonneg a b : 0 <= nonNegativeDiff a b <= max_i64.
Proof. unfold nonNegativeDiff. pose proof (wrap64_range (a - b)). zcases; in_range. Qed.

Lemma source_text h resetDay vu vd now s s3 up down source :
  accounted h resetDay vu vd now s = (s3, up, down, source) -> source = "vnstat" \/ source = "vnstat+kernel".
Proof.
  unfold accounted, deriveCurrentAlltimeTotals. intros Heq.
  destruct (loadKernelTrafficTotals _ _) as [[ku kd]|].
  - destruct (reconcileKernelRealtimeCounter _ _ _ _ ku) as [[[? ?] ?] ?].
    destruct (reconcileKernelRealtimeCounter _ _ _ _ kd) as [[[? ?] ?] ?].
    destruct (normalizeStateForTotals _ _ _ _ _), (applyPeriodResetIfNeeded _ _ _ _ _ _).
    injection Heq as _ _ _ <-. by right.
  - destruct (normalizeStateForTotals _ _ _ _ _), (applyPeriodResetIfNeeded _ _ _ _ _ _).
    injection Heq as _ _ _ <-. by left.
Qed.

(** What pausing stores. *)
Lemma pause_stores h w w1 s vu vd :
  cacheInv w -> effective w = Some s -> isLinux h = true -> manifestTrusted h = true ->
  selectedInterfaces h <> [] -> vnstatTotals h = Some (vu, vd) ->
  pauseTrafficOverviewAccounting h w = (Ok tt, w1) ->
  exists cfg wc s3 up down source p,
    getOverviewConfig h w = (Ok cfg, wc) /\
    accounted h (cfgResetDay cfg) vu vd (wNano w / second) s = (s3, up, down, source) /\
    wSettings w1 !! trafficOverviewPauseStateKey = Some (marshalPause (normalizePauseState p)) /\
    pzPaused p = true /\ pzInterface p = joinWith ", " (selectedInterfaces h) /\
    pzSnapshot p = usageSnapshot source (joinWith ", " (selectedInterfaces h)) s3 up down (wNano w / second).
Proof.
  intros Hinv Heff Hlin Hman Hne Hv Heq. unfold pauseTrafficOverviewAccounting in Heq.
  rewrite Hlin, Hman in Heq. cbn [negb] in Heq. destruct (decide _); [done|]. cbv zeta in Heq. rewrite Hv in Heq.
  destruct (bind_run_inv _ _ _ _ _ Heq) as (cfg & wc & Hcfg & Heq1). clear Heq.
  assert (calm w wc) as Hca by (eapply calm_ok; [intros; apply calm_getOverviewConfig|exact Hcfg]).
  unfold nowUnix in Heq1. rewrite bind_get in Heq1. replace (wNano wc) with (wNano w) in Heq1 by (symmetry; apply Hca).
  destruct (bind_run_inv _ _ _ _ _ Heq1) as (s0 & wd & Hload & Heq2). clear Heq1.
  destruct (cacheInv_calm _ _ Hca Hinv) as [Hic Hec].
  destruct (load_cases wc Hic) as (l & c' & _ & [(s' & Hl & He & _)|(Hl & _)]); rewrite Hl in Hload; [|discriminate].
  injection Hload as <- <-. assert (s' = s) as -> by congruence.
  destruct (deriveCurrentAlltimeTotals _ _ _ _ _) as [[[[s1 up] down] source] ch] eqn:Hd.
  destruct (normalizeStateForTotals _ _ _ _ _) as [s2 ch2] eqn:Hn.
  destruct (applyPeriodResetIfNeeded _ _ _ _ _ _) as [s3 ch3] eqn:Hp.
  destruct (bind_run_inv _ _ _ _ _ Heq2) as (_ & we & _ & Heq3). clear Heq2.
  destruct (bind_run_inv _ _ _ _ _ Heq3) as (_ & wf & _ & Heq4). clear Heq3.
  unfold savePauseState in Heq4. match type of Heq4 with setString _ (marshalPause (normalizePauseState ?q)) _ = _ =>
    exists cfg, wc, s3, up, down, source, q end.
  split; [done|]. split; [unfold accounted; by rewrite Hd, Hn, Hp|].
  match type of Heq4 with setString ?k ?v ?w0 = _ => destruct (setString_cases k v w0) as (l' & [E|E]) end;
    rewrite E in Heq4; [|discriminate].
  injection Heq4 as <-. split; [apply lookup_insert_eq|]. done.
Qed.

Lemma loadPause_result w p r w' :
  wSettings w !! trafficOverviewPauseStateKey = Some (marshalPause p) -> pauseText p = true ->
  loadPauseState w = (r, w') ->
  calm w w' /\ (r = Ok None \/ r = Ok (Some (normalizePauseState p))).
Proof.
  intros Hs Ht. unfold loadPauseState, try. destruct (pause_json p Ht) as [Hb Hu].
  destruct (getString_cases trafficOverviewPauseStateKey w) as (l' & [Hg|Hg]); unfold bind; rewrite Hg.
  2: { intros [= <- <-]. split; [done|by left]. }
  rewrite Hs. cbn [from_option id]. rewrite Hb, Hu. unfold ret. intros [= <- <-].
  split; [done|]. destruct (pzPaused _); [by right|by left].
Qed.

(** What resuming from a stored pause state does. *)
Lemma resume_effect h w w2 s1 vu vd s1' up down source ch p :
  cacheInv w -> HasPending (wRuntime w) = false -> effective w = Some s1 ->
  wSettings w !! trafficOverviewPauseStateKey = Some (marshalPause p) -> pauseText p = true ->
  isLinux h = true -> manifestTrusted h = true -> selectedInterfaces h <> [] -> vnstatTotals h = Some (vu, vd) ->
  deriveCurrentAlltimeTotals h s1 (selectedInterfaces h) vu vd = (s1', up, down, source, ch) ->
  resumeTrafficOverviewAccounting h w = (Ok tt, w2) ->
  calm w w2 \/
  (notPaused w2 /\ exists tag resetDay,
     cachedState (wRuntime w2) = normalizeTrafficOverviewRuntimeState
       (resumedState (joinSortedInterfaces (selectedInterfaces h)) (normalizePauseState p) tag resetDay up down s1')).
Proof.
  intros Hinv Hpend Heff Hset Hpt Hlin Hman Hne Hv Hd Hres. unfold resumeTrafficOverviewAccounting in Hres.
  destruct (bind_run_inv _ _ _ _ _ Hres) as (pz & wa & Hlp & Hres1). clear Hres.
  destruct (loadPause_result w _ _ _ Hset Hpt Hlp) as (Hca & [[= ->]|[= ->]]).
  { left. by injection Hres1 as <-. }
  right. rewrite Hlin, Hman in Hres1. cbn [negb] in Hres1. destruct (decide _); [done|]. cbv zeta in Hres1.
  rewrite Hv in Hres1. destruct (bind_run_inv _ _ _ _ _ Hres1) as (cfg & wb & Hcfg & Hres2). clear Hres1.
  assert (calm w wb) as Hcb
    by (eapply calm_trans; [exact Hca|]; eapply calm_ok; [intros; apply calm_getOverviewConfig|exact Hcfg]).
  unfold nowUnix in Hres2. rewrite bind_get in Hres2.
  destruct (bind_run_inv _ _ _ _ _ Hres2) as (s0 & wd & Hload & Hres3). clear Hres2.
  assert (s0 = s1) as ->.
  { destruct (cacheInv_calm _ _ Hcb Hinv) as [Hib Heb].
    destruct (load_cases wb Hib) as (l & c' & _ & [(s' & Hl & He & _)|(Hl & _)]); rewrite Hl in Hload; [|discriminate].
    injection Hload as <- _. congruence. }
  rewrite Hd in Hres3. destruct (bind_run_inv _ _ _ _ _ Hres3) as ([] & we & Hsave & Hres4). clear Hres3.
  destruct (load_save_state w wb wd we s1 _ Hinv Hpend Hcb Hload Hsave) as (_ & Hl & Hc & _).
  destruct (bind_run_inv _ _ _ _ _ Hres4) as ([] & wf & Hclear & Hstage). clear Hres4.
  unfold clearPauseState in Hclear.
  destruct (setString_cases trafficOverviewPauseStateKey "{}" we) as (l & [E|E]); rewrite E in Hclear; [|discriminate].
  injection Hclear as <-.
  assert (calm (setSettings (<[trafficOverviewPauseStateKey:="{}"]> (wSettings we)) (setFaults l we)) w2)
    as (E1 & _ & E3 & _) by (eapply calm_ok; [intros; apply calm_stageSnapshot|exact Hstage]).
  split.
  - unfold notPaused. rewrite E3. cbn [wSettings setSettings]. rewrite lookup_insert_eq. vm_compute. reflexivity.
  - rewrite E1. cbn [wRuntime setSettings setFaults]. rewrite Hc. eauto.
Qed.

Lemma usage_after_resume joined p tag resetDay up down s :
  0 <= up <= max_i64 -> 0 <= down <= max_i64 ->
  0 <= snUp (pzSnapshot p) <= up -> 0 <= snAccumUp (pzSnapshot p) <= up ->
  0 <= snDown (pzSnapshot p) <= down -> 0 <= snAccumDown (pzSnapshot p) <= down ->
  usageOf (normalizeTrafficOverviewRuntimeState (resumedState joined p tag resetDay up down s)) up down =
  (snUp (pzSnapshot p), snDown (pzSnapshot p), snAccumUp (pzSnapshot p), snAccumDown (pzSnapshot p)).
Proof.
  intros. unfold usageOf, resumedState. simpl. rewrite !maxInt64_max.
  assert (forall c u, 0 <= u <= c -> c <= max_i64 ->
            nonNegativeDiff c (Z.max (nonNegativeDiff c u) 0) = u) as Hback.
  { intros c u Hu Hc. rewrite (nonNegativeDiff_le c u), nonNegativeDiff_le by lia. lia. }
  rewrite !Hback by lia. done.
Qed.

End Resets.

(** ** A codec, and runs on it

    Every value as the binary digits of its number. *)

Fixpoint digits (p : positive) : string :=
  match p with
  | xH => ""
  | xO p => String "0" (digits p)
  | xI p => String "1" (digits p)
  end.

Fixpoint ofDigits (s : string) : positive :=
  match s with
  | "" => xH
  | String c s => if Ascii.eqb c "1" then xI (ofDigits s) else xO (ofDigits s)
  end.

Lemma ofDigits_digits p : ofDigits (digits p) = p.
Proof. induction p; simpl; congruence. Qed.

Lemma digits_plain p : allc plain (digits p) = true.
Proof. by induction p. Qed.

Definition toText {A} `{Countable A} (a : A) : string := String "#" (digits (encode a)).
Definition ofText {A} `{Countable A} (s : string) : option A :=
  match s with "" => None | String _ s => decode (ofDigits s) end.

Lemma text_reads {A} `{Countable A} (a : A) : reads toText ofText a.
Proof.
  unfold reads, toText. rewrite trim_space_plain by apply (digits_plain (encode a)). split.
  - apply bool_decide_eq_false_2. intros [|]; discriminate.
  - simpl. by rewrite ofDigits_digits, decode_encode.
Qed.

(** A struct as its texts and its numbers. *)
Definition z_of_bool (b : bool) : Z := if b then 1 else 0.
Definition bool_of_z (z : Z) : bool := negb (z =? 0).

Lemma bool_of_z_of_bool b : bool_of_z (z_of_bool b) = b.
Proof. by destruct b. Qed.

Definition stateLists (s : trafficOverviewRuntimeState) : list string * list Z :=
  ([Interface s; PeriodTag s],
   [ManualBaseUp s; ManualBaseDown s; PeriodBaseUp s; PeriodBaseDown s; PeriodResetDay s; LastFullResetAt s;
    LastPeriodReset s; KernelOffsetUp s; KernelOffsetDown s; LastKernelUp s; LastKernelDown s]).
#[global] Instance state_countable : Countable trafficOverviewRuntimeState.
Proof.
  refine (inj_countable stateLists (fun l =>
    match l with
    | ([a; t], [b; c; d; e; f; g; h; i; j; k; m]) => Some (mkState a b c d e t f g h i j k m)
    | _ => None
    end) _).
  by intros [].
Defined.

Definition snapshotLists (s : trafficOverviewSnapshot) : list string * list Z :=
  ([snSource s; snInterface s],
   [z_of_bool (snAvailable s); snUp s; snDown s; snTotal s; snAccumUp s; snAccumDown s; snAccumTotal s; snUpdatedAt s]).
#[global] Instance snapshot_countable : Countable trafficOverviewSnapshot.
Proof.
  refine (inj_countable snapshotLists (fun l =>
    match l with
    | ([a; b], [c; d; e; f; g; h; i; j]) => Some (mkSnapshot a b (bool_of_z c) d e f g h i j)
    | _ => None
    end) _).
  by intros [? ? []].
Defined.

#[global] Instance pause_eq_dec : EqDecision trafficOverviewPauseState.
Proof. solve_decision. Defined.
Definition pauseLists (s : trafficOverviewPauseState) : list string * list Z * trafficOverviewSnapshot :=
  ([pzInterface s],
   [z_of_bool (pzPaused s); pzCurrentUp s; pzCurrentDown s; pzPeriodBaseUp s; pzPeriodBaseDown s;
    pzManualBaseUp s; pzManualBaseDown s; pzLastVnstatUp s; pzLastVnstatDown s; pzPausedAt s], pzSnapshot s).
#[global] Instance pause_countable : Countable trafficOverviewPauseState.
Proof.
  refine (inj_countable pauseLists (fun l =>
    match l with
    | ([a], [b; c; d; e; f; g; h; i; j; k], s) => Some (mkPause (bool_of_z b) a c d e f g h i j s k)
    | _ => None
    end) _).
  by intros [[]].
Defined.

#[global] Instance cap_eq_dec : EqDecision trafficOverviewCapState.
Proof. solve_decision. Defined.
Definition capTuple (s : trafficOverviewCapState) :=
  (capActive s, capLimitReached s, capAllowedPorts s, capUpdatedAt s).
#[global] Instance cap_countable : Countable trafficOverviewCapState.
Proof. refine (inj_countable' capTuple (fun '(a, b, c, d) => mkCap a b c d) _). by intros []. Defined.

(** Limits are written as whole numbers of GiB. *)
Definition demoCodec : OverviewCodec := {|
  marshalState := toText; unmarshalState := ofText;
  marshalSnapshot := toText; unmarshalSnapshot := ofText;
  marshalPause := toText; unmarshalPause := ofText;
  marshalCap := toText; unmarshalCap := ofText;
  parseFloat := fun s => float_of_Z <$> atoi s |}.

#[global] Instance demoCodec_laws : OverviewCodecLaws demoCodec.
Proof. split; intros; apply text_reads. Qed.

(** A machine whose interface has carried [n] bytes each way; vnstat lags behind. *)
Definition demoHost (v n : Z) : host fixedZone :=
  mkHost fixedZone true true true true ["eth0"] "auto" (Some (v, v)) (Some [("eth0", n, n)]) [22] UTC.

Definition demoWorld : world :=
  mkWorld ∅ emptyCache emptySnapCache None false None (mkNft false []) [] (1700000000 * second).

(** One operation, [d] seconds after the last one. *)
Definition after {A} (d : Z) (m : M A) (w : world) : world := (m (setNano (wNano w + d * second) w)).2.

(** The overview is read at 1000 and at 5000 bytes, thirty seconds apart. *)
Definition demoPolled : world :=
  after 31 (getTrafficOverviewUncached (codec := demoCodec) (demoHost 900 5000))
    (after 0 (getTrafficOverviewUncached (codec := demoCodec) (demoHost 900 1000)) demoWorld).

(** ... and again, ten seconds later, at 8000 bytes: the new counters are staged. *)
Definition demoStagedOverview : world :=
  after 10 (getTrafficOverviewUncached (codec := demoCodec) (demoHost 900 8000)) demoPolled.

(** What the overview shows at 8000 bytes: total of the period, accumulated total. *)
Definition shownAt (n : Z) (w : world) : Z * Z :=
  match (getTrafficOverviewUncached (codec := demoCodec) (demoHost 900 n) w).1 with
  | Ok o => (ovTotal o, ovAccumTotal o)
  | Err _ => (-1, -1)
  end.

Example demo_shown : shownAt 8000 demoPolled = (14000, 14000).
Proof. vm_compute. reflexivity. Qed.

(** A save while another state is staged: the staged one stays in force. *)
Lemma save_behind_pending {codec : OverviewCodec} s w w' :
  Loaded (wRuntime w) = true -> HasPending (wRuntime w) = true ->
  Pending (wRuntime w) <> normalizeTrafficOverviewRuntimeState s ->
  saveRuntimeState s w = (Ok tt, w') ->
  loadRuntimeState w' = (Ok (Pending (wRuntime w)), w').
Proof.
  intros Hl Hp Hne Hs. destruct (save_cases s w) as (l & [E|E]); rewrite E in Hs; [discriminate|].
  injection Hs as <-. rewrite load_loaded by done. unfold cachedState, cacheSaved. simpl.
  by rewrite Hp, bool_decide_eq_false_2.
Qed.

(** A reset of everything at 8000 bytes, five seconds later. *)
Definition demoReset (w : world) : res oerr unit * world :=
  ResetAllTrafficOverviewStats (codec := demoCodec) (demoHost 900 8000) (setNano (wNano w + 5 * second) w).


(** The same machine, its kernel counters unreadable. *)
Definition demoHostBlind (v : Z) : host fixedZone :=
  mkHost fixedZone true true true true ["eth0"] "auto" (Some (v, v)) None [22] UTC.

(** A period reset at 8000 bytes, with nothing staged. *)
Definition demoPeriodReset : world :=
  after 5 (ResetPeriodTrafficOverviewStats (codec := demoCodec) (demoHost 900 8000)) demoPolled.

(** One unreadable kernel counter while vnstat lags behind the baselines makes
    every baseline drop to vnstat's figure: 2000 bytes after a period reset
    the overview shows 16200 for the period. *)
Lemma kernel_failure_miscounts :
  shownAt 9000 demoPeriodReset = (2000, 16000) /\
  shownAt 9000 (after 5 (getTrafficOverviewUncached (codec := demoCodec) (demoHostBlind 900)) demoPeriodReset) =
    (16200, 16200).
Proof. split; vm_compute; reflexivity. Qed.

(** *** The theorems at these runs *)

Lemma cache_refines_register_witness :
  exists c, cellRuns [CLoad; CStage (mkState "eth0" 1 2 3 4 "" 0 5 6 7 8 9 10) true; CRestart; CLoad]
              (mkCell zeroState zeroState)
              (runCaches (codec := demoCodec)
                 [CLoad; CStage (mkState "eth0" 1 2 3 4 "" 0 5 6 7 8 9 10) true; CRestart; CLoad] demoWorld).1 c /\
            mem c = mkState "eth0" 1 2 3 4 "" 0 5 6 7 8 9 10.
Proof.
  destruct (cache_refines_register (codec := demoCodec)
    [CLoad; CStage (mkState "eth0" 1 2 3 4 "" 0 5 6 7 8 9 10) true; CRestart; CLoad] demoWorld zeroState)
    as (c & Hr & Hc).
  - reflexivity.
  - vm_compute. reflexivity.
  - repeat constructor; vm_compute; reflexivity.
  - exists c. split; [exact Hr|]. vm_compute in Hc. injection Hc as <-. reflexivity.
Defined.

Lemma cacheInv_demo {codec : OverviewCodec} w d p t :
  wRuntime w = mkCache true true d false p t -> stored w = Some d -> cacheInv w.
Proof.
  intros E Hs. constructor; rewrite ?E; cbn [Loaded HasPersisted HasPending Persisted]; rewrite ?Hs; try discriminate; eauto.
Qed.

Lemma demoPolled_inv t : cacheInv (codec := demoCodec) (setNano t demoPolled).
Proof. eapply cacheInv_demo; vm_compute; reflexivity. Qed.


(** Paused at 8000 bytes; 5000 more bytes pass; resumed. *)
Definition demoPaused : world :=
  (pauseTrafficOverviewAccounting (codec := demoCodec) (demoHost 900 8000) demoPolled).2.
Definition demoResumed : world :=
  (resumeTrafficOverviewAccounting (codec := demoCodec) (demoHost 900 13000) demoPaused).2.

