(* ===== verification/NetIP.v ===== *)
(** * Addresses and prefixes of Go's [net/netip]

    What the GeoIP code uses of the package: addresses of both families,
    [Unmap], prefixes and their masking, and the parsers and printers
    [ParseAddr], [ParsePrefix], [Addr.String] and [Prefix.String].  An address
    is its family, its number and its zone.  The theorems relate the parsers
    to the printers: what [String] prints, [ParseAddr] and [ParsePrefix] read
    back. *)

From stdpp Require Import base list strings.
From Stdlib Require Import ZArith Lia Ascii.
From S2P Require Import Prelude GoStrings.

#[local] Open Scope Z_scope.

(** ** Numbers as digits, most significant first *)

Definition digitsVal (B : Z) (l : list Z) : Z := fold_left (fun acc d => acc * B + d) l 0.

Fixpoint digitsOf (B : Z) (n : nat) (v : Z) : list Z :=
  match n with
  | O => []
  | S n => digitsOf B n (v / B) ++ [v mod B]
  end.

(** ** Addresses *)

(** [netip.Addr], when it is valid: 32 or 128 bits and, for IPv6, a zone. *)
Record addr := mkAddr { aIs4 : bool; aVal : Z; aZone : string }.

#[export] Instance addr_eq_dec : EqDecision addr.
Proof. solve_decision. Defined.

Definition bitLen (is4 : bool) : Z := if is4 then 32 else 128.

Definition validAddr (a : addr) : Prop :=
  0 <= aVal a < 2 ^ bitLen (aIs4 a) /\ (aIs4 a = true -> aZone a = "").

Definition AddrFrom4 (raw : list Z) : addr := mkAddr true (digitsVal 256 raw) "".
Definition AddrFrom16 (raw : list Z) : addr := mkAddr false (digitsVal 256 raw) "".

Definition Is4In6 (a : addr) : bool := negb (aIs4 a) && (aVal a / 2 ^ 32 =? 65535).

Definition Unmap (a : addr) : addr :=
  if Is4In6 a then mkAddr true (aVal a mod 2 ^ 32) "" else a.

(** [Addr.Less] within one family; the code never compares across families
    after checking that both ends have the same one. *)
Definition addrLe (a b : addr) : bool := aVal a <=? aVal b.

(** ** Prefixes *)

Record prefix := mkPrefix { pAddr : addr; pBits : Z }.

#[export] Instance prefix_eq_dec : EqDecision prefix.
Proof. solve_decision. Defined.

Definition validPrefix (p : prefix) : Prop :=
  validAddr (pAddr p) /\ aZone (pAddr p) = "" /\ 0 <= pBits p <= bitLen (aIs4 (pAddr p)).

Definition hostBits (p : prefix) : Z := bitLen (aIs4 (pAddr p)) - pBits p.

Definition Masked (p : prefix) : prefix :=
  let size := 2 ^ hostBits p in
  mkPrefix (mkAddr (aIs4 (pAddr p)) (aVal (pAddr p) / size * size) "") (pBits p).

(** The addresses of a prefix. *)
Definition inPrefix (p : prefix) (a : addr) : Prop :=
  aIs4 a = aIs4 (pAddr p) /\ aZone a = "" /\
  aVal a / 2 ^ hostBits p = aVal (pAddr p) / 2 ^ hostBits p.

(** ** Parsing *)

(** [parseIPv4Fields]: [dot] is whether the previous byte was a dot or there
    is none. *)
Fixpoint parseIPv4Loop (s : string) (dot : bool) (digLen val : Z) (fields : list Z)
  : option (list Z) :=
  match s with
  | EmptyString => if (length fields <? 3)%nat then None else Some (fields ++ [val])
  | String c s' =>
      match digit_of c with
      | Some d =>
          if (digLen =? 1) && (val =? 0) then None
          else let val := val * 10 + d in
               if 255 <? val then None else parseIPv4Loop s' false (digLen + 1) val fields
      | None =>
          if Ascii.eqb c "." then
            if dot || String.eqb s' "" then None
            else if (length fields =? 3)%nat then None
            else parseIPv4Loop s' true 0 0 (fields ++ [val])
          else None
      end
  end.

Definition parseIPv4Fields (s : string) : option (list Z) := parseIPv4Loop s true 0 0 [].

Definition parseIPv4 (s : string) : option addr := AddrFrom4 <$> parseIPv4Fields s.

Definition hexVal (c : ascii) : option Z :=
  let n := Z.of_nat (nat_of_ascii c) in
  if (48 <=? n) && (n <=? 57) then Some (n - 48)
  else if (97 <=? n) && (n <=? 102) then Some (n - 97 + 10)
  else if (65 <=? n) && (n <=? 70) then Some (n - 65 + 10)
  else None.

(** The hexadecimal number at the front of [s]: how many digits, its value
    and what follows; [None] with a fifth digit. *)
Fixpoint hexField (s : string) (off acc : Z) : option (Z * Z * string) :=
  match s with
  | EmptyString => Some (off, acc, s)
  | String c s' =>
      match hexVal c with
      | None => Some (off, acc, s)
      | Some d =>
          let acc := acc * 16 + d in
          if (3 <? off) || (65535 <? acc) then None else hexField s' (off + 1) acc
      end
  end.

(** The loop of [parseIPv6], with [n] groups of the sixteen bytes left: the
    rest of the string, the bytes read and the place of the ellipsis. *)
Fixpoint parseIPv6Loop (n : nat) (s : string) (ip : list Z) (ellipsis : option nat)
  : option (string * list Z * option nat) :=
  match n with
  | O => Some (s, ip, ellipsis)
  | S n =>
      match hexField s 0 0 with
      | None => None
      | Some (off, acc, rest) =>
          if off =? 0 then None
          else if has_prefix rest "." then
            if bool_decide (ellipsis = None) && negb (length ip =? 12)%nat then None
            else if (16 <? length ip + 4)%nat then None
            else match parseIPv4Fields s with
                 | None => None
                 | Some fields => Some (EmptyString, ip ++ fields, ellipsis)
                 end
          else
            let ip := ip ++ [acc / 256; acc mod 256] in
            match rest with
            | EmptyString => Some (EmptyString, ip, ellipsis)
            | String c s1 =>
                if negb (Ascii.eqb c ":") then None
                else match s1 with
                     | EmptyString => None
                     | String c2 s2 =>
                         if Ascii.eqb c2 ":" then
                           match ellipsis with
                           | Some _ => None
                           | None =>
                               if String.eqb s2 "" then Some (EmptyString, ip, Some (length ip))
                               else parseIPv6Loop n s2 ip (Some (length ip))
                           end
                         else parseIPv6Loop n s1 ip ellipsis
                     end
            end
      end
  end.

(** After the loop: the whole string must be used, and the ellipsis stands
    for at least one group. *)
Definition expandIPv6 (r : string * list Z * option nat) : option (list Z) :=
  let '(s, ip, ellipsis) := r in
  if negb (String.eqb s "") then None
  else if (length ip <? 16)%nat then
    match ellipsis with
    | None => None
    | Some e => Some (take e ip ++ replicate (16 - length ip) 0 ++ drop e ip)
    end
  else match ellipsis with Some _ => None | None => Some ip end.

Definition parseIPv6 (s : string) : option addr :=
  let zoned := match split_first "%" s with
               | None => Some (s, EmptyString)
               | Some (s, zone) => if String.eqb zone "" then None else Some (s, zone)
               end in
  match zoned with
  | None => None
  | Some (s, zone) =>
      let withZone ip := mkAddr false (digitsVal 256 ip) zone in
      match strip_prefix "::" s with
      | Some s' =>
          if String.eqb s' "" then Some (withZone (replicate 16 0))
          else match parseIPv6Loop 8 s' [] (Some 0%nat) with
               | None => None
               | Some r => withZone <$> expandIPv6 r
               end
      | None =>
          match parseIPv6Loop 8 s [] None with
          | None => None
          | Some r => withZone <$> expandIPv6 r
          end
      end
  end.

(** The first dot, colon or percent sign decides the family. *)
Fixpoint addrFamily (s : string) : option ascii :=
  match s with
  | EmptyString => None
  | String c s => if Ascii.eqb c "." || Ascii.eqb c ":" || Ascii.eqb c "%" then Some c
                  else addrFamily s
  end.

Definition ParseAddr (s : string) : option addr :=
  match addrFamily s with
  | Some c => if Ascii.eqb c "." then parseIPv4 s
              else if Ascii.eqb c ":" then parseIPv6 s else None
  | None => None
  end.

(** The text before and after the last slash. *)
Definition splitLast (c : ascii) (s : string) : option (string * string) :=
  match split_first c (srev s) with
  | None => None
  | Some (after, before) => Some (srev before, srev after)
  end.

Definition ParsePrefix (s : string) : option prefix :=
  match splitLast "/" s with
  | None => None
  | Some (ipStr, bitsStr) =>
      match ParseAddr ipStr with
      | None => None
      | Some ip =>
          if negb (String.eqb (aZone ip) "") then None
          else
            let badBits := match bitsStr with
                           | String c (String _ _) => negb (is_digit c) || Ascii.eqb c "0"
                           | _ => false
                           end in
            if badBits then None
            else match atoi bitsStr with
                 | None => None
                 | Some bits =>
                     if (bits <? 0) || (bitLen (aIs4 ip) <? bits) then None
                     else Some (mkPrefix ip bits)
                 end
      end
  end.

(** ** Printing *)

Definition string4 (v : Z) : string := joinWith "." (itoa <$> digitsOf 256 4 v).

Definition hexDigit (d : Z) : ascii :=
  ascii_of_nat (Z.to_nat (if d <? 10 then 48 + d else 87 + d)).

Definition appendHex (x : Z) : string :=
  let digit k := String (hexDigit (x / 16 ^ k mod 16)) EmptyString in
  (if 4096 <=? x then digit 3 else "") +:+
  ((if 256 <=? x then digit 2 else "") +:+
   ((if 16 <=? x then digit 1 else "") +:+ digit 0)).

(** The number of zero groups from the front. *)
Fixpoint zeroRun (g : list Z) : nat :=
  match g with
  | x :: g => if x =? 0 then S (zeroRun g) else O
  | [] => O
  end.

(** The search for the longest run of two or more zero groups: at group [i],
    [best] is the run found so far. *)
Fixpoint longestRun (g : list Z) (i : nat) (best : option (nat * nat)) : option (nat * nat) :=
  match g with
  | [] => best
  | _ :: g' =>
      let l := zeroRun g in
      let len := match best with Some (a, b) => (b - a)%nat | None => O end in
      longestRun g' (S i)
        (if (2 <=? l)%nat && (len <? l)%nat then Some (i, (i + l)%nat) else best)
  end.

(** The printing loop at group [i]; [n] bounds the groups left. *)
Fixpoint string6Loop (n : nat) (g : list Z) (i : nat) (run : option (nat * nat)) : string :=
  match n with
  | O => ""
  | S n =>
      if (8 <=? i)%nat then ""
      else match run with
           | Some (a, b) =>
               if (i =? a)%nat then
                 "::" +:+ (if (8 <=? b)%nat then ""
                           else appendHex (nth b g 0) +:+ string6Loop n g (S b) run)
               else (if (0 <? i)%nat then ":" else "") +:+
                    (appendHex (nth i g 0) +:+ string6Loop n g (S i) run)
           | None => (if (0 <? i)%nat then ":" else "") +:+
                     (appendHex (nth i g 0) +:+ string6Loop n g (S i) run)
           end
  end.

Definition string6 (v : Z) : string :=
  let g := digitsOf 65536 8 v in string6Loop 8 g 0 (longestRun g 0 None).

Definition addrString (a : addr) : string :=
  if aIs4 a then string4 (aVal a)
  else
    let zone := if String.eqb (aZone a) "" then "" else "%" +:+ aZone a in
    if Is4In6 a then "::ffff:" +:+ string4 (aVal a mod 2 ^ 32) +:+ zone
    else string6 (aVal a) +:+ zone.

Definition prefixString (p : prefix) : string :=
  addrString (pAddr p) +:+ "/" +:+ itoa (pBits p).

(** ** Digits *)

Lemma digitsVal_snoc B l d : digitsVal B (l ++ [d]) = digitsVal B l * B + d.
Proof. unfold digitsVal. by rewrite fold_left_app. Qed.

Lemma length_digitsOf B n : forall v, length (digitsOf B n v) = n.
Proof. induction n; intros v; simpl; [done|]. rewrite length_app, IHn. simpl. lia. Qed.

Lemma digitsOf_range B n : 0 < B -> forall v, Forall (fun d => 0 <= d < B) (digitsOf B n v).
Proof.
  intros HB. induction n as [|n IH]; intros v; simpl; [constructor|].
  apply Forall_app. split; [apply IH|]. repeat constructor; apply Z.mod_pos_bound; lia.
Qed.

Lemma digitsVal_digitsOf B n : 0 < B -> forall v, 0 <= v < B ^ Z.of_nat n ->
  digitsVal B (digitsOf B n v) = v.
Proof.
  intros HB. induction n as [|n IH]; intros v Hv.
  - rewrite Z.pow_0_r in Hv. simpl. unfold digitsVal. simpl. lia.
  - simpl. rewrite digitsVal_snoc. rewrite Nat2Z.inj_succ, Z.pow_succ_r in Hv by lia.
    rewrite IH.
    + pose proof (Z.div_mod v B). lia.
    + split; [apply Z.div_pos; lia | apply Z.div_lt_upper_bound; lia].
Qed.

Lemma digitsVal_range B l : 0 < B -> Forall (fun d => 0 <= d < B) l ->
  0 <= digitsVal B l < B ^ Z.of_nat (length l).
Proof.
  intros HB. induction l as [|d l IH] using rev_ind; intros H.
  - unfold digitsVal. simpl. lia.
  - apply Forall_app in H as [Hl Hd]. apply Forall_cons in Hd as [Hd _]. apply IH in Hl.
    rewrite digitsVal_snoc, length_app. simpl.
    rewrite Nat2Z.inj_add, Z.pow_add_r by lia. change (B ^ Z.of_nat 1) with (B ^ 1).
    rewrite Z.pow_1_r. nia.
Qed.

(** The bytes of a list of 16-bit groups. *)
Definition groupBytes (g : list Z) : list Z := g ≫= (fun x => [x / 256; x mod 256]).

Lemma digitsVal_groupBytes g : digitsVal 256 (groupBytes g) = digitsVal 65536 g.
Proof.
  induction g as [|x g IH] using rev_ind; [done|]. unfold groupBytes in *.
  rewrite bind_app. simpl. rewrite digitsVal_snoc, <- IH.
  change ([x / 256; x mod 256]) with ([x / 256] ++ [x mod 256]).
  rewrite (assoc_L (++)), !digitsVal_snoc. pose proof (Z.div_mod x 256). lia.
Qed.

(** ** Decimal fields *)

(** Reading decimal digits only, as [parseIPv4Loop] does. *)
Fixpoint decField (s : string) (digLen val : Z) : option (Z * Z) :=
  match s with
  | EmptyString => Some (digLen, val)
  | String c s =>
      match digit_of c with
      | None => None
      | Some d =>
          if (digLen =? 1) && (val =? 0) then None
          else if 255 <? val * 10 + d then None else decField s (digLen + 1) (val * 10 + d)
      end
  end.

Lemma decField_loop t fields : forall s dot n v n' v',
  decField s n v = Some (n', v') -> s <> "" ->
  parseIPv4Loop (s +:+ t) dot n v fields = parseIPv4Loop t false n' v' fields.
Proof.
  induction s as [|c s IH]; intros dot n v n' v' H Hne; [done|]. simpl in *.
  destruct (digit_of c) as [d|]; [|done].
  destruct ((n =? 1) && (v =? 0)); [done|]. destruct (255 <? v * 10 + d); [done|].
  destruct s as [|c' s]; [by simplify_eq/= | by apply IH].
Qed.

(** A check of every number below a bound, counting up. *)
Fixpoint allBelow (f : Z -> bool) (n : nat) (z : Z) : bool :=
  match n with
  | O => true
  | S n => f z && allBelow f n (z + 1)
  end.

Lemma allBelow_spec f n : forall z, allBelow f n z = true ->
  forall x, z <= x < z + Z.of_nat n -> f x = true.
Proof.
  induction n as [|n IH]; intros z H x Hx; [lia|]. simpl in H. apply andb_prop in H as [Hz H].
  destruct (decide (x = z)) as [->|]; [done|]. apply (IH _ H). lia.
Qed.

Definition octetOk (z : Z) : bool :=
  match decField (itoa z) 0 0 with
  | Some (_, v) => (v =? z) && negb (String.eqb (itoa z) "")
  | None => false
  end.

Lemma octets_ok : allBelow octetOk (Z.to_nat 256) 0 = true.
Proof. vm_compute. reflexivity. Qed.

Lemma octet_loop z t dot fields : 0 <= z < 256 -> exists n,
  parseIPv4Loop (itoa z +:+ t) dot 0 0 fields = parseIPv4Loop t false n z fields.
Proof.
  intros Hz. pose proof (allBelow_spec _ _ _ octets_ok z ltac:(lia)) as H.
  unfold octetOk in H. destruct (decField (itoa z) 0 0) as [[n v]|] eqn:E; [|done].
  apply andb_prop in H as [H1 H2]. apply Z.eqb_eq in H1 as ->.
  exists n. eapply decField_loop; [done|]. intros H. by rewrite H in H2.
Qed.

Lemma digits4 v : exists a b c d, digitsOf 256 4 v = [a; b; c; d] /\
  0 <= a < 256 /\ 0 <= b < 256 /\ 0 <= c < 256 /\ 0 <= d < 256.
Proof.
  pose proof (digitsOf_range 256 4 ltac:(lia) v) as H. pose proof (length_digitsOf 256 4 v) as L.
  destruct (digitsOf 256 4 v) as [|a [|b [|c [|d [|? ?]]]]]; try done.
  rewrite !Forall_cons in H. exists a, b, c, d. tauto.
Qed.

Lemma itoa_not_empty z : 0 <= z -> itoa z <> "".
Proof. intros H. destruct (itoa_cons z H) as (c & s & -> & _). done. Qed.

Lemma eqb_itoa_app z t : 0 <= z -> String.eqb (itoa z +:+ t) "" = false.
Proof. intros H. destruct (itoa_cons z H) as (c & s & -> & _). done. Qed.

Lemma parse_string4 v : parseIPv4Fields (string4 v) = Some (digitsOf 256 4 v).
Proof.
  destruct (digits4 v) as (a & b & c & d & E & Ha & Hb & Hc & Hd).
  assert (Hlast : itoa d = itoa d +:+ "") by by rewrite sapp_nil_r.
  unfold string4, parseIPv4Fields. rewrite E.
  change (joinWith "." (itoa <$> [a; b; c; d])) with
    (itoa a +:+ String "." (itoa b +:+ String "." (itoa c +:+ String "." (itoa d)))).
  destruct (octet_loop a (String "." (itoa b +:+ String "." (itoa c +:+ String "." (itoa d))))
              true [] Ha) as [n1 ->].
  simpl. rewrite eqb_itoa_app by lia. simpl.
  destruct (octet_loop b (String "." (itoa c +:+ String "." (itoa d))) true [a] Hb) as [n2 ->].
  simpl. rewrite eqb_itoa_app by lia. simpl.
  destruct (octet_loop c (String "." (itoa d)) true [a; b] Hc) as [n3 ->].
  simpl. rewrite Hlast, eqb_itoa_app by lia. simpl.
  destruct (octet_loop d "" true [a; b; c] Hd) as [n4 ->]. done.
Qed.

(** ** Hexadecimal groups *)

(** Reading hexadecimal digits only, as [hexField] does. *)
Fixpoint hexOnly (s : string) (off acc : Z) : option (Z * Z) :=
  match s with
  | EmptyString => Some (off, acc)
  | String c s =>
      match hexVal c with
      | None => None
      | Some d => if (3 <? off) || (65535 <? acc * 16 + d) then None
                  else hexOnly s (off + 1) (acc * 16 + d)
      end
  end.

(** The text does not go on with a hexadecimal digit. *)
Definition stopsHex (t : string) : Prop :=
  match t with EmptyString => True | String c _ => hexVal c = None end.

Lemma hexField_stop t off acc : stopsHex t -> hexField t off acc = Some (off, acc, t).
Proof. destruct t as [|c t]; simpl; [done|]. by intros ->. Qed.

Lemma hexField_app t : forall s off acc off' acc',
  hexOnly s off acc = Some (off', acc') -> hexField (s +:+ t) off acc = hexField t off' acc'.
Proof.
  induction s as [|c s IH]; intros off acc off' acc' H; simpl in *; [by simplify_eq|].
  destruct (hexVal c) as [d|]; [|done]. destruct (_ || _); [done|]. by apply IH.
Qed.

Definition hexChar (c : ascii) : bool := match hexVal c with Some _ => true | None => false end.

Lemma hexDigits_ok :
  allBelow (fun d => bool_decide (hexVal (hexDigit d) = Some d)) (Z.to_nat 16) 0 = true.
Proof. vm_compute. reflexivity. Qed.

Lemma hexVal_hexDigit d : 0 <= d < 16 -> hexVal (hexDigit d) = Some d.
Proof.
  intros Hd. pose proof (allBelow_spec _ _ _ hexDigits_ok d ltac:(lia)) as H.
  by apply bool_decide_eq_true in H.
Qed.

Lemma hexOnly_digit d s off acc : 0 <= d < 16 -> off <= 3 -> acc * 16 + d <= 65535 ->
  hexOnly (String (hexDigit d) s) off acc = hexOnly s (off + 1) (acc * 16 + d).
Proof.
  intros Hd Ho Ha. simpl. rewrite hexVal_hexDigit by done.
  destruct (Z.ltb_spec 3 off), (Z.ltb_spec 65535 (acc * 16 + d)); try lia. done.
Qed.

Lemma sapp_nil_l (t : string) : "" +:+ t = t.
Proof. reflexivity. Qed.

Lemma group_ok g : 0 <= g < 65536 ->
  (exists off, hexOnly (appendHex g) 0 0 = Some (off, g) /\ off <> 0) /\
  allc hexChar (appendHex g) = true /\ appendHex g <> "".
Proof.
  intros Hg. unfold appendHex. change (16 ^ 3) with 4096. change (16 ^ 2) with 256.
  change (16 ^ 1) with 16. change (16 ^ 0) with 1. rewrite Z.div_1_r.
  assert (forall k, 0 <= k mod 16 < 16) as Hm by (intros; apply Z.mod_pos_bound; lia).
  assert (forall k, hexChar (hexDigit (k mod 16)) = true) as Hc
    by (intros; unfold hexChar; by rewrite hexVal_hexDigit).
  destruct (4096 <=? g) eqn:E3, (256 <=? g) eqn:E2, (16 <=? g) eqn:E1;
    rewrite ?Z.leb_le, ?Z.leb_gt in *; try lia;
    rewrite ?app_cons, ?sapp_nil_l;
    (split; [|split; [cbn [allc]; by rewrite ?Hc|done]]);
    rewrite !hexOnly_digit by (first [apply Hm | lia | Z.to_euclidean_division_equations; lia]);
    cbn [hexOnly];
    (eexists; split; [do 2 f_equal; Z.to_euclidean_division_equations; lia | lia]).
Qed.

Lemma group_field g t : 0 <= g < 65536 -> stopsHex t ->
  exists off, hexField (appendHex g +:+ t) 0 0 = Some (off, g, t) /\ off <> 0.
Proof.
  intros Hg Ht. destruct (group_ok g Hg) as [(off & H & Hoff) _].
  exists off. split; [|done]. rewrite (hexField_app _ _ _ _ _ _ H). by apply hexField_stop.
Qed.

(** A group starts with a hexadecimal digit, which is no separator. *)
Lemma group_cons g : 0 <= g < 65536 -> exists c s, appendHex g = String c s /\
  Ascii.eqb c ":" = false /\ hexChar c = true.
Proof.
  intros Hg. destruct (group_ok g Hg) as (_ & H & Hne).
  destruct (appendHex g) as [|c s]; [done|]. simpl in H. apply andb_prop in H as [Hc _].
  exists c, s. split_and!; [done| |done]. destruct (Ascii.eqb c ":") eqn:E; [|done].
  apply Ascii.eqb_eq in E as ->. done.
Qed.

Definition joinHex (l : list Z) : string := joinWith ":" (appendHex <$> l).

Definition groupsIn (l : list Z) : Prop := Forall (fun g => 0 <= g < 65536) l.

Lemma joinHex_cons g l : l <> [] -> joinHex (g :: l) = appendHex g +:+ String ":" (joinHex l).
Proof. destruct l; [done|]. reflexivity. Qed.

Lemma joinHex_head l : groupsIn l -> l <> [] ->
  exists c s, joinHex l = String c s /\ Ascii.eqb c ":" = false.
Proof.
  intros H Hne. destruct l as [|g l]; [done|]. apply Forall_cons in H as [Hg _].
  destruct (group_cons g Hg) as (c & s & E & Hc & _).
  destruct l as [|h l]; [unfold joinHex; simpl | rewrite joinHex_cons by done];
    rewrite E; eexists _, _; (split; [reflexivity|done]).
Qed.

Lemma parse_group_end n g ip e : 0 <= g < 65536 ->
  parseIPv6Loop (S n) (appendHex g) ip e = Some (EmptyString, ip ++ [g / 256; g mod 256], e).
Proof.
  intros Hg. simpl. destruct (group_field g "" Hg I) as (off & H & Hoff).
  rewrite sapp_nil_r in H. rewrite H. apply Z.eqb_neq in Hoff. by rewrite Hoff.
Qed.

Lemma parse_group_colon n g c s ip e : 0 <= g < 65536 -> Ascii.eqb c ":" = false ->
  parseIPv6Loop (S n) (appendHex g +:+ String ":" (String c s)) ip e =
  parseIPv6Loop n (String c s) (ip ++ [g / 256; g mod 256]) e.
Proof.
  intros Hg Hc. simpl.
  destruct (group_field g (String ":" (String c s)) Hg eq_refl) as (off & H & Hoff).
  rewrite H. apply Z.eqb_neq in Hoff. rewrite Hoff. simpl. by rewrite Hc.
Qed.

Lemma parse_group_ellipsis n g s ip : 0 <= g < 65536 ->
  let ip' := ip ++ [g / 256; g mod 256] in
  parseIPv6Loop (S n) (appendHex g +:+ String ":" (String ":" s)) ip None =
  if String.eqb s "" then Some (EmptyString, ip', Some (length ip'))
  else parseIPv6Loop n s ip' (Some (length ip')).
Proof.
  intros Hg. simpl.
  destruct (group_field g (String ":" (String ":" s)) Hg eq_refl) as (off & H & Hoff).
  rewrite H. apply Z.eqb_neq in Hoff. by rewrite Hoff.
Qed.

Lemma parse_groups : forall l n ip e, groupsIn l -> l <> [] -> (length l <= n)%nat ->
  parseIPv6Loop n (joinHex l) ip e = Some (EmptyString, ip ++ groupBytes l, e).
Proof.
  induction l as [|g l IH]; intros n ip e H Hne Hn; [done|].
  apply Forall_cons in H as [Hg H]. destruct n as [|n]; [simpl in Hn; lia|].
  destruct l as [|h l]; [by apply parse_group_end|].
  destruct (joinHex_head (h :: l) H ltac:(done)) as (c & s & E & Hc).
  rewrite joinHex_cons, E, parse_group_colon, <- E by done.
  rewrite IH by (first [done | simpl in *; lia]). by rewrite <- (assoc_L (++)).
Qed.

Lemma parse_groups_ellipsis : forall l m n ip, groupsIn l -> groupsIn m -> l <> [] ->
  (length l + length m <= n)%nat ->
  parseIPv6Loop n (joinHex l +:+ "::" +:+ joinHex m) ip None =
  Some (EmptyString, (ip ++ groupBytes l) ++ groupBytes m, Some (length (ip ++ groupBytes l))).
Proof.
  induction l as [|g l IH]; intros m n ip Hl Hm Hne Hn; [done|].
  apply Forall_cons in Hl as [Hg Hl]. destruct n as [|n]; [simpl in Hn; lia|].
  destruct l as [|h l].
  - change (joinHex [g] +:+ "::" +:+ joinHex m) with (appendHex g +:+ String ":" (String ":" (joinHex m))).
    rewrite parse_group_ellipsis by done. destruct m as [|x m].
    + simpl. by rewrite app_nil_r.
    + destruct (joinHex_head (x :: m) Hm ltac:(done)) as (c & s & E & Hc).
      rewrite E at 1. simpl String.eqb. cbn match.
      rewrite parse_groups by (first [done | simpl in *; lia]). done.
  - destruct (joinHex_head (h :: l) Hl ltac:(done)) as (c & s & E & Hc).
    rewrite joinHex_cons by done. rewrite sapp_assoc, app_cons, E, app_cons.
    rewrite parse_group_colon by done. rewrite <- app_cons, <- E.
    rewrite IH by (first [done | simpl in *; lia]). by rewrite <- (assoc_L (++) ip).
Qed.

(** ** The printed form of an IPv6 address *)

(** A run of at least two zero groups of [g]. *)
Definition runOk (g : list Z) (run : option (nat * nat)) : Prop :=
  match run with
  | None => True
  | Some (a, b) => (a + 2 <= b <= length g)%nat /\ forall k, (a <= k < b)%nat -> nth k g 0 = 0
  end.

Lemma zeroRun_spec g : (zeroRun g <= length g)%nat /\
  forall k, (k < zeroRun g)%nat -> nth k g 0 = 0.
Proof.
  induction g as [|x g [IH1 IH2]]; simpl; [split; [lia|]; intros; lia|].
  destruct (Z.eqb_spec x 0) as [->|]; simpl; [|split; [lia|]; intros; lia].
  split; [lia|]. intros [|k] Hk; [done|]. apply IH2. lia.
Qed.

Lemma longestRun_ok G : forall g i best, g = drop i G -> (i + length g = length G)%nat ->
  runOk G best -> runOk G (longestRun g i best).
Proof.
  induction g as [|x g IH]; intros i best Hg Hlen Hb; [done|]. cbn -[zeroRun Nat.leb Nat.ltb].
  destruct (zeroRun_spec (x :: g)) as [Hz1 Hz2].
  apply IH; [by rewrite <- Nat.add_1_r, <- drop_drop, <- Hg | simpl in Hlen; lia |].
  match goal with |- runOk G (if ?c then _ else _) => destruct c eqn:E; [|done] end.
  apply andb_prop in E as [E _]. apply Nat.leb_le in E.
  split; [lia|]. intros k Hk. specialize (Hz2 (k - i)%nat ltac:(lia)).
  rewrite Hg, nth_lookup, lookup_drop in Hz2. replace (i + (k - i))%nat with k in Hz2 by lia.
  by rewrite nth_lookup.
Qed.

Lemma zero_split g a b : runOk g (Some (a, b)) ->
  g = take a g ++ replicate (b - a) 0 ++ drop b g.
Proof.
  intros [Hab Hz]. rewrite <- (take_drop a g) at 1. f_equal.
  rewrite <- (take_drop (b - a) (drop a g)) at 1. rewrite drop_drop.
  replace (a + (b - a))%nat with b by lia. f_equal.
  apply list_eq. intros k. destruct (decide (k < b - a)%nat) as [Hk|Hk].
  - rewrite lookup_take_lt, lookup_drop, lookup_replicate_2 by lia.
    specialize (Hz (a + k)%nat ltac:(lia)). rewrite nth_lookup in Hz.
    destruct (g !! (a + k)%nat) eqn:E; simpl in Hz; [by subst|].
    apply lookup_ge_None in E. lia.
  - rewrite lookup_take_ge by lia. symmetry. apply lookup_ge_None. rewrite length_replicate. lia.
Qed.

(** What the printing loop produces. *)
Definition shape6 (g : list Z) (run : option (nat * nat)) : string :=
  match run with
  | None => joinHex g
  | Some (a, b) => joinHex (take a g) +:+ "::" +:+ joinHex (drop b g)
  end.

Lemma string6Loop_shape g run : length g = 8%nat -> runOk g run ->
  string6Loop 8 g 0 run = shape6 g run.
Proof.
  intros Hg Hr. do 9 (destruct g as [|? g]; try done).
  unfold shape6, joinHex. destruct run as [[a b]|].
  - destruct Hr as [Hr _]. simpl in Hr.
    do 9 (destruct a as [|a]; [do 9 (destruct b as [|b]; [try lia; cbn -[appendHex]; rewrite ?sapp_assoc, ?sapp_nil_r; reflexivity|]); lia|]). lia.
  - cbn -[appendHex]. by rewrite sapp_nil_r.
Qed.

(** ** Reading back what is printed *)

Definition char6 (c : ascii) : bool := hexChar c || Ascii.eqb c ":".

Lemma allc_joinHex l : groupsIn l -> allc char6 (joinHex l) = true.
Proof.
  induction l as [|g l IH]; intros H; [done|]. apply Forall_cons in H as [Hg H].
  assert (Hc : allc char6 (appendHex g) = true).
  { apply (allc_impl hexChar); [|by apply group_ok]. unfold char6. by intros c ->. }
  destruct l as [|h l]; [done|]. rewrite joinHex_cons, allc_app, Hc by done.
  simpl. by apply IH.
Qed.

Lemma groupsIn_digits v : groupsIn (digitsOf 65536 8 v).
Proof. by apply digitsOf_range. Qed.

Lemma allc_shape6 g run : groupsIn g -> allc char6 (shape6 g run) = true.
Proof.
  intros H. destruct run as [[a b]|]; [|by apply allc_joinHex]. simpl.
  rewrite allc_app, allc_joinHex by by apply Forall_take.
  simpl. apply allc_joinHex. by apply Forall_drop.
Qed.

Lemma addrFamily_group g t : 0 <= g < 65536 -> addrFamily (appendHex g +:+ t) = addrFamily t.
Proof.
  intros Hg. destruct (group_ok g Hg) as (_ & H & _). revert H. generalize (appendHex g).
  induction s as [|c s IH]; [done|]. intros H. simpl in H. apply andb_prop in H as [Hc H].
  rewrite app_cons. simpl. rewrite (IH H).
  destruct (Ascii.eqb_spec c "."), (Ascii.eqb_spec c ":"), (Ascii.eqb_spec c "%"); by subst.
Qed.

Lemma strip_colons_group g t : 0 <= g < 65536 -> strip_prefix "::" (appendHex g +:+ t) = None.
Proof.
  intros Hg. destruct (group_cons g Hg) as (c & s & -> & Hc & _). rewrite app_cons.
  cbn -[Ascii.eqb]. rewrite Ascii.eqb_sym, Hc. done.
Qed.

(** The printed text starts with an ellipsis or with a group and a colon. *)
Lemma shape6_start g run : length g = 8%nat -> groupsIn g -> runOk g run ->
  (exists b, run = Some (O, b)) \/
  exists x t, 0 <= x < 65536 /\ shape6 g run = appendHex x +:+ String ":" t.
Proof.
  intros Hg Hin Hr. destruct g as [|x [|y g]]; try done.
  apply Forall_cons in Hin as [Hx Hin]. destruct run as [[a b]|].
  - destruct a as [|a]; [by left; eexists|]. right. exists x. simpl.
    destruct a as [|a].
    + exists (String ":" (joinHex (drop b (x :: y :: g)))). done.
    + simpl take. rewrite joinHex_cons by done. eexists. split; [done|].
      rewrite sapp_assoc, app_cons. reflexivity.
  - right. exists x, (joinHex (y :: g)). split; [done|]. by apply joinHex_cons.
Qed.

Lemma shape6_family g run : length g = 8%nat -> groupsIn g -> runOk g run ->
  addrFamily (shape6 g run) = Some ":"%char.
Proof.
  intros Hg Hin Hr. destruct (shape6_start g run Hg Hin Hr) as [[b ->]|(x & t & Hx & ->)];
    [done|]. by rewrite addrFamily_group.
Qed.

Lemma length_groupBytes g : length (groupBytes g) = (2 * length g)%nat.
Proof.
  induction g as [|x g IH]; [done|].
  change (groupBytes (x :: g)) with (x / 256 :: x mod 256 :: groupBytes g). simpl length. lia.
Qed.

Lemma groupBytes_app g h : groupBytes (g ++ h) = groupBytes g ++ groupBytes h.
Proof. apply bind_app. Qed.

Lemma groupBytes_zeros n : groupBytes (replicate n 0) = replicate (2 * n) 0.
Proof.
  induction n as [|n IH]; [done|]. replace (2 * S n)%nat with (S (S (2 * n))) by lia.
  change (groupBytes (replicate (S n) 0)) with (0 :: 0 :: groupBytes (replicate n 0)).
  by rewrite IH.
Qed.

(** The ellipsis expands to the run that was left out. *)
Lemma expand_run g a b : length g = 8%nat -> runOk g (Some (a, b)) ->
  expandIPv6 (EmptyString, groupBytes (take a g) ++ groupBytes (drop b g),
              Some (length (groupBytes (take a g)))) = Some (groupBytes g).
Proof.
  intros Hg Hr. pose proof Hr as [Hab _]. rewrite Hg in Hab.
  assert (Hl : length (groupBytes (take a g) ++ groupBytes (drop b g)) = (16 - 2 * (b - a))%nat).
  { rewrite length_app, !length_groupBytes, length_take, length_drop, Hg. lia. }
  unfold expandIPv6. cbn -[Nat.ltb take drop replicate groupBytes length].
  destruct (Nat.ltb_spec (length (groupBytes (take a g) ++ groupBytes (drop b g))) 16); [|lia].
  rewrite Hl, take_app_length, drop_app_length. f_equal.
  rewrite (zero_split g a b Hr) at 3. rewrite !groupBytes_app, groupBytes_zeros.
  replace (16 - (16 - 2 * (b - a)))%nat with (2 * (b - a))%nat by lia. done.
Qed.

Lemma parse_shape6 g run : length g = 8%nat -> groupsIn g -> runOk g run ->
  parseIPv6 (shape6 g run) = Some (mkAddr false (digitsVal 65536 g) "").
Proof.
  intros Hg Hin Hr. unfold parseIPv6.
  rewrite split_first_none by (apply (allc_not_contains char6); [done | by apply allc_shape6]).
  rewrite <- digitsVal_groupBytes.
  assert (Ht : forall a, groupsIn (take a g)) by (intros; by apply Forall_take).
  assert (Hd : forall b, groupsIn (drop b g)) by (intros; by apply Forall_drop).
  destruct (shape6_start g run Hg Hin Hr) as [[b ->]|(x & t & Hx & E)].
  - pose proof (expand_run g 0 b Hg Hr) as He. pose proof Hr as [Hab _].
    change (shape6 g (Some (0%nat, b))) with ("::" +:+ joinHex (drop b g)).
    rewrite strip_prefix_of. destruct (decide (b = 8%nat)) as [->|Hb8].
    + pose proof (zero_split g 0 8 Hr) as Ez. rewrite (drop_ge g) in * by lia.
      simpl in Ez. by rewrite Ez.
    + assert (Hne : drop b g <> []).
      { intros Hn. apply (f_equal length) in Hn. rewrite length_drop in Hn. simpl in Hn. lia. }
      destruct (joinHex_head _ (Hd b) Hne) as (c & s & Ej & _).
      rewrite Ej at 1. simpl String.eqb. cbn match.
      rewrite parse_groups by (first [done | rewrite length_drop; lia]).
      rewrite take_0 in He. change (groupBytes []) with (@nil Z) in He. cbn match.
      change (@length Z []) with 0%nat in He. by rewrite He.
  - rewrite E, strip_colons_group, <- E by done. destruct run as [[a b]|].
    + pose proof Hr as [Hab _]. destruct (decide (a = 0%nat)) as [->|Ha].
      { change (shape6 g (Some (0%nat, b))) with (String ":" (String ":" (joinHex (drop b g)))) in E.
        destruct (group_cons x Hx) as (c & s & Ec & Hc & _). rewrite Ec, app_cons in E.
        inversion E; subst c. done. }
      assert (Hne : take a g <> []).
      { intros Hn. apply (f_equal length) in Hn. rewrite length_take in Hn. simpl in Hn. lia. }
      unfold shape6. rewrite parse_groups_ellipsis by
        (first [done | rewrite length_take, length_drop; lia]).
      rewrite app_nil_l, expand_run by done. done.
    + unfold shape6. rewrite parse_groups by (first [done | lia | by destruct g]).
      simpl. rewrite length_groupBytes, Hg. done.
Qed.

Lemma parse_string6 v : 0 <= v < 2 ^ 128 ->
  addrFamily (string6 v) = Some ":"%char /\ parseIPv6 (string6 v) = Some (mkAddr false v "") /\
  allc char6 (string6 v) = true.
Proof.
  intros Hv. set (g := digitsOf 65536 8 v).
  assert (Hlen : length g = 8%nat) by apply length_digitsOf.
  assert (Hin : groupsIn g) by apply groupsIn_digits.
  assert (Hr : runOk g (longestRun g 0 None)) by by apply longestRun_ok.
  unfold string6. fold g. rewrite string6Loop_shape by done.
  split_and!; [by apply shape6_family | | by apply allc_shape6].
  rewrite parse_shape6 by done. unfold g. by rewrite digitsVal_digitsOf by (simpl; lia).
Qed.

Definition octetHexOk (z : Z) : bool :=
  match hexOnly (itoa z) 0 0 with
  | Some (off, _) => negb (off =? 0)
  | None => false
  end.

Lemma octets_hex_ok : allBelow octetHexOk (Z.to_nat 256) 0 = true.
Proof. vm_compute. reflexivity. Qed.

(** The shape of a dotted quad, as the scans for a family and for a group see
    it. *)
Lemma string4_dot v : exists z t, 0 <= z < 256 /\ string4 v = itoa z +:+ String "." t.
Proof.
  destruct (digits4 v) as (a & b & c & d & E & Ha & _). unfold string4. rewrite E.
  exists a, (itoa b +:+ String "." (itoa c +:+ String "." (itoa d))). done.
Qed.

Definition char4 (c : ascii) : bool := is_digit c || Ascii.eqb c ".".

Lemma allc_string4 v : allc char4 (string4 v) = true.
Proof.
  destruct (digits4 v) as (a & b & c & d & E & Ha & Hb & Hc & Hd). unfold string4. rewrite E.
  change (joinWith "." (itoa <$> [a; b; c; d])) with
    (itoa a +:+ String "." (itoa b +:+ String "." (itoa c +:+ String "." (itoa d)))).
  assert (H : forall z, 0 <= z -> allc char4 (itoa z) = true).
  { intros z Hz. apply (allc_impl is_digit); [|by apply itoa_all_digits]. unfold char4. by intros x ->. }
  repeat (rewrite allc_app, H by lia; simpl). apply H. lia.
Qed.

Lemma addrFamily_digits s t : allc is_digit s = true -> addrFamily (s +:+ t) = addrFamily t.
Proof.
  induction s as [|c s IH]; [done|]. intros H. simpl in H. apply andb_prop in H as [Hc H].
  rewrite app_cons. simpl. rewrite (IH H).
  destruct (Ascii.eqb_spec c "."), (Ascii.eqb_spec c ":"), (Ascii.eqb_spec c "%"); by subst.
Qed.

Lemma string4_family v : addrFamily (string4 v) = Some "."%char.
Proof.
  destruct (string4_dot v) as (z & t & Hz & ->).
  by rewrite addrFamily_digits by (apply itoa_all_digits; lia).
Qed.

Lemma string4_field v : exists off acc t,
  hexField (string4 v) 0 0 = Some (off, acc, String "." t) /\ off <> 0.
Proof.
  destruct (string4_dot v) as (z & t & Hz & ->).
  pose proof (allBelow_spec _ _ _ octets_hex_ok z ltac:(lia)) as H. unfold octetHexOk in H.
  destruct (hexOnly (itoa z) 0 0) as [[off acc]|] eqn:E; [|done].
  exists off, acc, t. rewrite (hexField_app _ _ _ _ _ _ E), hexField_stop by done.
  split; [done|]. destruct (Z.eqb_spec off 0); done.
Qed.

Lemma parse_mapped v : 0 <= v < 2 ^ 32 ->
  parseIPv6 ("::ffff:" +:+ string4 v) = Some (mkAddr false (65535 * 2 ^ 32 + v) "").
Proof.
  intros Hv. destruct (string4_dot v) as (z & t & Hz & Es).
  destruct (itoa_cons z ltac:(lia)) as (c & s & Ez & Hc). rewrite Ez, app_cons in Es.
  assert (Hcolon : Ascii.eqb c ":" = false).
  { destruct (Ascii.eqb_spec c ":"); [|done]. subst c. by destruct Hc. }
  change ("::ffff:" +:+ string4 v) with ("::" +:+ (appendHex 65535 +:+ String ":" (string4 v))).
  unfold parseIPv6. rewrite split_first_none.
  2:{ change (appendHex 65535 +:+ String ":" (string4 v)) with ("ffff:" +:+ string4 v).
      rewrite !containsByte_app, (allc_not_contains char4 "%" (string4 v)); [done|done|].
      apply allc_string4. }
  rewrite strip_prefix_of. cbn match. change (String.eqb (appendHex 65535 +:+ _) "") with false.
  cbn match. rewrite Es, parse_group_colon, <- Es by done.
  destruct (string4_field v) as (off & acc & t' & Hf & Hoff).
  cbn -[hexField parseIPv4Fields expandIPv6 digitsVal Z.eqb string4]. rewrite Hf, parse_string4.
  apply Z.eqb_neq in Hoff. rewrite Hoff.
  pose proof (digitsVal_digitsOf 256 4 ltac:(lia) v ltac:(simpl; lia)) as Hval.
  pose proof (length_digitsOf 256 4 v) as Hl.
  destruct (digitsOf 256 4 v) as [|d1 [|d2 [|d3 [|d4 [|? ?]]]]]; try done.
  cbn -[digitsVal Z.mul Z.add]. do 2 f_equal. rewrite <- Hval.
  unfold digitsVal. cbn [fold_left]. change (65535 / 256) with 255.
  change (65535 mod 256) with 255. change (2 ^ 32) with 4294967296. ring.
Qed.

Lemma ParseAddr_String a : validAddr a -> aZone a = "" -> ParseAddr (addrString a) = Some a.
Proof.
  destruct a as [is4 v zone]. intros [Hv _] Hz. simpl in *. subst zone.
  unfold ParseAddr, addrString. simpl aIs4. simpl aVal. simpl aZone. destruct is4; simpl in Hv.
  - rewrite string4_family. change (Ascii.eqb "." ".") with true. cbn match.
    unfold parseIPv4. rewrite parse_string4. cbn [fmap option_fmap option_map].
    unfold AddrFrom4. by rewrite digitsVal_digitsOf by (simpl; lia).
  - change (if String.eqb "" "" then "" else "%" +:+ "") with "". rewrite !sapp_nil_r.
    unfold Is4In6. cbn [aIs4 aVal negb andb].
    destruct (Z.eqb_spec (v / 2 ^ 32) 65535) as [E|_].
    + change (addrFamily ("::ffff:" +:+ string4 (v mod 2 ^ 32))) with (Some ":"%char).
      cbn -[parseIPv6 string4 Z.modulo String.append Z.pow].
      rewrite parse_mapped by (apply Z.mod_pos_bound; lia).
      pose proof (Z.div_mod v (2 ^ 32)). do 2 f_equal. lia.
    + destruct (parse_string6 v Hv) as (-> & H & _). exact H.
Qed.

Definition bitsOk (n : Z) : bool :=
  match itoa n with
  | String c (String _ _) => is_digit c && negb (Ascii.eqb c "0")
  | _ => true
  end.

Lemma bits_ok : allBelow bitsOk (Z.to_nat 129) 0 = true.
Proof. vm_compute. reflexivity. Qed.

Lemma splitLast_app s t : containsByte "/" t = false ->
  splitLast "/" (s +:+ "/" +:+ t) = Some (s, t).
Proof.
  intros Ht. unfold splitLast.
  replace (srev (s +:+ "/" +:+ t)) with (srev t +:+ String "/" (srev s)).
  - rewrite split_first_app, !srev_involutive; [done|].
    apply negb_true_iff. rewrite <- allc_no. apply allc_srev. by rewrite allc_no, Ht.
  - rewrite !srev_app, sapp_assoc. reflexivity.
Qed.

(** Printing a prefix and parsing the text gives the prefix back, for every
    valid IPv4 and IPv6 prefix: with and without an ellipsis, and for the
    dotted form of an IPv4-mapped address. *)
Theorem ParsePrefix_String (p : prefix) :
  validPrefix p -> ParsePrefix (prefixString p) = Some p.
Proof.
  destruct p as [a bits]. intros (Ha & Hz & Hb). simpl in *. unfold ParsePrefix, prefixString.
  simpl pAddr. simpl pBits.
  assert (Hb' : 0 <= bits <= 128) by (destruct (aIs4 a); simpl in Hb; lia).
  rewrite splitLast_app.
  2:{ apply (allc_not_contains is_digit); [done | apply itoa_all_digits; lia]. }
  rewrite ParseAddr_String, Hz by done. simpl String.eqb. cbn [negb].
  pose proof (allBelow_spec _ _ _ bits_ok bits ltac:(lia)) as H. unfold bitsOk in H.
  rewrite atoi_itoa by (unfold max_i64; lia).
  match goal with |- (if ?c then _ else _) = _ => replace c with false end.
  - destruct (Z.ltb_spec bits 0); [lia|]. destruct (Z.ltb_spec (bitLen (aIs4 a)) bits); [lia|done].
  - destruct (itoa bits) as [|c [|c' s]]; try done.
    apply andb_prop in H as [-> H]. by apply negb_true_iff in H as ->.
Qed.

(** A printed prefix has no blanks and exactly the slash that [ParsePrefix]
    splits at. *)
Lemma prefixString_plain p : validPrefix p -> allc plain (prefixString p) = true.
Proof.
  destruct p as [[is4 v zone] bits]. intros ([Hv _] & Hz & Hb). simpl in *. subst zone.
  assert (Hbits : allc plain ("/" +:+ itoa bits) = true).
  { rewrite allc_app. simpl. apply (allc_impl is_digit); [apply digit_plain|].
    apply itoa_all_digits. lia. }
  assert (H4 : forall v, allc plain (string4 v) = true).
  { intros w. apply (allc_impl char4); [|apply allc_string4]. intros c. unfold char4.
    destruct (is_digit c) eqn:E; [intros _; by apply digit_plain|]. simpl.
    intros ->%Ascii.eqb_eq. done. }
  unfold prefixString. rewrite allc_app. cbn [pAddr pBits]. rewrite Hbits, andb_true_r.
  unfold addrString. cbn [aIs4 aVal aZone]. destruct is4; [apply H4|].
  change (if String.eqb "" "" then "" else "%" +:+ "") with "". rewrite !sapp_nil_r.
  destruct (Is4In6 _); [by rewrite allc_app, H4|].
  destruct (parse_string6 v Hv) as (_ & _ & H). apply (allc_impl char6); [|done].
  intros [[] [] [] [] [] [] [] []]; vm_compute; done.
Qed.

Lemma prefixString_slash p : containsByte "/" (prefixString p) = true.
Proof. unfold prefixString. rewrite !containsByte_app. simpl. by rewrite orb_true_r. Qed.

(** ** Masking *)

Lemma hostBits_nonneg p : validPrefix p -> 0 <= hostBits p.
Proof. intros (_ & _ & H). unfold hostBits. lia. Qed.

Lemma Masked_valid p : validPrefix p -> validPrefix (Masked p).
Proof.
  intros Hp. pose proof (hostBits_nonneg p Hp) as Hh. destruct Hp as ([Hv Hz4] & Hz & Hb).
  unfold validPrefix, validAddr, Masked. simpl. split_and!; try done; try lia.
  - assert (0 < 2 ^ hostBits p) by (apply Z.pow_pos_nonneg; lia).
    apply Z.mul_nonneg_nonneg; [apply Z.div_pos|]; lia.
  - assert (0 < 2 ^ hostBits p) by (apply Z.pow_pos_nonneg; lia).
    pose proof (Z.mul_div_le (aVal (pAddr p)) (2 ^ hostBits p)). lia.
Qed.

Lemma Masked_in p a : validPrefix p -> inPrefix (Masked p) a <-> inPrefix p a.
Proof.
  intros Hp. pose proof (hostBits_nonneg p Hp) as Hh.
  assert (0 < 2 ^ hostBits p) by (apply Z.pow_pos_nonneg; lia).
  unfold inPrefix. change (hostBits (Masked p)) with (hostBits p). simpl.
  by rewrite Z.div_mul by lia.
Qed.
