(* ===== verification/GeoParser.v ===== *)
(** * The GeoIP rule-set parsers

    [src/service/firewall_geoip_parser.go]: the parsers of the four formats
    the panel downloads for its country rules (sing-box SRS, mihomo MRS, JSON
    and text), their resource budget, and the lists of prefixes they produce.

    The set builder of [go4.org/netipx] is the class [IPSetLib]; the
    decompressors, the streaming JSON decoder, SHA-256 and [url.Parse] are the
    class [GeoEnv].  A parser threads the reader, the builder and the budget;
    it keeps them also when it fails, so that the bounds hold on every path.
    The recursion of the SRS parser is structural in the levels the depth
    check leaves, the loops in the counts read from the file; the item loop
    takes one unit of fuel per byte. *)

From stdpp Require Import base gmap list strings.
From Stdlib Require Import ZArith Lia Ascii.
From S2P Require Import Prelude GoStrings NetIP.

#[local] Open Scope Z_scope.

(** ** Constants *)

Definition firewallGeoMaxCompressedRuleCount : Z := 2 * 1000 * 1000.
Definition firewallGeoMaxLogicalRuleCount : Z := 2 * 1000 * 1000.
Definition firewallGeoMaxIPSetRanges : Z := 2 * 1000 * 1000.
Definition firewallGeoMaxTotalIPSetRanges : Z := 2 * 1000 * 1000.
Definition firewallGeoMaxDecodedBytes : Z := 10 * 1024 * 1024 * 1024.
Definition firewallGeoMaxSRSDepth : Z := 64.
Definition firewallGeoMaxJSONDepth : Z := 512.
Definition firewallGeoMaxJSONCIDRsPerRule : Z := 2 * 1000 * 1000.
Definition firewallGeoMaxJSONCIDRsTotal : Z := 2 * 1000 * 1000.
Definition firewallGeoMaxJSONBytes : Z := 1 * 1024 * 1024 * 1024.
Definition firewallGeoMaxExpandedPrefixCount : Z := 2 * 1000 * 1000.
Definition firewallGeoMaxJSONRuleCount : Z := 100000.
Definition firewallGeoMaxPrefixCount : Z := 1 * 1000 * 1000.

(** [iota] counts the specifications of a constant block from zero, and the
    block of the item types opens with the magic string: the first item type
    is one. *)
Definition srsItemIota : Z := 1.
Definition firewallGeoSRSRuleItemQueryType : Z := srsItemIota.
Definition firewallGeoSRSRuleItemNetwork : Z := srsItemIota + 1.
Definition firewallGeoSRSRuleItemDomain : Z := srsItemIota + 2.
Definition firewallGeoSRSRuleItemDomainKeyword : Z := srsItemIota + 3.
Definition firewallGeoSRSRuleItemDomainRegex : Z := srsItemIota + 4.
Definition firewallGeoSRSRuleItemSourceIPCIDR : Z := srsItemIota + 5.
Definition firewallGeoSRSRuleItemIPCIDR : Z := srsItemIota + 6.
Definition firewallGeoSRSRuleItemFinal : Z := 255.

Definition firewallGeoSRSMagic : list Z := [83; 82; 83].
Definition firewallGeoMRSMagic : list Z := [77; 82; 83; 1].

Inductive geoFormat := FormatSRS | FormatMRS | FormatJSON | FormatTXT.

(** ** Errors *)

Inductive geoErr :=
| ErrEOF | ErrUnexpectedEOF | ErrDecode | ErrOverflow | ErrJSON
| ErrTotalRanges | ErrInvalidRange | ErrExpansion
| ErrJSONNesting | ErrJSONRules | ErrJSONCIDRs
| ErrSRSMagic | ErrSRSVersion (v : Z) | ErrSRSRuleCount | ErrSRSNesting
| ErrSRSRuleType (t : Z) | ErrSRSItem (t : Z) | ErrSRSMode (m : Z) | ErrSRSLogicalCount
| ErrSRSInvert | ErrIPSetVersion (v : Z) | ErrIPSetRanges | ErrIPLength (n : Z)
| ErrSRSAt (index : Z) (e : geoErr) | ErrLogicalAt (index : Z) (e : geoErr)
| ErrMRSMagic | ErrMRSBehavior (b : Z) | ErrMRSCount | ErrMRSRuleCount
| ErrMRSExtra | ErrMRSExtraSize | ErrMRSVersion (v : Z) | ErrMRSLength
| ErrJSONSize | ErrJSONRoot | ErrJSONField | ErrJSONDuplicate | ErrJSONArray
| ErrJSONMissing | ErrJSONObject | ErrJSONInvert | ErrJSONLogicalField
| ErrJSONChildren | ErrJSONRuleField | ErrJSONCIDRCount | ErrJSONNoCIDR
| ErrJSONStrings | ErrJSONAt (index : Z) (e : geoErr) | ErrJSONChildAt (index : Z) (e : geoErr)
| ErrJSONKey (key : string) (e : geoErr)
| ErrTXTLine | ErrTXTPrefix (e : geoErr) | ErrTXTEmpty | ErrTooLong
| ErrParseAddr | ErrParsePrefix | ErrBuilder | ErrNoPrefixes | ErrPrefixCount
| ErrNoFuel
| ErrUnparsable (attempts : list (geoFormat * geoErr)).

(** ** What the parsers call *)

(** [go4.org/netipx]: the set builder, [IPSet] followed by [Prefixes], and the
    prefixes of a range. *)
Class IPSetLib := {
  ipBuilder : Type;
  ipsNew : ipBuilder;
  ipsAddPrefix : prefix -> ipBuilder -> ipBuilder;
  ipsAdd : addr -> ipBuilder -> ipBuilder;
  ipsPrefixes : ipBuilder -> option (list prefix);
  rangePrefixes : addr -> addr -> list prefix }.

(** A decoded JSON value; the fields of an object are those of the Go map, in
    the order it is iterated. *)
Inductive json :=
| JNull | JBool (b : bool) | JNumber (text : string) | JString (s : string)
| JArray (items : list json) | JObject (fields : list (string * json)).

(** What [decoder.Token] returns. *)
Inductive jtoken := TDelim (c : ascii) | TString (s : string) | TOther.

(** [decodeZlib] and [decodeZstd] give the error of opening the stream, or the
    bytes that can be read from it and the error that follows them. *)
Class GeoEnv := {
  decodeZlib : list Z -> geoErr + list Z * geoErr;
  decodeZstd : list Z -> geoErr + list Z * geoErr;
  jsonDecoder : Type;
  jsonNew : string -> jsonDecoder;
  jsonToken : jsonDecoder -> geoErr + jtoken * jsonDecoder;
  jsonMore : jsonDecoder -> bool;
  jsonDecode : jsonDecoder -> geoErr + json * jsonDecoder;
  jsonLeft : jsonDecoder -> nat;
  sha256Hex : string -> string;
  urlPath : string -> option string }.

(** ** The budget *)

Record firewallGeoParserBudget := mkBudget {
  ipSetRanges : Z; candidatePrefixes : Z; jsonRules : Z; jsonCIDRs : Z }.

Definition noBudget : firewallGeoParserBudget := mkBudget 0 0 0 0.

Definition addIPSetRanges (count : Z) (b : firewallGeoParserBudget)
  : geoErr + firewallGeoParserBudget :=
  if (firewallGeoMaxTotalIPSetRanges <? count)
     || (firewallGeoMaxTotalIPSetRanges - count <? ipSetRanges b)
  then inl ErrTotalRanges
  else inr (mkBudget (ipSetRanges b + count) (candidatePrefixes b) (jsonRules b) (jsonCIDRs b)).

Definition enterJSONRule (depth : Z) (b : firewallGeoParserBudget)
  : geoErr + firewallGeoParserBudget :=
  if firewallGeoMaxJSONDepth <? depth then inl ErrJSONNesting
  else if firewallGeoMaxJSONRuleCount <=? jsonRules b then inl ErrJSONRules
  else inr (mkBudget (ipSetRanges b) (candidatePrefixes b) (jsonRules b + 1) (jsonCIDRs b)).

Definition addJSONCIDR (b : firewallGeoParserBudget) : geoErr + firewallGeoParserBudget :=
  if firewallGeoMaxJSONCIDRsTotal <=? jsonCIDRs b then inl ErrJSONCIDRs
  else inr (mkBudget (ipSetRanges b) (candidatePrefixes b) (jsonRules b) (jsonCIDRs b + 1)).

(** ** Readers *)

(** A reader: the bytes left, how many of them a [LimitReader] lets through,
    and the error at their end. *)
Record reader := mkReader { rdBytes : list Z; rdLimit : option Z; rdEnd : geoErr }.

Definition limited (r : reader) : bool :=
  match rdLimit r with Some n => n <=? 0 | None => false end.

Definition ReadByte (r : reader) : (geoErr + Z) * reader :=
  if limited r then (inl ErrEOF, r)
  else match rdBytes r with
       | [] => (inl (rdEnd r), r)
       | b :: l => (inr b, mkReader l ((fun n => n - 1) <$> rdLimit r) (rdEnd r))
       end.

(** [io.ReadFull] of [n] bytes; [some] is whether bytes were read before. *)
Fixpoint readFullFrom (n : nat) (some : bool) (r : reader) : (geoErr + list Z) * reader :=
  match n with
  | O => (inr [], r)
  | S n =>
      match ReadByte r with
      | (inl e, r) => (inl (match e with
                            | ErrEOF => if some then ErrUnexpectedEOF else ErrEOF
                            | _ => e
                            end), r)
      | (inr b, r) =>
          match readFullFrom n true r with
          | (inl e, r) => (inl e, r)
          | (inr l, r) => (inr (b :: l), r)
          end
      end
  end.

Definition ReadFull (n : nat) (r : reader) := readFullFrom n false r.

(** [binary.ReadUvarint]: at byte [i], with [x] read and the shift [7 i]. *)
Fixpoint readUvarintFrom (n : nat) (i x : Z) (r : reader) : (geoErr + Z) * reader :=
  match n with
  | O => (inl ErrOverflow, r)
  | S n =>
      match ReadByte r with
      | (inl e, r) => (inl (match e with
                            | ErrEOF => if 0 <? i then ErrUnexpectedEOF else ErrEOF
                            | _ => e
                            end), r)
      | (inr b, r) =>
          if b <? 128 then
            if (i =? 9) && (1 <? b) then (inl ErrOverflow, r)
            else (inr (Z.lor x (Z.shiftl b (7 * i))), r)
          else readUvarintFrom n (i + 1) (Z.lor x (Z.shiftl (Z.land b 127) (7 * i))) r
      end
  end.

Definition ReadUvarint (r : reader) : (geoErr + Z) * reader := readUvarintFrom 10 0 0 r.

(** The value of eight bytes read as [uint64] and as [int64]. *)
Definition uint64Of (raw : list Z) : Z := digitsVal 256 raw mod 2 ^ 64.
Definition int64Of (raw : list Z) : Z := wrap64 (digitsVal 256 raw).

(** [io.CopyN(io.Discard, r, n)] for a positive [n]. *)
Definition discardN (n : Z) (r : reader) : (geoErr + unit) * reader :=
  let avail := match rdLimit r with
               | Some k => Z.min (Z.max 0 k) (Z.of_nat (length (rdBytes r)))
               | None => Z.of_nat (length (rdBytes r))
               end in
  let m := Z.min n avail in
  let r' := mkReader (drop (Z.to_nat m) (rdBytes r)) ((fun k => k - m) <$> rdLimit r) (rdEnd r) in
  if n <=? avail then (inr tt, r')
  else (inl (if limited r' then ErrEOF else rdEnd r'), r').

Definition firewallGeoAddrFromRawBytes (raw : list Z) : geoErr + addr :=
  if (length raw =? 4)%nat then inr (Unmap (AddrFrom4 raw))
  else if (length raw =? 16)%nat then inr (Unmap (AddrFrom16 raw))
  else inl (ErrIPLength (Z.of_nat (length raw))).

(** The result of a parse. *)
Record firewallGeoResolvedPrefixes := mkResolved {
  resIPv4 : list string; resIPv6 : list string; resPrefixCount : Z; resContentHash : string }.

Section Parsers.
Context `{IPSetLib, GeoEnv}.

(** ** The parser monad *)

Record pstate := mkPstate { psReader : reader; psBuilder : ipBuilder; psBudget : firewallGeoParserBudget }.

Definition P (A : Type) : Type := pstate -> (geoErr + A) * pstate.

Definition pret {A} (x : A) : P A := fun s => (inr x, s).
Definition pfail {A} (e : geoErr) : P A := fun s => (inl e, s).
Definition pbind {A B} (m : P A) (f : A -> P B) : P B := fun s =>
  match m s with
  | (inl e, s) => (inl e, s)
  | (inr x, s) => f x s
  end.

#[local] Notation "'let!' x ':=' m 'in' k" := (pbind m (fun x => k))
  (at level 200, x binder, right associativity).

(** A read from the stream. *)
Definition pread {A} (f : reader -> (geoErr + A) * reader) : P A := fun s =>
  let '(res, r) := f (psReader s) in (res, mkPstate r (psBuilder s) (psBudget s)).

(** A charge to the budget. *)
Definition pcharge (f : firewallGeoParserBudget -> geoErr + firewallGeoParserBudget) : P unit :=
  fun s => match f (psBudget s) with
           | inl e => (inl e, s)
           | inr b => (inr tt, mkPstate (psReader s) (psBuilder s) b)
           end.

Definition plift {A} (x : geoErr + A) : P A := fun s => (x, s).

(** An error of [m], wrapped. *)
Definition pwrap {A} (w : geoErr -> geoErr) (m : P A) : P A := fun s =>
  match m s with
  | (inl e, s) => (inl (w e), s)
  | r => r
  end.

(** [for index := 0; index < n; index++], with the error of a round wrapped
    with its index. *)
Fixpoint pfor (n : nat) (index : Z) (w : Z -> geoErr -> geoErr) (body : P unit) : P unit :=
  match n with
  | O => pret tt
  | S n => let! _ := pwrap (w index) body in pfor n (index + 1) w body
  end.

(** ** Adding to the set *)

Definition addPrefixes (ps : list prefix) (b : ipBuilder) : ipBuilder :=
  fold_left (fun b p => ipsAddPrefix (Masked p) b) ps b.

Definition addIPRange (from to : addr) : P unit := fun s =>
  let prefixes := rangePrefixes from to in
  let b := psBudget s in
  let n := Z.of_nat (length prefixes) in
  if n =? 0 then (inl ErrInvalidRange, s)
  else if (firewallGeoMaxExpandedPrefixCount <? n)
          || (firewallGeoMaxExpandedPrefixCount - n <? candidatePrefixes b)
  then (inl ErrExpansion, s)
  else (inr tt, mkPstate (psReader s) (addPrefixes prefixes (psBuilder s))
                  (mkBudget (ipSetRanges b) (candidatePrefixes b + n) (jsonRules b) (jsonCIDRs b))).

Definition addFirewallGeoPrefixString (raw : string) (builder : ipBuilder) : geoErr + ipBuilder :=
  let value := trim_space raw in
  if String.eqb value "" then inr builder
  else if containsByte "/" value then
    match ParsePrefix value with
    | None => inl ErrParsePrefix
    | Some p => inr (ipsAddPrefix (Masked p) builder)
    end
  else match ParseAddr value with
       | None => inl ErrParseAddr
       | Some a => inr (ipsAdd (Unmap a) builder)
       end.

Definition buildFirewallGeoResolvedPrefixes (builder : ipBuilder)
  : geoErr + firewallGeoResolvedPrefixes :=
  match ipsPrefixes builder with
  | None => inl ErrBuilder
  | Some prefixes =>
      let n := Z.of_nat (length prefixes) in
      if n =? 0 then inl ErrNoPrefixes
      else if firewallGeoMaxPrefixCount <? n then inl ErrPrefixCount
      else
        let text p := prefixString (Masked p) in
        let v4 := text <$> filter (fun p => aIs4 (pAddr p) = true) prefixes in
        let v6 := text <$> filter (fun p => aIs4 (pAddr p) = false) prefixes in
        let content := foldr (fun p acc => text p +:+ String "010" acc) "" prefixes in
        inr (mkResolved v4 v6 (Z.of_nat (length v4) + Z.of_nat (length v6)) (sha256Hex content))
  end.

(** ** SRS *)

Definition readFirewallGeoSRSAddr : P addr :=
  let! n := pread ReadUvarint in
  if negb (n =? 4) && negb (n =? 16) then pfail (ErrIPLength n)
  else let! raw := pread (ReadFull (Z.to_nat n)) in
       plift (firewallGeoAddrFromRawBytes raw).

Definition readFirewallGeoSRSRange : P unit :=
  let! from := readFirewallGeoSRSAddr in
  let! to := readFirewallGeoSRSAddr in
  addIPRange from to.

Definition readFirewallGeoSRSIPSet : P unit :=
  let! version := pread ReadByte in
  if negb (version =? 1) then pfail (ErrIPSetVersion version)
  else
    let! raw := pread (ReadFull 8) in
    let n := uint64Of raw in
    if firewallGeoMaxIPSetRanges <? n then pfail ErrIPSetRanges
    else
      let! _ := pcharge (addIPSetRanges n) in
      pfor (Z.to_nat n) 0 (fun _ e => e) readFirewallGeoSRSRange.

Definition readFirewallGeoSRSInvertFlag : P unit :=
  let! value := pread ReadByte in
  if negb (value =? 0) then pfail ErrSRSInvert else pret tt.

Fixpoint srsItems (fuel : nat) : P unit :=
  match fuel with
  | O => pfail ErrNoFuel
  | S fuel =>
      let! itemType := pread ReadByte in
      if (itemType =? firewallGeoSRSRuleItemSourceIPCIDR) || (itemType =? firewallGeoSRSRuleItemIPCIDR)
      then let! _ := readFirewallGeoSRSIPSet in srsItems fuel
      else if itemType =? firewallGeoSRSRuleItemFinal then readFirewallGeoSRSInvertFlag
      else pfail (ErrSRSItem itemType)
  end.

Definition parseFirewallGeoSRSDefaultRule : P unit := fun s =>
  srsItems (S (length (rdBytes (psReader s)))) s.

(** [child] is the parse of a rule at the next depth. *)
Definition parseFirewallGeoSRSLogicalRule (child : P unit) : P unit :=
  let! mode := pread ReadByte in
  if negb (mode =? 0) && negb (mode =? 1) then pfail (ErrSRSMode mode)
  else
    let! n := pread ReadUvarint in
    if firewallGeoMaxLogicalRuleCount <? n then pfail ErrSRSLogicalCount
    else
      let! _ := pfor (Z.to_nat n) 0 ErrLogicalAt child in
      readFirewallGeoSRSInvertFlag.

Fixpoint parseFirewallGeoSRSRule (levels : nat) (depth : Z) : P unit :=
  if firewallGeoMaxSRSDepth <? depth then pfail ErrSRSNesting
  else match levels with
       | O => pfail ErrNoFuel
       | S levels =>
           let! ruleType := pread ReadByte in
           if ruleType =? 0 then parseFirewallGeoSRSDefaultRule
           else if ruleType =? 1 then
             parseFirewallGeoSRSLogicalRule (parseFirewallGeoSRSRule levels (depth + 1))
           else pfail (ErrSRSRuleType ruleType)
       end.

(** One level for each depth the check lets through. *)
Definition srsLevels : nat := 65.

Definition openLimited (body : list Z * geoErr) : pstate :=
  mkPstate (mkReader body.1 (Some (firewallGeoMaxDecodedBytes + 1)) body.2) ipsNew noBudget.

(** The rules of the decompressed body. *)
Definition srsBody : P unit :=
  let! ruleCount := pread ReadUvarint in
  if firewallGeoMaxCompressedRuleCount <? ruleCount then pfail ErrSRSRuleCount
  else pfor (Z.to_nat ruleCount) 0 ErrSRSAt (parseFirewallGeoSRSRule srsLevels 0).

Definition parseFirewallGeoSRS (content : list Z) : geoErr + firewallGeoResolvedPrefixes :=
  match ReadFull 3 (mkReader content None ErrEOF) with
  | (inl e, _) => inl e
  | (inr magic, r) =>
      if negb (bool_decide (magic = firewallGeoSRSMagic)) then inl ErrSRSMagic
      else match ReadByte r with
           | (inl e, _) => inl e
           | (inr version, r) =>
               if (version <? 1) || (5 <? version) then inl (ErrSRSVersion version)
               else match decodeZlib (rdBytes r) with
                    | inl e => inl e
                    | inr body =>
                        match srsBody (openLimited body) with
                        | (inl e, _) => inl e
                        | (inr _, s) => buildFirewallGeoResolvedPrefixes (psBuilder s)
                        end
                    end
           end
  end.

(** ** MRS *)

Definition readMRSRange : P unit :=
  let! from16 := pread (ReadFull 16) in
  let! to16 := pread (ReadFull 16) in
  addIPRange (Unmap (AddrFrom16 from16)) (Unmap (AddrFrom16 to16)).

(** The count and the extra data, of which only the sizes are checked. *)
Definition mrsHeader : P unit :=
  let! magic := pread (ReadFull 4) in
  if negb (bool_decide (magic = firewallGeoMRSMagic)) then pfail ErrMRSMagic
  else
    let! behavior := pread (ReadFull 1) in
    if negb (bool_decide (behavior = [1])) then pfail (ErrMRSBehavior (digitsVal 256 behavior))
    else
      let! rawCount := pread (ReadFull 8) in
      let count := int64Of rawCount in
      if count <? 0 then pfail ErrMRSCount
      else if firewallGeoMaxCompressedRuleCount <? count then pfail ErrMRSRuleCount
      else
        let! rawExtra := pread (ReadFull 8) in
        let extraLength := int64Of rawExtra in
        if extraLength <? 0 then pfail ErrMRSExtra
        else if firewallGeoMaxDecodedBytes <? extraLength then pfail ErrMRSExtraSize
        else if 0 <? extraLength then pread (discardN extraLength) else pret tt.

Definition mrsBody : P unit :=
  let! _ := mrsHeader in
  let! version := pread (ReadFull 1) in
  if negb (bool_decide (version = [1])) then pfail (ErrMRSVersion (digitsVal 256 version))
  else
    let! rawLength := pread (ReadFull 8) in
    let n := int64Of rawLength in
    if n <? 1 then pfail ErrMRSLength
    else if firewallGeoMaxIPSetRanges <? n then pfail ErrIPSetRanges
    else
      let! _ := pcharge (addIPSetRanges n) in
      pfor (Z.to_nat n) 0 (fun _ e => e) readMRSRange.

Definition parseFirewallGeoMRS (content : list Z) : geoErr + firewallGeoResolvedPrefixes :=
  match decodeZstd content with
  | inl e => inl e
  | inr body =>
      match mrsBody (openLimited body) with
      | (inl e, _) => inl e
      | (inr _, s) => buildFirewallGeoResolvedPrefixes (psBuilder s)
      end
  end.

(** ** JSON *)

Definition jsonField (key : string) (fields : list (string * json)) : option json :=
  (fun f => f.2.2) <$> list_find (fun f => f.1 = key) fields.

Definition parseFirewallGeoJSONBool (raw : option json) : bool :=
  match raw with Some (JBool b) => b | _ => false end.

Fixpoint jsonStrings (items : list json) : geoErr + list string :=
  match items with
  | [] => inr []
  | JString str :: items =>
      let str := trim_space str in
      match jsonStrings items with
      | inl e => inl e
      | inr l => inr (if String.eqb str "" then l else str :: l)
      end
  | _ :: _ => inl ErrJSONStrings
  end.

Definition parseFirewallGeoJSONStringList (raw : option json) : geoErr + list string :=
  match raw with
  | None | Some JNull => inr []
  | Some (JString value) =>
      let value := trim_space value in
      if String.eqb value "" then inr [] else inr [value]
  | Some (JArray items) => jsonStrings items
  | Some _ => inl ErrJSONStrings
  end.

Definition paddString (value : string) : P unit := fun s =>
  match addFirewallGeoPrefixString value (psBuilder s) with
  | inl e => (inl e, s)
  | inr b => (inr tt, mkPstate (psReader s) b (psBudget s))
  end.

(** The values of one key; [collected] counts those of the rule. *)
Fixpoint addJSONValues (key : string) (values : list string) (collected : Z) : P Z :=
  match values with
  | [] => pret collected
  | value :: values =>
      if firewallGeoMaxJSONCIDRsPerRule <=? collected then pfail ErrJSONCIDRCount
      else
        let! _ := pcharge addJSONCIDR in
        let! _ := pwrap (ErrJSONKey key) (paddString value) in
        addJSONValues key values (collected + 1)
  end.

Definition jsonCIDRKey (fields : list (string * json)) (key : string) (collected : Z) : P Z :=
  let! values := pwrap (ErrJSONKey key) (plift (parseFirewallGeoJSONStringList (jsonField key fields))) in
  addJSONValues key values collected.

Definition jsonPlainRule (fields : list (string * json)) : P unit :=
  if negb (forallb (fun f => bool_decide (f.1 ∈ ["type"; "invert"; "ip_cidr"; "source_ip_cidr"])) fields)
  then pfail ErrJSONRuleField
  else
    let! collected := jsonCIDRKey fields "ip_cidr" 0 in
    let! collected := jsonCIDRKey fields "source_ip_cidr" collected in
    if collected =? 0 then pfail ErrJSONNoCIDR else pret tt.

Fixpoint parseFirewallGeoJSONRule (raw : json) (depth : Z) {struct raw} : P unit :=
  let! _ := pcharge (enterJSONRule depth) in
  match raw with
  | JObject fields =>
      if parseFirewallGeoJSONBool (jsonField "invert" fields) then pfail ErrJSONInvert
      else
        (fix children_of (rest : list (string * json)) : P unit :=
           match rest with
           | [] => jsonPlainRule fields
           | (key, rawChildren) :: rest =>
               if String.eqb key "rules" then
                 if negb (forallb (fun f => bool_decide (f.1 ∈ ["type"; "mode"; "rules"; "invert"])) fields)
                 then pfail ErrJSONLogicalField
                 else match rawChildren with
                      | JArray children =>
                          (fix each (l : list json) (index : Z) : P unit :=
                             match l with
                             | [] => pret tt
                             | child :: l =>
                                 let! _ := pwrap (ErrJSONChildAt index)
                                             (parseFirewallGeoJSONRule child (depth + 1)) in
                                 each l (index + 1)
                             end) children 0
                      | _ => pfail ErrJSONChildren
                      end
               else children_of rest
           end) fields
  | _ => pfail ErrJSONObject
  end.

(** The decoder of the whole document; its state is threaded beside the
    builder and the budget. *)
Definition pjson {A} (r : geoErr + A * jsonDecoder) : P (A * jsonDecoder) := plift r.

Fixpoint jsonRulesArray (fuel : nat) (index : Z) (d : jsonDecoder) : P jsonDecoder :=
  match fuel with
  | O => pfail ErrNoFuel
  | S fuel =>
      if jsonMore d then
        let! rd := pjson (jsonDecode d) in
        let! _ := pwrap (ErrJSONAt index) (parseFirewallGeoJSONRule rd.1 0) in
        jsonRulesArray fuel (index + 1) rd.2
      else pret d
  end.

Fixpoint jsonTopFields (fuel : nat) (foundRules : bool) (d : jsonDecoder) : P (bool * jsonDecoder) :=
  match fuel with
  | O => pfail ErrNoFuel
  | S fuel =>
      if jsonMore d then
        let! kd := pjson (jsonToken d) in
        match kd.1 with
        | TString key =>
            if String.eqb key "version" then
              let! vd := pjson (jsonDecode kd.2) in jsonTopFields fuel foundRules vd.2
            else if String.eqb key "rules" then
              if foundRules then pfail ErrJSONDuplicate
              else
                let! td := pjson (jsonToken kd.2) in
                match td.1 with
                | TDelim c =>
                    if Ascii.eqb c "[" then
                      let! d := jsonRulesArray (S (jsonLeft td.2)) 0 td.2 in
                      let! ed := pjson (jsonToken d) in
                      jsonTopFields fuel true ed.2
                    else pfail ErrJSONArray
                | _ => pfail ErrJSONArray
                end
            else pfail ErrJSONField
        | _ => pfail ErrJSONField
        end
      else pret (foundRules, d)
  end.

Definition jsonBody (d : jsonDecoder) : P unit :=
  let! td := pjson (jsonToken d) in
  match td.1 with
  | TDelim c =>
      if negb (Ascii.eqb c "{") then pfail ErrJSONRoot
      else
        let! fd := jsonTopFields (S (jsonLeft td.2)) false td.2 in
        let! _ := pjson (jsonToken fd.2) in
        if fd.1 then pret tt else pfail ErrJSONMissing
  | _ => pfail ErrJSONRoot
  end.

Definition parseFirewallGeoJSON (content : string) : geoErr + firewallGeoResolvedPrefixes :=
  if firewallGeoMaxJSONBytes <? Z.of_nat (String.length content) then inl ErrJSONSize
  else match jsonBody (jsonNew content) (mkPstate (mkReader [] None ErrEOF) ipsNew noBudget) with
       | (inl e, _) => inl e
       | (inr _, s) => buildFirewallGeoResolvedPrefixes (psBuilder s)
       end.

(** ** Text *)

(** [bufio.ScanLines] drops one carriage return at the end of a line. *)
Definition dropCR (line : string) : string := trim_suffix line (String "013" "").

(** A line the scanner's buffer of one megabyte cannot hold. *)
Definition lineTooLong (line : string) : bool := 1024 * 1024 <=? Z.of_nat (String.length line).

(** The characters outside ASCII that [strings.ToUpper] maps to ASCII: the
    dotless i and the long s. *)
Fixpoint upperASCII (s : string) : string :=
  match s with
  | String "196" (String "177" s) => String "I" (upperASCII s)
  | String "197" (String "191" s) => String "S" (upperASCII s)
  | String c s =>
      let n := nat_of_ascii c in
      String (if (97 <=? n)%nat && (n <=? 122)%nat then ascii_of_nat (n - 32) else c) (upperASCII s)
  | EmptyString => EmptyString
  end.

(** [strings.Trim] of double and single quotes. *)
Definition quotes : list string := [String "034" ""; String "039" ""].
Definition trimQuotes (s : string) : string :=
  srev (trim_left quotes (srev (trim_left quotes s))).

Inductive txtEntry := TxtSkip | TxtError | TxtPrefix (entry : string).

(** What one line of a text rule-set stands for. *)
Definition txtLine (line : string) : txtEntry :=
  let entry := trim_space line in
  if String.eqb entry "" || has_prefix entry "#" then TxtSkip
  else if String.eqb (to_lower entry) "payload:" then TxtSkip
  else
    let entry := if has_prefix entry "-" then trim_space (trim_prefix entry "-") else entry in
    let entry := trimQuotes entry in
    if String.eqb entry "" then TxtSkip
    else if containsByte "," entry then
      match splitOn "," entry with
      | keyword :: value :: _ =>
          if bool_decide (upperASCII (trim_space keyword) ∈
                            ["IP-CIDR"; "IP-CIDR6"; "SRC-IP-CIDR"; "SRC-IP-CIDR6"])
          then TxtPrefix (trim_space value) else TxtError
      | _ => TxtPrefix entry
      end
    else TxtPrefix entry.

Fixpoint txtLines (lines : list string) (count : Z) (builder : ipBuilder)
  : geoErr + Z * ipBuilder :=
  match lines with
  | [] | [""] => inr (count, builder)
  | line :: lines =>
      if lineTooLong line then inl ErrTooLong
      else match txtLine (dropCR line) with
           | TxtSkip => txtLines lines count builder
           | TxtError => inl ErrTXTLine
           | TxtPrefix entry =>
               match addFirewallGeoPrefixString entry builder with
               | inl e => inl (ErrTXTPrefix e)
               | inr builder => txtLines lines (count + 1) builder
               end
           end
  end.

Definition parseFirewallGeoTXT (content : string) : geoErr + firewallGeoResolvedPrefixes :=
  match txtLines (splitOn "010" content) 0 ipsNew with
  | inl e => inl e
  | inr (count, builder) =>
      if count =? 0 then inl ErrTXTEmpty else buildFirewallGeoResolvedPrefixes builder
  end.

(** ** Choosing the format *)

(** [path.Ext]: from the last dot of the last element. *)
Definition pathExt (p : string) : string :=
  match splitLast "/" p with
  | Some (_, base) => match splitLast "." base with Some (_, e) => "." +:+ e | None => "" end
  | None => match splitLast "." p with Some (_, e) => "." +:+ e | None => "" end
  end.

Definition detectFirewallGeoFormat (sourceName : string) : option geoFormat :=
  let name := trim_space sourceName in
  if String.eqb name "" then None
  else
    let name := match urlPath name with
                | Some p => if String.eqb p "" then name else p
                | None => name
                end in
    let ext := to_lower (pathExt name) in
    if String.eqb ext ".srs" then Some FormatSRS
    else if String.eqb ext ".mrs" then Some FormatMRS
    else if String.eqb ext ".json" then Some FormatJSON
    else if bool_decide (ext ∈ [".txt"; ".yaml"; ".yml"]) then Some FormatTXT
    else None.

Definition firewallGeoCandidateFormats (sourceName : string) : list geoFormat :=
  match detectFirewallGeoFormat sourceName with
  | Some FormatSRS => [FormatSRS; FormatJSON; FormatTXT]
  | Some FormatMRS => [FormatMRS; FormatTXT]
  | Some FormatJSON => [FormatJSON; FormatTXT]
  | Some FormatTXT => [FormatTXT; FormatJSON]
  | None => [FormatSRS; FormatMRS; FormatJSON; FormatTXT]
  end.

Definition bytesOf (s : string) : list Z :=
  (fun c => Z.of_nat (nat_of_ascii c)) <$> String.list_ascii_of_string s.

Definition parseFirewallGeoFormat (format : geoFormat) (content : string)
  : geoErr + firewallGeoResolvedPrefixes :=
  match format with
  | FormatSRS => parseFirewallGeoSRS (bytesOf content)
  | FormatMRS => parseFirewallGeoMRS (bytesOf content)
  | FormatJSON => parseFirewallGeoJSON content
  | FormatTXT => parseFirewallGeoTXT content
  end.

Fixpoint tryFormats (formats : list geoFormat) (content : string) (errs : list (geoFormat * geoErr))
  : geoErr + firewallGeoResolvedPrefixes :=
  match formats with
  | [] => inl (ErrUnparsable errs)
  | format :: formats =>
      match parseFirewallGeoFormat format content with
      | inr parsed => inr parsed
      | inl e => tryFormats formats content (errs ++ [(format, e)])
      end
  end.

Definition parseFirewallGeoRuleBytes (sourceName content : string)
  : geoErr + firewallGeoResolvedPrefixes :=
  tryFormats (firewallGeoCandidateFormats sourceName) content [].

(** [mergeFirewallGeoResolvedSets] of [firewall_geoip.go]. *)
Fixpoint addPrefixStrings (l : list string) (builder : ipBuilder) : geoErr + ipBuilder :=
  match l with
  | [] => inr builder
  | prefix :: l =>
      match addFirewallGeoPrefixString prefix builder with
      | inl e => inl e
      | inr builder => addPrefixStrings l builder
      end
  end.

Definition mergeFirewallGeoResolvedSets (items : list firewallGeoResolvedPrefixes)
  : geoErr + firewallGeoResolvedPrefixes :=
  match addPrefixStrings (items ≫= (fun item => resIPv4 item ++ resIPv6 item)) ipsNew with
  | inl e => inl e
  | inr builder => buildFirewallGeoResolvedPrefixes builder
  end.

End Parsers.
