(* ===== verification/GeoGrammar.v ===== *)
(** * A grammar of the binary GeoIP formats

    The promises of the set builder and of the decoders ([IPSetLaws],
    [GeoEnvLaws]), a reference grammar of the SRS and MRS bodies as languages
    of byte strings with the address ranges they add and the ranges they
    declare, and the proofs that the parsers of [GeoParser] accept exactly
    these languages within their budgets. *)

From stdpp Require Import base gmap list strings.
From Stdlib Require Import ZArith Lia Ascii.
From S2P Require Import Prelude GoStrings NetIP GeoParser.

#[local] Open Scope Z_scope.

(** ** What [netipx] promises *)

(** The addresses of a range; none when the ends differ in family or are in
    the wrong order. *)
Definition inRange (r : addr * addr) (a : addr) : Prop :=
  aIs4 a = aIs4 r.1 /\ aIs4 r.1 = aIs4 r.2 /\ aZone a = "" /\ aVal r.1 <= aVal a <= aVal r.2.

Definition plainAddr (a : addr) : Prop := validAddr a /\ aZone a = "".

Definition plainRange (r : addr * addr) : Prop := plainAddr r.1 /\ plainAddr r.2.

(** A range [netipx] calls valid. *)
Definition goodRange (r : addr * addr) : Prop := aIs4 r.1 = aIs4 r.2 /\ aVal r.1 <= aVal r.2.

Definition inPrefixes (ps : list prefix) (a : addr) : Prop := exists p, p ∈ ps /\ inPrefix p a.

(** The documented behaviour: [ipsMember] is the set built so far, [ipsOk]
    that no invalid value was added. *)
Class IPSetLaws `{IPSetLib} := {
  ipsMember : ipBuilder -> addr -> Prop;
  ipsOk : ipBuilder -> Prop;
  ips_new : ipsOk ipsNew /\ forall a, ~ ipsMember ipsNew a;
  ips_addPrefix p b : validPrefix p -> ipsOk b ->
    ipsOk (ipsAddPrefix p b) /\
    forall a, ipsMember (ipsAddPrefix p b) a <-> ipsMember b a \/ inPrefix p a;
  ips_add x b : plainAddr x -> ipsOk b ->
    ipsOk (ipsAdd x b) /\ forall a, ipsMember (ipsAdd x b) a <-> ipsMember b a \/ a = x;
  ips_prefixes b : ipsOk b -> exists qs, ipsPrefixes b = Some qs /\ Forall validPrefix qs /\
    forall a, inPrefixes qs a <-> ipsMember b a;
  range_valid f t : plainRange (f, t) -> Forall validPrefix (rangePrefixes f t);
  range_covers f t a : plainRange (f, t) -> inPrefixes (rangePrefixes f t) a <-> inRange (f, t) a }.

(** The decompressors give bytes and fail with an error of their own, and the
    JSON decoder consumes its input and fails with an error of its own. *)
Definition isByte (b : Z) : Prop := 0 <= b < 256.

Class GeoEnvLaws `{GeoEnv} := {
  zlib_bytes z body e : decodeZlib z = inr (body, e) -> Forall isByte body;
  zstd_bytes z body e : decodeZstd z = inr (body, e) -> Forall isByte body;
  zlib_ends z : match decodeZlib z with inl e => e = ErrDecode
                | inr (_, e) => e = ErrEOF \/ e = ErrDecode end;
  zstd_ends z : match decodeZstd z with inl e => e = ErrDecode
                | inr (_, e) => e = ErrEOF \/ e = ErrDecode end;
  token_error d e : jsonToken d = inl e -> e = ErrEOF \/ e = ErrJSON;
  decode_error d e : jsonDecode d = inl e -> e = ErrEOF \/ e = ErrJSON;
  token_consumes d t d' : jsonToken d = inr (t, d') -> (jsonLeft d' < jsonLeft d)%nat;
  decode_consumes d v d' : jsonDecode d = inr (v, d') -> (jsonLeft d' < jsonLeft d)%nat }.

(** ** Reading bytes *)

(** The reader [r'] is [r] after the bytes [c]. *)
Definition eats (c : list Z) (r r' : reader) : Prop :=
  rdBytes r = c ++ rdBytes r' /\ rdEnd r' = rdEnd r /\
  rdLimit r' = (fun n => n - Z.of_nat (length c)) <$> rdLimit r /\
  (c = [] \/ match rdLimit r with Some n => Z.of_nat (length c) <= n | None => True end).

Lemma eats_nil r : eats [] r r.
Proof.
  unfold eats. split_and!; [done|done| |by left]. destruct (rdLimit r); simpl; [|done].
  f_equal. lia.
Qed.

Lemma eats_nil_inv r r' : eats [] r r' -> r' = r.
Proof.
  intros (Hb & He & Hl & _). destruct r as [b l e], r' as [b' l' e']. simpl in *. subst.
  destruct l; simpl; [do 2 f_equal; lia|done].
Qed.

Lemma eats_app c d r r' r'' : eats c r r' -> eats d r' r'' -> eats (c ++ d) r r''.
Proof.
  intros (Hb & He & Hl & Hm) (Hb' & He' & Hl' & Hm'). unfold eats.
  rewrite Hb, Hb', He', He, Hl', Hl, length_app, (assoc_L (++)). split_and!; [done|done| |].
  - destruct (rdLimit r); simpl; [f_equal; lia|done].
  - rewrite Hl in Hm'. destruct (rdLimit r) as [n|]; simpl in *; [|by right].
    destruct d as [|x d]; [rewrite app_nil_r; destruct Hm as [->|]; [by left|right; simpl; lia]|].
    right. destruct Hm' as [|Hm']; [done|]. simpl in *. lia.
Qed.

Lemma eats_split c d r r'' : eats (c ++ d) r r'' ->
  exists r', eats c r r' /\ eats d r' r''.
Proof.
  intros (Hb & He & Hl & Hm).
  exists (mkReader (d ++ rdBytes r'') ((fun n => n - Z.of_nat (length c)) <$> rdLimit r) (rdEnd r)).
  unfold eats. simpl. rewrite length_app in *. split.
  - split_and!; [by rewrite Hb, (assoc_L (++))|done|done|].
    destruct c as [|x c]; [by left|]. right. destruct Hm as [Hm|Hm]; [done|].
    destruct (rdLimit r); simpl in *; lia || done.
  - split_and!; [done|done| |].
    + rewrite Hl. destruct (rdLimit r); simpl; [f_equal; lia|done].
    + destruct d as [|x d]; [by left|]. right. destruct Hm as [Hm|Hm]; [by destruct c|].
      destruct (rdLimit r); simpl in *; lia || done.
Qed.

Lemma eats_det c r r1 r2 : eats c r r1 -> eats c r r2 -> r1 = r2.
Proof.
  intros (Hb & He & Hl & _) (Hb' & He' & Hl' & _). destruct r1, r2. simpl in *. subst.
  rewrite Hb in Hb'. by apply app_inv_head in Hb' as ->.
Qed.

Lemma readByte_exact r b r' : ReadByte r = (inr b, r') <-> eats [b] r r'.
Proof.
  unfold ReadByte, limited, eats. destruct r as [l lim e], r' as [l' lim' e']. simpl. split.
  - intros H. destruct lim as [n|].
    + destruct (Z.leb_spec n 0); [done|]. destruct l; simplify_eq/=.
      split_and!; try done. right. lia.
    + destruct l; simplify_eq/=. split_and!; try done. by right.
  - intros (-> & -> & -> & [?|Hm]); [done|]. destruct lim as [n|]; simpl; [|done].
    destruct (Z.leb_spec n 0); [simpl in Hm; lia|done].
Qed.

Lemma readFullFrom_exact n : forall some r l r',
  readFullFrom n some r = (inr l, r') <-> length l = n /\ eats l r r'.
Proof.
  induction n as [|n IH]; intros some r l r'; simpl.
  - split.
    + intros. simplify_eq. split; [done|apply eats_nil].
    + intros [Hl He]. apply nil_length_inv in Hl as ->. by rewrite (eats_nil_inv _ _ He).
  - split.
    + destruct (ReadByte r) as [[e|b] r1] eqn:E; [done|].
      destruct (readFullFrom n true r1) as [[e|l1] r2] eqn:E1; [done|]. intros. simplify_eq.
      apply readByte_exact in E. apply IH in E1 as [Hl H1].
      split; [simpl; lia|]. by apply (eats_app [b] l1 r r1 r').
    + intros [Hl He]. destruct l as [|b l]; [done|].
      apply (eats_split [b] l) in He as (r1 & E1 & E2). apply readByte_exact in E1 as ->.
      assert (E3 : readFullFrom n true r1 = (inr l, r')) by (apply IH; simpl in Hl; split; [lia|done]).
      by rewrite E3.
Qed.

(** The encodings of a number as [ReadUvarint] reads them, from byte [i]:
    seven bits a byte, the least significant first, at most ten bytes and 64
    bits; padding is allowed. *)
Inductive uvarintFrom : Z -> list Z -> Z -> Prop :=
| uv_last i b : 0 <= b < 128 -> i <= 9 -> (i = 9 -> b <= 1) -> uvarintFrom i [b] b
| uv_more i b c n : 128 <= b < 256 -> i < 9 -> uvarintFrom (i + 1) c n ->
    uvarintFrom i (b :: c) (b - 128 + 128 * n).

Definition uvarintEnc : list Z -> Z -> Prop := uvarintFrom 0.

Lemma lor_shift x b k : 0 <= x < 2 ^ k -> 0 <= k -> Z.lor x (Z.shiftl b k) = x + b * 2 ^ k.
Proof.
  intros Hx Hk. rewrite <- Z.add_nocarry_lor; [by rewrite Z.shiftl_mul_pow2|].
  apply Z.bits_inj'. intros j Hj. rewrite Z.land_spec, Z.bits_0, Z.shiftl_spec by lia.
  destruct (Z.ltb_spec j k).
  - rewrite (Z.testbit_neg_r b) by lia. apply andb_false_r.
  - destruct (decide (x = 0)) as [->|]; [by rewrite Z.bits_0|].
    rewrite Z.bits_above_log2; [done|lia|]. apply Z.log2_lt_pow2; [lia|].
    eapply Z.lt_le_trans; [apply Hx|]. apply Z.pow_le_mono_r; lia.
Qed.

Lemma land_127 b : 128 <= b < 256 -> Z.land b 127 = b - 128.
Proof.
  intros Hb. change 127 with (Z.ones 7). rewrite Z.land_ones by lia.
  change (2 ^ 7) with 128. rewrite <- (Z.mod_unique b 128 1 (b - 128)); lia.
Qed.

Lemma readUvarintFrom_sound n : forall i x r v r',
  Z.of_nat n + i = 10 -> 0 <= i -> 0 <= x < 2 ^ (7 * i) -> Forall isByte (rdBytes r) ->
  readUvarintFrom n i x r = (inr v, r') ->
  exists c m, uvarintFrom i c m /\ v = x + m * 2 ^ (7 * i) /\ eats c r r'.
Proof.
  induction n as [|n IH]; intros i x r v r' Hn Hi Hx Hby; simpl; [done|].
  destruct (ReadByte r) as [[e|b] r1] eqn:E; [done|]. apply readByte_exact in E.
  assert (Hb : isByte b /\ Forall isByte (rdBytes r1)).
  { destruct E as (Eb & _). rewrite Eb in Hby. by apply Forall_cons in Hby. }
  destruct Hb as [Hb Hby1]. unfold isByte in Hb. destruct (Z.ltb_spec b 128).
  - destruct ((i =? 9) && (1 <? b)) eqn:E9; [done|]. intros. simplify_eq.
    exists [b], b. rewrite lor_shift by lia. split_and!; [|done|done].
    constructor; [lia|lia|]. intros ->. simpl in E9. apply Z.ltb_ge in E9. lia.
  - intros Hr. rewrite land_127, lor_shift in Hr by lia.
    destruct n as [|n']; [done|].
    apply IH in Hr as (c & m & Hc & -> & He); [|lia|lia| |done].
    + exists (b :: c), (b - 128 + 128 * m). split_and!.
      * constructor; [lia|lia|done].
      * replace (7 * (i + 1)) with (7 * i + 7) by lia. rewrite Z.pow_add_r by lia.
        change (2 ^ 7) with 128. ring.
      * by apply (eats_app [b] c r r1 r').
    + replace (7 * (i + 1)) with (7 * i + 7) by lia. rewrite Z.pow_add_r by lia.
      change (2 ^ 7) with 128. nia.
Qed.

Lemma readUvarintFrom_complete i c m : uvarintFrom i c m -> forall n x r r',
  Z.of_nat n + i = 10 -> 0 <= i -> 0 <= x < 2 ^ (7 * i) -> eats c r r' ->
  readUvarintFrom n i x r = (inr (x + m * 2 ^ (7 * i)), r').
Proof.
  induction 1 as [i b Hb Hi9 H9|i b c m Hb Hi9 Hc IH]; intros n x r r' Hn Hi Hx He;
    (destruct n as [|n]; [lia|]); simpl.
  - apply readByte_exact in He as ->. destruct (Z.ltb_spec b 128); [|lia].
    destruct (Z.eqb_spec i 9) as [->|]; simpl.
    + destruct (Z.ltb_spec 1 b); [lia|]. by rewrite lor_shift.
    + by rewrite lor_shift by lia.
  - apply (eats_split [b] c) in He as (r1 & E1 & E2). apply readByte_exact in E1 as ->.
    destruct (Z.ltb_spec b 128); [lia|]. rewrite land_127, lor_shift by lia.
    assert (Hp : 2 ^ (7 * (i + 1)) = 2 ^ (7 * i) * 128).
    { replace (7 * (i + 1)) with (7 * i + 7) by lia. by rewrite Z.pow_add_r by lia. }
    rewrite (IH n _ r1 r') by (first [lia | done | rewrite Hp; nia]).
    rewrite Hp. do 2 f_equal. ring.
Qed.

(** ** Languages with effects *)

Section Languages.
Context `{IPS : IPSetLib, ENV : GeoEnv}.

(** A byte string, the ranges it adds to the set and the number of ranges it
    charges to the budget. *)
Definition lang : Type := list Z -> list (addr * addr) -> Z -> Prop.

Definition rangeCount (r : addr * addr) : Z := Z.of_nat (length (rangePrefixes r.1 r.2)).

Definition addRanges (rs : list (addr * addr)) (b : ipBuilder) : ipBuilder :=
  fold_left (fun b r => addPrefixes (rangePrefixes r.1 r.2) b) rs b.

Definition chargeRanges (rs : list (addr * addr)) (k : Z) (b : firewallGeoParserBudget)
  : firewallGeoParserBudget :=
  mkBudget (ipSetRanges b + k) (candidatePrefixes b + zsum (rangeCount <$> rs))
    (jsonRules b) (jsonCIDRs b).

(** The budget admits the ranges, and none of them is invalid. *)
Definition fits (rs : list (addr * addr)) (k : Z) (b : firewallGeoParserBudget) : Prop :=
  Forall (fun r => rangeCount r <> 0) rs /\
  0 <= k /\ ipSetRanges b + k <= firewallGeoMaxTotalIPSetRanges /\
  candidatePrefixes b + zsum (rangeCount <$> rs) <= firewallGeoMaxExpandedPrefixCount.

Definition withinBudget (b : firewallGeoParserBudget) : Prop :=
  0 <= ipSetRanges b <= firewallGeoMaxTotalIPSetRanges /\
  0 <= candidatePrefixes b <= firewallGeoMaxExpandedPrefixCount /\
  0 <= jsonRules b <= firewallGeoMaxJSONRuleCount /\
  0 <= jsonCIDRs b <= firewallGeoMaxJSONCIDRsTotal.

Definition byteState (s : pstate) : Prop :=
  Forall isByte (rdBytes (psReader s)) /\ withinBudget (psBudget s).

(** The state after a word of a language. *)
Definition stepsTo (c : list Z) (rs : list (addr * addr)) (k : Z) (s s' : pstate) : Prop :=
  eats c (psReader s) (psReader s') /\ fits rs k (psBudget s) /\
  psBuilder s' = addRanges rs (psBuilder s) /\ psBudget s' = chargeRanges rs k (psBudget s).

Definition accepts (m : P unit) (E : lang) : Prop := forall s, byteState s -> forall s',
  m s = (inr tt, s') <-> exists c rs k, E c rs k /\ stepsTo c rs k s s'.

(** A read: the words for a value, without an effect. *)
Definition reads {A} (m : P A) (V : list Z -> A -> Prop) : Prop := forall s, byteState s ->
  forall x s', m s = (inr x, s') <-> exists c, V c x /\ stepsTo c [] 0 s s'.

Definition lempty : lang := fun c rs k => c = [] /\ rs = [] /\ k = 0.
Definition lnone : lang := fun c rs k => False.

Definition lseq (E F : lang) : lang := fun c rs k => exists c1 c2 r1 r2 k1 k2,
  c = c1 ++ c2 /\ rs = r1 ++ r2 /\ k = k1 + k2 /\ E c1 r1 k1 /\ F c2 r2 k2.

Definition lread {A} (V : list Z -> A -> Prop) (F : A -> lang) : lang := fun c rs k =>
  exists x c1 c2, c = c1 ++ c2 /\ V c1 x /\ F x c2 rs k.

Fixpoint lpow (n : nat) (E : lang) : lang :=
  match n with O => lempty | S n => lseq E (lpow n E) end.

Definition lguard (Q : Prop) (E : lang) : lang := fun c rs k => Q /\ E c rs k.

(** *** Composition *)

Lemma rangeCounts_nonneg rs : 0 <= zsum (rangeCount <$> rs).
Proof. apply zsum_nonneg, Forall_fmap, Forall_true. intros r. unfold rangeCount. simpl. lia. Qed.

Lemma fits_app r1 r2 k1 k2 b : 0 <= k2 ->
  fits (r1 ++ r2) (k1 + k2) b /\ 0 <= k1 <-> fits r1 k1 b /\ fits r2 k2 (chargeRanges r1 k1 b).
Proof.
  intros Hk. unfold fits, chargeRanges. simpl. rewrite Forall_app, fmap_app, zsum_app.
  pose proof (rangeCounts_nonneg r1). pose proof (rangeCounts_nonneg r2).
  split.
  - intros [([F1 F2] & Hk0 & Hr & Hc) Hk1]. split_and!; try done; lia.
  - intros [(F1 & Hk1 & Hr1 & Hc1) (F2 & _ & Hr2 & Hc2)]. split_and!; try done; lia.
Qed.

Lemma charge_app r1 r2 k1 k2 b :
  chargeRanges (r1 ++ r2) (k1 + k2) b = chargeRanges r2 k2 (chargeRanges r1 k1 b).
Proof.
  unfold chargeRanges. simpl. rewrite fmap_app, zsum_app. f_equal; lia.
Qed.

Lemma steps_nil s : byteState s -> stepsTo [] [] 0 s s.
Proof.
  intros (_ & Hr & Hc & _). split_and!; [apply eats_nil| |done|].
  - split_and!; [done|lia|lia|]. simpl. lia.
  - unfold chargeRanges. simpl. destruct (psBudget s). simpl. f_equal; lia.
Qed.

Lemma steps_nil_inv s s' : stepsTo [] [] 0 s s' -> s' = s.
Proof.
  intros (He & _ & Hb & Hbud). apply eats_nil_inv in He. destruct s as [r b bud], s'. simpl in *.
  subst. f_equal. unfold chargeRanges. destruct bud. simpl. f_equal; lia.
Qed.

Lemma steps_app c1 c2 r1 r2 k1 k2 s s1 s' :
  stepsTo c1 r1 k1 s s1 -> stepsTo c2 r2 k2 s1 s' -> stepsTo (c1 ++ c2) (r1 ++ r2) (k1 + k2) s s'.
Proof.
  intros (He & Hf & Hb & Hg) (He' & Hf' & Hb' & Hg'). rewrite Hg in Hf', Hg'. rewrite Hb in Hb'.
  split_and!; [by eapply eats_app| | |by rewrite charge_app].
  - apply fits_app; [apply Hf'|done].
  - rewrite Hb'. unfold addRanges. by rewrite fold_left_app.
Qed.

Lemma steps_split c1 c2 r1 r2 k1 k2 s s' : 0 <= k1 -> 0 <= k2 ->
  stepsTo (c1 ++ c2) (r1 ++ r2) (k1 + k2) s s' ->
  exists s1, stepsTo c1 r1 k1 s s1 /\ stepsTo c2 r2 k2 s1 s'.
Proof.
  intros Hk1 Hk2 (He & Hf & Hb & Hg). apply eats_split in He as (rd & He1 & He2).
  assert (Hf12 : fits r1 k1 (psBudget s) /\ fits r2 k2 (chargeRanges r1 k1 (psBudget s)))
    by by apply fits_app.
  exists (mkPstate rd (addRanges r1 (psBuilder s)) (chargeRanges r1 k1 (psBudget s))).
  split; [split_and!; try done; apply Hf12|]. split_and!; simpl; [done|apply Hf12| |].
  - rewrite Hb. unfold addRanges. by rewrite fold_left_app.
  - by rewrite Hg, charge_app.
Qed.

Lemma steps_byteState c rs k s s' : byteState s -> stepsTo c rs k s s' -> byteState s'.
Proof.
  intros (Hby & Hr & Hc & Hj) (He & (Hf & Hk & Hfr & Hfc) & _ & Hg). split.
  - destruct He as (Eb & _). rewrite Eb in Hby. by apply Forall_app in Hby as [_ ?].
  - rewrite Hg. pose proof (rangeCounts_nonneg rs).
    unfold withinBudget, chargeRanges. simpl. split_and!; try lia; apply Hj.
Qed.

(** What is read are bytes. *)
Lemma steps_bytes c rs k s s' : byteState s -> stepsTo c rs k s s' -> Forall isByte c.
Proof. intros [Hby _] ((Eb & _) & _). rewrite Eb in Hby. by apply Forall_app in Hby as [? _]. Qed.

(** A language whose charges are not negative. *)
Definition charged (E : lang) : Prop := forall c rs k, E c rs k -> 0 <= k.

Lemma accepts_ret : accepts (pret tt) lempty.
Proof.
  intros s Hs s'. unfold pret. split.
  - intros. simplify_eq. exists [], [], 0. split; [done|]. by apply steps_nil.
  - intros (c & rs & k & (-> & -> & ->) & Hst). by rewrite (steps_nil_inv _ _ Hst).
Qed.

Lemma accepts_fail e : accepts (pfail e) lnone.
Proof. intros s Hs s'. unfold pfail. split; [done|]. by intros (c & rs & k & [] & _). Qed.

Lemma accepts_seq m n E F : charged E -> charged F ->
  accepts m E -> accepts n F -> accepts (pbind m (fun _ => n)) (lseq E F).
Proof.
  intros HE HF Hm Hn s Hs s'. unfold pbind. split.
  - destruct (m s) as [[e|[]] s1] eqn:E1; [done|]. intros E2.
    apply Hm in E1 as (c1 & r1 & k1 & H1 & Hst1); [|done].
    apply Hn in E2 as (c2 & r2 & k2 & H2 & Hst2); [|by eapply steps_byteState].
    exists (c1 ++ c2), (r1 ++ r2), (k1 + k2). split; [by exists c1, c2, r1, r2, k1, k2|].
    by eapply steps_app.
  - intros (c & rs & k & (c1 & c2 & r1 & r2 & k1 & k2 & -> & -> & -> & H1 & H2) & Hst).
    apply steps_split in Hst as (s1 & Hst1 & Hst2); [|by eapply HE|by eapply HF].
    assert (E1 : m s = (inr tt, s1)) by (apply Hm; [done|]; eauto 10). rewrite E1.
    apply Hn; [by eapply steps_byteState|]. eauto 10.
Qed.

Lemma accepts_read {A} (m : P A) V f F : reads m V ->
  (forall x c, V c x -> Forall isByte c -> accepts (f x) (F x)) ->
  (forall x, charged (F x)) -> accepts (pbind m f) (lread V F).
Proof.
  intros Hm Hf HF s Hs s'. unfold pbind. split.
  - destruct (m s) as [[e|x] s1] eqn:E1; [done|]. intros E2.
    apply Hm in E1 as (c1 & H1 & Hst1); [|done].
    apply (Hf x c1) in E2 as (c2 & r2 & k2 & H2 & Hst2);
      [|done|by eapply steps_bytes|by eapply steps_byteState].
    exists (c1 ++ c2), r2, k2. split; [by exists x, c1, c2|]. by apply (steps_app c1 c2 [] r2 0 k2 s s1).
  - intros (c & rs & k & (x & c1 & c2 & -> & H1 & H2) & Hst).
    apply (steps_split c1 c2 [] rs 0 k) in Hst as (s1 & Hst1 & Hst2); [|lia|by eapply HF].
    assert (E1 : m s = (inr x, s1)) by (apply Hm; [done|]; eauto). rewrite E1.
    apply (Hf x c1); [done|by eapply steps_bytes|by eapply steps_byteState|]. eauto 10.
Qed.

Lemma accepts_wrap w m E : accepts m E -> accepts (pwrap w m) E.
Proof.
  intros Hm s Hs s'. rewrite <- (Hm s Hs s'). unfold pwrap.
  destruct (m s) as [[e|[]] s1]; simpl; split; congruence.
Qed.

Lemma charged_pow n E : charged E -> charged (lpow n E).
Proof.
  intros HE. induction n as [|n IH]; simpl; [intros c rs k (_ & _ & ->); lia|].
  intros c rs k (c1 & c2 & r1 & r2 & k1 & k2 & _ & _ & -> & H1 & H2).
  apply HE in H1. apply IH in H2. lia.
Qed.

Lemma accepts_for w m E : charged E -> accepts m E ->
  forall n index, accepts (pfor n index w m) (lpow n E).
Proof.
  intros HE Hm. induction n as [|n IH]; intros index; simpl; [apply accepts_ret|].
  apply accepts_seq; [done|by apply charged_pow|by apply accepts_wrap|apply IH].
Qed.

(** A check that fails the parse. *)
Lemma accepts_if (b : bool) e m E : accepts m E ->
  accepts (if b then pfail e else m) (lguard (b = false) E).
Proof.
  intros Hm s Hs s'. destruct b.
  - split; [done|]. by intros (c & rs & k & [? _] & _).
  - rewrite (Hm s Hs s').
    split; intros (c & rs & k & Hc & Hst); exists c, rs, k; (split; [|done]); [done|apply Hc].
Qed.

Lemma accepts_ext m E F : (forall c rs k, E c rs k <-> F c rs k) -> accepts m E -> accepts m F.
Proof.
  intros HEF Hm s Hs s'. rewrite (Hm s Hs s').
  split; intros (c & rs & k & Hc & Hst); exists c, rs, k; (split; [by apply HEF|done]).
Qed.

(** *** Reads *)

Lemma reads_pread {A} (f : reader -> (geoErr + A) * reader) (V : list Z -> A -> Prop) :
  (forall r, Forall isByte (rdBytes r) -> forall x r', f r = (inr x, r') <-> exists c, V c x /\ eats c r r') ->
  reads (pread f) V.
Proof.
  intros Hf s Hs x s'. unfold pread. specialize (Hf (psReader s) (proj1 Hs)).
  destruct (f (psReader s)) as [res r1] eqn:E. split.
  - intros Hr. inversion Hr; subst res s'. destruct (proj1 (Hf x r1) eq_refl) as (c & Hc & He).
    exists c. split; [done|]. destruct (steps_nil s Hs) as (_ & Hfit & Hb & Hg). done.
  - intros (c & Hc & He & Hfit & Hb & Hg). assert (Hr : (res, r1) = (inr x, psReader s')) by (apply Hf; eauto).
    inversion Hr; subst. f_equal. destruct s as [r b g], s' as [r' b' g']. simpl in *. subst b' g'.
    f_equal. unfold chargeRanges. simpl. destruct g. simpl. f_equal; lia.
Qed.

Lemma reads_byte : reads (pread ReadByte) (fun c b => c = [b]).
Proof.
  apply reads_pread. intros r _ x r'. rewrite readByte_exact.
  split; [by exists [x]|]. by intros (c & -> & He).
Qed.

Lemma reads_full n : reads (pread (ReadFull n)) (fun c l => c = l /\ length l = n).
Proof.
  apply reads_pread. intros r _ x r'. unfold ReadFull. rewrite readFullFrom_exact.
  split; [intros [? ?]; by exists x|]. by intros (c & [-> ?] & ?).
Qed.

Lemma reads_uvarint : reads (pread ReadUvarint) uvarintEnc.
Proof.
  apply reads_pread. intros r Hby x r'. unfold ReadUvarint. split.
  - intros Hr. apply readUvarintFrom_sound in Hr as (c & m & Hc & -> & He); try done.
    exists c. by rewrite Z.mul_1_r.
  - intros (c & Hc & He). apply (readUvarintFrom_complete 0 c x Hc 10 0) in He; try done.
    by rewrite He, Z.mul_1_r.
Qed.

Lemma reads_bind {A B} (m : P A) V (f : A -> P B) W : reads m V -> (forall x, reads (f x) (W x)) ->
  reads (pbind m f) (fun c y => exists x c1 c2, c = c1 ++ c2 /\ V c1 x /\ W x c2 y).
Proof.
  intros Hm Hf s Hs y s'. unfold pbind. split.
  - destruct (m s) as [[e|x] s1] eqn:E1; [done|]. intros E2.
    apply Hm in E1 as (c1 & H1 & Hst1); [|done].
    apply Hf in E2 as (c2 & H2 & Hst2); [|by eapply steps_byteState].
    exists (c1 ++ c2). split; [by exists x, c1, c2|]. by apply (steps_app c1 c2 [] [] 0 0 s s1).
  - intros (c & (x & c1 & c2 & -> & H1 & H2) & Hst).
    apply (steps_split c1 c2 [] [] 0 0) in Hst as (s1 & Hst1 & Hst2); [|lia|lia].
    assert (E1 : m s = (inr x, s1)) by (apply Hm; [done|]; eauto). rewrite E1.
    apply Hf; [by eapply steps_byteState|]. eauto.
Qed.

Lemma reads_lift {A} (x : geoErr + A) : reads (plift x) (fun c y => c = [] /\ x = inr y).
Proof.
  intros s Hs y s'. unfold plift. split.
  - intros. simplify_eq. exists []. split; [done|]. by apply steps_nil.
  - intros (c & [-> ->] & Hst). by rewrite (steps_nil_inv _ _ Hst).
Qed.

Lemma reads_if {A} (b : bool) e (m : P A) V : reads m V ->
  reads (if b then pfail e else m) (fun c x => b = false /\ V c x).
Proof.
  intros Hm s Hs x s'. destruct b.
  - split; [done|]. by intros (c & [? _] & _).
  - rewrite (Hm s Hs x s').
    split; intros (c & Hc & Hst); exists c; (split; [|done]); [done|apply Hc].
Qed.

Lemma reads_ext {A} (m : P A) V W : (forall c x, V c x <-> W c x) -> reads m V -> reads m W.
Proof.
  intros HVW Hm s Hs x s'. rewrite (Hm s Hs x s').
  split; intros (c & Hc & Hst); exists c; (split; [by apply HVW|done]).
Qed.

(** ** The grammar of SRS *)

(** An address: its length, 4 or 16, and its bytes. *)
Definition addrEnc (c : list Z) (a : addr) : Prop := exists n raw, c = n ++ raw /\
  uvarintEnc n (Z.of_nat (length raw)) /\
  (length raw = 4%nat /\ a = Unmap (AddrFrom4 raw) \/ length raw = 16%nat /\ a = Unmap (AddrFrom16 raw)).

Definition rangeEnc : lang := fun c rs k => exists c1 c2 f t, c = c1 ++ c2 /\
  addrEnc c1 f /\ addrEnc c2 t /\ rs = [(f, t)] /\ k = 0.

(** A set: the version 1, the number of ranges in eight bytes, the ranges. *)
Definition ipsetEnc : lang := fun c rs k => exists raw c2, c = 1 :: raw ++ c2 /\
  length raw = 8%nat /\ k = uint64Of raw /\ 0 <= k <= firewallGeoMaxIPSetRanges /\
  lpow (Z.to_nat k) rangeEnc c2 rs 0.

(** The items of a plain rule, up to the end mark and a cleared inversion
    flag; [tags] are the types of the items that hold sets. *)
Inductive itemsEnc (tags : list Z) : lang :=
| items_end : itemsEnc tags [firewallGeoSRSRuleItemFinal; 0] [] 0
| items_set t c1 r1 k1 c2 r2 k2 : t ∈ tags -> ipsetEnc c1 r1 k1 -> itemsEnc tags c2 r2 k2 ->
    itemsEnc tags (t :: c1 ++ c2) (r1 ++ r2) (k1 + k2).

(** A rule nested at most [levels] deep: 0 and its items, or 1, a mode, the
    number of rules, the rules and a cleared inversion flag. *)
Fixpoint ruleEnc (tags : list Z) (levels : nat) : lang :=
  match levels with
  | O => lnone
  | S levels => fun c rs k =>
      (exists c', c = 0 :: c' /\ itemsEnc tags c' rs k) \/
      (exists mode n count c', c = 1 :: mode :: count ++ c' ++ [0] /\ mode ∈ [0; 1] /\
         uvarintEnc count n /\ n <= firewallGeoMaxLogicalRuleCount /\
         lpow (Z.to_nat n) (ruleEnc tags levels) c' rs k)
  end.

Definition srsFile (tags : list Z) : lang := fun c rs k => exists count n c', c = count ++ c' /\
  uvarintEnc count n /\ n <= firewallGeoMaxCompressedRuleCount /\
  lpow (Z.to_nat n) (ruleEnc tags 65) c' rs k.

(** The item types the parser takes for sets. *)
Definition srsSetTags : list Z := [firewallGeoSRSRuleItemSourceIPCIDR; firewallGeoSRSRuleItemIPCIDR].
End Languages.

(** ** The parsers accept the grammar *)

Section Accept.
Context `{IPS : IPSetLib, ENV : GeoEnv}.

Lemma reads_addr : reads readFirewallGeoSRSAddr addrEnc.
Proof.
  eapply reads_ext; [|eapply reads_bind; [apply reads_uvarint|]; intros n; apply reads_if;
    eapply reads_bind; [apply reads_full|]; intros raw; apply reads_lift].
  intros c a. split.
  - intros (n & c1 & c2 & -> & Hn & Hif & raw & c3 & c4 & -> & [-> Hraw] & -> & Ha).
    exists c1, raw. rewrite app_nil_r. split; [done|]. unfold firewallGeoAddrFromRawBytes in Ha.
    assert (Hn' : n = 4 \/ n = 16) by (destruct (Z.eqb_spec n 4), (Z.eqb_spec n 16); auto; done).
    destruct Hn' as [-> | ->]; simpl in Hraw; rewrite Hraw in Ha |- *; simpl in Ha;
      simplify_eq; split; auto.
  - intros (n & raw & -> & Hn & Ha). exists (Z.of_nat (length raw)), n, raw.
    split_and!; [done|done|by destruct Ha as [[-> _]|[-> _]]|].
    exists raw, raw, []. rewrite app_nil_r. split_and!; [done|done|by rewrite Nat2Z.id|done|].
    unfold firewallGeoAddrFromRawBytes. by destruct Ha as [[-> ->]|[-> ->]].
Qed.

Definition oneRange (f t : addr) : lang := fun c rs k => c = [] /\ rs = [(f, t)] /\ k = 0.

Lemma accepts_addIPRange f t : accepts (addIPRange f t) (oneRange f t).
Proof.
  intros s Hs s'. unfold addIPRange.
  assert (Hc : rangeCount (f, t) = Z.of_nat (length (rangePrefixes f t))) by done.
  set (n := Z.of_nat (length (rangePrefixes f t))) in *.
  destruct s as [r b g]. simpl.
  assert (Hgoal : stepsTo [] [(f, t)] 0 (mkPstate r b g) s' <->
    n <> 0 /\ candidatePrefixes g + n <= firewallGeoMaxExpandedPrefixCount /\
    s' = mkPstate r (addPrefixes (rangePrefixes f t) b)
           (mkBudget (ipSetRanges g) (candidatePrefixes g + n) (jsonRules g) (jsonCIDRs g))).
  { unfold stepsTo, fits, chargeRanges. simpl. rewrite Forall_singleton, Hc. split.
    - intros (He & (Hn & _ & _ & Hle) & Hb & Hg). apply eats_nil_inv in He.
      destruct s' as [r' b' g']. simpl in *. subst. split_and!; [done|lia|]. do 2 f_equal; lia.
    - intros (Hn & Hle & ->). destruct Hs as (_ & Hr & _). simpl in *.
      split_and!; try done; try lia; [apply eats_nil|]. f_equal; lia. }
  split.
  - destruct (Z.eqb_spec n 0); [done|].
    destruct ((_ <? n) || _) eqn:E; [done|]. intros Heq. inversion Heq as [Heq'].
    exists [], [(f, t)], 0. rewrite Heq'. split; [done|]. apply Hgoal. split_and!; [done| |done].
    apply orb_false_elim in E as [_ E]. apply Z.ltb_ge in E. lia.
  - intros (c & rs & k & (-> & -> & ->) & Hst). apply Hgoal in Hst as (Hn & Hle & ->).
    destruct (Z.eqb_spec n 0); [done|]. destruct Hs as (_ & _ & Hcand & _). simpl in Hcand.
    destruct (Z.ltb_spec firewallGeoMaxExpandedPrefixCount n); [lia|].
    by destruct (Z.ltb_spec (firewallGeoMaxExpandedPrefixCount - n) (candidatePrefixes g)); [lia|].
Qed.

Lemma accepts_range : accepts readFirewallGeoSRSRange rangeEnc.
Proof.
  eapply (accepts_ext _ (lread addrEnc (fun f => lread addrEnc (oneRange f))));
    [|apply accepts_read; [apply reads_addr|intros f ? _ _; apply accepts_read;
      [apply reads_addr|intros t ? _ _; apply accepts_addIPRange|intros t]|intros f]].
  - intros c rs k. split.
    + intros (f & c1 & c2 & -> & Hf & t & c3 & c4 & -> & Ht & -> & -> & ->).
      exists c1, c3, f, t. by rewrite app_nil_r.
    + intros (c1 & c2 & f & t & -> & Hf & Ht & -> & ->). exists f, c1, c2. split_and!; [done|done|].
      exists t, c2, []. by rewrite app_nil_r.
  - by intros ? ? ? (_ & _ & ->).
  - by intros ? ? ? (t & c3 & c4 & _ & _ & _ & _ & ->).
Qed.

Definition charge (n : Z) : lang := fun c rs k => c = [] /\ rs = [] /\ k = n.

Lemma accepts_charge n : 0 <= n -> accepts (pcharge (addIPSetRanges n)) (charge n).
Proof.
  intros Hn s Hs s'. unfold pcharge, addIPSetRanges. destruct s as [r b g]. simpl. split.
  - destruct (_ || _) eqn:E; [done|]. intros Heq. inversion Heq.
    apply orb_false_elim in E as [E1 E2]. apply Z.ltb_ge in E1, E2.
    exists [], [], n. split; [done|]. destruct Hs as (_ & Hr & Hc & _). simpl in *.
    unfold stepsTo, fits, chargeRanges. simpl. split_and!; try done; try lia; [apply eats_nil|].
    f_equal; lia.
  - intros (c & rs & k & (-> & -> & ->) & He & (_ & _ & Hle & _) & Hb & Hg).
    apply eats_nil_inv in He. simpl in *. destruct Hs as (_ & Hr & _). simpl in Hr.
    destruct (Z.ltb_spec firewallGeoMaxTotalIPSetRanges n); [lia|].
    destruct (Z.ltb_spec (firewallGeoMaxTotalIPSetRanges - n) (ipSetRanges g)); [lia|].
    simpl. destruct s' as [r' b' g']. simpl in *. subst. unfold chargeRanges. simpl.
    do 3 f_equal. lia.
Qed.

(** A language that charges no ranges. *)
Definition free (E : lang) : Prop := forall c rs k, E c rs k -> k = 0.

Lemma free_charged E : free E -> charged E.
Proof. intros HE c rs k Hc. apply HE in Hc. lia. Qed.

Lemma free_range : free rangeEnc.
Proof. by intros c rs k (c1 & c2 & f & t & _ & _ & _ & _ & ->). Qed.

Lemma free_pow n E : free E -> free (lpow n E).
Proof.
  intros HE. induction n as [|n IH]; intros c rs k; simpl; [by intros (_ & _ & ->)|].
  intros (c1 & c2 & r1 & r2 & k1 & k2 & _ & _ & -> & H1 & H2). apply HE in H1. apply IH in H2. lia.
Qed.

Lemma uint64Of_nonneg raw : 0 <= uint64Of raw.
Proof. apply Z.mod_pos_bound. lia. Qed.

(** Words are only compared on bytes. *)
Lemma accepts_bytes m E F :
  (forall c rs k, Forall isByte c -> E c rs k <-> F c rs k) -> accepts m E -> accepts m F.
Proof.
  intros HEF Hm s Hs s'. rewrite (Hm s Hs s').
  split; intros (c & rs & k & Hc & Hst); exists c, rs, k;
    (split; [|done]); apply HEF; try done; by eapply steps_bytes.
Qed.

(** Charging [n] ranges and reading them. *)
Lemma accepts_pcharge_for n w body E : free E -> accepts body E -> 0 <= n ->
  accepts (pbind (pcharge (addIPSetRanges n)) (fun _ => pfor (Z.to_nat n) 0 w body))
    (fun c rs k => lpow (Z.to_nat n) E c rs 0 /\ k = n).
Proof.
  intros HE Hbody Hn.
  apply (accepts_ext _ (lseq (charge n) (lpow (Z.to_nat n) E))).
  - intros c rs k. split.
    + intros (c1 & c2 & r1 & r2 & k1 & k2 & -> & -> & -> & (-> & -> & ->) & Hp).
      pose proof (free_pow _ _ HE _ _ _ Hp) as ->. simpl. split; [done|lia].
    + intros [Hp ->]. exists [], c, [], rs, n, 0. split_and!; try done. lia.
  - apply accepts_seq; [by intros c rs k (_ & _ & ->)|by apply charged_pow, free_charged|
      by apply accepts_charge|apply accepts_for; [by apply free_charged|done]].
Qed.

Lemma ipset_charged : charged ipsetEnc.
Proof. intros c rs k (raw & c2 & _ & _ & _ & [? _] & _). done. Qed.

Lemma accepts_ipset : accepts readFirewallGeoSRSIPSet ipsetEnc.
Proof.
  set (body := fun raw : list Z => lguard ((firewallGeoMaxIPSetRanges <? uint64Of raw) = false)
    (fun c rs k => lpow (Z.to_nat (uint64Of raw)) rangeEnc c rs 0 /\ k = uint64Of raw /\ 0 <= k)).
  apply (accepts_bytes _ (lread (fun c b => c = [b]) (fun version =>
    lguard (negb (version =? 1) = false)
      (lread (fun c l => c = l /\ length l = 8%nat) body)))).
  - intros c rs k Hby. unfold body, lguard, lread. split.
    + intros (v & c1 & c2 & -> & -> & Hv & raw & c3 & c4 & -> & [-> Hl] & Hle & Hp & -> & Hk).
      apply negb_false_iff, Z.eqb_eq in Hv as ->. apply Z.ltb_ge in Hle.
      exists raw, c4. split_and!; try done.
    + intros (raw & c2 & -> & Hl & -> & [Hk Hle] & Hp). exists 1, [1], (raw ++ c2).
      split_and!; try done. exists raw, raw, c2. split_and!; try done. by apply Z.ltb_ge.
  - apply accepts_read; [apply reads_byte|intros version _ _ _|].
    + apply accepts_if. apply accepts_read; [apply reads_full|intros raw _ _ _|].
      * apply accepts_if. pose proof (uint64Of_nonneg raw) as Hn.
        eapply accepts_ext; [|apply accepts_pcharge_for; [apply free_range|apply accepts_range|done]].
        intros c rs k. split; [intros [? ->]; done|intros (? & -> & _); done].
      * intros raw c rs k (_ & _ & _ & ?). done.
    + intros version c rs k (_ & raw & c1 & c2 & _ & _ & _ & _ & _ & ?). done.
Qed.

Lemma accepts_invert : accepts readFirewallGeoSRSInvertFlag (fun c rs k => c = [0] /\ rs = [] /\ k = 0).
Proof.
  apply (accepts_ext _ (lread (fun c b => c = [b]) (fun v => lguard (negb (v =? 0) = false) lempty))).
  - intros c rs k. split.
    + intros (v & c1 & c2 & -> & -> & Hv & -> & -> & ->).
      by apply negb_false_iff, Z.eqb_eq in Hv as ->.
    + intros (-> & -> & ->). exists 0, [0], []. done.
  - apply accepts_read; [apply reads_byte|intros v _ _ _; apply accepts_if, accepts_ret|].
    by intros v c rs k (_ & _ & _ & ->).
Qed.

Lemma items_charged tags : charged (itemsEnc tags).
Proof.
  intros c rs k. induction 1 as [|t c1 r1 k1 c2 r2 k2 _ Hs _ IH]; [lia|].
  apply ipset_charged in Hs. lia.
Qed.

Definition isSetTag (t : Z) : bool :=
  (t =? firewallGeoSRSRuleItemSourceIPCIDR) || (t =? firewallGeoSRSRuleItemIPCIDR).

Lemma isSetTag_spec t : isSetTag t = true <-> t ∈ srsSetTags.
Proof.
  unfold isSetTag, srsSetTags. rewrite orb_true_iff, !Z.eqb_eq, !elem_of_cons, elem_of_nil. tauto.
Qed.

Lemma srsItems_sound fuel : forall s s', byteState s -> srsItems fuel s = (inr tt, s') ->
  exists c rs k, itemsEnc srsSetTags c rs k /\ stepsTo c rs k s s'.
Proof.
  induction fuel as [|fuel IH]; intros s s' Hs; simpl; [done|]. unfold pbind at 1.
  destruct (pread ReadByte s) as [[e|t] s1] eqn:E1; [done|].
  apply reads_byte in E1 as (c1 & -> & Hst1); [|done].
  assert (Hs1 : byteState s1) by by eapply steps_byteState.
  change ((t =? firewallGeoSRSRuleItemSourceIPCIDR) || (t =? firewallGeoSRSRuleItemIPCIDR))
    with (isSetTag t).
  destruct (isSetTag t) eqn:Et.
  - unfold pbind. destruct (readFirewallGeoSRSIPSet s1) as [[e|[]] s2] eqn:E2; [done|].
    apply accepts_ipset in E2 as (c2 & r2 & k2 & H2 & Hst2); [|done].
    intros E3. apply IH in E3 as (c3 & r3 & k3 & H3 & Hst3); [|by eapply steps_byteState].
    exists (t :: c2 ++ c3), (r2 ++ r3), (k2 + k3). split.
    + constructor; [by apply isSetTag_spec|done|done].
    + apply (steps_app [t] (c2 ++ c3) [] (r2 ++ r3) 0 (k2 + k3) s s1); [done|].
      by eapply steps_app.
  - destruct (Z.eqb_spec t firewallGeoSRSRuleItemFinal) as [->|]; [|done].
    intros E2. apply accepts_invert in E2 as (c2 & r2 & k2 & (-> & -> & ->) & Hst2); [|done].
    exists [firewallGeoSRSRuleItemFinal; 0], [], 0. split; [constructor|].
    by apply (steps_app [_] [0] [] [] 0 0 s s1).
Qed.

Lemma srsItems_complete c rs k : itemsEnc srsSetTags c rs k -> forall fuel s s',
  byteState s -> (length c <= fuel)%nat -> stepsTo c rs k s s' -> srsItems fuel s = (inr tt, s').
Proof.
  induction 1 as [|t c1 r1 k1 c2 r2 k2 Ht Hset Hit IH]; intros fuel s s' Hs Hf Hst;
    (destruct fuel as [|fuel]; [simpl in Hf; lia|]); cbn [srsItems]; unfold pbind at 1.
  - apply (steps_split [_] [0] [] [] 0 0) in Hst as (s1 & Hst1 & Hst2); [|lia|lia].
    assert (E1 : pread ReadByte s = (inr firewallGeoSRSRuleItemFinal, s1))
      by (apply reads_byte; [done|]; eauto).
    rewrite E1. cbn -[readFirewallGeoSRSInvertFlag].
    apply accepts_invert; [by eapply steps_byteState|]. exists [0], [], 0. done.
  - pose proof (ipset_charged _ _ _ Hset). pose proof (items_charged _ _ _ _ Hit).
    apply (steps_split [t] (c1 ++ c2) [] (r1 ++ r2) 0 (k1 + k2)) in Hst
      as (s1 & Hst1 & Hst2); [|lia|lia].
    apply steps_split in Hst2 as (s2 & Hst2 & Hst3); [|lia|lia].
    assert (E1 : pread ReadByte s = (inr t, s1)) by (apply reads_byte; [done|]; eauto).
    assert (Hs1 : byteState s1) by by eapply steps_byteState.
    assert (E2 : readFirewallGeoSRSIPSet s1 = (inr tt, s2)) by (apply accepts_ipset; [done|]; eauto 6).
    rewrite E1. change ((t =? _) || _) with (isSetTag t).
    apply isSetTag_spec in Ht as ->. unfold pbind. rewrite E2.
    apply IH; [by eapply steps_byteState| |done].
    simpl in Hf. rewrite length_app in Hf. lia.
Qed.

Lemma accepts_default : accepts parseFirewallGeoSRSDefaultRule (itemsEnc srsSetTags).
Proof.
  intros s Hs s'. unfold parseFirewallGeoSRSDefaultRule. split; [by apply srsItems_sound|].
  intros (c & rs & k & Hc & Hst). eapply srsItems_complete; [done|done| |done].
  destruct Hst as ((Eb & _) & _). rewrite Eb, length_app. lia.
Qed.

Lemma rule_charged tags levels : charged (ruleEnc tags levels).
Proof.
  induction levels as [|l IH]; intros c rs k; [done|]. simpl.
  intros [(c' & _ & Hi)|(mode & n & count & c' & _ & _ & _ & _ & Hp)].
  - by eapply items_charged.
  - by eapply charged_pow.
Qed.

(** The logical rule, given what its children accept. *)
Definition logicalEnc (E : lang) : lang := fun c rs k => exists mode n count c',
  c = mode :: count ++ c' ++ [0] /\ mode ∈ [0; 1] /\ uvarintEnc count n /\
  n <= firewallGeoMaxLogicalRuleCount /\ lpow (Z.to_nat n) E c' rs k.

Lemma accepts_logical child E : charged E -> accepts child E ->
  accepts (parseFirewallGeoSRSLogicalRule child) (logicalEnc E).
Proof.
  intros HE Hchild.
  apply (accepts_ext _ (lread (fun c b => c = [b]) (fun mode =>
    lguard (negb (mode =? 0) && negb (mode =? 1) = false)
      (lread uvarintEnc (fun n => lguard ((firewallGeoMaxLogicalRuleCount <? n) = false)
        (lseq (lpow (Z.to_nat n) E) (fun c rs k => c = [0] /\ rs = [] /\ k = 0))))))).
  - intros c rs k. split.
    + intros (mode & c1 & c2 & -> & -> & Hmode & n & count & c4 & -> & Hn & Hle &
              c5 & c6 & r5 & r6 & k5 & k6 & -> & -> & -> & Hp & -> & -> & ->).
      rewrite app_nil_r, Z.add_0_r. apply Z.ltb_ge in Hle.
      exists mode, n, count, c5. split_and!; try done.
      rewrite !elem_of_cons. destruct (Z.eqb_spec mode 0), (Z.eqb_spec mode 1); auto; done.
    + intros (mode & n & count & c' & -> & Hmode & Hn & Hle & Hp).
      exists mode, [mode], (count ++ c' ++ [0]). split; [done|]. split; [done|]. split.
      * rewrite !elem_of_cons in Hmode. destruct Hmode as [->|[->|Hm]]; [done|done|].
        by apply elem_of_nil in Hm.
      * exists n, count, (c' ++ [0]). split; [done|]. split; [done|].
        split; [by apply Z.ltb_ge|].
        exists c', [0], rs, [], k, 0. rewrite app_nil_r, Z.add_0_r. done.
  - assert (Hch : forall n, charged (lseq (lpow n E) (fun c rs k => c = [0] /\ rs = [] /\ k = 0))).
    { intros n c rs k (c1 & c2 & r1 & r2 & k1 & k2 & _ & _ & -> & Hp & _ & _ & ->).
      apply charged_pow in Hp; [lia|done]. }
    apply accepts_read; [apply reads_byte|intros mode _ _ _; apply accepts_if|].
    + apply accepts_read; [apply reads_uvarint|intros n _ _ _; apply accepts_if|].
      * apply accepts_seq; [by apply charged_pow|by intros c rs k (_ & _ & ->)|
          by apply accepts_for|apply accepts_invert].
      * intros n c rs k [_ Hs]. by eapply Hch.
    + intros mode c rs k (_ & n & c1 & c2 & _ & _ & _ & Hs). by eapply Hch.
Qed.

(** The depth check and the levels agree. *)
Lemma accepts_rule levels : forall depth, depth + Z.of_nat levels = firewallGeoMaxSRSDepth + 1 ->
  accepts (parseFirewallGeoSRSRule levels depth) (ruleEnc srsSetTags levels).
Proof.
  unfold firewallGeoMaxSRSDepth. induction levels as [|l IH]; intros depth Hd; simpl;
    unfold firewallGeoMaxSRSDepth; destruct (Z.ltb_spec 64 depth); try lia; [apply accepts_fail|].
  set (body := fun t : Z => if t =? 0 then itemsEnc srsSetTags
                 else if t =? 1 then logicalEnc (ruleEnc srsSetTags l) else lnone).
  assert (Hbody : forall t, charged (body t)).
  { intros t. unfold body. destruct (t =? 0); [apply items_charged|].
    destruct (t =? 1); [|by intros c rs k []].
    intros c rs k (mode & n & count & c' & _ & _ & _ & _ & Hp).
    eapply charged_pow; [apply rule_charged|done]. }
  apply (accepts_ext _ (lread (fun c b => c = [b]) body)).
  - intros c rs k. unfold body. split.
    + intros (t & c1 & c2 & -> & -> & Hb). destruct (Z.eqb_spec t 0) as [->|]; [left; by exists c2|].
      destruct (Z.eqb_spec t 1) as [->|]; [|done].
      destruct Hb as (mode & m & count & c' & -> & Hb). right. by exists mode, m, count, c'.
    + intros [(c' & -> & Hi)|(mode & m & count & c' & -> & Hb)].
      * by exists 0, [0], c'.
      * exists 1, [1], (mode :: count ++ c' ++ [0]). split; [done|]. split; [done|].
        by exists mode, m, count, c'.
  - apply accepts_read; [apply reads_byte| |done]. intros t _ _ _. unfold body.
    destruct (t =? 0); [apply accepts_default|]. destruct (t =? 1); [|apply accepts_fail].
    apply accepts_logical; [apply rule_charged|apply IH; lia].
Qed.

Lemma accepts_srsBody : accepts srsBody (srsFile srsSetTags).
Proof.
  apply (accepts_ext _ (lread uvarintEnc (fun n =>
    lguard ((firewallGeoMaxCompressedRuleCount <? n) = false)
      (lpow (Z.to_nat n) (ruleEnc srsSetTags srsLevels))))).
  - intros c rs k. split.
    + intros (n & c1 & c2 & -> & Hn & Hle & Hp). apply Z.ltb_ge in Hle. by exists c1, n, c2.
    + intros (count & n & c' & -> & Hn & Hle & Hp). exists n, count, c'.
      split; [done|]. split; [done|]. split; [by apply Z.ltb_ge|done].
  - apply accepts_read; [apply reads_uvarint|intros n _ _ _; apply accepts_if|].
    + apply accepts_for; [apply rule_charged|apply accepts_rule; reflexivity].
    + intros n c rs k [_ Hp]. eapply charged_pow; [apply rule_charged|done].
Qed.

(** ** MRS *)

(** A range: two addresses of sixteen bytes. *)
Definition mrsRangeEnc : lang := fun c rs k => exists f t, c = f ++ t /\
  length f = 16%nat /\ length t = 16%nat /\
  rs = [(Unmap (AddrFrom16 f), Unmap (AddrFrom16 t))] /\ k = 0.

(** The header: magic, behaviour 1, a count, and extra data with its length. *)
Definition mrsHeaderEnc (c : list Z) : Prop := exists count extra skipped,
  c = firewallGeoMRSMagic ++ [1] ++ count ++ extra ++ skipped /\
  length count = 8%nat /\ length extra = 8%nat /\
  0 <= int64Of count <= firewallGeoMaxCompressedRuleCount /\
  int64Of extra = Z.of_nat (length skipped) /\ int64Of extra <= firewallGeoMaxDecodedBytes.

(** The body: the header, version 1, the number of ranges and the ranges. *)
Definition mrsFile : lang := fun c rs k => exists header raw c',
  c = header ++ [1] ++ raw ++ c' /\ mrsHeaderEnc header /\ length raw = 8%nat /\
  k = int64Of raw /\ 1 <= k <= firewallGeoMaxIPSetRanges /\
  lpow (Z.to_nat k) mrsRangeEnc c' rs 0.

Lemma accepts_mrsRange : accepts readMRSRange mrsRangeEnc.
Proof.
  apply (accepts_ext _ (lread (fun c l => c = l /\ length l = 16%nat) (fun f =>
    lread (fun c l => c = l /\ length l = 16%nat)
      (fun t => oneRange (Unmap (AddrFrom16 f)) (Unmap (AddrFrom16 t)))))).
  - intros c rs k. split.
    + intros (f & c1 & c2 & -> & [-> Hf] & t & c3 & c4 & -> & [-> Ht] & -> & -> & ->).
      exists f, t. by rewrite app_nil_r.
    + intros (f & t & -> & Hf & Ht & -> & ->). exists f, f, t. split; [done|]. split; [done|].
      exists t, t, []. by rewrite app_nil_r.
  - apply accepts_read; [apply reads_full|intros f _ _ _; apply accepts_read;
      [apply reads_full|intros t _ _ _; apply accepts_addIPRange|by intros ? ? ? ? (_ & _ & ->)]|].
    by intros f ? ? ? (t & ? & ? & _ & _ & _ & _ & ->).
Qed.

Lemma free_mrsRange : free mrsRangeEnc.
Proof. by intros c rs k (f & t & _ & _ & _ & _ & ->). Qed.

Lemma reads_discard n : 0 < n -> reads (pread (discardN n)) (fun c _ => Z.of_nat (length c) = n).
Proof.
  intros Hn. apply reads_pread. intros r _ [] r'. unfold discardN.
  set (avail := match rdLimit r with Some k => Z.min (Z.max 0 k) (Z.of_nat (length (rdBytes r)))
                | None => Z.of_nat (length (rdBytes r)) end).
  assert (Ha : avail <= Z.of_nat (length (rdBytes r))) by (unfold avail; destruct (rdLimit r); lia).
  split.
  - destruct (Z.leb_spec n avail) as [Hle|]; [|done]. intros Heq. simplify_eq.
    rewrite Z.min_l by lia. exists (take (Z.to_nat n) (rdBytes r)).
    rewrite length_take, Nat.min_l by lia. split; [lia|]. unfold eats. simpl.
    rewrite length_take, Nat.min_l, Z2Nat.id by lia. rewrite take_drop. split_and!; try done.
    right. unfold avail in Hle. destruct (rdLimit r); lia || done.
  - intros (c & Hc & Hb & He & Hl & Hm).
    assert (Hle : n <= avail).
    { unfold avail. rewrite Hb, length_app. destruct Hm as [->|Hm]; [simpl in Hc; lia|].
      destruct (rdLimit r); lia. }
    destruct (Z.leb_spec n avail); [|lia]. rewrite Z.min_l by lia. f_equal.
    destruct r' as [b' l' e']. simpl in *. subst. rewrite Hb.
    assert (Hd : drop (Z.to_nat (Z.of_nat (length c))) (c ++ b') = b').
    { rewrite Nat2Z.id. apply drop_app_length. }
    by rewrite Hd.
Qed.

Lemma reads_skip n : 0 <= n ->
  reads (if 0 <? n then pread (discardN n) else pret tt) (fun c _ => Z.of_nat (length c) = n).
Proof.
  intros Hn. destruct (Z.ltb_spec 0 n); [by apply reads_discard|].
  replace n with 0 by lia. intros s Hs [] s'. split.
  - intros Heq. inversion Heq. subst. exists []. split; [done|]. by apply steps_nil.
  - intros (c & Hc & Hst). assert (c = []) as -> by (apply nil_length_inv; lia).
    by rewrite (steps_nil_inv _ _ Hst).
Qed.

Lemma reads_guard {A} (b : bool) e (m : P A) (Q : Prop) V : (b = false <-> Q) ->
  (Q -> reads m V) -> reads (if b then pfail e else m) (fun c x => Q /\ V c x).
Proof.
  intros HQ Hm s Hs x s'. destruct b.
  - split; [done|]. intros (c & [Hq _] & _). by apply HQ in Hq.
  - assert (Hq : Q) by by apply HQ. rewrite (Hm Hq s Hs x s').
    split; intros (c & Hc & Hst); exists c; (split; [|done]); [done|apply Hc].
Qed.

Lemma reads_mrsHeader : reads mrsHeader (fun c _ => mrsHeaderEnc c).
Proof.
  eapply reads_ext; [|eapply reads_bind; [apply reads_full|]; intros magic; apply reads_if;
    eapply reads_bind; [apply reads_full|]; intros behavior; apply reads_if;
    eapply reads_bind; [apply reads_full|]; intros count; apply reads_if, reads_if;
    eapply reads_bind; [apply reads_full|]; intros extra;
    apply (reads_guard _ _ _ (0 <= int64Of extra)); [apply Z.ltb_ge|]; intros Hex;
    apply reads_if, reads_skip, Hex].
  intros c [].
  assert (Hdec : forall l k : list Z, negb (bool_decide (l = k)) = false <-> l = k).
  { intros l k. rewrite negb_false_iff. apply bool_decide_eq_true. }
  split.
  - intros (m & c1 & c2 & -> & [-> Hm] & Hm' & b & c3 & c4 & -> & [-> Hb] & Hb' & n & c5 & c6 & -> &
            [-> Hn] & Hn1 & Hn2 & x & c7 & c8 & -> & [-> Hx] & Hx1 & Hx2 & Hs).
    apply Hdec in Hm' as ->. apply Hdec in Hb' as ->. apply Z.ltb_ge in Hn1, Hn2, Hx2.
    exists n, x, c8. split_and!; try done.
  - intros (count & extra & skipped & -> & Hc & Hx & [Hc1 Hc2] & Hs & Hle).
    exists firewallGeoMRSMagic, firewallGeoMRSMagic, ([1] ++ count ++ extra ++ skipped).
    split; [done|]. split; [done|]. split; [by apply Hdec|].
    exists [1], [1], (count ++ extra ++ skipped). split; [done|]. split; [done|]. split; [by apply Hdec|].
    exists count, count, (extra ++ skipped). split; [done|]. split; [done|].
    split; [by apply Z.ltb_ge|]. split; [by apply Z.ltb_ge|].
    exists extra, extra, skipped. split; [done|]. split; [done|]. split; [lia|].
    split; [by apply Z.ltb_ge|]. lia.
Qed.

Lemma accepts_mrsBody : accepts mrsBody mrsFile.
Proof.
  apply (accepts_ext _ (lread (fun c (_ : unit) => mrsHeaderEnc c) (fun _ =>
    lread (fun c l => c = l /\ length l = 1%nat) (fun version =>
      lguard (negb (bool_decide (version = [1])) = false)
      (lread (fun c l => c = l /\ length l = 8%nat) (fun raw =>
         lguard ((int64Of raw <? 1) = false)
        (lguard ((firewallGeoMaxIPSetRanges <? int64Of raw) = false)
           (fun c rs k => lpow (Z.to_nat (int64Of raw)) mrsRangeEnc c rs 0 /\ k = int64Of raw
                          /\ 0 <= k)))))))).
  - intros c rs k. split.
    + intros ([] & h & c2 & -> & Hh & v & c3 & c4 & -> & [-> _] & Hv & raw & c5 & c6 & -> &
              [-> Hr] & H1 & H2 & Hp & -> & _).
      apply negb_false_iff, bool_decide_eq_true in Hv as ->. apply Z.ltb_ge in H1, H2.
      by exists h, raw, c6.
    + intros (h & raw & c' & -> & Hh & Hr & -> & [H1 H2] & Hp).
      exists tt, h, ([1] ++ raw ++ c'). split; [done|]. split; [done|].
      exists [1], [1], (raw ++ c'). split; [done|]. split; [done|]. split; [done|].
      exists raw, raw, c'. split; [done|]. split; [done|]. split; [by apply Z.ltb_ge|].
      split; [by apply Z.ltb_ge|]. split; [done|]. split; [done|]. lia.
  - apply accepts_read; [apply reads_mrsHeader|intros _ _ _ _|].
    + apply accepts_read; [apply reads_full|intros version _ _ _; apply accepts_if|].
      * apply accepts_read; [apply reads_full|intros raw _ _ _|].
        -- cbv zeta. destruct (Z.ltb_spec (int64Of raw) 1) as [Hlt|Hge].
           ++ intros s Hs s'. split; [unfold pfail; done|]. by intros (? & ? & ? & [? _] & _).
           ++ apply (accepts_if false ErrMRSLength). apply accepts_if.
              eapply accepts_ext; [|apply accepts_pcharge_for;
                [apply free_mrsRange|apply accepts_mrsRange|lia]].
              intros c rs k. split; [intros [? ->]; split_and!; try done; lia|intros (? & -> & _); done].
        -- by intros raw ? ? ? (_ & _ & _ & _ & ?).
      * by intros v ? ? ? (_ & raw & ? & ? & _ & _ & _ & _ & _ & _ & ?).
    + by intros u ? ? ? (v & ? & ? & _ & _ & _ & raw & ? & ? & _ & _ & _ & _ & _ & _ & ?).
Qed.
End Accept.

(** ** A set builder that keeps the promises *)

(** The blocks of [2 ^ n] addresses from [base] that make up the part of the
    range in it. *)
Fixpoint cover (n : nat) (is4 : bool) (base f t : Z) : list prefix :=
  let last := base + 2 ^ Z.of_nat n - 1 in
  if (t <? base) || (last <? f) then []
  else if (f <=? base) && (last <=? t) then
    [mkPrefix (mkAddr is4 base "") (bitLen is4 - Z.of_nat n)]
  else match n with
       | O => []
       | S n => cover n is4 base f t ++ cover n is4 (base + 2 ^ Z.of_nat n) f t
       end.

Lemma block_in is4 base n a : 0 <= n -> base mod 2 ^ n = 0 ->
  inPrefix (mkPrefix (mkAddr is4 base "") (bitLen is4 - n)) a <->
  aIs4 a = is4 /\ aZone a = "" /\ base <= aVal a < base + 2 ^ n.
Proof.
  intros Hn Hb. assert (0 < 2 ^ n) by (apply Z.pow_pos_nonneg; lia).
  unfold inPrefix, hostBits. simpl. replace (bitLen is4 - (bitLen is4 - n)) with n by lia.
  pose proof (Z.div_mod base (2 ^ n) ltac:(lia)) as Eb.
  split; intros (-> & -> & Hv); split_and!; try done.
  - pose proof (Z.mul_div_le (aVal a) (2 ^ n)). rewrite Hv in *. lia.
  - pose proof (Z.mod_pos_bound (aVal a) (2 ^ n)). pose proof (Z.div_mod (aVal a) (2 ^ n)).
    rewrite Hv in *. lia.
  - symmetry. apply (Z.div_unique _ _ _ (aVal a - base)); [lia|]. lia.
Qed.

(** The prefixes [ps] are valid and cover the addresses from [base] on, [sz]
    many, that are in the range. *)
Definition coversPart (ps : list prefix) (is4 : bool) (base sz f t : Z) : Prop :=
  Forall validPrefix ps /\ forall a, inPrefixes ps a <->
    aIs4 a = is4 /\ aZone a = "" /\ f <= aVal a <= t /\ base <= aVal a < base + sz.

Lemma covers_nothing is4 base sz f t : t < base \/ base + sz - 1 < f -> coversPart [] is4 base sz f t.
Proof.
  intros Ho. split; [done|]. intros a. split; [intros (p & Hp & _); by apply elem_of_nil in Hp|lia].
Qed.

Lemma covers_block is4 base n f t : 0 <= n <= bitLen is4 -> 0 <= base -> base mod 2 ^ n = 0 ->
  base + 2 ^ n <= 2 ^ bitLen is4 -> f <= base -> base + 2 ^ n - 1 <= t ->
  coversPart [mkPrefix (mkAddr is4 base "") (bitLen is4 - n)] is4 base (2 ^ n) f t.
Proof.
  intros Hn Hb Hm Hl Hf Ht. assert (0 < 2 ^ n) by (apply Z.pow_pos_nonneg; lia). split.
  - apply Forall_singleton. unfold validPrefix, validAddr. simpl. split_and!; try done; lia.
  - intros a. split.
    + intros (p & Hp & Ha). apply list_elem_of_singleton in Hp as ->.
      apply block_in in Ha as (? & ? & ?); [|lia|done]. split_and!; try done; lia.
    + intros (? & ? & ? & ?). eexists. split; [by apply list_elem_of_singleton|].
      apply block_in; [lia|done|]. split_and!; try done; lia.
Qed.

Lemma covers_halves ps qs is4 base sz f t : 0 <= sz ->
  coversPart ps is4 base sz f t -> coversPart qs is4 (base + sz) sz f t ->
  coversPart (ps ++ qs) is4 base (2 * sz) f t.
Proof.
  intros Hsz [Hv1 H1] [Hv2 H2]. split; [by apply Forall_app|]. intros a.
  assert (Happ : inPrefixes (ps ++ qs) a <-> inPrefixes ps a \/ inPrefixes qs a).
  { unfold inPrefixes. split.
    - intros (p & [Hp|Hp]%elem_of_app & Ha); [left|right]; by exists p.
    - intros [(p & Hp & Ha)|(p & Hp & Ha)]; exists p; (split; [|done]); apply elem_of_app; auto. }
  rewrite Happ, H1, H2. split.
  - intros [(? & ? & ? & ?)|(? & ? & ? & ?)]; split_and!; try done; lia.
  - intros (? & ? & ? & ?). destruct (decide (aVal a < base + sz)); [left|right]; split_and!; try done; lia.
Qed.

Lemma cover_spec is4 f t : forall n base, Z.of_nat n <= bitLen is4 -> 0 <= base ->
  base mod 2 ^ Z.of_nat n = 0 -> base + 2 ^ Z.of_nat n <= 2 ^ bitLen is4 ->
  coversPart (cover n is4 base f t) is4 base (2 ^ Z.of_nat n) f t.
Proof.
  induction n as [|n IH]; intros base Hn Hb Hm Hlast; cbn [cover].
  - change (2 ^ Z.of_nat 0) with 1 in *.
    destruct (_ || _) eqn:Eo; [apply covers_nothing; apply orb_true_iff in Eo; rewrite !Z.ltb_lt in Eo; lia|].
    apply orb_false_elim in Eo as [Eo1 Eo2]. apply Z.ltb_ge in Eo1, Eo2.
    destruct (Z.leb_spec f base), (Z.leb_spec (base + 1 - 1) t); try lia.
    by apply (covers_block is4 base 0).
  - destruct (_ || _) eqn:Eo; [apply covers_nothing; apply orb_true_iff in Eo; rewrite !Z.ltb_lt in Eo; lia|].
    destruct (_ && _) eqn:Ei.
    { apply andb_prop in Ei as [Ei1 Ei2]. apply Z.leb_le in Ei1, Ei2.
      apply covers_block; try done; lia. }
    assert (Hp : 2 ^ Z.of_nat (S n) = 2 * 2 ^ Z.of_nat n) by (rewrite Nat2Z.inj_succ; apply Z.pow_succ_r; lia).
    assert (0 < 2 ^ Z.of_nat n) by (apply Z.pow_pos_nonneg; lia).
    assert (Hm' : base mod 2 ^ Z.of_nat n = 0).
    { rewrite Hp in Hm. apply Z.mod_divide; [lia|]. apply Z.mod_divide in Hm; [|lia].
      destruct Hm as [q ->]. exists (2 * q). ring. }
    rewrite Hp in *. apply covers_halves; [lia|apply IH; try done; lia|apply IH; try lia].
    rewrite <- Zplus_mod_idemp_l, Hm', Z.add_0_l. apply Z_mod_same_full.
Qed.

(** The set as the list of what was added. *)
Definition demoRange (f t : addr) : list prefix :=
  if Bool.eqb (aIs4 f) (aIs4 t) then cover (Z.to_nat (bitLen (aIs4 f))) (aIs4 f) 0 (aVal f) (aVal t)
  else [].

Definition demoIPS : IPSetLib := {|
  ipBuilder := list prefix;
  ipsNew := [];
  ipsAddPrefix p b := b ++ [p];
  ipsAdd a b := b ++ [mkPrefix a (bitLen (aIs4 a))];
  ipsPrefixes b := Some b;
  rangePrefixes := demoRange |}.

Lemma demoRange_spec f t : plainRange (f, t) -> Forall validPrefix (demoRange f t) /\
  forall a, inPrefixes (demoRange f t) a <-> inRange (f, t) a.
Proof.
  intros [[[Hf _] _] [[Ht _] _]]. simpl in Hf, Ht. unfold demoRange, inRange. simpl.
  destruct (Bool.eqb_spec (aIs4 f) (aIs4 t)) as [E|E].
  - rewrite <- E in Ht. assert (0 <= bitLen (aIs4 f)) by by destruct (aIs4 f).
    destruct (cover_spec (aIs4 f) (aVal f) (aVal t) (Z.to_nat (bitLen (aIs4 f))) 0) as [Hv Hc];
      rewrite ?Z2Nat.id by lia; [lia|lia|apply Z.mod_0_l; lia|lia|].
    split; [done|]. intros a. rewrite Hc, Z2Nat.id by lia.
    split; intros Ha; split_and!; try tauto; try lia.
  - split; [done|]. intros a. split; [intros (p & Hp & _); by apply elem_of_nil in Hp|tauto].
Qed.

Lemma single_in x a : plainAddr x -> inPrefix (mkPrefix x (bitLen (aIs4 x))) a <-> a = x.
Proof.
  intros [_ Hz]. unfold inPrefix, hostBits. simpl. rewrite Z.sub_diag. change (2 ^ 0) with 1.
  rewrite !Z.div_1_r. destruct x as [i v z], a as [i' v' z']. simpl in *. subst z.
  split; [by intros (-> & -> & ->)|by intros [= -> -> ->]].
Qed.

Lemma inPrefixes_snoc b p a : inPrefixes (b ++ [p]) a <-> inPrefixes b a \/ inPrefix p a.
Proof.
  unfold inPrefixes. split.
  - intros (q & Hq & Ha). apply elem_of_app in Hq as [Hq|Hq]; [left; by exists q|].
    apply list_elem_of_singleton in Hq as ->. by right.
  - intros [(q & Hq & Ha)|Ha]; [exists q|exists p]; (split; [|done]); apply elem_of_app; [by left|].
    right. by apply list_elem_of_singleton.
Qed.

Definition demoLaws : @IPSetLaws demoIPS.
Proof.
  refine {| ipsMember (b : @ipBuilder demoIPS) a := inPrefixes b a;
            ipsOk (b : @ipBuilder demoIPS) := Forall validPrefix b |}.
  - split; [constructor|]. intros a (p & Hp & _). by apply elem_of_nil in Hp.
  - intros p b Hp Hb. split; [apply Forall_app; split; [done|by apply Forall_singleton]|].
    intros a. apply inPrefixes_snoc.
  - intros x b [Hx Hz] Hb. split.
    + apply Forall_app. split; [done|]. apply Forall_singleton. unfold validPrefix. simpl.
      split_and!; [done|done| |lia]. by destruct (aIs4 x).
    + intros a. rewrite <- (single_in x a) by done. apply inPrefixes_snoc.
  - intros b Hb. exists b. done.
  - intros f t Hr. by apply demoRange_spec.
  - intros f t a Hr. by apply demoRange_spec.
Defined.

(** Streams stored without compression, and a JSON decoder of tokens. *)
Definition storedStream (z : list Z) : geoErr + list Z * geoErr :=
  if forallb (fun b => (0 <=? b) && (b <? 256)) z then inr (z, ErrEOF) else inl ErrDecode.

Definition demoEnv : GeoEnv := {|
  decodeZlib := storedStream;
  decodeZstd := storedStream;
  jsonDecoder := list (jtoken + json);
  jsonNew _ := [inl (TDelim "{"); inl (TString "rules"); inl (TDelim "[");
                inr (JObject [("ip_cidr", JString "10.0.0.0/8")]); inl (TDelim "]"); inl (TDelim "}")];
  jsonToken d := match d with inl t :: d => inr (t, d) | [] => inl ErrEOF | _ => inl ErrJSON end;
  jsonMore d := match d with inl (TDelim "]") :: _ | inl (TDelim "}") :: _ | [] => false | _ => true end;
  jsonDecode d := match d with inr v :: d => inr (v, d) | [] => inl ErrEOF | _ => inl ErrJSON end;
  jsonLeft d := length d;
  sha256Hex s := s;
  urlPath s := Some s |}.

Lemma stored_bytes z body e : storedStream z = inr (body, e) -> Forall isByte body.
Proof.
  unfold storedStream. destruct (forallb _ z) eqn:E; [|done]. intros [= <- _].
  apply Forall_forall. intros b Hb. rewrite forallb_forall in E.
  specialize (E b). rewrite <- list_elem_of_In in E. specialize (E Hb).
  apply andb_prop in E as [E1 E2]. apply Z.leb_le in E1. apply Z.ltb_lt in E2. done.
Qed.

Lemma stored_ends z : match storedStream z with inl e => e = ErrDecode
                      | inr (_, e) => e = ErrEOF \/ e = ErrDecode end.
Proof. unfold storedStream. destruct (forallb _ z); auto. Qed.

Lemma demoEnvLaws : @GeoEnvLaws demoEnv.
Proof.
  split; simpl.
  - exact stored_bytes.
  - exact stored_bytes.
  - exact stored_ends.
  - exact stored_ends.
  - intros [|[t|v] d] e; simpl; intros [= <-]; auto.
  - intros [|[t|v] d] e; simpl; intros [= <-]; auto.
  - intros [|[t|v] d] t' d'; simpl; intros [= <- <-]. simpl. lia.
  - intros [|[t|v] d] t' d'; simpl; intros [= <- <-]. simpl. lia.
Qed.
