(* ===== verification/GeoParserCorrect.v ===== *)
(** * The GeoIP parsers are exact

    What the result of a parse means, as a set of addresses, and the theorems:
    the SRS and MRS parsers return exactly the prefixes of the files their
    grammar describes, and merging the results of several sources is union. *)

From stdpp Require Import base gmap list strings.
From Stdlib Require Import ZArith Lia Ascii.
From S2P Require Import Prelude GoStrings NetIP GeoParser GeoGrammar.

#[local] Open Scope Z_scope.

(** ** What the result means *)

Section Meaning.
Context `{IPS : IPSetLib, LAWS : !IPSetLaws, ENV : GeoEnv, EL : !GeoEnvLaws}.

(** An address is covered by a result when a printed prefix, read back,
    contains it. *)
Definition covers (res : firewallGeoResolvedPrefixes) (a : addr) : Prop :=
  exists s p, s ∈ resIPv4 res ++ resIPv6 res /\ ParsePrefix s = Some p /\ inPrefix p a.

Definition printsFamily (is4 : bool) (s : string) : Prop :=
  exists p, validPrefix p /\ aIs4 (pAddr p) = is4 /\ s = prefixString p.

(** The lists hold printed prefixes of their family, and the count is theirs
    and within the limit. *)
Definition resOk (res : firewallGeoResolvedPrefixes) : Prop :=
  Forall (printsFamily true) (resIPv4 res) /\ Forall (printsFamily false) (resIPv6 res) /\
  resPrefixCount res = Z.of_nat (length (resIPv4 res ++ resIPv6 res)) /\
  1 <= resPrefixCount res <= firewallGeoMaxPrefixCount.

(** A result for a set of ranges. *)
Definition resolved (res : firewallGeoResolvedPrefixes) (rs : list (addr * addr)) : Prop :=
  resOk res /\ forall a, covers res a <-> exists r, r ∈ rs /\ inRange r a.

Lemma addPrefixes_member ps : forall b, Forall validPrefix ps -> ipsOk b ->
  ipsOk (addPrefixes ps b) /\
  forall a, ipsMember (addPrefixes ps b) a <-> ipsMember b a \/ inPrefixes ps a.
Proof.
  induction ps as [|p ps IH]; intros b Hps Hb; simpl.
  - split; [done|]. intros a. split; [by left|]. intros [?|(p & Hp & _)]; [done|].
    by apply elem_of_nil in Hp.
  - apply Forall_cons in Hps as [Hp Hps].
    destruct (ips_addPrefix (Masked p) b (Masked_valid p Hp) Hb) as [Hok Hm].
    destruct (IH _ Hps Hok) as [Hok' Hm']. split; [done|]. intros a.
    rewrite Hm', Hm, Masked_in by done. unfold inPrefixes. split.
    + intros [[?|Hin]|(q & Hq & Hin)]; [by left|right; exists p|right; exists q];
        (split; [|done]); rewrite elem_of_cons; auto.
    + intros [?|(q & Hq & Hin)]; [auto|]. apply elem_of_cons in Hq as [->|Hq]; [auto|].
      right. by exists q.
Qed.

Lemma addRanges_member rs : forall b, Forall plainRange rs -> ipsOk b ->
  ipsOk (addRanges rs b) /\
  forall a, ipsMember (addRanges rs b) a <-> ipsMember b a \/ exists r, r ∈ rs /\ inRange r a.
Proof.
  induction rs as [|[f t] rs IH]; intros b Hrs Hb; simpl.
  - split; [done|]. intros a. split; [by left|]. intros [?|(r & Hr & _)]; [done|].
    by apply elem_of_nil in Hr.
  - apply Forall_cons in Hrs as [Hr Hrs].
    destruct (addPrefixes_member (rangePrefixes f t) b (range_valid f t Hr) Hb) as [Hok Hm].
    destruct (IH _ Hrs Hok) as [Hok' Hm']. split; [done|]. intros a.
    rewrite Hm', Hm, range_covers by done. split.
    + intros [[?|Hin]|(q & Hq & Hin)]; [by left|right; exists (f, t)|right; exists q];
        (split; [|done]); rewrite elem_of_cons; auto.
    + intros [?|(q & Hq & Hin)]; [auto|]. apply elem_of_cons in Hq as [->|Hq]; [auto|].
      right. by exists q.
Qed.

Lemma build_meaning b res : ipsOk b -> buildFirewallGeoResolvedPrefixes b = inr res ->
  resOk res /\ forall a, covers res a <-> ipsMember b a.
Proof.
  intros Hok. destruct (ips_prefixes b Hok) as (qs & Hq & Hv & Hm).
  unfold buildFirewallGeoResolvedPrefixes. rewrite Hq.
  destruct (Z.eqb_spec (Z.of_nat (length qs)) 0); [done|].
  destruct (Z.ltb_spec firewallGeoMaxPrefixCount (Z.of_nat (length qs))); [done|].
  intros Heq. inversion Heq as [Hres]. clear Heq Hres. unfold resOk, covers. simpl.
  rewrite Forall_forall in Hv.
  set (text := fun p => prefixString (Masked p)).
  set (v4 := filter (fun p => aIs4 (pAddr p) = true) qs).
  set (v6 := filter (fun p => aIs4 (pAddr p) = false) qs).
  assert (Hperm : v4 ++ v6 ≡ₚ qs).
  { pose proof (filter_app_complement (fun p => aIs4 (pAddr p) = true) qs) as Hc. unfold v6.
    rewrite (list_filter_iff _ (fun p => ~ aIs4 (pAddr p) = true)); [done|].
    intros p. destruct (aIs4 (pAddr p)); split; congruence. }
  assert (Hin : forall p, p ∈ v4 ++ v6 <-> p ∈ qs) by (intros p; by rewrite Hperm).
  assert (Hlen : (length v4 + length v6)%nat = length qs) by (rewrite <- length_app; by apply Permutation_length).
  split.
  - split_and!.
    + apply Forall_fmap, Forall_forall. intros p [Hf Hp]%list_elem_of_filter. exists (Masked p).
      split_and!; [by apply Masked_valid, Hv|done|done].
    + apply Forall_fmap, Forall_forall. intros p [Hf Hp]%list_elem_of_filter. exists (Masked p).
      split_and!; [by apply Masked_valid, Hv|done|done].
    + rewrite length_app, !length_fmap. lia.
    + rewrite !length_fmap. fold v4 v6. lia.
    + rewrite !length_fmap. fold v4 v6. lia.
  - intros a. rewrite <- Hm. change (fun p : prefix => prefixString (Masked p)) with text.
    rewrite <- fmap_app. split.
    + intros (s & p & Hs & Hp & Ha). apply list_elem_of_fmap in Hs as (q & -> & Hq').
      apply Hin in Hq'. unfold text in Hp.
      rewrite ParsePrefix_String in Hp by by apply Masked_valid, Hv. simplify_eq.
      exists q. split; [done|]. apply Masked_in; [by apply Hv|done].
    + intros (q & Hq' & Ha). exists (text q), (Masked q). split_and!.
      * apply list_elem_of_fmap_2. by apply Hin.
      * apply ParsePrefix_String. by apply Masked_valid, Hv.
      * apply Masked_in; [by apply Hv|done].
Qed.

Lemma build_resolved rs res : Forall plainRange rs ->
  buildFirewallGeoResolvedPrefixes (addRanges rs ipsNew) = inr res -> resolved res rs.
Proof.
  intros Hrs Hb. destruct ips_new as [Hok Hno].
  destruct (addRanges_member rs ipsNew Hrs Hok) as [Hok' Hm].
  destruct (build_meaning _ _ Hok' Hb) as [Hres Hc]. split; [done|]. intros a.
  rewrite Hc, Hm. split; [intros [Hn|?]; [by apply Hno in Hn|done]|by right].
Qed.

(** *** The addresses of a file are plain *)

Lemma Unmap_plain a : plainAddr a -> plainAddr (Unmap a).
Proof.
  intros [[Hv Hz4] Hz]. unfold Unmap. destruct (Is4In6 a); [|done].
  split; [split|]; simpl; [|done|done]. apply Z.mod_pos_bound. lia.
Qed.

Lemma AddrFrom4_plain raw : Forall isByte raw -> length raw = 4%nat -> plainAddr (AddrFrom4 raw).
Proof.
  intros Hb Hl. pose proof (digitsVal_range 256 raw ltac:(lia) Hb) as H. rewrite Hl in H.
  split; [split|]; simpl; [|done|done]. apply H.
Qed.

Lemma AddrFrom16_plain raw : Forall isByte raw -> length raw = 16%nat -> plainAddr (AddrFrom16 raw).
Proof.
  intros Hb Hl. pose proof (digitsVal_range 256 raw ltac:(lia) Hb) as H. rewrite Hl in H.
  split; [split|]; simpl; [|done|done]. apply H.
Qed.

Lemma addrEnc_plain c a : Forall isByte c -> addrEnc c a -> plainAddr a.
Proof.
  intros Hb (n & raw & -> & _ & Ha). apply Forall_app in Hb as [_ Hb].
  destruct Ha as [[Hl ->]|[Hl ->]]; apply Unmap_plain;
    [by apply AddrFrom4_plain|by apply AddrFrom16_plain].
Qed.

Definition plainLang (E : lang) : Prop := forall c rs k, Forall isByte c -> E c rs k -> Forall plainRange rs.

Lemma plain_pow n E : plainLang E -> plainLang (lpow n E).
Proof.
  intros HE. induction n as [|n IH]; intros c rs k Hb; simpl; [by intros (_ & -> & _)|].
  intros (c1 & c2 & r1 & r2 & k1 & k2 & -> & -> & _ & H1 & H2).
  apply Forall_app in Hb as [Hb1 Hb2]. apply Forall_app. split; [exact (HE _ _ _ Hb1 H1)|exact (IH _ _ _ Hb2 H2)].
Qed.

Lemma plain_range : plainLang rangeEnc.
Proof.
  intros c rs k Hb (c1 & c2 & f & t & -> & Hf & Ht & -> & _). apply Forall_app in Hb as [Hb1 Hb2].
  apply Forall_singleton.
  split; [exact (addrEnc_plain _ _ Hb1 Hf)|exact (addrEnc_plain _ _ Hb2 Ht)].
Qed.

Lemma plain_items tags : plainLang (itemsEnc tags).
Proof.
  intros c rs k Hb Hi. induction Hi as [|t c1 r1 k1 c2 r2 k2 _ Hs _ IH]; [done|].
  apply Forall_cons in Hb as [_ Hb]. apply Forall_app in Hb as [Hb1 Hb2]. apply Forall_app.
  split; [|by apply IH]. destruct Hs as (raw & c' & -> & _ & _ & _ & Hp).
  apply Forall_cons in Hb1 as [_ Hb1]. apply Forall_app in Hb1 as [_ Hb1].
  exact (plain_pow _ _ plain_range _ _ _ Hb1 Hp).
Qed.

Lemma plain_rule tags levels : plainLang (ruleEnc tags levels).
Proof.
  induction levels as [|l IH]; intros c rs k Hb; simpl; [done|].
  intros [(c' & -> & Hi)|(mode & n & count & c' & -> & _ & _ & _ & Hp)].
  - apply Forall_cons in Hb as [_ Hb]. exact (plain_items _ _ _ _ Hb Hi).
  - rewrite !Forall_cons, !Forall_app in Hb. refine (plain_pow _ _ IH _ _ _ _ Hp). tauto.
Qed.

Lemma plain_srsFile tags : plainLang (srsFile tags).
Proof.
  intros c rs k Hb (count & n & c' & -> & _ & _ & Hp). apply Forall_app in Hb as [_ Hb].
  exact (plain_pow _ _ (plain_rule _ _) _ _ _ Hb Hp).
Qed.

Lemma plain_mrsFile : plainLang mrsFile.
Proof.
  intros c rs k Hb (h & raw & c' & -> & _ & _ & _ & _ & Hp). rewrite !Forall_app in Hb.
  refine (plain_pow _ mrsRangeEnc _ _ _ _ _ Hp); [|apply Hb].
  clear. intros c rs k Hb (f & t & -> & Hf & Ht & -> & _).
  apply Forall_app in Hb as [Hb1 Hb2]. apply Forall_singleton.
  split; by apply Unmap_plain, AddrFrom16_plain.
Qed.

(** *** Bodies behind the limit *)

(** A decompressed body of the language [E]: a word that the limit lets
    through and the budget admits; what follows it is not looked at. *)
Definition bodyOf (E : lang) (body : list Z) (rs : list (addr * addr)) : Prop :=
  exists c rest k, body = c ++ rest /\ E c rs k /\ fits rs k noBudget /\
    (c = [] \/ Z.of_nat (length c) <= firewallGeoMaxDecodedBytes + 1).

Lemma accepts_open m E body e : Forall isByte body -> accepts m E ->
  (forall s', m (openLimited (body, e)) = (inr tt, s') ->
     exists rs, bodyOf E body rs /\ psBuilder s' = addRanges rs ipsNew) /\
  (forall rs, bodyOf E body rs ->
     exists s', m (openLimited (body, e)) = (inr tt, s') /\ psBuilder s' = addRanges rs ipsNew).
Proof.
  intros Hb Hm.
  assert (Hs : byteState (openLimited (body, e))) by (split; [done|]; unfold withinBudget; vm_compute; split_and!; congruence).
  split.
  - intros s' Hrun. apply Hm in Hrun as (c & rs & k & Hc & (Eb & _ & _ & Hl) & Hf & Hbd & _); [|done].
    exists rs. split; [|done]. by exists c, (rdBytes (psReader s')), k.
  - intros rs (c & rest & k & -> & Hc & Hf & Hl).
    exists (mkPstate (mkReader rest (Some (firewallGeoMaxDecodedBytes + 1 - Z.of_nat (length c))) e)
              (addRanges rs ipsNew) (chargeRanges rs k noBudget)).
    split; [|done]. apply Hm; [done|]. exists c, rs, k. split; [done|]. done.
Qed.

(** ** The binary formats *)

(** An SRS file with these ranges: the magic, a version from 1 to 5, and a
    compressed body. *)
Definition srsContent (content : list Z) (rs : list (addr * addr)) : Prop :=
  exists version z body e, content = firewallGeoSRSMagic ++ version :: z /\ 1 <= version <= 5 /\
    decodeZlib z = inr (body, e) /\ bodyOf (srsFile srsSetTags) body rs.

Definition mrsContent (content : list Z) (rs : list (addr * addr)) : Prop :=
  exists body e, decodeZstd content = inr (body, e) /\ bodyOf mrsFile body rs.

Lemma srs_prefix content magic version r :
  ReadFull 3 (mkReader content None ErrEOF) = (inr magic, r) ->
  forall r', ReadByte r = (inr version, r') ->
  content = magic ++ version :: rdBytes r'.
Proof.
  unfold ReadFull. rewrite readFullFrom_exact. intros [_ (Hb & _)] r' He.
  apply readByte_exact in He as (Hb' & _). simpl in Hb. by rewrite Hb, Hb'.
Qed.

(** C14: The SRS parser is exact.  A file that follows the grammar (magic,
    version, compressed body of rules nested at most 65 deep, plain items with
    address sets, cleared inversion flags) within the limits is parsed to the
    result built from its ranges; and whenever the parser returns a result,
    the file follows the grammar, the lists hold printed prefixes of their
    family, at least one and at most a million, and these cover exactly the
    addresses of the ranges. *)
Theorem srs_parse_exact (content : list Z) :
  (forall rs, srsContent content rs ->
     parseFirewallGeoSRS content = buildFirewallGeoResolvedPrefixes (addRanges rs ipsNew)) /\
  (forall res, parseFirewallGeoSRS content = inr res ->
     exists rs, srsContent content rs /\ resolved res rs).
Proof.
  unfold parseFirewallGeoSRS. split.
  - intros rs (version & z & body & e & -> & Hv & Hz & Hbody).
    change (ReadFull 3 (mkReader (firewallGeoSRSMagic ++ version :: z) None ErrEOF)) with
      ((@inr geoErr _ firewallGeoSRSMagic), mkReader (version :: z) None ErrEOF). cbn match.
    change (bool_decide (firewallGeoSRSMagic = firewallGeoSRSMagic)) with true. cbn [negb].
    cbn [ReadByte limited rdLimit rdBytes rdEnd]. cbn match.
    destruct (Z.ltb_spec version 1), (Z.ltb_spec 5 version); try lia. cbn [orb rdBytes].
    rewrite Hz. pose proof (zlib_bytes _ _ _ Hz) as Hby.
    destruct (proj2 (accepts_open _ _ body e Hby accepts_srsBody) rs Hbody) as (s' & -> & ->). done.
  - intros res Hp. destruct (ReadFull 3 _) as [[e|magic] r] eqn:E1; [done|].
    destruct (bool_decide (magic = firewallGeoSRSMagic)) eqn:Em; [|done].
    apply bool_decide_eq_true in Em. simpl in Hp.
    destruct (ReadByte r) as [[e|version] r'] eqn:E2; [done|].
    pose proof (srs_prefix _ _ _ _ E1 _ E2) as Hc.
    destruct (Z.ltb_spec version 1), (Z.ltb_spec 5 version); try done. simpl in Hp.
    destruct (decodeZlib (rdBytes r')) as [e|[body e]] eqn:Ez; [done|].
    pose proof (zlib_bytes _ _ _ Ez) as Hby.
    destruct (srsBody _) as [[e'|[]] s'] eqn:Es; [done|].
    destruct (proj1 (accepts_open _ _ body e Hby accepts_srsBody) s' Es) as (rs & Hbody & Hbd).
    rewrite Hbd in Hp. exists rs. split.
    + exists version, (rdBytes r'), body, e. subst magic. split_and!; try done.
    + apply build_resolved; [|done]. destruct Hbody as (c & rest & k & -> & Hf & _).
      apply Forall_app in Hby as [Hby _]. exact (plain_srsFile _ _ _ _ Hby Hf).
Qed.

(** C15: The MRS parser is exact in the same way: the two directions relate it
    to the grammar of the MRS body (magic, behaviour 1, a bounded count, extra
    data of the declared length, version 1, and the declared number of pairs
    of sixteen-byte addresses), and the result covers exactly the ranges. *)
Theorem mrs_parse_exact (content : list Z) :
  (forall rs, mrsContent content rs ->
     parseFirewallGeoMRS content = buildFirewallGeoResolvedPrefixes (addRanges rs ipsNew)) /\
  (forall res, parseFirewallGeoMRS content = inr res ->
     exists rs, mrsContent content rs /\ resolved res rs).
Proof.
  unfold parseFirewallGeoMRS. split.
  - intros rs (body & e & Hz & Hbody). rewrite Hz. pose proof (zstd_bytes _ _ _ Hz) as Hby.
    destruct (proj2 (accepts_open _ _ body e Hby accepts_mrsBody) rs Hbody) as (s' & -> & ->). done.
  - intros res Hp. destruct (decodeZstd content) as [e|[body e]] eqn:Ez; [done|].
    pose proof (zstd_bytes _ _ _ Ez) as Hby.
    destruct (mrsBody _) as [[e'|[]] s'] eqn:Es; [done|].
    destruct (proj1 (accepts_open _ _ body e Hby accepts_mrsBody) s' Es) as (rs & Hbody & Hbd).
    rewrite Hbd in Hp. exists rs. split; [by exists body, e|].
    apply build_resolved; [|done]. destruct Hbody as (c & rest & k & -> & Hf & _).
    apply Forall_app in Hby as [Hby _]. exact (plain_mrsFile _ _ _ Hby Hf).
Qed.

(** ** Merging *)

Lemma addPrefixString_print p b : validPrefix p ->
  addFirewallGeoPrefixString (prefixString p) b = inr (ipsAddPrefix (Masked p) b).
Proof.
  intros Hp. unfold addFirewallGeoPrefixString.
  rewrite trim_space_plain by by apply prefixString_plain.
  rewrite prefixString_slash, ParsePrefix_String by done.
  destruct (String.eqb_spec (prefixString p) "") as [E|]; [|done].
  pose proof (prefixString_slash p) as Hs. by rewrite E in Hs.
Qed.

Lemma addPrefixStrings_print l : Forall (fun s => exists p, validPrefix p /\ s = prefixString p) l ->
  forall b, ipsOk b -> exists b', addPrefixStrings l b = inr b' /\ ipsOk b' /\
    forall a, ipsMember b' a <-> ipsMember b a \/
      exists s p, s ∈ l /\ ParsePrefix s = Some p /\ inPrefix p a.
Proof.
  induction 1 as [|s l (p & Hp & ->) _ IH]; intros b Hb; simpl.
  - exists b. split_and!; [done|done|]. intros a. split; [by left|].
    intros [?|(s & p & Hs & _)]; [done|]. by apply elem_of_nil in Hs.
  - rewrite addPrefixString_print by done.
    destruct (ips_addPrefix (Masked p) b (Masked_valid p Hp) Hb) as [Hok Hm].
    destruct (IH _ Hok) as (b' & Hb' & Hok' & Hm'). exists b'. split_and!; [done|done|].
    intros a. rewrite Hm', Hm, Masked_in by done. split.
    + intros [[?|Ha]|(s & q & Hs & Hq & Ha)]; [by left|right..].
      * exists (prefixString p), p. rewrite ParsePrefix_String, elem_of_cons by done. auto.
      * exists s, q. rewrite elem_of_cons. auto.
    + intros [?|(s & q & Hs & Hq & Ha)]; [auto|]. apply elem_of_cons in Hs as [->|Hs].
      * rewrite ParsePrefix_String in Hq by done. simplify_eq. auto.
      * right. by exists s, q.
Qed.

(** C16: Merging the results of several sources is union: no printed prefix
    fails to parse again, so the merge only fails when there is no prefix or
    more than a million, and a successful merge is again a list of printed
    prefixes that covers exactly the addresses one of the sources covers. *)
Theorem merge_is_union (items : list firewallGeoResolvedPrefixes) : Forall resOk items ->
  match mergeFirewallGeoResolvedSets items with
  | inr res => resOk res /\ forall a, covers res a <-> exists item, item ∈ items /\ covers item a
  | inl e => e = ErrNoPrefixes \/ e = ErrPrefixCount
  end.
Proof.
  intros Hitems. unfold mergeFirewallGeoResolvedSets. destruct ips_new as [Hok Hno].
  set (l := items ≫= (fun item => resIPv4 item ++ resIPv6 item)).
  assert (Hl : forall s, s ∈ l <-> exists item, item ∈ items /\ s ∈ resIPv4 item ++ resIPv6 item).
  { intros s. unfold l. rewrite list_elem_of_bind.
    split; intros (item & ? & ?); exists item; done. }
  assert (Hprint : Forall (fun s => exists p, validPrefix p /\ s = prefixString p) l).
  { apply Forall_forall. intros s (item & Hi & Hs)%Hl. rewrite Forall_forall in Hitems.
    destruct (Hitems item Hi) as (H4 & H6 & _). rewrite Forall_forall in H4, H6.
    apply elem_of_app in Hs as [Hs|Hs]; [apply H4 in Hs|apply H6 in Hs];
      destruct Hs as (p & Hp & _ & ->); eauto. }
  destruct (addPrefixStrings_print l Hprint ipsNew Hok) as (b & -> & Hb & Hm).
  destruct (buildFirewallGeoResolvedPrefixes b) as [e|res] eqn:E.
  - destruct (ips_prefixes b Hb) as (qs & Hq & _). unfold buildFirewallGeoResolvedPrefixes in E.
    rewrite Hq in E. destruct (_ =? 0); [simplify_eq; auto|]. destruct (_ <? _); simplify_eq; auto.
  - destruct (build_meaning b res Hb E) as [Hres Hc]. split; [done|]. intros a. rewrite Hc, Hm. split.
    + intros [Hn|(s & p & Hs & Hp & Ha)]; [by apply Hno in Hn|].
      apply Hl in Hs as (item & Hi & Hs). exists item. split; [done|]. by exists s, p.
    + intros (item & Hi & s & p & Hs & Hp & Ha). right. exists s, p. split; [|done]. apply Hl. eauto.
Qed.
End Meaning.

(** ** Concrete files *)

#[local] Existing Instances demoIPS demoLaws demoEnv demoEnvLaws.

(** One plain rule with the range 10.0.0.0 to 10.255.255.255. *)
Definition demoSRS : list Z :=
  firewallGeoSRSMagic ++ [1; 1; 0; 6; 1; 0; 0; 0; 0; 0; 0; 0; 1;
    4; 10; 0; 0; 0; 4; 10; 255; 255; 255; 255; 0].

Definition demoResult : firewallGeoResolvedPrefixes :=
  mkResolved ["10.0.0.0/8"] [] 1 ("10.0.0.0/8" +:+ String "010" "").

Lemma srs_parse_exact_witness :
  (forall rs, srsContent demoSRS rs ->
     parseFirewallGeoSRS demoSRS = buildFirewallGeoResolvedPrefixes (addRanges rs ipsNew)) /\
  exists rs, srsContent demoSRS rs /\ resolved demoResult rs.
Proof.
  split; [apply (srs_parse_exact demoSRS)|].
  apply (srs_parse_exact demoSRS). vm_compute. reflexivity.
Defined.

(** The range 192.0.2.0 to 192.0.2.2, as IPv4-mapped addresses. *)
Definition demoMRS : list Z :=
  firewallGeoMRSMagic ++ [1; 0; 0; 0; 0; 0; 0; 0; 1; 0; 0; 0; 0; 0; 0; 0; 2; 7; 7;
    1; 0; 0; 0; 0; 0; 0; 0; 1;
    0; 0; 0; 0; 0; 0; 0; 0; 0; 0; 255; 255; 192; 0; 2; 0;
    0; 0; 0; 0; 0; 0; 0; 0; 0; 0; 255; 255; 192; 0; 2; 2].

Lemma mrs_parse_exact_witness :
  exists res rs, resIPv4 res = ["192.0.2.0/31"; "192.0.2.2/32"] /\
    parseFirewallGeoMRS demoMRS = inr res /\ mrsContent demoMRS rs /\ resolved res rs.
Proof.
  destruct (parseFirewallGeoMRS demoMRS) as [e|res] eqn:E; [vm_compute in E; discriminate|].
  destruct (proj2 (mrs_parse_exact demoMRS) res E) as (rs & Hc & Hr).
  exists res, rs. split; [vm_compute in E; injection E as <-; reflexivity|].
  exact (conj eq_refl (conj Hc Hr)).
Defined.

Lemma demoResult_ok : resOk demoResult.
Proof.
  split_and!; [|constructor|done|done|done].
  apply Forall_singleton. exists (mkPrefix (mkAddr true (10 * 2 ^ 24) "") 8).
  split_and!; [|done|vm_compute; reflexivity].
  unfold validPrefix, validAddr. simpl. split_and!; try done; lia.
Qed.

Lemma merge_is_union_witness :
  Forall resOk [demoResult; demoResult] /\
  match mergeFirewallGeoResolvedSets [demoResult; demoResult] with
  | inr res => resOk res /\
      forall a, covers res a <-> exists item, item ∈ [demoResult; demoResult] /\ covers item a
  | inl e => e = ErrNoPrefixes \/ e = ErrPrefixCount
  end.
Proof.
  assert (H : Forall resOk [demoResult; demoResult])
    by (repeat apply Forall_cons_2; [apply demoResult_ok..|constructor]).
  split; [exact H|]. exact (merge_is_union _ H).
Defined.
