(* ===== verification/GeoBounds.v ===== *)
(** * Bounds and termination of the GeoIP parsers

    Every path of the parsers, errors included, stays within the budgets; no
    parse runs out of fuel; and the item types the SRS parser knows are off by
    one. *)

From stdpp Require Import base gmap list strings.
From Stdlib Require Import ZArith Lia Ascii.
From S2P Require Import Prelude GoStrings NetIP GeoParser GeoGrammar.

#[local] Open Scope Z_scope.

(** ** Bounds on every path *)

Section Bounds.
Context `{IPS : IPSetLib, ENV : GeoEnv}.

(** A builder made by at most [n] additions. *)
Inductive builtBy : Z -> ipBuilder -> Prop :=
| built_new : builtBy 0 ipsNew
| built_prefix n b p : builtBy n b -> builtBy (n + 1) (ipsAddPrefix p b)
| built_addr n b a : builtBy n b -> builtBy (n + 1) (ipsAdd a b)
| built_weaken n m b : n <= m -> builtBy n b -> builtBy m b.

Definition limitOk (r : reader) : Prop :=
  match rdLimit r with Some n => 0 <= n | None => True end.

(** The budget is within its limits, the builder holds no more additions than
    were charged, and the reader has not passed its limit. *)
Definition bounded (s : pstate) : Prop :=
  withinBudget (psBudget s) /\
  builtBy (candidatePrefixes (psBudget s) + jsonCIDRs (psBudget s)) (psBuilder s) /\
  limitOk (psReader s).

Definition staysBounded {A} (m : P A) : Prop := forall s, bounded s -> bounded (m s).2.

Lemma stays_ret {A} (x : A) : staysBounded (pret x).
Proof. by intros s Hs. Qed.

Lemma stays_fail {A} e : staysBounded (@pfail _ A e).
Proof. by intros s Hs. Qed.

Lemma stays_lift {A} (x : geoErr + A) : staysBounded (plift x).
Proof. by intros s Hs. Qed.

Lemma stays_bind {A B} (m : P A) (f : A -> P B) :
  staysBounded m -> (forall x, staysBounded (f x)) -> staysBounded (pbind m f).
Proof.
  intros Hm Hf s Hs. apply Hm in Hs. unfold pbind. destruct (m s) as [[e|x] s1]; [done|].
  by apply Hf.
Qed.

Lemma stays_wrap {A} w (m : P A) : staysBounded m -> staysBounded (pwrap w m).
Proof. intros Hm s Hs. apply Hm in Hs. unfold pwrap. by destruct (m s) as [[e|x] s1]. Qed.

Lemma stays_for n w body : staysBounded body -> forall index, staysBounded (pfor n index w body).
Proof.
  intros Hb. induction n as [|n IH]; intros index; simpl; [apply stays_ret|].
  apply stays_bind; [by apply stays_wrap|]. intros _. apply IH.
Qed.

Lemma stays_read {A} (f : reader -> (geoErr + A) * reader) :
  (forall r, limitOk r -> limitOk (f r).2) -> staysBounded (pread f).
Proof.
  intros Hf s (Hw & Hb & Hl). apply Hf in Hl. unfold pread.
  destruct (f (psReader s)) as [res r]. done.
Qed.

Lemma ReadByte_limit r : limitOk r -> limitOk (ReadByte r).2.
Proof.
  unfold ReadByte, limited, limitOk. intros Hr. destruct (rdLimit r) as [n|] eqn:E.
  - destruct (Z.leb_spec n 0); simpl; [by rewrite E|].
    destruct (rdBytes r); simpl; rewrite ?E; simpl; [done|lia].
  - destruct (rdBytes r); simpl; by rewrite ?E.
Qed.

Lemma ReadFull_limit n r : limitOk r -> limitOk (ReadFull n r).2.
Proof.
  unfold ReadFull. generalize false as b. revert r.
  induction n as [|n IH]; intros r b Hr; simpl; [done|]. apply ReadByte_limit in Hr.
  destruct (ReadByte r) as [[e|x] r1]; [done|]. simpl in Hr. specialize (IH r1 true Hr).
  by destruct (readFullFrom n true r1) as [[e|l] r2].
Qed.

Lemma readUvarintFrom_limit n : forall i x r, limitOk r -> limitOk (readUvarintFrom n i x r).2.
Proof.
  induction n as [|n IH]; intros i x r Hr; simpl; [done|]. apply ReadByte_limit in Hr.
  destruct (ReadByte r) as [[e|b] r1]; [done|]. simpl in Hr. destruct (b <? 128); [|by apply IH].
  by destruct (_ && _).
Qed.

Lemma ReadUvarint_limit r : limitOk r -> limitOk (ReadUvarint r).2.
Proof. apply readUvarintFrom_limit. Qed.

Lemma discardN_limit n r : limitOk r -> limitOk (discardN n r).2.
Proof.
  unfold discardN, limitOk. intros Hr. destruct (_ <=? _); simpl;
    (destruct (rdLimit r); simpl; [lia|done]).
Qed.

Lemma built_prefixes ps : forall n b, builtBy n b ->
  builtBy (n + Z.of_nat (length ps)) (addPrefixes ps b).
Proof.
  induction ps as [|p ps IH]; intros n b Hb; [by rewrite Z.add_0_r|].
  replace (n + Z.of_nat (length (p :: ps))) with (n + 1 + Z.of_nat (length ps)) by (simpl; lia).
  apply IH. by constructor.
Qed.

Lemma stays_addIPRange f t : staysBounded (addIPRange f t).
Proof.
  intros s (Hw & Hb & Hl). unfold addIPRange. set (n := Z.of_nat (length (rangePrefixes f t))).
  destruct (n =? 0); [done|]. destruct (_ || _) eqn:E; [done|].
  apply orb_false_elim in E as [_ E]. apply Z.ltb_ge in E.
  destruct Hw as (Hr & Hc & Hj & Hjc). split; [|split; [|done]]; simpl.
  - unfold withinBudget. simpl. split_and!; try apply Hr; try apply Hj; try apply Hjc; lia.
  - replace (candidatePrefixes (psBudget s) + n + jsonCIDRs (psBudget s))
      with (candidatePrefixes (psBudget s) + jsonCIDRs (psBudget s) + n) by lia.
    by apply built_prefixes.
Qed.

Lemma stays_ranges n : 0 <= n -> staysBounded (pcharge (addIPSetRanges n)).
Proof.
  intros Hn s (Hw & Hb & Hl). unfold pcharge, addIPSetRanges. destruct (_ || _) eqn:E; [done|].
  apply orb_false_elim in E as [_ E]. apply Z.ltb_ge in E.
  destruct Hw as (Hr & Hc & Hj & Hjc). split; [|done]. unfold withinBudget. simpl.
  split_and!; try apply Hc; try apply Hj; try apply Hjc; lia.
Qed.

Lemma stays_enter depth : staysBounded (pcharge (enterJSONRule depth)).
Proof.
  intros s (Hw & Hb & Hl). unfold pcharge, enterJSONRule. destruct (_ <? depth); [done|].
  destruct (Z.leb_spec firewallGeoMaxJSONRuleCount (jsonRules (psBudget s))); [done|].
  destruct Hw as (Hr & Hc & Hj & Hjc). split; [|done]. unfold withinBudget. simpl.
  split_and!; try apply Hc; try apply Hr; try apply Hjc; lia.
Qed.

Lemma stays_byte : staysBounded (pread ReadByte).
Proof. apply stays_read, ReadByte_limit. Qed.

Lemma stays_full n : staysBounded (pread (ReadFull n)).
Proof. apply stays_read. intros r. apply ReadFull_limit. Qed.

Lemma stays_uvarint : staysBounded (pread ReadUvarint).
Proof. apply stays_read, ReadUvarint_limit. Qed.

Lemma stays_discard n : staysBounded (pread (discardN n)).
Proof. apply stays_read. intros r. apply discardN_limit. Qed.

(** A parser made of bounded parts is bounded. *)
Ltac stays :=
  repeat match goal with
  | |- forall _, _ => intros ?
  | |- staysBounded (pret _) => apply stays_ret
  | |- staysBounded (pfail _) => apply stays_fail
  | |- staysBounded (plift _) => apply stays_lift
  | |- staysBounded (pjson _) => apply stays_lift
  | |- staysBounded (pread ReadByte) => apply stays_byte
  | |- staysBounded (pread (ReadFull _)) => apply stays_full
  | |- staysBounded (pread ReadUvarint) => apply stays_uvarint
  | |- staysBounded (pread (discardN _)) => apply stays_discard
  | |- staysBounded (pcharge (enterJSONRule _)) => apply stays_enter
  | |- staysBounded (addIPRange _ _) => apply stays_addIPRange
  | |- staysBounded (pbind _ _) => apply stays_bind
  | |- staysBounded (pwrap _ _) => apply stays_wrap
  | |- staysBounded (pfor _ _ _ _) => apply stays_for
  | |- staysBounded (if ?b then _ else _) => destruct b eqn:?
  | |- staysBounded (match ?x with _ => _ end) => destruct x eqn:?
  | |- staysBounded (let _ := _ in _) => cbv zeta
  end.

Lemma stays_ipset : staysBounded readFirewallGeoSRSIPSet.
Proof.
  unfold readFirewallGeoSRSIPSet, readFirewallGeoSRSRange, readFirewallGeoSRSAddr. stays.
  apply stays_ranges, uint64Of_nonneg.
Qed.

Lemma stays_items fuel : staysBounded (srsItems fuel).
Proof.
  induction fuel as [|fuel IH]; cbn [srsItems]; unfold readFirewallGeoSRSInvertFlag; stays; [|done].
  apply stays_ipset.
Qed.

Lemma stays_rule levels : forall depth, staysBounded (parseFirewallGeoSRSRule levels depth).
Proof.
  induction levels as [|l IH]; intros depth; cbn [parseFirewallGeoSRSRule];
    unfold parseFirewallGeoSRSLogicalRule, readFirewallGeoSRSInvertFlag; stays; [|apply IH].
  intros s Hs. by apply stays_items.
Qed.

Lemma stays_srsBody : staysBounded srsBody.
Proof. unfold srsBody. stays. apply stays_rule. Qed.

Lemma stays_mrsBody : staysBounded mrsBody.
Proof.
  unfold mrsBody, mrsHeader, readMRSRange. stays. apply stays_ranges.
  match goal with Hn : (_ <? 1) = false |- _ => apply Z.ltb_ge in Hn; lia end.
Qed.

(** One value of a JSON rule: the charge pays for the addition. *)
Lemma stays_cidr {A} w value (k : P A) : staysBounded k ->
  staysBounded (pbind (pcharge addJSONCIDR) (fun _ => pbind (pwrap w (paddString value)) (fun _ => k))).
Proof.
  intros Hk s (Hw & Hb & Hl). unfold pbind, pcharge, addJSONCIDR.
  destruct (Z.leb_spec firewallGeoMaxJSONCIDRsTotal (jsonCIDRs (psBudget s))); [done|].
  unfold pwrap, paddString. simpl psBuilder. destruct Hw as (Hr & Hc & Hj & Hjc).
  set (g := mkBudget _ _ _ _).
  assert (Hg : withinBudget g).
  { unfold withinBudget. simpl. split_and!; try apply Hc; try apply Hr; try apply Hj; lia. }
  assert (Hadd : forall b, builtBy (candidatePrefixes (psBudget s) + jsonCIDRs (psBudget s) + 1) b ->
    bounded (mkPstate (psReader s) b g)).
  { intros b Hb'. split; [done|]. split; [|done]. simpl. by rewrite Z.add_assoc. }
  assert (Hsame : bounded (mkPstate (psReader s) (psBuilder s) g)).
  { apply Hadd. eapply built_weaken; [|done]. lia. }
  unfold addFirewallGeoPrefixString. destruct (String.eqb _ ""); [by apply Hk|].
  destruct (containsByte _ _).
  - destruct (ParsePrefix _); [|done]. by apply Hk, Hadd, built_prefix.
  - destruct (ParseAddr _); [|done]. by apply Hk, Hadd, built_addr.
Qed.

Lemma stays_values key values : forall collected, staysBounded (addJSONValues key values collected).
Proof.
  induction values as [|v values IH]; intros collected; cbn [addJSONValues]; [apply stays_ret|].
  destruct (_ <=? collected); [apply stays_fail|]. apply stays_cidr, IH.
Qed.

Lemma stays_plainRule fields : staysBounded (jsonPlainRule fields).
Proof. unfold jsonPlainRule, jsonCIDRKey. stays; apply stays_values. Qed.

(** Induction on a JSON value, with the values inside. *)
Fixpoint json_deep_ind (Q : json -> Prop) (Hnull : Q JNull) (Hbool : forall b, Q (JBool b))
  (Hnum : forall t, Q (JNumber t)) (Hstr : forall t, Q (JString t))
  (Harr : forall items, Forall Q items -> Q (JArray items))
  (Hobj : forall fields, Forall (fun f => Q f.2) fields -> Q (JObject fields)) (j : json) : Q j :=
  let rec := json_deep_ind Q Hnull Hbool Hnum Hstr Harr Hobj in
  match j with
  | JNull => Hnull
  | JBool b => Hbool b
  | JNumber t => Hnum t
  | JString t => Hstr t
  | JArray items => Harr items ((fix go l : Forall Q l :=
      match l with [] => Forall_nil_2 _ | x :: l => Forall_cons_2 _ _ _ (rec x) (go l) end) items)
  | JObject fields => Hobj fields ((fix go l : Forall (fun f => Q f.2) l :=
      match l with [] => Forall_nil_2 _ | f :: l => Forall_cons_2 _ _ _ (rec f.2) (go l) end) fields)
  end.

Lemma stays_jsonRule raw : (forall depth, staysBounded (parseFirewallGeoJSONRule raw depth)) /\
  match raw with
  | JArray items => Forall (fun j => forall depth, staysBounded (parseFirewallGeoJSONRule j depth)) items
  | _ => True
  end.
Proof.
  induction raw as [| | | |items IH|fields IH] using json_deep_ind;
    try (split; [intros depth; cbn [parseFirewallGeoJSONRule]; stays|done]).
  - split; [intros depth; cbn [parseFirewallGeoJSONRule]; stays|].
    eapply Forall_impl; [exact IH|]. by intros j [? _].
  - (* an object: its fields in order *)
    generalize (jsonPlainRule fields) (stays_plainRule fields). intros plain Hplain.
    match goal with |- staysBounded (?go fields) => assert (Hgo : forall rest,
      Forall (fun f => (forall depth, staysBounded (parseFirewallGeoJSONRule f.2 depth)) /\
        match f.2 with
        | JArray items => Forall (fun j => forall depth, staysBounded (parseFirewallGeoJSONRule j depth)) items
        | _ => True
        end) rest -> staysBounded (go rest)); [|by apply Hgo] end.
    induction rest as [|[key rawChildren] rest IHrest]; intros Hrest; [done|].
    apply Forall_cons in Hrest as [[_ Hf] Hrest]. simpl in Hf.
    destruct (String.eqb key "rules"); [|by apply IHrest]. stays. subst.
    generalize 0. induction Hf as [|child l Hchild _ IHl]; intros index; stays; [done|apply IHl].
Qed.

Lemma stays_rulesArray fuel : forall index d, staysBounded (jsonRulesArray fuel index d).
Proof.
  induction fuel as [|fuel IH]; intros index d; cbn [jsonRulesArray]; stays; [|apply IH].
  apply stays_jsonRule.
Qed.

Lemma stays_topFields fuel : forall found d, staysBounded (jsonTopFields fuel found d).
Proof.
  induction fuel as [|fuel IH]; intros found d; cbn [jsonTopFields]; stays;
    first [apply IH | apply stays_rulesArray].
Qed.

Lemma stays_jsonBody d : staysBounded (jsonBody d).
Proof. unfold jsonBody. stays. apply stays_topFields. Qed.

(** The start of a parse. *)
Lemma bounded_open body : bounded (openLimited body).
Proof.
  split; [|split]; simpl; [|constructor|].
  - unfold withinBudget. vm_compute. split_and!; congruence.
  - unfold limitOk. vm_compute. congruence.
Qed.

(** C17: However a parse of an SRS, MRS or JSON rule-set ends, with a result or
    with an error at any point, the ranges, the prefixes they expand to, the
    JSON rules and the JSON entries it counted are within their limits, the set
    under construction has received no more additions than were counted, and
    no more than ten gigabytes and one byte were read from the decompressor. *)
Theorem parsers_bounded (m : P unit) (body : list Z) (e : geoErr) (d : jsonDecoder) :
  m = srsBody \/ m = mrsBody \/ m = jsonBody d ->
  let s := (m (openLimited (body, e))).2 in
  withinBudget (psBudget s) /\
  builtBy (candidatePrefixes (psBudget s) + jsonCIDRs (psBudget s)) (psBuilder s) /\
  limitOk (psReader s).
Proof.
  intros Hm. pose proof (bounded_open (body, e)) as Hs.
  destruct Hm as [-> | [-> | ->]];
    [by apply stays_srsBody|by apply stays_mrsBody|by apply stays_jsonBody].
Qed.
End Bounds.

(** ** Termination *)

Section Termination.
Context `{IPS : IPSetLib, ENV : GeoEnv, EL : !GeoEnvLaws}.

(** An error of the code, not the end of the fuel. *)
Fixpoint realErr (e : geoErr) : Prop :=
  match e with
  | ErrNoFuel => False
  | ErrSRSAt _ e | ErrLogicalAt _ e | ErrJSONAt _ e | ErrJSONChildAt _ e | ErrJSONKey _ e
  | ErrTXTPrefix e => realErr e
  | _ => True
  end.

Definition bytesLeft (s : pstate) : nat := length (rdBytes (psReader s)).

Definition goodEnd {A} (s : pstate) (r : (geoErr + A) * pstate) : Prop :=
  match r.1 with inl e => realErr e | inr _ => True end /\
  (bytesLeft r.2 <= bytesLeft s)%nat /\ rdEnd (psReader r.2) = rdEnd (psReader s).

(** From a stream with a real error at its end, [m] ends with a value or a
    real error, and reads forward. *)
Definition ends {A} (m : P A) : Prop := forall s, realErr (rdEnd (psReader s)) -> goodEnd s (m s).

Lemma ends_ret {A} (x : A) : ends (pret x).
Proof. by intros s Hs. Qed.

Lemma ends_fail {A} e : realErr e -> ends (@pfail _ A e).
Proof. by intros He s Hs. Qed.

Lemma ends_lift {A} (x : geoErr + A) : match x with inl e => realErr e | inr _ => True end ->
  ends (plift x).
Proof. by intros Hx s Hs. Qed.

Lemma ends_bind {A B} (m : P A) (f : A -> P B) :
  ends m -> (forall x, ends (f x)) -> ends (pbind m f).
Proof.
  intros Hm Hf s Hs. destruct (Hm s Hs) as (He & Hl & Hend). unfold pbind.
  destruct (m s) as [[e|x] s1]; [done|]. simpl in *.
  destruct (Hf x s1) as (He' & Hl' & Hend'); [by rewrite Hend|].
  split; [done|]. split; [lia|congruence].
Qed.

Lemma ends_wrap {A} w (m : P A) : (forall e, realErr e -> realErr (w e)) -> ends m -> ends (pwrap w m).
Proof.
  intros Hw Hm s Hs. destruct (Hm s Hs) as (He & Hl & Hend). unfold pwrap.
  destruct (m s) as [[e|x] s1]; [|done]. split; [by apply Hw|done].
Qed.

Lemma ends_for n w body : (forall i e, realErr e -> realErr (w i e)) -> ends body ->
  forall index, ends (pfor n index w body).
Proof.
  intros Hw Hb. induction n as [|n IH]; intros index; simpl; [apply ends_ret|].
  apply ends_bind; [by apply ends_wrap; [apply Hw|]|]. intros _. apply IH.
Qed.

(** A reader that moves forward and fails with a real error. *)
Definition readsOn {A} (f : reader -> (geoErr + A) * reader) : Prop :=
  forall r, realErr (rdEnd r) -> match (f r).1 with inl e => realErr e | inr _ => True end /\
    (length (rdBytes (f r).2) <= length (rdBytes r))%nat /\ rdEnd (f r).2 = rdEnd r.

Lemma ends_read {A} (f : reader -> (geoErr + A) * reader) : readsOn f -> ends (pread f).
Proof.
  intros Hf s Hs. specialize (Hf _ Hs). unfold pread, goodEnd, bytesLeft.
  destruct (f (psReader s)) as [res r]. done.
Qed.

Lemma ReadByte_on : readsOn ReadByte.
Proof.
  intros r Hr. unfold ReadByte. destruct (limited r); [done|].
  destruct (rdBytes r) eqn:E; simpl; [by rewrite E|]. split_and!; [done|lia|done].
Qed.

(** A byte read is a byte less. *)
Lemma ReadByte_less r b r' : ReadByte r = (inr b, r') -> (length (rdBytes r') < length (rdBytes r))%nat.
Proof.
  unfold ReadByte. destruct (limited r); [done|]. destruct (rdBytes r); [done|].
  intros. simplify_eq. simpl. lia.
Qed.

Lemma readFullFrom_on n : forall some, readsOn (readFullFrom n some).
Proof.
  induction n as [|n IH]; intros some r Hr; simpl; [done|].
  destruct (ReadByte_on r Hr) as (He & Hl & Hend).
  destruct (ReadByte r) as [[e|b] r1]; simpl in *; [by destruct e, some|].
  destruct (IH true r1) as (He' & Hl' & Hend'); [by rewrite Hend|].
  destruct (readFullFrom n true r1) as [[e|l] r2]; simpl in *; (split; [done|]);
    (split; [lia|congruence]).
Qed.

Lemma readUvarintFrom_on n : forall i x, readsOn (readUvarintFrom n i x).
Proof.
  induction n as [|n IH]; intros i x r Hr; simpl; [done|].
  destruct (ReadByte_on r Hr) as (He & Hl & Hend).
  destruct (ReadByte r) as [[e|b] r1]; simpl in *; [by destruct e, (0 <? i)|].
  destruct (b <? 128); [by destruct (_ && _)|].
  destruct (IH (i + 1) (Z.lor x (Z.shiftl (Z.land b 127) (7 * i))) r1) as (He' & Hl' & Hend');
    [by rewrite Hend|]. split; [done|]. split; [lia|congruence].
Qed.

Lemma discardN_on n : readsOn (discardN n).
Proof.
  intros r Hr. unfold discardN. destruct (_ <=? _); simpl; rewrite length_drop.
  - split_and!; [done|lia|done].
  - split_and!; [by destruct (limited _)|lia|done].
Qed.

(** A parser whose parts end, ends. *)
Ltac ends_tac :=
  repeat match goal with
  | |- forall _, _ => intros ?
  | |- ends (pret _) => apply ends_ret
  | |- ends (pfail _) => apply ends_fail; exact I
  | |- ends (pread ReadByte) => apply ends_read, ReadByte_on
  | |- ends (pread (ReadFull _)) => apply ends_read; unfold ReadFull; apply readFullFrom_on
  | |- ends (pread ReadUvarint) => apply ends_read; unfold ReadUvarint; apply readUvarintFrom_on
  | |- ends (pread (discardN _)) => apply ends_read, discardN_on
  | |- ends (pbind _ _) => apply ends_bind
  | |- ends (pwrap _ _) => apply ends_wrap; [done|]
  | |- ends (pfor _ _ _ _) => apply ends_for; [done|]
  | |- ends (if ?b then _ else _) => destruct b eqn:?
  | |- ends (match ?x with _ => _ end) => destruct x eqn:?
  | |- ends (let _ := _ in _) => cbv zeta
  end.

Lemma ends_addIPRange f t : ends (addIPRange f t).
Proof. intros s Hs. unfold addIPRange. destruct (_ =? 0); [done|]. by destruct (_ || _). Qed.

Lemma ends_charge f : (forall b e, f b = inl e -> realErr e) -> ends (pcharge f).
Proof.
  intros Hf s Hs. unfold pcharge. destruct (f (psBudget s)) as [e|b] eqn:E; [|done].
  split; [by eapply Hf|done].
Qed.

Lemma addIPSetRanges_real n b e : addIPSetRanges n b = inl e -> realErr e.
Proof. unfold addIPSetRanges. destruct (_ || _); [|done]. by intros [= <-]. Qed.

Lemma ends_ipset : ends readFirewallGeoSRSIPSet.
Proof.
  unfold readFirewallGeoSRSIPSet, readFirewallGeoSRSRange, readFirewallGeoSRSAddr. ends_tac;
    try apply ends_addIPRange;
    try (apply ends_charge; intros ? ?; apply addIPSetRanges_real);
    (apply ends_lift; unfold firewallGeoAddrFromRawBytes; by repeat destruct (_ =? _)%nat).
Qed.

(** One unit of fuel per byte is enough for the items. *)
Lemma ends_items fuel : forall s, realErr (rdEnd (psReader s)) -> (bytesLeft s < fuel)%nat ->
  goodEnd s (srsItems fuel s).
Proof.
  induction fuel as [|fuel IH]; intros s Hs Hf; [lia|]. cbn [srsItems]. unfold pbind at 1.
  destruct (ends_read _ ReadByte_on s Hs) as (He & Hl & Hend).
  destruct (pread ReadByte s) as [[e|t] s1] eqn:E1; [done|]. simpl in *.
  assert (Hless : (bytesLeft s1 < bytesLeft s)%nat).
  { unfold pread in E1. destruct (ReadByte (psReader s)) as [res r] eqn:Er.
    inversion E1; subst. by apply ReadByte_less in Er. }
  destruct (_ || _).
  - unfold pbind. destruct (ends_ipset s1) as (He2 & Hl2 & Hend2); [by rewrite Hend|].
    destruct (readFirewallGeoSRSIPSet s1) as [[e|[]] s2]; simpl in *.
    { split; [done|]. split; [simpl; lia|simpl; congruence]. }
    destruct (IH s2) as (He3 & Hl3 & Hend3); [congruence|lia|].
    split; [done|]. split; [lia|congruence].
  - destruct (_ =? _).
    + assert (Hi : ends readFirewallGeoSRSInvertFlag)
        by (unfold readFirewallGeoSRSInvertFlag; ends_tac).
      destruct (Hi s1) as (He2 & Hl2 & Hend2); [by rewrite Hend|].
      split; [done|]. split; [lia|congruence].
    + split; [done|]. split; [simpl; lia|done].
Qed.

Lemma ends_rule levels : forall depth, depth + Z.of_nat levels = firewallGeoMaxSRSDepth + 1 ->
  ends (parseFirewallGeoSRSRule levels depth).
Proof.
  unfold firewallGeoMaxSRSDepth. induction levels as [|l IH]; intros depth Hd;
    cbn [parseFirewallGeoSRSRule]; unfold firewallGeoMaxSRSDepth;
    (destruct (Z.ltb_spec 64 depth); [apply ends_fail; exact I|]); [lia|].
  unfold parseFirewallGeoSRSLogicalRule, readFirewallGeoSRSInvertFlag. ends_tac; [|apply IH; lia].
  intros s Hs. apply ends_items; [done|]. unfold bytesLeft. lia.
Qed.

Lemma ends_srsBody : ends srsBody.
Proof. unfold srsBody. ends_tac. apply ends_rule. reflexivity. Qed.

Lemma ends_mrsBody : ends mrsBody.
Proof.
  unfold mrsBody, mrsHeader, readMRSRange. ends_tac; [|apply ends_addIPRange].
  apply ends_charge. intros ? ?. apply addIPSetRanges_real.
Qed.

(** *** JSON *)

Lemma enterJSONRule_real depth b e : enterJSONRule depth b = inl e -> realErr e.
Proof. unfold enterJSONRule. destruct (_ <? _); [by intros [= <-]|]. destruct (_ <=? _); by intros [= <-]. Qed.

Lemma addJSONCIDR_real b e : addJSONCIDR b = inl e -> realErr e.
Proof. unfold addJSONCIDR. destruct (_ <=? _); by intros [= <-]. Qed.

Lemma addPrefixString_real value b e : addFirewallGeoPrefixString value b = inl e -> realErr e.
Proof.
  unfold addFirewallGeoPrefixString. destruct (String.eqb _ ""); [done|].
  destruct (containsByte _ _); [destruct (ParsePrefix _)|destruct (ParseAddr _)]; by intros [= <-].
Qed.

Lemma ends_paddString value : ends (paddString value).
Proof.
  intros s Hs. unfold paddString.
  destruct (addFirewallGeoPrefixString value (psBuilder s)) as [e|b] eqn:E; [|done].
  split; [by eapply addPrefixString_real|done].
Qed.

Lemma stringList_real raw :
  match parseFirewallGeoJSONStringList raw with inl e => realErr e | inr _ => True end.
Proof.
  assert (Hitems : forall items, match jsonStrings items with inl e => realErr e | inr _ => True end).
  { induction items as [|[| | |str| |] items IH]; simpl; try done. by destruct (jsonStrings items). }
  destruct raw as [[| | |v|items|]|]; simpl; try done; [|apply Hitems].
  by destruct (String.eqb _ "").
Qed.

Lemma ends_plainRule fields : ends (jsonPlainRule fields).
Proof.
  assert (Hvalues : forall key values collected, ends (addJSONValues key values collected)).
  { intros key values. induction values as [|v values IH]; intros collected; cbn [addJSONValues];
      ends_tac; [|apply ends_paddString|apply IH].
    apply ends_charge, addJSONCIDR_real. }
  unfold jsonPlainRule, jsonCIDRKey. ends_tac; try apply Hvalues; apply ends_lift, stringList_real.
Qed.

Lemma ends_jsonRule raw : (forall depth, ends (parseFirewallGeoJSONRule raw depth)) /\
  match raw with
  | JArray items => Forall (fun j => forall depth, ends (parseFirewallGeoJSONRule j depth)) items
  | _ => True
  end.
Proof.
  assert (Henter : forall depth, ends (pcharge (enterJSONRule depth)))
    by (intros depth; apply ends_charge, enterJSONRule_real).
  induction raw as [| | | |items IH|fields IH] using json_deep_ind;
    try (split; [intros depth; cbn [parseFirewallGeoJSONRule]; ends_tac; apply Henter|done]).
  - split; [intros depth; cbn [parseFirewallGeoJSONRule]; ends_tac; apply Henter|].
    eapply Forall_impl; [exact IH|]. by intros j [? _].
  - split; [|done]. intros depth. cbn [parseFirewallGeoJSONRule]. ends_tac; [apply Henter|].
    generalize (jsonPlainRule fields) (ends_plainRule fields). intros plain Hplain.
    match goal with |- ends (?go fields) => assert (Hgo : forall rest,
      Forall (fun f => (forall depth, ends (parseFirewallGeoJSONRule f.2 depth)) /\
        match f.2 with
        | JArray items => Forall (fun j => forall depth, ends (parseFirewallGeoJSONRule j depth)) items
        | _ => True
        end) rest -> ends (go rest)); [|by apply Hgo] end.
    induction rest as [|[key rawChildren] rest IHrest]; intros Hrest; [done|].
    apply Forall_cons in Hrest as [[_ Hf] Hrest]. simpl in Hf.
    destruct (String.eqb key "rules"); [|by apply IHrest]. ends_tac. subst.
    generalize 0. induction Hf as [|child l Hchild _ IHl]; intros index; ends_tac; [done|apply IHl].
Qed.

Lemma token_real d : match jsonToken d with inl e => realErr e | inr _ => True end.
Proof. destruct (jsonToken d) eqn:E; [|done]. by destruct (token_error _ _ E) as [-> | ->]. Qed.

Lemma decode_real d : match jsonDecode d with inl e => realErr e | inr _ => True end.
Proof. destruct (jsonDecode d) eqn:E; [|done]. by destruct (decode_error _ _ E) as [-> | ->]. Qed.

(** A bind on the decoder, with what the decoder returned. *)
Lemma ends_pjson {A B} (r : geoErr + A * jsonDecoder) (f : A * jsonDecoder -> P B) :
  match r with inl e => realErr e | inr _ => True end ->
  (forall x, r = inr x -> ends (f x)) -> ends (pbind (pjson r) f).
Proof.
  intros Hr Hf s Hs. unfold pbind, pjson, plift. destruct r as [e|x]; [done|]. by apply Hf.
Qed.

(** The decoder left by the rules array has no more input than the one before. *)
Lemma rulesArray_left fuel : forall index d s d' s',
  jsonRulesArray fuel index d s = (inr d', s') -> (jsonLeft d' <= jsonLeft d)%nat.
Proof.
  induction fuel as [|fuel IH]; intros index d s d' s'; cbn [jsonRulesArray]; [done|].
  destruct (jsonMore d); [|by intros [= <- _]]. unfold pbind, pjson, plift.
  destruct (jsonDecode d) as [e|[v d1]] eqn:E; [done|]. apply decode_consumes in E. simpl.
  destruct (pwrap _ _ _) as [[e|[]] s1]; [done|]. intros Hr. apply IH in Hr. lia.
Qed.

Lemma ends_rulesArray fuel : forall index d, (jsonLeft d < fuel)%nat -> ends (jsonRulesArray fuel index d).
Proof.
  induction fuel as [|fuel IH]; intros index d Hf; [lia|]. cbn [jsonRulesArray].
  destruct (jsonMore d); [|apply ends_ret]. apply ends_pjson; [apply decode_real|].
  intros [v d1] E. apply decode_consumes in E. apply ends_bind.
  - apply ends_wrap; [done|]. apply ends_jsonRule.
  - intros _. apply IH. simpl. lia.
Qed.

(** A bind that knows the result of its first part. *)
Lemma ends_bind_eq {A B} (m : P A) (f : A -> P B) :
  ends m -> (forall x, (exists s s', m s = (inr x, s')) -> ends (f x)) -> ends (pbind m f).
Proof.
  intros Hm Hf s Hs. destruct (Hm s Hs) as (He & Hl & Hend). unfold pbind.
  destruct (m s) as [[e|x] s1] eqn:E; [done|]. simpl in *.
  destruct (Hf x (ex_intro _ s (ex_intro _ s1 E)) s1) as (He' & Hl' & Hend'); [by rewrite Hend|].
  split; [done|]. split; [lia|congruence].
Qed.

Lemma ends_topFields fuel : forall found d, (jsonLeft d < fuel)%nat -> ends (jsonTopFields fuel found d).
Proof.
  induction fuel as [|fuel IH]; intros found d Hf; [lia|]. cbn [jsonTopFields].
  destruct (jsonMore d); [|apply ends_ret]. apply ends_pjson; [apply token_real|].
  intros [key d1] E1. apply token_consumes in E1. cbn [fst snd]. destruct key; try (apply ends_fail; exact I).
  destruct (String.eqb s "version").
  { apply ends_pjson; [apply decode_real|]. intros [v d2] E2. apply decode_consumes in E2.
    apply IH. simpl. lia. }
  destruct (String.eqb s "rules"); [|apply ends_fail; exact I].
  destruct found; [apply ends_fail; exact I|]. apply ends_pjson; [apply token_real|].
  intros [t d2] E2. apply token_consumes in E2. cbn [fst snd]. destruct t; try (apply ends_fail; exact I).
  destruct (Ascii.eqb c "["); [|apply ends_fail; exact I].
  apply ends_bind_eq; [apply ends_rulesArray; lia|]. intros d3 (s1 & s2 & E3).
  apply rulesArray_left in E3. apply ends_pjson; [apply token_real|]. intros [t d4] E4.
  apply token_consumes in E4. apply IH. simpl. lia.
Qed.

Lemma ends_jsonBody d : ends (jsonBody d).
Proof.
  unfold jsonBody. apply ends_pjson; [apply token_real|]. intros [t d1] E1. cbn [fst snd].
  destruct t; try (apply ends_fail; exact I). destruct (negb _); [apply ends_fail; exact I|].
  apply ends_bind; [apply ends_topFields; lia|]. intros [found d2].
  apply ends_pjson; [apply token_real|]. intros x _. destruct found; [apply ends_ret|by apply ends_fail].
Qed.

(** *** All formats *)

Definition realResult {A} (x : geoErr + A) : Prop :=
  match x with inl e => realErr e | inr _ => True end.

Lemma build_real b : realResult (buildFirewallGeoResolvedPrefixes b).
Proof.
  unfold buildFirewallGeoResolvedPrefixes. destruct (ipsPrefixes b); [|done].
  destruct (_ =? 0); [done|]. by destruct (_ <? _).
Qed.

(** A body and the build after it. *)
Lemma body_real (m : P unit) s : ends m -> realErr (rdEnd (psReader s)) ->
  realResult (match m s with
              | (inl e, _) => inl e
              | (inr _, s) => buildFirewallGeoResolvedPrefixes (psBuilder s)
              end).
Proof.
  intros Hm Hs. destruct (Hm s Hs) as (He & _). destruct (m s) as [[e|[]] s1]; [done|apply build_real].
Qed.

Lemma srs_real content : realResult (parseFirewallGeoSRS content).
Proof.
  unfold parseFirewallGeoSRS. destruct (readFullFrom_on 3 false (mkReader content None ErrEOF) I) as (He & _ & Hend).
  unfold ReadFull. destruct (readFullFrom 3 false _) as [[e|magic] r]; [done|]. simpl in Hend.
  destruct (negb _); [done|]. destruct (ReadByte_on r) as (He' & _); [by rewrite Hend|].
  destruct (ReadByte r) as [[e|version] r']; [done|]. destruct (_ || _); [done|].
  pose proof (zlib_ends (rdBytes r')) as Hz. destruct (decodeZlib (rdBytes r')) as [e|[body e]]; [by subst|].
  apply body_real; [apply ends_srsBody|]. simpl. by destruct Hz as [-> | ->].
Qed.

Lemma mrs_real content : realResult (parseFirewallGeoMRS content).
Proof.
  unfold parseFirewallGeoMRS. pose proof (zstd_ends content) as Hz.
  destruct (decodeZstd content) as [e|[body e]]; [by subst|].
  apply body_real; [apply ends_mrsBody|]. simpl. by destruct Hz as [-> | ->].
Qed.

Lemma json_real content : realResult (parseFirewallGeoJSON content).
Proof.
  unfold parseFirewallGeoJSON. destruct (_ <? _); [done|]. by apply body_real; [apply ends_jsonBody|].
Qed.

Lemma txtLines_real lines : forall count b, realResult (txtLines lines count b).
Proof.
  induction lines as [|line lines IH]; intros count b; [done|].
  assert (Hstep : realResult (if lineTooLong line then inl ErrTooLong
    else match txtLine (dropCR line) with
         | TxtSkip => txtLines lines count b
         | TxtError => inl ErrTXTLine
         | TxtPrefix entry => match addFirewallGeoPrefixString entry b with
                              | inl e => inl (ErrTXTPrefix e)
                              | inr b => txtLines lines (count + 1) b
                              end
         end)).
  { destruct (lineTooLong line); [done|]. destruct (txtLine _) as [| |entry]; [apply IH|done|].
    destruct (addFirewallGeoPrefixString entry b) eqn:E; [|apply IH].
    simpl. by eapply addPrefixString_real. }
  cbn [txtLines]. by destruct line, lines.
Qed.

Lemma txt_real content : realResult (parseFirewallGeoTXT content).
Proof.
  unfold parseFirewallGeoTXT. pose proof (txtLines_real (splitOn "010" content) 0 ipsNew) as Hl.
  destruct (txtLines _ _ _) as [e|[count b]]; [done|]. destruct (_ =? 0); [done|apply build_real].
Qed.

Lemma format_real format content : realResult (parseFirewallGeoFormat format content).
Proof.
  destruct format; [apply srs_real|apply mrs_real|apply json_real|apply txt_real].
Qed.

(** The attempts of a failed parse, all with real errors. *)
Definition realAttempts (formats : list geoFormat) (e : geoErr) : Prop :=
  exists attempts, e = ErrUnparsable attempts /\ attempts.*1 = formats /\
    Forall (fun a => realErr a.2) attempts.

Lemma tryFormats_real content formats : forall errs, Forall (fun a => realErr a.2) errs ->
  match tryFormats formats content errs with
  | inl e => realAttempts (errs.*1 ++ formats) e
  | inr res => exists format, format ∈ formats /\ parseFirewallGeoFormat format content = inr res
  end.
Proof.
  induction formats as [|format formats IH]; intros errs Herrs; simpl.
  - exists errs. by rewrite app_nil_r.
  - pose proof (format_real format content) as Hf.
    destruct (parseFirewallGeoFormat format content) as [e|res] eqn:E.
    + specialize (IH (errs ++ [(format, e)])).
      rewrite fmap_app, <- (assoc_L (++)) in IH. simpl in IH.
      assert (Hall : Forall (fun a => realErr a.2) (errs ++ [(format, e)]))
        by (apply Forall_app; split; [done|by apply Forall_singleton]).
      specialize (IH Hall). destruct (tryFormats _ _ _) as [e'|res]; [done|].
      destruct IH as (f & Hin & Hp). exists f. split; [by right|done].
    + exists format. split; [by left|done].
Qed.

(** The result of a candidate format that accepts, or an error of every one. *)
Definition properOutcome (sourceName content : string)
  (outcome : geoErr + firewallGeoResolvedPrefixes) : Prop :=
  match outcome with
  | inl e => realAttempts (firewallGeoCandidateFormats sourceName) e
  | inr res => exists format, format ∈ firewallGeoCandidateFormats sourceName /\
                 parseFirewallGeoFormat format content = inr res
  end.

(** C18: Parsing ends on every input.  For every source name and content the
    parser returns the result of a format of the candidates that accepts the
    content, or an error that records one genuine error for each
    candidate format: the levels given to nested rules and the bytes given to
    the loops always suffice. *)
Theorem parsing_terminates (sourceName content : string) :
  properOutcome sourceName content (parseFirewallGeoRuleBytes sourceName content).
Proof. exact (tryFormats_real content (firewallGeoCandidateFormats sourceName) [] (Forall_nil_2 _)). Qed.
End Termination.

(** ** The item types *)

Section ItemTypes.
Context `{IPS : IPSetLib, ENV : GeoEnv}.

(** The types sing-box writes: its constants start at zero. *)
Definition singboxItemSourceIPCIDR : Z := 5.
Definition singboxItemIPCIDR : Z := 6.
Definition singboxItemSourcePort : Z := 7.

(** C36: The item types are off by one.  The constants share a block with the
    magic string, so [iota] starts at one: what sing-box writes as a
    destination set is read as a source set, a rule-set whose first rule starts
    with a source set is refused, whatever follows, and the type of a list of
    source ports is taken for an address set. *)
Theorem srs_item_types_shifted (version count : Z) (z rest : list Z) (e : geoErr) :
  1 <= version <= 5 -> 1 <= count < 128 ->
  decodeZlib z = inr (count :: 0 :: singboxItemSourceIPCIDR :: rest, e) ->
  parseFirewallGeoSRS (firewallGeoSRSMagic ++ version :: z) =
    inl (ErrSRSAt 0 (ErrSRSItem singboxItemSourceIPCIDR)) /\
  firewallGeoSRSRuleItemSourceIPCIDR = singboxItemIPCIDR /\
  firewallGeoSRSRuleItemIPCIDR = singboxItemSourcePort.
Proof.
  intros Hv Hc Hz. split; [|done]. unfold parseFirewallGeoSRS.
  change (ReadFull 3 (mkReader (firewallGeoSRSMagic ++ version :: z) None ErrEOF)) with
    ((@inr geoErr _ firewallGeoSRSMagic), mkReader (version :: z) None ErrEOF). cbn match.
  change (bool_decide (firewallGeoSRSMagic = firewallGeoSRSMagic)) with true. cbn [negb].
  cbn [ReadByte limited rdLimit rdBytes rdEnd]. cbn match.
  destruct (Z.ltb_spec version 1), (Z.ltb_spec 5 version); try lia. cbn [orb rdBytes].
  rewrite Hz.
  assert (Hu : pread ReadUvarint (openLimited (count :: 0 :: singboxItemSourceIPCIDR :: rest, e)) =
    (inr count, mkPstate (mkReader (0 :: singboxItemSourceIPCIDR :: rest)
                  (Some firewallGeoMaxDecodedBytes) e) ipsNew noBudget)).
  { unfold pread, openLimited, ReadUvarint. cbn [psReader psBuilder psBudget fst snd].
    assert (Henc : uvarintFrom 0 [count] count) by (constructor; lia).
    erewrite (readUvarintFrom_complete 0 [count] count Henc 10 0); [by rewrite Z.mul_1_r|lia|lia|simpl; lia|].
    by repeat split; right. }
  unfold srsBody, pbind at 1. rewrite Hu. unfold firewallGeoMaxCompressedRuleCount.
  destruct (Z.ltb_spec (2 * 1000 * 1000) count); [lia|].
  destruct (Z.to_nat count) as [|n] eqn:En; [lia|]. reflexivity.
Qed.
End ItemTypes.

(** ** Concrete runs *)

#[local] Existing Instances demoIPS demoLaws demoEnv demoEnvLaws.

Lemma parsers_bounded_witness :
  let s := (srsBody (openLimited ([1; 0; 6; 1; 0; 0; 0; 0; 0; 0; 0; 1;
              4; 10; 0; 0; 0; 4; 10; 255; 255; 255; 3], ErrEOF))).2 in
  candidatePrefixes (psBudget s) = 1 /\ withinBudget (psBudget s) /\
  builtBy (candidatePrefixes (psBudget s) + jsonCIDRs (psBudget s)) (psBuilder s) /\
  limitOk (psReader s).
Proof.
  split; [vm_compute; reflexivity|].
  apply (parsers_bounded srsBody _ _ (jsonNew "")). left. reflexivity.
Defined.

Lemma parsing_terminates_witness :
  properOutcome "rules.srs" "10.0.0.1" (parseFirewallGeoRuleBytes "rules.srs" "10.0.0.1").
Proof. exact (parsing_terminates "rules.srs" "10.0.0.1"). Defined.

(** A source set for 10.0.0.0/8, as sing-box writes it. *)
Definition demoSourceSet : list Z :=
  [1; 0; 5; 1; 0; 0; 0; 0; 0; 0; 0; 1; 4; 10; 0; 0; 0; 4; 10; 255; 255; 255; 255; 0].

Lemma srs_item_types_shifted_witness :
  decodeZlib demoSourceSet = inr (demoSourceSet, ErrEOF) /\
  parseFirewallGeoSRS (firewallGeoSRSMagic ++ 1 :: demoSourceSet) =
    inl (ErrSRSAt 0 (ErrSRSItem singboxItemSourceIPCIDR)).
Proof.
  assert (H : decodeZlib demoSourceSet = inr (demoSourceSet, ErrEOF)) by (vm_compute; reflexivity).
  split; [exact H|].
  exact (proj1 (srs_item_types_shifted 1 1 demoSourceSet (drop 3 demoSourceSet) ErrEOF
                  ltac:(lia) ltac:(lia) H)).
Defined.
